(* ===== verification/_CoqProject ===== *)
-Q . S2P
Prelude.v
PyFloat.v
Runs.v
PyStr.v
PagePool.v
PyUrl.v
PyJson.v
Models.v
ProjectUrl.v
BrowserPlan.v
WorkerProtocol.v
WorkerProtocolFacts.v
WorkerProtocolSteps.v
WorkerProtocolReach.v
WorkerProtocolTheorems.v
WorkerProtocolSpec.v
Registry.v
ObsTable.v
Observations.v
Persistence.v
PersistenceFacts.v
PersistenceTheorems.v
ProbeOps.v
ProbeTheorems.v
ProbeRuntime.v
ProbeRuntimeTheorems.v
AttemptTables.v
Reconcile.v
Watcher.v
Attention.v
Dispatcher.v
Actions.v
ActionTheorems.v
Leases.v
Programs.v
ProbeOperator.v
Spawns.v
ProtocolCalls.v
Replacement.v
ChildDispatch.v
ChildCalls.v
ReplacementTheorems.v
ReplacementCompletion.v
ChildCompletion.v
ChildDispatchTheorems.v
Workers.v
Capabilities.v
Orchestration.v
OrchestrationTheorems.v
Advisory.v
TimeoutRecovery.v
OverrunContinuation.v
DispatchRuntime.v
Resident.v
ResidentCycles.v
ResidentSteps.v
ResidentPrograms.v
ResidentRounds.v
ResidentCanonical.v
ResidentTheorems.v
ChildSpawn.v
ChildBatch.v
SpawnSteps.v
SpawnPrograms.v
SpawnHistory.v
BatchTheorems.v
BatchWindows.v
SpawnDemo.v
ChatStore.v
ChatEngine.v
ChatFacts.v
ChatInvariant.v
ChatRounds.v
ChatHistory.v
ChatTheorems.v
ChatLiveness.v
ChatDemo.v
Observers.v
Telemetry.v
Host.v
