(* ===== verification/Prelude.v ===== *)
(** * localshell-web-supervisor: verification library (root file)

    The supervisor keeps long tasks alive that a language model works on in a browser chat.  A
    task has a durable record, a worker (a conversation), and evidence about it: what the page
    shows, what the local shell has written, what git says of the workspace.  The supervisor
    reads the evidence, judges it twice, and may send one prompt.  Everything it does to the
    outside is written down before it is done, so that after a crash or beside another process
    nothing is done twice.  This library translates the Python code under src/src/lws/ into
    executable definitions and proves what makes that safe.  File names below are those of
    this library, with the source files in parentheses.

    ** Parts

    - Language: PyFloat (IEEE doubles with Python's comparisons), PyStr (UTF-8 texts in code
      points, white space, case tables), PyUrl (urllib.parse), PyJson (JSON values, insertion
      order dictionaries, truth and equality of values), Runs (programs that can be
      interrupted), Programs (programs of several transactions without interruption).
    - Data: Models (models.py), one Record or Inductive per dataclass or enumeration with the
      freshness predicates; Registry (registry.py), the tables as finite maps with their unique
      indexes; ObsTable and Observations (registry.py), the four observation tables with their
      retention, the reconciliation records, the recovery log and the tracked jobs.
    - The lease protocol of a task: WorkerProtocol (worker_protocol.py) has every transition as
      a function of a snapshot; WorkerProtocolFacts the invariant, WorkerProtocolSteps the step
      relation, WorkerProtocolReach the reachable snapshots, WorkerProtocolTheorems the
      guarantees, WorkerProtocolSpec the event log as abstract specification.  Persistence
      (worker_persistence.py) is the protocol in the database, PersistenceFacts what its rows
      mean, PersistenceTheorems the refinement: the database behaves like the pure protocol.
      ProtocolCalls are the calls of it from the programs.
    - Judgement: Reconcile (reconcile.py), Watcher (watcher.py, recovery.py), Dispatcher
      (dispatcher.py), Attention (scheduler.py), Orchestration and OrchestrationTheorems
      (orchestration.py), Advisory (orchestration_adapter.py), TimeoutRecovery and
      OverrunContinuation (timeout_recovery.py, overrun_continuation.py), BrowserPlan
      (orchestrator.py), PagePool (browser_pool.py).
    - Effects on the outside, each with a durable attempt: AttemptTables (one open attempt per
      task), Actions and ActionTheorems (actions.py, action_runtime.py), DispatchRuntime
      (dispatch_runtime.py), Replacement, ReplacementTheorems and ReplacementCompletion
      (replacement.py), ProbeOps and ProbeTheorems (probe_ops.py), ProbeRuntime and
      ProbeRuntimeTheorems (page_runtime.py), ProbeOperator (probe_operator.py), Capabilities
      (lifecycle.py, capabilities.py), Leases (watchdog leases and cooldowns of registry.py),
      Workers (tasks, workers and window leases of registry.py).
    - Children of a task: ChildDispatch, ChildCalls, ChildDispatchTheorems, ChildCompletion
      (the contract with a child, in registry.py), Spawns (the table of spawn attempts),
      ProjectUrl and ChildSpawn (child_spawn.py) with SpawnSteps, SpawnPrograms, SpawnHistory
      and SpawnDemo, ChildBatch (child_batch.py) with BatchTheorems and BatchWindows.
    - The chat dispatcher: ChatStore and ChatEngine (chat_dispatch.py), with ChatFacts,
      ChatInvariant, ChatRounds, ChatHistory, ChatTheorems, ChatLiveness and ChatDemo.
    - The resident supervisor: Resident and ResidentCycles (the watch loop, the recovery cycles
      and the commands around them in cli.py), with ResidentSteps, ResidentPrograms,
      ResidentRounds, ResidentCanonical and ResidentTheorems.  It composes most of the parts
      above: it refreshes the evidence, asks Watcher, Dispatcher, TimeoutRecovery and
      OverrunContinuation, and sends through DispatchRuntime and Actions.
    - The edges: Observers (browser.py, uia.py), the readers of pages; Telemetry (lsm.py,
      workspace.py), the readers of the local shell and of git; Host (watchdog_host.py,
      doctor.py, runtime_state.py), which starts, stops and inspects the resident supervisor
      and finds its registry.

    ** How the model corresponds to the code

    A function of the code is a definition with its name where Rocq allows it; parts of a long
    function have names of their own.  Errors are values: [res A] is a value or an exception
    with its class and message, and a registry operation of type [res (Registry * A)] that
    raises leaves the registry as it was, as the rollback of its transaction does.  The clock
    and fresh ids are arguments or answers of the environment.  NULL and None are [None]; a
    NaN is stored as NULL.  [ORDER BY] orders as the code says; where rows tie, the choice is
    a parameter ([TieOrder]).

    A program of several transactions has type [eff (World St Ev) A] (Runs): it moves a store,
    a step counter and a log.  Each call of the registry and each call of the outside is one
    step; before every step the other processes may change the store ([run_others]), and the
    process may be killed there ([run_killed]).  The log records the calls of the outside with
    the store they find, and the theorems about effects speak of it, so they hold for a run
    that was cut anywhere.  The module [Pool] of Runs is for many runs of one program at once: a
    schedule starts runs, advances any of them by a step, and kills any of them, and the
    theorems on submissions and takeovers hold for every schedule.  A call of the registry is
    one step also where the code reads a row and writes it back outside of one transaction
    (Registry.v lists these operations); only the submission of a replacement is split there.
    A program of [Programs] keeps what it committed when a later
    transaction raises; where an interruptible program calls one (the completion of a child,
    a lease call of the protocol), it is one step, a coarser interleaving than that of the
    processes.  Named restrictions of the other processes: [SpawnsAlone] (they leave the spawn
    attempts alone and do not take back the history of a worker; SpawnDemo shows that two
    openers of one attempt can otherwise both pass the check), [Alone] (nobody else is at work
    during a batch), [Bystanders] (they keep the store well-formed, and attempts stay in the
    table and only age), and for the doctor and the telemetry cache that nobody else is at
    work on their store.  That there is one chat dispatcher is not assumed but proved
    ([dispatcher_is_unique]).

    Loops that the code ends by a clock or by an empty queue have fuel: [worker_loop] (chat
    dispatcher), [watch_loop] (resident), [await_window] (probe transport), [await_lease] and
    [await_gone] (host), the string functions (their fuel is the length of the text).  A run
    out of fuel is a value of its own, never a result: the theorems cover it, and
    [drained_dispatcher_exits] and the last part of [probe_transport_is_gated] give the fuel
    that is enough.

    ** Parameters

    [UnicodeTables] (lower, casefold), [NetlocCheck] (the checks of urlsplit on a network
    location), [Formatting] and [Numbers] (texts of numbers and of values), [Digests] (SHA-256),
    [PromptTexts] (the fixed prompts), [ButtonTexts] (json.dumps of buttons), [TieOrder],
    [Uuids], [RunEnv] (clock, other processes, kills), and what drives or reads the outside:
    [ChatDispatchBrowser] and [ChatEnv] (chat dispatcher), the record of a child spawn
    transport, [EvidenceProviders] (advisory adapter), [Desktop] (resident supervisor and
    doctor), [ProbeShell] (probe transport), [UiaScripts] (the PowerShell probes), [LsmFiles]
    and [GitWorkspace] (state files, git), [ChromeFile] (the version of the browser),
    [HostSystem], [DoctorProbes] and [StateFiles] (host).  Their answers are
    arbitrary; the theorems assume nothing of them beyond what a statement names.

    ** What the theorems show

    - The lease protocol: at most one worker has authority, an older generation or a terminal
      worker never gets it back, every call is answered, and the log replays to the state; the
      database refines this over the protocol calls and the bootstraps, across reloads, when a
      child that names its root is bootstrapped after its parent.
    - Nothing is sent, opened, closed or taken over twice: [probe_authority_once],
      [probe_transport_is_gated], [spawn_effects_are_fenced], [prompt_sends_are_fenced],
      [resident_sends_are_fenced], [one_send_per_round].  Two theorems bound the effects and say
      what is left to the caller: by [transport_used_once] an execution uses the transport once,
      and after a crash before the record nothing more is sent for the task, while a direct
      second submission of a stored attempt would send again; by [takeover_submitted_once] a
      submission that begins after one succeeded is refused, while two that overlap can both
      succeed.
    - What is reported was observed: [acknowledged_is_observed], [spawn_completion_is_observed],
      [completion_publishes_candidate], [operator_evidence_is_typed],
      [adopted_slot_is_recognised], [lsm_evidence_is_current].
    - Advice is safe and canonical: [recommendation_is_safe], [timeout_recovery_is_fenced],
      [advisory_recommendation_is_live], [overrun_tasks_are_canonical]; the silence that most
      of it rests on is that of the whole sequence of samples ([dom_silence_is_exact]).
    - Children: their contracts are permanent, their creation and completion idempotent and
      durable, and a batch fails closed and gives its windows back.
    - The host: a launch and a stop are fenced by the lease they see, the doctor only reads,
      and the registry is never split ([registry_is_never_split]).
    - Termination and liveness: [drained_dispatcher_exits], [child_completion_succeeds].

    Theorems whose statement the manifest does not list are kept as lemmas of their parts.

    ** Not modelled

    The parser of the command line, printing and the subcommands that pass their arguments to
    one modelled operation (cli.py); the PowerShell and UI Automation scripts and the classes
    that only run them (uia.py, uia_actions.py, chat_dispatch.py, child_spawn.py,
    page_runtime.py); the attachment through the debugging protocol of the browser (cdp.py);
    the probes of memory and processes (ram.py); opening, migrating and locking the database
    (db.py), whose schema is the shape of [Registry] and [Observations]; [KeyboardInterrupt].
    They are input and output around the modelled operations, or code of
    another language. *)

From stdpp Require Export base tactics option list strings sorting gmap fin_maps.
From Stdlib Require Export ZArith Lia.

#[export] Set Default Goal Selector "!".
#[export] Set Warnings "-clear-no-such-hyp".

Declare Scope py_scope.
Delimit Scope py_scope with py.

(** ** Python exceptions and the result monad

    An operation of the model returns [res A]: [Ok a] when the Python function
    returns [a], [Err e] when it raises.  An exception is its class and its
    message. *)

Inductive exn_class :=
  | ValueError
  | TypeError
  | KeyError
  | RuntimeError
  | AssertionError
  | IntegrityError
  | ProtocolInvariantError
  | WorkerProtocolPersistenceError
  | ActionBlocked
  | ActionTransportDisabled
  | DispatchDisabled
  | CapabilityProvenanceError
  | PagePoolError
  | StopIteration
  | IndexError
  | ReplacementBlocked
  | ChildSpawnBlocked
  | UiaProbeUnavailable
  | UiaActionUnavailable
  | UnsupportedLsmState
  | WatchdogLeaseLost
  | ProbeWindowTransportDisabled
  | ProbeOperatorEvidenceError
  | AttributeError
  | NameError
  | OSError.

#[export] Instance exn_class_eq_dec : EqDecision exn_class.
Proof. solve_decision. Defined.

(** [isinstance(exc, RuntimeError)] and [isinstance(exc, ValueError)] *)
Definition is_runtime_error (c : exn_class) : bool :=
  match c with
  | RuntimeError | ProtocolInvariantError | WorkerProtocolPersistenceError | ActionBlocked
  | ActionTransportDisabled | DispatchDisabled | PagePoolError | ReplacementBlocked
  | ChildSpawnBlocked | UiaProbeUnavailable | UiaActionUnavailable | UnsupportedLsmState
  | WatchdogLeaseLost | ProbeWindowTransportDisabled => true
  | _ => false
  end.

Definition is_value_error (c : exn_class) : bool :=
  match c with
  | ValueError | CapabilityProvenanceError | ProbeOperatorEvidenceError => true
  | _ => false
  end.

Record exn := Exn { exn_type : exn_class; exn_msg : string }.

#[export] Instance exn_eq_dec : EqDecision exn.
Proof. solve_decision. Defined.

Inductive res (A : Type) :=
  | Ok (a : A)
  | Err (e : exn).
Arguments Ok {A} a.
Arguments Err {A} e.

#[export] Instance res_ret : MRet res := fun A a => Ok a.
#[export] Instance res_bind : MBind res := fun A B f m =>
  match m with Ok a => f a | Err e => Err e end.

Definition raise {A} (c : exn_class) (msg : string) : res A := Err (Exn c msg).

(** [if b: raise c(msg)] *)
Definition raise_if (b : bool) (c : exn_class) (msg : string) : res unit :=
  if b then raise c msg else Ok tt.

Definition is_Ok {A} (r : res A) : Prop := ∃ a, r = Ok a.

Definition res_ok {A} (r : res A) : bool :=
  match r with Ok _ => true | Err _ => false end.

Section ResLemmas.
Context {A B : Type}.

Lemma bind_Ok_inv (m : res A) (f : A → res B) b :
  m ≫= f = Ok b → ∃ a, m = Ok a ∧ f a = Ok b.
Proof. destruct m; cbn; [eauto | done]. Qed.

Lemma unit_bind_Ok (m : res unit) (k : res A) a :
  (m;; k) = Ok a ↔ m = Ok tt ∧ k = Ok a.
Proof. destruct m as [[]|]; cbn; naive_solver. Qed.

Lemma raise_if_Ok_inv b c msg u : raise_if b c msg = Ok u → b = false.
Proof. by destruct b. Qed.

Lemma Ok_bind (a : A) (f : A → res B) : Ok a ≫= f = f a.
Proof. done. Qed.

Lemma bind_Ok (m : res A) (f : A → res B) b :
  m ≫= f = Ok b ↔ ∃ a, m = Ok a ∧ f a = Ok b.
Proof. destruct m; cbn; naive_solver. Qed.

Lemma raise_if_then b c msg (k : res A) a :
  (raise_if b c msg;; k) = Ok a ↔ b = false ∧ k = Ok a.
Proof. destruct b; cbn; naive_solver. Qed.

Lemma raise_if_Ok b c msg u : raise_if b c msg = Ok u ↔ b = false.
Proof. destruct b, u; naive_solver. Qed.

Lemma raise_if_false c msg : raise_if false c msg = Ok tt.
Proof. done. Qed.
End ResLemmas.

(** [for x in xs: r = f(r, x)], stopping at the first exception. *)
Fixpoint fold_res {A B} (f : B → A → res B) (b : B) (xs : list A) : res B :=
  match xs with
  | [] => Ok b
  | x :: xs' => f b x ≫= λ b', fold_res f b' xs'
  end.

(** An invariant of the loop. *)
Lemma fold_res_ind {A B} (f : B → A → res B) (P : list A → B → Prop) xs b b' :
  P [] b →
  (∀ done x b1 b2, (∃ rest, xs = done ++ x :: rest) → P done b1 → f b1 x = Ok b2 →
     P (done ++ [x]) b2) →
  fold_res f b xs = Ok b' → P xs b'.
Proof.
  intros H0 Hstep H.
  assert (∀ rest done b, xs = done ++ rest → P done b → fold_res f b rest = Ok b' → P xs b') as Hgen;
    [|by eapply (Hgen xs [])].
  clear b H0 H. induction rest as [|x rest IH]; intros done b Hxs Hb H; cbn in H.
  - injection H as <-. by rewrite Hxs, app_nil_r.
  - apply bind_Ok_inv in H as (b2 & Hb2 & H). apply (IH (done ++ [x]) b2); [|by eauto|done].
    by rewrite <- app_assoc.
Qed.

(** A computation whose only exceptions are of class [c]. *)
Definition raises_only {A} (c : exn_class) (m : res A) : Prop :=
  ∀ e, m = Err e → exn_type e = c.

Lemma raises_only_Ok {A} c (a : A) : raises_only c (Ok a).
Proof. by intros e. Qed.

Lemma raises_only_raise {A} c msg : raises_only c (@raise A c msg).
Proof. by intros e [= <-]. Qed.

Lemma raises_only_raise_if b c msg : raises_only c (raise_if b c msg).
Proof. destruct b; [apply raises_only_raise|apply raises_only_Ok]. Qed.

Lemma raises_only_bind {A B} c (m : res A) (f : A → res B) :
  raises_only c m → (∀ a, raises_only c (f a)) → raises_only c (m ≫= f).
Proof. intros Hm Hf e. destruct m; cbn; [apply Hf|]. intros [= <-]. by apply Hm. Qed.

(** ** Functional record update

    [r <| f := v |>] is [dataclasses.replace(r, f=v)].  A record declares its
    eta-expansion once, as an instance of [Eta]; the setter of each field is
    computed from it. *)

Class Eta (R : Type) := eta : R → R.

Class FieldSet {R E : Type} (f : R → E) := fset : E → R → R.
Arguments fset {R E} f {_} _ _ /.

Ltac solve_field_set f :=
  let R := match type of f with ?R → _ => R end in
  let inst := constr:(_ : Eta R) in
  let body := eval hnf in inst in
  let v := fresh "v" in
  let r := fresh "r" in
  intros v r;
  let t := eval cbv beta in (body r) in
  let t' := eval pattern (f r) in t in
  match t' with
  | ?g _ => let u := eval cbv beta in (g v) in exact u
  end.

#[export] Hint Extern 1 (FieldSet ?f) => solve_field_set f : typeclass_instances.

Notation "r <| f := v |>" := (fset f v r)
  (at level 1, left associativity, f at level 10, v at level 99,
   format "r  <| f  :=  v |>") : stdpp_scope.

(** ** Tactics of the development *)

(** Case analysis on every boolean test and match scrutinee of the goal. *)
Ltac split_matches :=
  repeat match goal with
  | |- context [match ?x with _ => _ end] =>
      lazymatch x with
      | context [match _ with _ => _ end] => fail
      | _ => destruct x eqn:?
      end
  end.

(** The same for a hypothesis that is an equation on a model definition. *)
Ltac split_matches_in H :=
  repeat (match type of H with
  | context [match ?x with _ => _ end] =>
      lazymatch x with
      | context [match _ with _ => _ end] => fail
      | _ => destruct x eqn:?
      end
  end; simplify_eq/=).

(** Case analysis on the outermost test of an equation. *)
Tactic Notation "case_test" "in" hyp(H) "as" ident(E) :=
  match type of H with (if ?b then _ else _) = _ => destruct b eqn:E end.

(** Invert one [bind] of a successful computation. *)
Ltac inv_bind H :=
  apply bind_Ok_inv in H; destruct H as (? & ? & H).

(** Turn boolean connectives in the context into propositions. *)
Ltac bool_to_prop :=
  repeat match goal with
  | H : _ && _ = true |- _ => apply andb_true_iff in H; destruct H
  | H : _ || _ = false |- _ => apply orb_false_iff in H; destruct H
  | H : negb _ = true |- _ => apply negb_true_iff in H
  | H : negb _ = false |- _ => apply negb_false_iff in H
  | H : bool_decide _ = true |- _ => apply bool_decide_eq_true in H
  | H : bool_decide _ = false |- _ => apply bool_decide_eq_false in H
  | H : raise_if _ _ _ = Ok _ |- _ => apply raise_if_Ok_inv in H
  | H : (_ =? _)%Z = true |- _ => apply Z.eqb_eq in H
  | H : (_ =? _)%Z = false |- _ => apply Z.eqb_neq in H
  | H : (_ <? _)%Z = true |- _ => apply Z.ltb_lt in H
  | H : (_ <? _)%Z = false |- _ => apply Z.ltb_ge in H
  | H : (_ <=? _)%Z = true |- _ => apply Z.leb_le in H
  | H : (_ <=? _)%Z = false |- _ => apply Z.leb_gt in H
  end.

(** ** Lists *)

Section Lists.
Context {A : Type}.

(** [next((x for x in l if p x), None)] *)
Definition next_where (p : A → bool) (l : list A) : option A := List.find p l.

Lemma next_where_Some p l x : next_where p l = Some x → x ∈ l ∧ p x = true.
Proof. intros H. apply List.find_some in H. by rewrite list_elem_of_In. Qed.

(** The list around the first element that [p] holds of. *)
Fixpoint split_where (p : A → bool) (l : list A) : option (list A * A * list A) :=
  match l with
  | [] => None
  | x :: l' =>
      if p x then Some ([], x, l')
      else match split_where p l' with
           | Some (before, y, after) => Some (x :: before, y, after)
           | None => None
           end
  end.

Lemma split_where_eq p l before x after :
  split_where p l = Some (before, x, after) → l = before ++ x :: after.
Proof.
  revert before. induction l as [|y l IH]; intros before; cbn; [done|].
  destruct (p y); [by intros [= <- <- <-]|].
  destruct (split_where p l) as [[[b z] a]|]; [|done]. intros [= <- -> ->].
  cbn. f_equal. by apply IH.
Qed.

Lemma split_where_holds p l before x after :
  split_where p l = Some (before, x, after) → p x = true.
Proof.
  revert before. induction l as [|y l IH]; intros before; cbn; [done|].
  destruct (p y) eqn:Hy; [by intros [= <- <- <-]|].
  destruct (split_where p l) as [[[b z] a]|]; [|done]. intros [= <- -> ->]. by eapply IH.
Qed.

Lemma next_where_None p l : next_where p l = None → ∀ x, x ∈ l → p x = false.
Proof.
  intros H x Hx. apply (List.find_none _ _ H). by apply list_elem_of_In.
Qed.

Lemma next_where_None_intro p l :
  (∀ x, x ∈ l → p x = false) → next_where p l = None.
Proof.
  intros H. destruct (next_where p l) as [x|] eqn:E; [|done].
  apply next_where_Some in E as [Hx Hp]. rewrite H in Hp; done.
Qed.

Lemma next_where_is_Some p l x :
  x ∈ l → p x = true → ∃ y, next_where p l = Some y.
Proof.
  intros Hx Hp. destruct (next_where p l) eqn:E; [eauto|].
  rewrite (next_where_None _ _ E x Hx) in Hp; done.
Qed.
End Lists.

(** *** Stable sorting by a boolean order: Python's [sorted] *)

Section Sorting.
Context {A : Type} (leb : A → A → bool).

Fixpoint insert_sorted (x : A) (l : list A) : list A :=
  match l with
  | [] => [x]
  | y :: l' => if leb x y then x :: l else y :: insert_sorted x l'
  end.

Fixpoint py_sorted (l : list A) : list A :=
  match l with
  | [] => []
  | x :: l' => insert_sorted x (py_sorted l')
  end.

Lemma insert_sorted_perm x l : insert_sorted x l ≡ₚ x :: l.
Proof.
  induction l as [|y l IH]; cbn; [done|].
  destruct (leb x y); [done|]. rewrite IH. apply Permutation_swap.
Qed.

Lemma py_sorted_perm l : py_sorted l ≡ₚ l.
Proof. induction l as [|x l IH]; cbn; [done|]. by rewrite insert_sorted_perm, IH. Qed.

Lemma elem_of_py_sorted x l : x ∈ py_sorted l ↔ x ∈ l.
Proof. by rewrite py_sorted_perm. Qed.

Section Ordered.
Context (leb_total : ∀ x y, leb x y = true ∨ leb y x = true).
Context (leb_trans : ∀ x y z, leb x y = true → leb y z = true → leb x z = true).

Lemma insert_sorted_HdRel x y l :
  leb y x = true → HdRel (λ a b, leb a b = true) y l →
  HdRel (λ a b, leb a b = true) y (insert_sorted x l).
Proof.
  intros Hyx Hl. destruct l as [|z l]; cbn; [by constructor|].
  apply HdRel_inv in Hl. destruct (leb x z); by constructor.
Qed.

Lemma insert_sorted_Sorted x l :
  Sorted (λ a b, leb a b = true) l →
  Sorted (λ a b, leb a b = true) (insert_sorted x l).
Proof using leb_total.
  induction l as [|y l IH]; cbn; intros Hs; [by repeat constructor|].
  apply Sorted_inv in Hs as [Hs Hhd].
  destruct (leb x y) eqn:E; [by repeat constructor|].
  constructor; [auto|]. apply insert_sorted_HdRel; [|done].
  destruct (leb_total x y); [congruence|done].
Qed.

Lemma py_sorted_Sorted l : Sorted (λ a b, leb a b = true) (py_sorted l).
Proof using leb_total.
  induction l; cbn; [constructor|]. by apply insert_sorted_Sorted.
Qed.

(** Sorting a sorted list is the identity (whatever the ties are). *)
Lemma py_sorted_id l : Sorted (λ a b, leb a b = true) l → py_sorted l = l.
Proof.
  induction l as [|x l IH]; cbn; intros Hs; [done|].
  apply Sorted_inv in Hs as [Hs Hhd]. rewrite IH by done.
  destruct l as [|y l]; cbn; [done|]. apply HdRel_inv in Hhd. by rewrite Hhd.
Qed.
End Ordered.
End Sorting.

(** Sorting by a string key, [sorted(l, key=...)]. *)
Definition leb_key {A} (key : A → string) (x y : A) : bool :=
  String.leb (key x) (key y).

Section SortByKey.
Context {A : Type} (key : A → string).

Lemma string_leb_trans s1 s2 s3 :
  String.leb s1 s2 = true → String.leb s2 s3 = true → String.leb s1 s3 = true.
Proof.
  intros H1 H2. apply Is_true_true.
  assert (String.le s1 s3) as H; [|done].
  etrans; by apply Is_true_true.
Qed.

Lemma leb_key_total x y : leb_key key x y = true ∨ leb_key key y x = true.
Proof. apply String.leb_total. Qed.

Lemma leb_key_trans x y z :
  leb_key key x y = true → leb_key key y z = true → leb_key key x z = true.
Proof. apply string_leb_trans. Qed.

(** Two sorted lists with the same elements are equal once the keys
    identify the elements. *)
Lemma sorted_by_key_unique l1 l2 :
  Sorted (λ a b, leb_key key a b = true) l1 →
  Sorted (λ a b, leb_key key a b = true) l2 →
  (∀ x y, x ∈ l1 → y ∈ l1 → key x = key y → x = y) →
  l1 ≡ₚ l2 → l1 = l2.
Proof.
  intros H1 H2 Hinj Hp.
  assert (Transitive (λ a b, leb_key key a b = true)) by (intros ???; apply leb_key_trans).
  eapply Sorted_unique_strong; try done.
  intros x y Hx Hy Hxy Hyx. apply Hinj; try done.
  - by rewrite Hp.
  - by apply String.leb_antisym.
Qed.

Lemma py_sorted_by_key_perm l1 l2 :
  (∀ x y, x ∈ l1 → y ∈ l1 → key x = key y → x = y) →
  l1 ≡ₚ l2 → py_sorted (leb_key key) l1 = py_sorted (leb_key key) l2.
Proof.
  intros Hinj Hp. apply sorted_by_key_unique.
  - apply py_sorted_Sorted, leb_key_total.
  - apply py_sorted_Sorted, leb_key_total.
  - intros x y. rewrite !elem_of_py_sorted. apply Hinj.
  - by rewrite !py_sorted_perm.
Qed.
End SortByKey.

(** Filtering keeps the order and the absence of duplicates. *)
Lemma filter_sorted {A} (key : A → string) (p : A → bool) l :
  Sorted (λ a b, leb_key key a b = true) l →
  Sorted (λ a b, leb_key key a b = true) (List.filter p l).
Proof.
  assert (Transitive (λ a b : A, leb_key key a b = true)) by (intros ???; apply leb_key_trans).
  intros Hs%Sorted_StronglySorted; [|done]. apply StronglySorted_Sorted.
  induction Hs as [|x l Hs IH Hall]; cbn; [constructor|]. destruct (p x); [|done].
  constructor; [done|]. rewrite Forall_forall in *. intros y Hy. apply Hall.
  rewrite list_elem_of_In, List.filter_In, <- list_elem_of_In in Hy. apply Hy.
Qed.

Lemma elem_of_filterb {A} (p : A → bool) l x : x ∈ List.filter p l ↔ x ∈ l ∧ p x = true.
Proof. by rewrite !list_elem_of_In, List.filter_In. Qed.

Lemma NoDup_filterb {A} (p : A → bool) (l : list A) : NoDup l → NoDup (List.filter p l).
Proof. rewrite !NoDup_ListNoDup. apply List.NoDup_filter. Qed.

(** A key that has no duplicates identifies the element. *)
Lemma NoDup_fmap_elem {A B} (f : A → B) (l : list A) x y :
  NoDup (f <$> l) → x ∈ l → y ∈ l → f x = f y → x = y.
Proof.
  induction l as [|z l IH]; cbn; [by intros _ ?%not_elem_of_nil|].
  intros [Hni Hnd]%NoDup_cons [->|Hx]%elem_of_cons [->|Hy]%elem_of_cons E; [done| | |by apply IH].
  - destruct Hni. rewrite E. by apply list_elem_of_fmap_2.
  - destruct Hni. rewrite <- E. by apply list_elem_of_fmap_2.
Qed.

Create HintDb lws discriminated.
#[export] Hint Resolve leb_key_total : lws.
#[export] Hint Resolve raises_only_Ok raises_only_raise raises_only_raise_if
  raises_only_bind : lws.

(** ** Python's min *)

(** [min] keeps the first of the least elements: an element replaces the best one so far
    when it is smaller. *)
Fixpoint py_min_from {A} (lt : A → A → bool) (best : A) (l : list A) : A :=
  match l with
  | [] => best
  | x :: l => py_min_from lt (if lt x best then x else best) l
  end.

Definition py_min {A} (lt : A → A → bool) (l : list A) : option A :=
  match l with [] => None | x :: l => Some (py_min_from lt x l) end.

Section PyMin.
Context {A : Type} (lt : A → A → bool).

Lemma py_min_from_elem x l : py_min_from lt x l ∈ x :: l.
Proof.
  revert x. induction l as [|y l IH]; intros x; cbn; [by left|].
  specialize (IH (if lt y x then y else x)). apply elem_of_cons in IH as [->|Hin].
  - destruct (lt y x); [by right; left|by left].
  - by right; right.
Qed.

Lemma py_min_elem l x : py_min lt l = Some x → x ∈ l.
Proof. destruct l as [|y l]; intros [= <-]. apply py_min_from_elem. Qed.

(** An element of a class below all others wins over the elements outside the class. *)
Lemma py_min_from_class (P : A → Prop) `{!∀ x, Decision (P x)} (L : list A) x l :
  (∀ u v, u ∈ L → v ∈ L → P u → ¬ P v → lt u v = true ∧ lt v u = false) →
  (∀ u, u ∈ x :: l → u ∈ L) → (∃ u, u ∈ x :: l ∧ P u) → P (py_min_from lt x l).
Proof.
  intros Hlt. revert x. induction l as [|y l IH]; intros x HL (u & Hin & Hu); cbn.
  - by apply list_elem_of_singleton in Hin as <-.
  - assert (x ∈ L) as HxL by (apply HL; by left).
    assert (y ∈ L) as HyL by (apply HL; right; by left).
    apply IH; [intros v [->|Hv]%elem_of_cons; [by destruct (lt y x)|apply HL; by right; right]|].
    destruct (decide (P y)) as [Hy|Hy], (decide (P x)) as [Hx|Hx].
    + exists (if lt y x then y else x). split; [by left|by destruct (lt y x)].
    + exists y. destruct (Hlt y x HyL HxL Hy Hx) as [-> _]. split; [by left|done].
    + exists x. destruct (Hlt x y HxL HyL Hx Hy) as [_ ->]. split; [by left|done].
    + exists u. split; [|done]. apply elem_of_cons in Hin as [->|Hin]; [done|].
      apply elem_of_cons in Hin as [->|Hin]; [done|]. by right.
Qed.

Lemma py_min_class (P : A → Prop) `{!∀ x, Decision (P x)} l x :
  (∀ u v, u ∈ l → v ∈ l → P u → ¬ P v → lt u v = true ∧ lt v u = false) →
  py_min lt l = Some x → (∃ u, u ∈ l ∧ P u) → P x.
Proof. destruct l as [|y l]; intros Hlt [= <-] Hex. by eapply (py_min_from_class P (y :: l)). Qed.

Lemma py_min_is_Some l u : u ∈ l → is_Some (py_min lt l).
Proof. destruct l; [by intros ?%not_elem_of_nil|by eexists]. Qed.
End PyMin.
