(* ===== verification/PyFloat.v ===== *)
(** * Python floats

    A Python [float] is an IEEE-754 binary64 number.  The model uses the
    executable specification [spec_float] at precision 53 and maximal exponent
    1024, so rounding, absorption, infinities and NaN are those of the code:
    [now + lease_seconds] may equal [now], and every comparison with NaN is
    false.  The file gives the operations the program uses and the order laws
    its proofs need: [flt] is a strict order, [fle] its reflexive closure on the
    numbers that are not NaN. *)

From Corelib Require Import SpecFloat.
From S2P Require Import Prelude.

Open Scope Z_scope.

Definition float : Type := spec_float.

#[export] Instance float_eq_dec : EqDecision float.
Proof. solve_decision. Defined.

Definition fnan : float := S754_nan.
Definition finf : float := S754_infinity false.

(** Arithmetic: [x + y], [x - y], [x * y], [x / y]. *)
Definition fadd (x y : float) : float := SFadd 53 1024 x y.
Definition fsub (x y : float) : float := SFsub 53 1024 x y.
Definition fmul (x y : float) : float := SFmul 53 1024 x y.
Definition fdiv (x y : float) : float := SFdiv 53 1024 x y.

(** Comparisons: [x < y], [x <= y], [x == y]. *)
Definition flt (x y : float) : bool := SFltb x y.
Definition fle (x y : float) : bool := SFleb x y.
Definition feq (x y : float) : bool := SFeqb x y.

(** [float(z)] for an integer, and the decimal literal [n/10^k]. *)
Definition of_Z (z : Z) : float := binary_normalize 53 1024 z 0 false.
Definition of_dec (n k : Z) : float := fdiv (of_Z n) (of_Z (10 ^ k)).

(** The integer that a float is exactly equal to. *)
Definition float_is_int (f : float) (z : Z) : bool :=
  match f with
  | S754_zero _ => Z.eqb z 0
  | S754_finite s m e =>
      let v := if s then Z.neg m else Z.pos m in
      if Z.leb 0 e then Z.eqb z (v * 2 ^ e) else Z.eqb (z * 2 ^ (- e)) v
  | _ => false
  end.

Definition is_nan (x : float) : bool :=
  match x with S754_nan => true | _ => false end.

(** [max(x, y)] keeps [x] unless [y > x]; [min(x, y)] keeps [x] unless [y < x]. *)
Definition fmax (x y : float) : float := if flt x y then y else x.
Definition fmin (x y : float) : float := if flt y x then y else x.

(** [max(xs)] of a non-empty list [x :: xs]. *)
Definition fmax_list (x : float) (xs : list float) : float := foldl fmax x xs.

Notation "x '<f' y" := (flt x y) (at level 70, no associativity) : py_scope.
Notation "x '<=f' y" := (fle x y) (at level 70, no associativity) : py_scope.
Notation "x '+f' y" := (fadd x y) (at level 50, left associativity) : py_scope.
Notation "x '-f' y" := (fsub x y) (at level 50, left associativity) : py_scope.

(** ** The order

    A number that is not NaN is ordered by a key: sign class, exponent and
    mantissa, compared lexicographically. *)

Definition fkey (x : float) : option (Z * Z * Z) :=
  match x with
  | S754_nan => None
  | S754_zero _ => Some (0, 0, 0)
  | S754_infinity true => Some (-2, 0, 0)
  | S754_infinity false => Some (2, 0, 0)
  | S754_finite true m e => Some (-1, - e, - Zpos m)
  | S754_finite false m e => Some (1, e, Zpos m)
  end.

Definition key_lt (a b : Z * Z * Z) : Prop :=
  let '(a1, a2, a3) := a in
  let '(b1, b2, b3) := b in
  a1 < b1 ∨ (a1 = b1 ∧ (a2 < b2 ∨ (a2 = b2 ∧ a3 < b3))).

Lemma flt_key x y :
  flt x y = true ↔ ∃ a b, fkey x = Some a ∧ fkey y = Some b ∧ key_lt a b.
Proof.
  unfold flt, SFltb. split.
  - destruct x as [[]|[]| |[] m e], y as [[]|[]| |[] m' e']; cbn; intros H;
      try discriminate; eexists _, _; (split; [done|split; [done|]]); cbn; try lia.
    all: destruct (Z.compare_spec e e'); try discriminate; try lia; subst.
    all: change (Pos.compare_cont Eq m m') with (Pos.compare m m') in H.
    all: destruct (Pos.compare_spec m m'); cbn in H; try discriminate; lia.
  - intros (a & b & Ha & Hb & Hlt).
    destruct x as [[]|[]| |[] m e], y as [[]|[]| |[] m' e']; cbn in *;
      simplify_eq/=; try lia; try done.
    all: destruct (Z.compare_spec e e'); try lia; try done.
    all: change (Pos.compare_cont Eq m m') with (Pos.compare m m').
    all: destruct (Pos.compare_spec m m'); cbn; try lia; done.
Qed.

Lemma fle_key x y :
  fle x y = true ↔ ∃ a b, fkey x = Some a ∧ fkey y = Some b ∧ ¬ key_lt b a.
Proof.
  assert (fle x y = negb (flt y x) && negb (is_nan x) && negb (is_nan y)) as ->.
  { unfold fle, flt, SFleb, SFltb.
    destruct x as [[]|[]| |[] m e], y as [[]|[]| |[] m' e']; cbn; try done;
      rewrite (Z.compare_antisym e' e); destruct (Z.compare e' e); cbn; try done;
      change (Pos.compare_cont Eq m m') with (Pos.compare m m');
      change (Pos.compare_cont Eq m' m) with (Pos.compare m' m);
      rewrite (Pos.compare_antisym m' m); by destruct (Pos.compare m' m). }
  split.
  - intros H. bool_to_prop.
    destruct (fkey x) as [a|] eqn:Ex; [|by destruct x as [|[]| |[]]].
    destruct (fkey y) as [b|] eqn:Ey; [|by destruct y as [|[]| |[]]].
    exists a, b. split; [done|split; [done|]]. intros Hlt.
    assert (flt y x = true) by (apply flt_key; eauto). congruence.
  - intros (a & b & Ha & Hb & Hn).
    destruct (flt y x) eqn:E.
    + apply flt_key in E as (b' & a' & ? & ? & ?). simplify_eq. done.
    + destruct x as [|[]| |[]], y as [|[]| |[]]; done.
Qed.

Lemma key_lt_irrefl a : ¬ key_lt a a.
Proof. destruct a as [[]]; cbn; lia. Qed.

Lemma key_lt_trans a b c : key_lt a b → key_lt b c → key_lt a c.
Proof. destruct a as [[]], b as [[]], c as [[]]; cbn; lia. Qed.

Lemma key_lt_cotrans a b c : key_lt a c → key_lt a b ∨ key_lt b c.
Proof. destruct a as [[]], b as [[]], c as [[]]; cbn; lia. Qed.

Ltac fkeys :=
  repeat match goal with
  | H : flt _ _ = true |- _ => apply flt_key in H as (? & ? & ? & ? & ?)
  | H : fle _ _ = true |- _ => apply fle_key in H as (? & ? & ? & ? & ?)
  end; simplify_eq.

Lemma flt_irrefl x : flt x x = false.
Proof.
  destruct (flt x x) eqn:E; [|done]. fkeys. by edestruct key_lt_irrefl.
Qed.

Lemma flt_trans x y z : flt x y = true → flt y z = true → flt x z = true.
Proof. intros. fkeys. apply flt_key. eauto 10 using key_lt_trans. Qed.

Lemma flt_fle x y : flt x y = true → fle x y = true.
Proof.
  intros. fkeys. apply fle_key. eexists _, _. split_and!; try done.
  intros ?. eapply key_lt_irrefl; eauto using key_lt_trans.
Qed.

Lemma fle_flt_trans x y z : fle x y = true → flt y z = true → flt x z = true.
Proof.
  intros. fkeys. apply flt_key. eexists _, _. split_and!; try done.
  match goal with H : key_lt ?b ?c, H' : ¬ key_lt ?b ?a |- key_lt ?a _ =>
    destruct (key_lt_cotrans b a c H); [done|] end. done.
Qed.

Lemma flt_fle_trans x y z : flt x y = true → fle y z = true → flt x z = true.
Proof.
  intros. fkeys. apply flt_key. eexists _, _. split_and!; try done.
  match goal with H : key_lt ?a ?b, H' : ¬ key_lt ?c ?b |- key_lt _ ?c =>
    destruct (key_lt_cotrans a c b H); [|done] end. done.
Qed.

Lemma fle_trans x y z : fle x y = true → fle y z = true → fle x z = true.
Proof.
  intros. fkeys. apply fle_key. eexists _, _. split_and!; try done.
  intros Hlt. match goal with
    H : ¬ key_lt ?b ?a, H' : ¬ key_lt ?c ?b |- _ =>
    destruct (key_lt_cotrans c b a Hlt); done end.
Qed.

Lemma fle_refl x : is_nan x = false → fle x x = true.
Proof.
  intros Hx. apply fle_key. destruct (fkey x) as [a|] eqn:E.
  - eauto using key_lt_irrefl.
  - by destruct x as [|[]| |[]].
Qed.

Lemma fle_not_flt x y : fle x y = true → flt y x = false.
Proof.
  intros. destruct (flt y x) eqn:E; [|done]. by fkeys.
Qed.

Lemma flt_not_fle x y : flt x y = true → fle y x = false.
Proof.
  intros. destruct (fle y x) eqn:E; [|done]. by fkeys.
Qed.

Lemma not_flt_fle x y :
  is_nan x = false → is_nan y = false → flt x y = false → fle y x = true.
Proof.
  intros Hx Hy H. apply fle_key.
  destruct (fkey x) as [a|] eqn:Ex; [|by destruct x as [|[]| |[]]].
  destruct (fkey y) as [b|] eqn:Ey; [|by destruct y as [|[]| |[]]].
  eexists _, _. split_and!; try done. intros Hlt.
  assert (flt x y = true) by (apply flt_key; eauto). congruence.
Qed.

Lemma flt_nan_l x : flt fnan x = false.
Proof. done. Qed.

Lemma flt_nan_r x : flt x fnan = false.
Proof. by destruct x as [[]|[]| |[]]. Qed.

Lemma fle_nan_r x : fle x fnan = false.
Proof. by destruct x as [[]|[]| |[]]. Qed.

Lemma flt_not_nan x y : flt x y = true → is_nan x = false ∧ is_nan y = false.
Proof. intros. fkeys. by destruct x as [|[]| |[]], y as [|[]| |[]]. Qed.

Lemma fle_not_nan x y : fle x y = true → is_nan x = false ∧ is_nan y = false.
Proof. intros. fkeys. by destruct x as [|[]| |[]], y as [|[]| |[]]. Qed.

(** A later instant is not before an instant that was already not before. *)
Lemma flt_false_mono x y z : flt x y = false → fle x z = true → flt z y = false.
Proof.
  intros H1 H2. destruct (flt z y) eqn:E; [|done].
  rewrite (fle_flt_trans x z y) in H1; done.
Qed.

#[export] Hint Resolve flt_irrefl flt_fle fle_not_flt flt_not_fle : lws.

Lemma feq_not_nan x y : feq x y = true → is_nan x = false ∧ is_nan y = false.
Proof. unfold feq, SFeqb, SFcompare. by destruct x as [| | |], y as [| | |]. Qed.

Lemma feq_refl x : is_nan x = false → feq x x = true.
Proof.
  unfold feq, SFeqb, SFcompare. destruct x as [|[]| |[] m e]; try done; intros _.
  - by rewrite Z.compare_refl, Pos.compare_cont_refl.
  - by rewrite Z.compare_refl, Pos.compare_cont_refl.
Qed.

(** Equality is equality of the keys. *)
Lemma feq_fle x y : feq x y = fle x y && fle y x.
Proof.
  unfold feq, fle, SFeqb, SFleb.
  destruct x as [[]|[]| |[] m e], y as [[]|[]| |[] m' e']; cbn; try done;
    rewrite (Z.compare_antisym e e'); destruct (Z.compare_spec e e'); cbn; try done;
    change (Pos.compare_cont Eq m m') with (Pos.compare m m');
    change (Pos.compare_cont Eq m' m) with (Pos.compare m' m);
    rewrite (Pos.compare_antisym m m'); by destruct (Pos.compare m m').
Qed.

Lemma feq_sym x y : feq x y = feq y x.
Proof. by rewrite !feq_fle, andb_comm. Qed.

Lemma key_lt_total a b : key_lt a b ∨ a = b ∨ key_lt b a.
Proof.
  destruct a as [[a1 a2] a3], b as [[b1 b2] b3]. cbn.
  destruct (Z.lt_trichotomy a1 b1) as [?|[->|?]], (Z.lt_trichotomy a2 b2) as [?|[->|?]],
    (Z.lt_trichotomy a3 b3) as [?|[->|?]]; lia || auto.
Qed.

Lemma feq_key x y : feq x y = true ↔ ∃ a, fkey x = Some a ∧ fkey y = Some a.
Proof.
  rewrite feq_fle, andb_true_iff, !fle_key. split.
  - intros [(a & b & Ha & Hb & H1) (b' & a' & Hb' & Ha' & H2)]. simplify_eq.
    destruct (key_lt_total a b) as [?|[->|?]]; [done|by exists b|done].
  - intros (a & Ha & Hb). split; exists a, a; (split; [done|split; [done|apply key_lt_irrefl]]).
Qed.

Lemma real_key x : is_nan x = false → ∃ a, fkey x = Some a.
Proof. destruct x as [|[]| |[]]; cbn; eauto; done. Qed.
