(* ===== verification/Runs.v ===== *)
(** * Programs that can be interrupted

    The programs of chat_dispatch.py and child_spawn.py act on the outside world between
    transactions on a durable store.  Between any two of their steps other processes may
    change the store, and the process may be killed.  A program is a function on a world that
    holds the store, the number of steps taken so far and the log of the calls to the outside;
    the environment says what the others do at each step, what the clock shows, and where the
    process is killed. *)

From S2P Require Import Prelude PyFloat.

Open Scope string_scope.
Open Scope list_scope.

(** The outcome of a program: a killed one runs no handler. *)
Inductive out (A : Type) :=
  | Done (a : A)
  | Raised (e : exn)
  | Killed.
Arguments Done {A} a.
Arguments Raised {A} e.
Arguments Killed {A}.

(** A program over a world [W]. *)
Definition eff (W A : Type) : Type := W → W * out A.

Section Programs.
Context {W : Type}.

#[export] Instance eff_ret : MRet (eff W) := λ A a w, (w, Done a).
#[export] Instance eff_bind : MBind (eff W) := λ A B f m w,
  match m w with
  | (w', Done a) => f a w'
  | (w', Raised e) => (w', Raised e)
  | (w', Killed) => (w', Killed)
  end.

Definition lift {A} (m : res A) : eff W A := λ w,
  match m with Ok a => (w, Done a) | Err e => (w, Raised e) end.

(** [try: m except BaseException as exc: h(exc)] *)
Definition try_except {A} (m : eff W A) (h : exn → eff W A) : eff W A := λ w,
  match m w with
  | (w', Raised e) => h e w'
  | x => x
  end.

(** [try: m finally: h] *)
Definition try_finally {A} (m : eff W A) (h : eff W unit) : eff W A := λ w,
  match m w with
  | (w', Killed) => (w', Killed)
  | (w', o) =>
      match h w' with
      | (w'', Done _) => (w'', o)
      | (w'', Raised e) => (w'', Raised e)
      | (w'', Killed) => (w'', Killed)
      end
  end.

#[export] Instance eff_fmap : FMap (eff W) := λ A B f m, a ← m; mret (f a).

(** [for x in xs: f(x)] *)
Fixpoint for_each {A} (f : A → eff W unit) (xs : list A) : eff W unit :=
  match xs with
  | [] => mret tt
  | x :: xs' => f x;; for_each f xs'
  end.

(** [for x in xs: s = f(s, x)], where the body may return from the function. *)
Fixpoint loop {A S R} (f : S → A → eff W (R + S)) (s : S) (xs : list A) : eff W (R + S) :=
  match xs with
  | [] => mret (inr s)
  | x :: xs' =>
      next ← f s x;
      match next with inl r => mret (inl r) | inr s => loop f s xs' end
  end.

(** The same without an early return. *)
Fixpoint fold_run {A S} (f : S → A → eff W S) (s : S) (xs : list A) : eff W S :=
  match xs with
  | [] => mret s
  | x :: xs' => s ← f s x; fold_run f s xs'
  end.

End Programs.

(** [type(exc).__name__] *)
Definition exn_name (c : exn_class) : string :=
  match c with
  | ValueError => "ValueError"
  | TypeError => "TypeError"
  | KeyError => "KeyError"
  | RuntimeError => "RuntimeError"
  | AssertionError => "AssertionError"
  | IntegrityError => "IntegrityError"
  | ProtocolInvariantError => "ProtocolInvariantError"
  | WorkerProtocolPersistenceError => "WorkerProtocolPersistenceError"
  | ActionBlocked => "ActionBlocked"
  | ActionTransportDisabled => "ActionTransportDisabled"
  | DispatchDisabled => "DispatchDisabled"
  | CapabilityProvenanceError => "CapabilityProvenanceError"
  | PagePoolError => "PagePoolError"
  | StopIteration => "StopIteration"
  | IndexError => "IndexError"
  | ReplacementBlocked => "ReplacementBlocked"
  | ChildSpawnBlocked => "ChildSpawnBlocked"
  | UiaProbeUnavailable => "UiaProbeUnavailable"
  | UiaActionUnavailable => "UiaActionUnavailable"
  | UnsupportedLsmState => "UnsupportedLsmState"
  | WatchdogLeaseLost => "WatchdogLeaseLost"
  | ProbeWindowTransportDisabled => "ProbeWindowTransportDisabled"
  | ProbeOperatorEvidenceError => "ProbeOperatorEvidenceError"
  | AttributeError => "AttributeError"
  | NameError => "NameError"
  | OSError => "OSError"
  end.

Definition exn_text (e : exn) : string := exn_name (exn_type e) +:+ ": " +:+ exn_msg e.

(** ** Worlds and steps *)

Record World (St Ev : Type) := mkWorld {
  w_store : St;
  w_tick : nat;
  w_log : list Ev;
}.
Arguments mkWorld {St Ev}.
Arguments w_store {St Ev}.
Arguments w_tick {St Ev}.
Arguments w_log {St Ev}.

#[export] Instance eta_World {St Ev} : Eta (World St Ev) := λ r,
  mkWorld (w_store r) (w_tick r) (w_log r).

(** What happens at the steps of a run: the clock, what the other processes do to the store
    before the step, and whether the process dies there. *)
Class RunEnv (St : Type) := {
  run_now : nat → float;
  run_others : nat → St → St;
  run_killed : nat → bool;
}.

Section Steps.
Context {St Ev : Type} {env : RunEnv St}.

(** One step: the others first, then the clock is read. *)
Definition step : eff (World St Ev) float := λ w,
  let n := w_tick w in
  let w' := mkWorld (run_others n (w_store w)) (S n) (w_log w) in
  if run_killed n then (w', Killed) else (w', Done (run_now n)).

(** [time.time()] *)
Definition clock : eff (World St Ev) float := step.

(** One transaction of the store; it reads the clock when its [now] is absent. *)
Definition commit {A} (m : St → res (St * A)) : eff (World St Ev) A := λ w,
  match m (w_store w) with
  | Ok (s', a) => (w <| w_store := s' |>, Done a)
  | Err e => (w, Raised e)
  end.

Definition txn {A} (m : float → St → res (St * A)) : eff (World St Ev) A :=
  now ← step; commit (m now).

(** A part of a program that the others cannot interrupt, and that keeps what it did when it
    raises. *)
Definition apply_part {A} (m : St → St * res A) : eff (World St Ev) A := λ w,
  match m (w_store w) with
  | (s', Ok a) => (w <| w_store := s' |>, Done a)
  | (s', Err e) => (w <| w_store := s' |>, Raised e)
  end.

Definition atomically {A} (m : St → St * res A) : eff (World St Ev) A := _ ← step; apply_part m.

(** The number of steps so far. *)
Definition tick : eff (World St Ev) nat := λ w, (w, Done (w_tick w)).

Definition query {A} (m : St → A) : eff (World St Ev) A := txn (λ _ s, Ok (s, m s)).

(** A call of the outside world, logged with the store it finds. *)
Definition perform {A} (answer : nat → res A) (log : St → res A → list Ev) : eff (World St Ev) A :=
  λ w, let a := answer (w_tick w) in
       let w' := w <| w_log := w_log w ++ log (w_store w) a |> in
       match a with Ok x => (w', Done x) | Err e => (w', Raised e) end.

Definition ask {A} (answer : nat → res A) (log : St → res A → list Ev) : eff (World St Ev) A :=
  _ ← step; perform answer log.

Definition unlogged {A} (s : St) (a : res A) : list Ev := [].

End Steps.

(** ** Reasoning about programs *)

(** [P] before a run gives [Q] after it: [Qd] with its value when it is done, [Qx] when it
    raised or was killed. *)
Definition triple {W A} (P : W → Prop) (m : eff W A) (Qd : A → W → Prop)
    (Qx : W → Prop) : Prop :=
  ∀ w w' o, P w → m w = (w', o) → match o with Done a => Qd a w' | _ => Qx w' end.

(** An invariant of a program. *)
Definition holds {W A} (P : W → Prop) (m : eff W A) : Prop := triple P m (λ _, P) P.

Section Triples.
Context {W A B : Type}.
Implicit Types (P Q : W → Prop) (w : W).

Lemma triple_ret P (a : A) Qx : triple P (mret a) (λ b w, b = a ∧ P w) Qx.
Proof. intros w w' o Hw [= <- <-]. done. Qed.

Lemma triple_mret P (a : A) (Qd : A → W → Prop) Qx :
  (∀ w, P w → Qd a w) → triple P (mret a) Qd Qx.
Proof. intros H w w' o Hw [= <- <-]. by apply H. Qed.

Lemma triple_bind P (m : eff W A) (f : A → eff W B) Qd Rd Rx :
  triple P m Qd Rx → (∀ a, triple (Qd a) (f a) Rd Rx) → triple P (m ≫= f) Rd Rx.
Proof.
  intros Hm Hf w w' o Hw. unfold mbind, eff_bind. specialize (Hm w).
  destruct (m w) as [w1 [a|e|]]; specialize (Hm _ _ Hw eq_refl); cbn in Hm.
  - intros H. by eapply (Hf a).
  - by intros [= <- <-].
  - by intros [= <- <-].
Qed.

(** A step that keeps [P], and then the rest. *)
Lemma triple_seq P (m : eff W A) (f : A → eff W B) Rd Rx :
  holds P m → (∀ w, P w → Rx w) → (∀ a, triple P (f a) Rd Rx) → triple P (m ≫= f) Rd Rx.
Proof.
  intros Hm Hx Hf. eapply (triple_bind _ _ _ (λ _, P)); [|done].
  intros w w' o Hw E. specialize (Hm w w' o Hw E). by destruct o; auto.
Qed.

Lemma triple_weaken P P' (m : eff W A) Qd Qx Qd' Qx' :
  triple P m Qd Qx → (∀ w, P' w → P w) → (∀ a w, Qd a w → Qd' a w) →
  (∀ w, Qx w → Qx' w) → triple P' m Qd' Qx'.
Proof.
  intros H HP Hd Hx w w' o Hw E. specialize (H w w' o (HP _ Hw) E). destruct o; eauto.
Qed.

Lemma triple_pre P P' (m : eff W A) Qd Qx :
  triple P m Qd Qx → (∀ w, P' w → P w) → triple P' m Qd Qx.
Proof. intros H HP w w' o Hw. apply H. by apply HP. Qed.

Lemma triple_post P (m : eff W A) Qd Qx (Qd' : A → W → Prop) :
  triple P m Qd Qx → (∀ a w, Qd a w → Qd' a w) → triple P m Qd' Qx.
Proof. intros H Hd. eapply triple_weaken; eauto. Qed.

Lemma triple_pure (φ : Prop) P (m : eff W A) Qd Qx :
  (φ → triple P m Qd Qx) → triple (λ w, P w ∧ φ) m Qd Qx.
Proof. intros H w w' o [Hw Hφ]. by apply H. Qed.

Lemma triple_try P (m : eff W A) (h : exn → eff W A) Qd Qx Rx :
  triple P m Qd Qx → (∀ w, Qx w → Rx w) → (∀ e, triple Qx (h e) Qd Rx) →
  triple P (try_except m h) Qd Rx.
Proof.
  intros Hm Hx Hh w w' o Hw. unfold try_except. specialize (Hm w).
  destruct (m w) as [w1 [a|e|]]; specialize (Hm _ _ Hw eq_refl); cbn in Hm.
  - by intros [= <- <-].
  - intros H. by eapply (Hh e).
  - intros [= <- <-]. by apply Hx.
Qed.

Lemma holds_ret P (a : A) : holds P (mret a).
Proof. by apply triple_mret. Qed.

Lemma holds_bind P (m : eff W A) (f : A → eff W B) :
  holds P m → (∀ a, holds P (f a)) → holds P (m ≫= f).
Proof. intros Hm Hf. by eapply triple_bind. Qed.

Lemma holds_lift P (m : res A) : holds P (lift m).
Proof. intros w w' o Hw. unfold lift. destruct m; by intros [= <- <-]. Qed.

Lemma holds_try P (m : eff W A) h : holds P m → (∀ e, holds P (h e)) → holds P (try_except m h).
Proof. intros Hm Hh. by eapply triple_try. Qed.

Lemma holds_finally P (m : eff W A) h : holds P m → holds P h → holds P (try_finally m h).
Proof.
  intros Hm Hh w w' o Hw. unfold try_finally. specialize (Hm w).
  destruct (m w) as [w1 x]. specialize (Hm _ _ Hw eq_refl).
  assert (P w1) as H1 by (by destruct x).
  destruct x; [| |by intros [= <- <-]]; specialize (Hh w1);
    destruct (h w1) as [w2 y]; specialize (Hh _ _ H1 eq_refl);
    destruct y; by intros [= <- <-].
Qed.

(** How a composed program ended: the second part ran, or the first one did not finish. *)
Lemma bind_ran (m : eff W A) (f : A → eff W B) w w' o :
  (m ≫= f) w = (w', o) →
  (∃ w1 a, m w = (w1, Done a) ∧ f a w1 = (w', o)) ∨
  ((∃ o', m w = (w', o') ∧ ∀ a, o' ≠ Done a) ∧ ∀ b, o ≠ Done b).
Proof.
  unfold mbind, eff_bind. destruct (m w) as [w1 [a|e|]]; [eauto|..];
    intros [= <- <-]; right; (split; [by eexists|done]).
Qed.

Lemma lift_Done (m : res A) w w' a : lift m w = (w', Done a) → w' = w ∧ m = Ok a.
Proof. unfold lift. destruct m; by intros [= <- <-]. Qed.

(** A predicate that a relation of worlds carries forward. *)
Definition moves (R : W → W → Prop) (m : eff W A) : Prop :=
  ∀ w w' o, m w = (w', o) → R w w'.

Lemma moves_weaken R P Q (m : eff W A) :
  moves R m → (∀ w w', R w w' → P w → Q w') → triple P m (λ _, Q) Q.
Proof. intros HR HP w w' o Hw E. destruct o; eauto. Qed.

Lemma moves_holds R P (m : eff W A) :
  moves R m → (∀ w w', R w w' → P w → P w') → holds P m.
Proof. apply moves_weaken. Qed.

End Triples.

(** A specification that tells apart what was raised; [None] stands for a kill. *)
Definition xtriple {W A} (P : W → Prop) (m : eff W A) (Qd : A → W → Prop)
    (Qx : option exn → W → Prop) : Prop :=
  ∀ w w' o, P w → m w = (w', o) →
    match o with Done a => Qd a w' | Raised e => Qx (Some e) w' | Killed => Qx None w' end.

Section XTriples.
Context {W A B : Type}.
Implicit Types (P : W → Prop) (w : W).

Lemma triple_x P (m : eff W A) Qd Qx : triple P m Qd Qx ↔ xtriple P m Qd (λ _, Qx).
Proof. split; intros H w w' o Hw E; specialize (H w w' o Hw E); by destruct o. Qed.

Lemma xtriple_bind P (m : eff W A) (f : A → eff W B) Qd Rd Rx :
  xtriple P m Qd Rx → (∀ a, xtriple (Qd a) (f a) Rd Rx) → xtriple P (m ≫= f) Rd Rx.
Proof.
  intros Hm Hf w w' o Hw. unfold mbind, eff_bind. specialize (Hm w).
  destruct (m w) as [w1 [a|e|]]; specialize (Hm _ _ Hw eq_refl); cbn in Hm.
  - intros H. by eapply (Hf a).
  - by intros [= <- <-].
  - by intros [= <- <-].
Qed.

Lemma xtriple_weaken P P' (m : eff W A) Qd Qx Qd' Qx' :
  xtriple P m Qd Qx → (∀ w, P' w → P w) → (∀ a w, Qd a w → Qd' a w) →
  (∀ e w, Qx e w → Qx' e w) → xtriple P' m Qd' Qx'.
Proof.
  intros H HP Hd Hx w w' o Hw E. specialize (H w w' o (HP _ Hw) E). destruct o; eauto.
Qed.

(** What a handler does not catch passes. *)
Lemma xtriple_try P (m : eff W A) (h : exn → eff W A) Qd Qx Rx :
  xtriple P m Qd Qx → (∀ e, triple (Qx (Some e)) (h e) Qd Rx) → (∀ w, Qx None w → Rx w) →
  triple P (try_except m h) Qd Rx.
Proof.
  intros Hm Hh Hn w w' o Hw. unfold try_except. specialize (Hm w).
  destruct (m w) as [w1 [a|e|]]; specialize (Hm _ _ Hw eq_refl); cbn in Hm.
  - by intros [= <- <-].
  - intros H. by eapply (Hh e).
  - intros [= <- <-]. by apply Hn.
Qed.

End XTriples.

Lemma holds_and {W A} (P Q : W → Prop) (m : eff W A) :
  holds P m → holds Q m → holds (λ w, P w ∧ Q w) m.
Proof.
  intros HP HQ w w' o [Hp Hq] H. specialize (HP w w' o Hp H). specialize (HQ w w' o Hq H).
  by destruct o.
Qed.

Lemma triple_and {W A} (P Q R : W → Prop) (m : eff W A) :
  triple P m (λ _, Q) Q → triple P m (λ _, R) R →
  triple P m (λ _ w, Q w ∧ R w) (λ w, Q w ∧ R w).
Proof.
  intros HQ HR w w' o Hw H. specialize (HQ w w' o Hw H). specialize (HR w w' o Hw H).
  by destruct o.
Qed.

(** What the values of a program satisfy, whatever it starts from. *)
Definition returns {W A} (m : eff W A) (Φ : A → W → Prop) : Prop :=
  ∀ w w' a, m w = (w', Done a) → Φ a w'.

Lemma returns_bind {W A B} (m : eff W A) (f : A → eff W B) Φ :
  (∀ a, returns (f a) Φ) → returns (m ≫= f) Φ.
Proof.
  intros Hf w w' b. unfold mbind, eff_bind. destruct (m w) as [w1 [a|e|]]; [|done|done].
  apply Hf.
Qed.

Lemma triple_returns {W A} (P : W → Prop) (m : eff W A) Φ :
  holds P m → returns m Φ → triple P m (λ a w, P w ∧ Φ a w) P.
Proof.
  intros Hm HΦ w w' o Hw H. specialize (Hm w w' o Hw H). destruct o; [|done|done].
  split; [done|]. by eapply HΦ.
Qed.

Lemma holds_for_each {W A} (P : W → Prop) (f : A → eff W unit) xs :
  (∀ x, x ∈ xs → holds P (f x)) → holds P (for_each f xs).
Proof.
  induction xs as [|x xs IH]; intros H; cbn; [apply holds_ret|].
  apply holds_bind; [apply H; by left|intros _; apply IH; intros; apply H; by right].
Qed.

Lemma holds_loop {W A S R} (P : W → Prop) (f : S → A → eff W (R + S)) s xs :
  (∀ s x, holds P (f s x)) → holds P (loop f s xs).
Proof.
  intros Hf. revert s. induction xs as [|x xs IH]; intros s; cbn; [apply holds_ret|].
  apply holds_bind; [apply Hf|]. intros [r|s']; [apply holds_ret|apply IH].
Qed.

Lemma holds_fold {W A S} (P : W → Prop) (f : S → A → eff W S) s xs :
  (∀ s x, holds P (f s x)) → holds P (fold_run f s xs).
Proof.
  intros Hf. revert s. induction xs as [|x xs IH]; intros s; cbn; [apply holds_ret|].
  apply holds_bind; [apply Hf|intros s'; apply IH].
Qed.

(** A loop, with an invariant on the elements that are done. *)
Lemma triple_fold_in {W A S} (I : list A → S → W → Prop) (f : S → A → eff W S) Rx s xs :
  (∀ done x s, x ∈ xs → triple (I done s) (f s x) (λ s', I (done ++ [x]) s') Rx) →
  triple (I [] s) (fold_run f s xs) (λ s', I xs s') Rx.
Proof.
  intros Hf. change xs with ([] ++ xs) at 2. generalize (@nil A) as done. revert s.
  induction xs as [|x xs IH]; intros s done; cbn.
  - rewrite app_nil_r. by apply triple_mret.
  - eapply triple_bind; [apply Hf; by left|]. intros s'.
    replace (done ++ x :: xs) with ((done ++ [x]) ++ xs) by by rewrite <- app_assoc.
    apply IH. intros; apply Hf; by right.
Qed.

(** The same with an early return, whose values satisfy [Z]. *)
Lemma triple_loop {W A S R} (I : list A → S → W → Prop) (Z : R → W → Prop)
    (f : S → A → eff W (R + S)) Rx s xs :
  (∀ done x s, triple (I done s) (f s x)
     (λ y, match y with inl r => Z r | inr s' => I (done ++ [x]) s' end) Rx) →
  triple (I [] s) (loop f s xs) (λ y, match y with inl r => Z r | inr s' => I xs s' end) Rx.
Proof.
  intros Hf. change xs with ([] ++ xs) at 2. generalize (@nil A) as done. revert s.
  induction xs as [|x xs IH]; intros s done; cbn.
  - rewrite app_nil_r. by apply triple_mret.
  - eapply triple_bind; [apply Hf|]. intros [r|s']; [by apply triple_mret|].
    replace (done ++ x :: xs) with ((done ++ [x]) ++ xs) by by rewrite <- app_assoc.
    apply IH.
Qed.

Section Moves.
Context {W : Type} (R : W → W → Prop) `{!PreOrder R}.

Lemma moves_ret {A} (a : A) : moves R (mret a).
Proof using PreOrder0. intros w w' o [= <- _]. reflexivity. Qed.

Lemma moves_bind {A B} (m : eff W A) (f : A → eff W B) :
  moves R m → (∀ a, moves R (f a)) → moves R (m ≫= f).
Proof using PreOrder0.
  intros Hm Hf w w' o. unfold mbind, eff_bind. specialize (Hm w).
  destruct (m w) as [w1 [a|e|]]; specialize (Hm _ _ eq_refl).
  - intros H. etrans; [done|by eapply Hf].
  - by intros [= <- _].
  - by intros [= <- _].
Qed.

Lemma moves_lift {A} (m : res A) : moves R (lift m).
Proof using PreOrder0. intros w w' o. unfold lift. destruct m; intros [= <- _]; reflexivity. Qed.

Lemma moves_try {A} (m : eff W A) h : moves R m → (∀ e, moves R (h e)) → moves R (try_except m h).
Proof using PreOrder0.
  intros Hm Hh w w' o. unfold try_except. specialize (Hm w).
  destruct (m w) as [w1 [a|e|]]; specialize (Hm _ _ eq_refl).
  - by intros [= <- _].
  - intros H. etrans; [done|by eapply Hh].
  - by intros [= <- _].
Qed.

Lemma moves_finally {A} (m : eff W A) h : moves R m → moves R h → moves R (try_finally m h).
Proof using PreOrder0.
  intros Hm Hh w w' o. unfold try_finally. specialize (Hm w).
  destruct (m w) as [w1 x]. specialize (Hm _ _ eq_refl). specialize (Hh w1).
  destruct x; [| |by intros [= <- _]]; destruct (h w1) as [w2 y]; specialize (Hh _ _ eq_refl);
    intros H; (etrans; [exact Hm|]); by destruct y; injection H as <- _.
Qed.

End Moves.

(** ** What the others leave alone

    [calms] says what the other processes may do between two steps; a predicate that is
    stable under it survives every step. *)

Class Calm (St Ev : Type) {env : RunEnv St} := {
  calms : World St Ev → World St Ev → Prop;
  step_calms : ∀ w w' o, step w = (w', o) → calms w w';
}.

Section Stable.
Context {St Ev : Type} {env : RunEnv St} {calm : Calm St Ev}.
Implicit Types (P Qx : World St Ev → Prop).

Definition stable P : Prop := ∀ w w', calms w w' → P w → P w'.

Lemma holds_step P : stable P → holds P step.
Proof. intros HP. eapply moves_holds; [|exact HP]. intros w w' o. apply step_calms. Qed.

Lemma triple_clock P Qx :
  stable P → (∀ w, P w → Qx w) → triple P clock (λ _, P) Qx.
Proof. intros HP Hx. eapply triple_weaken; [by apply (holds_step P)|done|done|exact Hx]. Qed.

Lemma triple_commit {A} P (m : St → res (St * A)) (Qd : A → World St Ev → Prop) Qx :
  (∀ w s' a, P w → m (w_store w) = Ok (s', a) → Qd a (w <| w_store := s' |>)) →
  (∀ w, P w → Qx w) → triple P (commit m) Qd Qx.
Proof.
  intros Hd Hx w w' o Hw. unfold commit. destruct (m (w_store w)) as [[s' a]|e] eqn:E;
    intros [= <- <-]; eauto.
Qed.

Lemma triple_txn {A} P (m : float → St → res (St * A)) (Qd : A → World St Ev → Prop) Qx :
  stable P →
  (∀ now w s' a, P w → m now (w_store w) = Ok (s', a) → Qd a (w <| w_store := s' |>)) →
  (∀ w, P w → Qx w) → triple P (txn m) Qd Qx.
Proof.
  intros HP Hd Hx. unfold txn. eapply triple_bind.
  - eapply triple_weaken; [by apply (holds_step P)|done| |exact Hx]. intros now w Hw. exact Hw.
  - intros now. apply triple_commit; [|done]. intros. by eapply Hd.
Qed.

Lemma triple_query {A} P (f : St → A) (Qd : A → World St Ev → Prop) Qx :
  stable P → (∀ w, P w → Qd (f (w_store w)) w) → (∀ w, P w → Qx w) →
  triple P (query f) Qd Qx.
Proof.
  intros HP Hd Hx. apply triple_txn; [done| |done]. intros now w s' a Hw [= <- <-].
  specialize (Hd w Hw). by destruct w.
Qed.

Lemma triple_ask {A} P (answer : nat → res A) log (Qd : A → World St Ev → Prop) Qx :
  stable P →
  (∀ w a, P w →
     let w' := w <| w_log := w_log w ++ log (w_store w) a |> in
     match a with Ok x => Qd x w' | Err _ => Qx w' end) →
  (∀ w, P w → Qx w) → triple P (ask answer log) Qd Qx.
Proof.
  intros HP Hd Hx. unfold ask. eapply triple_bind.
  - eapply triple_weaken; [by apply (holds_step P)|done| |exact Hx]. intros now w Hw. exact Hw.
  - intros now w w' o Hw. unfold perform. cbv zeta. specialize (Hd w (answer (w_tick w)) Hw).
    cbv zeta in Hd. destruct (answer (w_tick w)); intros [= <- <-]; exact Hd.
Qed.

End Stable.

(** The structure of a program whose leaves are proved by [leaf]. *)
Ltac walk_holds leaf :=
  repeat first
    [ solve [leaf]
    | match goal with
      | |- holds _ (_ ≫= _) => apply holds_bind; [|intros ?]
      | |- holds _ (mret _) => apply holds_ret
      | |- holds _ (lift _) => apply holds_lift
      | |- holds _ (loop _ _ _) => apply holds_loop; intros ? ?
      | |- holds _ (fold_run _ _ _) => apply holds_fold; intros ? ?
      | |- holds _ (try_except _ _) => apply holds_try; [|intros ?]
      | |- holds _ (if ?b then _ else _) => destruct b
      | |- holds _ (match ?x with _ => _ end) => destruct x
      | |- holds _ (_ <$> _) => unfold fmap, eff_fmap
      end ].

(** * Several processes over one store

    A pool holds the processes that are at work on a store.  At each move one of them takes
    its next step, or dies, or somebody else acts on the store, which may start a process.
    A sequence of moves is one interleaving. *)

Module Pool.

(** The store, the processes in the order they were started ([None] has ended), the log. *)
Record t (R P E : Type) := mk {
  store : R;
  running : list (option P);
  log : list E;
}.
Arguments mk {R P E}.
Arguments store {R P E}.
Arguments running {R P E}.
Arguments log {R P E}.

Inductive move (C : Type) :=
  | Act (c : C)
  | Step (k : nat) (now : float)
  | Die (k : nat).
Arguments Act {C}.
Arguments Step {C}.
Arguments Die {C}.

(** The sum of [f] over a list. *)
Definition total {A} (f : A → nat) (l : list A) : nat := sum_list_with f l.

Lemma total_app {A} (f : A → nat) l1 l2 : total f (l1 ++ l2) = (total f l1 + total f l2)%nat.
Proof. apply sum_list_with_app. Qed.

Lemma total_nil {A} (f : A → nat) : total f [] = 0%nat.
Proof. done. Qed.

#[global] Arguments total : simpl never.

Lemma total_update {A} (f : A → nat) l k x y :
  l !! k = Some x → (total f (<[k := y]> l) + f x = total f l + f y)%nat.
Proof.
  revert k. induction l as [|z l IH]; intros [|k]; intros H; try done.
  - injection H as ->. unfold total. cbn. lia.
  - change (<[S k := y]> (z :: l)) with (z :: <[k := y]> l).
    specialize (IH k H). unfold total in *. cbn [sum_list_with]. lia.
Qed.

Section Play.
Context {R P E C : Type}.

(** The next step of a process, and what an action does and which process it starts. *)
Context (advance : float → R → P → R * list E * option P).
Context (act : C → R → R * list E * option P).

Definition play_one (w : t R P E) (m : move C) : t R P E :=
  match m with
  | Act c =>
      let '(r, es, p) := act c (store w) in mk r (running w ++ [p]) (log w ++ es)
  | Step k now =>
      match running w !! k with
      | Some (Some p) =>
          let '(r, es, p') := advance now (store w) p in
          mk r (<[k := p']> (running w)) (log w ++ es)
      | _ => w
      end
  | Die k => mk (store w) (<[k := None]> (running w)) (log w)
  end.

Definition play (w : t R P E) (ms : list (move C)) : t R P E := foldl play_one w ms.

Lemma play_app w ms1 ms2 : play w (ms1 ++ ms2) = play (play w ms1) ms2.
Proof using Type. apply foldl_app. Qed.

(** What every move keeps. *)
Definition steady (I : R → Prop) : Prop :=
  (∀ now r p r' es p', I r → advance now r p = (r', es, p') → I r') ∧
  (∀ c r r' es p', I r → act c r = (r', es, p') → I r').

Lemma play_one_steady I w m : steady I → I (store w) → I (store (play_one w m)).
Proof using Type.
  intros [Hs Ha] Hi. destruct m as [c|k now|k]; cbn; [| |done].
  - destruct (act c (store w)) as [[r es] p] eqn:E1. cbn. eauto.
  - destruct (running w !! k) as [[p|]|]; [|done|done].
    destruct (advance now (store w) p) as [[r es] p'] eqn:E1. cbn. eauto.
Qed.

Lemma play_steady I w ms : steady I → I (store w) → I (store (play w ms)).
Proof using Type.
  intros HI. revert w. induction ms as [|m ms IH]; intros w Hi; cbn; [done|].
  by apply IH, play_one_steady.
Qed.

(** What is true of every entry of the log from then on. *)
Lemma play_log I (Q : E → R → Prop) w ms :
  steady I →
  (∀ now r p r' es p', I r → advance now r p = (r', es, p') →
     (∀ e, e ∈ es → Q e r') ∧ ∀ e, Q e r → Q e r') →
  (∀ c r r' es p', I r → act c r = (r', es, p') →
     (∀ e, e ∈ es → Q e r') ∧ ∀ e, Q e r → Q e r') →
  I (store w) → (∀ e, e ∈ log w → Q e (store w)) →
  ∀ e, e ∈ log (play w ms) → Q e (store (play w ms)).
Proof using Type.
  intros HI Hs Ha. revert w. induction ms as [|m ms IH]; intros w Hi Hw; cbn; [done|].
  apply IH; [by apply play_one_steady|]. destruct m as [c|k now|k]; cbn; [| |done].
  - destruct (act c (store w)) as [[r es] p] eqn:E1. apply Ha in E1 as [H1 H2]; [|done].
    cbn. intros e [He|He]%elem_of_app; eauto.
  - destruct (running w !! k) as [[p|]|]; [|done|done].
    destruct (advance now (store w) p) as [[r es] p'] eqn:E1. apply Hs in E1 as [H1 H2]; [|done].
    cbn. intros e [He|He]%elem_of_app; eauto.
Qed.

(** ** A budget

    Each entry of the log has a value.  The store allows [allowance], a process may still
    cause [weight], an action brings [credit]; no move causes more than it takes from these. *)

Section Budget.
Context (I : R → Prop) (allowance : R → nat) (weight : P → nat) (value : E → nat).
Context (credit : C → nat).

Definition load : option P → nat := from_option weight 0%nat.

Definition earned (m : move C) : nat := match m with Act c => credit c | _ => 0%nat end.

Record bounded : Prop := {
  bd_keeps : steady I;
  bd_step : ∀ now r p r' es p', I r → advance now r p = (r', es, p') →
    (allowance r' + load p' + total value es ≤ allowance r + weight p)%nat;
  bd_act : ∀ c r r' es p', I r → act c r = (r', es, p') →
    (allowance r' + load p' + total value es ≤ allowance r + credit c)%nat;
}.

(** What the pool may still cause, and what it has caused. *)
Definition spent (w : t R P E) : nat :=
  (allowance (store w) + total load (running w) + total value (log w))%nat.

Lemma play_bounded w ms :
  bounded → I (store w) → (spent (play w ms) ≤ spent w + total earned ms)%nat.
Proof using Type.
  intros B. revert w. induction ms as [|m ms IH]; intros w Hi; [unfold total; cbn; lia|].
  cbn [play foldl]. specialize (IH _ (play_one_steady I w m (bd_keeps B) Hi)).
  assert (spent (play_one w m) ≤ spent w + earned m)%nat as H1.
  { clear IH. unfold spent. destruct m as [c|k now|k]; cbn [play_one earned].
    - destruct (act c (store w)) as [[r es] p] eqn:E1. apply (bd_act B) in E1; [|done].
      cbn. rewrite !total_app. change (total load [p]) with (load p + 0)%nat. lia.
    - destruct (running w !! k) as [[p|]|] eqn:Ek; [|lia|lia].
      destruct (advance now (store w) p) as [[r es] p'] eqn:E1. apply (bd_step B) in E1; [|done].
      cbn. rewrite total_app. pose proof (total_update load _ _ _ p' Ek) as H. cbn in H. lia.
    - cbn. destruct (running w !! k) as [p|] eqn:Ek.
      + pose proof (total_update load _ _ _ None Ek) as H. cbn in H. lia.
      + rewrite list_insert_ge; [lia|]. by apply lookup_ge_None. }
  change (total earned (m :: ms)) with (earned m + total earned ms)%nat. unfold play in IH. lia.
Qed.

End Budget.

Lemma nothing_earned (ms : list (move C)) : total (earned (λ _, 0%nat)) ms = 0%nat.
Proof using Type. induction ms as [|[] ms IH]; [done|exact IH..]. Qed.

End Play.
End Pool.
