(* ===== verification/PyStr.v ===== *)
(** * Python strings

    A Python [str] is modelled by the bytes of its UTF-8 encoding.  Equality and
    the code-point order of Python (also SQLite's BINARY collation) are equality
    and byte order of the encodings.  The operations that look at characters
    work on whole code points: [strip] removes exactly the characters for which
    [str.isspace] holds, [str_take n] is the slice [s[:n]].

    The Unicode case tables are data of the Python runtime: [lower] and
    [casefold] are the methods of a class [UnicodeTables], whose laws state what
    the program relies on, with an ASCII instance for the examples. *)

From Stdlib Require Import Ascii.
From S2P Require Import Prelude.

Open Scope string_scope.

(** Truth value of a string, [bool(s)]. *)
Definition str_truthy (s : string) : bool :=
  match s with EmptyString => false | _ => true end.

Definition opt_truthy (s : option string) : bool :=
  match s with Some s => str_truthy s | None => false end.

Definition byte_str (n : nat) : string := String (ascii_of_nat n) EmptyString.

(** The UTF-8 encodings of the white-space characters of [str.isspace]. *)
Definition whitespace : list string :=
  (byte_str <$> [9; 10; 11; 12; 13; 28; 29; 30; 31; 32]) ++
  [byte_str 194 +:+ byte_str 133; byte_str 194 +:+ byte_str 160;
   byte_str 225 +:+ byte_str 154 +:+ byte_str 128] ++
  ((λ n, byte_str 226 +:+ byte_str 128 +:+ byte_str n) <$>
     [128; 129; 130; 131; 132; 133; 134; 135; 136; 137; 138; 168; 169; 175]) ++
  [byte_str 226 +:+ byte_str 129 +:+ byte_str 159;
   byte_str 227 +:+ byte_str 128 +:+ byte_str 128].

(** [drop_prefix p s] is the rest of [s] after the prefix [p]. *)
Fixpoint drop_prefix (p s : string) : option string :=
  match p, s with
  | EmptyString, _ => Some s
  | String a p', String b s' =>
      if Ascii.eqb a b then drop_prefix p' s' else None
  | String _ _, EmptyString => None
  end.

Fixpoint drop_any (ps : list string) (s : string) : option string :=
  match ps with
  | [] => None
  | p :: ps' =>
      match drop_prefix p s with Some s' => Some s' | None => drop_any ps' s end
  end.

(** Drop prefixes taken from [ps] as long as one matches.  Every prefix is
    non-empty, so [length s] rounds are enough. *)
Fixpoint drop_all (fuel : nat) (ps : list string) (s : string) : string :=
  match fuel with
  | O => s
  | S n => match drop_any ps s with Some s' => drop_all n ps s' | None => s end
  end.

Definition lstrip_of (ps : list string) (s : string) : string :=
  drop_all (String.length s) ps s.

Definition rstrip_of (ps : list string) (s : string) : string :=
  String.rev (lstrip_of (String.rev <$> ps) (String.rev s)).

(** [s.strip()], [s.lstrip()], [s.rstrip()] and [s.rstrip("/")]. *)
Definition lstrip (s : string) : string := lstrip_of whitespace s.
Definition rstrip (s : string) : string := rstrip_of whitespace s.
Definition strip (s : string) : string := rstrip (lstrip s).
Definition rstrip_slash (s : string) : string := rstrip_of ["/"] s.

(** [x.strip() or None] of an optional text. *)
Definition strip_or_none (s : string) : option string :=
  let s' := strip s in if str_truthy s' then Some s' else None.

(** A byte that starts a code point (not a UTF-8 continuation byte). *)
Definition is_lead (a : ascii) : bool :=
  let n := nat_of_ascii a in Nat.ltb n 128 || Nat.leb 192 n.

(** The slice [s[:n]] counts code points. *)
Fixpoint str_take (n : nat) (s : string) : string :=
  match s with
  | EmptyString => EmptyString
  | String a s' =>
      if is_lead a
      then match n with O => EmptyString | S n' => String a (str_take n' s') end
      else String a (str_take n s')
  end.

(** [len(s)] counts code points. *)
Fixpoint py_len (s : string) : nat :=
  match s with
  | EmptyString => 0
  | String a s' => (if is_lead a then 1 else 0) + py_len s'
  end%nat.

(** [sub in s] *)
Fixpoint str_contains (sub s : string) : bool :=
  match drop_prefix sub s with
  | Some _ => true
  | None => match s with EmptyString => false | String _ s' => str_contains sub s' end
  end.

(** [s.startswith(p)] *)
Definition startswith (p s : string) : bool :=
  match drop_prefix p s with Some _ => true | None => false end.

(** [s.replace("\\", "/")] *)
Definition backslash : ascii := ascii_of_nat 92.

Fixpoint slashes (s : string) : string :=
  match s with
  | EmptyString => EmptyString
  | String a s' => String (if Ascii.eqb a backslash then "/"%char else a) (slashes s')
  end.

(** [sep.join(xs)] *)
Fixpoint join (sep : string) (xs : list string) : string :=
  match xs with
  | [] => ""
  | [x] => x
  | x :: xs' => x +:+ sep +:+ join sep xs'
  end.

(** ** Case tables *)

Class UnicodeTables := {
  lower : string → string;
  casefold : string → string;
  lower_idemp : ∀ s, lower (lower s) = lower s;
  casefold_idemp : ∀ s, casefold (casefold s) = casefold s;
}.

Definition ascii_lower_char (a : ascii) : ascii :=
  let n := nat_of_ascii a in
  if Nat.leb 65 n && Nat.leb n 90 then ascii_of_nat (n + 32) else a.

Fixpoint ascii_lower (s : string) : string :=
  match s with
  | EmptyString => EmptyString
  | String a s' => String (ascii_lower_char a) (ascii_lower s')
  end.

Lemma ascii_lower_char_idemp a :
  ascii_lower_char (ascii_lower_char a) = ascii_lower_char a.
Proof. destruct a as [[] [] [] [] [] [] [] []]; reflexivity. Qed.

Lemma ascii_lower_idemp s : ascii_lower (ascii_lower s) = ascii_lower s.
Proof.
  induction s as [|a s IH]; cbn; [done|]. by rewrite ascii_lower_char_idemp, IH.
Qed.

Definition AsciiTables : UnicodeTables := {|
  lower := ascii_lower;
  casefold := ascii_lower;
  lower_idemp := ascii_lower_idemp;
  casefold_idemp := ascii_lower_idemp;
|}.

(** ** Laws *)

Lemma drop_prefix_length p s s' :
  drop_prefix p s = Some s' →
  String.length s = (String.length p + String.length s')%nat.
Proof.
  revert s. induction p as [|a p IH]; intros [|b s] H; cbn in *; simplify_eq/=; try done.
  destruct (Ascii.eqb a b); [|done]. by erewrite IH.
Qed.

Lemma drop_any_length ps s s' :
  (∀ p, p ∈ ps → p ≠ "") → drop_any ps s = Some s' →
  (String.length s' < String.length s)%nat.
Proof.
  induction ps as [|p ps IH]; intros Hne H; cbn in *; [done|].
  destruct (drop_prefix p s) eqn:E; simplify_eq.
  - apply drop_prefix_length in E. specialize (Hne p).
    destruct p; [|cbn in E; lia]. exfalso. apply Hne; [left|done].
  - apply IH; [|done]. intros q Hq. apply Hne. by right.
Qed.

(** The fuel of [lstrip_of] is enough: nothing strippable is left in front. *)
Lemma lstrip_of_done ps s :
  (∀ p, p ∈ ps → p ≠ "") → drop_any ps (lstrip_of ps s) = None.
Proof.
  intros Hne. unfold lstrip_of.
  assert (∀ n s, (String.length s ≤ n)%nat → drop_any ps (drop_all n ps s) = None) as H;
    [|by apply H].
  clear s. induction n as [|n IH]; intros s Hn; cbn.
  - destruct (drop_any ps s) eqn:E; [|done].
    apply drop_any_length in E; [lia|done].
  - destruct (drop_any ps s) eqn:E; [|done].
    apply IH. apply drop_any_length in E; [lia|done].
Qed.

Lemma str_truthy_false s : str_truthy s = false ↔ s = "".
Proof. by destruct s. Qed.

Lemma str_truthy_true s : str_truthy s = true ↔ s ≠ "".
Proof. by destruct s. Qed.

(** [strip] is idempotent: what [rstrip] leaves is a prefix, so nothing becomes
    strippable in front of it. *)

Lemma str_app_assoc s1 s2 s3 : (s1 +:+ s2) +:+ s3 = s1 +:+ (s2 +:+ s3).
Proof. induction s1 as [|a s1 IH]; [done|]. exact (f_equal (String a) IH). Qed.

Lemma str_app_nil s : s +:+ "" = s.
Proof. induction s as [|a s IH]; [done|]. exact (f_equal (String a) IH). Qed.

Lemma rev_app_spec s1 s2 : String.rev_app s1 s2 = String.rev s1 +:+ s2.
Proof.
  unfold String.rev. revert s2. induction s1 as [|a s1 IH]; intros s2; [done|].
  trans (String.rev_app s1 (String a s2)); [done|].
  rewrite IH. trans (String.rev_app s1 (String a "") +:+ s2); [|done].
  by rewrite (IH (String a "")), str_app_assoc.
Qed.

Lemma rev_app_app s1 s2 t :
  String.rev_app (s1 +:+ s2) t = String.rev_app s2 (String.rev_app s1 t).
Proof. revert t. induction s1 as [|a s1 IH]; intros t; [done|apply IH]. Qed.

Lemma str_rev_app s1 s2 : String.rev (s1 +:+ s2) = String.rev s2 +:+ String.rev s1.
Proof. unfold String.rev at 1. by rewrite rev_app_app, rev_app_spec. Qed.

Lemma str_rev_rev s : String.rev (String.rev s) = s.
Proof.
  induction s as [|a s IH]; [done|].
  change (String a s) with (String a "" +:+ s). by rewrite !str_rev_app, IH.
Qed.

Lemma drop_prefix_Some p s s' : drop_prefix p s = Some s' → s = p +:+ s'.
Proof.
  revert s. induction p as [|a p IH]; intros [|b s] H; cbn in *; simplify_eq; try done.
  destruct (Ascii.eqb_spec a b) as [->|]; [|done].
  exact (f_equal (String b) (IH _ H)).
Qed.

Lemma drop_prefix_app p s s' u : drop_prefix p s = Some s' → drop_prefix p (s +:+ u) = Some (s' +:+ u).
Proof.
  revert s. induction p as [|a p IH]; intros [|b s] H; cbn in *; simplify_eq; try done.
  change (String b s +:+ u) with (String b (s +:+ u)). cbn.
  destruct (Ascii.eqb a b); [by apply IH|done].
Qed.

Lemma drop_any_app ps s u : drop_any ps (s +:+ u) = None → drop_any ps s = None.
Proof.
  induction ps as [|p ps IH]; cbn; [done|]. intros H.
  destruct (drop_prefix p s) eqn:E; [by rewrite (drop_prefix_app _ _ _ u E) in H|].
  apply IH. by destruct (drop_prefix p (s +:+ u)).
Qed.

Lemma drop_any_Some ps s s' : drop_any ps s = Some s' → ∃ u, s = u +:+ s'.
Proof.
  induction ps as [|p ps IH]; cbn; [done|].
  destruct (drop_prefix p s) eqn:E; [|done]. intros [= <-]. exists p. by apply drop_prefix_Some.
Qed.

Lemma lstrip_of_suffix ps s : ∃ u, s = u +:+ lstrip_of ps s.
Proof.
  unfold lstrip_of. generalize (String.length s). intros n. revert s.
  induction n as [|n IH]; intros s; cbn; [by exists ""|].
  destruct (drop_any ps s) as [s'|] eqn:E; [|by exists ""].
  destruct (drop_any_Some _ _ _ E) as [u Hu], (IH s') as [v Hv].
  exists (u +:+ v). by rewrite str_app_assoc, <- Hv.
Qed.

Lemma lstrip_of_id ps s : drop_any ps s = None → lstrip_of ps s = s.
Proof. unfold lstrip_of. intros H. destruct s; cbn; [done|]. by rewrite H. Qed.

Lemma whitespace_nonempty p : p ∈ whitespace → p ≠ "".
Proof.
  intros Hp. assert (Forall (λ p, p ≠ "") whitespace) as H by (by repeat constructor).
  by eapply Forall_forall in H.
Qed.

Lemma rev_nonempty (ps : list string) :
  (∀ p, p ∈ ps → p ≠ "") → ∀ p, p ∈ String.rev <$> ps → p ≠ "".
Proof.
  intros H p (q & -> & Hq)%list_elem_of_fmap Hr. apply (H q Hq).
  by rewrite <- (str_rev_rev q), Hr.
Qed.

Lemma rstrip_idemp s : rstrip (rstrip s) = rstrip s.
Proof.
  unfold rstrip, rstrip_of. rewrite str_rev_rev. f_equal. apply lstrip_of_id, lstrip_of_done.
  apply rev_nonempty, whitespace_nonempty.
Qed.

Lemma strip_idemp s : strip (strip s) = strip s.
Proof.
  unfold strip at 1. assert (lstrip (strip s) = strip s) as ->.
  { apply lstrip_of_id. unfold strip, rstrip, rstrip_of.
    destruct (lstrip_of_suffix (String.rev <$> whitespace) (String.rev (lstrip s))) as [u Hu].
    apply (drop_any_app _ _ (String.rev u)). rewrite <- str_rev_app, <- Hu, str_rev_rev.
    apply lstrip_of_done, whitespace_nonempty. }
  unfold strip. apply rstrip_idemp.
Qed.

(** * Text helpers of the observers

    White-space normalisation and the two readings of a conversation address of uia.py. *)

Open Scope string_scope.
Open Scope list_scope.

(** [re.sub(r"\s+", " ", s)]; every white-space character is at least one byte, so the
    length of the text is fuel enough. *)
Fixpoint collapse_from (fuel : nat) (after_space : bool) (s : string) : string :=
  match fuel, s with
  | S n, String a s' =>
      match drop_any whitespace s with
      | Some rest => (if after_space then "" else " ") +:+ collapse_from n true rest
      | None => String a (collapse_from n false s')
      end
  | _, _ => EmptyString
  end.

Definition collapse_spaces (s : string) : string := collapse_from (String.length s) false s.

(** [s.split()] *)
Fixpoint words_from (fuel : nat) (word : string) (s : string) : list string :=
  let done := if str_truthy word then [word] else [] in
  match fuel, s with
  | S n, String a s' =>
      match drop_any whitespace s with
      | Some rest => done ++ words_from n "" rest
      | None => words_from n (word +:+ String a "") s'
      end
  | _, _ => done
  end.

Definition py_split (s : string) : list string := words_from (String.length s) "" s.

(** Under [re.IGNORECASE] an ASCII letter of the pattern also matches its capital. *)
Fixpoint drop_nocase (p s : string) : option string :=
  match p, s with
  | EmptyString, _ => Some s
  | String a p', String b s' =>
      if Ascii.eqb a (ascii_lower_char b) then drop_nocase p' s' else None
  | String _ _, EmptyString => None
  end.

(** The letter [s] also matches the long s, U+017F. *)
Definition drop_letter_s (s : string) : option string :=
  match drop_nocase "s" s with
  | Some rest => Some rest
  | None => drop_prefix (byte_str 197 +:+ byte_str 191) s
  end.

(** [^https?://] *)
Definition drop_http (s : string) : option string :=
  rest ← drop_nocase "http" s;
  match drop_letter_s rest ≫= drop_prefix "://" with
  | Some tail => Some tail
  | None => drop_prefix "://" rest
  end.

Definition normalize_url (value : string) : string :=
  let text := strip value in rstrip_slash (default text (drop_http text)).

Definition id_char (a : ascii) : bool :=
  let n := nat_of_ascii a in
  (Nat.leb 48 n && Nat.leb n 57) || (Nat.leb 65 n && Nat.leb n 70) ||
  (Nat.leb 97 n && Nat.leb n 102) || Nat.eqb n 45.

Fixpoint take_ids (s : string) : string :=
  match s with
  | String a s' => if id_char a then String a (take_ids s') else EmptyString
  | EmptyString => EmptyString
  end.

(** The first match of [/c/([0-9a-fA-F-]{16,})]. *)
Fixpoint conversation_id_from_url (value : string) : option string :=
  let here := id ← drop_prefix "/c/" value;
              if Nat.leb 16 (String.length (take_ids id)) then Some (take_ids id) else None in
  match here, value with
  | Some id, _ => Some id
  | None, String _ rest => conversation_id_from_url rest
  | None, EmptyString => None
  end.

Example text_examples :
  collapse_spaces "  a  b " = " a b " ∧ py_split "  a  b " = ["a"; "b"] ∧
  normalize_url " HTTPS://Chat/c/1// " = "Chat/c/1" ∧ normalize_url "httpx://a" = "httpx://a" ∧
  conversation_id_from_url "x/c/1/c/0123456789abcdef-1z" = Some "0123456789abcdef-1".
Proof. by vm_compute. Qed.
