(* ===== verification/PagePool.v ===== *)
(** * The page pool of browser_pool.py

    The pool records which pages are leased to workers and which conversations a probe
    page should visit next.  It never opens or closes a page: a registration that would
    exceed a capacity is refused and undone.  An operation returns the pool it leaves next
    to its result. *)

From S2P Require Import Prelude PyFloat PyStr.

Open Scope string_scope.
Open Scope Z_scope.
Open Scope list_scope.

Module PageRole.
Inductive t := ACTIVE | PROBE.
#[global] Instance eq_dec : EqDecision t.
Proof. solve_decision. Defined.
Definition value (r : t) : string := match r with ACTIVE => "active" | PROBE => "probe" end.
End PageRole.

Record PageLease := mkPageLease {
  pl_page_id : string;
  pl_role : PageRole.t;
  pl_worker_id : option string;
  pl_opened_at : float;
  pl_last_used_at : float;
}.

#[export] Instance eta_PageLease : Eta PageLease := λ l,
  mkPageLease (pl_page_id l) (pl_role l) (pl_worker_id l) (pl_opened_at l) (pl_last_used_at l).

Record ProbeTarget := mkProbeTarget {
  pbt_worker_id : string;
  pbt_conversation_url : string;
  pbt_last_probed_at : option float;
  pbt_priority : Z;
}.

#[export] Instance eta_ProbeTarget : Eta ProbeTarget := λ t,
  mkProbeTarget (pbt_worker_id t) (pbt_conversation_url t) (pbt_last_probed_at t) (pbt_priority t).

(** [ProbeResourcePolicy.should_block]; lower-casing is a parameter. *)
Definition should_block `{UnicodeTables} (blocked_resource_types : list string)
    (resource_type : string) : bool :=
  existsb (String.eqb (lower resource_type)) blocked_resource_types.

Definition default_blocked : list string := ["image"; "media"; "font"].

(** The leases are a dictionary that is only read through a sort by a unique key; the
    targets keep the order of the dictionary, which [min] can observe. *)
Record PagePool := mkPagePool {
  pp_max_active_pages : Z;
  pp_max_probe_pages : Z;
  pp_leases : gmap string PageLease;
  pp_probe_targets : list ProbeTarget;
}.

#[export] Instance eta_PagePool : Eta PagePool := λ p,
  mkPagePool (pp_max_active_pages p) (pp_max_probe_pages p) (pp_leases p) (pp_probe_targets p).

Definition new_pool (max_active_pages max_probe_pages : Z) : PagePool :=
  mkPagePool (Z.max 1 max_active_pages) (Z.max 1 max_probe_pages) ∅ [].

Definition lease_leb (x y : PageLease) : bool :=
  if decide (pl_role x = pl_role y) then String.leb (pl_page_id x) (pl_page_id y)
  else String.leb (PageRole.value (pl_role x)) (PageRole.value (pl_role y)).

Definition leases (p : PagePool) : list PageLease :=
  py_sorted lease_leb ((map_to_list (pp_leases p)).*2).

(** ** Leases *)

Definition with_role (role : PageRole.t) (m : gmap string PageLease) : gmap string PageLease :=
  filter (λ kl, pl_role kl.2 = role) m.

Definition count_role (role : PageRole.t) (p : PagePool) : Z :=
  Z.of_nat (size (with_role role (pp_leases p))).

Definition _enforce_capacity (p : PagePool) : res unit :=
  raise_if (pp_max_active_pages p <? count_role PageRole.ACTIVE p) PagePoolError
    "active page capacity exceeded; pool does not evict pages implicitly";;
  raise_if (pp_max_probe_pages p <? count_role PageRole.PROBE p) PagePoolError
    "probe page capacity exceeded; pool does not evict pages implicitly".

Definition set_lease (p : PagePool) (page_id : string) (l : PageLease) : PagePool :=
  p <| pp_leases := <[page_id := l]> (pp_leases p) |>.

Definition release_page (p : PagePool) (page_id : string) : PagePool * option PageLease :=
  (p <| pp_leases := delete page_id (pp_leases p) |>, pp_leases p !! page_id).

(** The lease is changed first and put back when a capacity is exceeded. *)
Definition register_page (p : PagePool) (page_id : string) (role : PageRole.t)
    (worker_id : option string) (now : float) : PagePool * res PageLease :=
  match pp_leases p !! page_id with
  | Some existing =>
      let lease := existing <| pl_role := role |> <| pl_worker_id := worker_id |>
                            <| pl_last_used_at := now |> in
      let changed := set_lease p page_id lease in
      match _enforce_capacity changed with
      | Ok _ => (changed, Ok lease)
      | Err e =>
          (set_lease changed page_id
             (lease <| pl_role := pl_role existing |> <| pl_worker_id := pl_worker_id existing |>
                    <| pl_last_used_at := pl_last_used_at existing |>), Err e)
      end
  | None =>
      let lease := mkPageLease page_id role worker_id now now in
      let changed := set_lease p page_id lease in
      match _enforce_capacity changed with
      | Ok _ => (changed, Ok lease)
      | Err e => ((release_page changed page_id).1, Err e)
      end
  end.

Definition touch (p : PagePool) (page_id : string) (now : float) : PagePool * res unit :=
  match pp_leases p !! page_id with
  | Some lease => (set_lease p page_id (lease <| pl_last_used_at := now |>), Ok tt)
  | None => (p, raise PagePoolError "unknown page lease")
  end.

(** ** Probe targets *)

(** [self._probe_targets[worker_id] = target]: in place, or at the end. *)
Fixpoint put_target (t : ProbeTarget) (ts : list ProbeTarget) : list ProbeTarget :=
  match ts with
  | [] => [t]
  | u :: ts => if String.eqb (pbt_worker_id u) (pbt_worker_id t) then t :: ts else u :: put_target t ts
  end.

Definition find_target (worker_id : string) (ts : list ProbeTarget) : option ProbeTarget :=
  next_where (λ t, String.eqb (pbt_worker_id t) worker_id) ts.

Definition register_probe_target (p : PagePool) (worker_id conversation_url : string)
    (priority : Z) (last_probed_at : option float) : PagePool * ProbeTarget :=
  let target := mkProbeTarget worker_id conversation_url last_probed_at priority in
  (p <| pp_probe_targets := put_target target (pp_probe_targets p) |>, target).

Definition remove_probe_target (p : PagePool) (worker_id : string) : PagePool :=
  p <| pp_probe_targets :=
         List.filter (λ t, negb (String.eqb (pbt_worker_id t) worker_id)) (pp_probe_targets p) |>.

(** The tuple comparison of the [min] key: higher priority, never probed, oldest probe,
    worker id. *)
Definition probe_lt (x y : ProbeTarget) : bool :=
  if negb (pbt_priority x =? pbt_priority y) then - pbt_priority x <? - pbt_priority y else
  match pbt_last_probed_at x, pbt_last_probed_at y with
  | None, Some _ => true
  | Some _, None => false
  | Some tx, Some ty =>
      if feq tx ty then negb (String.leb (pbt_worker_id y) (pbt_worker_id x)) else flt tx ty
  | None, None => negb (String.leb (pbt_worker_id y) (pbt_worker_id x))
  end.

Definition next_probe_target (p : PagePool) : option ProbeTarget :=
  py_min probe_lt (pp_probe_targets p).

Definition mark_probed (p : PagePool) (worker_id : string) (now : float) : PagePool * res unit :=
  match find_target worker_id (pp_probe_targets p) with
  | Some target =>
      (p <| pp_probe_targets :=
              put_target (target <| pbt_last_probed_at := Some now |>) (pp_probe_targets p) |>, Ok tt)
  | None => (p, raise PagePoolError "unknown probe target")
  end.

(** ** Theorems *)

(** *** Capacities *)

Inductive pool_call :=
  | PoolRegister (page : string) (role : PageRole.t) (worker : option string) (now : float)
  | PoolTouch (page : string) (now : float)
  | PoolRelease (page : string)
  | PoolTarget (worker url : string) (priority : Z) (last : option float)
  | PoolForget (worker : string)
  | PoolProbed (worker : string) (now : float).

(** The pool that a call leaves, and whether it returned. *)
Definition pool_step (p : PagePool) (c : pool_call) : PagePool * bool :=
  match c with
  | PoolRegister page role w now => let '(p', x) := register_page p page role w now in (p', res_ok x)
  | PoolTouch page now => let '(p', x) := touch p page now in (p', res_ok x)
  | PoolRelease page => ((release_page p page).1, true)
  | PoolTarget w url prio last => ((register_probe_target p w url prio last).1, true)
  | PoolForget w => (remove_probe_target p w, true)
  | PoolProbed w now => let '(p', x) := mark_probed p w now in (p', res_ok x)
  end.

Definition pool_run (p : PagePool) (calls : list pool_call) : PagePool :=
  foldl (λ p c, (pool_step p c).1) p calls.

Record within_capacity (p : PagePool) : Prop := {
  wc_active : count_role PageRole.ACTIVE p ≤ pp_max_active_pages p;
  wc_probe : count_role PageRole.PROBE p ≤ pp_max_probe_pages p;
}.

Lemma enforce_Ok p : _enforce_capacity p = Ok tt ↔ within_capacity p.
Proof.
  unfold _enforce_capacity. rewrite raise_if_then, raise_if_Ok, !Z.ltb_ge. split; [|by intros []].
  intros []. by constructor.
Qed.

Lemma set_lease_undo p page l l' :
  pp_leases p !! page = Some l → set_lease (set_lease p page l') page l = p.
Proof.
  intros Hl. destruct p as [a b m ts]. unfold set_lease. cbn in *. f_equal.
  by rewrite insert_insert_eq, insert_id.
Qed.

Lemma release_undo p page l :
  pp_leases p !! page = None → (release_page (set_lease p page l) page).1 = p.
Proof.
  intros Hl. destruct p as [a b m ts]. unfold release_page, set_lease. cbn in *. f_equal.
  by rewrite delete_insert_id.
Qed.

Lemma touch_count role m page l l' :
  m !! page = Some l → pl_role l' = pl_role l →
  size (with_role role (<[page := l']> m)) = size (with_role role m).
Proof.
  intros Hl El. unfold with_role. destruct (decide (pl_role l = role)) as [Hr|Hr].
  - rewrite map_filter_insert_True by (cbn; congruence). rewrite map_size_insert_Some; [done|].
    exists l. by rewrite map_lookup_filter_Some.
  - rewrite map_filter_insert_False by (cbn; congruence). rewrite map_filter_delete, delete_id; [done|].
    by rewrite map_lookup_filter_None; right; intros x; rewrite Hl; intros [= <-].
Qed.

Lemma release_count role m page :
  (size (with_role role (delete page m)) ≤ size (with_role role m))%nat.
Proof.
  apply map_subseteq_size. unfold with_role. rewrite map_filter_delete. apply delete_subseteq.
Qed.

(** The result of a registration: committed within the capacities, or undone. *)
Lemma register_cases p page role w now p' x :
  register_page p page role w now = (p', x) →
  (∃ l, x = Ok l ∧ p' = set_lease p page l ∧ within_capacity p' ∧ pl_role l = role ∧
     pl_worker_id l = w) ∨
  (p' = p ∧ ∃ e, x = Err e).
Proof.
  unfold register_page. destruct (pp_leases p !! page) as [old|] eqn:Hl; cbv zeta;
    destruct (_enforce_capacity _) as [[]|e] eqn:He; intros [= <- <-].
  - left. apply enforce_Ok in He. by eexists.
  - right. split; [|by eexists]. etrans; [|by eapply (set_lease_undo p page old)].
    f_equal. by destruct old.
  - left. apply enforce_Ok in He. by eexists.
  - right. split; [|by eexists]. by apply release_undo.
Qed.

Lemma touch_within p page now p' x :
  touch p page now = (p', x) → within_capacity p → within_capacity p'.
Proof.
  unfold touch. destruct (pp_leases p !! page) as [l|] eqn:Hl; intros [= <- _]; [|done].
  intros []. by constructor; unfold count_role in *; cbn; erewrite touch_count.
Qed.

Lemma release_within p page : within_capacity p → within_capacity (release_page p page).1.
Proof.
  intros [Ha Hp]. unfold count_role in *. constructor; unfold count_role; cbn.
  - pose proof (release_count PageRole.ACTIVE (pp_leases p) page). lia.
  - pose proof (release_count PageRole.PROBE (pp_leases p) page). lia.
Qed.

Lemma step_within p c : within_capacity p → within_capacity (pool_step p c).1.
Proof.
  intros W. destruct c; cbn.
  - destruct (register_page _ _ _ _ _) as [p' x] eqn:E.
    by apply register_cases in E as [(l & _ & _ & ? & _)|[-> _]].
  - destruct (touch _ _ _) as [p' x] eqn:E. by eapply touch_within.
  - by apply release_within.
  - by destruct W.
  - by destruct W.
  - unfold mark_probed. destruct (find_target _ _); [by destruct W|done].
Qed.

Lemma step_failed p c : (pool_step p c).2 = false → (pool_step p c).1 = p.
Proof.
  destruct c; cbn; try done.
  - destruct (register_page _ _ _ _ _) as [p' x] eqn:E.
    by apply register_cases in E as [(l & -> & _)|[-> _]].
  - unfold touch. by destruct (pp_leases p !! page).
  - unfold mark_probed. by destruct (find_target _ _).
Qed.

Lemma step_keeps_page p c page :
  c ≠ PoolRelease page → is_Some (pp_leases p !! page) →
  is_Some (pp_leases (pool_step p c).1 !! page).
Proof.
  intros Hc Hp. destruct c; cbn; try done.
  - destruct (register_page _ _ _ _ _) as [p' x] eqn:E.
    apply register_cases in E as [(l & _ & -> & _)|[-> _]]; [|done].
    apply lookup_insert_is_Some'. by right.
  - unfold touch. destruct (pp_leases p !! page0); [|done]. apply lookup_insert_is_Some'. by right.
  - rewrite lookup_delete_ne; [done|]. congruence.
  - by unfold mark_probed; destruct (find_target _ _).
Qed.

Lemma step_limits p c :
  pp_max_active_pages (pool_step p c).1 = pp_max_active_pages p ∧
  pp_max_probe_pages (pool_step p c).1 = pp_max_probe_pages p.
Proof.
  destruct c; cbn; try done.
  - destruct (register_page _ _ _ _ _) as [p' x] eqn:E.
    by apply register_cases in E as [(l & _ & -> & _)|[-> _]].
  - unfold touch. by destruct (pp_leases p !! page).
  - unfold mark_probed. by destruct (find_target _ _).
Qed.

(** The pool is bounded and never evicts: after any calls there are at most the configured
    numbers of active and of probe pages, at least one of each being configured; a call
    that raises leaves the pool exactly as it was; and a leased page stays leased until it
    is released by name. *)
Theorem page_pool_is_bounded max_active max_probe calls c page :
  let p := pool_run (new_pool max_active max_probe) calls in
  count_role PageRole.ACTIVE p ≤ Z.max 1 max_active ∧
  count_role PageRole.PROBE p ≤ Z.max 1 max_probe ∧
  ((pool_step p c).2 = false → (pool_step p c).1 = p) ∧
  (c ≠ PoolRelease page → is_Some (pp_leases p !! page) →
   is_Some (pp_leases (pool_step p c).1 !! page)).
Proof.
  intros p. assert (within_capacity p ∧ pp_max_active_pages p = Z.max 1 max_active ∧
    pp_max_probe_pages p = Z.max 1 max_probe) as ([Ha Hp] & Ea & Ep).
  { unfold p, pool_run. set (p0 := new_pool max_active max_probe).
    assert (within_capacity p0) as W0.
    { constructor; unfold count_role, with_role, p0; cbn [pp_leases new_pool];
        rewrite map_filter_empty, map_size_empty; cbn; lia. }
    change (Z.max 1 max_active) with (pp_max_active_pages p0).
    change (Z.max 1 max_probe) with (pp_max_probe_pages p0).
    revert W0. generalize p0. induction calls as [|c0 calls IH]; intros q W; cbn; [done|].
    destruct (step_limits q c0) as [<- <-]. by apply IH, step_within. }
  rewrite Ea in Ha. rewrite Ep in Hp. split_and!; [done..|apply step_failed|apply step_keeps_page].
Qed.

(** *** Probe targets *)

(** One round: the next target is probed at [now]. *)
Definition probe_round (p : PagePool) (now : float) : PagePool :=
  match next_probe_target p with
  | Some t => (mark_probed p (pbt_worker_id t) now).1
  | None => p
  end.

(** The workers probed at the given times. *)
Fixpoint probe_visits (p : PagePool) (times : list float) : list string :=
  match times with
  | [] => []
  | now :: times =>
      match next_probe_target p with
      | Some t => pbt_worker_id t :: probe_visits (probe_round p now) times
      | None => []
      end
  end.

Definition targets_ok (ts : list ProbeTarget) : Prop := NoDup (pbt_worker_id <$> ts).

Lemma put_target_workers t ts :
  pbt_worker_id t ∈ (pbt_worker_id <$> ts) →
  pbt_worker_id <$> put_target t ts = pbt_worker_id <$> ts.
Proof.
  induction ts as [|u ts IH]; cbn; [by intros ?%not_elem_of_nil|].
  destruct (String.eqb_spec (pbt_worker_id u) (pbt_worker_id t)) as [E|E]; cbn; [by rewrite E|].
  intros [Eq|Hin]%elem_of_cons; [by symmetry in Eq|by rewrite IH].
Qed.

Lemma elem_of_put_target t ts u :
  targets_ok ts → u ∈ put_target t ts → u = t ∨ (u ∈ ts ∧ pbt_worker_id u ≠ pbt_worker_id t).
Proof.
  unfold targets_ok. induction ts as [|x ts IH]; cbn.
  - intros _ ->%list_elem_of_singleton. by left.
  - intros [Hx Hnd]%NoDup_cons.
    destruct (String.eqb_spec (pbt_worker_id x) (pbt_worker_id t)) as [E|E];
      intros [->|Hin]%elem_of_cons.
    + by left.
    + right. split; [by right|]. intros Eu. apply Hx. rewrite E, <- Eu. by apply list_elem_of_fmap_2.
    + right. split; [by left|done].
    + apply IH in Hin as [->|[? ?]]; [by left|right; split; [by right|done]|done].
Qed.

(** Every call keeps the targets keyed by their worker. *)
Lemma put_target_ok t ts : targets_ok ts → targets_ok (put_target t ts).
Proof.
  unfold targets_ok. destruct (decide (pbt_worker_id t ∈ pbt_worker_id <$> ts)) as [Hin|Hni].
  - by rewrite put_target_workers.
  - intros Hnd. assert (put_target t ts = ts ++ [t]) as ->.
    { induction ts as [|u ts IH]; cbn; [done|]. cbn in Hni. apply not_elem_of_cons in Hni as [Hne Hni].
      apply NoDup_cons in Hnd as [_ Hnd]. destruct (String.eqb_spec (pbt_worker_id u) (pbt_worker_id t)); [done|].
      by rewrite IH. }
    rewrite fmap_app. apply NoDup_app. split; [done|]. split; [|apply NoDup_singleton].
    intros w Hw ->%list_elem_of_singleton. done.
Qed.

(** A target not probed in this rotation comes before the ones that were. *)
Lemma unvisited_first ts (V : list string) t :
  (∀ u v, u ∈ ts → v ∈ ts → pbt_priority u = pbt_priority v) →
  (∀ u v, u ∈ ts → v ∈ ts → pbt_worker_id u ∉ V → pbt_worker_id v ∈ V →
     ∃ tv, pbt_last_probed_at v = Some tv ∧
       ∀ tu, pbt_last_probed_at u = Some tu → flt tu tv = true) →
  py_min probe_lt ts = Some t → (∃ u, u ∈ ts ∧ pbt_worker_id u ∉ V) → pbt_worker_id t ∉ V.
Proof.
  intros Hprio Hlast. apply (py_min_class probe_lt (λ u, pbt_worker_id u ∉ V)).
  intros u v Hu Hv HuV HvV. apply dec_stable in HvV.
  destruct (Hlast u v Hu Hv HuV HvV) as (tv & Ev & Hlt). unfold probe_lt.
  rewrite (Hprio u v Hu Hv), Z.eqb_refl, Ev. cbn.
  destruct (pbt_last_probed_at u) as [tu|]; [|done]. specialize (Hlt tu eq_refl).
  assert (feq tu tv = false) as Hf.
  { rewrite feq_fle. by rewrite (flt_not_fle _ _ Hlt), andb_false_r. }
  rewrite (feq_sym tv tu), Hf. split; [done|]. by apply fle_not_flt, flt_fle.
Qed.

Lemma find_target_ok ts t : targets_ok ts → t ∈ ts → find_target (pbt_worker_id t) ts = Some t.
Proof.
  intros Hnd Hin. destruct (next_where_is_Some (λ u, String.eqb (pbt_worker_id u) (pbt_worker_id t)) ts t)
    as [u Hu]; [done|apply String.eqb_refl|].
  unfold find_target. rewrite Hu. f_equal. apply next_where_Some in Hu as [Hu E%String.eqb_eq].
  eapply NoDup_fmap_elem; eauto.
Qed.

(** The state of a rotation that has probed [V]. *)
Record rotating (ts : list ProbeTarget) (V : list string) (times : list float) : Prop := {
  ro_ok : targets_ok ts;
  ro_priority : ∀ u v, u ∈ ts → v ∈ ts → pbt_priority u = pbt_priority v;
  ro_future : ∀ u tu now, u ∈ ts → pbt_worker_id u ∉ V → pbt_last_probed_at u = Some tu →
    now ∈ times → flt tu now = true;
  ro_visited : ∀ u v, u ∈ ts → v ∈ ts → pbt_worker_id u ∉ V → pbt_worker_id v ∈ V →
    ∃ tv, pbt_last_probed_at v = Some tv ∧
      ∀ tu, pbt_last_probed_at u = Some tu → flt tu tv = true;
}.

Lemma rotating_round ts V now times t :
  rotating ts V (now :: times) → t ∈ ts → pbt_worker_id t ∉ V →
  rotating (put_target (t <| pbt_last_probed_at := Some now |>) ts) (pbt_worker_id t :: V) times.
Proof.
  intros [Hok Hp Hf Hv] Ht HtV. set (t' := t <| pbt_last_probed_at := Some now |>).
  assert (∀ u, u ∈ put_target t' ts → u = t' ∨ (u ∈ ts ∧ pbt_worker_id u ≠ pbt_worker_id t)) as Hput.
  { intros u Hu. exact (elem_of_put_target t' ts u Hok Hu). }
  constructor.
  - by apply put_target_ok.
  - assert (∀ u, u ∈ put_target t' ts → pbt_priority u = pbt_priority t) as Hsame.
    { intros u [->|[Hu _]]%Hput; [done|by apply Hp]. }
    intros u v ->%Hsame ->%Hsame. done.
  - intros u tu n [->|[Hu Hne]]%Hput HuV Hl Hn.
    + destruct HuV. by left.
    + eapply Hf; [done| |done|by right]. intros Hin. apply HuV. by right.
  - intros u v Hu Hw HuV HvV. apply not_elem_of_cons in HuV as [Hne HuV].
    apply Hput in Hu as [->|[Hu _]]; [done|]. apply Hput in Hw as [->|[Hw Hwne]].
    + exists now. split; [done|]. intros tu Hl. eapply Hf; [done..|by left].
    + apply elem_of_cons in HvV as [?|HvV]; [done|]. by eapply Hv.
Qed.

Lemma visits_rotate p V times :
  rotating (pp_probe_targets p) V times →
  (∀ w, w ∈ V → w ∈ pbt_worker_id <$> pp_probe_targets p) → NoDup V →
  (length V + length times ≤ length (pp_probe_targets p))%nat →
  NoDup (V ++ probe_visits p times) ∧
  (∀ w, w ∈ probe_visits p times → w ∈ pbt_worker_id <$> pp_probe_targets p) ∧
  length (probe_visits p times) = length times.
Proof.
  revert p V. induction times as [|now times IH]; intros p V R HV Hnd Hlen; cbn.
  - rewrite app_nil_r. split_and!; [done|by intros w ?%not_elem_of_nil|done].
  - assert (∃ u, u ∈ pp_probe_targets p ∧ pbt_worker_id u ∉ V) as Hex.
    { destruct (decide (Exists (λ u, pbt_worker_id u ∉ V) (pp_probe_targets p))) as [Hex|Hne].
      { by apply Exists_exists in Hex. }
      exfalso. assert (pbt_worker_id <$> pp_probe_targets p ⊆ V) as Hsub.
      { intros w (u & -> & Hu)%list_elem_of_fmap. destruct (decide (pbt_worker_id u ∈ V)); [done|].
        destruct Hne. apply Exists_exists. eauto. }
      pose proof (submseteq_length _ _ (NoDup_submseteq _ _ (ro_ok _ _ _ R) Hsub)) as Hle.
      rewrite length_fmap in Hle. cbn in Hlen. lia. }
    destruct Hex as (u & Hu & HuV). destruct (py_min_is_Some probe_lt _ u Hu) as [t Ht].
    pose proof (py_min_elem _ _ _ Ht) as Hin.
    pose proof (unvisited_first _ V t (ro_priority _ _ _ R) (ro_visited _ _ _ R) Ht
      (ex_intro _ u (conj Hu HuV))) as HtV.
    unfold probe_round, next_probe_target. rewrite Ht. unfold mark_probed.
    rewrite find_target_ok by (done || apply R). cbn [fst].
    set (t' := t <| pbt_last_probed_at := Some now |>).
    set (p' := p <| pp_probe_targets := put_target t' (pp_probe_targets p) |>).
    assert (pbt_worker_id <$> pp_probe_targets p' = pbt_worker_id <$> pp_probe_targets p) as Ew.
    { apply put_target_workers. exact (list_elem_of_fmap_2 pbt_worker_id _ t Hin). }
    assert (length (pp_probe_targets p') = length (pp_probe_targets p)) as El.
    { rewrite <- (length_fmap pbt_worker_id), Ew. apply length_fmap. }
    destruct (IH p' (pbt_worker_id t :: V)) as (H1 & H2 & H3).
    + by apply rotating_round.
    + rewrite Ew. intros w [->|Hw]%elem_of_cons; [by apply (list_elem_of_fmap_2 pbt_worker_id)|by apply HV].
    + by apply NoDup_cons.
    + rewrite El. cbn in *. lia.
    + rewrite Ew in H2. split_and!.
      * rewrite <- Permutation_middle. exact H1.
      * intros w [->|Hw]%elem_of_cons; [by apply (list_elem_of_fmap_2 pbt_worker_id)|by apply H2].
      * cbn. by rewrite H3.
Qed.

(** Probing starves nobody: with targets of one priority and probe times later than every
    earlier probe, as many rounds as there are targets probe each of them exactly once. *)
Theorem probe_rotation_is_fair p times :
  targets_ok (pp_probe_targets p) →
  (∀ u v, u ∈ pp_probe_targets p → v ∈ pp_probe_targets p → pbt_priority u = pbt_priority v) →
  (∀ u tu now, u ∈ pp_probe_targets p → pbt_last_probed_at u = Some tu → now ∈ times →
     flt tu now = true) →
  length times = length (pp_probe_targets p) →
  probe_visits p times ≡ₚ pbt_worker_id <$> pp_probe_targets p.
Proof.
  intros Hok Hp Hf Hlen. destruct (visits_rotate p [] times) as (Hnd & Hsub & Hl).
  - constructor; [done..|intros u tu now Hu _; by apply Hf|]. intros u v _ _ _ ?%not_elem_of_nil. done.
  - by intros w ?%not_elem_of_nil.
  - apply NoDup_nil_2.
  - cbn. lia.
  - cbn in Hnd. apply submseteq_length_Permutation.
    + by apply NoDup_submseteq.
    + rewrite length_fmap, Hl, Hlen. done.
Qed.

(** ** Witnesses *)

Definition three_targets : PagePool :=
  (new_pool 4 1) <| pp_probe_targets :=
    [mkProbeTarget "a" "https://chat/a" (Some (of_Z 5)) 0; mkProbeTarget "b" "https://chat/b" None 0;
     mkProbeTarget "c" "https://chat/c" (Some (of_Z 3)) 0] |>.

Example rotation_order : probe_visits three_targets [of_Z 10; of_Z 9; of_Z 11] = ["b"; "c"; "a"].
Proof. vm_compute. reflexivity. Qed.

Lemma probe_rotation_is_fair_witness :
  probe_visits three_targets [of_Z 10; of_Z 9; of_Z 11] ≡ₚ ["a"; "b"; "c"].
Proof.
  apply (probe_rotation_is_fair three_targets).
  - unfold targets_ok. cbn. apply (bool_decide_unpack (NoDup ["a"; "b"; "c"])). vm_compute. exact I.
  - intros u v Hu Hv. cbn in Hu, Hv. rewrite !elem_of_cons in Hu, Hv.
    destruct Hu as [->|[->|[->|Hu]]], Hv as [->|[->|[->|Hv]]]; try reflexivity;
      by apply not_elem_of_nil in Hu || apply not_elem_of_nil in Hv.
  - intros u tu now Hu Hl Hn. cbn in Hu. rewrite !elem_of_cons in Hu. rewrite !elem_of_cons in Hn.
    destruct Hu as [->|[->|[->|Hu]]]; [| | |by apply not_elem_of_nil in Hu];
      cbn in Hl; [injection Hl as <-|discriminate|injection Hl as <-];
      destruct Hn as [->|[->|[->|Hn]]]; try (vm_compute; reflexivity); by apply not_elem_of_nil in Hn.
  - reflexivity.
Defined.
