(* ===== verification/PyUrl.v ===== *)
(** * urllib.parse: [urlsplit] and [urlunsplit]

    The splitting of a URL text as CPython's urllib.parse does it, for the two
    [_normalize_url] functions of the program.  The validity of a host in brackets and
    of the NFKC form of a network location are tests on Unicode data; they are the
    method [netloc_valid] of a class. *)

From Stdlib Require Import Ascii.
From S2P Require Import Prelude PyStr.

Open Scope string_scope.

Class NetlocCheck := netloc_valid : string → bool.

Record SplitResult := mkSplitResult {
  u_scheme : string;
  u_netloc : string;
  u_path : string;
  u_query : string;
  u_fragment : string;
}.

Fixpoint str_existsb (p : ascii → bool) (s : string) : bool :=
  match s with
  | EmptyString => false
  | String a s' => p a || str_existsb p s'
  end.

Definition char_in (s : string) (a : ascii) : bool := str_existsb (Ascii.eqb a) s.

(** [s.replace(c, "")] for the characters of [cs]. *)
Fixpoint remove_chars (cs s : string) : string :=
  match s with
  | EmptyString => EmptyString
  | String a s' => if char_in cs a then remove_chars cs s' else String a (remove_chars cs s')
  end.

(** [s.split(c, 1)] for a character that occurs: the texts before and after it. *)
Fixpoint split_at (stop : ascii → bool) (s : string) : string * option string :=
  match s with
  | EmptyString => (EmptyString, None)
  | String a s' =>
      if stop a then (EmptyString, Some s')
      else let '(before, after) := split_at stop s' in (String a before, after)
  end.

(** The text up to the first character of [stops], and the rest with that character. *)
Fixpoint break_at (stops s : string) : string * string :=
  match s with
  | EmptyString => (EmptyString, EmptyString)
  | String a s' =>
      if char_in stops a then (EmptyString, s)
      else let '(before, rest) := break_at stops s' in (String a before, rest)
  end.

Definition ascii_alpha (a : ascii) : bool :=
  let n := nat_of_ascii a in
  (Nat.leb 65 n && Nat.leb n 90) || (Nat.leb 97 n && Nat.leb n 122).

(** [scheme_chars] *)
Definition scheme_char (a : ascii) : bool :=
  let n := nat_of_ascii a in
  ascii_alpha a || (Nat.leb 48 n && Nat.leb n 57) || char_in "+-." a.

Definition control_or_space : list string := (λ n, byte_str n) <$> seq 0 33.

Definition tab_newlines : string := byte_str 9 +:+ byte_str 13 +:+ byte_str 10.

Section Url.
Context {tables : UnicodeTables} {check : NetlocCheck}.

(** The scheme and the rest of the URL. *)
Definition split_scheme (url : string) : string * string :=
  match split_at (Ascii.eqb ":"%char) url with
  | (before, Some rest) =>
      match before with
      | String a _ =>
          if ascii_alpha a && negb (str_existsb (λ c, negb (scheme_char c)) before)
          then (lower before, rest) else ("", url)
      | EmptyString => ("", url)
      end
  | (_, None) => ("", url)
  end.

Definition urlsplit (url : string) : res SplitResult :=
  let url := remove_chars tab_newlines (lstrip_of control_or_space url) in
  let '(scheme, url) := split_scheme url in
  '(netloc, url) ←
    match drop_prefix "//" url with
    | Some rest =>
        let '(netloc, url) := break_at "/?#" rest in
        raise_if (xorb (char_in netloc "["%char) (char_in netloc "]"%char)) ValueError
          "Invalid IPv6 URL";;
        Ok (netloc, url)
    | None => Ok ("", url)
    end;
  let '(url, fragment) := split_at (Ascii.eqb "#"%char) url in
  let '(url, query) := split_at (Ascii.eqb "?"%char) url in
  raise_if (negb (netloc_valid netloc)) ValueError "invalid network location";;
  Ok (mkSplitResult scheme netloc url (default "" query) (default "" fragment)).

(** [uses_netloc] *)
Definition uses_netloc : list string :=
  [""; "ftp"; "http"; "gopher"; "nntp"; "telnet"; "imap"; "wais"; "file"; "mms"; "https";
   "shttp"; "snews"; "prospero"; "rtsp"; "rtsps"; "rtspu"; "rsync"; "svn"; "svn+ssh"; "sftp";
   "nfs"; "git"; "git+ssh"; "ws"; "wss"; "itms-services"].

Definition urlunsplit (u : SplitResult) : string :=
  let url := u_path u in
  let url :=
    if str_truthy (u_netloc u) ||
       (str_truthy (u_scheme u) && existsb (String.eqb (u_scheme u)) uses_netloc &&
        negb (startswith "//" url))
    then "//" +:+ u_netloc u +:+
         (if str_truthy url && negb (startswith "/" url) then "/" +:+ url else url)
    else url in
  let url := if str_truthy (u_scheme u) then u_scheme u +:+ ":" +:+ url else url in
  let url := if str_truthy (u_query u) then url +:+ "?" +:+ u_query u else url in
  if str_truthy (u_fragment u) then url +:+ "#" +:+ u_fragment u else url.

(** The [_normalize_url] of dispatcher.py and of lifecycle.py. *)
Definition _normalize_url (value : string) : res string :=
  parsed ← urlsplit (strip value);
  let path := rstrip_slash (u_path parsed) in
  Ok (urlunsplit (mkSplitResult (lower (u_scheme parsed)) (lower (u_netloc parsed))
        (if str_truthy path then path else "/") (u_query parsed) "")).

End Url.

(** Every network location is accepted; for the examples. *)
Definition any_netloc : NetlocCheck := λ _, true.

Example normalize_example :
  @_normalize_url AsciiTables any_netloc " HTTPS://Chat.Example/c/1/?a=b#frag" =
  Ok "https://chat.example/c/1?a=b".
Proof. reflexivity. Qed.
