(* ===== verification/PyJson.v ===== *)
(** * JSON values and Python dictionaries of type [dict[str, Any]]

    The snapshots, checkpoints and metadata of the program are dictionaries whose
    values are JSON data.  Python's [None] is [JNull]; an object keeps its pairs
    in insertion order with distinct keys. *)

From S2P Require Import Prelude PyFloat PyStr.

#[warnings="-register-all"]
Inductive json :=
  | JNull
  | JBool (b : bool)
  | JInt (z : Z)
  | JFloat (f : float)
  | JStr (s : string)
  | JList (l : list json)
  | JObj (d : list (string * json)).

Definition dict := list (string * json).

(** [d.get(k)] *)
Fixpoint dget (k : string) (d : dict) : json :=
  match d with
  | [] => JNull
  | (k', v) :: d' => if String.eqb k' k then v else dget k d'
  end.

(** [k in d] *)
Fixpoint dmem (k : string) (d : dict) : bool :=
  match d with
  | [] => false
  | (k', _) :: d' => String.eqb k' k || dmem k d'
  end.

(** [d[k] = v] keeps the position of an existing key. *)
Fixpoint dset (k : string) (v : json) (d : dict) : dict :=
  match d with
  | [] => [(k, v)]
  | (k', v') :: d' => if String.eqb k' k then (k, v) :: d' else (k', v') :: dset k v d'
  end.

(** [d.update(e)] and [{**d, **e}] *)
Definition dupdate (d e : dict) : dict := foldl (λ acc kv, dset kv.1 kv.2 acc) d e.

(** [d.pop(k, None)] as an update of [d] *)
Fixpoint dpop (k : string) (d : dict) : dict :=
  match d with
  | [] => []
  | (k', v) :: d' => if String.eqb k' k then dpop k d' else (k', v) :: dpop k d'
  end.

(** [bool(v)] *)
Definition jtruthy (j : json) : bool :=
  match j with
  | JNull => false
  | JBool b => b
  | JInt z => negb (Z.eqb z 0)
  | JFloat f => negb (feq f (of_Z 0))
  | JStr s => str_truthy s
  | JList l => match l with [] => false | _ => true end
  | JObj d => match d with [] => false | _ => true end
  end.

(** Comparison with a string constant, [v == "..."]. *)
Definition jeq_str (j : json) (s : string) : bool :=
  match j with JStr t => String.eqb t s | _ => false end.

(** [v == x] for an optional string [x]. *)
Definition jeq_opt (j : json) (x : option string) : bool :=
  match j, x with
  | JNull, None => true
  | JStr t, Some s => String.eqb t s
  | _, _ => false
  end.

(** [v is True] *)
Definition jis_true (j : json) : bool := match j with JBool true => true | _ => false end.

Definition j_of_opt_str (x : option string) : json :=
  match x with Some s => JStr s | None => JNull end.
Definition j_of_opt_bool (x : option bool) : json :=
  match x with Some b => JBool b | None => JNull end.
Definition j_of_opt_float (x : option float) : json :=
  match x with Some f => JFloat f | None => JNull end.
Definition j_of_opt_int (x : option Z) : json :=
  match x with Some z => JInt z | None => JNull end.

(** The number that a value is for [==]: a boolean is 0 or 1. *)
Definition json_number (j : json) : option (Z + float) :=
  match j with
  | JBool b => Some (inl (if b then 1 else 0)%Z)
  | JInt z => Some (inl z)
  | JFloat f => Some (inr f)
  | _ => None
  end.

Definition number_eq (x y : Z + float) : bool :=
  match x, y with
  | inl a, inl b => Z.eqb a b
  | inr f, inr g => feq f g
  | inl a, inr f | inr f, inl a => float_is_int f a
  end.

(** The value of a key, [None] when it is absent. *)
Definition dfind (k : string) (d : dict) : option json :=
  snd <$> List.find (λ kv, String.eqb kv.1 k) d.

(** [a == b]: dictionaries are equal whatever the order of their keys. *)
Fixpoint json_eq (a b : json) : bool :=
  match a, b with
  | JNull, JNull => true
  | JStr s, JStr t => String.eqb s t
  | JList l, JList l' =>
      (fix list_eq (l l' : list json) : bool :=
         match l, l' with
         | [], [] => true
         | x :: l, y :: l' => json_eq x y && list_eq l l'
         | _, _ => false
         end) l l'
  | JObj d, JObj d' =>
      Nat.eqb (length d) (length d') &&
      (fix dict_eq (d : dict) : bool :=
         match d with
         | [] => true
         | (k, v) :: d => match dfind k d' with
                          | Some v' => json_eq v v' && dict_eq d
                          | None => false
                          end
         end) d
  | _, _ => match json_number a, json_number b with
            | Some x, Some y => number_eq x y
            | _, _ => false
            end
  end.

(** ** Laws *)

Lemma dget_dset_eq k v d : dget k (dset k v d) = v.
Proof.
  induction d as [|[k' v'] d IH]; cbn; [by rewrite String.eqb_refl|].
  destruct (String.eqb_spec k' k); cbn.
  - by rewrite String.eqb_refl.
  - destruct (String.eqb_spec k' k); [done|apply IH].
Qed.

Lemma dget_dset_ne k k' v d : k ≠ k' → dget k' (dset k v d) = dget k' d.
Proof.
  intros Hne. induction d as [|[j w] d IH]; cbn.
  - by destruct (String.eqb_spec k k').
  - destruct (String.eqb_spec j k) as [->|]; cbn.
    + by destruct (String.eqb_spec k k').
    + by rewrite IH.
Qed.

Lemma dget_dpop_ne k k' d : k ≠ k' → dget k' (dpop k d) = dget k' d.
Proof.
  intros Hne. induction d as [|[j w] d IH]; cbn; [done|].
  destruct (String.eqb_spec j k) as [->|]; cbn.
  - destruct (String.eqb_spec k k'); [done|apply IH].
  - by rewrite IH.
Qed.

(** ** Formatting

    Texts that the program composes from floats and JSON values for prompts and
    evidence lines: [f"{x:.0f}"], [f"{x:.1f}"], [json.dumps(x, sort_keys=True)] and [str(x)] of a value
    that is not a string. *)
Class Formatting := {
  format_f0 : float → string;
  format_f1 : float → string;
  json_text : json → string;
  json_repr : json → string;
}.

(** [str(v)] *)
Definition json_str `{Formatting} (j : json) : string :=
  match j with JStr s => s | _ => json_repr j end.

(** [str(v or other)] and [str(v or "")] *)
Definition json_text_or `{Formatting} (v : json) (other : string) : string :=
  if jtruthy v then json_str v else other.
Definition json_text_or_empty `{Formatting} (v : json) : string := json_text_or v "".

(** [str(b)] and [str(b).lower()] *)
Definition str_bool (b : bool) : string := if b then "True" else "False".
Definition lower_bool (b : bool) : string := if b then "true" else "false".

(** ** Numbers

    [int(x)] and [float(x)] of JSON values.  The conversions of texts and of floats to
    integers are methods of a class; a list, an object or [None] raises [TypeError]. *)
Class Numbers := {
  int_of_text : string → res Z;
  int_of_float : float → res Z;
  float_of_text : string → res float;
}.

Definition json_int `{Numbers} (j : json) : res Z :=
  match j with
  | JInt z => Ok z
  | JBool b => Ok (if b then 1%Z else 0%Z)
  | JFloat f => int_of_float f
  | JStr s => int_of_text s
  | _ => raise TypeError "int() argument must be a string or a number"
  end.

Definition json_float `{Numbers} (j : json) : res float :=
  match j with
  | JInt z => Ok (of_Z z)
  | JBool b => Ok (of_Z (if b then 1 else 0))
  | JFloat f => Ok f
  | JStr s => float_of_text s
  | _ => raise TypeError "float() argument must be a string or a number"
  end.

(** [int(x or 0)] *)
Definition json_int_or_0 `{Numbers} (j : json) : res Z :=
  if jtruthy j then json_int j else Ok 0%Z.
