(* ===== verification/Models.v ===== *)
(** * models.py: the data of the supervisor

    The enumerations, each in a module of its own with the Python member names,
    their wire values and the parser [X(value)], and the dataclasses that pass
    between the components.  Timestamps are binary64 floats, Python integers are
    [Z], a dictionary is [dict]. *)

From S2P Require Import Prelude PyFloat PyStr PyJson.

Open Scope string_scope.

Module SupervisorState.

Inductive t :=
  | QUEUED | STARTING | RUNNING | SUSPECT | RECONCILING | RECOVERING | BLOCKED
  | NEEDS_HUMAN | COMPLETED | ABANDONED.

#[global] Instance t_eq_dec : EqDecision t.
Proof. solve_decision. Defined.

Definition value (s : t) : string :=
  match s with
  | QUEUED => "QUEUED"
  | STARTING => "STARTING"
  | RUNNING => "RUNNING"
  | SUSPECT => "SUSPECT"
  | RECONCILING => "RECONCILING"
  | RECOVERING => "RECOVERING"
  | BLOCKED => "BLOCKED"
  | NEEDS_HUMAN => "NEEDS_HUMAN"
  | COMPLETED => "COMPLETED"
  | ABANDONED => "ABANDONED"
  end.

Definition all : list t :=
  [QUEUED; STARTING; RUNNING; SUSPECT; RECONCILING; RECOVERING; BLOCKED;
   NEEDS_HUMAN; COMPLETED; ABANDONED].

Definition of_value (v : string) : option t :=
  next_where (λ s, String.eqb (value s) v) all.

Lemma supervisor_state_of_value s : of_value (value s) = Some s.
Proof. by destruct s. Qed.

Lemma supervisor_state_value_inj s1 s2 : value s1 = value s2 → s1 = s2.
Proof. intros H. apply (inj Some). by rewrite <- !supervisor_state_of_value, H. Qed.

End SupervisorState.

Module WorkerStatus.

Inductive t := ACTIVE | PARKED | SUPERSEDED | DEAD.

#[global] Instance t_eq_dec : EqDecision t.
Proof. solve_decision. Defined.

Definition value (s : t) : string :=
  match s with
  | ACTIVE => "active"
  | PARKED => "parked"
  | SUPERSEDED => "superseded"
  | DEAD => "dead"
  end.

Definition of_value (v : string) : option t :=
  next_where (λ s, String.eqb (value s) v) [ACTIVE; PARKED; SUPERSEDED; DEAD].

Lemma worker_status_of_value s : of_value (value s) = Some s.
Proof. by destruct s. Qed.

End WorkerStatus.

Record TaskRecord := mkTaskRecord {
  tr_task_id : string;
  tr_project : string;
  tr_objective : string;
  tr_cwd : string;
  tr_state : SupervisorState.t;
  tr_lsm_session_id : option string;
  tr_checkpoint : dict;
  tr_current_worker_id : option string;
  tr_recovery_attempts : Z;
  tr_max_recovery_attempts : Z;
  tr_created_at : float;
  tr_updated_at : float;
}.

#[export] Instance eta_TaskRecord : Eta TaskRecord := λ r,
  mkTaskRecord (tr_task_id r) (tr_project r) (tr_objective r) (tr_cwd r) (tr_state r)
    (tr_lsm_session_id r) (tr_checkpoint r) (tr_current_worker_id r)
    (tr_recovery_attempts r) (tr_max_recovery_attempts r) (tr_created_at r)
    (tr_updated_at r).

Record WorkerRecord := mkWorkerRecord {
  wr_worker_id : string;
  wr_task_id : string;
  wr_conversation_url : string;
  wr_conversation_id : option string;
  wr_status : WorkerStatus.t;
  wr_started_at : float;
  wr_last_seen_at : option float;
  wr_ended_at : option float;
}.

#[export] Instance eta_WorkerRecord : Eta WorkerRecord := λ r,
  mkWorkerRecord (wr_worker_id r) (wr_task_id r) (wr_conversation_url r)
    (wr_conversation_id r) (wr_status r) (wr_started_at r) (wr_last_seen_at r)
    (wr_ended_at r).

Record WorkerWindowBinding := mkWorkerWindowBinding {
  wb_worker_id : string;
  wb_window_handle : Z;
  wb_browser_pid : Z;
  wb_chrome_executable : string;
  wb_conversation_url : string;
  wb_source : string;
  wb_bound_at : float;
  wb_observed_at : float;
  wb_expires_at : float;
}.

(** [WorkerWindowBinding.is_fresh]: the chained comparison
    [bound_at <= observed_at <= now < expires_at] and [expires_at >= observed_at]. *)
Definition window_is_fresh (b : WorkerWindowBinding) (now : float) : bool :=
  fle (wb_bound_at b) (wb_observed_at b) && fle (wb_observed_at b) now &&
  flt now (wb_expires_at b) && fle (wb_observed_at b) (wb_expires_at b).

Module PageCapabilityKind.

Inductive t := GENERATION | TOOL_EXECUTION.

#[global] Instance t_eq_dec : EqDecision t.
Proof. solve_decision. Defined.

Definition value (k : t) : string :=
  match k with
  | GENERATION => "page_close_generation"
  | TOOL_EXECUTION => "page_close_tool"
  end.

End PageCapabilityKind.

Record ProbeWindowSlotBinding := mkProbeWindowSlotBinding {
  ps_slot_id : string;
  ps_owner_token : string;
  ps_target_worker_id : string;
  ps_target_conversation_url : string;
  ps_actual_url : string;
  ps_window_handle : Z;
  ps_browser_pid : Z;
  ps_chrome_executable : string;
  ps_source : string;
  ps_bound_at : float;
  ps_observed_at : float;
  ps_expires_at : float;
}.

#[export] Instance eta_ProbeWindowSlotBinding : Eta ProbeWindowSlotBinding := λ r,
  mkProbeWindowSlotBinding (ps_slot_id r) (ps_owner_token r) (ps_target_worker_id r)
    (ps_target_conversation_url r) (ps_actual_url r) (ps_window_handle r)
    (ps_browser_pid r) (ps_chrome_executable r) (ps_source r) (ps_bound_at r)
    (ps_observed_at r) (ps_expires_at r).

#[export] Instance ProbeWindowSlotBinding_eq_dec : EqDecision ProbeWindowSlotBinding.
Proof. solve_decision. Defined.

Module ProbeMutationKind.

Inductive t := OPEN | ROTATE | CLOSE.

#[global] Instance t_eq_dec : EqDecision t.
Proof. solve_decision. Defined.

End ProbeMutationKind.

Module ProbeMutationState.

Inductive t :=
  | ARMED | CLOSE_SUBMITTED | READY_TO_OPEN | OPEN_SUBMITTED | RECONCILE_REQUIRED
  | COMPLETED | FAILED | CANCELLED.

#[global] Instance t_eq_dec : EqDecision t.
Proof. solve_decision. Defined.

Definition value (s : t) : string :=
  match s with
  | ARMED => "ARMED"
  | CLOSE_SUBMITTED => "CLOSE_SUBMITTED"
  | READY_TO_OPEN => "READY_TO_OPEN"
  | OPEN_SUBMITTED => "OPEN_SUBMITTED"
  | RECONCILE_REQUIRED => "RECONCILE_REQUIRED"
  | COMPLETED => "COMPLETED"
  | FAILED => "FAILED"
  | CANCELLED => "CANCELLED"
  end.

Definition of_value (v : string) : option t :=
  next_where (λ s, String.eqb (value s) v)
    [ARMED; CLOSE_SUBMITTED; READY_TO_OPEN; OPEN_SUBMITTED; RECONCILE_REQUIRED;
     COMPLETED; FAILED; CANCELLED].

Lemma probe_mutation_state_of_value s : of_value (value s) = Some s.
Proof. by destruct s. Qed.

End ProbeMutationState.

Record ProbeMutationOperation := mkProbeMutationOperation {
  po_operation_id : string;
  po_nonce : string;
  po_kind : ProbeMutationKind.t;
  po_state : ProbeMutationState.t;
  po_slot_id : string;
  po_target_task_id : string;
  po_target_worker_id : string;
  po_target_conversation_url : string;
  po_owner_token : string;
  po_expected_actual_url : string;
  po_expected_chrome_executable : string;
  po_source : string;
  po_prior_slot : option ProbeWindowSlotBinding;
  po_created_at : float;
  po_updated_at : float;
  po_slot_ttl_s : float;
  po_reconcile_attempts : Z;
  po_last_reconcile_at : option float;
  po_last_outcome : option string;
  po_last_error : option string;
  po_resume_state : option string;
}.

#[export] Instance eta_ProbeMutationOperation : Eta ProbeMutationOperation := λ r,
  mkProbeMutationOperation (po_operation_id r) (po_nonce r) (po_kind r) (po_state r)
    (po_slot_id r) (po_target_task_id r) (po_target_worker_id r)
    (po_target_conversation_url r) (po_owner_token r) (po_expected_actual_url r)
    (po_expected_chrome_executable r) (po_source r) (po_prior_slot r)
    (po_created_at r) (po_updated_at r) (po_slot_ttl_s r) (po_reconcile_attempts r)
    (po_last_reconcile_at r) (po_last_outcome r) (po_last_error r) (po_resume_state r).

Record BrowserObservation := mkBrowserObservation {
  bo_worker_id : string;
  bo_observed_at : float;
  bo_url : option string;
  bo_generating : option bool;
  bo_send_button_ready : option bool;
  bo_pending_tool_calls : option Z;
  bo_visible_error : option string;
  bo_last_dom_change_at : option float;
  bo_message_signature : option string;
  bo_raw : dict;
}.

Record NetworkObservation := mkNetworkObservation {
  no_worker_id : string;
  no_observed_at : float;
  no_source : string;
  no_sample_started_at : float;
  no_sample_ended_at : float;
  no_page_url : option string;
  no_event_count : Z;
  no_request_count : Z;
  no_response_count : Z;
  no_data_event_count : Z;
  no_encoded_data_bytes : Z;
  no_loading_finished : Z;
  no_loading_failed : Z;
  no_websocket_frames : Z;
  no_last_activity_at : option float;
  no_quiet_since_at : option float;
  no_inflight_requests : Z;
  no_raw : dict;
}.

Record LsmObservation := mkLsmObservation {
  lo_task_id : string;
  lo_observed_at : float;
  lo_session_id : option string;
  lo_session_status : option string;
  lo_active_run_id : option string;
  lo_plan_status : option string;
  lo_plan_last_agent_activity : option float;
  lo_continuation_due : option bool;
  lo_continuation_pending : option bool;
  lo_in_flight_calls : Z;
  lo_freshest_in_flight_heartbeat : option float;
  lo_active_jobs : Z;
  lo_failed_jobs : Z;
  lo_succeeded_jobs : Z;
  lo_recent_event_type : option string;
  lo_recent_event_at : option float;
  lo_completed_steps : option Z;
  lo_total_steps : option Z;
  lo_raw : dict;
}.

Record WorkspaceObservation := mkWorkspaceObservation {
  wo_task_id : string;
  wo_observed_at : float;
  wo_cwd : string;
  wo_cwd_exists : bool;
  wo_is_git_repo : option bool;
  wo_git_root : option string;
  wo_git_head : option string;
  wo_git_branch : option string;
  wo_git_dirty : option bool;
  wo_git_status_hash : option string;
  wo_git_status_entries : list string;
  wo_error : option string;
  wo_raw : dict;
}.

Record Assessment := mkAssessment {
  as_state : SupervisorState.t;
  as_reason : string;
  as_confidence : string;
  as_evidence : list string;
  as_requires_reconcile : bool;
  as_may_auto_continue : bool;
}.

Record ReconciliationRecord := mkReconciliationRecord {
  rc_reconcile_id : string;
  rc_task_id : string;
  rc_created_at : float;
  rc_state : string;
  rc_confidence : string;
  rc_reason : string;
  rc_requires_reconcile : bool;
  rc_current_worker_id : option string;
  rc_fence_token : string;
  rc_fence_version : Z;
  rc_evidence : list string;
  rc_snapshot : dict;
}.

Record RecoveryRecommendation := mkRecoveryRecommendation {
  rr_task_id : string;
  rr_action : string;
  rr_safe_to_dispatch : bool;
  rr_reason : string;
  rr_prompt : option string;
  rr_evidence : list string;
}.

(** ** Write-ahead records

    The durable attempts and operations that fence external side effects. *)

Definition slot_is_fresh (b : ProbeWindowSlotBinding) (now : float) : bool :=
  fle (ps_bound_at b) (ps_observed_at b) && fle (ps_observed_at b) now &&
  flt now (ps_expires_at b) && fle (ps_observed_at b) (ps_expires_at b).

Record ChildDispatchRecord := mkChildDispatchRecord {
  cd_dispatch_id : string;
  cd_parent_task_id : string;
  cd_child_task_id : string;
  cd_child_key : string;
  cd_prompt_text : string;
  cd_prompt_sha256 : string;
  cd_expected_branch : option string;
  cd_base_ref : option string;
  cd_web_project_url : option string;
  cd_created_at : float;
  cd_updated_at : float;
  cd_metadata : dict;
}.

Module ReplacementAttemptState.

Inductive t := ARMED | LSM_TAKEOVER_SUBMITTED | RECONCILE_REQUIRED | COMPLETED | FAILED.

#[global] Instance t_eq_dec : EqDecision t.
Proof. solve_decision. Defined.

Definition value (s : t) : string :=
  match s with
  | ARMED => "ARMED" | LSM_TAKEOVER_SUBMITTED => "LSM_TAKEOVER_SUBMITTED"
  | RECONCILE_REQUIRED => "RECONCILE_REQUIRED" | COMPLETED => "COMPLETED" | FAILED => "FAILED"
  end.

End ReplacementAttemptState.

Record ReplacementAttempt := mkReplacementAttempt {
  ra_attempt_id : string;
  ra_task_id : string;
  ra_candidate_worker_id : string;
  ra_state : ReplacementAttemptState.t;
  ra_expected_revision : Z;
  ra_previous_worker_id : option string;
  ra_previous_generation : Z;
  ra_lsm_session_id : string;
  ra_previous_active_run_id : option string;
  ra_workspace_git_head : option string;
  ra_workspace_status_hash : option string;
  ra_expected_branch : option string;
  ra_mode : string;
  ra_takeover_reason : string;
  ra_created_at : float;
  ra_updated_at : float;
  ra_new_active_run_id : option string;
  ra_last_error : option string;
  ra_metadata : dict;
}.

#[export] Instance eta_ReplacementAttempt : Eta ReplacementAttempt := λ r,
  mkReplacementAttempt (ra_attempt_id r) (ra_task_id r) (ra_candidate_worker_id r)
    (ra_state r) (ra_expected_revision r) (ra_previous_worker_id r)
    (ra_previous_generation r) (ra_lsm_session_id r) (ra_previous_active_run_id r)
    (ra_workspace_git_head r) (ra_workspace_status_hash r) (ra_expected_branch r)
    (ra_mode r) (ra_takeover_reason r) (ra_created_at r) (ra_updated_at r)
    (ra_new_active_run_id r) (ra_last_error r) (ra_metadata r).

Module ChildSpawnAttemptState.

Inductive t :=
  | ARMED | WINDOW_OPEN_SUBMITTED | WINDOW_BOUND | PROMPT_SUBMITTED
  | RECONCILE_REQUIRED | COMPLETED | FAILED.

#[global] Instance t_eq_dec : EqDecision t.
Proof. solve_decision. Defined.

Definition value (s : t) : string :=
  match s with
  | ARMED => "ARMED" | WINDOW_OPEN_SUBMITTED => "WINDOW_OPEN_SUBMITTED"
  | WINDOW_BOUND => "WINDOW_BOUND" | PROMPT_SUBMITTED => "PROMPT_SUBMITTED"
  | RECONCILE_REQUIRED => "RECONCILE_REQUIRED" | COMPLETED => "COMPLETED" | FAILED => "FAILED"
  end.

End ChildSpawnAttemptState.

Record ChildSpawnAttempt := mkChildSpawnAttempt {
  sa_attempt_id : string;
  sa_child_task_id : string;
  sa_state : ChildSpawnAttemptState.t;
  sa_owner_token : string;
  sa_project_url : string;
  sa_project_id : string;
  sa_tagged_project_url : string;
  sa_prompt_sha256 : string;
  sa_chrome_executable : string;
  sa_created_at : float;
  sa_updated_at : float;
  sa_window_handle : option Z;
  sa_browser_pid : option Z;
  sa_conversation_url : option string;
  sa_worker_id : option string;
  sa_last_error : option string;
  sa_metadata : dict;
}.

#[export] Instance eta_ChildSpawnAttempt : Eta ChildSpawnAttempt := λ r,
  mkChildSpawnAttempt (sa_attempt_id r) (sa_child_task_id r) (sa_state r)
    (sa_owner_token r) (sa_project_url r) (sa_project_id r) (sa_tagged_project_url r)
    (sa_prompt_sha256 r) (sa_chrome_executable r) (sa_created_at r) (sa_updated_at r)
    (sa_window_handle r) (sa_browser_pid r) (sa_conversation_url r) (sa_worker_id r)
    (sa_last_error r) (sa_metadata r).

Record PageCapabilityRecord := mkPageCapabilityRecord {
  pc_capability_id : string;
  pc_kind : PageCapabilityKind.t;
  pc_scope_host : string;
  pc_browser_family : string;
  pc_browser_major : Z;
  pc_platform : string;
  pc_surface : string;
  pc_isolation_mode : string;
  pc_evaluator_version : string;
  pc_evidence_digest : string;
  pc_source_experiment_id : string;
  pc_observed_at : float;
  pc_recorded_at : float;
  pc_expires_at : float;
  pc_metadata : dict;
}.

#[export] Instance eta_PageCapabilityRecord : Eta PageCapabilityRecord := λ r,
  mkPageCapabilityRecord (pc_capability_id r) (pc_kind r) (pc_scope_host r)
    (pc_browser_family r) (pc_browser_major r) (pc_platform r) (pc_surface r)
    (pc_isolation_mode r) (pc_evaluator_version r) (pc_evidence_digest r)
    (pc_source_experiment_id r) (pc_observed_at r) (pc_recorded_at r) (pc_expires_at r)
    (pc_metadata r).

Definition capability_is_fresh (c : PageCapabilityRecord) (now : float) : bool :=
  fle (pc_observed_at c) now && flt now (pc_expires_at c).

(** actions.py *)
Module ActionAttemptState.

Inductive t := ARMED | SUBMITTED | RECONCILE_REQUIRED | ACKNOWLEDGED | FAILED | CANCELLED.

#[global] Instance t_eq_dec : EqDecision t.
Proof. solve_decision. Defined.

Definition value (s : t) : string :=
  match s with
  | ARMED => "ARMED"
  | SUBMITTED => "SUBMITTED"
  | RECONCILE_REQUIRED => "RECONCILE_REQUIRED"
  | ACKNOWLEDGED => "ACKNOWLEDGED"
  | FAILED => "FAILED"
  | CANCELLED => "CANCELLED"
  end.

End ActionAttemptState.

Record ActionAttempt := mkActionAttempt {
  aa_attempt_id : string;
  aa_task_id : string;
  aa_worker_id : string;
  aa_action : string;
  aa_fence_token : string;
  aa_fence_version : Z;
  aa_prompt_hash : string;
  aa_nonce : string;
  aa_state : ActionAttemptState.t;
  aa_created_at : float;
  aa_updated_at : float;
  aa_pre_action_signature : option string;
  aa_transport_name : option string;
  aa_submitted_at : option float;
  aa_acknowledged_at : option float;
  aa_acknowledgement_kind : option string;
  aa_acknowledgement_hash : option string;
  aa_last_error : option string;
  aa_metadata : dict;
}.

#[export] Instance eta_ActionAttempt : Eta ActionAttempt := λ r,
  mkActionAttempt (aa_attempt_id r) (aa_task_id r) (aa_worker_id r) (aa_action r)
    (aa_fence_token r) (aa_fence_version r) (aa_prompt_hash r) (aa_nonce r) (aa_state r)
    (aa_created_at r) (aa_updated_at r) (aa_pre_action_signature r)
    (aa_transport_name r) (aa_submitted_at r) (aa_acknowledged_at r)
    (aa_acknowledgement_kind r) (aa_acknowledgement_hash r) (aa_last_error r)
    (aa_metadata r).
