(* ===== verification/ProjectUrl.v ===== *)
(** * The addresses of child_spawn.py

    A web project and a conversation of it are named by the addresses of their pages.  The
    readers here decide which page an address shows; they are what the child spawns and the
    chat dispatcher compare before they act on a window.  The properties [hostname],
    [username], [password] and [port] of a split address follow urllib.parse. *)

From Stdlib Require Import Ascii.
From S2P Require Import Prelude PyFloat PyStr PyUrl PyJson Models.

Open Scope string_scope.
Open Scope list_scope.

(** ** Splitting texts *)

(** [s.split(c)] *)
Fixpoint split_on (c : ascii) (s : string) : list string :=
  match s with
  | EmptyString => [""]
  | String a s' =>
      if Ascii.eqb c a then "" :: split_on c s'
      else match split_on c s' with
           | w :: ws => String a w :: ws
           | [] => [String a ""]
           end
  end.

(** [[segment for segment in path.split("/") if segment]] *)
Definition path_segments (path : string) : list string :=
  List.filter str_truthy (split_on "/"%char path).

(** [s.partition(c)]: the text before the first [c], and the text after it when [c] occurs. *)
Definition partition (c : ascii) (s : string) : string * option string := split_at (Ascii.eqb c) s.

(** [s.rpartition(c)]: the text before the last [c] when it occurs, and the text after it. *)
Fixpoint rpartition (c : ascii) (s : string) : option string * string :=
  match s with
  | EmptyString => (None, "")
  | String a s' =>
      match rpartition c s' with
      | (Some before, after) => (Some (String a before), after)
      | (None, after) => if Ascii.eqb c a then (Some "", s') else (None, s)
      end
  end.

Fixpoint str_forallb (p : ascii → bool) (s : string) : bool :=
  match s with
  | EmptyString => true
  | String a s' => p a && str_forallb p s'
  end.

Definition digit_char (a : ascii) : bool :=
  let n := nat_of_ascii a in Nat.leb 48 n && Nat.leb n 57.

(** [[0-9a-fA-F]] *)
Definition hex_char (a : ascii) : bool := id_char a && negb (Ascii.eqb a "-"%char).

(** [int(s)] of ASCII digits *)
Fixpoint decimal_from (acc : Z) (s : string) : Z :=
  match s with
  | EmptyString => acc
  | String a s' => decimal_from (10 * acc + (Z.of_nat (nat_of_ascii a) - 48))%Z s'
  end.

Definition line_feed : string := byte_str 10.

(** [s.replace("\r\n", "\n")] *)
Fixpoint unix_newlines (s : string) : string :=
  match s with
  | EmptyString => EmptyString
  | String a s' =>
      match s' with
      | String b _ =>
          if Ascii.eqb a (ascii_of_nat 13) && Ascii.eqb b (ascii_of_nat 10)
          then unix_newlines s' else String a (unix_newlines s')
      | EmptyString => s
      end
  end.

Section Urls.
Context {tables : UnicodeTables} {check : NetlocCheck}.

(** ** The parts of a network location *)

Definition hostinfo (u : SplitResult) : string * option string :=
  let info := (rpartition "@"%char (u_netloc u)).2 in
  let '(name, port) :=
    match partition "["%char info with
    | (_, Some bracketed) =>
        let '(name, rest) := partition "]"%char bracketed in
        (name, default "" (partition ":"%char (default "" rest)).2)
    | (_, None) =>
        let '(name, port) := partition ":"%char info in (name, default "" port)
    end in
  (name, if str_truthy port then Some port else None).

(** The zone of a scoped address keeps its case. *)
Definition hostname (u : SplitResult) : option string :=
  let name := (hostinfo u).1 in
  if negb (str_truthy name) then None
  else match partition "%"%char name with
       | (host, Some zone) => Some (lower host +:+ "%" +:+ zone)
       | (host, None) => Some (lower host)
       end.

Definition userinfo (u : SplitResult) : option string * option string :=
  match rpartition "@"%char (u_netloc u) with
  | (Some info, _) =>
      let '(name, password) := partition ":"%char info in (Some name, password)
  | (None, _) => (None, None)
  end.

Definition port (u : SplitResult) : res (option Z) :=
  match (hostinfo u).2 with
  | None => Ok None
  | Some text =>
      raise_if (negb (str_forallb digit_char text)) ValueError
        "Port could not be cast to integer value";;
      let n := decimal_from 0 text in
      raise_if (negb ((0 <=? n)%Z && (n <=? 65535)%Z)) ValueError "Port out of range 0-65535";;
      Ok (Some n)
  end.

(** [parsed.username or parsed.password or parsed.port] *)
Definition has_credentials_or_port (u : SplitResult) : res bool :=
  let '(username, password) := userinfo u in
  if opt_truthy username || opt_truthy password then Ok true
  else p ← port u; Ok match p with Some n => negb (n =? 0)%Z | None => false end.

(** ** Project and conversation addresses *)

(** [_PROJECT_TOKEN.fullmatch]; the result is the second group. *)
Definition project_token (segment : string) : option string :=
  rest ← drop_prefix "g-p-" segment;
  let id := String.substring 0 32 rest in
  let tail := String.substring 32 (String.length rest - 32) rest in
  if negb (Nat.eqb (String.length id) 32 && str_forallb hex_char id) then None
  else match tail with
       | EmptyString => Some id
       | String a slug =>
           if Ascii.eqb a "-"%char && str_truthy slug && negb (char_in slug "/"%char)
           then Some id else None
       end.

(** [_CONVERSATION_SEGMENT.fullmatch] *)
Definition conversation_segment (s : string) : bool :=
  Nat.leb 8 (String.length s) && str_forallb id_char s.

(** [parsed.scheme.lower() == "https" and parsed.hostname == "chatgpt.com"] *)
Definition on_chatgpt (u : SplitResult) : bool :=
  String.eqb (lower (u_scheme u)) "https" &&
  bool_decide (hostname u = Some "chatgpt.com").

Definition _project_parts (url : string) : res (string * bool) :=
  match urlsplit (strip url) with
  | Err _ => raise ValueError "invalid web project URL"
  | Ok parsed =>
      raise_if (negb (on_chatgpt parsed)) ValueError
        "web project URL must use https://chatgpt.com";;
      special ← has_credentials_or_port parsed;
      raise_if special ValueError
        "web project URL must not contain credentials or a custom port";;
      raise_if (str_truthy (u_query parsed) || str_truthy (u_fragment parsed)) ValueError
        "web project URL must not contain query parameters or a fragment";;
      let not_root := raise ValueError "web project URL must point to one project root" in
      let no_token :=
        raise ValueError "web project URL does not contain a supported g-p project id" in
      match path_segments (u_path parsed) with
      | [g; token] =>
          if negb (String.eqb g "g") then not_root
          else match project_token token with
               | None => no_token
               | Some id => Ok (lower id, false)
               end
      | [g; token; page] =>
          if negb (String.eqb g "g") then not_root
          else match project_token token with
               | None => no_token
               | Some id =>
                   raise_if (negb (String.eqb page "project")) ValueError
                     "web project URL must not point to an existing conversation";;
                   Ok (lower id, true)
               end
      | _ => not_root
      end
  end.

Definition web_project_id (url : string) : res string :=
  parts ← _project_parts url; Ok parts.1.

(** The project and the conversation of a path [/g/<token>/c/<conversation>]. *)
Definition conversation_route (u : SplitResult) : option (string * string) :=
  if negb (on_chatgpt u) then None
  else match path_segments (u_path u) with
       | [g; token; c; conversation] =>
           if negb (String.eqb g "g" && String.eqb c "c") then None
           else id ← project_token token;
                if conversation_segment conversation
                then Some (lower id, conversation) else None
       | _ => None
       end.

Definition web_conversation_project_id (url : string) : option string :=
  match urlsplit (strip url) with
  | Err _ => None
  | Ok parsed => fst <$> conversation_route parsed
  end.

Definition conversation_identity (url : string) : option (string * string) :=
  match urlsplit (strip url) with
  | Err _ => None
  | Ok parsed =>
      if str_truthy (u_query parsed) || str_truthy (u_fragment parsed) then None
      else (λ '(project, conversation), (project, lower conversation)) <$>
             conversation_route parsed
  end.

Definition conversation_url_matches (left right : string) : bool :=
  match conversation_identity left with
  | Some li => bool_decide (Some li = conversation_identity right)
  | None => false
  end.

(** [tuple(dict.fromkeys(xs))] *)
Fixpoint dedup (seen xs : list string) : list string :=
  match xs with
  | [] => []
  | x :: xs' =>
      if existsb (String.eqb x) seen then dedup seen xs' else x :: dedup (seen ++ [x]) xs'
  end.

Definition with_path (u : SplitResult) (path fragment : string) : string :=
  urlunsplit (mkSplitResult (u_scheme u) (u_netloc u) path "" fragment).

Definition conversation_url_candidates (url : string) : list string :=
  match conversation_identity url, urlsplit (strip url) with
  | Some (project_id, conversation_id), Ok parsed =>
      let token := nth 1 (path_segments (u_path parsed)) "" in
      dedup [] [with_path parsed ("/g/" +:+ token +:+ "/c/" +:+ conversation_id) "";
                with_path parsed ("/g/g-p-" +:+ project_id +:+ "/c/" +:+ conversation_id) ""]
  | _, _ => [strip url]
  end.

(** Only called for an attempt whose project address was accepted. *)
Definition _owned_project_url_candidates (attempt : ChildSpawnAttempt) : res (list string) :=
  parsed ← urlsplit (sa_project_url attempt);
  match path_segments (u_path parsed) with
  | _ :: token :: _ =>
      let own := "/g/" +:+ token in
      let bare := "/g/g-p-" +:+ sa_project_id attempt in
      Ok (dedup [] ((λ path, with_path parsed path ("lws-child=" +:+ sa_owner_token attempt)) <$>
            [own; own +:+ "/project"; bare; bare +:+ "/project"]))
  | _ => raise IndexError "list index out of range"
  end.

Definition _prompt_equivalent (observed : option string) (expected : string) : bool :=
  let left := unix_newlines (default "" observed) in
  let right := unix_newlines expected in
  String.eqb left right || String.eqb (left +:+ line_feed) right.

Definition web_route_project_id (url : string) : option string :=
  match urlsplit (strip url) with
  | Err _ => None
  | Ok parsed =>
      if negb (on_chatgpt parsed) then None
      else match path_segments (u_path parsed) with
           | g :: token :: _ =>
               if String.eqb g "g" then lower <$> project_token token else None
           | _ => None
           end
  end.

(** [[A-Za-z0-9_.:-]{8,160}] *)
Definition owner_char (a : ascii) : bool :=
  ascii_alpha a || digit_char a || char_in "_.:-" a.

Definition owner_token_valid (owner : string) : bool :=
  Nat.leb 8 (String.length owner) && Nat.leb (String.length owner) 160 &&
  str_forallb owner_char owner.

Definition tagged_project_url (project_url owner_token : string) : res string :=
  _ ← web_project_id project_url;
  let owner := strip owner_token in
  raise_if (negb (owner_token_valid owner)) ValueError "child-spawn owner token is invalid";;
  parsed ← urlsplit project_url;
  Ok (with_path parsed (u_path parsed) ("lws-child=" +:+ owner)).

(** The two fields of the attempt that are read: its owner token and its project. *)
Definition owned_root (url owner_token project_id : string) : bool :=
  match urlsplit (strip url) with
  | Err _ => false
  | Ok parsed =>
      if str_truthy (u_query parsed) ||
         negb (String.eqb (u_fragment parsed) ("lws-child=" +:+ owner_token)) then false
      else match web_project_id (with_path parsed (u_path parsed) "") with
           | Ok id => String.eqb id project_id
           | Err _ => false
           end
  end.

Definition owned_project_root_matches (url : string) (attempt : ChildSpawnAttempt) : bool :=
  owned_root url (sa_owner_token attempt) (sa_project_id attempt).

End Urls.

Section Examples.
Existing Instance AsciiTables.
Existing Instance any_netloc.

Definition demo_project : string :=
  "https://chatgpt.com/g/g-p-0123456789abcdef0123456789ABCDEF-demo".

Example project_examples :
  web_project_id demo_project = Ok "0123456789abcdef0123456789abcdef" ∧
  res_ok (web_project_id (demo_project +:+ "/project/")) = true ∧
  res_ok (web_project_id (demo_project +:+ "/c")) = false ∧
  res_ok (web_project_id "https://u@chatgpt.com/g/g-p-0123456789abcdef0123456789abcdef") = false ∧
  conversation_identity (demo_project +:+ "/c/0123ABCD") =
    Some ("0123456789abcdef0123456789abcdef", "0123abcd") ∧
  conversation_url_matches (demo_project +:+ "/c/0123ABCD")
    "https://chatgpt.com:443/g/g-p-0123456789abcdef0123456789abcdef/c/0123abcd/" = true ∧
  tagged_project_url demo_project " owner-01 " = Ok (demo_project +:+ "#lws-child=owner-01").
Proof. by vm_compute. Qed.

End Examples.
