(* ===== verification/BrowserPlan.v ===== *)
(** * The browser pool advice of orchestrator.py

    Every worker's page is classified from its task, its browser and its LSM session, and
    the plan counts, warns and orders the pages that could be parked.  The module only
    advises: [close_allowed] is the one output that permits a page to be closed. *)

From stdpp Require Import pretty.
From S2P Require Import Prelude PyFloat PyStr PyJson Models.

Open Scope string_scope.
Open Scope Z_scope.
Open Scope list_scope.

Module PageDisposition.
Inductive t := KEEP_ACTIVE | DO_NOT_CLOSE | PARK_CANDIDATE | NO_PAGE.
#[global] Instance t_eq_dec : EqDecision t.
Proof. solve_decision. Defined.
End PageDisposition.

Record BrowserPoolPolicy := mkBrowserPoolPolicy {
  bp_max_active_workers : Z;
  bp_max_probe_pages : Z;
  bp_min_available_bytes : Z;
  bp_high_memory_fraction : float;
  bp_page_close_experiment_passed : bool;
}.

Definition default_browser_pool_policy : BrowserPoolPolicy :=
  mkBrowserPoolPolicy 4 1 (1024 * 1024 * 1024) (of_dec 85 2) false.

Record WorkerPoolItem := mkWorkerPoolItem {
  wi_task_id : string;
  wi_worker_id : option string;
  wi_task_state : string;
  wi_worker_status : option string;
  wi_disposition : PageDisposition.t;
  wi_reason : string;
  wi_close_allowed : bool;
  wi_browser_pid : option Z;
  wi_observed_process_working_set_bytes : option Z;
  wi_lsm_in_flight_calls : Z;
  wi_lsm_active_jobs : Z;
  wi_lsm_continuation_pending : bool;
  wi_browser_generating : option bool;
}.

(** The observations of ram.py; the functions that read the machine are not modelled. *)
Record SystemMemoryObservation := mkSystemMemoryObservation {
  sm_observed_at : float;
  sm_total_bytes : Z;
  sm_available_bytes : Z;
  sm_used_bytes : Z;
  sm_used_fraction : float;
}.

Record BrowserMemoryObservation := mkBrowserMemoryObservation {
  bm_observed_at : float;
  bm_process_name : string;
  bm_process_count : Z;
  bm_total_working_set_bytes : Z;
  bm_largest_working_set_bytes : Z;
  bm_window_process_count : Z;
  bm_pids : list Z;
  bm_error : option string;
}.

Record BrowserPoolPlan := mkBrowserPoolPlan {
  bpp_observed_at : float;
  bpp_policy : BrowserPoolPolicy;
  bpp_memory_pressure : string;
  bpp_system_memory : option SystemMemoryObservation;
  bpp_browser_memory : option BrowserMemoryObservation;
  bpp_active_worker_count : Z;
  bpp_pinned_worker_count : Z;
  bpp_park_candidate_count : Z;
  bpp_items : list WorkerPoolItem;
  bpp_recommendations : list string;
  bpp_warnings : list string;
}.

Section Pool.
Context {numbers : Numbers}.

(** [int(raw[key])] under [except (TypeError, ValueError)]. *)
Definition raw_int (raw : dict) (key : string) : res (option Z) :=
  match dget key raw with
  | JNull => Ok None
  | j =>
      match json_int j with
      | Ok z => Ok (Some z)
      | Err e =>
          if bool_decide (exn_type e = TypeError) || bool_decide (exn_type e = ValueError)
          then Ok None else Err e
      end
  end.

Definition pending (lsm : LsmObservation) : bool := default false (lo_continuation_pending lsm).

Definition live_lsm (lsm : option LsmObservation) : bool :=
  match lsm with
  | Some l => (0 <? lo_in_flight_calls l) || (0 <? lo_active_jobs l) || pending l
  | None => false
  end.

Definition no_page_status (s : WorkerStatus.t) : bool :=
  match s with
  | WorkerStatus.PARKED | WorkerStatus.SUPERSEDED | WorkerStatus.DEAD => true
  | WorkerStatus.ACTIVE => false
  end.

Definition needs_observation (s : SupervisorState.t) : bool :=
  match s with
  | SupervisorState.STARTING | SupervisorState.RUNNING | SupervisorState.RECOVERING
  | SupervisorState.RECONCILING | SupervisorState.SUSPECT | SupervisorState.NEEDS_HUMAN => true
  | _ => false
  end.

Definition park_reason (s : SupervisorState.t) : string :=
  match s with
  | SupervisorState.COMPLETED => "task is durably complete"
  | SupervisorState.ABANDONED => "task is abandoned/cancelled"
  | SupervisorState.QUEUED => "task is queued with no live execution evidence"
  | SupervisorState.BLOCKED => "task is blocked with no live LSM work"
  | _ => "task has no live execution evidence"
  end.

(** The disposition, the reason and the permission, in the order of the early returns. *)
Definition page_verdict (task : TaskRecord) (worker : WorkerRecord) (generating : option bool)
    (lsm : option LsmObservation) (policy : BrowserPoolPolicy)
    : PageDisposition.t * string * bool :=
  if no_page_status (wr_status worker) then
    (PageDisposition.NO_PAGE,
     "worker status " +:+ WorkerStatus.value (wr_status worker) +:+ " is not an active page lease",
     false)
  else if live_lsm lsm then
    (PageDisposition.DO_NOT_CLOSE, "durable LSM work/continuation is active", false)
  else if bool_decide (generating = Some true) then
    (PageDisposition.DO_NOT_CLOSE, "browser reports active generation", false)
  else if needs_observation (tr_state task) then
    (PageDisposition.DO_NOT_CLOSE,
     "task state " +:+ SupervisorState.value (tr_state task) +:+
     " requires observation or may still be live", false)
  else
    (PageDisposition.PARK_CANDIDATE, park_reason (tr_state task),
     bp_page_close_experiment_passed policy).

Definition classify_worker_for_pool (task : TaskRecord) (worker : option WorkerRecord)
    (browser : option BrowserObservation) (lsm : option LsmObservation)
    (policy : BrowserPoolPolicy) : res WorkerPoolItem :=
  match worker with
  | None =>
      Ok (mkWorkerPoolItem (tr_task_id task) None (SupervisorState.value (tr_state task)) None
            PageDisposition.NO_PAGE "task has no registered conversation worker" false None None
            0 0 false None)
  | Some worker =>
      let generating := browser ≫= bo_generating in
      pid ← match browser with Some b => raw_int (bo_raw b) "browser_pid" | None => Ok None end;
      working_set ← match browser with
                    | Some b => raw_int (bo_raw b) "process_working_set_bytes"
                    | None => Ok None
                    end;
      let '(disposition, reason, close_allowed) :=
        page_verdict task worker generating lsm policy in
      Ok (mkWorkerPoolItem (tr_task_id task) (Some (wr_worker_id worker))
            (SupervisorState.value (tr_state task)) (Some (WorkerStatus.value (wr_status worker)))
            disposition reason close_allowed pid working_set
            (from_option lo_in_flight_calls 0 lsm) (from_option lo_active_jobs 0 lsm)
            (from_option pending false lsm) generating)
  end.

Definition pool_row : Type :=
  TaskRecord * option WorkerRecord * option BrowserObservation * option LsmObservation.

Definition classify_row (policy : BrowserPoolPolicy) (row : pool_row) : res WorkerPoolItem :=
  let '(task, worker, browser, lsm) := row in
  classify_worker_for_pool task worker browser lsm policy.

Definition has_disposition (d : PageDisposition.t) (i : WorkerPoolItem) : bool :=
  bool_decide (wi_disposition i = d).

Definition count (p : WorkerPoolItem → bool) (items : list WorkerPoolItem) : Z :=
  Z.of_nat (length (List.filter p items)).

(** ** The plan *)

Definition memory_is_high (policy : BrowserPoolPolicy) (m : SystemMemoryObservation) : bool :=
  fle (bp_high_memory_fraction policy) (sm_used_fraction m) ||
  (sm_available_bytes m <=? bp_min_available_bytes policy).

Definition memory_pressure (policy : BrowserPoolPolicy) (m : option SystemMemoryObservation)
    : string :=
  match m with
  | None => "unknown"
  | Some m => if memory_is_high policy m then "high" else "normal"
  end.

Definition say_if (b : bool) (msg : string) : list string := if b then [msg] else [].

Definition rank (task_state : string) : Z :=
  if String.eqb task_state (SupervisorState.value SupervisorState.COMPLETED) then 0
  else if String.eqb task_state (SupervisorState.value SupervisorState.ABANDONED) then 1
  else if String.eqb task_state (SupervisorState.value SupervisorState.QUEUED) then 2
  else if String.eqb task_state (SupervisorState.value SupervisorState.BLOCKED) then 3
  else 99.

(** The tuple order of the sort key: parkable, rank, task id. *)
Definition item_leb (x y : WorkerPoolItem) : bool :=
  let first i := if has_disposition PageDisposition.PARK_CANDIDATE i then 0 else 1 in
  if negb (first x =? first y) then first x <? first y
  else if negb (rank (wi_task_state x) =? rank (wi_task_state y))
  then rank (wi_task_state x) <? rank (wi_task_state y)
  else String.leb (wi_task_id x) (wi_task_id y).

Definition plan_browser_pool (rows : list pool_row)
    (system_memory : option SystemMemoryObservation)
    (browser_memory : option BrowserMemoryObservation) (policy : BrowserPoolPolicy)
    (observed_at : float) : res BrowserPoolPlan :=
  items ← mapM (classify_row policy) rows;
  let live := count (λ i, negb (has_disposition PageDisposition.NO_PAGE i)) items in
  let pinned := count (has_disposition PageDisposition.DO_NOT_CLOSE) items in
  let candidates := count (has_disposition PageDisposition.PARK_CANDIDATE) items in
  let pressure := memory_pressure policy system_memory in
  let high := String.eqb pressure "high" in
  let too_many := bp_max_active_workers policy <? live in
  let error := match browser_memory with Some b => default "" (bm_error b) | None => "" end in
  let recommendations :=
    say_if high "memory pressure is high; prioritize parking terminal/queued/blocked candidates" ++
    say_if too_many ("registered worker count " +:+ pretty live +:+
      " exceeds active-worker target " +:+ pretty (bp_max_active_workers policy)) ++
    say_if ((0 <? candidates) && negb (bp_page_close_experiment_passed policy))
      ("park candidates exist, but actual page-close dispatch is disabled until a dedicated " +:+
       "web chat close/reopen experiment proves it safe") in
  let warnings :=
    say_if (str_truthy error) ("browser memory probe: " +:+ error) ++
    say_if (bp_max_active_workers policy <? pinned)
      ("pinned live/ambiguous workers alone exceed the configured active-worker target; " +:+
       "do not close them automatically") ++
    say_if ((candidates =? 0) && high)
      ("memory pressure is high but no worker is conservatively parkable; preserve task safety " +:+
       "and surface the pressure rather than closing live pages") in
  Ok (mkBrowserPoolPlan observed_at policy pressure system_memory browser_memory live pinned
        candidates (py_sorted item_leb items) recommendations warnings).

(** ** Closing a page *)

(** A page may be closed: the experiment passed and nothing of the task can be live. *)
Record closable (row : pool_row) (policy : BrowserPoolPolicy) : Prop := {
  cl_experiment : bp_page_close_experiment_passed policy = true;
  cl_worker : ∃ w, row.1.1.2 = Some w ∧ wr_status w = WorkerStatus.ACTIVE;
  cl_state : tr_state row.1.1.1 ∈ [SupervisorState.COMPLETED; SupervisorState.ABANDONED;
    SupervisorState.QUEUED; SupervisorState.BLOCKED];
  cl_browser : ∀ b, row.1.2 = Some b → bo_generating b ≠ Some true;
  cl_lsm : ∀ l, row.2 = Some l → lo_in_flight_calls l ≤ 0 ∧ lo_active_jobs l ≤ 0 ∧
    lo_continuation_pending l ≠ Some true;
}.

Lemma live_lsm_false lsm :
  live_lsm lsm = false ↔ ∀ l, lsm = Some l →
    lo_in_flight_calls l ≤ 0 ∧ lo_active_jobs l ≤ 0 ∧ lo_continuation_pending l ≠ Some true.
Proof.
  destruct lsm as [l|]; cbn; [|split; [by intros _ l [=]|done]].
  rewrite !orb_false_iff, !Z.ltb_ge.
  assert (pending l = false ↔ lo_continuation_pending l ≠ Some true) as ->.
  { unfold pending. by destruct (lo_continuation_pending l) as [[]|]. }
  split; [by intros [[? ?] ?] l' [= <-]|]. intros H. destruct (H l eq_refl) as (? & ? & ?). done.
Qed.

Lemma verdict_close task worker generating lsm policy :
  (page_verdict task worker generating lsm policy).2 = true ↔
  bp_page_close_experiment_passed policy = true ∧ wr_status worker = WorkerStatus.ACTIVE ∧
  live_lsm lsm = false ∧ generating ≠ Some true ∧ needs_observation (tr_state task) = false.
Proof.
  unfold page_verdict. destruct (wr_status worker); cbn; [|naive_solver..].
  destruct (live_lsm lsm); cbn; [naive_solver|]. case_bool_decide; cbn; [naive_solver|].
  destruct (needs_observation _); cbn; naive_solver.
Qed.

Lemma classify_close policy row i :
  classify_row policy row = Ok i → wi_close_allowed i = true ↔ closable row policy.
Proof.
  destruct row as [[[task worker] browser] lsm]. cbn. destruct worker as [w|].
  2: { intros [= <-]. split; [done|]. intros C. destruct (cl_worker _ _ C) as (? & [=] & _). }
  intros (pid & _ & H)%bind_Ok_inv. apply bind_Ok_inv in H as (ws & _ & H).
  pose proof (verdict_close task w (browser ≫= bo_generating) lsm policy) as Hv.
  destruct (page_verdict _ _ _ _ _) as [[d why] c]. injection H as <-. cbn in *. rewrite Hv.
  rewrite live_lsm_false. split.
  - intros (He & Hs & Hl & Hg & Hn). constructor; cbn; [done|by eexists| |by intros b ->|done].
    destruct (tr_state task); try done; rewrite !elem_of_cons; naive_solver.
  - intros [He (w' & [= ->] & Hs) Hst Hb Hl]. cbn in *. split_and!; [done..| |].
    + destruct browser as [b|]; cbn; [by apply Hb|done].
    + rewrite !elem_of_cons in Hst.
      destruct Hst as [->|[->|[->|[->|Hst]]]]; try done. by apply not_elem_of_nil in Hst.
Qed.

Lemma items_of_rows policy rows items :
  mapM (classify_row policy) rows = Ok items → Forall2 (λ row i, classify_row policy row = Ok i) rows items.
Proof.
  revert items. induction rows as [|row rows IH]; intros items; cbn; [intros [= <-]; constructor|].
  intros (i & Hi & H)%bind_Ok_inv. apply bind_Ok_inv in H as (rest & Hrest & [= <-]).
  constructor; [done|by apply IH].
Qed.

Lemma item_leb_total x y : item_leb x y = true ∨ item_leb y x = true.
Proof.
  unfold item_leb. pose proof (String.leb_total (wi_task_id x) (wi_task_id y)) as Hid.
  generalize (rank (wi_task_state x)), (rank (wi_task_state y)). intros a b.
  destruct (has_disposition _ x), (has_disposition _ y); cbn; auto;
    (destruct (Z.eqb_spec a b) as [->|Hne]; cbn; [rewrite Z.eqb_refl; cbn; tauto|
     rewrite (proj2 (Z.eqb_neq b a)) by congruence; cbn; lia]).
Qed.

Lemma count_split items :
  count (λ i, negb (has_disposition PageDisposition.NO_PAGE i)) items =
  count (has_disposition PageDisposition.KEEP_ACTIVE) items +
  count (has_disposition PageDisposition.DO_NOT_CLOSE) items +
  count (has_disposition PageDisposition.PARK_CANDIDATE) items.
Proof.
  unfold count. rewrite <- !Nat2Z.inj_add. f_equal. unfold has_disposition.
  induction items as [|i items IH]; [done|]. cbn [List.filter].
  destruct (wi_disposition i); repeat (case_bool_decide; try done); cbn; lia.
Qed.

Lemma never_kept policy row i :
  classify_row policy row = Ok i → has_disposition PageDisposition.KEEP_ACTIVE i = false.
Proof.
  destruct row as [[[task worker] browser] lsm]. cbn. destruct worker as [w|]; [|by intros [= <-]].
  intros (pid & _ & H)%bind_Ok_inv. apply bind_Ok_inv in H as (ws & _ & H).
  assert ((page_verdict task w (browser ≫= bo_generating) lsm policy).1.1 ≠ PageDisposition.KEEP_ACTIVE) as Hv.
  { unfold page_verdict. by repeat case_match. }
  destruct (page_verdict _ _ _ _ _) as [[d why] c]. injection H as <-. unfold has_disposition.
  cbn in *. by apply bool_decide_eq_false_2.
Qed.

(** The plan permits closing only idle pages, and exactly the idle ones: every item is the
    classification of one row; an item may be closed exactly when the close experiment
    passed, its worker is active, its task is completed, abandoned, queued or blocked, and
    neither its browser nor its LSM session is at work; the items that can be parked come
    first, ranked; and the counts add up. *)
Theorem pool_plan_closes_idle_pages rows mem bmem policy now plan :
  plan_browser_pool rows mem bmem policy now = Ok plan →
  ∃ items, bpp_items plan ≡ₚ items ∧
    Forall2 (λ row i, classify_row policy row = Ok i ∧
      (wi_close_allowed i = true ↔ closable row policy)) rows items ∧
    Sorted (λ x y, item_leb x y = true) (bpp_items plan) ∧
    bpp_active_worker_count plan = bpp_pinned_worker_count plan + bpp_park_candidate_count plan.
Proof.
  intros (items & Hi & [= <-])%bind_Ok_inv. cbn. apply items_of_rows in Hi. exists items.
  split_and!.
  - apply py_sorted_perm.
  - eapply Forall2_impl; [exact Hi|]. intros row i H. split; [done|by apply classify_close].
  - apply py_sorted_Sorted, item_leb_total.
  - rewrite count_split. assert (count (has_disposition PageDisposition.KEEP_ACTIVE) items = 0) as ->; [|lia].
    unfold count. induction Hi as [|row i rows items Hr Hi IH]; [done|]. cbn.
    by rewrite (never_kept _ _ _ Hr).
Qed.
End Pool.

(** ** Witness: a completed task next to a running one *)

Definition pool_task (id : string) (st : SupervisorState.t) : TaskRecord :=
  mkTaskRecord id "p" "o" "/w" st None [] (Some ("w" +:+ id)) 0 3 (of_Z 1) (of_Z 1).

Definition pool_worker (id : string) : WorkerRecord :=
  mkWorkerRecord ("w" +:+ id) id "https://chat/c/1" None WorkerStatus.ACTIVE (of_Z 1) None
    None.

Definition pool_rows : list pool_row :=
  [(pool_task "t1" SupervisorState.RUNNING, Some (pool_worker "t1"), None, None);
   (pool_task "t2" SupervisorState.COMPLETED, Some (pool_worker "t2"), None, None)].

Definition closing_policy : BrowserPoolPolicy := mkBrowserPoolPolicy 4 1 0 (of_dec 85 2) true.

#[local] Instance pool_numbers : Numbers := {|
  int_of_text _ := raise ValueError "invalid literal for int()";
  int_of_float _ := raise ValueError "cannot convert float to integer";
  float_of_text _ := raise ValueError "could not convert string to float" |}.

Definition pool_plan : BrowserPoolPlan :=
  match plan_browser_pool pool_rows None None closing_policy (of_Z 9) with
  | Ok p => p
  | Err _ => mkBrowserPoolPlan (of_Z 0) closing_policy "" None None 0 0 0 [] [] []
  end.

Lemma pool_plan_closes_idle_pages_witness :
  (wi_task_id <$> bpp_items pool_plan) = ["t2"; "t1"] ∧
  (wi_close_allowed <$> bpp_items pool_plan) = [true; false] ∧
  bpp_active_worker_count pool_plan =
    bpp_pinned_worker_count pool_plan + bpp_park_candidate_count pool_plan.
Proof.
  destruct (pool_plan_closes_idle_pages pool_rows None None closing_policy (of_Z 9) pool_plan)
    as (items & _ & _ & _ & H).
  - vm_compute. reflexivity.
  - split; [vm_compute; reflexivity|]. split; [vm_compute; reflexivity|exact H].
Defined.
