(* ===== verification/WorkerProtocol.v ===== *)
(** * worker_protocol.py: the pure lease protocol of a durable task

    A durable task has at most one authoritative worker (a web conversation) at a
    time.  Every transition is a pure function from a snapshot to a decision; a
    revision number fences writers and a generation number fences workers.  The
    definitions follow the Python functions one by one, in the same order of
    tests; [now] is the value of the caller's clock. *)

From S2P Require Import Prelude PyFloat PyStr.

Open Scope string_scope.
Open Scope Z_scope.

Module WorkerLeaseStatus.

Inductive t := CANDIDATE | ACTIVE | SUPERSEDED | COMPLETED | ABANDONED.

#[global] Instance t_eq_dec : EqDecision t.
Proof. solve_decision. Defined.

Definition value (s : t) : string :=
  match s with
  | CANDIDATE => "candidate"
  | ACTIVE => "active"
  | SUPERSEDED => "superseded"
  | COMPLETED => "completed"
  | ABANDONED => "abandoned"
  end.

End WorkerLeaseStatus.

Module DurableTaskStatus.

Inductive t := OPEN | COMPLETED.

#[global] Instance t_eq_dec : EqDecision t.
Proof. solve_decision. Defined.

Definition value (s : t) : string :=
  match s with OPEN => "open" | COMPLETED => "completed" end.

End DurableTaskStatus.

Module DecisionCode.

Inductive t :=
  | REGISTERED | ALREADY_REGISTERED | CLAIMED | HEARTBEAT_RECORDED
  | HANDOFF_REQUESTED | TAKEOVER_GRANTED | WORKER_COMPLETED | WORKER_ABANDONED
  | TASK_COMPLETED | STALE_REVISION | TASK_CLOSED | UNKNOWN_WORKER | NOT_CANDIDATE
  | ACTIVE_WORKER_PRESENT | NO_ACTIVE_WORKER | FENCED_WORKER | STALE_GENERATION
  | LEASE_EXPIRED | CLOCK_ROLLBACK | INVALID_HANDOFF_TARGET | TAKEOVER_NOT_ELIGIBLE
  | ACTIVE_WORKER_MUST_END | COMPLETION_REF_REQUIRED.

#[global] Instance t_eq_dec : EqDecision t.
Proof. solve_decision. Defined.

End DecisionCode.

Module EventKind.

Inductive t :=
  | WORKER_REGISTERED | LEASE_CLAIMED | HEARTBEAT_ACCEPTED | HANDOFF_REQUESTED
  | WORKER_SUPERSEDED | LEASE_TAKEN_OVER | WORKER_COMPLETED | WORKER_ABANDONED
  | TASK_COMPLETED.

#[global] Instance t_eq_dec : EqDecision t.
Proof. solve_decision. Defined.

End EventKind.

Module TakeoverReason.

Inductive t :=
  | HANDOFF | LEASE_EXPIRED | ACTIVE_LEASE_FRESH | NO_ACTIVE_WORKER
  | UNKNOWN_CANDIDATE | NOT_CANDIDATE | TASK_CLOSED.

#[global] Instance t_eq_dec : EqDecision t.
Proof. solve_decision. Defined.

Definition value (r : t) : string :=
  match r with
  | HANDOFF => "handoff"
  | LEASE_EXPIRED => "lease_expired"
  | ACTIVE_LEASE_FRESH => "active_lease_fresh"
  | NO_ACTIVE_WORKER => "no_active_worker"
  | UNKNOWN_CANDIDATE => "unknown_candidate"
  | NOT_CANDIDATE => "not_candidate"
  | TASK_CLOSED => "task_closed"
  end.

End TakeoverReason.

(** ** Snapshots, events and decisions *)

Record TaskLineage := mkTaskLineage {
  tl_task_id : string;
  tl_parent_task_id : option string;
  tl_root_task_id : string;
  tl_child_key : option string;
}.

Record WorkerLease := mkWorkerLease {
  wl_worker_id : string;
  wl_task_id : string;
  wl_conversation_ref : option string;
  wl_status : WorkerLeaseStatus.t;
  wl_registered_at : float;
  wl_generation : option Z;
  wl_claimed_at : option float;
  wl_last_heartbeat_at : option float;
  wl_lease_expires_at : option float;
  wl_ended_at : option float;
  wl_superseded_by : option string;
}.

#[export] Instance eta_WorkerLease : Eta WorkerLease := λ r,
  mkWorkerLease (wl_worker_id r) (wl_task_id r) (wl_conversation_ref r) (wl_status r)
    (wl_registered_at r) (wl_generation r) (wl_claimed_at r) (wl_last_heartbeat_at r)
    (wl_lease_expires_at r) (wl_ended_at r) (wl_superseded_by r).

Record WorkerTaskState := mkWorkerTaskState {
  ws_lineage : TaskLineage;
  ws_revision : Z;
  ws_generation : Z;
  ws_task_status : DurableTaskStatus.t;
  ws_current_worker_id : option string;
  ws_handoff_target_worker_id : option string;
  ws_handoff_requested_at : option float;
  ws_workers : list WorkerLease;
  ws_completed_at : option float;
  ws_completion_ref : option string;
}.

#[export] Instance eta_WorkerTaskState : Eta WorkerTaskState := λ r,
  mkWorkerTaskState (ws_lineage r) (ws_revision r) (ws_generation r) (ws_task_status r)
    (ws_current_worker_id r) (ws_handoff_target_worker_id r)
    (ws_handoff_requested_at r) (ws_workers r) (ws_completed_at r)
    (ws_completion_ref r).

Definition ws_task_id (s : WorkerTaskState) : string := tl_task_id (ws_lineage s).

Record ProtocolEvent := mkProtocolEvent {
  pe_kind : EventKind.t;
  pe_task_id : string;
  pe_revision : Z;
  pe_at : float;
  pe_worker_id : option string;
  pe_generation : option Z;
  pe_related_worker_id : option string;
  pe_ref : option string;
}.

#[export] Instance eta_ProtocolEvent : Eta ProtocolEvent := λ r,
  mkProtocolEvent (pe_kind r) (pe_task_id r) (pe_revision r) (pe_at r) (pe_worker_id r)
    (pe_generation r) (pe_related_worker_id r) (pe_ref r).

Record ProtocolDecision := mkProtocolDecision {
  pd_accepted : bool;
  pd_code : DecisionCode.t;
  pd_expected_revision : Z;
  pd_state : WorkerTaskState;
  pd_events : list ProtocolEvent;
}.

(** The property [ProtocolDecision.mutated]. *)
Definition pd_mutated (d : ProtocolDecision) : bool :=
  pd_accepted d && (ws_revision (pd_state d) =? pd_expected_revision d + 1).

Record TakeoverEligibility := mkTakeoverEligibility {
  te_eligible : bool;
  te_reason : TakeoverReason.t;
  te_active_worker_id : option string;
  te_generation : Z;
}.

(** ** Reading a snapshot *)

Definition worker_by_id (s : WorkerTaskState) (worker_id : string) : option WorkerLease :=
  next_where (λ w, String.eqb (wl_worker_id w) worker_id) (ws_workers s).

Definition is_status (st : WorkerLeaseStatus.t) (w : WorkerLease) : bool :=
  bool_decide (wl_status w = st).

Definition task_open (s : WorkerTaskState) : bool :=
  bool_decide (ws_task_status s = DurableTaskStatus.OPEN).

Definition lease_is_fresh (s : WorkerTaskState) (worker_id : string) (now : float) : bool :=
  match worker_by_id s worker_id with
  | None => false
  | Some w =>
      task_open s &&
      bool_decide (ws_current_worker_id s = Some worker_id) &&
      is_status WorkerLeaseStatus.ACTIVE w &&
      bool_decide (wl_generation w = Some (ws_generation s)) &&
      match wl_lease_expires_at w with
      | Some e => flt now e
      | None => false
      end
  end.

(** ** [validate_state] *)

Definition validate_state (s : WorkerTaskState) : res unit :=
  raise_if ((ws_revision s <? 0) || (ws_generation s <? 0)) ProtocolInvariantError
    "revision and generation must be non-negative";;
  raise_if (bool_decide (tl_parent_task_id (ws_lineage s) = None) &&
            negb (String.eqb (tl_root_task_id (ws_lineage s)) (ws_task_id s)))
    ProtocolInvariantError "root task must name itself as root_task_id";;
  raise_if (negb (bool_decide (NoDup (wl_worker_id <$> ws_workers s))))
    ProtocolInvariantError "worker ids must be unique per durable task";;
  raise_if (existsb (λ w, negb (String.eqb (wl_task_id w) (ws_task_id s))) (ws_workers s))
    ProtocolInvariantError "every worker must be registered against this durable task";;
  (let active := List.filter (is_status WorkerLeaseStatus.ACTIVE) (ws_workers s) in
   match ws_current_worker_id s with
   | None =>
       raise_if (match active with [] => false | _ => true end) ProtocolInvariantError
         "active worker exists without current_worker_id"
   | Some cur =>
       match active with
       | [a] =>
           raise_if (negb (String.eqb (wl_worker_id a) cur)) ProtocolInvariantError
             "current_worker_id must identify exactly one active worker";;
           raise_if (negb (bool_decide (wl_generation a = Some (ws_generation s))) ||
                     (ws_generation s <=? 0)) ProtocolInvariantError
             "current worker must own the current positive generation";;
           raise_if (bool_decide (wl_lease_expires_at a = None)) ProtocolInvariantError
             "current worker requires a lease expiry"
       | _ => raise ProtocolInvariantError
                "current_worker_id must identify exactly one active worker"
       end
   end);;
  (match ws_handoff_target_worker_id s with
   | Some target_id =>
       raise_if (bool_decide (ws_current_worker_id s = None) ||
                 bool_decide (ws_handoff_requested_at s = None)) ProtocolInvariantError
         "handoff requires a current worker and request timestamp";;
       raise_if (match worker_by_id s target_id with
                 | Some w => negb (is_status WorkerLeaseStatus.CANDIDATE w)
                 | None => true
                 end) ProtocolInvariantError "handoff target must be a registered candidate"
   | None =>
       raise_if (negb (bool_decide (ws_handoff_requested_at s = None)))
         ProtocolInvariantError "handoff timestamp cannot exist without a target"
   end);;
  if bool_decide (ws_task_status s = DurableTaskStatus.COMPLETED) then
    raise_if (negb (bool_decide (ws_current_worker_id s = None))) ProtocolInvariantError
      "completed durable task cannot retain an active worker";;
    raise_if (bool_decide (ws_completed_at s = None) ||
              negb (opt_truthy (ws_completion_ref s))) ProtocolInvariantError
      "completed durable task requires completion metadata"
  else Ok tt.

(** ** Construction *)

Definition new_task_state (task_id : string) (parent_task_id root_task_id : option string)
    (child_key : option string) : res WorkerTaskState :=
  let task_id := strip task_id in
  raise_if (negb (str_truthy task_id)) ValueError "task_id must be non-empty";;
  lin ← match parent_task_id with
        | None =>
            raise_if (match root_task_id with
                      | None => false
                      | Some r => negb (String.eqb r task_id)
                      end) ValueError "a root task's root_task_id must equal task_id";;
            Ok (mkTaskLineage task_id None task_id child_key)
        | Some p =>
            let p := strip p in
            raise_if (negb (str_truthy p)) ValueError
              "parent_task_id must be non-empty when supplied";;
            raise_if (match root_task_id with
                      | None => true
                      | Some r => negb (str_truthy r) || negb (str_truthy (strip r))
                      end) ValueError "child tasks require an explicit root_task_id";;
            Ok (mkTaskLineage task_id (Some p) (strip (default "" root_task_id)) child_key)
        end;
  let state := mkWorkerTaskState lin 0 0 DurableTaskStatus.OPEN None None None [] None None in
  validate_state state;; Ok state.

(** ** Decision helpers *)

Definition _sorted_workers (ws : list WorkerLease) : list WorkerLease :=
  py_sorted (leb_key wl_worker_id) ws.

Definition _replace_worker (ws : list WorkerLease) (u : WorkerLease) : list WorkerLease :=
  _sorted_workers
    ((λ w, if String.eqb (wl_worker_id w) (wl_worker_id u) then u else w) <$> ws).

Definition _reject (s : WorkerTaskState) (c : DecisionCode.t) : ProtocolDecision :=
  mkProtocolDecision false c (ws_revision s) s [].

Definition _accept (previous candidate : WorkerTaskState) (c : DecisionCode.t)
    (events : list ProtocolEvent) : res ProtocolDecision :=
  let revision := ws_revision previous + 1 in
  let next_state := candidate <| ws_revision := revision |> in
  let stamped := (λ e, e <| pe_revision := revision |>) <$> events in
  validate_state next_state;;
  Ok (mkProtocolDecision true c (ws_revision previous) next_state stamped).

Definition _require_positive_lease (lease_seconds : float) : res unit :=
  raise_if (fle lease_seconds (of_Z 0)) ValueError "lease_seconds must be positive".

(** [_preflight] returns a rejection when the caller's revision is stale. *)
Definition _preflight (s : WorkerTaskState) (expected_revision : Z)
    : res (option ProtocolDecision) :=
  validate_state s;;
  Ok (if expected_revision =? ws_revision s then None
      else Some (mkProtocolDecision false DecisionCode.STALE_REVISION expected_revision s [])).

(** [if rejected: return rejected] *)
Definition preflight_then (s : WorkerTaskState) (expected_revision : Z)
    (k : res ProtocolDecision) : res ProtocolDecision :=
  rejected ← _preflight s expected_revision;
  match rejected with Some d => Ok d | None => k end.

(** The latest of [claimed_at] and [last_heartbeat_at], when one is recorded. *)
Definition lease_timeline (w : WorkerLease) : option float :=
  match wl_claimed_at w, wl_last_heartbeat_at w with
  | Some a, Some b => Some (fmax a b)
  | Some a, None => Some a
  | None, b => b
  end.

Definition _authority_rejection (s : WorkerTaskState) (worker_id : string)
    (generation : Z) (now : float) : option DecisionCode.t :=
  if negb (task_open s) then Some DecisionCode.TASK_CLOSED else
  match worker_by_id s worker_id with
  | None => Some DecisionCode.UNKNOWN_WORKER
  | Some w =>
      if negb (bool_decide (ws_current_worker_id s = Some worker_id)) ||
         negb (is_status WorkerLeaseStatus.ACTIVE w)
      then Some DecisionCode.FENCED_WORKER
      else if negb (generation =? ws_generation s) ||
              negb (bool_decide (wl_generation w = Some generation))
      then Some DecisionCode.STALE_GENERATION
      else if match lease_timeline w with Some t => flt now t | None => false end
      then Some DecisionCode.CLOCK_ROLLBACK
      else if negb (lease_is_fresh s worker_id now)
      then Some DecisionCode.LEASE_EXPIRED
      else None
  end.

Definition event (k : EventKind.t) (s : WorkerTaskState) (now : float)
    (worker_id : option string) (generation : option Z) (related : option string)
    (ref : option string) : ProtocolEvent :=
  mkProtocolEvent k (ws_task_id s) 0 now worker_id generation related ref.

(** [worker = worker_by_id(state, id); assert worker is not None] *)
Definition require_worker (s : WorkerTaskState) (worker_id : string) : res WorkerLease :=
  match worker_by_id s worker_id with
  | Some w => Ok w
  | None => raise AssertionError ""
  end.

(** ** Transitions *)

Definition takeover_eligibility (s : WorkerTaskState) (candidate_worker_id : string)
    (now : float) : res TakeoverEligibility :=
  validate_state s;;
  let mk b r := Ok (mkTakeoverEligibility b r (ws_current_worker_id s) (ws_generation s)) in
  if negb (task_open s) then mk false TakeoverReason.TASK_CLOSED else
  match worker_by_id s candidate_worker_id with
  | None => mk false TakeoverReason.UNKNOWN_CANDIDATE
  | Some c =>
      if negb (is_status WorkerLeaseStatus.CANDIDATE c)
      then mk false TakeoverReason.NOT_CANDIDATE else
      match ws_current_worker_id s with
      | None => mk false TakeoverReason.NO_ACTIVE_WORKER
      | Some cur =>
          if bool_decide (ws_handoff_target_worker_id s = Some candidate_worker_id)
          then mk true TakeoverReason.HANDOFF
          else if negb (lease_is_fresh s cur now)
          then mk true TakeoverReason.LEASE_EXPIRED
          else mk false TakeoverReason.ACTIVE_LEASE_FRESH
      end
  end.

Definition register_worker (s : WorkerTaskState) (worker_id : string)
    (conversation_ref : option string) (now : float) (expected_revision : Z)
    : res ProtocolDecision :=
  preflight_then s expected_revision (
    if negb (task_open s) then Ok (_reject s DecisionCode.TASK_CLOSED) else
    let worker_id := strip worker_id in
    raise_if (negb (str_truthy worker_id)) ValueError "worker_id must be non-empty";;
    match worker_by_id s worker_id with
    | Some _ =>
        Ok (mkProtocolDecision true DecisionCode.ALREADY_REGISTERED (ws_revision s) s [])
    | None =>
        let worker := mkWorkerLease worker_id (ws_task_id s) conversation_ref
                        WorkerLeaseStatus.CANDIDATE now None None None None None None in
        _accept s (s <| ws_workers := _sorted_workers (ws_workers s ++ [worker]) |>)
          DecisionCode.REGISTERED
          [event EventKind.WORKER_REGISTERED s now (Some worker_id) None None None]
    end).

(** The lease a claim or a takeover gives to a candidate. *)
Definition claimed_lease (w : WorkerLease) (generation : Z) (now lease_seconds : float)
    : WorkerLease :=
  w <| wl_status := WorkerLeaseStatus.ACTIVE |>
    <| wl_generation := Some generation |>
    <| wl_claimed_at := Some now |>
    <| wl_last_heartbeat_at := Some now |>
    <| wl_lease_expires_at := Some (fadd now lease_seconds) |>.

Definition claim_worker (s : WorkerTaskState) (worker_id : string)
    (now lease_seconds : float) (expected_revision : Z) : res ProtocolDecision :=
  _require_positive_lease lease_seconds;;
  preflight_then s expected_revision (
    if negb (task_open s) then Ok (_reject s DecisionCode.TASK_CLOSED) else
    match worker_by_id s worker_id with
    | None => Ok (_reject s DecisionCode.UNKNOWN_WORKER)
    | Some w =>
        if negb (is_status WorkerLeaseStatus.CANDIDATE w)
        then Ok (_reject s DecisionCode.NOT_CANDIDATE)
        else if negb (bool_decide (ws_current_worker_id s = None))
        then Ok (_reject s DecisionCode.ACTIVE_WORKER_PRESENT)
        else
          let generation := ws_generation s + 1 in
          let claimed := claimed_lease w generation now lease_seconds in
          _accept s
            (s <| ws_generation := generation |>
               <| ws_current_worker_id := Some worker_id |>
               <| ws_handoff_target_worker_id := None |>
               <| ws_handoff_requested_at := None |>
               <| ws_workers := _replace_worker (ws_workers s) claimed |>)
            DecisionCode.CLAIMED
            [event EventKind.LEASE_CLAIMED s now (Some worker_id) (Some generation) None None]
    end).

Definition heartbeat_worker (s : WorkerTaskState) (worker_id : string) (generation : Z)
    (now lease_seconds : float) (expected_revision : Z) : res ProtocolDecision :=
  _require_positive_lease lease_seconds;;
  preflight_then s expected_revision (
    match _authority_rejection s worker_id generation now with
    | Some c => Ok (_reject s c)
    | None =>
        w ← require_worker s worker_id;
        let updated := w <| wl_last_heartbeat_at := Some now |>
                         <| wl_lease_expires_at := Some (fadd now lease_seconds) |> in
        _accept s (s <| ws_workers := _replace_worker (ws_workers s) updated |>)
          DecisionCode.HEARTBEAT_RECORDED
          [event EventKind.HEARTBEAT_ACCEPTED s now (Some worker_id) (Some generation) None None]
    end).

Definition request_handoff (s : WorkerTaskState) (worker_id target_worker_id : string)
    (generation : Z) (now : float) (expected_revision : Z) : res ProtocolDecision :=
  preflight_then s expected_revision (
    match _authority_rejection s worker_id generation now with
    | Some c => Ok (_reject s c)
    | None =>
        if match worker_by_id s target_worker_id with
           | None => true
           | Some t => negb (is_status WorkerLeaseStatus.CANDIDATE t)
           end
        then Ok (_reject s DecisionCode.INVALID_HANDOFF_TARGET)
        else
          _accept s
            (s <| ws_handoff_target_worker_id := Some target_worker_id |>
               <| ws_handoff_requested_at := Some now |>)
            DecisionCode.HANDOFF_REQUESTED
            [event EventKind.HANDOFF_REQUESTED s now (Some worker_id) (Some generation)
               (Some target_worker_id) None]
    end).

(** The rejection code a refused takeover reports. *)
Definition takeover_rejection (r : TakeoverReason.t) : DecisionCode.t :=
  match r with
  | TakeoverReason.TASK_CLOSED => DecisionCode.TASK_CLOSED
  | TakeoverReason.UNKNOWN_CANDIDATE => DecisionCode.UNKNOWN_WORKER
  | TakeoverReason.NOT_CANDIDATE => DecisionCode.NOT_CANDIDATE
  | TakeoverReason.NO_ACTIVE_WORKER => DecisionCode.NO_ACTIVE_WORKER
  | _ => DecisionCode.TAKEOVER_NOT_ELIGIBLE
  end.

Definition takeover_worker (s : WorkerTaskState) (candidate_worker_id : string)
    (now lease_seconds : float) (expected_revision : Z) : res ProtocolDecision :=
  _require_positive_lease lease_seconds;;
  preflight_then s expected_revision (
    eligibility ← takeover_eligibility s candidate_worker_id now;
    if negb (te_eligible eligibility)
    then Ok (_reject s (takeover_rejection (te_reason eligibility)))
    else
      match ws_current_worker_id s with
      | None => raise AssertionError ""
      | Some old_worker_id =>
          old_worker ← require_worker s old_worker_id;
          candidate ← require_worker s candidate_worker_id;
          let generation := ws_generation s + 1 in
          let superseded :=
            old_worker <| wl_status := WorkerLeaseStatus.SUPERSEDED |>
                       <| wl_ended_at := Some now |>
                       <| wl_superseded_by := Some candidate_worker_id |> in
          let claimed := claimed_lease candidate generation now lease_seconds in
          let workers := _replace_worker (ws_workers s) superseded in
          let workers := _replace_worker workers claimed in
          _accept s
            (s <| ws_generation := generation |>
               <| ws_current_worker_id := Some candidate_worker_id |>
               <| ws_handoff_target_worker_id := None |>
               <| ws_handoff_requested_at := None |>
               <| ws_workers := workers |>)
            DecisionCode.TAKEOVER_GRANTED
            [event EventKind.WORKER_SUPERSEDED s now (Some old_worker_id)
               (wl_generation old_worker) (Some candidate_worker_id) None;
             event EventKind.LEASE_TAKEN_OVER s now (Some candidate_worker_id)
               (Some generation) (Some old_worker_id)
               (Some (TakeoverReason.value (te_reason eligibility)))]
      end).

(** A worker that ends at [now] with the terminal status [st]. *)
Definition ended_lease (w : WorkerLease) (st : WorkerLeaseStatus.t) (now : float)
    : WorkerLease :=
  w <| wl_status := st |> <| wl_ended_at := Some now |>
    <| wl_lease_expires_at := Some now |>.

(** The snapshot without an authoritative worker after [ended] left. *)
Definition without_current (s : WorkerTaskState) (ended : WorkerLease) : WorkerTaskState :=
  s <| ws_current_worker_id := None |>
    <| ws_handoff_target_worker_id := None |>
    <| ws_handoff_requested_at := None |>
    <| ws_workers := _replace_worker (ws_workers s) ended |>.

Definition complete_worker (s : WorkerTaskState) (worker_id : string) (generation : Z)
    (now : float) (expected_revision : Z) : res ProtocolDecision :=
  preflight_then s expected_revision (
    match _authority_rejection s worker_id generation now with
    | Some c => Ok (_reject s c)
    | None =>
        w ← require_worker s worker_id;
        _accept s (without_current s (ended_lease w WorkerLeaseStatus.COMPLETED now))
          DecisionCode.WORKER_COMPLETED
          [event EventKind.WORKER_COMPLETED s now (Some worker_id) (Some generation) None None]
    end).

Definition abandon_worker (s : WorkerTaskState) (worker_id : string) (generation : Z)
    (now : float) (expected_revision : Z) : res ProtocolDecision :=
  preflight_then s expected_revision (
    if negb (task_open s) then Ok (_reject s DecisionCode.TASK_CLOSED) else
    match worker_by_id s worker_id with
    | None => Ok (_reject s DecisionCode.UNKNOWN_WORKER)
    | Some w =>
        if negb (bool_decide (ws_current_worker_id s = Some worker_id)) ||
           negb (is_status WorkerLeaseStatus.ACTIVE w)
        then Ok (_reject s DecisionCode.FENCED_WORKER)
        else if negb (generation =? ws_generation s) ||
                negb (bool_decide (wl_generation w = Some generation))
        then Ok (_reject s DecisionCode.STALE_GENERATION)
        else
          _accept s (without_current s (ended_lease w WorkerLeaseStatus.ABANDONED now))
            DecisionCode.WORKER_ABANDONED
            [event EventKind.WORKER_ABANDONED s now (Some worker_id) (Some generation)
               None None]
    end).

Definition complete_task (s : WorkerTaskState) (completion_ref : string) (now : float)
    (expected_revision : Z) : res ProtocolDecision :=
  preflight_then s expected_revision (
    if negb (task_open s) then Ok (_reject s DecisionCode.TASK_CLOSED) else
    if negb (bool_decide (ws_current_worker_id s = None))
    then Ok (_reject s DecisionCode.ACTIVE_WORKER_MUST_END)
    else
      let completion_ref := strip completion_ref in
      if negb (str_truthy completion_ref)
      then Ok (_reject s DecisionCode.COMPLETION_REF_REQUIRED)
      else
        _accept s
          (s <| ws_task_status := DurableTaskStatus.COMPLETED |>
             <| ws_completed_at := Some now |>
             <| ws_completion_ref := Some completion_ref |>)
          DecisionCode.TASK_COMPLETED
          [event EventKind.TASK_COMPLETED s now None (Some (ws_generation s)) None
             (Some completion_ref)]).
