(* ===== verification/WorkerProtocolFacts.v ===== *)
(** * The state invariant of the lease protocol and the lemmas on snapshots

    [valid_state] is the declarative form of [validate_state]; the lemmas below
    describe the worker list as a finite map from worker ids, and how
    [_replace_worker] and [_sorted_workers] act on it. *)

From S2P Require Import Prelude PyFloat PyStr WorkerProtocol.

Open Scope string_scope.
Open Scope Z_scope.

(** ** The worker list as a finite map *)

Definition ids (ws : list WorkerLease) : list string := wl_worker_id <$> ws.

Lemma worker_by_id_Some s id w :
  worker_by_id s id = Some w → w ∈ ws_workers s ∧ wl_worker_id w = id.
Proof. intros [? ?%String.eqb_eq]%next_where_Some. done. Qed.

Lemma worker_by_id_None s id :
  worker_by_id s id = None ↔ id ∉ ids (ws_workers s).
Proof.
  unfold worker_by_id, ids. rewrite list_elem_of_fmap. split.
  - intros H (w & -> & Hw). pose proof (next_where_None _ _ H w Hw) as Hf.
    cbn in Hf. by rewrite String.eqb_refl in Hf.
  - intros H. apply next_where_None_intro. intros w Hw.
    apply String.eqb_neq. intros <-. apply H. eauto.
Qed.

Lemma NoDup_ids_inj ws w1 w2 :
  NoDup (ids ws) → w1 ∈ ws → w2 ∈ ws → wl_worker_id w1 = wl_worker_id w2 → w1 = w2.
Proof. apply NoDup_fmap_elem. Qed.

Lemma worker_by_id_elem s id w :
  NoDup (ids (ws_workers s)) →
  worker_by_id s id = Some w ↔ w ∈ ws_workers s ∧ wl_worker_id w = id.
Proof.
  intros Hnd. split; [apply worker_by_id_Some|]. intros [Hw <-].
  destruct (worker_by_id s (wl_worker_id w)) as [w'|] eqn:E.
  - apply worker_by_id_Some in E as [Hw' Heq]. f_equal. by eapply NoDup_ids_inj.
  - apply worker_by_id_None in E. destruct E. by apply list_elem_of_fmap_2.
Qed.

Lemma ids_sorted ws : ids (_sorted_workers ws) ≡ₚ ids ws.
Proof. unfold ids, _sorted_workers. by rewrite py_sorted_perm. Qed.

Lemma elem_of_sorted_workers w ws : w ∈ _sorted_workers ws ↔ w ∈ ws.
Proof. apply elem_of_py_sorted. Qed.

Lemma ids_replace ws u : ids (_replace_worker ws u) ≡ₚ ids ws.
Proof.
  unfold _replace_worker. rewrite ids_sorted. unfold ids. rewrite <- list_fmap_compose.
  apply reflexive_eq, list_fmap_ext. intros _ w _. cbn.
  by destruct (String.eqb_spec (wl_worker_id w) (wl_worker_id u)).
Qed.

Lemma elem_of_replace ws u w :
  w ∈ _replace_worker ws u ↔
  (w = u ∧ wl_worker_id u ∈ ids ws) ∨ (w ∈ ws ∧ wl_worker_id w ≠ wl_worker_id u).
Proof.
  unfold _replace_worker, ids. rewrite elem_of_sorted_workers, !list_elem_of_fmap. split.
  - intros (v & -> & Hv).
    destruct (String.eqb_spec (wl_worker_id v) (wl_worker_id u)) as [E|]; eauto.
  - intros [[-> (v & Hid & Hv)]|[Hw Hne]].
    + exists v. by rewrite Hid, String.eqb_refl.
    + exists w. by destruct (String.eqb_spec (wl_worker_id w) (wl_worker_id u)).
Qed.

Lemma elem_of_replace_registered ws u w :
  wl_worker_id u ∈ ids ws →
  w ∈ _replace_worker ws u ↔ w = u ∨ (w ∈ ws ∧ wl_worker_id w ≠ wl_worker_id u).
Proof. rewrite elem_of_replace. tauto. Qed.

(** ** The invariant *)

Record valid_state (s : WorkerTaskState) : Prop := {
  vs_revision : 0 ≤ ws_revision s;
  vs_generation : 0 ≤ ws_generation s;
  vs_root : tl_parent_task_id (ws_lineage s) = None →
            tl_root_task_id (ws_lineage s) = ws_task_id s;
  vs_nodup : NoDup (ids (ws_workers s));
  vs_task : ∀ w, w ∈ ws_workers s → wl_task_id w = ws_task_id s;
  vs_active : ∀ w, w ∈ ws_workers s → wl_status w = WorkerLeaseStatus.ACTIVE →
              ws_current_worker_id s = Some (wl_worker_id w);
  vs_current : ∀ id, ws_current_worker_id s = Some id →
    ∃ w, w ∈ ws_workers s ∧ wl_worker_id w = id ∧
         wl_status w = WorkerLeaseStatus.ACTIVE ∧
         wl_generation w = Some (ws_generation s) ∧ 0 < ws_generation s ∧
         is_Some (wl_lease_expires_at w);
  vs_handoff : ∀ t, ws_handoff_target_worker_id s = Some t →
    is_Some (ws_current_worker_id s) ∧ is_Some (ws_handoff_requested_at s) ∧
    ∃ w, w ∈ ws_workers s ∧ wl_worker_id w = t ∧
         wl_status w = WorkerLeaseStatus.CANDIDATE;
  vs_no_handoff : ws_handoff_target_worker_id s = None →
    ws_handoff_requested_at s = None;
  vs_completed : ws_task_status s = DurableTaskStatus.COMPLETED →
    ws_current_worker_id s = None ∧ is_Some (ws_completed_at s) ∧
    opt_truthy (ws_completion_ref s) = true;
}.

Lemma existsb_false {A} (f : A → bool) l :
  existsb f l = false ↔ ∀ x, x ∈ l → f x = false.
Proof.
  rewrite <- not_true_iff_false, List.existsb_exists. split.
  - intros H x Hx. apply not_true_iff_false. intros Hf. apply H.
    exists x. by rewrite <- list_elem_of_In.
  - intros H (x & Hx%list_elem_of_In & Hf). by rewrite H in Hf.
Qed.

(** The active workers of a list with distinct ids. *)
Definition actives (s : WorkerTaskState) : list WorkerLease :=
  List.filter (is_status WorkerLeaseStatus.ACTIVE) (ws_workers s).

Lemma elem_of_actives s w :
  w ∈ actives s ↔ w ∈ ws_workers s ∧ wl_status w = WorkerLeaseStatus.ACTIVE.
Proof. unfold actives, is_status. by rewrite elem_of_filterb, bool_decide_eq_true. Qed.

Lemma actives_singleton s a :
  NoDup (ids (ws_workers s)) → a ∈ actives s → (∀ w, w ∈ actives s → wl_worker_id w = wl_worker_id a) →
  actives s = [a].
Proof.
  intros Hnd Ha Hall.
  assert (NoDup (actives s)) as Hf.
  { apply NoDup_fmap_1 in Hnd. apply NoDup_ListNoDup, List.NoDup_filter.
    by apply NoDup_ListNoDup. }
  assert (∀ w, w ∈ actives s → w = a) as Heq.
  { intros w Hw. eapply NoDup_ids_inj; eauto; by eapply elem_of_actives. }
  destruct (actives s) as [|x [|y l]].
  - by apply not_elem_of_nil in Ha.
  - by rewrite (Heq x) by left.
  - apply NoDup_cons in Hf as [Hni _]. destruct Hni.
    rewrite (Heq x) by left. rewrite (Heq y) by (right; left). left.
Qed.

(** ** [validate_state] decides the invariant *)

Lemma validate_current_iff s :
  NoDup (ids (ws_workers s)) →
  (match ws_current_worker_id s with
   | None =>
       raise_if (match actives s with [] => false | _ => true end) ProtocolInvariantError
         "active worker exists without current_worker_id"
   | Some cur =>
       match actives s with
       | [a] =>
           raise_if (negb (String.eqb (wl_worker_id a) cur)) ProtocolInvariantError
             "current_worker_id must identify exactly one active worker";;
           raise_if (negb (bool_decide (wl_generation a = Some (ws_generation s))) ||
                     (ws_generation s <=? 0)) ProtocolInvariantError
             "current worker must own the current positive generation";;
           raise_if (bool_decide (wl_lease_expires_at a = None)) ProtocolInvariantError
             "current worker requires a lease expiry"
       | _ => raise ProtocolInvariantError
                "current_worker_id must identify exactly one active worker"
       end
   end) = Ok tt ↔
  (∀ w, w ∈ ws_workers s → wl_status w = WorkerLeaseStatus.ACTIVE →
        ws_current_worker_id s = Some (wl_worker_id w)) ∧
  (∀ id, ws_current_worker_id s = Some id →
    ∃ w, w ∈ ws_workers s ∧ wl_worker_id w = id ∧
         wl_status w = WorkerLeaseStatus.ACTIVE ∧
         wl_generation w = Some (ws_generation s) ∧ 0 < ws_generation s ∧
         is_Some (wl_lease_expires_at w)).
Proof.
  intros Hnd. destruct (ws_current_worker_id s) as [cur|] eqn:Ecur.
  - split.
    + destruct (actives s) as [|a [|]] eqn:Ea; try done. rewrite !raise_if_then, raise_if_Ok.
      intros (Hid & Hgen & Hexp). bool_to_prop. apply String.eqb_eq in Hid.
      assert (a ∈ ws_workers s ∧ wl_status a = WorkerLeaseStatus.ACTIVE) as [Ha Hst].
      { apply elem_of_actives. rewrite Ea. left. }
      split.
      * intros w Hw Hwa. assert (w ∈ actives s) as Hin by (by apply elem_of_actives).
        rewrite Ea in Hin. apply list_elem_of_singleton in Hin as ->. by rewrite Hid.
      * intros ? [= <-]. exists a. split_and!; try done.
        by apply not_eq_None_Some.
    + intros [Hall Hcur]. destruct (Hcur cur eq_refl) as (a & Ha & Hid & Hst & Hg & Hpos & He).
      assert (actives s = [a]) as ->.
      { apply actives_singleton; [done|by apply elem_of_actives|].
        intros w [Hw Hwa]%elem_of_actives. specialize (Hall w Hw Hwa). congruence. }
      rewrite !raise_if_then, raise_if_Ok, Hid, String.eqb_refl, Hg.
      rewrite bool_decide_true by done. split_and!; try done.
      * cbn. lia.
      * apply bool_decide_eq_false. by apply not_eq_None_Some.
  - rewrite raise_if_Ok. split.
    + destruct (actives s) as [|a l] eqn:Ea; [|done]. intros _. split; [|done].
      intros w Hw Hwa. assert (w ∈ actives s) as Hin by (by apply elem_of_actives).
      rewrite Ea in Hin. by apply not_elem_of_nil in Hin.
    + intros [Hall _]. destruct (actives s) as [|a l] eqn:Ea; [done|].
      assert (a ∈ actives s) as [Ha Hst]%elem_of_actives by (rewrite Ea; left).
      specialize (Hall a Ha Hst). done.
Qed.

Lemma validate_handoff_iff s :
  NoDup (ids (ws_workers s)) →
  (match ws_handoff_target_worker_id s with
   | Some target_id =>
       raise_if (bool_decide (ws_current_worker_id s = None) ||
                 bool_decide (ws_handoff_requested_at s = None)) ProtocolInvariantError
         "handoff requires a current worker and request timestamp";;
       raise_if (match worker_by_id s target_id with
                 | Some w => negb (is_status WorkerLeaseStatus.CANDIDATE w)
                 | None => true
                 end) ProtocolInvariantError "handoff target must be a registered candidate"
   | None =>
       raise_if (negb (bool_decide (ws_handoff_requested_at s = None)))
         ProtocolInvariantError "handoff timestamp cannot exist without a target"
   end) = Ok tt ↔
  (∀ t, ws_handoff_target_worker_id s = Some t →
    is_Some (ws_current_worker_id s) ∧ is_Some (ws_handoff_requested_at s) ∧
    ∃ w, w ∈ ws_workers s ∧ wl_worker_id w = t ∧
         wl_status w = WorkerLeaseStatus.CANDIDATE) ∧
  (ws_handoff_target_worker_id s = None → ws_handoff_requested_at s = None).
Proof.
  intros Hnd. destruct (ws_handoff_target_worker_id s) as [t|]; cycle 1.
  { rewrite raise_if_Ok, negb_false_iff, bool_decide_eq_true. naive_solver. }
  rewrite raise_if_then, raise_if_Ok, orb_false_iff, !bool_decide_eq_false,
    !not_eq_None_Some. unfold is_status.
  split.
  - intros [[? ?] Ht]. split; [|done]. intros ? [= <-]. split_and!; try done.
    destruct (worker_by_id s t) as [w|] eqn:E; [|done].
    apply worker_by_id_Some in E as [??]. bool_to_prop. eauto.
  - intros [H _]. destruct (H t eq_refl) as (? & ? & w & Hw & Hid & Hst).
    split; [done|]. rewrite (proj2 (worker_by_id_elem s t w Hnd)) by done.
    by rewrite Hst.
Qed.

Lemma validate_state_iff s : validate_state s = Ok tt ↔ valid_state s.
Proof.
  unfold validate_state. fold (actives s).
  rewrite !raise_if_then, !unit_bind_Ok, !orb_false_iff, andb_false_iff, negb_false_iff,
    bool_decide_eq_false, negb_false_iff, bool_decide_eq_true, existsb_false, !Z.ltb_ge,
    String.eqb_eq.
  split.
  - intros ((? & ?) & Hroot & Hnd & Htask & Hcur & Hho & Hcomp).
    apply validate_current_iff in Hcur as [? ?]; [|done].
    apply validate_handoff_iff in Hho as [? ?]; [|done].
    constructor; try done.
    + intros ?. destruct Hroot; done.
    + intros w Hw. specialize (Htask w Hw). bool_to_prop. by apply String.eqb_eq.
    + intros Hst. rewrite bool_decide_true in Hcomp by done.
      rewrite raise_if_then, raise_if_Ok, orb_false_iff, !negb_false_iff,
        bool_decide_eq_true, bool_decide_eq_false, not_eq_None_Some in Hcomp. naive_solver.
  - intros []. split_and!; try done.
    + destruct (tl_parent_task_id (ws_lineage s)); [by left|right; auto].
    + intros w Hw. apply negb_false_iff, String.eqb_eq. auto.
    + by apply validate_current_iff.
    + by apply validate_handoff_iff.
    + case_bool_decide as Hst; [|done].
      rewrite raise_if_then, raise_if_Ok, orb_false_iff, !negb_false_iff,
        bool_decide_eq_true, bool_decide_eq_false, not_eq_None_Some.
      destruct (vs_completed0 Hst) as (-> & ? & ->). done.
Qed.

Lemma validate_valid s : valid_state s → validate_state s = Ok tt.
Proof. apply validate_state_iff. Qed.

#[export] Hint Resolve validate_valid : lws.

Lemma validate_raises_only s : raises_only ProtocolInvariantError (validate_state s).
Proof.
  unfold validate_state.
  repeat (apply raises_only_bind; [|intros []]); auto with lws; case_match; auto with lws.
  all: repeat (case_match; auto 10 with lws).
Qed.

Lemma validate_invalid s :
  ¬ valid_state s → ∃ msg, validate_state s = Err (Exn ProtocolInvariantError msg).
Proof.
  rewrite <- validate_state_iff. intros H. pose proof (validate_raises_only s) as Hr.
  destruct (validate_state s) as [[]|[c msg]]; [done|].
  specialize (Hr _ eq_refl). cbn in Hr. subst. eauto.
Qed.

(** A lease that has expired does not become fresh again with the clock. *)
Lemma lease_fresh_antitone s id now later :
  fle now later = true → lease_is_fresh s id now = false →
  lease_is_fresh s id later = false.
Proof.
  unfold lease_is_fresh. intros Hle. destruct (worker_by_id s id) as [w|]; [|done].
  intros [?|H]%andb_false_iff; apply andb_false_iff; [by left|right].
  destruct (wl_lease_expires_at w) as [e|]; [|done].
  destruct (flt later e) eqn:E; [|done]. by rewrite (fle_flt_trans now later e) in H.
Qed.
