(* ===== verification/WorkerProtocolSteps.v ===== *)
(** * The transitions of the lease protocol as one step relation

    [request] names the eight transitions with their arguments, [handle] runs the
    Python function of each.  [step] is the relation of the transitions that
    change the snapshot; [handle_cases] shows that on a valid snapshot a request
    is rejected without effect, repeats a registration without effect, or takes
    one step.  The invariant is preserved by every step. *)

From S2P Require Import Prelude PyFloat PyStr WorkerProtocol WorkerProtocolFacts.

Open Scope string_scope.
Open Scope Z_scope.

Inductive request :=
  | Register (worker_id : string) (conversation_ref : option string) (now : float)
  | Claim (worker_id : string) (now lease_seconds : float)
  | Heartbeat (worker_id : string) (generation : Z) (now lease_seconds : float)
  | Handoff (worker_id target : string) (generation : Z) (now : float)
  | Takeover (candidate : string) (now lease_seconds : float)
  | CompleteWorker (worker_id : string) (generation : Z) (now : float)
  | AbandonWorker (worker_id : string) (generation : Z) (now : float)
  | CompleteTask (completion_ref : string) (now : float).

(** The transition functions behind the [protocol_*] methods of the registry;
    [e] is the revision the caller expects. *)
Definition handle (s : WorkerTaskState) (r : request) (e : Z) : res ProtocolDecision :=
  match r with
  | Register id ref now => register_worker s id ref now e
  | Claim id now ls => claim_worker s id now ls e
  | Heartbeat id g now ls => heartbeat_worker s id g now ls e
  | Handoff id t g now => request_handoff s id t g now e
  | Takeover c now ls => takeover_worker s c now ls e
  | CompleteWorker id g now => complete_worker s id g now e
  | AbandonWorker id g now => abandon_worker s id g now e
  | CompleteTask ref now => complete_task s ref now e
  end.

(** The arguments a transition does not refuse with [ValueError]. *)
Definition request_ok (s : WorkerTaskState) (r : request) (e : Z) : bool :=
  match r with
  | Register id _ _ =>
      negb (e =? ws_revision s) || negb (task_open s) || str_truthy (strip id)
  | Claim _ _ ls | Heartbeat _ _ _ ls | Takeover _ _ ls => negb (fle ls (of_Z 0))
  | _ => true
  end.

(** ** The step relation *)

Definition owned_by (s : WorkerTaskState) (w : WorkerLease) (generation : Z) : Prop :=
  task_open s = true ∧ worker_by_id s (wl_worker_id w) = Some w ∧
  ws_current_worker_id s = Some (wl_worker_id w) ∧
  wl_status w = WorkerLeaseStatus.ACTIVE ∧
  generation = ws_generation s ∧ wl_generation w = Some generation.

Definition authorised (s : WorkerTaskState) (w : WorkerLease) (generation : Z)
    (now : float) : Prop :=
  owned_by s w generation ∧ lease_is_fresh s (wl_worker_id w) now = true ∧
  (∀ t, lease_timeline w = Some t → flt now t = false).

Definition candidate (s : WorkerTaskState) (w : WorkerLease) : Prop :=
  worker_by_id s (wl_worker_id w) = Some w ∧ wl_status w = WorkerLeaseStatus.CANDIDATE.

(** Install [w] as the authoritative worker of the next generation. *)
Definition install (s : WorkerTaskState) (workers : list WorkerLease) (id : string)
    : WorkerTaskState :=
  s <| ws_generation := ws_generation s + 1 |>
    <| ws_current_worker_id := Some id |>
    <| ws_handoff_target_worker_id := None |>
    <| ws_handoff_requested_at := None |>
    <| ws_workers := workers |>.

Definition superseded_lease (w : WorkerLease) (now : float) (by_id : string) : WorkerLease :=
  w <| wl_status := WorkerLeaseStatus.SUPERSEDED |>
    <| wl_ended_at := Some now |>
    <| wl_superseded_by := Some by_id |>.

Definition new_candidate (s : WorkerTaskState) (id : string) (ref : option string)
    (now : float) : WorkerLease :=
  mkWorkerLease id (ws_task_id s) ref WorkerLeaseStatus.CANDIDATE now
    None None None None None None.

Inductive step (s : WorkerTaskState) :
    request → DecisionCode.t → WorkerTaskState → list ProtocolEvent → Prop :=
  | step_register id ref now :
      task_open s = true → strip id ≠ "" → worker_by_id s (strip id) = None →
      step s (Register id ref now) DecisionCode.REGISTERED
        (s <| ws_workers :=
             _sorted_workers (ws_workers s ++ [new_candidate s (strip id) ref now]) |>)
        [event EventKind.WORKER_REGISTERED s now (Some (strip id)) None None None]
  | step_claim w now ls :
      task_open s = true → candidate s w → ws_current_worker_id s = None →
      step s (Claim (wl_worker_id w) now ls) DecisionCode.CLAIMED
        (install s
           (_replace_worker (ws_workers s) (claimed_lease w (ws_generation s + 1) now ls))
           (wl_worker_id w))
        [event EventKind.LEASE_CLAIMED s now (Some (wl_worker_id w))
           (Some (ws_generation s + 1)) None None]
  | step_heartbeat w g now ls :
      authorised s w g now →
      step s (Heartbeat (wl_worker_id w) g now ls) DecisionCode.HEARTBEAT_RECORDED
        (s <| ws_workers := _replace_worker (ws_workers s)
                (w <| wl_last_heartbeat_at := Some now |>
                   <| wl_lease_expires_at := Some (fadd now ls) |>) |>)
        [event EventKind.HEARTBEAT_ACCEPTED s now (Some (wl_worker_id w)) (Some g) None None]
  | step_handoff w t g now :
      authorised s w g now → candidate s t →
      step s (Handoff (wl_worker_id w) (wl_worker_id t) g now) DecisionCode.HANDOFF_REQUESTED
        (s <| ws_handoff_target_worker_id := Some (wl_worker_id t) |>
           <| ws_handoff_requested_at := Some now |>)
        [event EventKind.HANDOFF_REQUESTED s now (Some (wl_worker_id w)) (Some g)
           (Some (wl_worker_id t)) None]
  | step_takeover old c now ls reason :
      task_open s = true → candidate s c →
      worker_by_id s (wl_worker_id old) = Some old →
      ws_current_worker_id s = Some (wl_worker_id old) →
      (reason = TakeoverReason.HANDOFF ∧
         ws_handoff_target_worker_id s = Some (wl_worker_id c) ∨
       reason = TakeoverReason.LEASE_EXPIRED ∧
         lease_is_fresh s (wl_worker_id old) now = false) →
      step s (Takeover (wl_worker_id c) now ls) DecisionCode.TAKEOVER_GRANTED
        (install s
           (_replace_worker
              (_replace_worker (ws_workers s) (superseded_lease old now (wl_worker_id c)))
              (claimed_lease c (ws_generation s + 1) now ls))
           (wl_worker_id c))
        [event EventKind.WORKER_SUPERSEDED s now (Some (wl_worker_id old))
           (wl_generation old) (Some (wl_worker_id c)) None;
         event EventKind.LEASE_TAKEN_OVER s now (Some (wl_worker_id c))
           (Some (ws_generation s + 1)) (Some (wl_worker_id old))
           (Some (TakeoverReason.value reason))]
  | step_complete_worker w g now :
      authorised s w g now →
      step s (CompleteWorker (wl_worker_id w) g now) DecisionCode.WORKER_COMPLETED
        (without_current s (ended_lease w WorkerLeaseStatus.COMPLETED now))
        [event EventKind.WORKER_COMPLETED s now (Some (wl_worker_id w)) (Some g) None None]
  | step_abandon_worker w g now :
      owned_by s w g →
      step s (AbandonWorker (wl_worker_id w) g now) DecisionCode.WORKER_ABANDONED
        (without_current s (ended_lease w WorkerLeaseStatus.ABANDONED now))
        [event EventKind.WORKER_ABANDONED s now (Some (wl_worker_id w)) (Some g) None None]
  | step_complete_task ref now :
      task_open s = true → ws_current_worker_id s = None → strip ref ≠ "" →
      step s (CompleteTask ref now) DecisionCode.TASK_COMPLETED
        (s <| ws_task_status := DurableTaskStatus.COMPLETED |>
           <| ws_completed_at := Some now |>
           <| ws_completion_ref := Some (strip ref) |>)
        [event EventKind.TASK_COMPLETED s now None (Some (ws_generation s)) None
           (Some (strip ref))].

(** Commit a step: the next revision on the state and on the events. *)
Definition commit (s s' : WorkerTaskState) : WorkerTaskState :=
  s' <| ws_revision := ws_revision s + 1 |>.

Definition stamp (s : WorkerTaskState) (es : list ProtocolEvent) : list ProtocolEvent :=
  (λ e, e <| pe_revision := ws_revision s + 1 |>) <$> es.

(** ** The invariant is preserved by every step *)

Lemma owned_elem s w g : owned_by s w g → w ∈ ws_workers s.
Proof. intros (_ & [? ?]%worker_by_id_Some & _). done. Qed.

Lemma candidate_elem s w : candidate s w → w ∈ ws_workers s.
Proof. intros [[? ?]%worker_by_id_Some _]. done. Qed.

Lemma elem_of_ids w ws : w ∈ ws → wl_worker_id w ∈ ids ws.
Proof. apply list_elem_of_fmap_2. Qed.

#[export] Hint Resolve owned_elem candidate_elem elem_of_ids : lws.

Section Preservation.
Context (s : WorkerTaskState) (V : valid_state s).

Lemma valid_register w :
  task_open s = true → wl_worker_id w ∉ ids (ws_workers s) →
  wl_task_id w = ws_task_id s → wl_status w = WorkerLeaseStatus.CANDIDATE →
  valid_state (commit s (s <| ws_workers := _sorted_workers (ws_workers s ++ [w]) |>)).
Proof.
  intros Hopen Hni Htask Hst. destruct V.
  assert (∀ v, v ∈ _sorted_workers (ws_workers s ++ [w]) ↔ v ∈ ws_workers s ∨ v = w) as Hin.
  { intros v. by rewrite elem_of_sorted_workers, elem_of_app, list_elem_of_singleton. }
  constructor; cbn; try done.
  - lia.
  - rewrite ids_sorted. unfold ids. rewrite fmap_app. apply NoDup_app.
    split_and!; [done| |by apply NoDup_singleton].
    intros x Hx ->%list_elem_of_singleton. done.
  - intros v [? | ->]%Hin; [by apply vs_task|done].
  - intros v [? | ->]%Hin; [by apply vs_active|congruence].
  - intros id (v & ? & ?)%vs_current. exists v. rewrite Hin. tauto.
  - intros t (? & ? & v & ? & ?)%vs_handoff. split_and!; try done.
    exists v. rewrite Hin. tauto.
Qed.

(** Updating the lease times of one worker keeps its identity and its role. *)
Lemma valid_update w u :
  w ∈ ws_workers s → wl_worker_id u = wl_worker_id w → wl_task_id u = wl_task_id w →
  wl_status u = wl_status w → wl_generation u = wl_generation w →
  is_Some (wl_lease_expires_at u) →
  valid_state (commit s (s <| ws_workers := _replace_worker (ws_workers s) u |>)).
Proof.
  intros Hw Hid Htask Hst Hgen Hexp. destruct V.
  assert (wl_worker_id u ∈ ids (ws_workers s)) as Hreg by (rewrite Hid; auto with lws).
  assert (∀ v, v ∈ _replace_worker (ws_workers s) u ↔
               v = u ∨ (v ∈ ws_workers s ∧ wl_worker_id v ≠ wl_worker_id u)) as Hin
    by (intros; by apply elem_of_replace_registered).
  assert (∀ v, v ∈ ws_workers s → wl_worker_id v = wl_worker_id u → v = w) as Huniq.
  { intros v Hv Heq. eapply NoDup_ids_inj; eauto; congruence. }
  constructor; cbn; try done.
  - lia.
  - by rewrite ids_replace.
  - intros v [-> | [? _]]%Hin; [rewrite Htask; auto|auto].
  - intros v [-> | [? _]]%Hin; [rewrite Hst, Hid; auto|auto].
  - intros id (v & Hv & Hvid & ? & ? & ? & ?)%vs_current.
    destruct (decide (wl_worker_id v = wl_worker_id u)) as [Heq|Hne].
    + apply Huniq in Heq as ->; [|done]. exists u. rewrite Hin. split_and!; try congruence; auto.
    + exists v. rewrite Hin. split_and!; auto.
  - intros t (? & ? & v & Hv & Hvid & ?)%vs_handoff. split_and!; try done.
    destruct (decide (wl_worker_id v = wl_worker_id u)) as [Heq|Hne].
    + apply Huniq in Heq as ->; [|done]. exists u. rewrite Hin. split_and!; try congruence; auto.
    + exists v. rewrite Hin. split_and!; auto.
Qed.

Lemma valid_handoff t now :
  candidate s t → is_Some (ws_current_worker_id s) →
  valid_state (commit s (s <| ws_handoff_target_worker_id := Some (wl_worker_id t) |>
                           <| ws_handoff_requested_at := Some now |>)).
Proof.
  intros [Ht Hst] Hcur. apply worker_by_id_Some in Ht as [Ht _]. destruct V.
  constructor; cbn; try done; [lia|].
  intros ? [= <-]. split_and!; eauto.
Qed.

(** The authoritative worker leaves. *)
Lemma valid_leaving w u :
  w ∈ ws_workers s → ws_current_worker_id s = Some (wl_worker_id w) → task_open s = true →
  wl_worker_id u = wl_worker_id w → wl_task_id u = ws_task_id s →
  wl_status u ≠ WorkerLeaseStatus.ACTIVE → valid_state (commit s (without_current s u)).
Proof.
  intros Hw Hcur Hopen Hid Htask Hst. destruct V.
  assert (∀ v, v ∈ _replace_worker (ws_workers s) u ↔
     v = u ∨ (v ∈ ws_workers s ∧ wl_worker_id v ≠ wl_worker_id w)) as Hin.
  { intros v. rewrite <- Hid. apply elem_of_replace_registered. rewrite Hid. auto with lws. }
  constructor; cbn; try done.
  - lia.
  - by rewrite ids_replace.
  - intros v [-> | [? _]]%Hin; cbn; auto.
  - intros v [-> | [Hv Hne]]%Hin Hact; [done|].
    specialize (vs_active v Hv Hact). congruence.
  - intros Hc. unfold task_open in Hopen. bool_to_prop. congruence.
Qed.

Lemma valid_without_current w st now :
  w ∈ ws_workers s → ws_current_worker_id s = Some (wl_worker_id w) →
  task_open s = true → st ≠ WorkerLeaseStatus.ACTIVE →
  valid_state (commit s (without_current s (ended_lease w st now))).
Proof.
  intros Hw Hcur Hopen Hst. apply (valid_leaving w); try done. cbn; by apply (vs_task s V).
Qed.

Lemma valid_complete_task now ref :
  ws_current_worker_id s = None → ref ≠ "" →
  valid_state (commit s (s <| ws_task_status := DurableTaskStatus.COMPLETED |>
                           <| ws_completed_at := Some now |>
                           <| ws_completion_ref := Some ref |>)).
Proof.
  intros Hcur Href. destruct V. constructor; cbn; try done; [lia|].
  intros _. split_and!; eauto. by apply str_truthy_true.
Qed.

Lemma valid_install workers c now ls :
  task_open s = true → candidate s c →
  NoDup (ids workers) → wl_worker_id c ∈ ids workers →
  (∀ v, v ∈ workers → wl_task_id v = ws_task_id s) →
  (∀ v, v ∈ workers → wl_status v ≠ WorkerLeaseStatus.ACTIVE) →
  valid_state (commit s
    (install s (_replace_worker workers (claimed_lease c (ws_generation s + 1) now ls))
       (wl_worker_id c))).
Proof.
  intros Hopen [Hc Hst] Hnd Hreg Htask Hact.
  apply worker_by_id_Some in Hc as [Hc _]. destruct V.
  pose (u := claimed_lease c (ws_generation s + 1) now ls). fold u.
  assert (∀ v, v ∈ _replace_worker workers u ↔
     v = u ∨ (v ∈ workers ∧ wl_worker_id v ≠ wl_worker_id c)) as Hin.
  { intros v. by apply (elem_of_replace_registered _ u). }
  constructor; cbn; try done.
  - lia.
  - lia.
  - by rewrite ids_replace.
  - intros v [-> | [? _]]%Hin; cbn; auto.
  - intros v [-> | [Hv _]]%Hin Ha; [done|]. by apply Hact in Hv.
  - intros ? [= <-]. exists u. rewrite Hin. split_and!; try done; [by left|lia].
  - intros Hcomp. unfold task_open in Hopen. bool_to_prop. congruence.
Qed.

Lemma no_active_when_unowned :
  ws_current_worker_id s = None →
  ∀ v, v ∈ ws_workers s → wl_status v ≠ WorkerLeaseStatus.ACTIVE.
Proof. intros Hcur v Hv Ha. apply (vs_active s V) in Hv; [congruence|done]. Qed.

End Preservation.

Theorem step_valid s r c s' es :
  valid_state s → step s r c s' es → valid_state (commit s s').
Proof.
  intros V Hs. destruct Hs.
  - apply valid_register; try done. cbn. by apply worker_by_id_None.
  - apply valid_install; try done; eauto with lws; try apply V.
    by apply no_active_when_unowned.
  - destruct H as [Ho _]. eapply valid_update; eauto with lws; cbn; done.
  - destruct H as [(_ & _ & Hcur & _) _]. apply valid_handoff; [done..|]. by rewrite Hcur.
  - apply worker_by_id_Some in H1 as [Hold _].
    assert (∀ v, v ∈ _replace_worker (ws_workers s)
                      (superseded_lease old now (wl_worker_id c)) ↔
       v = superseded_lease old now (wl_worker_id c) ∨
       (v ∈ ws_workers s ∧ wl_worker_id v ≠ wl_worker_id old)) as Hin.
    { intros v. apply (elem_of_replace_registered _ (superseded_lease _ _ _)).
      cbn. auto with lws. }
    apply valid_install; try done.
    + rewrite ids_replace. apply V.
    + rewrite ids_replace. eauto with lws.
    + intros v [-> | [? _]]%Hin; cbn; by apply V.
    + intros v [-> | [Hv Hne]]%Hin; [done|]. intros Ha.
      apply (vs_active s V) in Hv; [congruence|done].
  - destruct H as [Ho _]. pose proof (owned_elem _ _ _ Ho). destruct Ho as (? & ? & ? & _).
    by apply valid_without_current.
  - pose proof (owned_elem _ _ _ H). destruct H as (? & ? & ? & _).
    by apply valid_without_current.
  - by apply valid_complete_task.
Qed.

(** ** Every request on a valid snapshot *)

(** The three outcomes: a rejection without effect, a repeated registration
    without effect, or one committed step. *)
Definition handled (s : WorkerTaskState) (r : request) (e : Z) (d : ProtocolDecision)
    : Prop :=
  (∃ c, d = mkProtocolDecision false c e s [] ∧
        (c = DecisionCode.STALE_REVISION ↔ e ≠ ws_revision s)) ∨
  (e = ws_revision s ∧
   d = mkProtocolDecision true DecisionCode.ALREADY_REGISTERED e s [] ∧
   ∃ id ref now, r = Register id ref now ∧ is_Some (worker_by_id s (strip id))) ∨
  (e = ws_revision s ∧ ∃ c s' es, step s r c s' es ∧
     d = mkProtocolDecision true c e (commit s s') (stamp s es)).

Lemma accept_step s r c s' es :
  valid_state s → step s r c s' es →
  _accept s s' c es =
    Ok (mkProtocolDecision true c (ws_revision s) (commit s s') (stamp s es)).
Proof.
  intros V Hs. unfold _accept. cbv zeta.
  pose proof (validate_valid _ (step_valid _ _ _ _ _ V Hs)) as Hv.
  unfold commit in Hv. by rewrite Hv.
Qed.

Lemma worker_by_id_key s id w :
  worker_by_id s id = Some w → id = wl_worker_id w ∧ worker_by_id s (wl_worker_id w) = Some w.
Proof. intros H. pose proof (worker_by_id_Some _ _ _ H) as [_ <-]. done. Qed.

Lemma authority_granted s id g now :
  _authority_rejection s id g now = None →
  ∃ w, id = wl_worker_id w ∧ authorised s w g now.
Proof.
  unfold _authority_rejection. intros H.
  destruct (task_open s) eqn:Hopen; [|done].
  destruct (worker_by_id s id) as [w|] eqn:Hw; [|done]. cbn [negb] in H.
  case_test in H as E1; [done|]. case_test in H as E2; [done|].
  case_test in H as E3; [done|].
  destruct (lease_is_fresh s id now) eqn:E4; [|done].
  unfold is_status in *. bool_to_prop. subst g.
  apply worker_by_id_key in Hw as [-> Hw]. exists w.
  unfold authorised, owned_by. split_and!; try done.
  intros t Ht. by rewrite Ht in E3.
Qed.

(** A granted authority is the negation of every rejection. *)
Lemma authorised_granted s w g now :
  authorised s w g now → _authority_rejection s (wl_worker_id w) g now = None.
Proof.
  intros ((Hopen & Hw & Hcur & Hst & -> & Hg) & Hfresh & Ht).
  unfold _authority_rejection, is_status. rewrite Hopen, Hw, Hcur, Hst, Hg, Hfresh, Z.eqb_refl.
  rewrite !bool_decide_true by done. cbn.
  destruct (lease_timeline w) eqn:E; [|done]. by rewrite Ht.
Qed.

Section Handled.
Context (s : WorkerTaskState) (V : valid_state s).

Lemma preflight_valid e k :
  preflight_then s e k =
  if e =? ws_revision s then k
  else Ok (mkProtocolDecision false DecisionCode.STALE_REVISION e s []).
Proof.
  unfold preflight_then, _preflight. rewrite (validate_valid _ V). cbn.
  by destruct (e =? ws_revision s).
Qed.

Lemma handled_stale r e :
  e ≠ ws_revision s →
  handled s r e (mkProtocolDecision false DecisionCode.STALE_REVISION e s []).
Proof. intros H. left. by eexists. Qed.

Lemma handled_reject r c :
  c ≠ DecisionCode.STALE_REVISION → handled s r (ws_revision s) (_reject s c).
Proof. intros H. left. exists c. split; [done|]. split; congruence. Qed.

Lemma authority_not_stale id g now c :
  _authority_rejection s id g now = Some c → c ≠ DecisionCode.STALE_REVISION.
Proof. unfold _authority_rejection. intros H ->. split_matches_in H. Qed.

Lemma handled_accept r c s' es :
  step s r c s' es →
  ∃ d, _accept s s' c es = Ok d ∧ handled s r (ws_revision s) d.
Proof.
  intros Hs. rewrite (accept_step _ _ _ _ _ V Hs). eexists. split; [done|].
  right. right. eauto 10.
Qed.

(** [done] for a rejection, [step] for an accepted transition. *)
Definition answers (r : request) (e : Z) (m : res ProtocolDecision) : Prop :=
  ∃ d, m = Ok d ∧ handled s r e d.

Lemma answers_preflight r e k :
  (e = ws_revision s → answers r e k) → answers r e (preflight_then s e k).
Proof using V.
  intros H. rewrite preflight_valid. destruct (Z.eqb_spec e (ws_revision s)); [auto|].
  eexists. split; [done|]. by apply handled_stale.
Qed.

Lemma answers_reject r c :
  c ≠ DecisionCode.STALE_REVISION → answers r (ws_revision s) (Ok (_reject s c)).
Proof. intros H. eexists. split; [done|]. by apply handled_reject. Qed.

Lemma answers_authority r id g now k :
  (∀ w, id = wl_worker_id w → authorised s w g now → answers r (ws_revision s) k) →
  answers r (ws_revision s)
    (match _authority_rejection s id g now with Some c => Ok (_reject s c) | None => k end).
Proof.
  intros H. destruct (_authority_rejection s id g now) as [c|] eqn:E.
  - apply answers_reject. by eapply authority_not_stale.
  - apply authority_granted in E as (w & Hid & Ha). eauto.
Qed.

Lemma authorised_require w g now :
  authorised s w g now → require_worker s (wl_worker_id w) = Ok w.
Proof. intros ((_ & Hw & _) & _). unfold require_worker. by rewrite Hw. Qed.

Lemma positive_lease_then ls k :
  fle ls (of_Z 0) = false → (_require_positive_lease ls;; k) = k :> res ProtocolDecision.
Proof. unfold _require_positive_lease. by intros ->. Qed.

Lemma positive_lease_refused ls (k : res ProtocolDecision) :
  fle ls (of_Z 0) = true →
  (_require_positive_lease ls;; k) =
    Err (Exn ValueError "lease_seconds must be positive").
Proof. unfold _require_positive_lease. by intros ->. Qed.

Lemma answers_register id ref now e :
  request_ok s (Register id ref now) e = true →
  answers (Register id ref now) e (register_worker s id ref now e).
Proof using V.
  cbn. intros Hok. apply answers_preflight. intros ->. rewrite Z.eqb_refl in Hok.
  destruct (task_open s) eqn:Hopen; cbn in *; [|by apply answers_reject].
  rewrite Hok. cbn. destruct (worker_by_id s (strip id)) as [w|] eqn:Hw.
  - eexists. split; [done|]. right. left. eauto 10.
  - apply handled_accept. apply step_register; [done| |done].
    by apply str_truthy_true.
Qed.

Lemma answers_claim id now ls e :
  fle ls (of_Z 0) = false → answers (Claim id now ls) e (claim_worker s id now ls e).
Proof using V.
  intros Hls. unfold claim_worker. rewrite positive_lease_then by done.
  apply answers_preflight. intros ->.
  destruct (task_open s) eqn:Hopen; cbn [negb]; [|by apply answers_reject].
  destruct (worker_by_id s id) as [w|] eqn:Hw; [|by apply answers_reject].
  destruct (is_status WorkerLeaseStatus.CANDIDATE w) eqn:Hst; cbn [negb];
    [|by apply answers_reject].
  case_bool_decide as Hcur; cbn [negb]; [|by apply answers_reject].
  apply worker_by_id_key in Hw as [-> Hw]. unfold is_status in Hst. bool_to_prop.
  apply handled_accept. by apply step_claim.
Qed.

Lemma answers_heartbeat id g now ls e :
  fle ls (of_Z 0) = false →
  answers (Heartbeat id g now ls) e (heartbeat_worker s id g now ls e).
Proof using V.
  intros Hls. unfold heartbeat_worker. rewrite positive_lease_then by done.
  apply answers_preflight. intros ->. apply answers_authority. intros w -> Ha.
  rewrite (authorised_require _ _ _ Ha).
  apply handled_accept. by apply step_heartbeat.
Qed.

Lemma answers_handoff id t g now e :
  answers (Handoff id t g now) e (request_handoff s id t g now e).
Proof using V.
  apply answers_preflight. intros ->. apply answers_authority. intros w -> Ha.
  destruct (worker_by_id s t) as [v|] eqn:Hv; [|by apply answers_reject].
  destruct (is_status WorkerLeaseStatus.CANDIDATE v) eqn:Hst; cbn [negb];
    [|by apply answers_reject].
  apply worker_by_id_key in Hv as [-> Hv]. unfold is_status in Hst. bool_to_prop.
  apply handled_accept. by apply step_handoff.
Qed.

Lemma answers_complete_worker id g now e :
  answers (CompleteWorker id g now) e (complete_worker s id g now e).
Proof using V.
  apply answers_preflight. intros ->. apply answers_authority. intros w -> Ha.
  rewrite (authorised_require _ _ _ Ha).
  apply handled_accept. by apply step_complete_worker.
Qed.

Lemma answers_abandon_worker id g now e :
  answers (AbandonWorker id g now) e (abandon_worker s id g now e).
Proof using V.
  apply answers_preflight. intros ->.
  destruct (task_open s) eqn:Hopen; cbn [negb]; [|by apply answers_reject].
  destruct (worker_by_id s id) as [w|] eqn:Hw; [|by apply answers_reject].
  destruct (_ || negb (is_status _ _)) eqn:E1; [by apply answers_reject|].
  destruct (_ || negb (bool_decide (wl_generation _ = _))) eqn:E2;
    [by apply answers_reject|].
  apply worker_by_id_key in Hw as [-> Hw]. unfold is_status in E1. bool_to_prop.
  apply handled_accept. apply step_abandon_worker. by split_and!.
Qed.

Lemma answers_complete_task ref now e :
  answers (CompleteTask ref now) e (complete_task s ref now e).
Proof using V.
  apply answers_preflight. intros ->.
  destruct (task_open s) eqn:Hopen; cbn [negb]; [|by apply answers_reject].
  case_bool_decide as Hcur; cbn [negb]; [|by apply answers_reject].
  destruct (str_truthy (strip ref)) eqn:Href; cbn [negb]; [|by apply answers_reject].
  apply handled_accept. apply step_complete_task; [done..|].
  by apply str_truthy_true.
Qed.

(** *** Takeover *)

(** What an eligible takeover has established. *)
Lemma takeover_eligible c now el :
  takeover_eligibility s c now = Ok el → te_eligible el = true →
  ∃ w old, c = wl_worker_id w ∧ task_open s = true ∧ candidate s w ∧
    worker_by_id s (wl_worker_id old) = Some old ∧
    ws_current_worker_id s = Some (wl_worker_id old) ∧
    (te_reason el = TakeoverReason.HANDOFF ∧
       ws_handoff_target_worker_id s = Some c ∨
     te_reason el = TakeoverReason.LEASE_EXPIRED ∧
       lease_is_fresh s (wl_worker_id old) now = false).
Proof using V.
  unfold takeover_eligibility. rewrite (validate_valid _ V). cbn.
  destruct (task_open s) eqn:Hopen; cbn [negb]; [|by intros [= <-]].
  destruct (worker_by_id s c) as [w|] eqn:Hw; [|by intros [= <-]].
  destruct (is_status _ w) eqn:Hst; cbn [negb]; [|by intros [= <-]].
  destruct (ws_current_worker_id s) as [cur|] eqn:Hcur; [|by intros [= <-]].
  apply worker_by_id_key in Hw as [-> Hw]. unfold is_status in Hst. bool_to_prop.
  destruct (vs_current s V cur Hcur) as (old & Hold & <- & _).
  intros Hel Hok. exists w, old. split_and!; try done.
  - apply worker_by_id_elem; [apply V|done].
  - revert Hel. case_bool_decide; [intros [= <-]; by left|].
    destruct (lease_is_fresh s (wl_worker_id old) now) eqn:Hf; intros [= <-]; [done|].
    by right.
Qed.

Lemma takeover_eligibility_total c now :
  ∃ el, takeover_eligibility s c now = Ok el.
Proof using V.
  unfold takeover_eligibility. rewrite (validate_valid _ V). cbn. split_matches; eauto.
Qed.

Lemma answers_takeover c now ls e :
  fle ls (of_Z 0) = false → answers (Takeover c now ls) e (takeover_worker s c now ls e).
Proof using V.
  intros Hls. unfold takeover_worker. rewrite positive_lease_then by done.
  apply answers_preflight. intros ->.
  destruct (takeover_eligibility_total c now) as [el Hel]. rewrite Hel.
  rewrite Ok_bind.
  destruct (te_eligible el) eqn:Hok; cbn [negb].
  - destruct (takeover_eligible _ _ _ Hel Hok)
      as (w & old & -> & Hopen & [Hw Hst] & Hold & Hcur & Hwhy).
    rewrite Hcur. unfold require_worker. rewrite Hold, Ok_bind, Hw, Ok_bind.
    apply handled_accept. by apply step_takeover.
  - apply answers_reject. by destruct (te_reason el).
Qed.

(** Every request on a valid snapshot is answered, or its arguments are refused
    with [ValueError]; no other exception is raised. *)
Lemma handle_total r e :
  if request_ok s r e then answers r e (handle s r e)
  else ∃ msg, handle s r e = Err (Exn ValueError msg).
Proof using V.
  destruct (request_ok s r e) eqn:Hok.
  - destruct r; cbn in Hok; try (apply negb_true_iff in Hok); cbn [handle].
    + by apply answers_register.
    + by apply answers_claim.
    + by apply answers_heartbeat.
    + apply answers_handoff.
    + by apply answers_takeover.
    + apply answers_complete_worker.
    + apply answers_abandon_worker.
    + apply answers_complete_task.
  - destruct r; cbn in Hok; try done; cbn [handle];
      try (apply negb_false_iff in Hok; eexists; by apply positive_lease_refused).
    apply orb_false_iff in Hok as [Hok Hid]. apply orb_false_iff in Hok as [He Hopen].
    apply negb_false_iff in He, Hopen.
    unfold register_worker. rewrite preflight_valid, He, Hopen. cbn. rewrite Hid. cbn.
    eexists. reflexivity.
Qed.

Lemma handle_cases r e d : handle s r e = Ok d → handled s r e d.
Proof using V.
  intros H. pose proof (handle_total r e) as Ht. destruct (request_ok s r e).
  - destruct Ht as (d' & Hd & Hh). congruence.
  - destruct Ht as [msg Hm]. congruence.
Qed.

End Handled.
