(* ===== verification/WorkerProtocolReach.v ===== *)
(** * Reachable snapshots: generations, fencing and terminal states

    [transition] is one answered request; a snapshot is [reachable] when a chain of
    transitions leads to it from a snapshot built by [new_task_state].  On reachable
    snapshots the generations 1, 2, ... number the granted leases, each worker owns at
    most one of them, and a worker that lost its lease never regains authority. *)

From S2P Require Import Prelude PyFloat PyStr WorkerProtocol WorkerProtocolFacts.
From S2P Require Import WorkerProtocolSteps.

Open Scope string_scope.
Open Scope Z_scope.

Definition transition (s s' : WorkerTaskState) : Prop :=
  ∃ r e d, handle s r e = Ok d ∧ s' = pd_state d.

Definition initial (s : WorkerTaskState) : Prop :=
  ∃ task parent root key, new_task_state task parent root key = Ok s.

Definition reachable (s : WorkerTaskState) : Prop :=
  ∃ s0, initial s0 ∧ rtc transition s0 s.

(** ** Invariants of transitions *)

Lemma transition_cases s s' :
  valid_state s → transition s s' →
  s' = s ∨ ∃ r c t es, step s r c t es ∧ s' = commit s t.
Proof.
  intros V (r & e & d & Hd & ->).
  destruct (handle_cases _ V _ _ _ Hd) as [(? & -> & _)|[(_ & -> & _)|(_ & c & t & es & Hs & ->)]];
    cbn; eauto 10.
Qed.

Lemma transition_valid s s' : valid_state s → transition s s' → valid_state s'.
Proof.
  intros V H. destruct (transition_cases _ _ V H) as [-> | (r & c & t & es & Hs & ->)];
    [done|]. by eapply step_valid.
Qed.

Lemma transitions_valid s s' : valid_state s → rtc transition s s' → valid_state s'.
Proof. intros V H. induction H; [done|]. eauto using transition_valid. Qed.

Lemma initial_fields s :
  initial s → validate_state s = Ok tt ∧ ws_workers s = [] ∧ ws_generation s = 0 ∧
    ws_revision s = 0 ∧ ws_current_worker_id s = None ∧
    ws_handoff_target_worker_id s = None ∧ task_open s = true.
Proof.
  intros (task & parent & root & key & H). unfold new_task_state in H. cbv zeta in H.
  rewrite raise_if_then in H. destruct H as [_ H].
  apply bind_Ok_inv in H as (lin & _ & H). apply unit_bind_Ok in H as [Hv [= <-]].
  done.
Qed.

Lemma initial_valid s : initial s → valid_state s.
Proof. intros H%initial_fields. apply validate_state_iff, H. Qed.

(** A property of snapshots that holds initially and survives every step holds on
    every reachable snapshot. *)
Lemma reachable_invariant (P : WorkerTaskState → Prop) :
  (∀ s, initial s → P s) →
  (∀ s r c t es, valid_state s → P s → step s r c t es → P (commit s t)) →
  ∀ s, reachable s → valid_state s ∧ P s.
Proof.
  intros Hinit Hstep s (s0 & H0 & Hrtc).
  assert (valid_state s0 ∧ P s0) as HP by (split; [by apply initial_valid|auto]).
  clear H0. induction Hrtc as [s|s0 s1 s Ht _ IH]; [done|]. apply IH.
  destruct HP as [V HP]. split; [by eapply transition_valid|].
  destruct (transition_cases _ _ V Ht) as [-> | (r & c & t & es & Hs & ->)]; eauto.
Qed.

(** ** How a step changes the worker list *)

Definition granted (s s' : WorkerTaskState) (c : WorkerLease) (u : WorkerLease) : Prop :=
  candidate s c ∧ wl_worker_id u = wl_worker_id c ∧
  wl_status u = WorkerLeaseStatus.ACTIVE ∧ wl_generation u = Some (ws_generation s + 1) ∧
  ws_generation s' = ws_generation s + 1 ∧ ws_current_worker_id s' = Some (wl_worker_id c).

(** The worker [w] of [s] becomes [u]: it keeps its identity and, outside a grant, its
    generation. *)
Inductive evolves (s s' : WorkerTaskState) (w u : WorkerLease) : Prop :=
  | ev_same : u = w → evolves s s' w u
  | ev_heartbeat :
      wl_worker_id u = wl_worker_id w → wl_generation u = wl_generation w →
      wl_status w = WorkerLeaseStatus.ACTIVE → wl_status u = WorkerLeaseStatus.ACTIVE →
      wl_superseded_by u = wl_superseded_by w →
      evolves s s' w u
  | ev_ended :
      wl_worker_id u = wl_worker_id w → wl_generation u = wl_generation w →
      wl_status w = WorkerLeaseStatus.ACTIVE →
      wl_status u = WorkerLeaseStatus.COMPLETED ∨ wl_status u = WorkerLeaseStatus.ABANDONED →
      evolves s s' w u
  | ev_superseded c :
      wl_worker_id u = wl_worker_id w → wl_generation u = wl_generation w →
      wl_status w = WorkerLeaseStatus.ACTIVE → wl_status u = WorkerLeaseStatus.SUPERSEDED →
      wl_superseded_by u = Some c → ws_current_worker_id s' = Some c →
      ws_generation s' = ws_generation s + 1 →
      evolves s s' w u
  | ev_granted : granted s s' w u → evolves s s' w u.

Lemma evolves_id s s' w u : evolves s s' w u → wl_worker_id u = wl_worker_id w.
Proof. intros [->| | | |(_ & ? & _)]; done. Qed.

(** Each worker of the next snapshot evolved from one of this snapshot, or was
    registered by this step. *)
Lemma step_backward s r c t es :
  valid_state s → step s r c t es →
  ∀ u, u ∈ ws_workers t →
    (∃ w, w ∈ ws_workers s ∧ evolves s t w u) ∨
    (wl_worker_id u ∉ ids (ws_workers s) ∧ wl_status u = WorkerLeaseStatus.CANDIDATE ∧
     wl_generation u = None ∧ ws_generation t = ws_generation s).
Proof.
  intros V Hs u Hu. destruct Hs; cbn in *.
  - apply elem_of_sorted_workers, elem_of_app in Hu as [Hu | Hu%list_elem_of_singleton].
    + left. exists u. split; [done|by apply ev_same].
    + right. subst u. cbn. by rewrite <- worker_by_id_None.
  - left. apply elem_of_replace in Hu as [[-> _] | [Hu _]].
    + exists w. split; [eauto with lws|]. by apply ev_granted.
    + exists u. split; [done|by apply ev_same].
  - left. apply elem_of_replace in Hu as [[-> _] | [Hu _]].
    + destruct H as [Ho _]. exists w. split; [eauto with lws|].
      destruct Ho as (_ & _ & _ & Hst & _). by apply ev_heartbeat.
    + exists u. split; [done|by apply ev_same].
  - left. exists u. split; [done|by apply ev_same].
  - left. apply worker_by_id_Some in H1 as [Hold _].
    apply elem_of_replace in Hu as [[-> _] | [Hu Hne]].
    + exists c. split; [eauto with lws|]. by apply ev_granted.
    + apply elem_of_replace in Hu as [[-> _] | [Hu _]].
      * exists old. split; [done|]. destruct (vs_current s V _ H2) as (v & Hv & Hid & Hst & _).
        assert (v = old) as -> by (eapply NoDup_ids_inj; eauto; apply V).
        by eapply ev_superseded.
      * exists u. split; [done|by apply ev_same].
  - left. destruct H as [Ho _]. pose proof (owned_elem _ _ _ Ho).
    apply elem_of_replace in Hu as [[-> _] | [Hu _]].
    + exists w. split; [done|]. destruct Ho as (_ & _ & _ & Hst & _).
      by apply ev_ended; try left.
    + exists u. split; [done|by apply ev_same].
  - left. pose proof (owned_elem _ _ _ H).
    apply elem_of_replace in Hu as [[-> _] | [Hu _]].
    + exists w. split; [done|]. destruct H as (_ & _ & _ & Hst & _).
      by apply ev_ended; try right.
    + exists u. split; [done|by apply ev_same].
  - left. exists u. split; [done|by apply ev_same].
Qed.

(** No worker is dropped. *)
Lemma step_ids s r c t es id :
  step s r c t es → id ∈ ids (ws_workers s) → id ∈ ids (ws_workers t).
Proof.
  intros Hs Hid. destruct Hs; cbn; rewrite ?ids_replace; try done.
  rewrite ids_sorted. unfold ids. rewrite fmap_app, elem_of_app. by left.
Qed.

Lemma step_forward s r c t es w :
  valid_state s → step s r c t es → w ∈ ws_workers s →
  ∃ u, u ∈ ws_workers t ∧ evolves s t w u.
Proof.
  intros V Hs Hw. pose proof (step_ids _ _ _ _ _ _ Hs (elem_of_ids _ _ Hw)) as Hid.
  apply list_elem_of_fmap in Hid as (u & Hid & Hu).
  destruct (step_backward _ _ _ _ _ V Hs u Hu) as [(w' & Hw' & Hev) | (Hni & _)].
  - assert (w' = w) as ->; [|eauto]. apply evolves_id in Hev.
    eapply NoDup_ids_inj; eauto; [apply V|congruence].
  - destruct Hni. rewrite <- Hid. auto with lws.
Qed.

Lemma step_generation s r c t es :
  step s r c t es →
  (ws_generation t = ws_generation s + 1 ∧
     ∃ w u, w ∈ ws_workers s ∧ u ∈ ws_workers t ∧ granted s t w u) ∨
  ws_generation t = ws_generation s.
Proof.
  intros Hs. destruct Hs; cbn; eauto.
  - left. split; [done|].
    exists w, (claimed_lease w (ws_generation s + 1) now ls). split_and!; [eauto with lws| |done].
    apply elem_of_replace. left. cbn. eauto with lws.
  - left. split; [done|].
    exists c, (claimed_lease c (ws_generation s + 1) now ls). split_and!; [eauto with lws| |done].
    apply elem_of_replace. left. cbn. rewrite ids_replace. eauto with lws.
Qed.

(** ** Generations number the grants *)

Record lineage (s : WorkerTaskState) : Prop := {
  ln_candidate : ∀ w, w ∈ ws_workers s → wl_status w = WorkerLeaseStatus.CANDIDATE →
    wl_generation w = None;
  ln_bound : ∀ w, w ∈ ws_workers s → wl_status w ≠ WorkerLeaseStatus.CANDIDATE →
    ∃ g, wl_generation w = Some g ∧ 1 ≤ g ≤ ws_generation s;
  ln_unique : ∀ w v g, w ∈ ws_workers s → v ∈ ws_workers s →
    wl_generation w = Some g → wl_generation v = Some g → w = v;
  ln_all : ∀ g, 1 ≤ g ≤ ws_generation s →
    ∃ w, w ∈ ws_workers s ∧ wl_generation w = Some g;
  ln_successor : ∀ w, w ∈ ws_workers s → wl_status w = WorkerLeaseStatus.SUPERSEDED →
    ∃ v g, v ∈ ws_workers s ∧ wl_superseded_by w = Some (wl_worker_id v) ∧
      wl_generation w = Some g ∧ wl_generation v = Some (g + 1);
}.

Lemma ln_le s w g :
  lineage s → w ∈ ws_workers s → wl_generation w = Some g → 1 ≤ g ≤ ws_generation s.
Proof.
  intros L Hw Hg. destruct (decide (wl_status w = WorkerLeaseStatus.CANDIDATE)) as [Hc|Hc].
  - rewrite (ln_candidate s L w Hw Hc) in Hg. done.
  - destruct (ln_bound s L w Hw Hc) as (g' & Hg' & ?). congruence.
Qed.

(** The generation of a worker after a step: its own, or the next one. *)
Lemma evolves_generation s t w u g :
  evolves s t w u → wl_generation u = Some g →
  wl_generation w = Some g ∨ g = ws_generation s + 1 ∧ granted s t w u.
Proof.
  intros [->|? Hg _ _ _|? Hg _ _|? ? Hg _ _ _ _ _|Hgr] Hu; try (left; congruence).
  right. split; [|done]. destruct Hgr as (_ & _ & _ & Hg & _). congruence.
Qed.

Lemma evolves_candidate s t w u :
  evolves s t w u → wl_status u = WorkerLeaseStatus.CANDIDATE → u = w.
Proof.
  intros [->|_ _ _ Hu _|_ _ _ Hu|? _ _ _ Hu _ _ _|(_ & _ & Hu & _)] Hc;
    [done|congruence| |congruence..]. destruct Hu; congruence.
Qed.

Lemma evolves_keeps_generation s t w u g :
  lineage s → w ∈ ws_workers s → evolves s t w u →
  wl_generation w = Some g → wl_generation u = Some g.
Proof.
  intros L Hw [->|? Hg _ _ _|? Hg _ _|? ? Hg _ _ _ _ _|([_ Hc] & _)] Hwg; try congruence.
  rewrite (ln_candidate s L w Hw Hc) in Hwg. done.
Qed.

Section LineageStep.
Context (s t : WorkerTaskState) (r : request) (c : DecisionCode.t) (es : list ProtocolEvent).
Context (V : valid_state s) (L : lineage s) (Hs : step s r c t es).

Lemma step_generation_le : ws_generation s ≤ ws_generation t.
Proof using Hs. destruct (step_generation _ _ _ _ _ Hs) as [[? _]|]; lia. Qed.

Lemma lineage_candidate_step u :
  u ∈ ws_workers t → wl_status u = WorkerLeaseStatus.CANDIDATE → wl_generation u = None.
Proof using V L Hs.
  intros Hu Hc. destruct (step_backward _ _ _ _ _ V Hs u Hu) as [(w & Hw & Hev)|(_ & _ & ? & _)];
    [|done]. pose proof (evolves_candidate _ _ _ _ Hev Hc). subst. by apply (ln_candidate s).
Qed.

Lemma lineage_bound_step u :
  u ∈ ws_workers t → wl_status u ≠ WorkerLeaseStatus.CANDIDATE →
  ∃ g, wl_generation u = Some g ∧ 1 ≤ g ≤ ws_generation t.
Proof using V L Hs.
  intros Hu Hc. pose proof step_generation_le as Hle.
  destruct (step_backward _ _ _ _ _ V Hs u Hu) as [(w & Hw & Hev)|(_ & ? & _)]; [|done].
  destruct Hev as [->|_ Hg Ha _ _|_ Hg Ha _|? _ Hg Ha _ _ _ _|(_ & _ & _ & Hg & Hgen & _)].
  1: destruct (ln_bound s L w Hw) as (g & ? & ?); [done|]; exists g; split; [done|lia].
  4: { exists (ws_generation s + 1). split; [done|]. pose proof (vs_generation s V). lia. }
  all: destruct (ln_bound s L w Hw) as (g & ? & ?); [congruence|];
    exists g; split; [congruence|lia].
Qed.

Lemma lineage_unique_step u v g :
  u ∈ ws_workers t → v ∈ ws_workers t →
  wl_generation u = Some g → wl_generation v = Some g → u = v.
Proof using V L Hs.
  intros Hu Hv Hug Hvg. pose proof (step_valid _ _ _ _ _ V Hs) as Vt.
  destruct (step_backward _ _ _ _ _ V Hs u Hu) as [(w & Hw & Hev)|(_ & _ & ? & _)]; [|congruence].
  destruct (step_backward _ _ _ _ _ V Hs v Hv) as [(x & Hx & Hev')|(_ & _ & ? & _)]; [|congruence].
  cut (wl_worker_id u = wl_worker_id v).
  { intros. eapply NoDup_ids_inj; [apply (vs_nodup _ Vt)|done..]. }
  rewrite (evolves_id _ _ _ _ Hev), (evolves_id _ _ _ _ Hev').
  apply (evolves_generation _ _ _ _ _ Hev) in Hug.
  apply (evolves_generation _ _ _ _ _ Hev') in Hvg.
  destruct Hug as [Hug|[-> Hgu]], Hvg as [Hvg|[Hvg' Hgv]]; subst.
  - f_equal. by eapply (ln_unique s).
  - apply (ln_le s w _ L Hw) in Hug. lia.
  - apply (ln_le s x _ L Hx) in Hvg. lia.
  - destruct Hgu as (_ & _ & _ & _ & _ & ?), Hgv as (_ & _ & _ & _ & _ & ?). congruence.
Qed.

Lemma lineage_all_step g :
  1 ≤ g ≤ ws_generation t → ∃ u, u ∈ ws_workers t ∧ wl_generation u = Some g.
Proof using V L Hs.
  intros Hg. destruct (decide (g ≤ ws_generation s)) as [Hle|Hgt].
  - destruct (ln_all s L g) as (w & Hw & Hwg); [lia|].
    destruct (step_forward _ _ _ _ _ w V Hs Hw) as (u & Hu & Hev).
    exists u. split; [done|]. by eapply evolves_keeps_generation.
  - destruct (step_generation _ _ _ _ _ Hs) as [(Heq & w & u & _ & Hu & Hgr)|]; [|lia].
    exists u. split; [done|]. destruct Hgr as (_ & _ & _ & -> & _). f_equal. lia.
Qed.

Lemma lineage_successor_step u :
  u ∈ ws_workers t → wl_status u = WorkerLeaseStatus.SUPERSEDED →
  ∃ v g, v ∈ ws_workers t ∧ wl_superseded_by u = Some (wl_worker_id v) ∧
    wl_generation u = Some g ∧ wl_generation v = Some (g + 1).
Proof using V L Hs.
  intros Hu Hst. pose proof (step_valid _ _ _ _ _ V Hs) as Vt.
  destruct (step_backward _ _ _ _ _ V Hs u Hu) as [(w & Hw & Hev)|(_ & ? & _)]; [|congruence].
  destruct Hev as [->|_ _ _ Ha _|_ _ _ Hor|n _ Hg Ha _ Hsup Hcur Hgen|(_ & _ & Ha & _)];
    try congruence.
  - destruct (ln_successor s L w Hw Hst) as (v & g & Hv & Hsup & Hwg & Hvg).
    destruct (step_forward _ _ _ _ _ v V Hs Hv) as (v' & Hv' & Hev).
    exists v', g. rewrite (evolves_id _ _ _ _ Hev).
    split_and!; try done. by eapply evolves_keeps_generation.
  - destruct Hor; congruence.
  - destruct (vs_current _ Vt n Hcur) as (v & Hv & Hid & _ & Hvg & _). cbn in Hv, Hvg.
    destruct (vs_current s V (wl_worker_id w)) as (w' & Hw' & Hid' & _ & Hwg & _).
    { by apply V. }
    assert (w' = w) as -> by (eapply NoDup_ids_inj; eauto; apply V).
    exists v, (ws_generation s). split_and!; try congruence.
Qed.

End LineageStep.

Lemma lineage_step s r c t es :
  valid_state s → lineage s → step s r c t es → lineage (commit s t).
Proof.
  intros V L Hs. constructor; cbn.
  - by eapply lineage_candidate_step.
  - by eapply lineage_bound_step.
  - by eapply lineage_unique_step.
  - by eapply lineage_all_step.
  - by eapply lineage_successor_step.
Qed.

Lemma lineage_initial s : initial s → lineage s.
Proof.
  intros (_ & Hw & Hg & _)%initial_fields.
  constructor; rewrite Hw; try (intros ? ?%not_elem_of_nil; done).
  - intros ? ? ? ?%not_elem_of_nil; done.
  - rewrite Hg. lia.
Qed.

Lemma reachable_lineage s : reachable s → valid_state s ∧ lineage s.
Proof. apply reachable_invariant; eauto using lineage_initial, lineage_step. Qed.

(** ** Futures

    A relation between snapshots that is a preorder and contains every step from a
    valid snapshot with a lineage contains every chain of transitions. *)

Lemma transitions_preorder (R : WorkerTaskState → WorkerTaskState → Prop) `{!PreOrder R} :
  (∀ s r c t es, valid_state s → lineage s → step s r c t es → R s (commit s t)) →
  ∀ s s', valid_state s → lineage s → rtc transition s s' →
    R s s' ∧ valid_state s' ∧ lineage s'.
Proof.
  intros Hstep s s' V L H. induction H as [s|s0 s1 s Ht _ IH]; [done|].
  destruct (transition_cases _ _ V Ht) as [-> | (r & c & t & es & Hs & ->)]; [auto|].
  destruct IH as (HR & ? & ?); [by eapply step_valid|by eapply lineage_step|].
  split; [|done]. etrans; [|done]. eauto.
Qed.

Definition terminal (w : WorkerLease) : Prop :=
  wl_status w = WorkerLeaseStatus.SUPERSEDED ∨ wl_status w = WorkerLeaseStatus.COMPLETED ∨
  wl_status w = WorkerLeaseStatus.ABANDONED.

Lemma evolves_terminal s t w u : evolves s t w u → terminal w → u = w.
Proof.
  intros [->|_ _ Ha _ _|_ _ Ha _|? _ _ Ha _ _ _ _|([_ Ha] & _)] Ht; [done|..];
    destruct Ht as [Ht|[Ht|Ht]]; congruence.
Qed.

(** What a snapshot passes on to every later snapshot. *)
Record inherited (s s' : WorkerTaskState) : Prop := {
  ih_terminal : ∀ w, w ∈ ws_workers s → terminal w → w ∈ ws_workers s';
  ih_generation : ∀ w g, w ∈ ws_workers s → wl_generation w = Some g →
    ∃ u, u ∈ ws_workers s' ∧ wl_worker_id u = wl_worker_id w ∧ wl_generation u = Some g;
  ih_ids : ∀ id, id ∈ ids (ws_workers s) → id ∈ ids (ws_workers s');
  ih_counter : ws_generation s ≤ ws_generation s';
  ih_revision : ws_revision s ≤ ws_revision s';
  ih_lineage : ws_lineage s' = ws_lineage s;
}.

#[export] Instance inherited_preorder : PreOrder inherited.
Proof.
  split.
  - intros s. by constructor; eauto.
  - intros s1 s2 s3 [] []. constructor; try (etrans; done); eauto.
    intros w g Hw Hg. destruct (ih_generation0 w g Hw Hg) as (u & Hu & Hid & Hug).
    destruct (ih_generation1 u g Hu Hug) as (v & ? & ? & ?). exists v. split_and!; congruence.
Qed.

Lemma step_lineage_record s r c t es : step s r c t es → ws_lineage t = ws_lineage s.
Proof. by intros []. Qed.

Lemma inherited_step s r c t es :
  valid_state s → lineage s → step s r c t es → inherited s (commit s t).
Proof.
  intros V L Hs. constructor; cbn.
  - intros w Hw Ht. destruct (step_forward _ _ _ _ _ w V Hs Hw) as (u & Hu & Hev).
    by rewrite <- (evolves_terminal _ _ _ _ Hev Ht).
  - intros w g Hw Hg. destruct (step_forward _ _ _ _ _ w V Hs Hw) as (u & Hu & Hev).
    exists u. split_and!; [done|by eapply evolves_id|by eapply evolves_keeps_generation].
  - intros id. by eapply step_ids.
  - by eapply step_generation_le.
  - lia.
  - by eapply step_lineage_record.
Qed.

Lemma future_inherits s s' :
  reachable s → rtc transition s s' → inherited s s' ∧ valid_state s' ∧ lineage s'.
Proof.
  intros [V L]%reachable_lineage. apply transitions_preorder; [apply _| |done..].
  intros. by eapply inherited_step.
Qed.

Lemma reachable_future s s' : reachable s → rtc transition s s' → reachable s'.
Proof. intros (s0 & ? & ?) ?. exists s0. split; [done|]. by etrans. Qed.
