(* ===== verification/WorkerProtocolTheorems.v ===== *)
(** * The guarantees of the lease protocol

    The theorems of this file state what a caller of the protocol may rely on:
    requests are total, snapshots stay valid, the revision is a compare-and-swap
    token, the generation is a fencing token, and terminal states are final. *)

From S2P Require Import Prelude PyFloat PyStr WorkerProtocol WorkerProtocolFacts.
From S2P Require Import WorkerProtocolSteps WorkerProtocolReach.

Open Scope string_scope.
Open Scope Z_scope.

(** ** A concrete run

    Alice claims the task, requests a handoff to Bob, Bob takes over. *)

Definition run (s : res WorkerTaskState) (r : request) : res WorkerTaskState :=
  s ← s; d ← handle s r (ws_revision s); Ok (pd_state d).

Definition run_all (rs : list request) : res WorkerTaskState :=
  foldl run (new_task_state "task" None None None) rs.

Definition t_ (n : Z) : float := of_Z n.

Definition alice_claims : list request :=
  [Register "alice" None (t_ 1); Register "bob" (Some "https://chat") (t_ 2);
   Claim "alice" (t_ 10) (t_ 60)].

Definition bob_takes_over : list request :=
  alice_claims ++ [Heartbeat "alice" 1 (t_ 20) (t_ 60);
                   Handoff "alice" "bob" 1 (t_ 30); Takeover "bob" (t_ 40) (t_ 60)].

Definition bob_completes : list request :=
  bob_takes_over ++ [CompleteWorker "bob" 2 (t_ 50); CompleteTask "sha256:ab" (t_ 60)].

Definition get {A} (r : res A) (d : A) : A := match r with Ok a => a | Err _ => d end.

Definition empty_state : WorkerTaskState :=
  mkWorkerTaskState (mkTaskLineage "task" None "task" None) 0 0 DurableTaskStatus.OPEN
    None None None [] None None.

Definition state_after (rs : list request) : WorkerTaskState :=
  get (run_all rs) empty_state.

Lemma run_transition s r s' : run (Ok s) r = Ok s' → transition s s'.
Proof.
  cbn. intros H. apply bind_Ok_inv in H as (d & Hd & [= <-]). by repeat eexists.
Qed.

Lemma run_err e rs : foldl run (Err e) rs = Err e.
Proof. by induction rs. Qed.

Lemma run_transitions rs s s' :
  foldl run (Ok s) rs = Ok s' → rtc transition s s'.
Proof.
  revert s. induction rs as [|r rs IH]; intros s H; [by injection H as <-|].
  cbn [foldl] in H. destruct (run (Ok s) r) as [s1|e] eqn:E.
  - eapply rtc_l; [by eapply run_transition|auto].
  - by rewrite run_err in H.
Qed.

Lemma run_reachable rs s : run_all rs = Ok s → reachable s.
Proof.
  intros H. exists empty_state. split; [by exists "task", None, None, None|].
  by eapply run_transitions.
Qed.

(** ** Theorems *)

(** [validate_state] decides the snapshot invariant: it returns exactly on the
    snapshots that satisfy [valid_state], and otherwise raises
    [ProtocolInvariantError]. *)
Theorem validate_state_decides s :
  (validate_state s = Ok tt ↔ valid_state s) ∧
  (¬ valid_state s → ∃ msg, validate_state s = Err (Exn ProtocolInvariantError msg)).
Proof.
  split; [apply validate_state_iff|apply validate_invalid].
Qed.

(** C28: On a valid snapshot every transition function returns a decision unless its
    arguments are refused with [ValueError] (a blank worker id, a lease that is not
    positive); the invariant check inside [_accept] and the two assertions never
    fail.  The decision is a rejection that leaves the snapshot alone, a repeated
    registration, or exactly one step of the protocol. *)
Theorem handle_is_total s r e :
  validate_state s = Ok tt →
  if request_ok s r e then ∃ d, handle s r e = Ok d ∧ handled s r e d
  else ∃ msg, handle s r e = Err (Exn ValueError msg).
Proof. intros V%validate_state_iff. by apply handle_total. Qed.

(** C36: Every snapshot the protocol can reach passes [validate_state], and its grants
    are numbered: candidates hold no generation, every other worker holds one between
    1 and the counter, no two workers share one, every generation was granted, and a
    superseded worker names the worker of the next generation. *)
Theorem reachable_invariants s :
  reachable s → validate_state s = Ok tt ∧ lineage s.
Proof. intros [V L]%reachable_lineage. auto with lws. Qed.

(** The revision is a compare-and-swap token: a request that names another revision
    is rejected and changes nothing, and the revision moves (by exactly one) exactly
    when the decision reports a mutation. *)
Theorem revision_fences_writers s r e d :
  validate_state s = Ok tt → handle s r e = Ok d →
  (e ≠ ws_revision s →
    d = mkProtocolDecision false DecisionCode.STALE_REVISION e s []) ∧
  (pd_mutated d = true → e = ws_revision s ∧ ws_revision (pd_state d) = ws_revision s + 1 ∧
    pd_events d ≠ [] ∧ ∀ ev, ev ∈ pd_events d → pe_revision ev = ws_revision s + 1) ∧
  (pd_mutated d = false → pd_state d = s ∧ pd_events d = []).
Proof.
  intros V%validate_state_iff Hd. unfold pd_mutated.
  destruct (handle_cases _ V _ _ _ Hd) as [(c & -> & Hc)|[(-> & -> & _)|
    (-> & c & t & es & Hs & ->)]]; cbn.
  - split_and!; [|done|done]. intros He. by apply Hc in He as ->.
  - assert (ws_revision s =? ws_revision s + 1 = false) as -> by lia. done.
  - rewrite Z.eqb_refl. split_and!; [done| |done]. intros _. split_and!; [done..| |].
    + by destruct Hs.
    + unfold stamp. intros ev (ev' & -> & _)%list_elem_of_fmap. done.
Qed.

(** [_authority_rejection] grants exactly the authoritative worker: the open task's
    current active worker, with the current generation, at a time not before its last
    recorded activity and strictly before its lease expiry. *)
Theorem authority_exact s id g now :
  _authority_rejection s id g now = None ↔
  ∃ w, id = wl_worker_id w ∧ authorised s w g now.
Proof.
  split; [apply authority_granted|]. intros (w & -> & Ha). by apply authorised_granted.
Qed.


(** The worker and the generation that a request presents as its authority. *)
Definition presents (r : request) : option (string * Z) :=
  match r with
  | Heartbeat id g _ _ | Handoff id _ g _ | CompleteWorker id g _ | AbandonWorker id g _ =>
      Some (id, g)
  | _ => None
  end.

(** A request is accepted only from the owner that it presents. *)
Lemma accepted_presents s r e d id g :
  valid_state s → presents r = Some (id, g) → handle s r e = Ok d → pd_accepted d = true →
  ∃ w, id = wl_worker_id w ∧ owned_by s w g.
Proof.
  intros V Hr Hd Hacc. destruct (handle_cases _ V _ _ _ Hd) as [(c & -> & _)|[(_ & _ & ? & ? & ? & -> & _)|
    (_ & c & t & es & Hs & _)]]; [done|done|].
  destruct Hs; cbn in Hr; try discriminate Hr; injection Hr as <- <-;
    repeat match goal with H : authorised _ _ _ _ |- _ => destruct H as [H _] end; by eexists.
Qed.

(** A refused request leaves the snapshot alone. *)
Lemma refused_stays s r e d :
  valid_state s → handle s r e = Ok d → pd_accepted d = false → pd_state d = s.
Proof.
  intros V Hd Hacc. destruct (handle_cases _ V _ _ _ Hd) as [(c & -> & _)|[(_ & -> & _)|
    (_ & c & t & es & _ & ->)]]; done.
Qed.

(** Two owners along an execution *)
Lemma owners_ordered s s' w v g g' :
  reachable s → rtc transition s s' → owned_by s w g → owned_by s' v g' →
  g ≤ g' ∧ (g' = g → wl_worker_id v = wl_worker_id w).
Proof.
  intros Hr Hfut Ho Ho'. destruct (future_inherits _ _ Hr Hfut) as (I & V & L).
  pose proof (owned_elem _ _ _ Ho) as Hw. pose proof (owned_elem _ _ _ Ho') as Hv.
  destruct Ho as (_ & _ & _ & _ & -> & Hg), Ho' as (_ & _ & _ & _ & -> & Hg').
  split; [apply I|]. intros Heq.
  destruct (ih_generation _ _ I w _ Hw Hg) as (u & Hu & <- & Hug).
  f_equal. eapply (ln_unique s' L); try done. congruence.
Qed.

(** A generation that is not the current one is refused to every worker, and the current
    worker is told that it is stale. *)
Lemma stale_refused s id g now :
  valid_state s → ws_generation s ≠ g →
  ∃ c, _authority_rejection s id g now = Some c ∧
    (task_open s = true → ws_current_worker_id s = Some id → c = DecisionCode.STALE_GENERATION).
Proof.
  intros V Hg. destruct (_authority_rejection s id g now) as [c|] eqn:E.
  - exists c. split; [done|]. intros Ho Hc. destruct (vs_current _ V _ Hc) as (w & Hw & Hid & Hst & _).
    assert (worker_by_id s id = Some w) as Hby by (by apply worker_by_id_elem; [apply V|]).
    unfold _authority_rejection, is_status in E. rewrite Ho, Hby, Hc, Hst in E.
    rewrite !bool_decide_true in E by done. cbn in E.
    rewrite (proj2 (Z.eqb_neq g (ws_generation s))) in E by done. cbn in E. congruence.
  - apply authority_granted in E as (w & _ & (_ & _ & _ & _ & -> & _) & _). done.
Qed.

(** C1: The generation is a fencing token.  Once [_authority_rejection] let a worker pass with
    a generation, it lets nobody pass with an older one ever after, and with the same one only
    that worker; and no request that presents an older one, or this one for another worker, is
    accepted.  As soon as the counter has moved on, the check refuses that generation to every
    worker at every time, with STALE_GENERATION to the current one, and every request that
    presents it is refused and changes nothing. *)
Theorem generations_fence s s' id g now :
  reachable s → rtc transition s s' → _authority_rejection s id g now = None →
  (∀ id' g' now', _authority_rejection s' id' g' now' = None → g ≤ g' ∧ (g' = g → id' = id)) ∧
  (∀ r e d id' g', presents r = Some (id', g') → handle s' r e = Ok d → pd_accepted d = true →
     g ≤ g' ∧ (g' = g → id' = id)) ∧
  (ws_generation s' ≠ g →
     (∀ id' now', ∃ c, _authority_rejection s' id' g now' = Some c ∧
        (task_open s' = true → ws_current_worker_id s' = Some id' →
         c = DecisionCode.STALE_GENERATION)) ∧
     (∀ r e d id', presents r = Some (id', g) → handle s' r e = Ok d →
        pd_accepted d = false ∧ pd_state d = s')).
Proof.
  intros Hr Hfut (w & -> & Ho & _)%authority_granted.
  destruct (future_inherits _ _ Hr Hfut) as (_ & V & _).
  split_and!.
  - intros id' g' now' (v & -> & Hv & _)%authority_granted. by eapply owners_ordered.
  - intros r e d id' g' Hp Hd Hacc. destruct (accepted_presents _ _ _ _ _ _ V Hp Hd Hacc) as (v & -> & Hv).
    by eapply owners_ordered.
  - intros Hg. split; [intros id' now'; by apply stale_refused|].
    intros r e d id' Hp Hd. assert (pd_accepted d = false) as Hacc.
    { destruct (pd_accepted d) eqn:Hacc; [|done]. exfalso.
      by destruct (accepted_presents _ _ _ _ _ _ V Hp Hd Hacc) as (v & _ & _ & _ & _ & _ & -> & _). }
    split; [done|]. by eapply refused_stays.
Qed.

(** C27: A takeover removes a live owner only with its consent: when it is accepted, the
    candidate was the target of a handoff the owner requested, or the owner's lease had
    expired, and then the owner had no authority left at that time or any later one. *)
Theorem takeover_is_safe s c now ls e d w :
  validate_state s = Ok tt → handle s (Takeover c now ls) e = Ok d →
  pd_accepted d = true → ws_current_worker_id s = Some w →
  ws_handoff_target_worker_id s = Some c ∨
  ∀ later g, fle now later = true → _authority_rejection s w g later ≠ None.
Proof.
  intros V%validate_state_iff Hd Hacc Hw.
  destruct (handle_cases _ V _ _ _ Hd) as [(? & -> & _)|[(_ & _ & ? & ? & ? & [=] & _)|
    (_ & code & t & es & Hs & _)]]; [done|].
  inversion Hs as [| | | |old cand ? ? ? Hopen Hc Hold Hcur Hwhy| | |]; subst.
  destruct Hwhy as [[_ ?]|[_ Hfresh]]; [by left|right]. intros later g Hle Hnone.
  rewrite Hcur in Hw. injection Hw as <-.
  apply authority_granted in Hnone as (v & Hid & _ & Hf & _). rewrite <- Hid in Hf.
  by rewrite (lease_fresh_antitone _ _ _ _ Hle Hfresh) in Hf.
Qed.

(** A completed durable task is closed for good: every later request is rejected or
    refused and the snapshot never changes again. *)
Theorem completed_task_is_final s s' :
  reachable s → ws_task_status s = DurableTaskStatus.COMPLETED → rtc transition s s' →
  s' = s.
Proof.
  intros [V _]%reachable_lineage Hst H.
  induction H as [s|s s1 s' Ht _ IH]; [done|].
  assert (s1 = s) as ->; [|auto].
  destruct (transition_cases _ _ V Ht) as [|(r & c & t & es & Hs & _)]; [done|].
  assert (task_open s = false) as Hc by (unfold task_open; by rewrite Hst).
  destruct Hs; try congruence.
  all: try (match goal with H : authorised _ _ _ _ |- _ => destruct H as [H _] end).
  all: match goal with H : owned_by _ _ _ |- _ => destruct H; congruence end.
Qed.

(** ** Witnesses *)


Definition handover_state : WorkerTaskState := state_after (take 5 bob_takes_over).

Lemma reachable_after rs : run_all rs = Ok (state_after rs) → reachable (state_after rs).
Proof. apply run_reachable. Qed.

Lemma handle_is_total_witness :
  ∃ d, handle handover_state (Takeover "bob" (t_ 40) (t_ 60)) 5 = Ok d ∧
       handled handover_state (Takeover "bob" (t_ 40) (t_ 60)) 5 d.
Proof.
  apply (handle_is_total handover_state (Takeover "bob" (t_ 40) (t_ 60)) 5).
  vm_compute. reflexivity.
Defined.

Lemma reachable_invariants_witness :
  validate_state (state_after bob_takes_over) = Ok tt ∧ lineage (state_after bob_takes_over).
Proof. apply reachable_invariants, reachable_after. vm_compute. reflexivity. Defined.

Definition decision_of (s : WorkerTaskState) (r : request) (e : Z) : ProtocolDecision :=
  get (handle s r e) (_reject s DecisionCode.STALE_REVISION).

Lemma revision_fences_writers_witness :
  decision_of handover_state (Takeover "bob" (t_ 40) (t_ 60)) 4 =
  mkProtocolDecision false DecisionCode.STALE_REVISION 4 handover_state [].
Proof.
  apply (revision_fences_writers handover_state (Takeover "bob" (t_ 40) (t_ 60)) 4).
  - vm_compute. reflexivity.
  - vm_compute. reflexivity.
  - vm_compute. discriminate.
Defined.


Lemma bobs_time : ws_generation (state_after bob_takes_over) ≠ 1 ∧
  ws_current_worker_id (state_after bob_takes_over) = Some "bob" ∧
  task_open (state_after bob_takes_over) = true.
Proof. vm_compute. by split_and!. Qed.

(** Alice passed with generation 1; after Bob's takeover it is stale for Bob, and Alice's
    heartbeat is refused. *)
Lemma generations_fence_witness :
  _authority_rejection (state_after bob_takes_over) "bob" 1 (t_ 50) =
    Some DecisionCode.STALE_GENERATION ∧
  pd_accepted (decision_of (state_after bob_takes_over) (Heartbeat "alice" 1 (t_ 45) (t_ 60)) 6) =
    false.
Proof.
  destruct (generations_fence (state_after alice_claims) (state_after bob_takes_over) "alice" 1
    (t_ 20)) as (_ & _ & H).
  - apply reachable_after. vm_compute. reflexivity.
  - apply (run_transitions [Heartbeat "alice" 1 (t_ 20) (t_ 60);
                   Handoff "alice" "bob" 1 (t_ 30); Takeover "bob" (t_ 40) (t_ 60)]).
    vm_compute. reflexivity.
  - vm_compute. reflexivity.
  - destruct bobs_time as (Hg & Hc & Ho). destruct (H Hg) as [H1 H2]. split.
    + destruct (H1 "bob" (t_ 50)) as (c & -> & Hcode). f_equal. apply (Hcode Ho Hc).
    + refine (proj1 (H2 (Heartbeat "alice" 1 (t_ 45) (t_ 60)) 6 _ "alice" _ _));
        vm_compute; reflexivity.
Defined.

Lemma takeover_is_safe_witness :
  ws_handoff_target_worker_id (state_after alice_claims) = Some "bob" ∨
  ∀ later g, fle (t_ 100) later = true →
    _authority_rejection (state_after alice_claims) "alice" g later ≠ None.
Proof.
  apply (takeover_is_safe (state_after alice_claims) "bob" (t_ 100) (t_ 60) 3
    (decision_of (state_after alice_claims) (Takeover "bob" (t_ 100) (t_ 60)) 3) "alice");
    vm_compute; reflexivity.
Defined.

Definition late_claim : ProtocolDecision :=
  decision_of (state_after bob_completes) (Register "carol" None (t_ 80)) 8.

Lemma completed_task_is_final_witness : pd_state late_claim = state_after bob_completes.
Proof.
  apply (completed_task_is_final (state_after bob_completes) (pd_state late_claim)).
  - apply reachable_after. vm_compute. reflexivity.
  - vm_compute. reflexivity.
  - apply rtc_once. exists (Register "carol" None (t_ 80)), 8, late_claim.
    vm_compute. by split.
Defined.
