(* ===== verification/WorkerProtocolSpec.v ===== *)
(** * The event log as the abstract specification of the lease protocol

    [authority] is the abstract state of a durable task: who is registered, who holds
    the lease of which epoch, who is to receive it.  [apply_event] is its partial
    transition function: it says which events are legal in which state and what they
    mean, without clocks, leases or revisions.  The snapshot of worker_protocol.py
    refines it: the events of every accepted request replay, one after the other, from
    the abstraction of the old snapshot to the abstraction of the new one. *)

From S2P Require Import Prelude PyFloat PyStr WorkerProtocol WorkerProtocolFacts.
From S2P Require Import WorkerProtocolSteps WorkerProtocolReach WorkerProtocolTheorems.

Open Scope string_scope.
Open Scope Z_scope.

(** ** The abstract machine *)

Inductive role :=
  | Waiting
  | Owning (generation : option Z)
  | Retired (generation : option Z).

#[export] Instance role_eq_dec : EqDecision role.
Proof. solve_decision. Defined.

Record authority := mkAuthority {
  au_roles : gmap string role;
  au_owner : option string;
  au_epoch : Z;
  au_target : option string;
  au_open : bool;
}.

Definition waiting (a : authority) (id : string) : bool :=
  bool_decide (au_roles a !! id = Some Waiting).

(** [id] owns the lease of generation [g], which is the current epoch. *)
Definition owns (a : authority) (id : string) (g : Z) : bool :=
  bool_decide (au_owner a = Some id) && bool_decide (au_roles a !! id = Some (Owning (Some g)))
  && (g =? au_epoch a).

Definition assert_then {A} (b : bool) (a : A) : option A := if b then Some a else None.

(** [id] receives the lease of the next epoch. *)
Definition grant_to (a : authority) (id : string) (g : Z) : option authority :=
  assert_then (waiting a id && bool_decide (au_owner a = None) && (g =? au_epoch a + 1))
    (mkAuthority (<[id := Owning (Some g)]> (au_roles a)) (Some id) g None (au_open a)).

(** [id] gives up the lease it owns. *)
Definition retire (a : authority) (id : string) (g : Z) : option authority :=
  assert_then (owns a id g)
    (mkAuthority (<[id := Retired (Some g)]> (au_roles a)) None (au_epoch a) None (au_open a)).

Definition apply_event (a : authority) (e : ProtocolEvent) : option authority :=
  if negb (au_open a) then None else
  match pe_kind e, pe_worker_id e, pe_generation e with
  | EventKind.WORKER_REGISTERED, Some id, None =>
      assert_then (bool_decide (au_roles a !! id = None))
        (mkAuthority (<[id := Waiting]> (au_roles a)) (au_owner a) (au_epoch a)
           (au_target a) (au_open a))
  | EventKind.LEASE_CLAIMED, Some id, Some g => grant_to a id g
  | EventKind.HEARTBEAT_ACCEPTED, Some id, Some g => assert_then (owns a id g) a
  | EventKind.HANDOFF_REQUESTED, Some id, Some g =>
      match pe_related_worker_id e with
      | Some t =>
          assert_then (owns a id g && waiting a t)
            (mkAuthority (au_roles a) (au_owner a) (au_epoch a) (Some t) (au_open a))
      | None => None
      end
  | EventKind.WORKER_SUPERSEDED, Some id, Some g => retire a id g
  | EventKind.LEASE_TAKEN_OVER, Some id, Some g => grant_to a id g
  | EventKind.WORKER_COMPLETED, Some id, Some g => retire a id g
  | EventKind.WORKER_ABANDONED, Some id, Some g => retire a id g
  | EventKind.TASK_COMPLETED, None, Some g =>
      assert_then (bool_decide (au_owner a = None) && (g =? au_epoch a))
        (mkAuthority (au_roles a) (au_owner a) (au_epoch a) (au_target a) false)
  | _, _, _ => None
  end.

Fixpoint replay (a : authority) (es : list ProtocolEvent) : option authority :=
  match es with
  | [] => Some a
  | e :: es => a' ← apply_event a e; replay a' es
  end.

Definition no_authority : authority := mkAuthority ∅ None 0 None true.

(** ** Abstraction of a snapshot *)

Definition role_of (w : WorkerLease) : role :=
  match wl_status w with
  | WorkerLeaseStatus.CANDIDATE => Waiting
  | WorkerLeaseStatus.ACTIVE => Owning (wl_generation w)
  | _ => Retired (wl_generation w)
  end.

Definition roles_of (ws : list WorkerLease) : gmap string role :=
  list_to_map ((λ w, (wl_worker_id w, role_of w)) <$> ws).

#[local] Arguments roles_of : simpl never.

Definition abs (s : WorkerTaskState) : authority :=
  mkAuthority (roles_of (ws_workers s)) (ws_current_worker_id s) (ws_generation s)
    (ws_handoff_target_worker_id s) (task_open s).

Lemma roles_fst ws : ((λ w, (wl_worker_id w, role_of w)) <$> ws).*1 = ids ws.
Proof. unfold ids. by rewrite <- list_fmap_compose. Qed.

Lemma roles_of_elem ws w :
  NoDup (ids ws) → w ∈ ws → roles_of ws !! wl_worker_id w = Some (role_of w).
Proof.
  intros Hnd Hw. apply elem_of_list_to_map; [by rewrite roles_fst|].
  by apply (list_elem_of_fmap_2 (λ w, (wl_worker_id w, role_of w))).
Qed.

Lemma roles_of_None ws id : id ∉ ids ws → roles_of ws !! id = None.
Proof. intros H. apply not_elem_of_list_to_map_1. by rewrite roles_fst. Qed.

(** Two duplicate-free lists whose elements agree up to id and role. *)
Lemma roles_of_lookup ws id r :
  NoDup (ids ws) →
  roles_of ws !! id = Some r ↔ ∃ w, w ∈ ws ∧ wl_worker_id w = id ∧ role_of w = r.
Proof.
  intros Hnd. split.
  - intros H%elem_of_list_to_map_2. apply list_elem_of_fmap in H as (w & [= -> ->] & Hw). eauto.
  - intros (w & Hw & <- & <-). by apply roles_of_elem.
Qed.

Lemma roles_of_ext ws (m : gmap string role) :
  NoDup (ids ws) →
  (∀ id r, m !! id = Some r ↔ ∃ w, w ∈ ws ∧ wl_worker_id w = id ∧ role_of w = r) →
  roles_of ws = m.
Proof.
  intros Hnd H. apply map_eq. intros id. apply option_eq. intros r.
  by rewrite roles_of_lookup, H.
Qed.

Lemma roles_of_replace ws u :
  NoDup (ids ws) → wl_worker_id u ∈ ids ws →
  roles_of (_replace_worker ws u) = <[wl_worker_id u := role_of u]> (roles_of ws).
Proof.
  intros Hnd Hu. apply roles_of_ext; [by rewrite ids_replace|]. intros id r.
  rewrite lookup_insert_Some, roles_of_lookup by done.
  setoid_rewrite elem_of_replace_registered; [|done..]. naive_solver.
Qed.

Lemma roles_of_register ws u :
  NoDup (ids ws) → wl_worker_id u ∉ ids ws →
  roles_of (_sorted_workers (ws ++ [u])) = <[wl_worker_id u := role_of u]> (roles_of ws).
Proof.
  intros Hnd Hu. apply roles_of_ext.
  - rewrite ids_sorted. unfold ids. rewrite fmap_app. apply NoDup_app.
    split_and!; [done| |by apply NoDup_singleton].
    intros x Hx ->%list_elem_of_singleton. done.
  - intros id r. rewrite lookup_insert_Some, roles_of_lookup by done.
    setoid_rewrite elem_of_sorted_workers. setoid_rewrite elem_of_app.
    setoid_rewrite list_elem_of_singleton.
    assert (∀ w, w ∈ ws → wl_worker_id w ≠ wl_worker_id u) as Hne.
    { intros w Hw Heq. apply Hu. rewrite <- Heq. auto with lws. }
    naive_solver.
Qed.

(** The same, with the role written out. *)
Lemma roles_of_replace_in ws w u r :
  NoDup (ids ws) → w ∈ ws → wl_worker_id u = wl_worker_id w → role_of u = r →
  roles_of (_replace_worker ws u) = <[wl_worker_id w := r]> (roles_of ws).
Proof.
  intros Hnd Hw Hid <-. rewrite roles_of_replace, Hid; [done..|].
  rewrite Hid. auto with lws.
Qed.

(** ** Simulation *)

Section Simulation.
Context (s : WorkerTaskState) (V : valid_state s).

Lemma abs_owns w g : owned_by s w g → owns (abs s) (wl_worker_id w) g = true.
Proof using V.
  intros Ho. pose proof (owned_elem _ _ _ Ho) as Hw.
  destruct Ho as (_ & _ & Hcur & Hst & -> & Hg). unfold owns. cbn.
  rewrite Hcur, (roles_of_elem _ _ (vs_nodup s V) Hw), Z.eqb_refl. unfold role_of.
  by rewrite Hst, Hg, !bool_decide_true.
Qed.

Lemma abs_waiting w : candidate s w → waiting (abs s) (wl_worker_id w) = true.
Proof using V.
  intros Hc. pose proof (candidate_elem _ _ Hc) as Hw. destruct Hc as [_ Hst].
  unfold waiting. cbn. rewrite (roles_of_elem _ _ (vs_nodup s V) Hw). unfold role_of.
  by rewrite Hst, bool_decide_true.
Qed.

Lemma owner_owned w :
  worker_by_id s (wl_worker_id w) = Some w → ws_current_worker_id s = Some (wl_worker_id w) →
  task_open s = true → owned_by s w (ws_generation s).
Proof using V.
  intros Hw Hcur Hopen. destruct (vs_current s V _ Hcur) as (v & Hv & Hid & Hst & Hg & _).
  assert (v = w) as ->; [|by split_and!].
  apply worker_by_id_Some in Hw as [Hw _]. eapply NoDup_ids_inj; eauto; apply V.
Qed.

Lemma retire_abs w u g :
  owned_by s w g → wl_worker_id u = wl_worker_id w → role_of u = Retired (Some g) →
  retire (abs s) (wl_worker_id w) g = Some (abs (without_current s u)).
Proof using V.
  intros Ho Hid Hr. unfold retire. rewrite (abs_owns _ _ Ho). cbn. unfold abs, without_current. cbn.
  by rewrite (roles_of_replace_in _ w u _ (vs_nodup s V) (owned_elem _ _ _ Ho) Hid Hr).
Qed.

Lemma grant_abs w now ls :
  candidate s w → ws_current_worker_id s = None →
  grant_to (abs s) (wl_worker_id w) (ws_generation s + 1) =
  Some (abs (install s
    (_replace_worker (ws_workers s) (claimed_lease w (ws_generation s + 1) now ls))
    (wl_worker_id w))).
Proof using V.
  intros Hc Hcur. unfold grant_to. rewrite (abs_waiting _ Hc). cbn.
  rewrite Hcur, bool_decide_true, Z.eqb_refl by done. unfold abs, install. cbn.
  by rewrite (roles_of_replace_in _ w _ (Owning (Some (ws_generation s + 1)))
    (vs_nodup s V) (candidate_elem _ _ Hc)).
Qed.

End Simulation.

(** A candidate is still one after another worker has left. *)
Lemma candidate_without_current s c u :
  valid_state s → candidate s c → wl_worker_id u ∈ ids (ws_workers s) →
  wl_worker_id u ≠ wl_worker_id c → candidate (commit s (without_current s u)) c.
Proof.
  intros V [Hc Hst] Hu Hne. split; [|done]. apply worker_by_id_Some in Hc as [Hc _].
  apply worker_by_id_elem; cbn.
  - rewrite ids_replace. apply V.
  - split; [|done]. apply elem_of_replace_registered; [done|]. by right.
Qed.

Lemma abs_commit s t : abs (commit s t) = abs t.
Proof. done. Qed.

(** The abstract machine does not look at the revision of an event. *)
Lemma replay_stamp s a es : replay a (stamp s es) = replay a es.
Proof.
  revert a. induction es as [|e es IH]; intros a; [done|].
  change (apply_event a e ≫= (λ a', replay a' (stamp s es)) =
          apply_event a e ≫= (λ a', replay a' es)).
  destruct (apply_event a e); cbn; auto.
Qed.

Lemma apply_open s (k : option authority) :
  task_open s = true →
  (if negb (au_open (abs s)) then None else k) = k.
Proof. cbn. by intros ->. Qed.

Lemma retire_open a id g a' : retire a id g = Some a' → au_open a' = au_open a.
Proof. unfold retire. destruct (owns a id g); cbn; by intros [= <-]. Qed.

Lemma takeover_simulated s old c now ls :
  valid_state s → task_open s = true → candidate s c →
  worker_by_id s (wl_worker_id old) = Some old →
  ws_current_worker_id s = Some (wl_worker_id old) →
  (retire (abs s) (wl_worker_id old) (ws_generation s) ≫=
     λ a, grant_to a (wl_worker_id c) (ws_generation s + 1)) =
  Some (abs (install s
    (_replace_worker
       (_replace_worker (ws_workers s) (superseded_lease old now (wl_worker_id c)))
       (claimed_lease c (ws_generation s + 1) now ls)) (wl_worker_id c))).
Proof.
  intros V Hopen Hc Hold Hcur. pose proof (owner_owned s V old Hold Hcur Hopen) as Ho.
  pose proof (owned_elem _ _ _ Ho) as Hin. set (u := superseded_lease old now (wl_worker_id c)).
  assert (Hgen : wl_generation u = Some (ws_generation s)) by apply Ho.
  rewrite (retire_abs s V old u _ Ho); [|done|unfold role_of; cbn; by rewrite <- Hgen].
  cbn [mbind option_bind]. set (s1 := commit s (without_current s u)).
  assert (valid_state s1) as V1.
  { apply (valid_leaving s V old u); try done. cbn. by apply V. }
  change (abs (without_current s u)) with (abs s1).
  change (ws_generation s + 1) with (ws_generation s1 + 1).
  rewrite (grant_abs s1 V1 c now ls); [done| |done].
  apply candidate_without_current; try done; [cbn; auto with lws|].
  cbn. intros Heq. destruct Hc as [Hc Hst], Ho as (_ & _ & _ & Hst' & _).
  rewrite <- Heq, Hold in Hc. congruence.
Qed.

Lemma role_of_ended s w st now g :
  owned_by s w g → st = WorkerLeaseStatus.COMPLETED ∨ st = WorkerLeaseStatus.ABANDONED →
  role_of (ended_lease w st now) = Retired (Some g).
Proof. intros (_ & _ & _ & _ & _ & <-). by intros [-> | ->]. Qed.

Lemma step_simulated s r c t es :
  valid_state s → step s r c t es → replay (abs s) es = Some (abs t).
Proof.
  intros V Hs.
  assert (Hopen : task_open s = true) by (destruct Hs as [| |? ? ? ? [[]]|? ? ? ? [[]]| |? ? ? [[]]|? ? ? []|]; done).
  destruct Hs as [id ref now _ Hid Hnew|w now ls _ Hc Hcur|w g now ls [Ho _]
    |w x g now [Ho _] Hx|old w now ls reason _ Hc Hold Hcur _|w g now [Ho _]|w g now Ho
    |ref now _ Hcur _]; cbn [replay]; unfold apply_event; rewrite !apply_open by done;
    cbn [event pe_kind pe_worker_id pe_generation pe_related_worker_id].
  - apply worker_by_id_None in Hnew. cbn. rewrite roles_of_None, bool_decide_true by done.
    cbn. unfold abs. cbn. by rewrite roles_of_register by (done || apply V).
  - by rewrite (grant_abs s V w now ls Hc Hcur).
  - rewrite (abs_owns s V _ _ Ho). cbn. unfold abs. cbn.
    pose proof (owned_elem _ _ _ Ho) as Hin. destruct Ho as (_ & _ & _ & Hst & _).
    rewrite (roles_of_replace_in _ w _ (role_of w) (vs_nodup s V) Hin); try done.
    by rewrite insert_id by (by apply roles_of_elem, Hin; apply V).
  - by rewrite (abs_owns s V _ _ Ho), (abs_waiting s V _ Hx).
  - pose proof (owner_owned s V old Hold Hcur Hopen) as Ho.
    assert (Hg : wl_generation old = Some (ws_generation s)) by apply Ho.
    rewrite Hg. rewrite <- (takeover_simulated s old w now ls V Hopen Hc Hold Hcur).
    destruct (retire _ _ _) as [a|] eqn:Ha; [|done]. cbn. rewrite (retire_open _ _ _ _ Ha).
    cbn. rewrite Hopen. cbn. by destruct (grant_to _ _ _).
  - by rewrite (retire_abs s V w (ended_lease w _ now) g Ho eq_refl (role_of_ended s w _ now g Ho (or_introl eq_refl))).
  - by rewrite (retire_abs s V w (ended_lease w _ now) g Ho eq_refl (role_of_ended s w _ now g Ho (or_intror eq_refl))).
  - cbn. rewrite Hcur, Z.eqb_refl, bool_decide_true by done. by rewrite <- Hcur.
Qed.

(** ** Histories *)

(** A history: the events of the accepted requests, in order. *)
Inductive history : WorkerTaskState → list ProtocolEvent → Prop :=
  | history_new s : initial s → history s []
  | history_next s log r e d :
      history s log → handle s r e = Ok d → history (pd_state d) (log ++ pd_events d).

Lemma history_valid s log : history s log → valid_state s.
Proof.
  intros H. induction H as [s H|s log r e d _ IH Hd]; [by apply initial_valid|].
  eapply transition_valid; [done|]. by repeat eexists.
Qed.

Lemma replay_app a l1 l2 : replay a (l1 ++ l2) = replay a l1 ≫= λ a', replay a' l2.
Proof.
  revert a. induction l1 as [|e l1 IH]; intros a; cbn; [done|].
  destruct (apply_event a e); cbn; auto.
Qed.

Lemma abs_initial s : initial s → abs s = no_authority.
Proof.
  intros (_ & Hw & Hg & _ & Hcur & Hho & Hopen)%initial_fields.
  unfold abs. by rewrite Hw, Hg, Hcur, Hho, Hopen.
Qed.

Lemma handle_simulated s r e d :
  valid_state s → handle s r e = Ok d → replay (abs s) (pd_events d) = Some (abs (pd_state d)).
Proof.
  intros V Hd.
  destruct (handle_cases _ V _ _ _ Hd) as [(c & -> & _)|[(_ & -> & _)|
    (_ & c & t & es & Hs & ->)]]; [done..|]. cbn [pd_events pd_state].
  rewrite replay_stamp. exact (step_simulated _ _ _ _ _ V Hs).
Qed.

(** The snapshot refines the abstract authority machine: the events of any answered
    request are legal in the abstraction of the old snapshot and lead to the
    abstraction of the new one. *)
Theorem protocol_refines_spec s r e d :
  validate_state s = Ok tt → handle s r e = Ok d →
  replay (abs s) (pd_events d) = Some (abs (pd_state d)).
Proof. intros V%validate_state_iff. by apply handle_simulated. Qed.

Definition takeover_decision : ProtocolDecision :=
  decision_of handover_state (Takeover "bob" (t_ 40) (t_ 60)) 5.

Lemma protocol_refines_spec_witness :
  length (pd_events takeover_decision) = 2%nat ∧
  replay (abs handover_state) (pd_events takeover_decision) =
    Some (abs (pd_state takeover_decision)).
Proof.
  split; [vm_compute; reflexivity|].
  apply (protocol_refines_spec handover_state (Takeover "bob" (t_ 40) (t_ 60)) 5
    takeover_decision); vm_compute; reflexivity.
Defined.

(** C5: The event log is a complete record of authority: replaying the log of any
    execution from the empty state reconstructs who is registered, who owns the lease
    of which generation, the pending handoff and whether the task is open. *)
Theorem event_log_replays s log :
  history s log → replay no_authority log = Some (abs s).
Proof.
  intros H. induction H as [s H|s log r e d Hh IH Hd]; [by rewrite (abs_initial s H)|].
  rewrite replay_app, IH. eapply handle_simulated; [|done]. by eapply history_valid.
Qed.

Fixpoint log_of (s : WorkerTaskState) (rs : list request) : list ProtocolEvent :=
  match rs with
  | [] => []
  | r :: rs =>
      let d := decision_of s r (ws_revision s) in pd_events d ++ log_of (pd_state d) rs
  end.

Lemma history_log rs : ∀ s log s',
  history s log → foldl run (Ok s) rs = Ok s' → history s' (log ++ log_of s rs).
Proof.
  induction rs as [|r rs IH]; intros s log s' Hh Hrun; cbn [log_of].
  - rewrite app_nil_r. by injection Hrun as <-.
  - cbn [foldl] in Hrun. destruct (run (Ok s) r) as [s1|] eqn:E; [|by rewrite run_err in Hrun].
    cbn in E. apply bind_Ok_inv in E as (d & Hd & [= <-]).
    unfold decision_of. rewrite Hd. cbn [get]. rewrite app_assoc.
    apply IH; [by eapply history_next|done].
Qed.

Lemma event_log_replays_witness :
  length (log_of empty_state bob_completes) = 9%nat ∧
  replay no_authority (log_of empty_state bob_completes) =
    Some (abs (state_after bob_completes)).
Proof.
  split; [vm_compute; reflexivity|]. apply event_log_replays.
  rewrite <- (app_nil_l (log_of _ _)). apply history_log.
  - apply history_new. by exists "task", None, None, None.
  - vm_compute. reflexivity.
Defined.
