(* ===== verification/Registry.v ===== *)
(** * registry.py: the durable tables

    [Registry] is the database as the supervisor sees it: one finite map per table,
    keyed by the primary key.  A row whose columns repeat fields of its JSON payload is
    the payload record.  An operation takes the registry and returns [Ok] with the new
    registry and its result, or [Err] with the exception; an exception leaves the
    registry as it was, because every operation either validates before its first write
    or runs inside BEGIN IMMEDIATE ... rollback.

    An operation is one step.  In the code this is so for the operations inside BEGIN IMMEDIATE
    (arming an action of the current worker, the probe operations and slots, child dispatches,
    the acquisition and the stop of a watchdog lease, the protocol calls) and for those of one
    statement.  The others read a row, check it and write it back with a later statement:
    [_replace_action_attempt] and its callers, [update_replacement_attempt],
    [update_child_spawn_attempt], [annotate_child_spawn_attempt], [add_worker],
    [set_worker_status] and the plain inserts.  For those another process may write the row in
    between and be overwritten; Replacement.v models [update_replacement_attempt] with its two
    steps where it is submitted, elsewhere such an operation counts as one step.  SQLite stores a NaN as NULL, which the
    REAL NOT NULL columns refuse, and the primary keys and unique indexes refuse
    duplicates; both raise [IntegrityError]. *)

From S2P Require Import Prelude PyFloat PyStr PyJson Models WorkerProtocol.

Open Scope string_scope.
Open Scope Z_scope.

(** A row of [watchdog_leases]. *)
Record WatchdogLease := mkWatchdogLease {
  wd_owner_id : string;
  wd_pid : Z;
  wd_host : string;
  wd_started_at : float;
  wd_heartbeat_at : float;
  wd_expires_at : float;
}.

#[export] Instance eta_WatchdogLease : Eta WatchdogLease := λ r,
  mkWatchdogLease (wd_owner_id r) (wd_pid r) (wd_host r) (wd_started_at r)
    (wd_heartbeat_at r) (wd_expires_at r).

(** A row of [runtime_cooldowns]. *)
Record RuntimeCooldown := mkRuntimeCooldown {
  cl_until_at : float;
  cl_reason : string;
  cl_updated_at : float;
  cl_metadata : dict;
}.

(** A row of [child_spawn_attempts]: the indexed state column and the payload. *)
Record ChildSpawnRow := mkChildSpawnRow {
  csr_state : ChildSpawnAttemptState.t;
  csr_payload : ChildSpawnAttempt;
}.

(** A row of [worker_protocol_tasks]; its leases are rows of their own table, and an event
    is stored with its index within its revision. *)
Record ProtocolTaskRow := mkProtocolTaskRow {
  pt_lineage : TaskLineage;
  pt_revision : Z;
  pt_generation : Z;
  pt_task_status : DurableTaskStatus.t;
  pt_current_worker_id : option string;
  pt_handoff_target_worker_id : option string;
  pt_handoff_requested_at : option float;
  pt_completed_at : option float;
  pt_completion_ref : option string;
}.

Record Registry := mkRegistry {
  rg_tasks : gmap string TaskRecord;
  rg_workers : gmap string WorkerRecord;
  rg_window_bindings : gmap string WorkerWindowBinding;
  rg_probe_slots : gmap string ProbeWindowSlotBinding;
  rg_probe_ops : gmap string ProbeMutationOperation;
  rg_actions : gmap string ActionAttempt;
  rg_dispatches : gmap string ChildDispatchRecord;
  rg_replacements : gmap string ReplacementAttempt;
  rg_child_spawns : gmap string ChildSpawnRow;
  rg_watchdogs : gmap string WatchdogLease;
  rg_cooldowns : gmap string RuntimeCooldown;
  rg_capabilities : gmap string PageCapabilityRecord;
  rg_protocol_tasks : gmap string ProtocolTaskRow;
  rg_protocol_leases : gmap string WorkerLease;
  rg_protocol_events : list (nat * ProtocolEvent);
}.

#[export] Instance eta_Registry : Eta Registry := λ r,
  mkRegistry (rg_tasks r) (rg_workers r) (rg_window_bindings r) (rg_probe_slots r)
    (rg_probe_ops r) (rg_actions r) (rg_dispatches r) (rg_replacements r)
    (rg_child_spawns r) (rg_watchdogs r) (rg_cooldowns r) (rg_capabilities r)
    (rg_protocol_tasks r) (rg_protocol_leases r) (rg_protocol_events r).

Definition empty_registry : Registry := mkRegistry ∅ ∅ ∅ ∅ ∅ ∅ ∅ ∅ ∅ ∅ ∅ ∅ ∅ ∅ [].

(** ** Reading rows *)

(** [SELECT ... WHERE key = ?]; a missing row raises [KeyError]. *)
Definition fetch {A} (what : string) (m : gmap string A) (key : string) : res A :=
  match m !! key with
  | Some a => Ok a
  | None => raise KeyError ("unknown " +:+ what +:+ ": " +:+ key)
  end.

Lemma fetch_Ok {A} what (m : gmap string A) key a :
  fetch what m key = Ok a ↔ m !! key = Some a.
Proof. unfold fetch. destruct (m !! key); naive_solver. Qed.

(** The values of a table that satisfy a condition, in the order of the primary key. *)
Definition select {A} (p : A → bool) (m : gmap string A) : list A :=
  List.filter p (snd <$> py_sorted (leb_key fst) (map_to_list m)).

Lemma elem_of_select {A} (p : A → bool) (m : gmap string A) a :
  a ∈ select p m ↔ p a = true ∧ ∃ k, m !! k = Some a.
Proof.
  unfold select. rewrite list_elem_of_In, List.filter_In, <- list_elem_of_In,
    list_elem_of_fmap.
  setoid_rewrite elem_of_py_sorted. split.
  - intros ((kv & -> & Hkv) & Hp). split; [done|]. exists kv.1.
    apply elem_of_map_to_list. by destruct kv.
  - intros (Hp & k & Hk). split; [|done]. exists (k, a). by rewrite elem_of_map_to_list.
Qed.

(** [ORDER BY key DESC, primary key]. *)
Definition order_desc {A} (key : A → float) (l : list A) : list A :=
  py_sorted (λ x y, negb (flt (key x) (key y))) l.

(** A REAL NOT NULL column. *)
Definition real_not_null (f : float) : res unit :=
  raise_if (is_nan f) IntegrityError "NOT NULL constraint failed".

Definition get_task (r : Registry) (task_id : string) : res TaskRecord :=
  fetch "task" (rg_tasks r) task_id.

Definition get_worker (r : Registry) (worker_id : string) : res WorkerRecord :=
  fetch "worker" (rg_workers r) worker_id.

Definition get_probe_mutation_operation (r : Registry) (operation_id : string)
    : res ProbeMutationOperation :=
  fetch "probe mutation operation" (rg_probe_ops r) operation_id.

Definition get_action_attempt (r : Registry) (attempt_id : string) : res ActionAttempt :=
  fetch "action attempt" (rg_actions r) attempt_id.

Definition get_child_dispatch (r : Registry) (child_task_id : string)
    : res ChildDispatchRecord :=
  match select (λ d, String.eqb (cd_child_task_id d) child_task_id) (rg_dispatches r) with
  | d :: _ => Ok d
  | [] => raise KeyError ("unknown child dispatch: " +:+ child_task_id)
  end.

Lemma filter_unique {A} (p : A → bool) (l : list (string * A)) :
  NoDup l.*1 →
  (∀ x y, x ∈ l → y ∈ l → p x.2 = true → p y.2 = true → x.1 = y.1) →
  (length (List.filter p l.*2) ≤ 1)%nat.
Proof.
  induction l as [|[k a] l IH]; cbn; [lia|]. intros [Hni Hnd]%NoDup_cons Huniq.
  destruct (p a) eqn:Hp; cbn.
  - destruct (List.filter p l.*2) as [|b bs] eqn:E; cbn; [lia|].
    assert (b ∈ List.filter p l.*2) as Hb by (rewrite E; left).
    rewrite list_elem_of_In, List.filter_In, <- list_elem_of_In in Hb.
    destruct Hb as [([k' b'] & -> & Hin)%list_elem_of_fmap Hpb].
    exfalso. apply Hni. cbn in Hpb.
    specialize (Huniq (k, a) (k', b')). cbn in Huniq. rewrite Huniq; [|by left|by right|done..].
    by apply (list_elem_of_fmap_2 fst) in Hin.
  - apply IH; [done|]. intros x y Hx Hy. apply Huniq; by right.
Qed.

(** At most one row satisfies [p] when no two keys do. *)
Lemma select_unique {A} (p : A → bool) (m : gmap string A) :
  (∀ k1 k2 a1 a2, m !! k1 = Some a1 → m !! k2 = Some a2 → p a1 = true → p a2 = true →
     k1 = k2) →
  (length (select p m) ≤ 1)%nat.
Proof.
  intros Huniq. unfold select. apply filter_unique.
  - rewrite py_sorted_perm. apply NoDup_fst_map_to_list.
  - intros [k1 a1] [k2 a2]. rewrite !elem_of_py_sorted, !elem_of_map_to_list. cbn. eauto.
Qed.

Lemma select_nil {A} (p : A → bool) (m : gmap string A) :
  select p m = [] ↔ ∀ k a, m !! k = Some a → p a = false.
Proof.
  split.
  - intros Hs k a Ha. destruct (p a) eqn:Hp; [|done].
    assert (a ∈ select p m) as Hin by (apply elem_of_select; eauto).
    rewrite Hs in Hin. by apply not_elem_of_nil in Hin.
  - intros Hall. destruct (select p m) as [|a l] eqn:E; [done|].
    assert (a ∈ select p m) as Hin by (rewrite E; left).
    apply elem_of_select in Hin as (Hp & k & Hk). rewrite (Hall k a Hk) in Hp. done.
Qed.

(** A selection depends only on the rows that satisfy its condition. *)
Lemma select_ext {A} (p : A → bool) (m m' : gmap string A) :
  (∀ k a, p a = true → m !! k = Some a ↔ m' !! k = Some a) → select p m = select p m'.
Proof.
  intros Hext. set (q := λ ka : string * A, p ka.2).
  assert (∀ m : gmap string A, select p m =
    snd <$> List.filter q (py_sorted (leb_key fst) (map_to_list m))) as Hsel.
  { intros m0. unfold select, q. generalize (py_sorted (leb_key fst) (map_to_list m0)).
    induction l as [|[k a] l IH]; cbn; [done|]. destruct (p a); cbn; by rewrite IH. }
  rewrite !Hsel. f_equal.
  assert (∀ m : gmap string A, NoDup (List.filter q (py_sorted (leb_key fst) (map_to_list m)))) as Hnd.
  { intros m0. apply NoDup_filterb. rewrite py_sorted_perm. apply NoDup_map_to_list. }
  assert (∀ (m : gmap string A) ka, ka ∈ List.filter q (py_sorted (leb_key fst) (map_to_list m)) ↔
    p ka.2 = true ∧ m !! ka.1 = Some ka.2) as Hin.
  { intros m0 [k a]. rewrite list_elem_of_In, List.filter_In, <- list_elem_of_In,
      elem_of_py_sorted, elem_of_map_to_list. unfold q. cbn. naive_solver. }
  apply (sorted_by_key_unique fst).
  - apply filter_sorted, py_sorted_Sorted, leb_key_total.
  - apply filter_sorted, py_sorted_Sorted, leb_key_total.
  - intros [k1 a1] [k2 a2] [_ H1]%Hin [_ H2]%Hin. cbn in *. intros ->. congruence.
  - apply NoDup_Permutation; [done..|]. intros [k a]. rewrite !Hin. cbn.
    specialize (Hext k a). naive_solver.
Qed.

(** A table keyed by a field is selected in the order of that field. *)
Lemma select_sorted {A} (key : A → string) (p : A → bool) (m : gmap string A) :
  (∀ k a, m !! k = Some a → key a = k) →
  Sorted (λ a b, leb_key key a b = true) (select p m) ∧ NoDup (key <$> select p m).
Proof.
  intros Hkey. unfold select.
  assert (∀ ka, ka ∈ py_sorted (leb_key fst) (map_to_list m) → key ka.2 = ka.1) as Hall.
  { intros [k a]. rewrite elem_of_py_sorted, elem_of_map_to_list. apply Hkey. }
  pose proof (py_sorted_Sorted (leb_key fst) (leb_key_total fst) (map_to_list m)) as Hs.
  assert (NoDup (py_sorted (leb_key fst) (map_to_list m)).*1) as Hnd.
  { rewrite py_sorted_perm. apply NoDup_fst_map_to_list. }
  revert Hall Hs Hnd. generalize (py_sorted (leb_key fst) (map_to_list m)). intros l Hall Hs Hnd.
  assert (key <$> l.*2 = l.*1) as Hk.
  { clear -Hall. induction l as [|x l IH]; cbn; [done|].
    rewrite Hall by left. f_equal. apply IH. intros y Hy. apply Hall. by right. }
  split.
  - apply filter_sorted. clear Hnd Hk. induction Hs as [|x l Hs IH Hhd]; cbn; [constructor|].
    constructor; [apply IH; intros y Hy; apply Hall; by right|].
    destruct l as [|y l]; constructor. apply HdRel_inv in Hhd. unfold leb_key in *.
    rewrite !Hall; [done|by right; left|by left].
  - rewrite <- Hk in Hnd. clear -Hnd. induction (l.*2) as [|x xs IH]; cbn in *; [done|].
    apply NoDup_cons in Hnd as [Hni Hnd]. destruct (p x); cbn; [|auto].
    constructor; [|auto]. intros (y & Hy & Hin)%list_elem_of_fmap. apply Hni.
    rewrite list_elem_of_In, List.filter_In, <- list_elem_of_In in Hin. apply list_elem_of_fmap.
    exists y. by split; [|apply Hin].
Qed.
