(* ===== verification/ObsTable.v ===== *)
(** * A table of timed rows with bounded retention

    The four observation tables of the registry share one shape: an AUTOINCREMENT id, the
    entity that was observed, the time, and the payload.  A record appends a row and deletes
    the rows of the same entity that are not among its newest ones. *)

From S2P Require Import Prelude PyFloat PyStr Models Registry.

Open Scope Z_scope.
Open Scope list_scope.

(** The newest rows kept for one entity. *)
Definition OBSERVATION_RETENTION_PER_ENTITY : Z := 2000.

(** SQLite does not say which of the rows with equal times [ORDER BY time DESC LIMIT 1]
    returns: the choice, by row id, is a parameter. *)
Class TieOrder := {
  tie_pick : list Z → Z;
  tie_pick_elem : ∀ ids, ids ≠ [] → tie_pick ids ∈ ids;
}.

(** The row that was written last. *)
Definition newest_tie : TieOrder.
Proof.
  refine {| tie_pick := λ ids, default 0 (last ids) |}.
  intros ids. destruct ids as [|x ids] using rev_ind; [done|].
  intros _. rewrite last_snoc. cbn. apply elem_of_app. right. by left.
Defined.

Section Table.
Context {A : Type} (key : A → string) (time : A → float).

Definition row : Type := Z * A.

Record table := mkTable { tb_next : Z; tb_rows : list row }.

Definition empty_table : table := mkTable 1 [].

Definition rows_of (k : string) (rows : list row) : list row :=
  List.filter (λ x, String.eqb (key x.2) k) rows.

(** [ORDER BY time DESC, id DESC] *)
Definition row_leb (x y : row) : bool :=
  if flt (time x.2) (time y.2) then false
  else if flt (time y.2) (time x.2) then true
  else y.1 <=? x.1.

Definition newest_first (rows : list row) : list row := py_sorted row_leb rows.

(** The rows of [k] outside its [n] newest ones are deleted. *)
Definition retain (n : nat) (k : string) (rows : list row) : list row :=
  let kept := (take n (newest_first (rows_of k rows))).*1 in
  List.filter (λ x, negb (String.eqb (key x.2) k) || bool_decide (x.1 ∈ kept)) rows.

Definition append_row (t : table) (obs : A) : table :=
  mkTable (tb_next t + 1) (tb_rows t ++ [(tb_next t, obs)]).

Definition record_row (n : nat) (t : table) (obs : A) : res table :=
  real_not_null (time obs);;
  let t := append_row t obs in
  Ok (mkTable (tb_next t) (retain n (key obs) (tb_rows t))).

(** The rows with the greatest time. *)
Definition latest_ties (rows : list row) : list row :=
  List.filter (λ x, forallb (λ y, negb (flt (time x.2) (time y.2))) rows) rows.

(** [WHERE entity = ? ORDER BY time DESC LIMIT 1] *)
Definition latest_row `{TieOrder} (k : string) (t : table) : option A :=
  let ties := latest_ties (rows_of k (tb_rows t)) in
  snd <$> next_where (λ x, x.1 =? tie_pick ties.*1) ties.

(** [WHERE entity = ? ORDER BY time DESC, id DESC LIMIT ?] *)
Definition history (k : string) (limit : Z) (t : table) : list A :=
  (take (Z.to_nat limit) (newest_first (rows_of k (tb_rows t)))).*2.

(** ** The order of the rows *)

Lemma Sorted_take (R : row → row → Prop) n l : Sorted R l → Sorted R (take n l).
Proof using Type.
  intros Hs. revert n. induction Hs as [|x l Hs IH Hd]; intros n; [by rewrite take_nil|].
  destruct n as [|n]; [constructor|]. cbn. constructor; [apply IH|].
  destruct Hd; [rewrite take_nil|destruct n; cbn]; by constructor.
Qed.

Definition real_rows (rows : list row) : Prop := ∀ x, x ∈ rows → is_nan (time x.2) = false.

Lemma row_leb_total x y : row_leb x y = true ∨ row_leb y x = true.
Proof using Type.
  unfold row_leb. destruct (flt (time x.2) (time y.2)) eqn:E1.
  - right. by rewrite (fle_not_flt _ _ (flt_fle _ _ E1)).
  - destruct (flt (time y.2) (time x.2)); [by left|]. rewrite !Z.leb_le. lia.
Qed.

Definition row_key (x : row) : Z * Z * Z := default (0, 0, 0) (fkey (time x.2)).

Definition row_le (x y : row) : Prop :=
  key_lt (row_key y) (row_key x) ∨ (row_key x = row_key y ∧ y.1 <= x.1).

#[local] Instance row_le_transitive : Transitive row_le.
Proof using Type.
  intros x y z. unfold row_le.
  destruct (row_key x) as [[]], (row_key y) as [[]], (row_key z) as [[]]. cbn.
  intros [H1|[E1 H1]] [H2|[E2 H2]]; simplify_eq; first [left; lia|right; split; [done|lia]].
Qed.

Lemma row_le_antisym x y : row_le x y → row_le y x → x.1 = y.1.
Proof using Type.
  unfold row_le. destruct (row_key x) as [[]], (row_key y) as [[]]. cbn.
  intros [H1|[E1 H1]] [H2|[E2 H2]]; simplify_eq; lia.
Qed.

Lemma flt_row_key x y :
  is_nan (time x.2) = false → is_nan (time y.2) = false →
  flt (time x.2) (time y.2) = true ↔ key_lt (row_key x) (row_key y).
Proof using Type.
  intros (a & Ha)%real_key (b & Hb)%real_key. unfold row_key. rewrite flt_key, Ha, Hb. cbn.
  split; [by intros (? & ? & [= <-] & [= <-] & ?)|eauto].
Qed.

Lemma row_leb_le x y :
  is_nan (time x.2) = false → is_nan (time y.2) = false → row_leb x y = true ↔ row_le x y.
Proof using Type.
  intros Hx Hy. unfold row_leb, row_le.
  pose proof (flt_row_key x y Hx Hy) as H1. pose proof (flt_row_key y x Hy Hx) as H2.
  destruct (flt (time x.2) (time y.2)).
  - split; [done|]. destruct H1 as [H1 _]. specialize (H1 eq_refl).
    destruct (row_key x) as [[]], (row_key y) as [[]]. cbn in *. intros [?|[E ?]]; simplify_eq; lia.
  - destruct (flt (time y.2) (time x.2)).
    + split; [|done]. intros _. left. by apply H2.
    + rewrite Z.leb_le. assert (¬ key_lt (row_key x) (row_key y)) as N1 by (by rewrite <- H1).
      assert (¬ key_lt (row_key y) (row_key x)) as N2 by (by rewrite <- H2).
      destruct (key_lt_total (row_key x) (row_key y)) as [?|[E|?]]; [done| |done].
      split; [by right|by intros [?|[_ ?]]].
Qed.

Lemma newest_sorted rows : real_rows rows → Sorted row_le (newest_first rows).
Proof using Type.
  intros Hr. assert (Sorted (λ x y, row_leb x y = true) (newest_first rows)) as Hs
    by apply py_sorted_Sorted, row_leb_total.
  assert (∀ x, x ∈ newest_first rows → is_nan (time x.2) = false) as Hall.
  { intros x Hx%elem_of_py_sorted. auto. }
  revert Hs Hall. generalize (newest_first rows). intros l Hs Hall.
  induction Hs as [|x l Hs IH Hd]; constructor.
  - apply IH. intros y Hy. apply Hall. by right.
  - destruct Hd as [|y l Hxy]; constructor. apply row_leb_le; [| |done]; apply Hall;
      [by left|by right; left].
Qed.

Lemma ids_unique (rows : list row) x y : NoDup rows.*1 → x ∈ rows → y ∈ rows → x.1 = y.1 → x = y.
Proof using Type. apply NoDup_fmap_elem. Qed.

(** Rows with distinct ids have one order. *)
Lemma newest_unique l1 l2 :
  real_rows l1 → NoDup l1.*1 → l1 ≡ₚ l2 → Sorted row_le l1 → Sorted row_le l2 → l1 = l2.
Proof using Type.
  intros Hr Hnd Hp H1 H2. pose proof row_le_transitive as T.
  eapply Sorted_unique_strong; try done. intros x y Hx Hy Hxy Hyx.
  rewrite <- Hp in Hy. apply (ids_unique l1); [done..|]. by apply row_le_antisym.
Qed.

Lemma newest_perm l1 l2 :
  real_rows l1 → NoDup l1.*1 → l1 ≡ₚ l2 → newest_first l1 = newest_first l2.
Proof using Type.
  intros Hr Hnd Hp. apply newest_unique.
  - intros x Hx%elem_of_py_sorted. auto.
  - unfold newest_first. by rewrite py_sorted_perm.
  - unfold newest_first. by rewrite !py_sorted_perm.
  - by apply newest_sorted.
  - apply newest_sorted. intros x Hx. apply Hr. by rewrite Hp.
Qed.

(** ** The newest rows of a longer list *)

Lemma take_insert n x (l : list row) :
  take n (insert_sorted row_leb x (take n l)) = take n (insert_sorted row_leb x l).
Proof using Type.
  revert n. induction l as [|y l IH]; intros n; [by rewrite take_nil|].
  destruct n as [|n]; [done|]. cbn. destruct (row_leb x y); cbn.
  - destruct n as [|n]; [done|]. cbn. by rewrite take_take, Nat.min_l by lia.
  - by rewrite IH.
Qed.

(** Keeping the [n] newest rows before a row arrives does not change which are kept after. *)
Lemma newest_snoc n l x :
  real_rows (l ++ [x]) → NoDup (l ++ [x]).*1 →
  take n (newest_first (take n (newest_first l) ++ [x])) = take n (newest_first (l ++ [x])).
Proof using Type.
  intros Hr Hnd.
  assert (real_rows l) as Hrl by (intros y Hy; apply Hr, elem_of_app; by left).
  assert (NoDup l.*1) as Hndl by (rewrite fmap_app in Hnd; by apply NoDup_app in Hnd as [? _]).
  assert (newest_first (l ++ [x]) = insert_sorted row_leb x (newest_first l)) as ->.
  { symmetry. apply (newest_perm (x :: l)); [| |by rewrite Permutation_cons_append].
    - intros y Hy. apply Hr. by rewrite <- Permutation_cons_append.
    - by rewrite Permutation_cons_append. }
  set (top := take n (newest_first l)).
  assert (newest_first (top ++ [x]) = insert_sorted row_leb x top) as ->; [|apply take_insert].
  assert (newest_first top = top) as Etop.
  { apply py_sorted_id, Sorted_take, py_sorted_Sorted, row_leb_total. }
  assert (top ++ [x] ⊆+ l ++ [x]) as Hsub.
  { apply submseteq_app; [|done]. unfold top. transitivity (newest_first l).
    - apply sublist_submseteq, sublist_take.
    - by rewrite (py_sorted_perm row_leb l). }
  apply submseteq_Permutation in Hsub as [rest Hp].
  rewrite <- Etop at 2. symmetry. apply (newest_perm (x :: top)).
  - intros y Hy. apply Hr. rewrite Hp. apply elem_of_app. left. by rewrite <- Permutation_cons_append.
  - rewrite Hp, fmap_app in Hnd. apply NoDup_app in Hnd as [Hnd _]. by rewrite Permutation_cons_append.
  - by rewrite Permutation_cons_append.
Qed.

(** ** Retention *)

Lemma elem_of_rows_of k x rows : x ∈ rows_of k rows ↔ x ∈ rows ∧ key x.2 = k.
Proof using Type.
  unfold rows_of. rewrite !list_elem_of_In, List.filter_In, String.eqb_eq. done.
Qed.

Lemma rows_of_app k l1 l2 : rows_of k (l1 ++ l2) = rows_of k l1 ++ rows_of k l2.
Proof using Type. apply List.filter_app. Qed.

Lemma rows_of_row k x : rows_of k [x] = if String.eqb (key x.2) k then [x] else [].
Proof using Type. done. Qed.

Lemma filter_sublist {B} (p : B → bool) l : List.filter p l `sublist_of` l.
Proof using Type. induction l as [|x l IH]; cbn; [done|]. destruct (p x); by constructor. Qed.

Lemma rows_of_retain n k j rows :
  rows_of j (retain n k rows) =
  if decide (j = k)
  then List.filter (λ x, bool_decide (x.1 ∈ (take n (newest_first (rows_of k rows))).*1))
         (rows_of k rows)
  else rows_of j rows.
Proof using Type.
  unfold retain. cbv zeta. generalize ((take n (newest_first (rows_of k rows))).*1). intros kept. unfold rows_of.
  case_decide as E; [subst j|]; induction rows as [|x rows IH]; cbn; try done.
  - destruct (String.eqb (key x.2) k) eqn:Ek; cbn; [|by rewrite Ek].
    case_bool_decide; cbn; rewrite ?Ek, IH; done.
  - destruct (String.eqb (key x.2) k) eqn:Ek; cbn.
    + apply String.eqb_eq in Ek. assert (String.eqb (key x.2) j = false) as Hj.
      { apply String.eqb_neq. congruence. }
      rewrite Hj. case_bool_decide; cbn; by rewrite ?Hj, IH.
    + by rewrite IH.
Qed.

(** The rows with the ids of a part are that part. *)
Lemma kept_rows n rows :
  real_rows rows → NoDup rows.*1 →
  newest_first (List.filter (λ x, bool_decide (x.1 ∈ (take n (newest_first rows)).*1)) rows) =
  take n (newest_first rows).
Proof using Type.
  intros Hr Hnd. set (top := take n (newest_first rows)).
  assert (top ⊆+ rows) as Htop.
  { unfold top. transitivity (newest_first rows); [apply sublist_submseteq, sublist_take|].
    by rewrite (py_sorted_perm row_leb rows). }
  assert (∀ x, x ∈ top → x ∈ rows) as Hin by (intros x Hx; by eapply elem_of_submseteq).
  assert (newest_first top = top) as Etop.
  { apply py_sorted_id, Sorted_take, py_sorted_Sorted, row_leb_total. }
  transitivity (newest_first top); [symmetry|done]. apply newest_perm.
  - intros x Hx. auto.
  - apply submseteq_Permutation in Htop as [rest Hp]. rewrite Hp, fmap_app in Hnd.
    by apply NoDup_app in Hnd as [? _].
  - apply NoDup_Permutation.
    + apply NoDup_fmap_1 with (f := fst). apply submseteq_Permutation in Htop as [rest Hp].
      rewrite Hp, fmap_app in Hnd. by apply NoDup_app in Hnd as [? _].
    + apply NoDup_filterb. by eapply NoDup_fmap_1.
    + intros x. rewrite elem_of_filterb, bool_decide_eq_true.
      split; [intros Hx; split; [auto|by apply list_elem_of_fmap_2]|].
      intros [Hx (y & E & Hy)%list_elem_of_fmap]. assert (x = y) as -> by (apply (ids_unique rows); auto). done.
Qed.

Lemma real_sublist l1 l2 : l1 `sublist_of` l2 → real_rows l2 → real_rows l1.
Proof using Type. intros Hs Hr x Hx. apply Hr. by eapply elem_of_sublist. Qed.

Lemma ids_sublist (l1 l2 : list row) : l1 `sublist_of` l2 → NoDup l2.*1 → NoDup l1.*1.
Proof using Type.
  intros Hs Hnd. by eapply sublist_NoDup, fmap_sublist.
Qed.

(** The rows kept of a log that nothing was ever deleted from. *)
Record retained (n : nat) (t log : table) : Prop := {
  re_next : tb_next t = tb_next log;
  re_ids : NoDup (tb_rows log).*1;
  re_below : ∀ x, x ∈ tb_rows log → x.1 < tb_next log;
  re_real : real_rows (tb_rows log);
  re_sub : tb_rows t `sublist_of` tb_rows log;
  re_newest : ∀ k, newest_first (rows_of k (tb_rows t)) =
                   take n (newest_first (rows_of k (tb_rows log)));
}.

Lemma retained_empty n : retained n empty_table empty_table.
Proof using Type.
  split; cbn; try done; [constructor|by intros x ?%not_elem_of_nil..|].
  intros k. by rewrite take_nil.
Qed.

Lemma retained_record n t log obs t' :
  retained n t log → record_row n t obs = Ok t' → retained n t' (append_row log obs).
Proof using Type.
  intros [En Hnd Hb Hr Hs Hk] [Hreal%raise_if_Ok [= <-]]%unit_bind_Ok.
  assert (NoDup (tb_rows log ++ [(tb_next t, obs)]).*1) as Hnd1.
  { rewrite fmap_app. apply NoDup_app. split; [done|]. split; [|apply NoDup_singleton].
    intros i ([j b] & -> & Hx)%list_elem_of_fmap Hj%list_elem_of_singleton. apply Hb in Hx.
    cbn in Hx, Hj. lia. }
  assert (real_rows (tb_rows log ++ [(tb_next t, obs)])) as Hr1.
  { intros x [Hx| ->%list_elem_of_singleton]%elem_of_app; [auto|done]. }
  assert (tb_rows t ++ [(tb_next t, obs)] `sublist_of` tb_rows log ++ [(tb_next t, obs)]) as Hs1
    by by apply sublist_app.
  unfold append_row. rewrite <- En. constructor; cbn [tb_next tb_rows append_row]; [done|done| |done| |].
  - intros x [Hx%Hb| ->%list_elem_of_singleton]%elem_of_app; cbn; lia.
  - etrans; [apply filter_sublist|done].
  - intros k. rewrite rows_of_retain, !rows_of_app, !rows_of_row. cbn [snd].
    case_decide as E.
    + subst k. rewrite String.eqb_refl. set (x := (tb_next t, obs)) in *.
      set (L := rows_of (key obs) (tb_rows t) ++ [x]).
      set (M := rows_of (key obs) (tb_rows log) ++ [x]).
      assert (L `sublist_of` tb_rows log ++ [x]) as HL.
      { apply sublist_app; [|done]. etrans; [apply filter_sublist|done]. }
      assert (M `sublist_of` tb_rows log ++ [x]) as HM by (apply sublist_app; [apply filter_sublist|done]).
      rewrite kept_rows by (by eapply real_sublist || by eapply ids_sublist).
      change (take n (newest_first L) = take n (newest_first M)).
      assert (newest_first L = newest_first (newest_first (rows_of (key obs) (tb_rows t)) ++ [x])) as ->.
      { apply newest_perm; [by eapply real_sublist|by eapply ids_sublist|].
        unfold newest_first. by rewrite py_sorted_perm. }
      rewrite Hk. apply newest_snoc; [by eapply real_sublist|by eapply ids_sublist].
    + assert (String.eqb (key obs) k = false) as -> by (apply String.eqb_neq; congruence).
      by rewrite !app_nil_r.
Qed.

(** A record refused for its time leaves both tables alone. *)
Definition record_or_stay (n : nat) (t : table) (obs : A) : table :=
  match record_row n t obs with Ok t' => t' | Err _ => t end.

Definition log_or_stay (t : table) (obs : A) : table :=
  if is_nan (time obs) then t else append_row t obs.

Lemma retained_step n t log obs :
  retained n t log → retained n (record_or_stay n t obs) (log_or_stay log obs).
Proof using Type.
  intros Hr. unfold record_or_stay, log_or_stay.
  destruct (record_row n t obs) as [t'|e] eqn:E.
  - pose proof E as [Hn%raise_if_Ok _]%unit_bind_Ok. rewrite Hn. by eapply retained_record.
  - unfold record_row, real_not_null in E. by destruct (is_nan (time obs)).
Qed.

(** ** The latest row *)

(** Among the rows of a log no row is later than a kept one of the newest. *)
Lemma newest_split n rows x y :
  real_rows rows → x ∈ take n (newest_first rows) → y ∈ drop n (newest_first rows) →
  flt (time x.2) (time y.2) = false.
Proof using Type.
  intros Hr Hx Hy. pose proof (newest_sorted rows Hr) as Hs.
  apply Sorted_StronglySorted in Hs; [|exact row_le_transitive].
  assert (∀ z, z ∈ newest_first rows → is_nan (time z.2) = false) as Hall
    by (intros z Hz%elem_of_py_sorted; auto).
  rewrite <- (take_drop n (newest_first rows)) in Hs, Hall.
  revert Hs Hx Hy Hall. generalize (take n (newest_first rows)) (drop n (newest_first rows)).
  intros l1 l2 Hs Hx Hy Hall. induction l1 as [|z l1 IH]; [by apply not_elem_of_nil in Hx|].
  cbn in Hs. apply StronglySorted_inv in Hs as [Hs Hz].
  apply elem_of_cons in Hx as [->|Hx]; [|apply IH; [done..|intros; apply Hall; by right]].
  rewrite Forall_forall in Hz. assert (y ∈ l1 ++ l2) as Hy' by (apply elem_of_app; by right).
  specialize (Hz y Hy'). apply row_leb_le in Hz; [|apply Hall; by left|apply Hall; by right].
  unfold row_leb in Hz. by destruct (flt (time z.2) (time y.2)).
Qed.

Lemma latest_row_Some `{TieOrder} k t a :
  latest_row k t = Some a →
  ∃ i, (i, a) ∈ rows_of k (tb_rows t) ∧
    ∀ y, y ∈ rows_of k (tb_rows t) → flt (time a) (time y.2) = false.
Proof using Type.
  unfold latest_row. cbv zeta. intros ([i b] & [Hin _]%next_where_Some & E)%fmap_Some. cbn in E. subst b.
  apply elem_of_filterb in Hin as [Hin Hmax]. exists i. split; [done|]. intros y Hy.
  rewrite forallb_forall in Hmax. apply negb_true_iff. apply (Hmax y). by apply list_elem_of_In.
Qed.

Lemma latest_row_None `{TieOrder} k t :
  real_rows (tb_rows t) → latest_row k t = None → rows_of k (tb_rows t) = [].
Proof using Type.
  unfold latest_row. cbv zeta. intros Hr E%fmap_None. set (rows := rows_of k (tb_rows t)) in *.
  assert (real_rows rows) as Hrk by (intros x [Hx _]%elem_of_rows_of; auto).
  destruct (newest_first rows) as [|x l] eqn:En.
  { apply Permutation_nil_r. rewrite <- En. symmetry. apply py_sorted_perm. }
  exfalso. set (ties := latest_ties rows) in *.
  assert (x ∈ ties) as Hx.
  { apply elem_of_filterb. split; [apply (elem_of_py_sorted row_leb); unfold newest_first in En; rewrite En; by left|].
    apply forallb_forall. intros y Hy%list_elem_of_In. apply negb_true_iff.
    apply (elem_of_py_sorted row_leb) in Hy. unfold newest_first in En. rewrite En in Hy.
    apply elem_of_cons in Hy as [->|Hy]; [apply flt_irrefl|].
    apply (newest_split 1 rows); [done|unfold newest_first; rewrite En; by left|].
    by unfold newest_first; rewrite En. }
  assert (ties.*1 ≠ []) as Hne by (destruct ties; [by apply not_elem_of_nil in Hx|done]).
  pose proof (tie_pick_elem _ Hne) as ([i a] & Ei & Hia)%list_elem_of_fmap.
  pose proof (next_where_None _ _ E _ Hia) as Hf. cbn in Hf, Ei.
  by rewrite <- Ei, Z.eqb_refl in Hf.
Qed.

(** The latest row of a table with bounded retention is a latest row of the whole log. *)
Lemma retained_latest `{TieOrder} n t log k :
  retained (S n) t log →
  match latest_row k t with
  | Some a => ∃ i, (i, a) ∈ rows_of k (tb_rows log) ∧
                ∀ y, y ∈ rows_of k (tb_rows log) → flt (time a) (time y.2) = false
  | None => rows_of k (tb_rows log) = []
  end.
Proof using Type.
  intros R. pose proof (re_newest _ _ _ R k) as Hk.
  assert (real_rows (rows_of k (tb_rows log))) as Hrl
    by (intros x [Hx _]%elem_of_rows_of; by apply (re_real _ _ _ R)).
  assert (∀ x, x ∈ rows_of k (tb_rows t) ↔ x ∈ take (S n) (newest_first (rows_of k (tb_rows log)))) as Hin.
  { intros x. rewrite <- Hk. symmetry. apply elem_of_py_sorted. }
  destruct (latest_row k t) as [a|] eqn:E.
  - apply latest_row_Some in E as (i & Ha & Hmax). exists i. apply Hin in Ha as Ht.
    split. { apply (elem_of_py_sorted row_leb). by eapply elem_of_sublist, sublist_take. }
    intros y Hy. apply (elem_of_py_sorted row_leb) in Hy. fold (newest_first) in Hy.
    rewrite <- (take_drop (S n) (py_sorted row_leb (rows_of k (tb_rows log)))) in Hy.
    apply elem_of_app in Hy as [Hy|Hy]; [by apply Hmax, Hin|].
    by apply (newest_split (S n) (rows_of k (tb_rows log)) (i, a) y).
  - apply latest_row_None in E.
    + rewrite E in Hk. apply Permutation_nil_r.
      rewrite <- (py_sorted_perm row_leb (rows_of k (tb_rows log))).
      unfold newest_first in Hk. by destruct (py_sorted row_leb (rows_of k (tb_rows log))).
    + eapply real_sublist; [apply R|apply R].
Qed.

End Table.
