(* ===== verification/Observations.v ===== *)
(** * The observation tables of registry.py

    What the supervisor has seen: browser, network, session and workspace observations with
    bounded retention, the reconciliation records, the log of recovery advice and the jobs
    tracked for a task.  The tables lie beside the [Registry] in the same database; a foreign
    key to a worker or task makes an insert for an unknown one an [IntegrityError]. *)

From S2P Require Import Prelude PyFloat PyStr PyJson Models Registry ObsTable.

Open Scope string_scope.
Open Scope Z_scope.
Open Scope list_scope.

(** A row of [recovery_events]. *)
Record RecoveryEvent := mkRecoveryEvent {
  ve_task_id : string;
  ve_created_at : float;
  ve_action : string;
  ve_safe_to_dispatch : bool;
  ve_reason : string;
  ve_payload : dict;
}.

Record Observations := mkObservations {
  ob_browser : @table BrowserObservation;
  ob_network : @table NetworkObservation;
  ob_lsm : @table LsmObservation;
  ob_workspace : @table WorkspaceObservation;
  ob_reconciliations : @table ReconciliationRecord;
  ob_recoveries : @table RecoveryEvent;
  ob_jobs : gset (string * string);
}.

#[export] Instance eta_Observations : Eta Observations := λ o,
  mkObservations (ob_browser o) (ob_network o) (ob_lsm o) (ob_workspace o)
    (ob_reconciliations o) (ob_recoveries o) (ob_jobs o).

Definition no_observations : Observations :=
  mkObservations empty_table empty_table empty_table empty_table empty_table empty_table ∅.

Definition retention : nat := Z.to_nat OBSERVATION_RETENTION_PER_ENTITY.

Definition foreign_key (known : bool) : res unit :=
  raise_if (negb known) IntegrityError "FOREIGN KEY constraint failed".

(** ** Browser observations *)

Definition record_browser_observation (o : Observations) (r : Registry) (obs : BrowserObservation)
    : res (Observations * Registry) :=
  t ← record_row bo_worker_id bo_observed_at retention (ob_browser o) obs;
  match rg_workers r !! bo_worker_id obs with
  | None => raise IntegrityError "FOREIGN KEY constraint failed"
  | Some w =>
      Ok (o <| ob_browser := t |>,
          r <| rg_workers := <[bo_worker_id obs :=
                 w <| wr_last_seen_at := Some (bo_observed_at obs) |>]> (rg_workers r) |>)
  end.

Definition latest_browser_observation `{TieOrder} (o : Observations) (worker_id : option string)
    : option BrowserObservation :=
  if opt_truthy worker_id
  then latest_row bo_worker_id bo_observed_at (default "" worker_id) (ob_browser o)
  else None.

Definition browser_observation_history (o : Observations) (worker_id : option string) (limit : Z)
    : list BrowserObservation :=
  if opt_truthy worker_id
  then history bo_worker_id bo_observed_at (default "" worker_id)
         (Z.max 1 (Z.min limit OBSERVATION_RETENTION_PER_ENTITY)) (ob_browser o)
  else [].

(** ** Network, session and workspace observations *)

Definition record_network_observation (o : Observations) (r : Registry) (obs : NetworkObservation)
    : res Observations :=
  t ← record_row no_worker_id no_observed_at retention (ob_network o) obs;
  foreign_key (bool_decide (is_Some (rg_workers r !! no_worker_id obs)));;
  Ok (o <| ob_network := t |>).

Definition latest_network_observation `{TieOrder} (o : Observations) (worker_id : option string)
    : option NetworkObservation :=
  if opt_truthy worker_id
  then latest_row no_worker_id no_observed_at (default "" worker_id) (ob_network o)
  else None.

Definition record_lsm_observation (o : Observations) (r : Registry) (obs : LsmObservation)
    : res Observations :=
  t ← record_row lo_task_id lo_observed_at retention (ob_lsm o) obs;
  foreign_key (bool_decide (is_Some (rg_tasks r !! lo_task_id obs)));;
  Ok (o <| ob_lsm := t |>).

Definition latest_lsm_observation `{TieOrder} (o : Observations) (task_id : string)
    : option LsmObservation :=
  latest_row lo_task_id lo_observed_at task_id (ob_lsm o).

Definition record_workspace_observation (o : Observations) (r : Registry)
    (obs : WorkspaceObservation) : res Observations :=
  t ← record_row wo_task_id wo_observed_at retention (ob_workspace o) obs;
  foreign_key (bool_decide (is_Some (rg_tasks r !! wo_task_id obs)));;
  Ok (o <| ob_workspace := t |>).

Definition latest_workspace_observation `{TieOrder} (o : Observations) (task_id : string)
    : option WorkspaceObservation :=
  latest_row wo_task_id wo_observed_at task_id (ob_workspace o).

(** ** Reconciliation records *)

Definition record_reconciliation (o : Observations) (r : Registry) (record : ReconciliationRecord)
    : res Observations :=
  get_task r (rc_task_id record) ≫= λ _,
  real_not_null (rc_created_at record);;
  raise_if (existsb (λ x, String.eqb (rc_reconcile_id x.2) (rc_reconcile_id record))
              (tb_rows (ob_reconciliations o))) IntegrityError
    "UNIQUE constraint failed: reconciliation_records.reconcile_id";;
  Ok (o <| ob_reconciliations := append_row (ob_reconciliations o) record |>).

Definition reconciliation_history (o : Observations) (r : Registry) (task_id : string) (limit : Z)
    : res (list ReconciliationRecord) :=
  get_task r task_id ≫= λ _,
  Ok (history rc_task_id rc_created_at task_id (Z.max 1 (Z.min limit 200)) (ob_reconciliations o)).

Definition latest_reconciliation (o : Observations) (r : Registry) (task_id : string)
    : res (option ReconciliationRecord) :=
  get_task r task_id ≫= λ _,
  Ok (head (history rc_task_id rc_created_at task_id 1 (ob_reconciliations o))).

(** ** Recovery advice and tracked jobs *)

(** [now] is the clock. *)
Definition record_recovery_event (o : Observations) (r : Registry) (task_id action : string)
    (safe_to_dispatch : bool) (reason : string) (payload : dict) (now : float)
    : res Observations :=
  get_task r task_id ≫= λ _,
  real_not_null now;;
  Ok (o <| ob_recoveries := append_row (ob_recoveries o)
             (mkRecoveryEvent task_id now action safe_to_dispatch reason payload) |>).

(** [ORDER BY created_at DESC]; rows of equal times in the order of their ids. *)
Definition recovery_history (o : Observations) (r : Registry) (task_id : string) (limit : Z)
    : res (list RecoveryEvent) :=
  get_task r task_id ≫= λ _,
  Ok (take (Z.to_nat (Z.max 1 (Z.min limit 200)))
        (order_desc ve_created_at (rows_of ve_task_id task_id (tb_rows (ob_recoveries o))).*2)).

Definition track_job (o : Observations) (r : Registry) (task_id job_id : string)
    : res Observations :=
  get_task r task_id ≫= λ _,
  Ok (o <| ob_jobs := {[(task_id, job_id)]} ∪ ob_jobs o |>).

Definition tracked_jobs (o : Observations) (task_id : string) : list string :=
  py_sorted (leb_key id)
    (List.filter (λ x, String.eqb x.1 task_id) (elements (ob_jobs o))).*2.

(** ** Runs *)

(** Observations arrive one after the other, each at the registry of its time; one that is
    refused writes nothing. *)
Definition observe (o : Observations) (call : Registry * BrowserObservation) : Observations :=
  match record_browser_observation o call.1 call.2 with
  | Ok (o', _) => o'
  | Err _ => o
  end.

Definition observe_run (o : Observations) (calls : list (Registry * BrowserObservation))
    : Observations := foldl observe o calls.

(** The observations that were accepted, numbered in the order of their arrival. *)
Definition accepted_log (calls : list (Registry * BrowserObservation))
    : list (Z * BrowserObservation) :=
  let accepted := List.filter (λ c, negb (is_nan (bo_observed_at c.2)) &&
    bool_decide (is_Some (rg_workers c.1 !! bo_worker_id c.2))) calls in
  imap (λ i c, (Z.of_nat i + 1, c.2)) accepted.

Lemma accepted_log_snoc calls c :
  accepted_log (calls ++ [c]) =
  accepted_log calls ++
  if negb (is_nan (bo_observed_at c.2)) &&
     bool_decide (is_Some (rg_workers c.1 !! bo_worker_id c.2))
  then [(Z.of_nat (length (accepted_log calls)) + 1, c.2)] else [].
Proof.
  unfold accepted_log. cbv zeta. rewrite List.filter_app. cbn [List.filter].
  destruct (negb _ && _); rewrite ?app_nil_r; [|done].
  rewrite imap_app, length_imap. cbn. by rewrite Nat.add_0_r.
Qed.

Lemma observe_refused o c :
  negb (is_nan (bo_observed_at c.2)) &&
    bool_decide (is_Some (rg_workers c.1 !! bo_worker_id c.2)) = false → observe o c = o.
Proof.
  intros E. unfold observe. destruct (record_browser_observation o c.1 c.2) as [[o' r']|] eqn:H; [|done].
  apply bind_Ok_inv in H as (t & [Hn%raise_if_Ok _]%unit_bind_Ok & H). rewrite Hn in E. cbn in E.
  apply bool_decide_eq_false in E. destruct (rg_workers c.1 !! bo_worker_id c.2); [|done].
  destruct E. eauto.
Qed.

Lemma observe_accepted o c :
  negb (is_nan (bo_observed_at c.2)) &&
    bool_decide (is_Some (rg_workers c.1 !! bo_worker_id c.2)) = true →
  record_row bo_worker_id bo_observed_at retention (ob_browser o) c.2 =
    Ok (ob_browser (observe o c)).
Proof.
  intros [Hn%negb_true_iff (w & Hw)%bool_decide_eq_true]%andb_true_iff.
  unfold observe, record_browser_observation.
  destruct (record_row _ _ _ (ob_browser o) c.2) as [t|] eqn:E.
  - rewrite Ok_bind, Hw. done.
  - unfold record_row, real_not_null in E. by rewrite Hn in E.
Qed.

Lemma observe_run_retained calls :
  retained bo_worker_id bo_observed_at retention (ob_browser (observe_run no_observations calls))
    (mkTable (Z.of_nat (length (accepted_log calls)) + 1) (accepted_log calls)).
Proof.
  induction calls as [|c calls IH] using rev_ind; [apply retained_empty|].
  unfold observe_run. rewrite foldl_app. cbn [foldl]. fold (observe_run no_observations calls).
  rewrite accepted_log_snoc. destruct (negb _ && _) eqn:E.
  - eapply retained_record in IH; [|by apply observe_accepted]. unfold append_row in IH. cbn in IH.
    rewrite length_app. cbn [length]. by rewrite Nat2Z.inj_add.
  - by rewrite app_nil_r, observe_refused.
Qed.

(** Bounded retention loses nothing that a reader can ask for: after any sequence of
    observations of any workers, refused ones included, the history of a worker is the
    newest part of everything ever accepted for it, in order, up to the limit and the
    retention; and its latest observation is one that nothing accepted for it is later
    than, however equal times are resolved. *)
Theorem observation_history_is_complete `{TieOrder} calls worker_id limit :
  let o := observe_run no_observations calls in
  let seen := rows_of bo_worker_id (default "" worker_id) (accepted_log calls) in
  browser_observation_history o worker_id limit =
    (if opt_truthy worker_id
     then (take (Z.to_nat (Z.max 1 (Z.min limit OBSERVATION_RETENTION_PER_ENTITY)))
             (newest_first bo_observed_at seen)).*2
     else []) ∧
  match latest_browser_observation o worker_id with
  | Some obs => obs ∈ seen.*2 ∧
      ∀ other, other ∈ seen.*2 → flt (bo_observed_at obs) (bo_observed_at other) = false
  | None => opt_truthy worker_id = false ∨ seen = []
  end.
Proof.
  intros o seen. pose proof (observe_run_retained calls) as R. fold o in R.
  unfold browser_observation_history, latest_browser_observation.
  destruct (opt_truthy worker_id); [|split; [done|by left]]. split.
  - unfold history. rewrite (re_newest _ _ _ _ _ R). cbn [tb_rows]. rewrite take_take.
    rewrite Nat.min_l; [done|].
    unfold retention, OBSERVATION_RETENTION_PER_ENTITY. apply Z2Nat.inj_le; lia.
  - assert (retention = S (pred retention)) as E by (vm_compute; reflexivity). rewrite E in R.
    apply (retained_latest _ _ _ _ _ (default "" worker_id)) in R. cbn [tb_rows] in R.
    destruct (latest_row _ _ _ _) as [obs|]; [|by right]. destruct R as (i & Hin & Hmax). split.
    + by apply (list_elem_of_fmap_2 snd) in Hin.
    + intros other (y & -> & Hy)%list_elem_of_fmap. by apply Hmax.
Qed.

Definition seen_at (worker : string) (at_ : float) (generating : bool) : BrowserObservation :=
  mkBrowserObservation worker at_ None (Some generating) None None None None None [].

Definition one_worker : Registry :=
  empty_registry <| rg_workers := {["w" := mkWorkerRecord "w" "t" "u" None WorkerStatus.ACTIVE (of_Z 0)
    None None]} |>.

(** Two observations of a known worker out of order, one without a time and one of a worker
    nobody registered. *)
Definition demo_calls : list (Registry * BrowserObservation) :=
  [(one_worker, seen_at "w" (of_Z 20) true); (one_worker, seen_at "w" fnan true);
   (one_worker, seen_at "x" (of_Z 30) true); (one_worker, seen_at "w" (of_Z 10) false)].

Lemma observation_history_is_complete_witness :
  browser_observation_history (observe_run no_observations demo_calls) (Some "w") 5 =
    [seen_at "w" (of_Z 20) true; seen_at "w" (of_Z 10) false].
Proof.
  pose (T := newest_tie).
  destruct (observation_history_is_complete demo_calls (Some "w") 5) as [H _].
  etransitivity; [exact H|]. vm_compute. reflexivity.
Defined.
