(* ===== verification/Persistence.v ===== *)
(** * worker_persistence.py: the lease protocol in the database

    A snapshot of the pure protocol is stored as one row of [worker_protocol_tasks] and one
    row of [worker_protocol_leases] per worker, next to the canonical task and worker rows.
    Loading rebuilds and validates the snapshot; [apply_worker_protocol_transition] runs a
    pure transition on the loaded snapshot inside one write transaction and refuses to
    commit anything it cannot read back. *)

From S2P Require Import Prelude PyFloat PyStr PyJson Models WorkerProtocol Registry.

Open Scope string_scope.
Open Scope Z_scope.
Open Scope list_scope.

#[export] Instance TaskLineage_eq_dec : EqDecision TaskLineage.
Proof. solve_decision. Defined.

#[export] Instance WorkerLease_eq_dec : EqDecision WorkerLease.
Proof. solve_decision. Defined.

#[export] Instance WorkerTaskState_eq_dec : EqDecision WorkerTaskState.
Proof. solve_decision. Defined.

Definition persistence_error {A} (msg : string) : res A :=
  raise WorkerProtocolPersistenceError msg.

Definition refuse_if (b : bool) (msg : string) : res unit :=
  raise_if b WorkerProtocolPersistenceError msg.

(** [except ProtocolInvariantError as exc: raise WorkerProtocolPersistenceError from exc] *)
Definition or_persistence_error {A} (m : res A) (msg : string) : res A :=
  match m with Ok a => Ok a | Err _ => persistence_error msg end.

(** ** Rows *)

(** A nullable REAL column: a NaN is stored as NULL. *)
Definition sql_real (x : option float) : option float :=
  match x with Some f => if is_nan f then None else Some f | None => None end.

(** [_task_values(state)] *)
Definition _task_values (s : WorkerTaskState) : ProtocolTaskRow :=
  mkProtocolTaskRow (ws_lineage s) (ws_revision s) (ws_generation s) (ws_task_status s)
    (ws_current_worker_id s) (ws_handoff_target_worker_id s)
    (sql_real (ws_handoff_requested_at s)) (sql_real (ws_completed_at s))
    (ws_completion_ref s).

Definition lease_values (l : WorkerLease) : WorkerLease :=
  mkWorkerLease (wl_worker_id l) (wl_task_id l) (wl_conversation_ref l) (wl_status l)
    (wl_registered_at l) (wl_generation l) (sql_real (wl_claimed_at l))
    (sql_real (wl_last_heartbeat_at l)) (sql_real (wl_lease_expires_at l))
    (sql_real (wl_ended_at l)) (wl_superseded_by l).

(** [SELECT * FROM worker_protocol_leases WHERE task_id = ? ORDER BY worker_id] *)
Definition leases_of (r : Registry) (task_id : string) : list WorkerLease :=
  select (λ l, String.eqb (wl_task_id l) task_id) (rg_protocol_leases r).

(** [SELECT * FROM workers WHERE task_id = ?] *)
Definition workers_of (r : Registry) (task_id : string) : gmap string WorkerRecord :=
  filter (λ kw, wr_task_id kw.2 = task_id) (rg_workers r).

Definition task_exists (r : Registry) (task_id : string) : bool :=
  bool_decide (is_Some (rg_tasks r !! task_id)).

Definition protocol_state_exists (r : Registry) (task_id : string) : bool :=
  bool_decide (is_Some (rg_protocol_tasks r !! task_id)).

(** The [root_task_id] column of a task's protocol row. *)
Definition protocol_root (r : Registry) (task_id : string) : option string :=
  (λ row, tl_root_task_id (pt_lineage row)) <$> rg_protocol_tasks r !! task_id.

(** ** Loading *)

Definition _validate_lineage_references (r : Registry) (s : WorkerTaskState) : res unit :=
  let root := tl_root_task_id (ws_lineage s) in
  refuse_if (negb (task_exists r root)) "protocol root_task_id no longer exists";;
  match tl_parent_task_id (ws_lineage s) with
  | None => Ok tt
  | Some parent =>
      refuse_if (negb (task_exists r parent)) "protocol parent_task_id no longer exists";;
      refuse_if (match protocol_root r parent with
                 | Some parent_root => negb (String.eqb parent_root root)
                 | None => false
                 end) "protocol child root disagrees with parent root"
  end.

Definition _legacy_status (st : WorkerLeaseStatus.t) : WorkerStatus.t :=
  match st with
  | WorkerLeaseStatus.CANDIDATE => WorkerStatus.PARKED
  | WorkerLeaseStatus.ACTIVE => WorkerStatus.ACTIVE
  | WorkerLeaseStatus.SUPERSEDED => WorkerStatus.SUPERSEDED
  | WorkerLeaseStatus.COMPLETED | WorkerLeaseStatus.ABANDONED => WorkerStatus.DEAD
  end.

Definition lease_ended (st : WorkerLeaseStatus.t) : bool :=
  match st with
  | WorkerLeaseStatus.SUPERSEDED | WorkerLeaseStatus.COMPLETED
  | WorkerLeaseStatus.ABANDONED => true
  | _ => false
  end.

(** The worker ids of a snapshot, as a set. *)
Definition protocol_ids (s : WorkerTaskState) : gset string :=
  list_to_set (wl_worker_id <$> ws_workers s).

(** One lease against its canonical worker row. *)
Definition check_lease (canonical : gmap string WorkerRecord) (ids : gset string)
    (l : WorkerLease) : res unit :=
  match canonical !! wl_worker_id l with
  | None => raise KeyError (wl_worker_id l)
  | Some row =>
      refuse_if (negb (String.eqb (wr_task_id row) (wl_task_id l)))
        "worker durable task identity mismatch";;
      refuse_if (negb (bool_decide (wl_conversation_ref l = Some (wr_conversation_url row))))
        "worker conversation reference mismatch";;
      refuse_if (negb (feq (wr_started_at row) (wl_registered_at l)))
        "worker registration timestamp mismatch";;
      refuse_if (negb (bool_decide (wr_status row = _legacy_status (wl_status l))))
        "legacy worker status disagrees with protocol";;
      refuse_if (lease_ended (wl_status l) && bool_decide (wr_ended_at row = None))
        "terminal protocol worker lacks legacy ended_at";;
      refuse_if (match wl_superseded_by l with
                 | Some by_id => negb (bool_decide (by_id ∈ ids))
                 | None => false
                 end) "superseded_by identifies a foreign worker"
  end.

Definition _validate_legacy_consistency (r : Registry) (s : WorkerTaskState) : res unit :=
  match rg_tasks r !! ws_task_id s with
  | None => persistence_error "canonical task row is missing"
  | Some task =>
      refuse_if (negb (bool_decide (tr_current_worker_id task = ws_current_worker_id s)))
        "tasks.current_worker_id disagrees with persisted worker protocol";;
      (if bool_decide (ws_task_status s = DurableTaskStatus.COMPLETED) then
         refuse_if (negb (bool_decide (tr_state task = SupervisorState.COMPLETED)))
           "completed protocol task disagrees with canonical task state"
       else
         refuse_if (bool_decide (tr_state task = SupervisorState.COMPLETED) ||
                    bool_decide (tr_state task = SupervisorState.ABANDONED))
           "canonical terminal task state disagrees with open worker protocol");;
      let canonical := workers_of r (ws_task_id s) in
      refuse_if (negb (bool_decide (dom canonical = protocol_ids s)))
        "canonical workers and protocol workers do not have identical identities";;
      fold_res (λ _ l, check_lease canonical (protocol_ids s) l) tt (ws_workers s)
  end.

(** The snapshot that the rows of a task spell. *)
Definition stored_state (row : ProtocolTaskRow) (leases : list WorkerLease) : WorkerTaskState :=
  mkWorkerTaskState (pt_lineage row) (pt_revision row) (pt_generation row)
    (pt_task_status row) (pt_current_worker_id row) (pt_handoff_target_worker_id row)
    (pt_handoff_requested_at row) leases (pt_completed_at row) (pt_completion_ref row).

Definition _load_worker_protocol_locked (r : Registry) (task_id : string)
    : res WorkerTaskState :=
  match rg_protocol_tasks r !! task_id with
  | None =>
      if negb (task_exists r task_id) then raise KeyError "unknown task"
      else persistence_error "worker protocol is not bootstrapped"
  | Some row =>
      let s := stored_state row (leases_of r task_id) in
      or_persistence_error (validate_state s) "persisted worker protocol is invalid";;
      _validate_lineage_references r s;;
      _validate_legacy_consistency r s;;
      Ok s
  end.

Definition load_worker_protocol (r : Registry) (task_id : string) : res WorkerTaskState :=
  _load_worker_protocol_locked r task_id.

(** ** Writing *)

Definition _upsert_protocol_lease (r : Registry) (l : WorkerLease) : res Registry :=
  refuse_if (negb (opt_truthy (wl_conversation_ref l)))
    "persisted worker protocol requires a canonical conversation reference";;
  real_not_null (wl_registered_at l);;
  Ok (r <| rg_protocol_leases := <[wl_worker_id l := lease_values l]> (rg_protocol_leases r) |>).

(** The canonical row that [_sync_legacy_workers] inserts for a new candidate. *)
Definition new_worker_row (l : WorkerLease) : WorkerRecord :=
  mkWorkerRecord (wl_worker_id l) (wl_task_id l) (default "" (wl_conversation_ref l)) None
    (_legacy_status (wl_status l)) (wl_registered_at l) (sql_real (wl_last_heartbeat_at l))
    (sql_real (wl_ended_at l)).

(** The [UPDATE workers SET status, last_seen_at, ended_at]. *)
Definition synced_row (l : WorkerLease) (row : WorkerRecord) : WorkerRecord :=
  mkWorkerRecord (wr_worker_id row) (wr_task_id row) (wr_conversation_url row)
    (wr_conversation_id row) (_legacy_status (wl_status l)) (wr_started_at row)
    (sql_real (wl_last_heartbeat_at l)) (sql_real (wl_ended_at l)).

(** The loop body of [_sync_legacy_workers]; [existing] are the rows before the loop. *)
Definition sync_worker (existing : gmap string WorkerRecord) (task_id : string)
    (r : Registry) (l : WorkerLease) : res Registry :=
  let id := wl_worker_id l in
  r ← match existing !! id with
      | None =>
          refuse_if (negb (bool_decide (wl_status l = WorkerLeaseStatus.CANDIDATE)) ||
                     negb (opt_truthy (wl_conversation_ref l)))
            "only a registered protocol candidate may create a canonical worker row";;
          raise_if (bool_decide (is_Some (rg_workers r !! id))) IntegrityError
            "UNIQUE constraint failed: workers.worker_id";;
          real_not_null (wl_registered_at l);;
          Ok (r <| rg_workers := <[id := new_worker_row l]> (rg_workers r) |>)
      | Some row =>
          refuse_if (negb (String.eqb (wr_task_id row) (wl_task_id l)))
            "worker id already belongs to another task";;
          refuse_if (negb (bool_decide (wl_conversation_ref l = Some (wr_conversation_url row))))
            "protocol transition may not change canonical conversation URL";;
          Ok match rg_workers r !! id with
             | Some current =>
                 if String.eqb (wr_task_id current) task_id
                 then r <| rg_workers := <[id := synced_row l current]> (rg_workers r) |>
                 else r
             | None => r
             end
      end;
  Ok (if bool_decide (wl_status l = WorkerLeaseStatus.ACTIVE) then r
      else r <| rg_window_bindings := delete id (rg_window_bindings r) |>).

Definition _sync_legacy_workers (r : Registry) (s : WorkerTaskState) : res Registry :=
  r' ← fold_res (sync_worker (workers_of r (ws_task_id s)) (ws_task_id s)) r (ws_workers s);
  refuse_if (negb (bool_decide (dom (workers_of r' (ws_task_id s)) = protocol_ids s)))
    "protocol transition cannot ignore or delete canonical worker identities";;
  Ok r'.

(** [UNIQUE(task_id, revision, event_index)] *)
Definition event_taken (rows : list (nat * ProtocolEvent)) (i : nat) (e : ProtocolEvent) : bool :=
  existsb (λ row, Nat.eqb row.1 i && String.eqb (pe_task_id row.2) (pe_task_id e) &&
                  (pe_revision row.2 =? pe_revision e)) rows.

(** The index of an event counts the events of its revision before it in the batch. *)
Fixpoint append_events (r : Registry) (before events : list ProtocolEvent) : res Registry :=
  match events with
  | [] => Ok r
  | e :: events =>
      let index := length (List.filter (λ b, pe_revision b =? pe_revision e) before) in
      raise_if (event_taken (rg_protocol_events r) index e) IntegrityError
        "UNIQUE constraint failed: worker_protocol_events";;
      real_not_null (pe_at e);;
      append_events (r <| rg_protocol_events := rg_protocol_events r ++ [(index, e)] |>)
        (before ++ [e]) events
  end.

Definition _append_events (r : Registry) (events : list ProtocolEvent) : res Registry :=
  append_events r [] events.

(** [max(task["updated_at"], max(event.at for event in events))] *)
Definition latest_at (t : float) (events : list ProtocolEvent) : float :=
  match events with
  | [] => t
  | e :: es => fmax t (fmax_list (pe_at e) (pe_at <$> es))
  end.

Definition _persist_decision_locked (r : Registry) (previous : WorkerTaskState)
    (d : ProtocolDecision) (expected_revision : Z) : res Registry :=
  let s := pd_state d in
  r ← _sync_legacy_workers r s;
  task ← match rg_tasks r !! ws_task_id s with
         | Some task => Ok task
         | None => persistence_error "canonical task disappeared during transition"
         end;
  let updated_at := latest_at (tr_updated_at task) (pd_events d) in
  real_not_null updated_at;;
  let task := task <| tr_current_worker_id := ws_current_worker_id s |>
                   <| tr_state :=
                        if bool_decide (ws_task_status s = DurableTaskStatus.COMPLETED)
                        then SupervisorState.COMPLETED else tr_state task |>
                   <| tr_updated_at := updated_at |> in
  let r := r <| rg_tasks := <[ws_task_id s := task]> (rg_tasks r) |> in
  refuse_if (match rg_protocol_tasks r !! ws_task_id s with
             | Some row => negb (pt_revision row =? expected_revision)
             | None => true
             end) "worker protocol revision compare-and-swap failed during commit";;
  let r := r <| rg_protocol_tasks := <[ws_task_id s := _task_values s]> (rg_protocol_tasks r) |> in
  r ← fold_res _upsert_protocol_lease r (ws_workers s);
  r ← _append_events r (pd_events d);
  refuse_if (negb (bool_decide (ws_lineage previous = ws_lineage s)))
    "pure transition may not mutate task lineage";;
  Ok r.

Definition apply_worker_protocol_transition (r : Registry) (task_id : string)
    (expected_revision : Z) (transition : WorkerTaskState → res ProtocolDecision)
    : res (Registry * ProtocolDecision) :=
  state ← _load_worker_protocol_locked r task_id;
  decision ← transition state;
  refuse_if (negb (pd_expected_revision decision =? expected_revision))
    "transition decision expected_revision does not match registry request";;
  refuse_if (negb (String.eqb (ws_task_id (pd_state decision)) task_id))
    "transition changed durable task identity";;
  if negb (pd_mutated decision) then Ok (r, decision) else
  refuse_if (negb (pd_accepted decision)) "rejected transition cannot be a mutation";;
  refuse_if (negb (ws_revision (pd_state decision) =? expected_revision + 1))
    "accepted mutation must advance one revision";;
  refuse_if (match pd_events decision with [] => true | _ => false end)
    "accepted protocol mutation must append an event";;
  refuse_if (existsb (λ e, negb (String.eqb (pe_task_id e) task_id) ||
                           negb (pe_revision e =? ws_revision (pd_state decision)))
               (pd_events decision)) "protocol event task/revision mismatch";;
  validate_state (pd_state decision);;
  r' ← _persist_decision_locked r state decision expected_revision;
  reloaded ← _load_worker_protocol_locked r' task_id;
  refuse_if (negb (bool_decide (reloaded = pd_state decision)))
    "persisted worker protocol does not round-trip to the accepted pure state";;
  Ok (r', decision).

(** [worker_protocol_events]: the events of a task in order, at most [limit]. *)
Definition worker_protocol_events (r : Registry) (task_id : string) (limit : Z)
    : list ProtocolEvent :=
  take (Z.to_nat (Z.max 1 (Z.min limit 2000)))
    (snd <$> py_sorted
       (λ a b, (pe_revision a.2 <? pe_revision b.2) ||
               (pe_revision a.2 =? pe_revision b.2) && Nat.leb a.1 b.1)
       (List.filter (λ row, String.eqb (pe_task_id row.2) task_id) (rg_protocol_events r))).

(** ** Bootstrap *)

Definition _optional_nonempty (value : option string) (msg : string) : res (option string) :=
  match value with
  | None => Ok None
  | Some v =>
      refuse_if (negb (str_truthy (strip v))) msg;;
      Ok (Some (strip v))
  end.

Definition _resolve_lineage (r : Registry) (task_id : string)
    (parent_task_id root_task_id child_key : option string) : res TaskLineage :=
  child_key ← _optional_nonempty child_key "child_key must be non-empty when supplied";
  match parent_task_id with
  | None =>
      refuse_if (match root_task_id with
                 | None => false
                 | Some root => negb (String.eqb root task_id)
                 end) "root protocol task must name itself as root_task_id";;
      Ok (mkTaskLineage task_id None task_id child_key)
  | Some parent =>
      let parent := strip parent in
      refuse_if (negb (str_truthy parent) || String.eqb parent task_id)
        "parent_task_id must name a different durable task";;
      refuse_if (negb (task_exists r parent)) "parent_task_id does not exist";;
      let parent_root := protocol_root r parent in
      root ← match root_task_id, parent_root with
             | Some root, _ => Ok root
             | None, Some root => Ok root
             | None, None => persistence_error
                 "child bootstrap requires root_task_id until parent protocol state exists"
             end;
      let root := strip root in
      refuse_if (negb (str_truthy root) || String.eqb root task_id)
        "child root_task_id must name an ancestor task";;
      refuse_if (negb (task_exists r root)) "root_task_id does not exist";;
      refuse_if (match parent_root with
                 | Some pr => negb (String.eqb pr root)
                 | None => false
                 end) "child root_task_id disagrees with parent lineage";;
      Ok (mkTaskLineage task_id (Some parent) root child_key)
  end.

Definition _require_requested_lineage (s : WorkerTaskState)
    (parent_task_id root_task_id child_key : option string) : res unit :=
  match parent_task_id, root_task_id, child_key with
  | None, None, None => Ok tt
  | _, _, _ =>
      let normalized_root := match root_task_id with
                             | Some root => Some (strip root)
                             | None => Some (tl_root_task_id (ws_lineage s))
                             end in
      refuse_if (negb (bool_decide
        ((tl_parent_task_id (ws_lineage s), Some (tl_root_task_id (ws_lineage s)),
          tl_child_key (ws_lineage s)) =
         (strip <$> parent_task_id, normalized_root, strip <$> child_key))))
        "protocol lineage already initialized"
  end.

(** The lease of one legacy worker. *)
Definition legacy_lease (task_id : string) (w : WorkerRecord) : res WorkerLease :=
  let ended st :=
    match wr_ended_at w with
    | None => persistence_error "legacy worker lacks terminal ended_at evidence"
    | Some ended_at =>
        Ok (mkWorkerLease (wr_worker_id w) task_id (Some (wr_conversation_url w)) st
              (wr_started_at w) None None (wr_last_seen_at w) None (Some ended_at) None)
    end in
  match wr_status w with
  | WorkerStatus.ACTIVE =>
      refuse_if (negb (bool_decide (wr_ended_at w = None)))
        "legacy ACTIVE worker unexpectedly has terminal ended_at";;
      let heartbeat := default (wr_started_at w) (wr_last_seen_at w) in
      Ok (mkWorkerLease (wr_worker_id w) task_id (Some (wr_conversation_url w))
            WorkerLeaseStatus.ACTIVE (wr_started_at w) (Some 1) (Some (wr_started_at w))
            (Some heartbeat) (Some heartbeat) None None)
  | WorkerStatus.SUPERSEDED => ended WorkerLeaseStatus.SUPERSEDED
  | WorkerStatus.DEAD => ended WorkerLeaseStatus.ABANDONED
  | WorkerStatus.PARKED => persistence_error "unsupported legacy worker status for bootstrap"
  end.

Definition has_status (st : WorkerStatus.t) (w : WorkerRecord) : bool :=
  bool_decide (wr_status w = st).

Definition _state_from_legacy (task : TaskRecord) (workers : list WorkerRecord)
    (lineage : TaskLineage) : res WorkerTaskState :=
  let current_worker_id := tr_current_worker_id task in
  refuse_if (bool_decide (tr_state task = SupervisorState.ABANDONED))
    "legacy ABANDONED task meaning is ambiguous for protocol bootstrap";;
  let active_ids := wr_worker_id <$> List.filter (has_status WorkerStatus.ACTIVE) workers in
  refuse_if (existsb (has_status WorkerStatus.PARKED) workers)
    "legacy PARKED workers have ambiguous protocol authority; reconcile before bootstrap";;
  match current_worker_id with
  | None =>
      refuse_if (negb (bool_decide (active_ids = [])))
        "legacy ACTIVE worker exists without tasks.current_worker_id"
  | Some id =>
      match next_where (λ w, String.eqb (wr_worker_id w) id) workers with
      | None => persistence_error
          "tasks.current_worker_id does not identify a worker in the same task"
      | Some current =>
          refuse_if (negb (has_status WorkerStatus.ACTIVE current) ||
                     negb (bool_decide (active_ids = [id])))
            "legacy current worker is not the sole ACTIVE worker";;
          refuse_if (bool_decide (tr_state task = SupervisorState.COMPLETED))
            "legacy COMPLETED task cannot retain an ACTIVE current worker"
      end
  end;;
  leases ← mapM (legacy_lease (tr_task_id task)) workers;
  let completed := bool_decide (tr_state task = SupervisorState.COMPLETED) in
  let s := mkWorkerTaskState lineage 0
    (if bool_decide (current_worker_id = None) then 0 else 1)
    (if completed then DurableTaskStatus.COMPLETED else DurableTaskStatus.OPEN)
    current_worker_id None None (_sorted_workers leases)
    (if completed then Some (tr_updated_at task) else None)
    (if completed then Some "legacy:supervisor-state:COMPLETED" else None) in
  or_persistence_error (validate_state s)
    "legacy worker bootstrap is not a valid protocol snapshot";;
  Ok s.

Definition _insert_protocol_snapshot (r : Registry) (s : WorkerTaskState) : res Registry :=
  let r := r <| rg_protocol_tasks := <[ws_task_id s := _task_values s]> (rg_protocol_tasks r) |> in
  fold_res _upsert_protocol_lease r (ws_workers s).

Definition bootstrap_worker_protocol (r : Registry) (task_id : string)
    (parent_task_id root_task_id child_key : option string)
    : res (Registry * WorkerTaskState) :=
  if protocol_state_exists r task_id then
    s ← _load_worker_protocol_locked r task_id;
    _require_requested_lineage s parent_task_id root_task_id child_key;;
    Ok (r, s)
  else
    match rg_tasks r !! task_id with
    | None => raise KeyError "unknown task"
    | Some task =>
        lineage ← _resolve_lineage r task_id parent_task_id root_task_id child_key;
        s ← _state_from_legacy task
              (select (λ w, String.eqb (wr_task_id w) task_id) (rg_workers r)) lineage;
        r' ← _insert_protocol_snapshot r s;
        Ok (r', s)
    end.

(** ** The registry's protocol calls *)

Definition protocol_register_worker (r : Registry) (task_id conversation_url : string)
    (expected_revision : Z) (worker_id : option string) (uuid : string) (now : float)
    : res (Registry * ProtocolDecision) :=
  let conversation_url := strip conversation_url in
  raise_if (negb (str_truthy conversation_url)) ValueError "conversation_url must be non-empty";;
  let worker_id := if opt_truthy worker_id then default "" worker_id
                   else "worker_" +:+ str_take 12 uuid in
  apply_worker_protocol_transition r task_id expected_revision (λ s,
    register_worker s worker_id (Some conversation_url) now expected_revision).

Definition protocol_claim_worker (r : Registry) (task_id worker_id : string)
    (expected_revision : Z) (lease_seconds now : float) : res (Registry * ProtocolDecision) :=
  apply_worker_protocol_transition r task_id expected_revision (λ s,
    claim_worker s worker_id now lease_seconds expected_revision).

Definition protocol_heartbeat_worker (r : Registry) (task_id worker_id : string)
    (generation expected_revision : Z) (lease_seconds now : float)
    : res (Registry * ProtocolDecision) :=
  apply_worker_protocol_transition r task_id expected_revision (λ s,
    heartbeat_worker s worker_id generation now lease_seconds expected_revision).

Definition protocol_request_handoff (r : Registry) (task_id worker_id target_worker_id : string)
    (generation expected_revision : Z) (now : float) : res (Registry * ProtocolDecision) :=
  apply_worker_protocol_transition r task_id expected_revision (λ s,
    request_handoff s worker_id target_worker_id generation now expected_revision).

Definition protocol_takeover_worker (r : Registry) (task_id candidate_worker_id : string)
    (expected_revision : Z) (lease_seconds now : float) : res (Registry * ProtocolDecision) :=
  apply_worker_protocol_transition r task_id expected_revision (λ s,
    takeover_worker s candidate_worker_id now lease_seconds expected_revision).

Definition protocol_complete_worker (r : Registry) (task_id worker_id : string)
    (generation expected_revision : Z) (now : float) : res (Registry * ProtocolDecision) :=
  apply_worker_protocol_transition r task_id expected_revision (λ s,
    complete_worker s worker_id generation now expected_revision).

Definition protocol_abandon_worker (r : Registry) (task_id worker_id : string)
    (generation expected_revision : Z) (now : float) : res (Registry * ProtocolDecision) :=
  apply_worker_protocol_transition r task_id expected_revision (λ s,
    abandon_worker s worker_id generation now expected_revision).

Definition protocol_complete_task (r : Registry) (task_id completion_ref : string)
    (expected_revision : Z) (now : float) : res (Registry * ProtocolDecision) :=
  apply_worker_protocol_transition r task_id expected_revision (λ s,
    complete_task s completion_ref now expected_revision).
