(* ===== verification/PersistenceFacts.v ===== *)
(** * What the rows of the protocol tables mean

    [loaded] is the declarative reading of a successful load; the write operations are
    described by their effect on the tables. *)

From S2P Require Import Prelude PyFloat PyStr PyJson Models WorkerProtocol.
From S2P Require Import WorkerProtocolFacts Registry Persistence.

Open Scope string_scope.
Open Scope Z_scope.
Open Scope list_scope.

(** ** Writing a list of keyed rows into a table *)

Section PutAll.
Context {A B : Type} (key : A → string) (f : A → B).

Definition put_all (xs : list A) (m : gmap string B) : gmap string B :=
  list_to_map ((λ x, (key x, f x)) <$> xs) ∪ m.

Lemma put_all_fst xs : ((λ x, (key x, f x)) <$> xs).*1 = key <$> xs.
Proof. rewrite <- list_fmap_compose. done. Qed.

Lemma put_all_in xs m x :
  NoDup (key <$> xs) → x ∈ xs → put_all xs m !! key x = Some (f x).
Proof.
  intros Hnd Hx. unfold put_all. apply lookup_union_Some_l, elem_of_list_to_map_1.
  - by rewrite put_all_fst.
  - apply list_elem_of_fmap. eauto.
Qed.

Lemma put_all_out xs m k : k ∉ key <$> xs → put_all xs m !! k = m !! k.
Proof.
  intros Hk. unfold put_all. apply lookup_union_r, not_elem_of_list_to_map_1.
  by rewrite put_all_fst.
Qed.

Lemma put_all_cases xs m k b :
  NoDup (key <$> xs) → put_all xs m !! k = Some b →
  (∃ x, x ∈ xs ∧ k = key x ∧ b = f x) ∨ ((k ∉ key <$> xs) ∧ m !! k = Some b).
Proof.
  intros Hnd Hb. destruct (decide (k ∈ key <$> xs)) as [Hk|Hk].
  - left. apply list_elem_of_fmap in Hk as (x & -> & Hx). exists x.
    rewrite put_all_in in Hb by done. naive_solver.
  - right. by rewrite put_all_out in Hb.
Qed.

Lemma put_all_snoc xs x m :
  key x ∉ key <$> xs → put_all (xs ++ [x]) m = <[key x := f x]> (put_all xs m).
Proof.
  intros Hx. apply map_eq. intros k. unfold put_all. rewrite fmap_app, list_to_map_app.
  cbn. destruct (decide (k = key x)) as [->|Hne].
  - rewrite lookup_insert_eq, !lookup_union, lookup_insert_eq,
      not_elem_of_list_to_map_1 by (by rewrite put_all_fst).
    by destruct (m !! key x).
  - rewrite lookup_insert_ne, !lookup_union, lookup_insert_ne, lookup_empty by done.
    by destruct (list_to_map _ !! k).
Qed.
End PutAll.

(** A loop that writes one row per element. *)
Lemma fold_put {A B R} (key : A → string) (f : A → B) (ins : R → A → res R)
    (tbl : R → gmap string B) (same : R → R → Prop) (r r' : R) xs :
  NoDup (key <$> xs) → same r r → (∀ r1 r2 r3, same r1 r2 → same r2 r3 → same r1 r3) →
  (∀ done x r1 r2, (∃ rest, xs = done ++ x :: rest) → same r r1 →
     tbl r1 = put_all key f done (tbl r) → ins r1 x = Ok r2 →
     tbl r2 = <[key x := f x]> (tbl r1) ∧ same r1 r2) →
  fold_res ins r xs = Ok r' →
  tbl r' = put_all key f xs (tbl r) ∧ same r r'.
Proof.
  intros Hnd Hrefl Htr Hstep.
  apply (fold_res_ind ins (λ done r1, tbl r1 = put_all key f done (tbl r) ∧ same r r1)).
  - split; [|done]. unfold put_all. cbn. by rewrite (left_id_L ∅ (∪)).
  - intros done x r1 r2 Hpre [Ht Hs] Hins.
    destruct (Hstep _ _ _ _ Hpre Hs Ht Hins) as [Ht2 Hs2]. split; [|eauto].
    destruct Hpre as [rest ->]. rewrite fmap_app in Hnd. cbn in Hnd.
    apply NoDup_app in Hnd as (_ & Hni & _).
    rewrite Ht2, Ht, put_all_snoc; [done|]. intros Hin. apply (Hni _ Hin). by left.
Qed.

(** ** Loading *)

Lemma refuse_if_Ok b msg (k : res unit) :
  (refuse_if b msg;; k) = Ok tt ↔ b = false ∧ k = Ok tt.
Proof. apply raise_if_then. Qed.

Lemma refuse_if_last b msg : refuse_if b msg = Ok tt ↔ b = false.
Proof. apply raise_if_Ok. Qed.

Lemma fold_res_checks {A} (f : A → res unit) xs :
  fold_res (λ _ x, f x) tt xs = Ok tt ↔ ∀ x, x ∈ xs → f x = Ok tt.
Proof.
  induction xs as [|x xs IH]; cbn.
  - split; [|done]. intros _ x Hx. by apply not_elem_of_nil in Hx.
  - rewrite bind_Ok. split.
    + intros ([] & Hx & Hr) y [->|Hy]%elem_of_cons; [done|]. by apply IH.
    + intros H. exists tt. split; [apply H; by left|]. apply IH. intros y Hy. apply H. by right.
Qed.

Lemma lookup_workers_of r task_id k w :
  workers_of r task_id !! k = Some w ↔ rg_workers r !! k = Some w ∧ wr_task_id w = task_id.
Proof. unfold workers_of. by rewrite map_lookup_filter_Some. Qed.

Record lease_matches (ids : gset string) (l : WorkerLease) (row : WorkerRecord) : Prop := {
  lm_task : wr_task_id row = wl_task_id l;
  lm_ref : wl_conversation_ref l = Some (wr_conversation_url row);
  lm_started : feq (wr_started_at row) (wl_registered_at l) = true;
  lm_status : wr_status row = _legacy_status (wl_status l);
  lm_ended : lease_ended (wl_status l) = true → wr_ended_at row ≠ None;
  lm_superseded : ∀ by_id, wl_superseded_by l = Some by_id → by_id ∈ ids;
}.

Lemma check_lease_Ok canonical ids l :
  check_lease canonical ids l = Ok tt ↔
  ∃ row, canonical !! wl_worker_id l = Some row ∧ lease_matches ids l row.
Proof.
  unfold check_lease. destruct (canonical !! wl_worker_id l) as [row|]; [|naive_solver].
  rewrite !refuse_if_Ok, refuse_if_last, !negb_false_iff, String.eqb_eq, !bool_decide_eq_true.
  split.
  - intros (? & ? & ? & ? & Hended & Hs). exists row. split; [done|]. split; try done.
    + intros He. rewrite He in Hended. by apply bool_decide_eq_false in Hended.
    + intros by_id E. rewrite E in Hs. by apply negb_false_iff, bool_decide_eq_true in Hs.
  - intros (row' & [= <-] & []). split_and!; try done.
    + destruct (lease_ended (wl_status l)); [|done]. apply bool_decide_eq_false. auto.
    + destruct (wl_superseded_by l); [|done]. apply negb_false_iff, bool_decide_eq_true. auto.
Qed.

Record task_matches (s : WorkerTaskState) (task : TaskRecord) : Prop := {
  tm_current : tr_current_worker_id task = ws_current_worker_id s;
  tm_completed : ws_task_status s = DurableTaskStatus.COMPLETED →
    tr_state task = SupervisorState.COMPLETED;
  tm_open : ws_task_status s = DurableTaskStatus.OPEN →
    tr_state task ≠ SupervisorState.COMPLETED ∧ tr_state task ≠ SupervisorState.ABANDONED;
}.

Record consistent (r : Registry) (s : WorkerTaskState) : Prop := {
  cs_task : ∃ task, rg_tasks r !! ws_task_id s = Some task ∧ task_matches s task;
  cs_ids : dom (workers_of r (ws_task_id s)) = protocol_ids s;
  cs_lease : ∀ l, l ∈ ws_workers s →
    ∃ row, workers_of r (ws_task_id s) !! wl_worker_id l = Some row ∧
           lease_matches (protocol_ids s) l row;
}.

Lemma validate_legacy_Ok r s : _validate_legacy_consistency r s = Ok tt ↔ consistent r s.
Proof.
  unfold _validate_legacy_consistency. split.
  - destruct (rg_tasks r !! ws_task_id s) as [task|] eqn:Ht; [|done].
    intros [Hc H]%refuse_if_Ok. apply unit_bind_Ok in H as [Hs H]. cbv zeta in H.
    apply refuse_if_Ok in H as [Hd H]. rewrite fold_res_checks in H.
    apply negb_false_iff, bool_decide_eq_true in Hc, Hd. constructor; [|done|].
    + exists task. split; [done|]. destruct (decide (ws_task_status s = DurableTaskStatus.COMPLETED)) as [E|E].
      * rewrite bool_decide_eq_true_2 in Hs by done.
        apply refuse_if_last, negb_false_iff, bool_decide_eq_true in Hs.
        constructor; [done..|]. by rewrite E.
      * rewrite bool_decide_eq_false_2 in Hs by done. apply refuse_if_last in Hs.
        bool_to_prop. by constructor.
    + intros l Hl. by apply check_lease_Ok, H.
  - intros [(task & -> & Hm) Hd Hl]. apply refuse_if_Ok. split.
    { apply negb_false_iff, bool_decide_eq_true, Hm. }
    apply unit_bind_Ok. split.
    { destruct (ws_task_status s) eqn:E; cbn.
      - destruct (tm_open _ _ Hm E). apply refuse_if_last. by rewrite !bool_decide_eq_false_2.
      - apply refuse_if_last. by rewrite bool_decide_eq_true_2 by (by apply Hm). }
    cbv zeta. apply refuse_if_Ok. split; [by apply negb_false_iff, bool_decide_eq_true|].
    apply fold_res_checks. intros l Hin. apply check_lease_Ok. auto.
Qed.

Record lineage_ok (r : Registry) (s : WorkerTaskState) : Prop := {
  lo_root : is_Some (rg_tasks r !! tl_root_task_id (ws_lineage s));
  lo_parent : ∀ parent, tl_parent_task_id (ws_lineage s) = Some parent →
    is_Some (rg_tasks r !! parent) ∧
    ∀ root, protocol_root r parent = Some root → root = tl_root_task_id (ws_lineage s);
}.

Lemma task_exists_true r id : task_exists r id = true ↔ is_Some (rg_tasks r !! id).
Proof. apply bool_decide_eq_true. Qed.

Lemma validate_lineage_Ok r s : _validate_lineage_references r s = Ok tt ↔ lineage_ok r s.
Proof.
  unfold _validate_lineage_references. cbv zeta. rewrite refuse_if_Ok, negb_false_iff, task_exists_true.
  split.
  - intros [Hr H]. constructor; [done|]. intros parent E. rewrite E in H.
    apply refuse_if_Ok in H as [Hp H]. apply refuse_if_last in H.
    rewrite negb_false_iff, task_exists_true in Hp. split; [done|]. intros root Hroot.
    rewrite Hroot in H. by apply negb_false_iff, String.eqb_eq in H.
  - intros [Hr Hp]. split; [done|]. destruct (tl_parent_task_id (ws_lineage s)) as [p|]; [|done].
    destruct (Hp p eq_refl) as [He Hroot]. apply refuse_if_Ok.
    rewrite negb_false_iff, task_exists_true. split; [done|]. apply refuse_if_last.
    destruct (protocol_root r p); [|done]. apply negb_false_iff, String.eqb_eq. auto.
Qed.

(** A successful load. *)
Record loaded (r : Registry) (task_id : string) (s : WorkerTaskState) : Prop := {
  ld_row : ∃ row, rg_protocol_tasks r !! task_id = Some row ∧
                  s = stored_state row (leases_of r task_id);
  ld_valid : valid_state s;
  ld_lineage : lineage_ok r s;
  ld_consistent : consistent r s;
}.

Lemma load_Ok r task_id s : _load_worker_protocol_locked r task_id = Ok s ↔ loaded r task_id s.
Proof.
  unfold _load_worker_protocol_locked. split.
  - destruct (rg_protocol_tasks r !! task_id) as [row|] eqn:Hrow;
      [|by destruct (negb (task_exists r task_id))].
    cbv zeta. intros [Hv [Hl [Hc [= <-]]%unit_bind_Ok]%unit_bind_Ok]%unit_bind_Ok.
    constructor; [by exists row| |by apply validate_lineage_Ok|by apply validate_legacy_Ok].
    apply validate_state_iff. by destruct (validate_state _) as [[]|].
  - intros [(row & -> & Hs) Hv Hl Hc]. cbv zeta. rewrite <- Hs.
    rewrite (validate_valid _ Hv). cbn [or_persistence_error]. rewrite Ok_bind.
    apply validate_lineage_Ok in Hl as ->. rewrite Ok_bind.
    apply validate_legacy_Ok in Hc as ->. done.
Qed.

Lemma elem_of_leases_of r task_id l :
  l ∈ leases_of r task_id ↔ wl_task_id l = task_id ∧ ∃ k, rg_protocol_leases r !! k = Some l.
Proof. unfold leases_of. by rewrite elem_of_select, String.eqb_eq. Qed.

Lemma elem_of_protocol_ids s id : id ∈ protocol_ids s ↔ id ∈ ids (ws_workers s).
Proof. unfold protocol_ids, ids. by rewrite elem_of_list_to_set. Qed.

(** ** Writing *)

(** The tables that the lease protocol reads, the canonical workers and the leases apart. *)
Definition other_tables (r : Registry) :=
  (rg_actions r, rg_dispatches r, rg_replacements r, rg_child_spawns r, rg_probe_ops r,
   rg_probe_slots r, rg_watchdogs r, rg_cooldowns r, rg_capabilities r).

Record same_rows (r1 r2 : Registry) : Prop := {
  sr_tasks : rg_tasks r2 = rg_tasks r1;
  sr_protocol : rg_protocol_tasks r2 = rg_protocol_tasks r1;
  sr_events : rg_protocol_events r2 = rg_protocol_events r1;
  sr_other : other_tables r2 = other_tables r1;
}.

#[export] Instance same_rows_preorder : PreOrder same_rows.
Proof. split; [done|]. intros r1 r2 r3 [] []. constructor; congruence. Qed.

(** The canonical row that a sync leaves for a lease. *)
Definition row_for (existing : gmap string WorkerRecord) (l : WorkerLease) : WorkerRecord :=
  match existing !! wl_worker_id l with
  | Some row => synced_row l row
  | None => new_worker_row l
  end.

(** The checks of one loop round. *)
Definition sync_allowed (r : Registry) (task_id : string) (l : WorkerLease) : Prop :=
  match workers_of r task_id !! wl_worker_id l with
  | None => wl_status l = WorkerLeaseStatus.CANDIDATE ∧
            opt_truthy (wl_conversation_ref l) = true ∧
            rg_workers r !! wl_worker_id l = None ∧ is_nan (wl_registered_at l) = false
  | Some row => wr_task_id row = wl_task_id l ∧
                wl_conversation_ref l = Some (wr_conversation_url row)
  end.

Lemma sync_round r task_id done l r1 :
  wl_worker_id l ∉ ids done →
  rg_workers r1 = put_all wl_worker_id (row_for (workers_of r task_id)) done (rg_workers r) →
  (∀ r2, sync_worker (workers_of r task_id) task_id r1 l = Ok r2 →
     sync_allowed r task_id l ∧
     rg_workers r2 = <[wl_worker_id l := row_for (workers_of r task_id) l]> (rg_workers r1) ∧
     rg_protocol_leases r2 = rg_protocol_leases r1 ∧ same_rows r1 r2) ∧
  (sync_allowed r task_id l → is_Ok (sync_worker (workers_of r task_id) task_id r1 l)).
Proof.
  intros Hni Hr1. assert (rg_workers r1 !! wl_worker_id l = rg_workers r !! wl_worker_id l) as Hl
    by (by rewrite Hr1, put_all_out).
  unfold sync_worker, sync_allowed, row_for. cbv zeta. rewrite Hl.
  destruct (workers_of r task_id !! wl_worker_id l) as [row|] eqn:E.
  - apply lookup_workers_of in E as [E Ht]. rewrite E, Ht, String.eqb_refl. split.
    + intros r2 H. apply bind_Ok_inv in H as (r3 & H & [= <-]).
      apply raise_if_then in H as [H1%negb_false_iff H].
      apply raise_if_then in H as [H2%negb_false_iff [= <-]].
      apply String.eqb_eq in H1. apply bool_decide_eq_true in H2.
      destruct (bool_decide (wl_status l = _)); done.
    + intros [Heq Href]. rewrite <- Heq, String.eqb_refl.
      rewrite (bool_decide_eq_true_2 (_ = Some _)) by done. by eexists.
  - split.
    + intros r2 H. apply bind_Ok_inv in H as (r3 & H & [= <-]).
      apply raise_if_then in H as [H1 H]. apply raise_if_then in H as [H2 H].
      apply unit_bind_Ok in H as [H3%raise_if_Ok_inv [= <-]]. bool_to_prop.
      apply eq_None_not_Some in H2.
      destruct (bool_decide (wl_status l = _)); done.
    + intros (Hst & Href & Hnone & Hnan). rewrite Hst, Href, Hnone. unfold real_not_null.
      rewrite Hnan. by eexists.
Qed.

Lemma fold_res_total {A B} (f : B → A → res B) (P : list A → B → Prop) xs b :
  P [] b →
  (∀ done x b1, (∃ rest, xs = done ++ x :: rest) → P done b1 →
     ∃ b2, f b1 x = Ok b2 ∧ P (done ++ [x]) b2) →
  ∃ b', fold_res f b xs = Ok b' ∧ P xs b'.
Proof.
  intros H0 Hstep.
  assert (∀ rest done b, xs = done ++ rest → P done b → ∃ b', fold_res f b rest = Ok b' ∧ P xs b')
    as Hgen; [|by apply (Hgen xs [])].
  clear b H0. induction rest as [|x rest IH]; intros done b Hxs Hb; cbn.
  - exists b. split; [done|]. by rewrite Hxs, app_nil_r.
  - destruct (Hstep done x b) as (b2 & -> & Hb2); [eauto|done|]. cbn.
    apply (IH (done ++ [x])); [|done]. by rewrite <- app_assoc.
Qed.

Lemma NoDup_ids_split done l rest : NoDup (ids (done ++ l :: rest)) → wl_worker_id l ∉ ids done.
Proof.
  unfold ids. rewrite fmap_app. cbn. intros (_ & Hni & _)%NoDup_app Hin.
  apply (Hni _ Hin). by left.
Qed.

Definition synced (r : Registry) (task_id : string) (ws : list WorkerLease) (r' : Registry)
    : Prop :=
  rg_workers r' = put_all wl_worker_id (row_for (workers_of r task_id)) ws (rg_workers r) ∧
  rg_protocol_leases r' = rg_protocol_leases r ∧ same_rows r r'.

Lemma put_all_nil {A B} (key : A → string) (f : A → B) m : put_all key f [] m = m.
Proof. unfold put_all. cbn. by rewrite (left_id_L ∅ (∪)). Qed.

Lemma sync_effect r s r' :
  NoDup (ids (ws_workers s)) → _sync_legacy_workers r s = Ok r' →
  synced r (ws_task_id s) (ws_workers s) r' ∧
  (∀ l, l ∈ ws_workers s → sync_allowed r (ws_task_id s) l) ∧
  dom (workers_of r' (ws_task_id s)) = protocol_ids s.
Proof.
  intros Hnd H. apply bind_Ok_inv in H as (r1 & H & Hd).
  apply raise_if_then in Hd as [Hd%negb_false_iff [= <-]]. apply bool_decide_eq_true in Hd.
  assert (synced r (ws_task_id s) (ws_workers s) r1 ∧
    ∀ l, l ∈ ws_workers s → sync_allowed r (ws_task_id s) l) as []; [|done].
  revert H. apply (fold_res_ind _ (λ done r1, synced r (ws_task_id s) done r1 ∧
    ∀ l, l ∈ done → sync_allowed r (ws_task_id s) l)).
  - split; [|by intros l ?%not_elem_of_nil]. split; [by rewrite put_all_nil|done].
  - intros done l r2 r3 [rest Hxs] [(Hw & Hl & Hs) Hall] Hround. rewrite Hxs in Hnd.
    apply NoDup_ids_split in Hnd as Hni.
    destruct (sync_round _ _ _ _ _ Hni Hw) as [Hspec _].
    destruct (Hspec _ Hround) as (Ha & Hw3 & Hl3 & Hs3). split.
    + split_and!; [|congruence|by trans r2]. by rewrite Hw3, Hw, put_all_snoc.
    + intros l' [Hin | ->%list_elem_of_singleton]%elem_of_app; auto.
Qed.

Lemma sync_total r s :
  NoDup (ids (ws_workers s)) → (∀ l, l ∈ ws_workers s → sync_allowed r (ws_task_id s) l) →
  (∀ r', synced r (ws_task_id s) (ws_workers s) r' →
     dom (workers_of r' (ws_task_id s)) = protocol_ids s) →
  is_Ok (_sync_legacy_workers r s).
Proof.
  intros Hnd Hall Hdom. unfold _sync_legacy_workers.
  destruct (fold_res_total (sync_worker (workers_of r (ws_task_id s)) (ws_task_id s))
    (synced r (ws_task_id s)) (ws_workers s) r) as (r' & -> & Hs).
  - split; [by rewrite put_all_nil|done].
  - intros done l r2 [rest Hxs] (Hw & Hl & Hs). rewrite Hxs in Hnd.
    apply NoDup_ids_split in Hnd as Hni.
    destruct (sync_round _ _ _ _ _ Hni Hw) as [Hspec Htot].
    destruct Htot as [r3 Hr3]; [apply Hall; rewrite Hxs; apply elem_of_app; right; left|].
    destruct (Hspec _ Hr3) as (Ha & Hw3 & Hl3 & Hs3). exists r3. split; [done|].
    split_and!; [|congruence|by trans r2]. by rewrite Hw3, Hw, put_all_snoc.
  - rewrite Ok_bind, (Hdom _ Hs). unfold refuse_if. rewrite bool_decide_eq_true_2 by done.
    by eexists.
Qed.

(** Upserting the leases. *)

Definition upserted (r : Registry) (ws : list WorkerLease) (r' : Registry) : Prop :=
  rg_protocol_leases r' = put_all wl_worker_id lease_values ws (rg_protocol_leases r) ∧
  rg_workers r' = rg_workers r ∧ same_rows r r'.

Definition upsert_allowed (l : WorkerLease) : Prop :=
  opt_truthy (wl_conversation_ref l) = true ∧ is_nan (wl_registered_at l) = false.

Lemma upsert_Ok r l r' :
  _upsert_protocol_lease r l = Ok r' ↔
  upsert_allowed l ∧
  r' = r <| rg_protocol_leases := <[wl_worker_id l := lease_values l]> (rg_protocol_leases r) |>.
Proof.
  unfold _upsert_protocol_lease, upsert_allowed, refuse_if, real_not_null.
  rewrite raise_if_then, negb_false_iff, raise_if_then. naive_solver.
Qed.

Lemma upsert_effect r ws r' :
  NoDup (ids ws) → fold_res _upsert_protocol_lease r ws = Ok r' →
  upserted r ws r' ∧ ∀ l, l ∈ ws → upsert_allowed l.
Proof.
  intros Hnd. apply (fold_res_ind _ (λ done r1, upserted r done r1 ∧
    ∀ l, l ∈ done → upsert_allowed l)).
  - split; [|by intros l ?%not_elem_of_nil]. split; [by rewrite put_all_nil|done].
  - intros done l r2 r3 [rest Hxs] [(Hl & Hw & Hs) Hall] [Ha ->]%upsert_Ok. rewrite Hxs in Hnd.
    apply NoDup_ids_split in Hnd. split.
    + split_and!; [|done|by trans r2]. cbn. by rewrite Hl, put_all_snoc.
    + intros l' [Hin | ->%list_elem_of_singleton]%elem_of_app; auto.
Qed.

Lemma upsert_total r ws :
  (∀ l, l ∈ ws → upsert_allowed l) → is_Ok (fold_res _upsert_protocol_lease r ws).
Proof.
  intros Hall.
  destruct (fold_res_total _upsert_protocol_lease (λ _ _, True) ws r) as (r' & -> & _); [done| |by eexists].
  intros done l r1 [rest ->] _. eexists. split; [|done]. apply upsert_Ok. split; [|done].
  apply Hall, elem_of_app. right. left.
Qed.

(** Appending the events. *)

Fixpoint number_events (before events : list ProtocolEvent) : list (nat * ProtocolEvent) :=
  match events with
  | [] => []
  | e :: events =>
      (length (List.filter (λ b, pe_revision b =? pe_revision e) before), e) ::
      number_events (before ++ [e]) events
  end.

Lemma append_effect r before events r' :
  append_events r before events = Ok r' →
  r' = r <| rg_protocol_events := rg_protocol_events r ++ number_events before events |>.
Proof.
  revert r before. induction events as [|e events IH]; intros r before; cbn [append_events].
  - intros [= <-]. cbn. rewrite app_nil_r. by destruct r.
  - cbv zeta. intros [_ [_ H]%unit_bind_Ok]%unit_bind_Ok. apply IH in H as ->. cbn.
    by rewrite <- app_assoc.
Qed.

Lemma number_events_snd before events : (number_events before events).*2 = events.
Proof. revert before. induction events; intros before; cbn; [done|]. by rewrite IHevents. Qed.

(** The events of one new revision are accepted. *)
Lemma append_total r before events task_id revision :
  (∀ e, e ∈ events → pe_task_id e = task_id ∧ pe_revision e = revision ∧
     is_nan (pe_at e) = false) →
  (∀ e, e ∈ before → pe_revision e = revision) →
  (∀ i e, (i, e) ∈ rg_protocol_events r → pe_task_id e = task_id → pe_revision e = revision →
     (i < length before)%nat) →
  is_Ok (append_events r before events).
Proof.
  revert r before. induction events as [|e events IH]; intros r before Hes Hb Hrows; cbn;
    [by eexists|].
  destruct (Hes e) as (Ht & Hrev & Hnan); [left|].
  assert (List.filter (λ b, pe_revision b =? pe_revision e) before = before) as Hf.
  { clear -Hb Hrev. induction before as [|b before IH]; cbn; [done|].
    rewrite (Hb b), <- Hrev, Z.eqb_refl by left. f_equal. apply IH. intros b' Hb'. apply Hb. by right. }
  rewrite Hf. assert (event_taken (rg_protocol_events r) (length before) e = false) as ->.
  { apply existsb_false. intros [i e'] Hin. cbn. apply not_true_iff_false. intros Htk.
    apply andb_true_iff in Htk as [[->%Nat.eqb_eq Htask%String.eqb_eq]%andb_true_iff Hr%Z.eqb_eq].
    pose proof (Hrows _ _ Hin ltac:(congruence) ltac:(congruence)). lia. }
  unfold real_not_null. rewrite Hnan. cbn. apply IH.
  - intros e' He'. apply Hes. by right.
  - intros b [Hin | ->%list_elem_of_singleton]%elem_of_app; auto.
  - cbn. intros i e' [Hin | Hin%list_elem_of_singleton]%elem_of_app Htask Hr; rewrite length_app; cbn.
    + pose proof (Hrows _ _ Hin Htask Hr). lia.
    + injection Hin as -> ->. lia.
Qed.

(** The canonical task row after a transition. *)
Definition synced_task (d : ProtocolDecision) (task : TaskRecord) : TaskRecord :=
  task <| tr_current_worker_id := ws_current_worker_id (pd_state d) |>
       <| tr_state :=
            if bool_decide (ws_task_status (pd_state d) = DurableTaskStatus.COMPLETED)
            then SupervisorState.COMPLETED else tr_state task |>
       <| tr_updated_at := latest_at (tr_updated_at task) (pd_events d) |>.

Record persisted (r : Registry) (previous : WorkerTaskState) (d : ProtocolDecision) (e : Z)
    (r' : Registry) : Prop := {
  ps_workers : rg_workers r' =
    put_all wl_worker_id (row_for (workers_of r (ws_task_id (pd_state d))))
      (ws_workers (pd_state d)) (rg_workers r);
  ps_leases : rg_protocol_leases r' =
    put_all wl_worker_id lease_values (ws_workers (pd_state d)) (rg_protocol_leases r);
  ps_task : ∃ task, rg_tasks r !! ws_task_id (pd_state d) = Some task ∧
    rg_tasks r' = <[ws_task_id (pd_state d) := synced_task d task]> (rg_tasks r);
  ps_row : ∃ row, rg_protocol_tasks r !! ws_task_id (pd_state d) = Some row ∧
    pt_revision row = e ∧
    rg_protocol_tasks r' =
      <[ws_task_id (pd_state d) := _task_values (pd_state d)]> (rg_protocol_tasks r);
  ps_events : rg_protocol_events r' =
    rg_protocol_events r ++ number_events [] (pd_events d);
  ps_lineage : ws_lineage previous = ws_lineage (pd_state d);
  ps_other : other_tables r' = other_tables r;
  ps_allowed : ∀ l, l ∈ ws_workers (pd_state d) →
    sync_allowed r (ws_task_id (pd_state d)) l ∧ upsert_allowed l;
}.

Lemma persist_effect r previous d e r' :
  NoDup (ids (ws_workers (pd_state d))) →
  _persist_decision_locked r previous d e = Ok r' → persisted r previous d e r'.
Proof.
  intros Hnd H. apply bind_Ok_inv in H as (r1 & Hs & H).
  apply sync_effect in Hs as ((Hw1 & Hl1 & [Ht1 Hp1 He1 Ho1]) & Ha & _); [|done].
  apply bind_Ok_inv in H as (task & Htask & H). cbv zeta in H.
  apply unit_bind_Ok in H as [_ H]. apply raise_if_then in H as [Hcas H].
  cbn [rg_protocol_tasks] in Hcas.
  apply bind_Ok_inv in H as (r2 & Hu & H). apply bind_Ok_inv in H as (r3 & Hev & H).
  apply raise_if_then in H as [Hlin%negb_false_iff [= <-]]. apply bool_decide_eq_true in Hlin.
  apply upsert_effect in Hu as ((Hl2 & Hw2 & [Ht2 Hp2 He2 Ho2]) & Hup); [|done].
  apply append_effect in Hev as ->. cbn in *.
  destruct (rg_tasks r1 !! _) as [task'|] eqn:Hrow; [|done]. injection Htask as <-.
  destruct (rg_protocol_tasks r1 !! _) as [row|] eqn:Hprow; [|done].
  apply negb_false_iff, Z.eqb_eq in Hcas.
  constructor; cbn; try done.
  - by rewrite Hw2.
  - by rewrite Hl2, Hl1.
  - exists task'. rewrite <- Ht1. split; [done|]. by rewrite Ht2.
  - exists row. rewrite <- Hp1. split_and!; [done..|]. by rewrite Hp2.
  - by rewrite He2, He1.
  - trans (other_tables r2); [done|]. rewrite Ho2. trans (other_tables r1); [done|exact Ho1].
  - intros l Hin. split; auto.
Qed.

(** ** A committed transition *)

(** What a successful call did: nothing, or one persisted and reloaded mutation. *)
Lemma apply_Ok r task_id e f r' d :
  apply_worker_protocol_transition r task_id e f = Ok (r', d) →
  ∃ s, loaded r task_id s ∧ f s = Ok d ∧ ws_task_id (pd_state d) = task_id ∧
    pd_expected_revision d = e ∧
    ((pd_mutated d = false ∧ r' = r) ∨
     (pd_mutated d = true ∧ valid_state (pd_state d) ∧ persisted r s d e r' ∧
      loaded r' task_id (pd_state d) ∧
      (∀ ev, ev ∈ pd_events d → pe_task_id ev = task_id ∧
         pe_revision ev = ws_revision (pd_state d)) ∧ ws_revision (pd_state d) = e + 1)).
Proof.
  intros H. apply bind_Ok_inv in H as (s & Hs%load_Ok & H).
  apply bind_Ok_inv in H as (d' & Hd & H).
  apply raise_if_then in H as [He%negb_false_iff%Z.eqb_eq H].
  apply raise_if_then in H as [Ht%negb_false_iff%String.eqb_eq H].
  destruct (pd_mutated d') eqn:Hm; cbn [negb] in H.
  - apply raise_if_then in H as [_ H]. apply raise_if_then in H as [Hrev H].
    apply raise_if_then in H as [_ H]. apply raise_if_then in H as [Hev H].
    apply unit_bind_Ok in H as [Hv%validate_state_iff H].
    apply bind_Ok_inv in H as (r1 & Hp & H). apply bind_Ok_inv in H as (s' & Hl%load_Ok & H).
    apply raise_if_then in H as [Heq%negb_false_iff%bool_decide_eq_true [= <- <-]]. subst s'.
    apply negb_false_iff, Z.eqb_eq in Hrev.
    exists s. split_and!; try done. right. split_and!; try done.
    + apply persist_effect in Hp; [done|apply Hv].
    + intros ev Hin. rewrite existsb_false in Hev. specialize (Hev _ Hin). bool_to_prop.
      by rewrite String.eqb_eq in *.
  - injection H as <- <-. exists s. split_and!; try done. by left.
Qed.
