(* ===== verification/PersistenceTheorems.v ===== *)
(** * The database behaves like the pure protocol

    Whatever sequence of protocol calls and of bootstraps is made on whatever tasks, the
    snapshot that can be loaded for a task moves only by transitions of the pure protocol, as
    long as no child is bootstrapped before its parent; and every transition
    of the pure protocol that a writer asks for with usable timestamps is persisted and
    read back. *)

From S2P Require Import Prelude PyFloat PyStr PyJson Models WorkerProtocol.
From S2P Require Import WorkerProtocolFacts WorkerProtocolSteps WorkerProtocolReach.
From S2P Require Import Registry Persistence PersistenceFacts.

Open Scope string_scope.
Open Scope Z_scope.
Open Scope list_scope.

(** ** The invariant of the protocol tables *)

Definition row_stored (row : ProtocolTaskRow) : Prop :=
  sql_real (pt_handoff_requested_at row) = pt_handoff_requested_at row ∧
  sql_real (pt_completed_at row) = pt_completed_at row.

Record lease_stored (l : WorkerLease) : Prop := {
  lt_ref : opt_truthy (wl_conversation_ref l) = true;
  lt_reals : lease_values l = l;
  lt_ended : lease_ended (wl_status l) = true → wl_ended_at l ≠ None;
}.

Record db_ok (r : Registry) : Prop := {
  db_leases : ∀ k l, rg_protocol_leases r !! k = Some l → wl_worker_id l = k ∧ lease_stored l;
  db_rows : ∀ k row, rg_protocol_tasks r !! k = Some row →
    tl_task_id (pt_lineage row) = k ∧ row_stored row;
  db_events : ∀ i e, (i, e) ∈ rg_protocol_events r →
    ∃ row, rg_protocol_tasks r !! pe_task_id e = Some row ∧ pe_revision e ≤ pt_revision row;
  db_updated : ∀ k t, rg_tasks r !! k = Some t → is_nan (tr_updated_at t) = false;
}.

Lemma sql_real_idemp x : sql_real (sql_real x) = sql_real x.
Proof. destruct x as [f|]; cbn; [|done]. destruct (is_nan f) eqn:E; cbn; [done|]. by rewrite E. Qed.

Lemma sql_real_some f : is_nan f = false → sql_real (Some f) = Some f.
Proof. cbn. by intros ->. Qed.

Lemma latest_at_real t events : is_nan t = false → is_nan (latest_at t events) = false.
Proof.
  intros Ht. destruct events as [|e es]; [done|]. cbn. unfold fmax.
  destruct (flt t _) eqn:E; [|done]. by apply flt_not_nan in E as [_ ?].
Qed.

(** Each worker of a committed snapshot has a canonical row of its task. *)
Lemma persisted_row r s d e r' l :
  valid_state (pd_state d) → persisted r s d e r' → l ∈ ws_workers (pd_state d) →
  rg_workers r' !! wl_worker_id l =
    Some (row_for (workers_of r (ws_task_id (pd_state d))) l) ∧
  wr_task_id (row_for (workers_of r (ws_task_id (pd_state d))) l) = ws_task_id (pd_state d).
Proof.
  intros V P Hl. split; [rewrite (ps_workers _ _ _ _ _ P); by apply put_all_in; [apply V|]|].
  unfold row_for. destruct (workers_of _ _ !! _) as [row|] eqn:E; cbn.
  - by apply lookup_workers_of in E as [_ ?].
  - by apply (vs_task _ V).
Qed.

Lemma row_for_ended existing l :
  wr_ended_at (row_for existing l) = sql_real (wl_ended_at l).
Proof. unfold row_for. by destruct (existing !! _). Qed.

Lemma apply_db_ok r task_id e f r' d :
  db_ok r → apply_worker_protocol_transition r task_id e f = Ok (r', d) → db_ok r'.
Proof.
  intros D (s & L & _ & Htask & _ & [[_ ->]|(_ & V & P & L' & Hev & Hrev)])%apply_Ok; [done|].
  constructor.
  - intros k l Hk. rewrite (ps_leases _ _ _ _ _ P) in Hk.
    apply put_all_cases in Hk as [(x & Hx & -> & ->)|[_ Hk]]; [|by apply (db_leases _ D)|apply V].
    split; [done|]. destruct (ps_allowed _ _ _ _ _ P _ Hx) as [_ [Href _]].
    split; [done| |].
    + unfold lease_values. cbn. by rewrite !sql_real_idemp.
    + cbn. intros He. destruct (cs_lease _ _ (ld_consistent _ _ _ L') _ Hx) as (row & Hrow & M).
      apply lookup_workers_of in Hrow as [Hrow _].
      destruct (persisted_row _ _ _ _ _ _ V P Hx) as [Hrow' _].
      rewrite Hrow' in Hrow. injection Hrow as <-. pose proof (lm_ended _ _ _ M He) as Hne.
      by rewrite row_for_ended in Hne.
  - destruct (ps_row _ _ _ _ _ P) as (row & _ & _ & ->).
    intros k row' [[<- <-]|[_ Hk]]%lookup_insert_Some; [|by apply (db_rows _ D)].
    split; [done|]. by split; apply sql_real_idemp.
  - destruct (ps_row _ _ _ _ _ P) as (row & Hrow & Hr & ->). rewrite (ps_events _ _ _ _ _ P).
    intros i ev [Hin|Hin]%elem_of_app.
    + destruct (db_events _ D _ _ Hin) as (row' & Hrow' & Hle).
      destruct (decide (pe_task_id ev = ws_task_id (pd_state d))) as [E|E].
      * rewrite E, lookup_insert_eq. eexists. split; [done|]. cbn.
        rewrite E, Hrow in Hrow'. injection Hrow' as <-. lia.
      * rewrite lookup_insert_ne by done. eauto.
    + apply (list_elem_of_fmap_2 snd) in Hin. rewrite number_events_snd in Hin. cbn in Hin.
      destruct (Hev _ Hin) as [-> Hr']. rewrite <- Htask, lookup_insert_eq.
      eexists. split; [done|]. cbn in *. lia.
  - destruct (ps_task _ _ _ _ _ P) as (task & Ht & ->).
    intros k t [[<- <-]|[_ Hk]]%lookup_insert_Some; [|by apply (db_updated _ D) in Hk].
    cbn. by eapply latest_at_real, db_updated.
Qed.

(** ** A call on one task does not disturb another *)

Section Frame.
Context (r : Registry) (s : WorkerTaskState) (d : ProtocolDecision) (e : Z) (r' : Registry).
Context (D : db_ok r) (V : valid_state (pd_state d)) (P : persisted r s d e r').
Context (L : loaded r (ws_task_id (pd_state d)) s).
Context (other : string) (Hne : other ≠ ws_task_id (pd_state d)).

Lemma frame_workers : workers_of r' other = workers_of r other.
Proof using V P Hne.
  apply map_eq. intros k. apply option_eq. intros w. rewrite !lookup_workers_of.
  destruct (decide (k ∈ ids (ws_workers (pd_state d)))) as [Hk|Hk].
  - apply list_elem_of_fmap in Hk as (l & -> & Hl).
    destruct (persisted_row _ _ _ _ _ _ V P Hl) as [-> Ht]. split.
    + intros [[= <-] ?]. congruence.
    + intros [Hw Hwt]. destruct (ps_allowed _ _ _ _ _ P _ Hl) as [Ha _]. exfalso.
      unfold sync_allowed in Ha. destruct (workers_of r _ !! _) as [row|] eqn:E.
      * apply lookup_workers_of in E as [E Hrow]. congruence.
      * destruct Ha as (_ & _ & Hnone & _). congruence.
  - by rewrite (ps_workers _ _ _ _ _ P), put_all_out.
Qed.

Lemma frame_leases sB : loaded r other sB → leases_of r' other = leases_of r other.
Proof using D V P Hne.
  intros LB. apply select_ext. intros k l Hp. apply String.eqb_eq in Hp.
  destruct (decide (k ∈ ids (ws_workers (pd_state d)))) as [Hk|Hk].
  - apply list_elem_of_fmap in Hk as (x & -> & Hx). rewrite (ps_leases _ _ _ _ _ P). split.
    + rewrite put_all_in by (apply V || done). intros [= <-]. cbn in Hp.
      by rewrite (vs_task _ V _ Hx) in Hp.
    + intros Hl. exfalso.
      destruct (ld_row _ _ _ LB) as (row & _ & HsB).
      assert (l ∈ ws_workers sB) as Hin by (rewrite HsB; apply elem_of_leases_of; eauto).
      destruct (cs_lease _ _ (ld_consistent _ _ _ LB) _ Hin) as (w & Hw & M).
      rewrite (vs_task _ (ld_valid _ _ _ LB) _ Hin) in Hp. rewrite Hp in Hw.
      rewrite (proj1 (db_leases _ D _ _ Hl)), <- frame_workers in Hw.
      apply lookup_workers_of in Hw as [Hw Hwt].
      destruct (persisted_row _ _ _ _ _ _ V P Hx) as [Hrow Ht]. congruence.
  - by rewrite (ps_leases _ _ _ _ _ P), put_all_out.
Qed.

Lemma frame_tasks k : is_Some (rg_tasks r' !! k) ↔ is_Some (rg_tasks r !! k).
Proof using P.
  destruct (ps_task _ _ _ _ _ P) as (task & Ht & ->).
  destruct (decide (k = ws_task_id (pd_state d))) as [->|Hk].
  - rewrite lookup_insert_eq, Ht. split; by eexists.
  - by rewrite lookup_insert_ne.
Qed.

Lemma frame_root k : protocol_root r' k = protocol_root r k.
Proof using P L.
  unfold protocol_root. destruct (ps_row _ _ _ _ _ P) as (row & Hrow & _ & ->).
  destruct (decide (k = ws_task_id (pd_state d))) as [->|Hk]; [|by rewrite lookup_insert_ne].
  rewrite lookup_insert_eq, Hrow. cbn. rewrite <- (ps_lineage _ _ _ _ _ P).
  destruct (ld_row _ _ _ L) as (row' & Hrow' & ->). cbn. congruence.
Qed.

Lemma frame_loaded sB : loaded r other sB → loaded r' other sB.
Proof using D V P L Hne.
  intros LB. destruct (ld_row _ _ _ LB) as (row & Hrow & HsB).
  assert (ws_task_id sB = other) as Hid.
  { rewrite HsB. by apply (db_rows _ D). }
  constructor.
  - exists row. rewrite (frame_leases _ LB). split; [|done].
    destruct (ps_row _ _ _ _ _ P) as (? & _ & _ & ->). by rewrite lookup_insert_ne.
  - apply LB.
  - destruct (ld_lineage _ _ _ LB) as [Hr Hp]. constructor; [by apply frame_tasks|].
    intros parent E. destruct (Hp _ E) as [He Hroot]. split; [by apply frame_tasks|].
    intros root. rewrite frame_root. apply Hroot.
  - destruct (ld_consistent _ _ _ LB) as [Ht Hi Hl]. rewrite Hid in *.
    constructor; rewrite Hid, ?frame_workers; [|done..].
    destruct Ht as (task & Ht & M). exists task. split; [|done].
    destruct (ps_task _ _ _ _ _ P) as (? & _ & ->). by rewrite lookup_insert_ne.
Qed.

End Frame.

(** A call on any task keeps every loadable snapshot, or advances it by its transition. *)
Lemma apply_loaded r task_id e f r' d id s :
  db_ok r → apply_worker_protocol_transition r task_id e f = Ok (r', d) → loaded r id s →
  ∃ s', loaded r' id s' ∧ (s' = s ∨ (id = task_id ∧ f s = Ok d ∧ s' = pd_state d)).
Proof.
  intros D (s0 & L & Hf & Htask & _ & [[_ ->]|(_ & V & P & L' & _)])%apply_Ok Ls; [by eauto|].
  destruct (decide (id = task_id)) as [->|Hne].
  - exists (pd_state d). split; [done|]. right. split_and!; try done.
    rewrite <- load_Ok in L, Ls. assert (s0 = s) as -> by congruence. done.
  - exists s. split; [|by left]. subst task_id. by eapply frame_loaded.
Qed.

(** ** Every step of the protocol can be persisted *)

(** The times that a request writes are not NaN. *)
Definition real_times (req : request) : bool :=
  match req with
  | Register _ _ now | Handoff _ _ _ now | CompleteWorker _ _ now | AbandonWorker _ _ now
  | CompleteTask _ now => negb (is_nan now)
  | Claim _ now ls | Heartbeat _ _ now ls | Takeover _ now ls =>
      negb (is_nan now) && negb (is_nan (fadd now ls))
  end.

(** A newly registered worker has a conversation and an id that no task uses. *)
Definition fresh_registration (r : Registry) (s : WorkerTaskState) (req : request) : Prop :=
  match req with
  | Register id ref _ => worker_by_id s (strip id) = None →
      opt_truthy ref = true ∧ rg_workers r !! strip id = None
  | _ => True
  end.

Lemma stored_reals l :
  lease_values l = l →
  sql_real (wl_claimed_at l) = wl_claimed_at l ∧
  sql_real (wl_last_heartbeat_at l) = wl_last_heartbeat_at l ∧
  sql_real (wl_lease_expires_at l) = wl_lease_expires_at l ∧
  sql_real (wl_ended_at l) = wl_ended_at l.
Proof.
  intros H. split_and!; [apply (f_equal wl_claimed_at H)|apply (f_equal wl_last_heartbeat_at H)
    |apply (f_equal wl_lease_expires_at H)|apply (f_equal wl_ended_at H)].
Qed.

Section Commit.
Context (r : Registry) (task_id : string) (s : WorkerTaskState).
Context (D : db_ok r) (L : loaded r task_id s).

Lemma loaded_id : ws_task_id s = task_id.
Proof using D L.
  destruct (ld_row _ _ _ L) as (row & Hrow & ->). by apply (db_rows _ D).
Qed.

Lemma loaded_sorted : Sorted (λ a b, leb_key wl_worker_id a b = true) (ws_workers s).
Proof using D L.
  destruct (ld_row _ _ _ L) as (row & _ & ->). apply (select_sorted wl_worker_id).
  intros k l Hk. by apply (db_leases _ D).
Qed.

(** What a lease needs to be persisted and read back. *)
Record storable (known : gset string) (l : WorkerLease) : Prop := {
  sb_stored : lease_stored l;
  sb_registered : is_nan (wl_registered_at l) = false;
  sb_superseded : ∀ by_id, wl_superseded_by l = Some by_id → by_id ∈ known;
  sb_allowed : sync_allowed r task_id l;
  sb_started : ∀ row, workers_of r task_id !! wl_worker_id l = Some row →
    feq (wr_started_at row) (wl_registered_at l) = true;
}.

Lemma loaded_storable l : l ∈ ws_workers s → storable (protocol_ids s) l.
Proof using D L.
  intros Hl. pose proof loaded_id as Hid.
  destruct (cs_lease _ _ (ld_consistent _ _ _ L) _ Hl) as (row & Hrow & M). rewrite Hid in Hrow.
  assert (∃ k, rg_protocol_leases r !! k = Some l) as [k Hk].
  { destruct (ld_row _ _ _ L) as (prow & _ & E). rewrite E in Hl. by apply elem_of_leases_of in Hl as [_ ?]. }
  constructor.
  - exact (proj2 (db_leases _ D _ _ Hk)).
  - apply (feq_not_nan _ _ (lm_started _ _ _ M)).
  - apply M.
  - unfold sync_allowed. rewrite Hrow. split; [apply M|apply M].
  - intros row'. rewrite Hrow. intros [= <-]. apply M.
Qed.

(** A lease that keeps its identity stays storable. *)
Lemma storable_update known known' w u :
  storable known w → known ⊆ known' → wl_worker_id u = wl_worker_id w →
  wl_task_id u = wl_task_id w → wl_conversation_ref u = wl_conversation_ref w →
  wl_registered_at u = wl_registered_at w →
  workers_of r task_id !! wl_worker_id w ≠ None →
  lease_values u = u → (lease_ended (wl_status u) = true → wl_ended_at u ≠ None) →
  (wl_superseded_by u = wl_superseded_by w ∨ ∃ c, wl_superseded_by u = Some c ∧ c ∈ known') →
  storable known' u.
Proof.
  intros [[Href _ _] Hreg Hsup Hall Hst] Hsub Hid Ht Hr Hra Hex Hv He Hs.
  constructor.
  - split; [by rewrite Hr|done|done].
  - by rewrite Hra.
  - intros b Hb. destruct Hs as [Hs|(c & Hs & Hc)]; [apply Hsub, Hsup; congruence|congruence].
  - unfold sync_allowed in *. rewrite Hid, Ht, Hr.
    destruct (workers_of r task_id !! wl_worker_id w); [done|by destruct Hex].
  - intros row. rewrite Hid, Hra. apply Hst.
Qed.

Lemma storable_mono known known' w : storable known w → known ⊆ known' → storable known' w.
Proof. intros [] Hsub. constructor; auto. Qed.

Lemma loaded_row l : l ∈ ws_workers s → workers_of r task_id !! wl_worker_id l ≠ None.
Proof using D L.
  intros Hl. destruct (cs_lease _ _ (ld_consistent _ _ _ L) _ Hl) as (row & Hrow & _).
  rewrite loaded_id in Hrow. by rewrite Hrow.
Qed.

Lemma storable_claimed known' w g now ls :
  w ∈ ws_workers s → protocol_ids s ⊆ known' → is_nan now = false →
  is_nan (fadd now ls) = false → storable known' (claimed_lease w g now ls).
Proof using D L.
  intros Hw Hsub Hn He. pose proof (loaded_storable _ Hw) as Hs.
  eapply storable_update; try done; [by apply loaded_row| |by left].
  destruct (stored_reals _ (lt_reals _ (sb_stored _ _ Hs))) as (E1 & E2 & E3 & E4).
  unfold lease_values. cbn. by rewrite ?Hn, ?He, ?E1, ?E2, ?E3, ?E4.
Qed.

Lemma storable_ended known' w st now :
  w ∈ ws_workers s → protocol_ids s ⊆ known' → is_nan now = false →
  storable known' (ended_lease w st now).
Proof using D L.
  intros Hw Hsub Hn. pose proof (loaded_storable _ Hw) as Hs.
  eapply storable_update; try done; [by apply loaded_row| |by left].
  destruct (stored_reals _ (lt_reals _ (sb_stored _ _ Hs))) as (E1 & E2 & E3 & E4).
  unfold lease_values. cbn. by rewrite ?Hn, ?E1, ?E2, ?E3, ?E4.
Qed.

Lemma step_storable req c t es :
  real_times req = true → fresh_registration r s req → step s req c t es →
  ∀ u, u ∈ ws_workers t → storable (protocol_ids t) u.
Proof using D L.
  intros Hreal Hfresh Hs. pose proof (ld_valid _ _ _ L) as V.
  assert (protocol_ids s ⊆ protocol_ids t) as Hsub.
  { intros id. rewrite !elem_of_protocol_ids. by eapply step_ids. }
  assert (∀ u, u ∈ ws_workers s → storable (protocol_ids t) u) as Hkeep.
  { intros u Hu. eapply storable_mono; [by apply loaded_storable|done]. }
  destruct Hs; cbn in Hreal, Hfresh |- *; intros u Hu; bool_to_prop.
  - apply elem_of_sorted_workers, elem_of_app in Hu as [Hu | ->%list_elem_of_singleton]; [auto|].
    destruct (Hfresh H1) as [Href Hnew].
    assert (workers_of r task_id !! strip id = None) as Hno.
    { destruct (workers_of r task_id !! strip id) eqn:E; [|done].
      apply lookup_workers_of in E as [E _]. congruence. }
    constructor; cbn; try done.
    + unfold sync_allowed. cbn. by rewrite Hno.
    + by rewrite Hno.
  - apply elem_of_replace in Hu as [[-> _] | [Hu _]]; [|auto].
    apply storable_claimed; eauto with lws.
  - apply elem_of_replace in Hu as [[-> _] | [Hu _]]; [|auto].
    destruct H as [Ho _]. pose proof (owned_elem _ _ _ Ho) as Hw.
    pose proof (loaded_storable _ Hw) as Hs.
    eapply storable_update; try done; [by apply loaded_row| | |by left].
    + destruct (stored_reals _ (lt_reals _ (sb_stored _ _ Hs))) as (E1 & E2 & E3 & E4).
  unfold lease_values. cbn. by rewrite ?H0, ?H1, ?E1, ?E2, ?E3, ?E4.
    + apply Hs.
  - auto.
  - pose proof H1 as [Hold _]%worker_by_id_Some.
    apply elem_of_replace in Hu as [[-> _] | [Hu _]]; [by apply storable_claimed; eauto with lws|].
    apply elem_of_replace in Hu as [[-> _] | [Hu _]]; [|auto].
    pose proof (loaded_storable _ Hold) as Hs.
    eapply storable_update; try done; [by apply loaded_row| |].
    + destruct (stored_reals _ (lt_reals _ (sb_stored _ _ Hs))) as (E1 & E2 & E3 & E4).
  unfold lease_values. cbn. by rewrite ?H4, ?E1, ?E2, ?E3, ?E4.
    + right. exists (wl_worker_id c). split; [done|]. apply Hsub, elem_of_protocol_ids.
      apply elem_of_ids. eauto with lws.
  - apply elem_of_replace in Hu as [[-> _] | [Hu _]]; [|auto].
    destruct H as [Ho _]. apply storable_ended; eauto with lws.
  - apply elem_of_replace in Hu as [[-> _] | [Hu _]]; [|auto].
    apply storable_ended; eauto with lws.
  - auto.
Qed.

Lemma step_sorted req c t es :
  step s req c t es → Sorted (λ a b, leb_key wl_worker_id a b = true) (ws_workers t).
Proof using D L.
  intros Hs. destruct Hs; cbn; try apply loaded_sorted;
    apply py_sorted_Sorted, leb_key_total.
Qed.

Lemma step_row_stored req c t es :
  real_times req = true → step s req c t es →
  sql_real (ws_handoff_requested_at t) = ws_handoff_requested_at t ∧
  sql_real (ws_completed_at t) = ws_completed_at t.
Proof using D L.
  intros Hreal Hs. destruct (ld_row _ _ _ L) as (row & Hrow & Es).
  destruct (db_rows _ D _ _ Hrow) as [_ [Hh Hc]].
  assert (sql_real (ws_handoff_requested_at s) = ws_handoff_requested_at s) as Hsh by (by rewrite Es).
  assert (sql_real (ws_completed_at s) = ws_completed_at s) as Hsc by (by rewrite Es).
  destruct Hs; cbn in *; bool_to_prop; split; try done; by apply sql_real_some.
Qed.

End Commit.

Lemma step_events s req c t es :
  real_times req = true → step s req c t es →
  es ≠ [] ∧ ∀ e, e ∈ es → pe_task_id e = ws_task_id s ∧ is_nan (pe_at e) = false.
Proof.
  intros Hreal Hs.
  assert (∀ (P : ProtocolEvent → Prop) (l : list ProtocolEvent), Forall P l → ∀ e, e ∈ l → P e)
    as Hall by (intros P l; apply Forall_forall).
  destruct Hs; cbn in Hreal; bool_to_prop; (split; [done|]);
    apply Hall; repeat constructor; done.
Qed.

Lemma refuse_pass {A} msg (k : res A) : (refuse_if false msg;; k) = k.
Proof. done. Qed.

Section Persist.
Context (r : Registry) (task_id : string) (s : WorkerTaskState).
Context (D : db_ok r) (L : loaded r task_id s).
Context (req : request) (c : DecisionCode.t) (t : WorkerTaskState) (es : list ProtocolEvent).
Context (Hreal : real_times req = true) (Hfresh : fresh_registration r s req).
Context (Hstep : step s req c t es).

Let s' := commit s t.
Let d := mkProtocolDecision true c (ws_revision s) s' (stamp s es).

Lemma committed_valid : valid_state s'.
Proof using L Hstep. eapply step_valid; [apply L|done]. Qed.

Lemma committed_lineage : ws_lineage s' = ws_lineage s.
Proof using Hstep. exact (step_lineage_record _ _ _ _ _ Hstep). Qed.

Lemma committed_id : ws_task_id s' = task_id.
Proof using D L Hstep.
  unfold ws_task_id. rewrite committed_lineage. by apply (loaded_id r task_id s).
Qed.

Lemma committed_storable l : l ∈ ws_workers s' → storable r task_id (protocol_ids s') l.
Proof using D L Hreal Hfresh Hstep.
  exact (step_storable _ _ _ D L _ _ _ _ Hreal Hfresh Hstep l).
Qed.

(** The rows of the task after the sync are those of the committed workers. *)
Lemma synced_dom r' :
  rg_workers r' = put_all wl_worker_id (row_for (workers_of r task_id)) (ws_workers s') (rg_workers r) →
  dom (workers_of r' task_id) = protocol_ids s'.
Proof using D L Hstep.
  intros Hw. apply set_eq. intros k. rewrite elem_of_dom, elem_of_protocol_ids.
  destruct (decide (k ∈ ids (ws_workers s'))) as [Hk|Hk].
  - split; [done|]. intros _. apply list_elem_of_fmap in Hk as (l & -> & Hl).
    exists (row_for (workers_of r task_id) l). apply lookup_workers_of.
    rewrite Hw, put_all_in by (apply committed_valid || done). split; [done|].
    unfold row_for. destruct (workers_of r task_id !! _) as [row|] eqn:E; cbn.
    + by apply lookup_workers_of in E as [_ ?].
    + by rewrite (vs_task _ committed_valid _ Hl), committed_id.
  - split; [|done]. intros [w Hw']. exfalso. apply Hk.
    apply lookup_workers_of in Hw' as [Hw' Ht]. rewrite Hw, put_all_out in Hw' by done.
    apply (step_ids _ _ _ _ _ _ Hstep), elem_of_protocol_ids.
    rewrite <- (cs_ids _ _ (ld_consistent _ _ _ L)), (loaded_id _ _ _ D L).
    apply elem_of_dom. exists w. by apply lookup_workers_of.
Qed.

Lemma persist_total : is_Ok (_persist_decision_locked r s d (ws_revision s)).
Proof using D L Hreal Hfresh Hstep.
  destruct (ld_row _ _ _ L) as (row & Hrow & Es).
  destruct (cs_task _ _ (ld_consistent _ _ _ L)) as (task & Htask & _).
  rewrite (loaded_id _ _ _ D L) in Htask.
  unfold _persist_decision_locked. cbn [d pd_state pd_events]. rewrite committed_id.
  destruct (sync_total r s') as [r1 Hr1].
  { apply committed_valid. }
  { intros l Hl. rewrite committed_id. by apply committed_storable. }
  { intros r1 Hr1. rewrite committed_id in *. by apply synced_dom, Hr1. }
  pose proof Hr1 as Heff. rewrite Hr1, Ok_bind.
  apply sync_effect in Heff as ((_ & _ & [Ht1 Hp1 He1 _]) & _); [|apply committed_valid].
  rewrite Ht1, Htask, Ok_bind. unfold real_not_null.
  rewrite latest_at_real by (by eapply db_updated). cbn [raise_if]. rewrite Ok_bind.
  cbn [fset rg_protocol_tasks]. rewrite Hp1, Hrow.
  assert (pt_revision row = ws_revision s) as -> by (by rewrite Es). rewrite Z.eqb_refl.
  cbn [negb]. rewrite refuse_pass. cbv zeta.
  edestruct (upsert_total) as [r2 Hr2]; [|rewrite Hr2].
  { intros l Hl. pose proof (committed_storable l Hl) as Hs.
    split; [apply Hs|apply (sb_registered _ _ _ _ Hs)]. }
  rewrite Ok_bind. apply upsert_effect in Hr2 as ((_ & _ & [_ _ He2 _]) & _); [|apply committed_valid].
  unfold _append_events. destruct (append_total r2 [] (stamp s es) task_id (ws_revision s + 1))
    as [r3 Hr3].
  - intros e (e0 & -> & He0)%list_elem_of_fmap.
    destruct (step_events _ _ _ _ _ Hreal Hstep) as [_ Hev]. destruct (Hev _ He0) as [Ht Ha].
    cbn. by rewrite Ht, (loaded_id _ _ _ D L).
  - by intros e ?%not_elem_of_nil.
  - rewrite He2. cbn. rewrite He1. intros i e Hin Ht Hr.
    destruct (db_events _ D _ _ Hin) as (row' & Hrow' & Hle). rewrite Ht, Hrow in Hrow'.
    injection Hrow' as <-. rewrite Es in Hr. cbn in Hr. lia.
  - rewrite Hr3, Ok_bind, committed_lineage. unfold refuse_if.
    rewrite bool_decide_eq_true_2 by done. by eexists.
Qed.

Lemma persisted_leases r' :
  persisted r s d (ws_revision s) r' → leases_of r' task_id = ws_workers s'.
Proof using D L Hreal Hfresh Hstep.
  intros P. pose proof committed_valid as V.
  assert (∀ k l, rg_protocol_leases r' !! k = Some l → wl_worker_id l = k) as Hkey.
  { intros k l Hk. rewrite (ps_leases _ _ _ _ _ P) in Hk.
    apply put_all_cases in Hk as [(x & _ & -> & ->)|[_ Hk]]; [done| |apply V].
    by apply (db_leases _ D). }
  destruct (select_sorted wl_worker_id (λ l, String.eqb (wl_task_id l) task_id) _ Hkey) as [Hs Hnd].
  apply (sorted_by_key_unique wl_worker_id); [done| | |].
  - exact (step_sorted _ _ _ D L _ _ _ _ Hstep).
  - intros x y Hx Hy. apply (NoDup_ids_inj _ _ _ Hnd Hx Hy).
  - apply NoDup_Permutation; [by eapply NoDup_fmap_1|eapply NoDup_fmap_1, V|].
    intros l. rewrite elem_of_leases_of. rewrite (ps_leases _ _ _ _ _ P).
    assert (∀ x, x ∈ ws_workers s' → lease_values x = x) as Hfix.
    { intros x Hx. apply (sb_stored _ _ _ _ (committed_storable x Hx)). }
    split.
    + intros (Ht & k & Hk). apply put_all_cases in Hk as [(x & Hx & -> & ->)|[Hni Hk]]; [| |apply V].
      * by rewrite Hfix.
      * exfalso. apply Hni. assert (l ∈ ws_workers s) as Hl.
        { destruct (ld_row _ _ _ L) as (row & _ & ->). apply elem_of_leases_of. eauto. }
        rewrite <- (proj1 (db_leases _ D _ _ Hk)).
        apply (step_ids _ _ _ _ _ _ Hstep). by apply elem_of_ids.
    + intros Hl. split; [by rewrite (vs_task _ V _ Hl), committed_id|].
      exists (wl_worker_id l). rewrite put_all_in by (apply V || done). by rewrite Hfix.
Qed.

Lemma persisted_loaded r' : persisted r s d (ws_revision s) r' → loaded r' task_id s'.
Proof using D L Hreal Hfresh Hstep.
  intros P. pose proof committed_valid as V. pose proof committed_id as Hid.
  assert (loaded r (ws_task_id (pd_state d)) s) as L0 by (cbn; by rewrite Hid).
  constructor; [|done| |].
  - exists (_task_values s'). rewrite (persisted_leases _ P). split.
    + destruct (ps_row _ _ _ _ _ P) as (row & _ & _ & ->). cbn [d pd_state].
      by rewrite Hid, lookup_insert_eq.
    + destruct (step_row_stored _ _ _ D L _ _ _ _ Hreal Hstep) as [Hh Hc].
      unfold stored_state, _task_values. cbn.
      change (ws_handoff_requested_at s') with (ws_handoff_requested_at t).
      change (ws_completed_at s') with (ws_completed_at t). rewrite Hh, Hc. by destruct t.
  - destruct (ld_lineage _ _ _ L) as [Hr Hp].
    constructor; rewrite committed_lineage; [by apply (frame_tasks _ _ _ _ _ P)|].
    intros parent E. destruct (Hp _ E) as [He Hroot].
    split; [by apply (frame_tasks _ _ _ _ _ P)|].
    intros root. rewrite (frame_root _ _ _ _ _ P L0). apply Hroot.
  - destruct (cs_task _ _ (ld_consistent _ _ _ L)) as (task & Htask & [Hcur Hcomp Hopen]).
    rewrite (loaded_id _ _ _ D L) in Htask.
    constructor.
    + rewrite Hid. destruct (ps_task _ _ _ _ _ P) as (task' & Ht' & ->). cbn [d pd_state] in *.
      rewrite Hid, lookup_insert_eq in *. rewrite Htask in Ht'. injection Ht' as <-.
      eexists. split; [done|]. constructor; cbn; [done| |].
      * intros E. by rewrite bool_decide_eq_true_2.
      * intros E. rewrite E. cbn. apply Hopen.
        change (ws_task_status s') with (ws_task_status t) in E. by destruct Hstep; cbn in E.
    + rewrite Hid. apply synced_dom. rewrite (ps_workers _ _ _ _ _ P). cbn [d pd_state].
      by rewrite Hid.
    + intros l Hl. rewrite Hid. pose proof (committed_storable l Hl) as Hs.
      destruct (persisted_row r s d _ r' l V P Hl) as [Hrow Hrt]. cbn [d pd_state] in *.
      rewrite Hid in *. exists (row_for (workers_of r task_id) l).
      split; [by apply lookup_workers_of|].
      pose proof (sb_allowed _ _ _ _ Hs) as Ha. unfold sync_allowed in Ha.
      constructor.
      * by rewrite (vs_task _ V _ Hl), Hid.
      * unfold row_for. destruct (workers_of r task_id !! _); cbn; [apply Ha|].
        destruct Ha as (_ & Href & _). by destruct (wl_conversation_ref l).
      * unfold row_for. destruct (workers_of r task_id !! _) eqn:E; cbn.
        -- by apply (sb_started _ _ _ _ Hs).
        -- apply feq_refl, Hs.
      * unfold row_for. by destruct (workers_of r task_id !! _).
      * intros He. rewrite row_for_ended.
        destruct (stored_reals _ (lt_reals _ (sb_stored _ _ _ _ Hs))) as (_ & _ & _ & ->).
        by apply (sb_stored _ _ _ _ Hs).
      * apply Hs.
Qed.

Lemma step_applies f :
  f s = Ok d → ∃ r', apply_worker_protocol_transition r task_id (ws_revision s) f = Ok (r', d).
Proof using D L Hreal Hfresh Hstep.
  intros Hf. destruct persist_total as [r' Hp]. exists r'.
  unfold apply_worker_protocol_transition.
  assert (_load_worker_protocol_locked r task_id = Ok s) as -> by by apply load_Ok.
  rewrite Ok_bind, Hf, Ok_bind. cbn [pd_expected_revision d pd_state].
  rewrite Z.eqb_refl, committed_id, String.eqb_refl. cbn [negb]. rewrite !refuse_pass.
  assert (pd_mutated d = true) as Hm by (unfold pd_mutated; cbn; by rewrite Z.eqb_refl).
  rewrite Hm. cbn [negb d pd_accepted pd_state pd_events].
  assert (ws_revision s' = ws_revision s + 1) as Hrev by done.
  rewrite Hrev, !Z.eqb_refl. cbn [negb]. rewrite !refuse_pass.
  destruct (step_events _ _ _ _ _ Hreal Hstep) as [Hne Hev].
  assert (match stamp s es with [] => true | _ => false end = false) as -> by (by destruct es).
  rewrite refuse_pass.
  assert (existsb (λ e, negb (String.eqb (pe_task_id e) task_id) ||
    negb (pe_revision e =? ws_revision s + 1)) (stamp s es) = false) as ->.
  { apply existsb_false. intros e (e1 & -> & He1)%list_elem_of_fmap. cbn.
    destruct (Hev _ He1) as [-> _]. by rewrite (loaded_id _ _ _ D L), String.eqb_refl, Z.eqb_refl. }
  rewrite refuse_pass.
  rewrite (validate_valid _ committed_valid), Ok_bind. fold d. rewrite Hp, Ok_bind.
  apply persist_effect in Hp; [|apply committed_valid].
  assert (_load_worker_protocol_locked r' task_id = Ok s') as ->
    by (by apply load_Ok, persisted_loaded).
  rewrite Ok_bind. unfold refuse_if. by rewrite bool_decide_eq_true_2.
Qed.

End Persist.

(** ** Runs of the registry's protocol calls *)

Inductive protocol_call :=
  | PRegister (task url : string) (e : Z) (worker : option string) (uuid : string) (now : float)
  | PClaim (task worker : string) (e : Z) (lease_seconds now : float)
  | PHeartbeat (task worker : string) (g e : Z) (lease_seconds now : float)
  | PHandoff (task worker target : string) (g e : Z) (now : float)
  | PTakeover (task worker : string) (e : Z) (lease_seconds now : float)
  | PCompleteWorker (task worker : string) (g e : Z) (now : float)
  | PAbandonWorker (task worker : string) (g e : Z) (now : float)
  | PCompleteTask (task ref : string) (e : Z) (now : float).

Definition perform_protocol (r : Registry) (c : protocol_call)
    : res (Registry * ProtocolDecision) :=
  match c with
  | PRegister task url e w uuid now => protocol_register_worker r task url e w uuid now
  | PClaim task w e ls now => protocol_claim_worker r task w e ls now
  | PHeartbeat task w g e ls now => protocol_heartbeat_worker r task w g e ls now
  | PHandoff task w target g e now => protocol_request_handoff r task w target g e now
  | PTakeover task w e ls now => protocol_takeover_worker r task w e ls now
  | PCompleteWorker task w g e now => protocol_complete_worker r task w g e now
  | PAbandonWorker task w g e now => protocol_abandon_worker r task w g e now
  | PCompleteTask task ref e now => protocol_complete_task r task ref e now
  end.

(** An exception rolls the transaction back. *)
Definition protocol_or_stay (r : Registry) (c : protocol_call) : Registry :=
  match perform_protocol r c with Ok x => x.1 | Err _ => r end.

Definition protocol_run (r : Registry) (calls : list protocol_call) : Registry :=
  foldl protocol_or_stay r calls.

Lemma performs_request r c x :
  perform_protocol r c = Ok x →
  ∃ task e req, apply_worker_protocol_transition r task e (λ s, handle s req e) = Ok x.
Proof.
  intros H. destruct c; cbn in H.
  - apply unit_bind_Ok in H as [_ H]. eexists _, _, (Register _ _ _). exact H.
  - eexists _, _, (Claim _ _ _). exact H.
  - eexists _, _, (Heartbeat _ _ _ _). exact H.
  - eexists _, _, (Handoff _ _ _ _). exact H.
  - eexists _, _, (Takeover _ _ _). exact H.
  - eexists _, _, (CompleteWorker _ _ _). exact H.
  - eexists _, _, (AbandonWorker _ _ _). exact H.
  - eexists _, _, (CompleteTask _ _). exact H.
Qed.

Lemma protocol_or_stay_loaded r c id s :
  db_ok r → loaded r id s →
  db_ok (protocol_or_stay r c) ∧
  ∃ s', loaded (protocol_or_stay r c) id s' ∧ rtc transition s s'.
Proof.
  intros D L. unfold protocol_or_stay. destruct (perform_protocol r c) as [[r' d]|] eqn:E;
    [|by eauto using rtc_refl].
  apply performs_request in E as (task & e & req & E). split; [by eapply apply_db_ok|].
  destruct (apply_loaded _ _ _ _ _ _ _ _ D E L) as (s' & L' & [-> | (-> & Hf & ->)]);
    [by eauto using rtc_refl|].
  exists (pd_state d). split; [done|]. apply rtc_once. by exists req, e, d.
Qed.

(** ** Bootstraps

    A task gets its protocol state from its legacy rows, with the place in a tree of tasks that
    the caller names. *)

Inductive db_call :=
  | DProtocol (c : protocol_call)
  | DBootstrap (task_id : string) (parent root key : option string).

Definition db_or_stay (r : Registry) (c : db_call) : Registry :=
  match c with
  | DProtocol c => protocol_or_stay r c
  | DBootstrap task parent root key =>
      match bootstrap_worker_protocol r task parent root key with Ok x => x.1 | Err _ => r end
  end.

Definition db_run (r : Registry) (calls : list db_call) : Registry := foldl db_or_stay r calls.

(** A bootstrap that names the root of a child itself comes after that of the parent. *)
Definition parent_first (r : Registry) (c : db_call) : bool :=
  match c with
  | DBootstrap _ (Some parent) (Some _) _ => protocol_state_exists r (strip parent)
  | _ => true
  end.

Fixpoint parents_first (r : Registry) (calls : list db_call) : bool :=
  match calls with
  | [] => true
  | c :: calls => parent_first r c && parents_first (db_or_stay r c) calls
  end.

(** Rows of workers are keyed and hold no NaN; every parent has protocol state. *)
Record tree_ok (r : Registry) : Prop := {
  to_workers : ∀ k w, rg_workers r !! k = Some w →
    wr_worker_id w = k ∧ sql_real (wr_ended_at w) = wr_ended_at w;
  to_parents : ∀ k row p, rg_protocol_tasks r !! k = Some row →
    tl_parent_task_id (pt_lineage row) = Some p → is_Some (rg_protocol_tasks r !! p);
}.

Lemma mapM_from {A B} (f : A → res B) xs ys y :
  mapM f xs = Ok ys → y ∈ ys → ∃ x, x ∈ xs ∧ f x = Ok y.
Proof.
  revert ys. induction xs as [|x xs IH]; intros ys; cbn.
  { intros [= <-] ?%not_elem_of_nil. done. }
  intros (b & Hb & (bs & Hbs & [= <-])%bind_Ok_inv)%bind_Ok_inv [->|Hy]%elem_of_cons.
  - exists x. split; [by left|done].
  - destruct (IH _ Hbs Hy) as (x' & ? & ?). exists x'. split; [by right|done].
Qed.

(** A lease of a new snapshot is that of a worker row of the task. *)
Lemma legacy_lease_Ok task_id w l :
  legacy_lease task_id w = Ok l →
  wl_worker_id l = wr_worker_id w ∧ wl_task_id l = task_id ∧
  (lease_ended (wl_status l) = true → wl_ended_at l = wr_ended_at w ∧ wr_ended_at w ≠ None).
Proof.
  unfold legacy_lease. cbv zeta. destruct (wr_status w); cbn.
  - by intros [_ [= <-]]%unit_bind_Ok.
  - done.
  - by destruct (wr_ended_at w) eqn:E; [intros [= <-]|].
  - by destruct (wr_ended_at w) eqn:E; [intros [= <-]|].
Qed.

Record bootstrapped (r : Registry) (id : string) (s : WorkerTaskState) (r' : Registry) : Prop := {
  bs_new : rg_protocol_tasks r !! id = None;
  bs_id : ws_task_id s = id;
  bs_valid : valid_state s;
  bs_revision : ws_revision s = 0;
  bs_row : rg_protocol_tasks r' = <[id := _task_values s]> (rg_protocol_tasks r);
  bs_leases : rg_protocol_leases r' =
    put_all wl_worker_id lease_values (ws_workers s) (rg_protocol_leases r);
  bs_workers : rg_workers r' = rg_workers r;
  bs_tasks : rg_tasks r' = rg_tasks r;
  bs_events : rg_protocol_events r' = rg_protocol_events r;
  bs_legacy : ∀ l, l ∈ ws_workers s → opt_truthy (wl_conversation_ref l) = true ∧
    ∃ k w, rg_workers r !! k = Some w ∧ wr_task_id w = id ∧ wl_worker_id l = wr_worker_id w ∧
      (lease_ended (wl_status l) = true → wl_ended_at l = wr_ended_at w ∧ wr_ended_at w ≠ None);
}.

(** The parent that was resolved has protocol state, unless the caller named the root. *)
Lemma resolve_parent r id parent root key lineage p :
  _resolve_lineage r id parent root key = Ok lineage → tl_parent_task_id lineage = Some p →
  parent_first r (DBootstrap id parent root key) = true → is_Some (rg_protocol_tasks r !! p).
Proof.
  intros (k & _ & H)%bind_Ok_inv Hp Hfirst. destruct parent as [q|].
  2: { apply unit_bind_Ok in H as [_ [= <-]]. done. }
  cbv zeta in H. apply unit_bind_Ok in H as [_ H]. apply unit_bind_Ok in H as [_ H].
  apply bind_Ok_inv in H as (rt & Hrt & H). repeat apply unit_bind_Ok in H as [_ H].
  injection H as <-. injection Hp as <-. destruct root as [rt'|].
  - by apply bool_decide_eq_true in Hfirst.
  - unfold protocol_root in Hrt. by destruct (rg_protocol_tasks r !! strip q).
Qed.

Lemma resolve_id r id parent root key lineage :
  _resolve_lineage r id parent root key = Ok lineage → tl_task_id lineage = id.
Proof.
  intros (k & _ & H)%bind_Ok_inv. destruct parent as [q|].
  2: { by apply unit_bind_Ok in H as [_ [= <-]]. }
  cbv zeta in H. apply unit_bind_Ok in H as [_ H]. apply unit_bind_Ok in H as [_ H].
  apply bind_Ok_inv in H as (rt & Hrt & H). repeat apply unit_bind_Ok in H as [_ H].
  by injection H as <-.
Qed.

Lemma bootstrap_effect r id parent root key r' s :
  bootstrap_worker_protocol r id parent root key = Ok (r', s) →
  r' = r ∨
  bootstrapped r id s r' ∧
  ∀ p, tl_parent_task_id (ws_lineage s) = Some p →
    parent_first r (DBootstrap id parent root key) = true → is_Some (rg_protocol_tasks r !! p).
Proof.
  unfold bootstrap_worker_protocol. destruct (protocol_state_exists r id) eqn:Hex.
  { intros (s' & _ & [_ [= <- _]]%unit_bind_Ok)%bind_Ok_inv. by left. }
  apply bool_decide_eq_false in Hex. rewrite <- eq_None_not_Some in Hex.
  destruct (rg_tasks r !! id) as [task|]; [|done].
  intros (lineage & Hlin & (s' & Hs & (r1 & Hi & [= <- <-])%bind_Ok_inv)%bind_Ok_inv)%bind_Ok_inv.
  right. unfold _state_from_legacy in Hs. cbv zeta in Hs.
  apply unit_bind_Ok in Hs as [_ Hs]. apply unit_bind_Ok in Hs as [_ Hs].
  apply unit_bind_Ok in Hs as [_ Hs]. apply bind_Ok_inv in Hs as (leases & Hl & Hs).
  apply unit_bind_Ok in Hs as [Hv [= Es]].
  assert (ws_lineage s' = lineage ∧ ws_workers s' = _sorted_workers leases ∧ ws_revision s' = 0)
    as (Elin & Ews & Erev) by by rewrite <- Es.
  assert (ws_task_id s' = id) as Hid by (unfold ws_task_id; rewrite Elin; by eapply resolve_id).
  assert (valid_state s') as V.
  { rewrite <- Es. apply validate_state_iff. by destruct (validate_state _) as [[]|]. }
  apply upsert_effect in Hi as ((Hle & Hw & [Ht Hp He _]) & Hall); [|apply V].
  cbn in Hle, Hw, Ht, Hp, He. rewrite Hid in Hp. split.
  - constructor; try done. intros l Hin. split; [by apply Hall|].
    rewrite Ews, elem_of_sorted_workers in Hin.
    destruct (mapM_from _ _ _ _ Hl Hin) as (w & Hwin & (Hlid & _ & Hend)%legacy_lease_Ok).
    apply elem_of_select in Hwin as (Hwt & k & Hk). apply String.eqb_eq in Hwt. by exists k, w.
  - intros p. rewrite Elin. intros. by eapply resolve_parent.
Qed.

Section Bootstrap.
Context (r : Registry) (id : string) (s : WorkerTaskState) (r' : Registry).
Context (D : db_ok r) (T : tree_ok r) (B : bootstrapped r id s r').

Lemma bootstrap_db_ok : db_ok r'.
Proof using D T B.
  constructor.
  - intros k l Hk. rewrite (bs_leases _ _ _ _ B) in Hk.
    apply put_all_cases in Hk as [(x & Hx & -> & ->)|[_ Hk]]; [|by apply (db_leases _ D)|apply (bs_valid _ _ _ _ B)].
    destruct (bs_legacy _ _ _ _ B _ Hx) as (Href & k & w & Hw & _ & _ & Hend).
    destruct (to_workers _ T _ _ Hw) as [_ Hreal].
    split; [done|]. split; [done| |].
    + unfold lease_values. cbn. by rewrite !sql_real_idemp.
    + cbn. intros He. destruct (Hend He) as [-> Hne]. by rewrite Hreal.
  - intros k row. rewrite (bs_row _ _ _ _ B). intros [[<- <-]|[_ Hk]]%lookup_insert_Some;
      [|by apply (db_rows _ D)].
    split; [exact (bs_id _ _ _ _ B)|]. by split; apply sql_real_idemp.
  - intros i e. rewrite (bs_events _ _ _ _ B), (bs_row _ _ _ _ B). intros Hin.
    destruct (db_events _ D _ _ Hin) as (row & Hrow & Hle). exists row. split; [|done].
    rewrite lookup_insert_ne; [done|]. intros E. rewrite <- E, (bs_new _ _ _ _ B) in Hrow. done.
  - intros k t. rewrite (bs_tasks _ _ _ _ B). apply (db_updated _ D).
Qed.

Lemma bootstrap_tree_ok :
  (∀ p, tl_parent_task_id (ws_lineage s) = Some p → is_Some (rg_protocol_tasks r !! p)) → tree_ok r'.
Proof using T B.
  intros Hp. constructor.
  - intros k w. rewrite (bs_workers _ _ _ _ B). apply (to_workers _ T).
  - intros k row p. rewrite (bs_row _ _ _ _ B). intros Hk Hpar.
    assert (is_Some (rg_protocol_tasks r !! p)) as [row' Hrow'].
    { apply lookup_insert_Some in Hk as [[_ <-]|[_ Hk]]; [by apply Hp|by eapply (to_parents _ T)]. }
    destruct (decide (id = p)) as [->|]; [rewrite lookup_insert_eq|rewrite lookup_insert_ne by done];
      by eexists.
Qed.

(** A task that can be loaded is not touched. *)
Lemma bootstrap_loaded other sB : loaded r other sB → loaded r' other sB.
Proof using D T B.
  intros LB. destruct (ld_row _ _ _ LB) as (row & Hrow & HsB).
  assert (ws_task_id sB = other) as Hid by (rewrite HsB; by apply (db_rows _ D)).
  assert (id ≠ other) as Hne by (intros ->; rewrite (bs_new _ _ _ _ B) in Hrow; done).
  assert (leases_of r' other = leases_of r other) as Hleases.
  { apply select_ext. intros k l Hp. apply String.eqb_eq in Hp. rewrite (bs_leases _ _ _ _ B).
    destruct (decide (k ∈ ids (ws_workers s))) as [Hk|Hk]; [|by rewrite put_all_out].
    apply list_elem_of_fmap in Hk as (x & -> & Hx). split.
    - rewrite put_all_in by (apply (bs_valid _ _ _ _ B) || done). intros [= <-]. cbn in Hp.
      by rewrite (vs_task _ (bs_valid _ _ _ _ B) _ Hx), (bs_id _ _ _ _ B) in Hp.
    - intros Hl. exfalso.
      assert (l ∈ ws_workers sB) as Hin by (rewrite HsB; apply elem_of_leases_of; eauto).
      destruct (cs_lease _ _ (ld_consistent _ _ _ LB) _ Hin) as (w & Hw & _).
      rewrite Hid, (proj1 (db_leases _ D _ _ Hl)) in Hw.
      apply lookup_workers_of in Hw as [Hw Hwt].
      destruct (bs_legacy _ _ _ _ B _ Hx) as (_ & k & v & Hv & Hvt & Hxv & _).
      destruct (to_workers _ T _ _ Hv) as [Hk _]. congruence. }
  constructor.
  - exists row. rewrite Hleases, (bs_row _ _ _ _ B), lookup_insert_ne by done. done.
  - apply LB.
  - destruct (ld_lineage _ _ _ LB) as [Hr Hp]. constructor; [by rewrite (bs_tasks _ _ _ _ B)|].
    intros parent E. destruct (Hp _ E) as [He Hroot]. rewrite (bs_tasks _ _ _ _ B). split; [done|].
    intros rt. unfold protocol_root. rewrite (bs_row _ _ _ _ B).
    destruct (decide (id = parent)) as [<-|Hpn]; [|rewrite lookup_insert_ne by done; apply Hroot].
    exfalso. assert (tl_parent_task_id (pt_lineage row) = Some id) as E' by by rewrite HsB in E.
    destruct (to_parents _ T _ _ _ Hrow E') as [x Hx]. by rewrite (bs_new _ _ _ _ B) in Hx.
  - destruct (ld_consistent _ _ _ LB) as [Ht Hi Hl].
    assert (∀ k, workers_of r' k = workers_of r k) as Hw.
    { intros k. unfold workers_of. by rewrite (bs_workers _ _ _ _ B). }
    constructor; rewrite ?Hw, ?(bs_tasks _ _ _ _ B); [done|done|exact Hl].
Qed.

End Bootstrap.

Lemma apply_tree_ok r task_id e f r' d :
  tree_ok r → apply_worker_protocol_transition r task_id e f = Ok (r', d) → tree_ok r'.
Proof.
  intros T (s & L & _ & Htask & _ & [[_ ->]|(_ & V & P & _)])%apply_Ok; [done|].
  constructor.
  - intros k w. rewrite (ps_workers _ _ _ _ _ P).
    intros [(l & _ & -> & ->)|[_ Hk]]%put_all_cases; [|by apply (to_workers _ T)|apply V].
    unfold row_for. destruct (workers_of r _ !! wl_worker_id l) as [row|] eqn:E; cbn;
      rewrite ?sql_real_idemp; [|done].
    apply lookup_workers_of in E as [E _]. by destruct (to_workers _ T _ _ E).
  - destruct (ps_row _ _ _ _ _ P) as (row & Hrow & _ & ->). intros k row' p Hk Hp.
    assert (is_Some (rg_protocol_tasks r !! p)) as [x Hx].
    { apply lookup_insert_Some in Hk as [[_ <-]|[_ Hk]]; [|by eapply (to_parents _ T)].
      cbn in Hp. rewrite <- (ps_lineage _ _ _ _ _ P) in Hp.
      destruct (ld_row _ _ _ L) as (row0 & Hrow0 & ->). by eapply (to_parents _ T). }
    destruct (decide (ws_task_id (pd_state d) = p)) as [->|];
      [rewrite lookup_insert_eq|rewrite lookup_insert_ne by done]; by eexists.
Qed.

Lemma db_or_stay_loaded r c :
  db_ok r → tree_ok r → parent_first r c = true →
  db_ok (db_or_stay r c) ∧ tree_ok (db_or_stay r c) ∧
  ∀ id s, loaded r id s → ∃ s', loaded (db_or_stay r c) id s' ∧ rtc transition s s'.
Proof.
  intros D T Hf. destruct c as [c|task parent root key]; cbn [db_or_stay].
  - assert (tree_ok (protocol_or_stay r c) ∧ db_ok (protocol_or_stay r c)) as [HT HD].
    { unfold protocol_or_stay. destruct (perform_protocol r c) as [[r' d]|] eqn:E; [|done].
      apply performs_request in E as (task & e & req & E).
      split; [by eapply apply_tree_ok|by eapply apply_db_ok]. }
    split_and!; [done|done|]. intros id s L. by apply protocol_or_stay_loaded.
  - destruct (bootstrap_worker_protocol r task parent root key) as [[r' s]|e] eqn:E; cbn;
      [|split_and!; [done|done|eauto using rtc_refl]].
    apply bootstrap_effect in E as [->|[B Hp]]; [split_and!; [done|done|eauto using rtc_refl]|].
    split_and!.
    + by eapply bootstrap_db_ok.
    + eapply bootstrap_tree_ok; [done..|]. intros p Hl. by eapply Hp.
    + intros id sB L. exists sB. split; [by eapply bootstrap_loaded|apply rtc_refl].
Qed.

Lemma parents_first_app r calls1 calls2 :
  parents_first r (calls1 ++ calls2) =
  parents_first r calls1 && parents_first (db_run r calls1) calls2.
Proof.
  revert r. induction calls1 as [|c calls1 IH]; intros r; [done|]. cbn. by rewrite IH, andb_assoc.
Qed.

Lemma db_run_loaded calls r :
  db_ok r → tree_ok r → parents_first r calls = true →
  db_ok (db_run r calls) ∧ tree_ok (db_run r calls) ∧
  ∀ id s, loaded r id s → ∃ s', loaded (db_run r calls) id s' ∧ rtc transition s s'.
Proof.
  revert r. induction calls as [|c calls IH]; intros r D T Hf.
  { cbn. eauto using rtc_refl. }
  cbn in Hf. apply andb_true_iff in Hf as [Hc Hf].
  destruct (db_or_stay_loaded r c D T Hc) as (D1 & T1 & H1).
  destruct (IH _ D1 T1 Hf) as (D2 & T2 & H2). split_and!; [done|done|].
  intros id s (s1 & L1 & Hs1)%H1. destruct (H2 _ _ L1) as (s2 & L2 & Hs2).
  exists s2. split; [done|by trans s1].
Qed.

(** C6: The database refines the pure protocol.  Whatever protocol calls and bootstraps are
    made, by however many writers and on whatever tasks, refused and failing ones included, a
    snapshot that could be loaded for a task at some moment stays loadable and moves only along
    transitions of the pure protocol.  The one condition is on the bootstraps that name the root
    of a child: each comes after the bootstrap of the parent.  (The other calls of the registry
    that write the tasks or the workers are not among these calls.) *)
Theorem protocol_history_is_pure r calls1 calls2 id s :
  db_ok r → tree_ok r → parents_first r (calls1 ++ calls2) = true →
  load_worker_protocol (db_run r calls1) id = Ok s →
  ∃ s', load_worker_protocol (db_run r (calls1 ++ calls2)) id = Ok s' ∧ rtc transition s s'.
Proof.
  unfold load_worker_protocol. rewrite parents_first_app.
  intros D T [Hf1 Hf2]%andb_true_iff L%load_Ok.
  destruct (db_run_loaded calls1 r D T Hf1) as (D1 & T1 & _).
  destruct (db_run_loaded calls2 _ D1 T1 Hf2) as (_ & _ & H).
  destruct (H _ _ L) as (s' & L' & Hs). exists s'. split; [|done].
  apply load_Ok. unfold db_run in *. by rewrite foldl_app.
Qed.

(** Nothing that the pure protocol decides is lost on the way to the database: with
    usable times, and for a registration an unused worker id and a conversation, the
    registry call commits exactly the decision; loading then gives the decided snapshot,
    the events are appended to the log in order, and every other task loads as before. *)
Theorem protocol_decision_persists r id s req e d :
  db_ok r → load_worker_protocol r id = Ok s → handle s req e = Ok d →
  real_times req = true → fresh_registration r s req →
  ∃ r', apply_worker_protocol_transition r id e (λ s, handle s req e) = Ok (r', d) ∧
    load_worker_protocol r' id = Ok (pd_state d) ∧
    (rg_protocol_events r').*2 = (rg_protocol_events r).*2 ++ pd_events d ∧
    ∀ other s2, other ≠ id → load_worker_protocol r other = Ok s2 →
      load_worker_protocol r' other = Ok s2.
Proof.
  unfold load_worker_protocol. intros D HL Hd Hreal Hfresh. pose proof HL as L%load_Ok.
  assert (∃ r', apply_worker_protocol_transition r id e (λ s, handle s req e) = Ok (r', d) ∧
    (pd_mutated d = false → pd_state d = s ∧ pd_events d = [])) as (r' & Hr' & Hsame).
  { destruct (handle_cases _ (ld_valid _ _ _ L) _ _ _ Hd)
      as [(c & -> & _)|[(He & -> & _)|(He & c & t & es & Hs & ->)]].
    - exists r. split; [|done]. unfold apply_worker_protocol_transition.
      rewrite HL, Ok_bind, Hd, Ok_bind. cbn [pd_expected_revision pd_state].
      rewrite Z.eqb_refl, (loaded_id _ _ _ D L), String.eqb_refl. done.
    - exists r. split; [|done]. unfold apply_worker_protocol_transition.
      rewrite HL, Ok_bind, Hd, Ok_bind. cbn [pd_expected_revision pd_state].
      rewrite Z.eqb_refl, (loaded_id _ _ _ D L), String.eqb_refl. cbn [negb].
      rewrite !refuse_pass. unfold pd_mutated. cbn [pd_accepted pd_state pd_expected_revision].
      rewrite <- He. by rewrite (proj2 (Z.eqb_neq e (e + 1))) by lia.
    - subst e. destruct (step_applies _ _ _ D L _ _ _ _ Hreal Hfresh Hs
        (λ s1, handle s1 req (ws_revision s)) Hd) as [r' Hr'].
      exists r'. split; [done|]. unfold pd_mutated. cbn. by rewrite Z.eqb_refl. }
  exists r'. split; [done|].
  pose proof Hr' as (s0 & L0 & _ & Htask & _ & Hcase)%apply_Ok.
  destruct Hcase as [[Hm ->]|(_ & V & P & L' & _)].
  - destruct (Hsame Hm) as [-> ->]. by rewrite app_nil_r.
  - split_and!.
    + by apply load_Ok.
    + by rewrite (ps_events _ _ _ _ _ P), fmap_app, number_events_snd.
    + intros other s2 Hne L2%load_Ok. apply load_Ok. subst id. by eapply frame_loaded.
Qed.

(** ** Witnesses: two workers of one task, next to a second task *)

Definition stored_task (id : string) : TaskRecord :=
  mkTaskRecord id "p" "o" "/w" SupervisorState.RUNNING None [] None 0 3 (of_Z 1) (of_Z 1).

Definition fresh_row (id : string) : ProtocolTaskRow :=
  mkProtocolTaskRow (mkTaskLineage id None id None) 0 0 DurableTaskStatus.OPEN None None None
    None None.

Definition fresh_db : Registry :=
  empty_registry <| rg_tasks := {["t1" := stored_task "t1"; "t2" := stored_task "t2"]} |>
                 <| rg_protocol_tasks := {["t1" := fresh_row "t1"; "t2" := fresh_row "t2"]} |>.

Lemma fresh_db_ok : db_ok fresh_db.
Proof.
  constructor; cbn.
  - intros k l Hk. by rewrite lookup_empty in Hk.
  - intros k row [[<- <-]|[_ [<- <-]%lookup_singleton_Some]]%lookup_insert_Some; done.
  - intros i e Hin. by apply not_elem_of_nil in Hin.
  - intros k t [[<- <-]|[_ [<- <-]%lookup_singleton_Some]]%lookup_insert_Some; reflexivity.
Qed.

Definition protocol_calls : list protocol_call :=
  [PRegister "t1" "https://chat/c/1" 0 (Some "alice") "u" (of_Z 2);
   PClaim "t1" "alice" 1 (of_Z 60) (of_Z 3);
   PRegister "t2" "https://chat/c/9" 0 (Some "alice") "u" (of_Z 4);
   PRegister "t1" "https://chat/c/2" 2 (Some "bob") "u" (of_Z 5);
   PTakeover "t1" "bob" 3 (of_Z 60) (of_Z 30); PTakeover "t1" "bob" 3 (of_Z 60) (of_Z 90)].

Definition snapshot (m : res WorkerTaskState) : WorkerTaskState :=
  match m with
  | Ok s => s
  | Err _ => stored_state (fresh_row "") []
  end.

(** Two tasks without protocol state, one of them with a worker. *)
Definition legacy_db : Registry :=
  fresh_db <| rg_protocol_tasks := ∅ |>
           <| rg_tasks := {["t1" := (stored_task "t1") <| tr_current_worker_id := Some "w" |>;
                            "t2" := stored_task "t2"; "t3" := stored_task "t3"]} |>
           <| rg_workers := {["w" := mkWorkerRecord "w" "t1" "https://chat/c/0" None
                                       WorkerStatus.ACTIVE (of_Z 1) None None]} |>.

Lemma legacy_db_ok : db_ok legacy_db ∧ tree_ok legacy_db.
Proof.
  split; constructor; cbn.
  - intros k l Hk. by rewrite lookup_empty in Hk.
  - intros k l Hk. by rewrite lookup_empty in Hk.
  - intros i e Hin. by apply not_elem_of_nil in Hin.
  - intros k t [[<- <-]|[_ [[<- <-]|[_ [<- <-]%lookup_singleton_Some]]%lookup_insert_Some]]%lookup_insert_Some;
      reflexivity.
  - intros k w [<- <-]%lookup_singleton_Some. done.
  - intros k row p Hk. by rewrite lookup_empty in Hk.
Qed.

Definition root_and_child : list db_call :=
  [DBootstrap "t1" None None None; DBootstrap "t2" (Some "t1") None None].

Definition later_calls : list db_call :=
  [DProtocol (PRegister "t1" "https://chat/c/1" 0 (Some "alice") "u" (of_Z 2));
   DBootstrap "t3" (Some "t2") (Some "t1") (Some "k");
   DProtocol (PTakeover "t1" "alice" 1 (of_Z 60) (of_Z 90))].

Lemma protocol_history_is_pure_witness :
  ∃ s', load_worker_protocol (db_run legacy_db (root_and_child ++ later_calls)) "t1" = Ok s' ∧
    rtc transition (snapshot (load_worker_protocol (db_run legacy_db root_and_child) "t1")) s'.
Proof.
  destruct legacy_db_ok as [D T].
  apply (protocol_history_is_pure legacy_db root_and_child later_calls "t1"); [exact D|exact T|..];
    vm_compute; reflexivity.
Defined.

(** The snapshots of the three tasks after these calls *)
Example the_calls_have_effect :
  let r := db_run legacy_db (root_and_child ++ later_calls) in
  ws_generation (snapshot (load_worker_protocol r "t1")) = 2 ∧
  tl_root_task_id (ws_lineage (snapshot (load_worker_protocol r "t3"))) = "t1".
Proof. vm_compute. by split. Qed.

(** The condition on bootstraps is needed: a child that was bootstrapped with a root of its own,
    before its parent, can no longer be loaded once the parent is a root. *)
Example late_parent_hides_the_child :
  let r := db_run legacy_db [DBootstrap "t3" (Some "t2") (Some "t1") None] in
  res_ok (load_worker_protocol r "t3") = true ∧
  res_ok (load_worker_protocol (db_run r [DBootstrap "t2" None None None]) "t3") = false.
Proof. vm_compute. by split. Qed.

Definition alice_registers : request :=
  Register "alice" (Some "https://chat/c/1") (of_Z 2).

Definition registered : ProtocolDecision :=
  match handle (snapshot (load_worker_protocol fresh_db "t1")) alice_registers 0 with
  | Ok d => d
  | Err _ => mkProtocolDecision false DecisionCode.TASK_CLOSED 0 (snapshot (Ok (stored_state (fresh_row "") []))) []
  end.

Lemma protocol_decision_persists_witness :
  ∃ r', apply_worker_protocol_transition fresh_db "t1" 0 (λ s, handle s alice_registers 0) =
      Ok (r', registered) ∧
    load_worker_protocol r' "t1" = Ok (pd_state registered).
Proof.
  destruct (protocol_decision_persists fresh_db "t1"
    (snapshot (load_worker_protocol fresh_db "t1")) alice_registers 0 registered)
    as (r' & H1 & H2 & _).
  - apply fresh_db_ok.
  - vm_compute. reflexivity.
  - vm_compute. reflexivity.
  - vm_compute. reflexivity.
  - intros _. split; reflexivity.
  - exists r'. split; [exact H1|exact H2].
Defined.
