(* ===== verification/ProbeOps.v ===== *)
(** * probe_ops.py and the probe mutations of registry.py

    Opening, rotating or closing the one probe window is an external side effect.  An
    operation record is armed first, each side effect is authorised by a durable state
    change, and an ambiguous outcome is resolved by read-only observations. *)

From S2P Require Import Prelude PyFloat PyStr PyJson Models Registry.

Open Scope string_scope.
Open Scope Z_scope.

Module ProbeReconcileOutcome.

Inductive t :=
  | EXACT_TARGET_ABSENT | EXACT_UNIQUE_OWNED_TARGET_PRESENT | OLD_TARGET_STILL_PRESENT
  | BOTH_OLD_AND_NEW_PRESENT | MULTIPLE_MATCHES | STALE_OR_CHANGED_IDENTITY
  | UNKNOWN_OBSERVATION.

#[global] Instance t_eq_dec : EqDecision t.
Proof. solve_decision. Defined.

Definition value (o : t) : string :=
  match o with
  | EXACT_TARGET_ABSENT => "EXACT_TARGET_ABSENT"
  | EXACT_UNIQUE_OWNED_TARGET_PRESENT => "EXACT_UNIQUE_OWNED_TARGET_PRESENT"
  | OLD_TARGET_STILL_PRESENT => "OLD_TARGET_STILL_PRESENT"
  | BOTH_OLD_AND_NEW_PRESENT => "BOTH_OLD_AND_NEW_PRESENT"
  | MULTIPLE_MATCHES => "MULTIPLE_MATCHES"
  | STALE_OR_CHANGED_IDENTITY => "STALE_OR_CHANGED_IDENTITY"
  | UNKNOWN_OBSERVATION => "UNKNOWN_OBSERVATION"
  end.

End ProbeReconcileOutcome.


Definition is_state (s : ProbeMutationState.t) (o : ProbeMutationOperation) : bool :=
  bool_decide (po_state o = s).

Definition is_kind (k : ProbeMutationKind.t) (o : ProbeMutationOperation) : bool :=
  bool_decide (po_kind o = k).

(** [UNRESOLVED_PROBE_MUTATION_STATES] *)
Definition unresolved_state (s : ProbeMutationState.t) : bool :=
  match s with
  | ProbeMutationState.COMPLETED | ProbeMutationState.FAILED
  | ProbeMutationState.CANCELLED => false
  | _ => true
  end.

Definition probe_unresolved (o : ProbeMutationOperation) : bool := unresolved_state (po_state o).

Record ProbeWindowMatch := mkProbeWindowMatch {
  pm_window_handle : Z;
  pm_browser_pid : Z;
  pm_chrome_executable : string;
  pm_actual_url : string;
}.

Record ProbeMutationObservation := mkProbeMutationObservation {
  ob_observed_at : float;
  ob_old_matches : list ProbeWindowMatch;
  ob_new_matches : list ProbeWindowMatch;
  ob_complete : bool;
  ob_error : option string;
}.

Record ProbeReconcileDecision := mkProbeReconcileDecision {
  rd_outcome : ProbeReconcileOutcome.t;
  rd_next_state : ProbeMutationState.t;
  rd_reason : string;
  rd_may_close : bool;
  rd_may_open : bool;
  rd_adopt_binding : option ProbeWindowSlotBinding;
}.

(** ** The decision *)

Section Decision.
Context {tables : UnicodeTables}.

Definition _effective_state (o : ProbeMutationOperation) : ProbeMutationState.t :=
  if negb (is_state ProbeMutationState.RECONCILE_REQUIRED o) then po_state o else
  match po_resume_state o with
  | None => po_state o
  | Some v =>
      if negb (str_truthy v) then po_state o
      else default (po_state o) (ProbeMutationState.of_value v)
  end.

Definition _match_is_exact_new (o : ProbeMutationOperation) (m : ProbeWindowMatch) : bool :=
  (0 <? pm_window_handle m) && (0 <? pm_browser_pid m) &&
  String.eqb (rstrip_slash (pm_actual_url m)) (rstrip_slash (po_expected_actual_url o)) &&
  String.eqb (casefold (pm_chrome_executable m)) (casefold (po_expected_chrome_executable o)).

Definition _match_is_exact_old (o : ProbeMutationOperation) (m : ProbeWindowMatch) : bool :=
  match po_prior_slot o with
  | None => false
  | Some prior =>
      (pm_window_handle m =? ps_window_handle prior) &&
      (pm_browser_pid m =? ps_browser_pid prior) &&
      String.eqb (rstrip_slash (pm_actual_url m)) (rstrip_slash (ps_actual_url prior)) &&
      String.eqb (casefold (pm_chrome_executable m)) (casefold (ps_chrome_executable prior))
  end.

Definition _binding_from_new_match (o : ProbeMutationOperation) (m : ProbeWindowMatch)
    (observed_at : float) : ProbeWindowSlotBinding :=
  mkProbeWindowSlotBinding (po_slot_id o) (po_owner_token o) (po_target_worker_id o)
    (po_target_conversation_url o) (po_expected_actual_url o) (pm_window_handle m)
    (pm_browser_pid m) (po_expected_chrome_executable o) (po_source o) observed_at
    observed_at (fadd observed_at (fmax (of_Z 1) (po_slot_ttl_s o))).

Definition decision (out : ProbeReconcileOutcome.t) (next : ProbeMutationState.t)
    (reason : string) : ProbeReconcileDecision :=
  mkProbeReconcileDecision out next reason false false None.

(** The decision for a conclusive observation: at most one match on each side, each
    with the recorded identity. *)
Definition decide_open (o : ProbeMutationOperation) (observed_at : float)
    (old_match new_match : option ProbeWindowMatch) : ProbeReconcileDecision :=
  let effective_state := _effective_state o in
  match old_match, new_match with
  | Some _, _ =>
      decision ProbeReconcileOutcome.STALE_OR_CHANGED_IDENTITY ProbeMutationState.RECONCILE_REQUIRED
        "OPEN operation unexpectedly observed a prior target"
  | None, Some m =>
      if negb (bool_decide (effective_state = ProbeMutationState.OPEN_SUBMITTED)) then
        decision ProbeReconcileOutcome.STALE_OR_CHANGED_IDENTITY ProbeMutationState.RECONCILE_REQUIRED
          "expected target appeared before durable OPEN authority was issued"
      else
        mkProbeReconcileDecision ProbeReconcileOutcome.EXACT_UNIQUE_OWNED_TARGET_PRESENT
          ProbeMutationState.COMPLETED
          "exactly one expected LWS-owned probe target is present; adopt it" false false
          (Some (_binding_from_new_match o m observed_at))
  | None, None =>
      if bool_decide (effective_state = ProbeMutationState.ARMED) then
        mkProbeReconcileDecision ProbeReconcileOutcome.EXACT_TARGET_ABSENT ProbeMutationState.ARMED
          "no target exists and no OPEN authority has been issued" false true None
      else
        decision ProbeReconcileOutcome.EXACT_TARGET_ABSENT ProbeMutationState.RECONCILE_REQUIRED
          "target is absent after OPEN authority was issued; do not replay blindly"
  end.

Definition decide_close (o : ProbeMutationOperation)
    (old_match new_match : option ProbeWindowMatch) : ProbeReconcileDecision :=
  match old_match, new_match with
  | _, Some _ =>
      decision ProbeReconcileOutcome.STALE_OR_CHANGED_IDENTITY ProbeMutationState.RECONCILE_REQUIRED
        "CLOSE operation unexpectedly observed a replacement target"
  | None, None =>
      decision ProbeReconcileOutcome.EXACT_TARGET_ABSENT ProbeMutationState.COMPLETED
        "the exact old LWS-owned probe target is absent; close is reconciled"
  | Some _, None =>
      if bool_decide (_effective_state o = ProbeMutationState.ARMED) then
        mkProbeReconcileDecision ProbeReconcileOutcome.OLD_TARGET_STILL_PRESENT ProbeMutationState.ARMED
          "the exact old target remains and no CLOSE authority has been issued"
          true false None
      else
        decision ProbeReconcileOutcome.OLD_TARGET_STILL_PRESENT ProbeMutationState.RECONCILE_REQUIRED
          "old target remains after CLOSE authority was issued; do not replay blindly"
  end.

Definition decide_rotate (o : ProbeMutationOperation) (observed_at : float)
    (old_match new_match : option ProbeWindowMatch) : ProbeReconcileDecision :=
  let effective_state := _effective_state o in
  match old_match, new_match with
  | None, Some m =>
      if negb (bool_decide (effective_state = ProbeMutationState.OPEN_SUBMITTED)) then
        decision ProbeReconcileOutcome.STALE_OR_CHANGED_IDENTITY ProbeMutationState.RECONCILE_REQUIRED
          "replacement appeared before durable OPEN authority was issued"
      else
        mkProbeReconcileDecision ProbeReconcileOutcome.EXACT_UNIQUE_OWNED_TARGET_PRESENT
          ProbeMutationState.COMPLETED
          "replacement is the unique expected owned target and the old target is absent; adopt it"
          false false (Some (_binding_from_new_match o m observed_at))
  | Some _, _ =>
      if bool_decide (effective_state = ProbeMutationState.ARMED) then
        mkProbeReconcileDecision ProbeReconcileOutcome.OLD_TARGET_STILL_PRESENT ProbeMutationState.ARMED
          "old target remains and no CLOSE authority has been issued" true false None
      else
        decision ProbeReconcileOutcome.OLD_TARGET_STILL_PRESENT ProbeMutationState.RECONCILE_REQUIRED
          "old target remains after CLOSE/OPEN progress; do not replay blindly"
  | None, None =>
      if bool_decide (effective_state = ProbeMutationState.ARMED) ||
         bool_decide (effective_state = ProbeMutationState.CLOSE_SUBMITTED) ||
         bool_decide (effective_state = ProbeMutationState.READY_TO_OPEN) then
        mkProbeReconcileDecision ProbeReconcileOutcome.EXACT_TARGET_ABSENT ProbeMutationState.READY_TO_OPEN
          "old target is absent and replacement has not appeared; replacement may be opened once"
          false true None
      else
        decision ProbeReconcileOutcome.EXACT_TARGET_ABSENT ProbeMutationState.RECONCILE_REQUIRED
          "both targets are absent after OPEN authority was issued; do not replay blindly"
  end.

Definition decide_probe_reconciliation (o : ProbeMutationOperation)
    (obs : ProbeMutationObservation) (current : float) : ProbeReconcileDecision :=
  if flt current (ob_observed_at obs) then
    decision ProbeReconcileOutcome.UNKNOWN_OBSERVATION ProbeMutationState.RECONCILE_REQUIRED
      "probe observation timestamp is in the future"
  else if negb (ob_complete obs) || opt_truthy (ob_error obs) then
    decision ProbeReconcileOutcome.UNKNOWN_OBSERVATION ProbeMutationState.RECONCILE_REQUIRED
      "probe observation was incomplete or failed"
  else if Nat.ltb 1 (length (ob_old_matches obs)) || Nat.ltb 1 (length (ob_new_matches obs))
  then
    decision ProbeReconcileOutcome.MULTIPLE_MATCHES ProbeMutationState.RECONCILE_REQUIRED
      "more than one window matched an ownership tag"
  else
    let old_match := head (ob_old_matches obs) in
    let new_match := head (ob_new_matches obs) in
    if match old_match with Some m => negb (_match_is_exact_old o m) | None => false end then
      decision ProbeReconcileOutcome.STALE_OR_CHANGED_IDENTITY ProbeMutationState.RECONCILE_REQUIRED
        "old ownership tag no longer matches its durable HWND/PID/executable identity"
    else if match new_match with Some m => negb (_match_is_exact_new o m) | None => false end
    then
      decision ProbeReconcileOutcome.STALE_OR_CHANGED_IDENTITY ProbeMutationState.RECONCILE_REQUIRED
        "new ownership tag no longer matches the expected executable/target identity"
    else
      match old_match, new_match with
      | Some _, Some _ =>
          decision ProbeReconcileOutcome.BOTH_OLD_AND_NEW_PRESENT ProbeMutationState.RECONCILE_REQUIRED
            "both old and replacement probe targets are present"
      | _, _ =>
          match po_kind o with
          | ProbeMutationKind.OPEN => decide_open o (ob_observed_at obs) old_match new_match
          | ProbeMutationKind.CLOSE => decide_close o old_match new_match
          | ProbeMutationKind.ROTATE => decide_rotate o (ob_observed_at obs) old_match new_match
          end
      end.

End Decision.

(** ** The durable table *)

Definition unresolved_ops (ops : gmap string ProbeMutationOperation)
    : list ProbeMutationOperation :=
  select probe_unresolved ops.

(** [idx_probe_mutation_one_unresolved] *)
Definition unresolved_index_ok (ops : gmap string ProbeMutationOperation) : bool :=
  Nat.leb (length (unresolved_ops ops)) 1.

Definition unresolved_probe_mutation_operation (r : Registry)
    : option ProbeMutationOperation :=
  head (order_desc po_created_at (unresolved_ops (rg_probe_ops r))).

(** One row written to [probe_mutation_operations]. *)
Definition store_probe_operation (r : Registry) (o : ProbeMutationOperation) : res Registry :=
  let ops := <[po_operation_id o := o]> (rg_probe_ops r) in
  real_not_null (po_updated_at o);;
  raise_if (negb (unresolved_index_ok ops)) IntegrityError
    "UNIQUE constraint failed: index idx_probe_mutation_one_unresolved";;
  Ok (r <| rg_probe_ops := ops |>).

Definition probe_window_slots (r : Registry) : list ProbeWindowSlotBinding :=
  select (λ _, true) (rg_probe_slots r).

Definition get_probe_window_slot (r : Registry) (slot_id : string)
    : option ProbeWindowSlotBinding := rg_probe_slots r !! slot_id.

(** The one durable slot; more than one is an error. *)
Definition current_slot (r : Registry) : res (option ProbeWindowSlotBinding) :=
  raise_if (Nat.ltb 1 (length (probe_window_slots r))) RuntimeError
    "multiple durable probe slots require reconciliation";;
  Ok (head (probe_window_slots r)).

Definition _probe_slot_snapshot_matches (slot snapshot : option ProbeWindowSlotBinding)
    : bool := bool_decide (slot = snapshot).

Definition arm_probe_mutation_operation (r : Registry) (o : ProbeMutationOperation)
    : res (Registry * ProbeMutationOperation) :=
  raise_if (negb (is_state ProbeMutationState.ARMED o)) ValueError
    "probe mutation must be ARMED before durable recording";;
  raise_if (negb (str_truthy (strip (po_operation_id o))) ||
            negb (str_truthy (strip (po_nonce o)))) ValueError
    "probe mutation requires operation id and nonce";;
  raise_if (negb (str_truthy (strip (po_slot_id o))) ||
            negb (str_truthy (strip (po_owner_token o)))) ValueError
    "probe mutation requires slot id and owner token";;
  raise_if (negb (str_truthy (strip (po_expected_chrome_executable o)))) ValueError
    "probe mutation requires an expected Chrome executable";;
  raise_if (negb (is_kind ProbeMutationKind.CLOSE o) &&
            negb (str_truthy (strip (po_expected_actual_url o)))) ValueError
    "OPEN/ROTATE mutation requires an expected tagged target";;
  get_task r (po_target_task_id o) ≫= λ _,
  worker ← get_worker r (po_target_worker_id o);
  raise_if (negb (String.eqb (wr_task_id worker) (po_target_task_id o))) ValueError
    "probe mutation worker belongs to a different task";;
  raise_if (negb (bool_decide (wr_status worker = WorkerStatus.PARKED))) ValueError
    "probe mutation requires a parked target worker";;
  raise_if (negb (String.eqb (rstrip_slash (wr_conversation_url worker))
                             (rstrip_slash (po_target_conversation_url o)))) ValueError
    "probe mutation target URL no longer matches the worker";;
  raise_if (match unresolved_ops (rg_probe_ops r) with [] => false | _ => true end)
    RuntimeError "unresolved probe mutation already exists";;
  current ← current_slot r;
  (if is_kind ProbeMutationKind.OPEN o then
     raise_if (negb (bool_decide (po_prior_slot o = None)) ||
               negb (bool_decide (current = None))) RuntimeError
       "OPEN mutation requires no existing durable probe slot"
   else
     raise_if (bool_decide (po_prior_slot o = None)) ValueError
       "ROTATE/CLOSE mutation requires a prior slot snapshot";;
     raise_if (negb (_probe_slot_snapshot_matches current (po_prior_slot o))) RuntimeError
       "durable probe slot changed before mutation could be armed");;
  raise_if (bool_decide (is_Some (rg_probe_ops r !! po_operation_id o))) IntegrityError
    "UNIQUE constraint failed: probe_mutation_operations.operation_id";;
  raise_if (existsb (λ o', String.eqb (po_nonce o') (po_nonce o))
              (select (λ _, true) (rg_probe_ops r))) IntegrityError
    "UNIQUE constraint failed: probe_mutation_operations.nonce";;
  real_not_null (po_created_at o);;
  r' ← store_probe_operation r o;
  armed ← get_probe_mutation_operation r' (po_operation_id o);
  Ok (r', armed).

Definition _save_probe_mutation_operation (r : Registry) (o : ProbeMutationOperation)
    : res (Registry * ProbeMutationOperation) :=
  get_probe_mutation_operation r (po_operation_id o) ≫= λ _,
  r' ← store_probe_operation r o; Ok (r', o).

(** Persist an authority: the returned record grants one side effect. *)
Definition authorize_probe_close (r : Registry) (operation_id : string) (now : float)
    : res (Registry * ProbeMutationOperation) :=
  operation ← get_probe_mutation_operation r operation_id;
  raise_if (is_kind ProbeMutationKind.OPEN operation) RuntimeError
    "probe operation does not contain a CLOSE phase";;
  raise_if (negb (is_state ProbeMutationState.ARMED operation)) RuntimeError "probe operation is not ARMED";;
  _save_probe_mutation_operation r
    (operation <| po_state := ProbeMutationState.CLOSE_SUBMITTED |> <| po_updated_at := now |>).

Definition open_allowed (operation : ProbeMutationOperation) : bool :=
  (is_kind ProbeMutationKind.OPEN operation && is_state ProbeMutationState.ARMED operation) ||
  (is_kind ProbeMutationKind.ROTATE operation && is_state ProbeMutationState.READY_TO_OPEN operation).

Definition authorize_probe_open (r : Registry) (operation_id : string) (now : float)
    : res (Registry * ProbeMutationOperation) :=
  operation ← get_probe_mutation_operation r operation_id;
  raise_if (negb (open_allowed operation)) RuntimeError
    "probe operation is not ready for OPEN";;
  _save_probe_mutation_operation r
    (operation <| po_state := ProbeMutationState.OPEN_SUBMITTED |> <| po_resume_state := None |>
               <| po_updated_at := now |>).

Section Registry.
Context {tables : UnicodeTables}.

Definition _validate_probe_completion_binding (o : ProbeMutationOperation)
    (b : ProbeWindowSlotBinding) : res unit :=
  raise_if (negb (String.eqb (ps_slot_id b) (po_slot_id o))) ValueError
    "completion binding uses the wrong probe slot";;
  raise_if (negb (String.eqb (ps_owner_token b) (po_owner_token o))) ValueError
    "completion binding uses the wrong ownership token";;
  raise_if (negb (String.eqb (ps_target_worker_id b) (po_target_worker_id o))) ValueError
    "completion binding uses the wrong target worker";;
  raise_if (negb (String.eqb (rstrip_slash (ps_target_conversation_url b))
                             (rstrip_slash (po_target_conversation_url o)))) ValueError
    "completion binding uses the wrong target conversation";;
  raise_if (negb (String.eqb (rstrip_slash (ps_actual_url b))
                             (rstrip_slash (po_expected_actual_url o)))) ValueError
    "completion binding does not match the expected tagged target";;
  raise_if (negb (String.eqb (casefold (ps_chrome_executable b))
                             (casefold (po_expected_chrome_executable o)))) ValueError
    "completion binding executable identity changed";;
  raise_if ((ps_window_handle b <=? 0) || (ps_browser_pid b <=? 0)) ValueError
    "completion binding requires positive HWND and browser PID".

(** [INSERT ... ON CONFLICT(slot_id) DO UPDATE] of all columns. *)
Definition store_probe_slot (r : Registry) (b : ProbeWindowSlotBinding) : res Registry :=
  real_not_null (ps_bound_at b);;
  real_not_null (ps_observed_at b);;
  real_not_null (ps_expires_at b);;
  Ok (r <| rg_probe_slots := <[ps_slot_id b := b]> (rg_probe_slots r) |>).

Definition _complete_probe_mutation_locked (r : Registry) (o : ProbeMutationOperation)
    (binding : option ProbeWindowSlotBinding) (ts : float) (outcome : option string)
    (reconciled : bool) : res Registry :=
  (if is_kind ProbeMutationKind.CLOSE o then
     raise_if (negb (bool_decide (binding = None))) ValueError
       "CLOSE completion must not provide a replacement binding"
   else
     match binding with
     | None => raise ValueError "OPEN/ROTATE completion requires an exact observed binding"
     | Some b => _validate_probe_completion_binding o b
     end);;
  current ← current_slot r;
  (if is_kind ProbeMutationKind.OPEN o then
     raise_if (negb (bool_decide (current = None))) RuntimeError
       "durable probe slot appeared while OPEN was unresolved"
   else
     raise_if (negb (_probe_slot_snapshot_matches current (po_prior_slot o))) RuntimeError
       "durable probe slot changed while mutation was unresolved");;
  r ← (if is_kind ProbeMutationKind.CLOSE o
       then Ok (r <| rg_probe_slots := delete (po_slot_id o) (rg_probe_slots r) |>)
       else match binding with
            | Some b => store_probe_slot r b
            | None => raise AssertionError ""
            end);
  let o := o <| po_state := ProbeMutationState.COMPLETED |> <| po_resume_state := None |>
             <| po_updated_at := ts |> in
  let o := match outcome with
           | Some out => o <| po_last_outcome := Some (str_take 200 out) |>
           | None => o
           end in
  let o := if reconciled
           then o <| po_reconcile_attempts := po_reconcile_attempts o + 1 |>
                  <| po_last_reconcile_at := Some ts |>
           else o in
  saved ← _save_probe_mutation_operation r (o <| po_last_error := None |>);
  Ok saved.1.

Definition complete_probe_mutation_operation (r : Registry) (operation_id : string)
    (binding : option ProbeWindowSlotBinding) (ts : float) (outcome : option string)
    : res (Registry * ProbeMutationOperation) :=
  operation ← get_probe_mutation_operation r operation_id;
  if is_state ProbeMutationState.COMPLETED operation then Ok (r, operation) else
  raise_if (negb (probe_unresolved operation)) RuntimeError
    "probe operation is already terminal";;
  (if is_kind ProbeMutationKind.CLOSE operation then
     raise_if (negb (is_state ProbeMutationState.CLOSE_SUBMITTED operation)) RuntimeError
       "CLOSE may complete only after durable CLOSE authority"
   else
     raise_if (negb (is_state ProbeMutationState.OPEN_SUBMITTED operation)) RuntimeError
       "replacement binding may complete only after durable OPEN authority");;
  r' ← _complete_probe_mutation_locked r operation binding ts outcome false;
  completed ← get_probe_mutation_operation r' operation_id;
  Ok (r', completed).

(** The record [fail_probe_mutation_operation] writes. *)
Definition failed_operation (operation : ProbeMutationOperation) (reason : string)
    (now : float) : ProbeMutationOperation :=
  operation <| po_state := ProbeMutationState.FAILED |>
            <| po_last_error := Some (str_take 1000 reason) |>
            <| po_updated_at := now |>.

Definition fail_probe_mutation_operation (r : Registry) (operation_id : string)
    (reason : string) (now : float) : res (Registry * ProbeMutationOperation) :=
  operation ← get_probe_mutation_operation r operation_id;
  raise_if (negb (is_state ProbeMutationState.ARMED operation)) RuntimeError
    "probe mutation may fail terminally only before mutation authority";;
  _save_probe_mutation_operation r (failed_operation operation reason now).

(** The record a reconciliation writes when the operation stays unresolved. *)
Definition reconciled_operation (operation : ProbeMutationOperation)
    (d : ProbeReconcileDecision) (observed_at : float) : ProbeMutationOperation :=
  let o :=
    if bool_decide (rd_next_state d = ProbeMutationState.RECONCILE_REQUIRED) then
      (if negb (is_state ProbeMutationState.RECONCILE_REQUIRED operation)
       then operation <| po_resume_state := Some (ProbeMutationState.value (po_state operation)) |>
       else operation) <| po_last_error := Some (str_take 1000 (rd_reason d)) |>
    else operation <| po_resume_state := None |> <| po_last_error := None |> in
  o <| po_state := rd_next_state d |>
    <| po_updated_at := fmax (po_updated_at o) observed_at |>
    <| po_reconcile_attempts := po_reconcile_attempts o + 1 |>
    <| po_last_reconcile_at := Some observed_at |>
    <| po_last_outcome := Some (ProbeReconcileOutcome.value (rd_outcome d)) |>.

Definition reconcile_probe_mutation_operation (r : Registry) (operation_id : string)
    (obs : ProbeMutationObservation) (clock : float)
    : res (Registry * ProbeMutationOperation) :=
  operation ← get_probe_mutation_operation r operation_id;
  if is_state ProbeMutationState.COMPLETED operation then Ok (r, operation) else
  if negb (probe_unresolved operation) then Ok (r, operation) else
  let d := decide_probe_reconciliation operation obs clock in
  r' ← (if bool_decide (rd_next_state d = ProbeMutationState.COMPLETED) then
          _complete_probe_mutation_locked r operation (rd_adopt_binding d)
            (fmax (po_updated_at operation) (ob_observed_at obs))
            (Some (ProbeReconcileOutcome.value (rd_outcome d))) true
        else
          saved ← _save_probe_mutation_operation r
                    (reconciled_operation operation d (ob_observed_at obs));
          Ok saved.1);
  reconciled ← get_probe_mutation_operation r' operation_id;
  Ok (r', reconciled).

(** ** The slot outside a mutation *)

Definition unresolved_probe_fence (r : Registry) : res unit :=
  raise_if (match unresolved_probe_mutation_operation r with Some _ => true | None => false end)
    RuntimeError "probe slot is fenced by unresolved mutation".

Definition bind_probe_window_slot (r : Registry)
    (slot_id owner_token target_worker_id target_conversation_url actual_url : string)
    (window_handle browser_pid : Z) (chrome_executable source : string)
    (observed_at ttl_s : float) : res (Registry * ProbeWindowSlotBinding) :=
  let ttl_s := fmax (of_Z 1) ttl_s in
  unresolved_probe_fence r;;
  worker ← get_worker r target_worker_id;
  raise_if (negb (bool_decide (wr_status worker = WorkerStatus.PARKED))) ValueError
    "probe slot binding requires a parked worker";;
  raise_if (existsb (λ s, negb (String.eqb (ps_slot_id s) slot_id)) (probe_window_slots r))
    ValueError "LWS supports only one durable probe slot";;
  raise_if (negb (str_truthy (strip slot_id)) || negb (str_truthy (strip owner_token)))
    ValueError "probe slot requires non-empty slot id and owner token";;
  raise_if ((window_handle <=? 0) || (browser_pid <=? 0)) ValueError
    "probe slot requires positive HWND and browser PID";;
  raise_if (negb (str_truthy (strip chrome_executable))) ValueError
    "probe slot requires a Chrome executable path";;
  raise_if (negb (String.eqb (rstrip_slash (wr_conversation_url worker))
                             (rstrip_slash target_conversation_url))) ValueError
    "probe slot target URL must match the registered worker URL";;
  let bound_at := match get_probe_window_slot r slot_id with
                  | Some existing => ps_bound_at existing
                  | None => observed_at
                  end in
  let slot := mkProbeWindowSlotBinding slot_id owner_token target_worker_id
                target_conversation_url actual_url window_handle browser_pid
                chrome_executable source bound_at observed_at (fadd observed_at ttl_s) in
  r' ← store_probe_slot r slot;
  Ok (r', slot).

Definition clear_probe_window_slot (r : Registry) (slot_id : string) : res (Registry * bool) :=
  unresolved_probe_fence r;;
  Ok (r <| rg_probe_slots := delete slot_id (rg_probe_slots r) |>,
      match get_probe_window_slot r slot_id with Some _ => true | None => false end).

End Registry.
