(* ===== verification/ProbeTheorems.v ===== *)
(** * The guarantees of the probe mutations

    [exec] runs one registry call; a failing call leaves the registry alone.  Over any
    sequence of calls an operation authorises each of its side effects at most once, at
    most one operation is unresolved, and the published slot changes only by the
    completion of the operation that fences it. *)

From S2P Require Import Prelude PyFloat PyStr PyJson Models Registry ProbeOps.

Open Scope string_scope.
Open Scope Z_scope.

Inductive probe_call :=
  | CArm (o : ProbeMutationOperation)
  | CClose (operation_id : string) (now : float)
  | COpen (operation_id : string) (now : float)
  | CComplete (operation_id : string) (binding : option ProbeWindowSlotBinding) (ts : float)
      (outcome : option string)
  | CFail (operation_id : string) (reason : string) (now : float)
  | CReconcile (operation_id : string) (obs : ProbeMutationObservation) (clock : float)
  | CBind (slot_id owner_token target_worker_id url actual_url : string)
      (window_handle browser_pid : Z) (chrome_executable source : string)
      (observed_at ttl_s : float)
  | CClear (slot_id : string)
  (** any change of the other components to the tasks and the workers *)
  | CEnv (tasks : gmap string TaskRecord) (workers : gmap string WorkerRecord).

Section Probe.
Context {tables : UnicodeTables}.

Definition exec (r : Registry) (c : probe_call) : res Registry :=
  match c with
  | CArm o => x ← arm_probe_mutation_operation r o; Ok x.1
  | CClose id now => x ← authorize_probe_close r id now; Ok x.1
  | COpen id now => x ← authorize_probe_open r id now; Ok x.1
  | CComplete id b ts out => x ← complete_probe_mutation_operation r id b ts out; Ok x.1
  | CFail id reason now => x ← fail_probe_mutation_operation r id reason now; Ok x.1
  | CReconcile id obs clock =>
      x ← reconcile_probe_mutation_operation r id obs clock; Ok x.1
  | CBind s t w u a h p e src obs ttl =>
      x ← bind_probe_window_slot r s t w u a h p e src obs ttl; Ok x.1
  | CClear s => x ← clear_probe_window_slot r s; Ok x.1
  | CEnv ts ws => Ok (r <| rg_tasks := ts |> <| rg_workers := ws |>)
  end.

(** The number of successful calls of a run that satisfy [p]. *)
Fixpoint grants (p : probe_call → bool) (r : Registry) (calls : list probe_call) : nat :=
  match calls with
  | [] => 0
  | c :: cs =>
      match exec r c with
      | Ok r' => (if p c then 1 else 0) + grants p r' cs
      | Err _ => grants p r cs
      end
  end.

Fixpoint exec_all (r : Registry) (calls : list probe_call) : Registry :=
  match calls with
  | [] => r
  | c :: cs => exec_all (match exec r c with Ok r' => r' | Err _ => r end) cs
  end.

Definition closes (id : string) (c : probe_call) : bool :=
  match c with CClose i _ => String.eqb i id | _ => false end.
Definition opens (id : string) (c : probe_call) : bool :=
  match c with COpen i _ => String.eqb i id | _ => false end.

(** ** The table invariant *)

Record ops_ok (r : Registry) : Prop := {
  op_keyed : ∀ k o, rg_probe_ops r !! k = Some o → po_operation_id o = k;
  op_one : ∀ k1 k2 o1 o2, rg_probe_ops r !! k1 = Some o1 → rg_probe_ops r !! k2 = Some o2 →
    probe_unresolved o1 = true → probe_unresolved o2 = true → k1 = k2;
}.

(** The progress of an operation: authority is given in this order. *)
Definition phase (o : ProbeMutationOperation) : nat :=
  match _effective_state o with
  | ProbeMutationState.ARMED => 0
  | ProbeMutationState.CLOSE_SUBMITTED => 1
  | ProbeMutationState.READY_TO_OPEN => 2
  | ProbeMutationState.OPEN_SUBMITTED => 3
  | ProbeMutationState.RECONCILE_REQUIRED => 4
  | _ => 5
  end.

(** What one call may do to the operation [o]: its identity is fixed, its phase does
    not decrease, and an authority moves it forward. *)
Record advances (c : probe_call) (o o' : ProbeMutationOperation) : Prop := {
  adv_id : po_operation_id o' = po_operation_id o;
  adv_kind : po_kind o' = po_kind o;
  adv_prior : po_prior_slot o' = po_prior_slot o;
  adv_slot : po_slot_id o' = po_slot_id o;
  adv_phase : (phase o ≤ phase o')%nat;
  adv_close : closes (po_operation_id o) c = true → phase o = 0%nat ∧ phase o' = 1%nat;
  adv_open : opens (po_operation_id o) c = true → (phase o ≤ 2)%nat ∧ phase o' = 3%nat;
}.

Lemma advances_refl c o :
  closes (po_operation_id o) c = false → opens (po_operation_id o) c = false →
  advances c o o.
Proof. intros Hc Ho. constructor; try done; congruence. Qed.

Lemma single_unresolved (ops : gmap string ProbeMutationOperation) :
  (∀ k o, ops !! k = Some o → po_operation_id o = k) → unresolved_index_ok ops = true →
  ∀ k1 k2 o1 o2, ops !! k1 = Some o1 → ops !! k2 = Some o2 →
    probe_unresolved o1 = true → probe_unresolved o2 = true → k1 = k2.
Proof.
  unfold unresolved_index_ok, unresolved_ops. intros Hkey Hlen k1 k2 o1 o2 H1 H2 Hu1 Hu2.
  assert (o1 ∈ select probe_unresolved ops) as Hi1 by (apply elem_of_select; eauto).
  assert (o2 ∈ select probe_unresolved ops) as Hi2 by (apply elem_of_select; eauto).
  destruct (select probe_unresolved ops) as [|x [|y l]]; cbn in Hlen; [|..|done].
  - by apply not_elem_of_nil in Hi1.
  - apply list_elem_of_singleton in Hi1 as ->, Hi2 as ->.
    by rewrite <- (Hkey _ _ H1), <- (Hkey _ _ H2).
Qed.

(** Writing a row. *)
Lemma store_operation_Ok r o r' :
  store_probe_operation r o = Ok r' →
  unresolved_index_ok (<[po_operation_id o := o]> (rg_probe_ops r)) = true ∧
  r' = r <| rg_probe_ops := <[po_operation_id o := o]> (rg_probe_ops r) |>.
Proof.
  unfold store_probe_operation. cbv zeta. intros H.
  apply unit_bind_Ok in H as [_ H]. apply raise_if_then in H as [Hi%negb_false_iff [= <-]].
  done.
Qed.

Lemma stored_ok r o r' :
  ops_ok r → store_probe_operation r o = Ok r' → ops_ok r'.
Proof.
  intros [Hk H1] (Hi & ->)%store_operation_Ok.
  assert (∀ k x, <[po_operation_id o := o]> (rg_probe_ops r) !! k = Some x →
    po_operation_id x = k) as Hk'.
  { intros k x [[<- <-]|[_ Hx]]%lookup_insert_Some; [done|eauto]. }
  constructor; cbn; [done|]. by apply single_unresolved.
Qed.

Lemma save_Ok r o r' o' :
  _save_probe_mutation_operation r o = Ok (r', o') →
  o' = o ∧ store_probe_operation r o = Ok r'.
Proof.
  unfold _save_probe_mutation_operation. intros H.
  apply bind_Ok_inv in H as (? & _ & H). apply bind_Ok_inv in H as (r1 & Hs & [= <- <-]).
  done.
Qed.

(** A call keeps the table invariant and moves every operation forward. *)
Definition preserved (c : probe_call) (r r' : Registry) : Prop :=
  ops_ok r' ∧ ∀ k u, rg_probe_ops r !! k = Some u →
    ∃ u', rg_probe_ops r' !! k = Some u' ∧ advances c u u'.

(** Saving [o'] in place of [o]. *)
Lemma save_advances c r id o o' r' x :
  ops_ok r → rg_probe_ops r !! id = Some o → advances c o o' →
  (∀ i, i ≠ id → closes i c = false ∧ opens i c = false) →
  _save_probe_mutation_operation r o' = Ok (r', x) →
  preserved c r r'.
Proof.
  intros Hok Ho Hadv Hother [-> Hs]%save_Ok.
  split; [by eapply stored_ok|]. apply store_operation_Ok in Hs as [_ ->]. cbn.
  rewrite (adv_id _ _ _ Hadv), (op_keyed _ Hok _ _ Ho). intros k u Hu.
  destruct (decide (k = id)) as [->|Hne].
  - rewrite Ho in Hu. injection Hu as <-. exists o'. by rewrite lookup_insert_eq.
  - exists u. rewrite lookup_insert_ne by done. split; [done|].
    rewrite <- (op_keyed _ Hok _ _ Hu) in Hne.
    destruct (Hother _ Hne) as [Hc Hop]. by apply advances_refl.
Qed.

(** ** The decision *)

(** The states a decision can propose, and from which effective state. *)
Definition may_follow (effective next : ProbeMutationState.t) : bool :=
  match next with
  | ProbeMutationState.RECONCILE_REQUIRED | ProbeMutationState.COMPLETED => true
  | ProbeMutationState.ARMED => bool_decide (effective = ProbeMutationState.ARMED)
  | ProbeMutationState.READY_TO_OPEN =>
      bool_decide (effective = ProbeMutationState.ARMED) ||
      bool_decide (effective = ProbeMutationState.CLOSE_SUBMITTED) ||
      bool_decide (effective = ProbeMutationState.READY_TO_OPEN)
  | _ => false
  end.

Lemma decide_follows o obs cur :
  may_follow (_effective_state o) (rd_next_state (decide_probe_reconciliation o obs cur)) = true.
Proof.
  unfold decide_probe_reconciliation, decide_open, decide_close, decide_rotate.
  generalize (_effective_state o) as eff. intros eff. cbv zeta.
  repeat (case_match; try reflexivity); cbn;
    repeat match goal with Hb : _ = true |- _ => rewrite Hb end; done.
Qed.

Definition same_identity (o o' : ProbeMutationOperation) : Prop :=
  po_operation_id o' = po_operation_id o ∧ po_kind o' = po_kind o ∧
  po_prior_slot o' = po_prior_slot o ∧ po_slot_id o' = po_slot_id o.

Lemma effective_of_state o :
  po_state o ≠ ProbeMutationState.RECONCILE_REQUIRED → _effective_state o = po_state o.
Proof. intros Hs. unfold _effective_state, is_state. by rewrite bool_decide_false. Qed.

Lemma reconciled_same_identity o d t : same_identity o (reconciled_operation o d t).
Proof. unfold reconciled_operation. repeat case_match; done. Qed.

Lemma reconciled_effective o d t :
  rd_next_state d = ProbeMutationState.RECONCILE_REQUIRED →
  _effective_state (reconciled_operation o d t) = _effective_state o.
Proof.
  intros Hd. unfold reconciled_operation. rewrite Hd. cbn.
  destruct (is_state ProbeMutationState.RECONCILE_REQUIRED o) eqn:Hs; unfold _effective_state;
    rewrite Hs; unfold is_state in *; cbn.
  - bool_to_prop. by rewrite Hs.
  - by destruct (po_state o).
Qed.

Lemma reconciled_state o d t : po_state (reconciled_operation o d t) = rd_next_state d.
Proof. unfold reconciled_operation. by repeat case_match. Qed.

Lemma phase_of_state o :
  po_state o ≠ ProbeMutationState.RECONCILE_REQUIRED →
  phase o = match po_state o with
            | ProbeMutationState.ARMED => 0
            | ProbeMutationState.CLOSE_SUBMITTED => 1
            | ProbeMutationState.READY_TO_OPEN => 2
            | ProbeMutationState.OPEN_SUBMITTED => 3
            | ProbeMutationState.RECONCILE_REQUIRED => 4
            | _ => 5
            end%nat.
Proof. intros Hs. unfold phase. by rewrite effective_of_state. Qed.

Lemma phase_le o : (phase o ≤ 5)%nat.
Proof. unfold phase. destruct (_effective_state o); lia. Qed.

Lemma reconciled_phase o obs cur t :
  rd_next_state (decide_probe_reconciliation o obs cur) ≠ ProbeMutationState.COMPLETED →
  (phase o ≤ phase (reconciled_operation o (decide_probe_reconciliation o obs cur) t))%nat.
Proof.
  pose proof (decide_follows o obs cur) as Hf. revert Hf.
  generalize (decide_probe_reconciliation o obs cur) as d. intros d Hf Hne.
  destruct (decide (rd_next_state d = ProbeMutationState.RECONCILE_REQUIRED)) as [Hr|Hr].
  - unfold phase. by rewrite reconciled_effective.
  - rewrite (phase_of_state (reconciled_operation o d t)); rewrite reconciled_state; [|done].
    unfold phase. destruct (rd_next_state d); cbn in Hf; try done; bool_to_prop.
    + rewrite Hf. lia.
    + apply orb_true_iff in Hf as [Hf|Hf]; [apply orb_true_iff in Hf as [Hf|Hf]|];
        bool_to_prop; rewrite Hf; lia.
Qed.

(** ** One call *)

Definition harmless (c : probe_call) : Prop :=
  ∀ i, closes i c = false ∧ opens i c = false.

Lemma advances_later c o o' :
  harmless c → same_identity o o' → (phase o ≤ phase o')%nat → advances c o o'.
Proof.
  intros Hc (Hid & Hk & Hp & Hs) Hle. destruct (Hc (po_operation_id o)) as [Hcl Hop].
  constructor; try done; congruence.
Qed.

Lemma complete_locked_saves r o b ts out rec r' :
  _complete_probe_mutation_locked r o b ts out rec = Ok r' →
  ∃ slots o' x, same_identity o o' ∧ po_state o' = ProbeMutationState.COMPLETED ∧
    _save_probe_mutation_operation (r <| rg_probe_slots := slots |>) o' = Ok (r', x).
Proof.
  unfold _complete_probe_mutation_locked. intros Hc.
  apply unit_bind_Ok in Hc as [_ Hc]. apply bind_Ok_inv in Hc as (cur & _ & Hc).
  apply unit_bind_Ok in Hc as [_ Hc]. apply bind_Ok_inv in Hc as (r1 & Hr1 & Hc).
  apply bind_Ok_inv in Hc as ([r2 x] & Hs & [= <-]).
  assert (∃ slots, r1 = r <| rg_probe_slots := slots |>) as [slots ->].
  { destruct (is_kind _ o); [injection Hr1 as <-; by eexists|].
    destruct b as [b|]; [|done]. unfold store_probe_slot in Hr1.
    do 3 apply unit_bind_Ok in Hr1 as [_ Hr1]. injection Hr1 as <-. by eexists. }
  eexists slots, _, x. split; [|split; [|exact Hs]]; destruct out, rec; done.
Qed.

Lemma frame_slots r slots : ops_ok r → ops_ok (r <| rg_probe_slots := slots |>).
Proof. intros []. by constructor. Qed.

Lemma complete_locked_advances c r o b ts out rec r' id :
  harmless c → ops_ok r → rg_probe_ops r !! id = Some o →
  _complete_probe_mutation_locked r o b ts out rec = Ok r' →
  preserved c r r'.
Proof.
  intros Hc Hok Ho (slots & o' & x & Hid & Hst & Hs)%complete_locked_saves.
  refine (save_advances c (r <| rg_probe_slots := slots |>) id o o' r' x
            (frame_slots _ _ Hok) Ho _ (λ i _, Hc i) Hs).
  apply advances_later; [done..|]. rewrite (phase_of_state o') by congruence. rewrite Hst.
  apply phase_le.
Qed.

(** A call that leaves the table of operations alone. *)
Lemma untouched_advances c r r' :
  harmless c → ops_ok r → rg_probe_ops r' = rg_probe_ops r →
  preserved c r r'.
Proof.
  intros Hc [Hk H1] Heq. split; [by constructor; rewrite Heq|].
  intros k u Hu. exists u. rewrite Heq. split; [done|]. by apply advances_refl; apply Hc.
Qed.

Lemma keyed_get r id o :
  ops_ok r → get_probe_mutation_operation r id = Ok o →
  rg_probe_ops r !! id = Some o ∧ po_operation_id o = id.
Proof. intros Hok Ho%fetch_Ok. split; [done|]. by apply (op_keyed r Hok). Qed.

Lemma arm_Ok r o x :
  arm_probe_mutation_operation r o = Ok x →
  is_state ProbeMutationState.ARMED o = true ∧ rg_probe_ops r !! po_operation_id o = None ∧
  current_slot r = Ok (po_prior_slot o) ∧
  (is_kind ProbeMutationKind.OPEN o = bool_decide (po_prior_slot o = None)) ∧
  unresolved_ops (rg_probe_ops r) = [] ∧ store_probe_operation r o = Ok x.1.
Proof.
  unfold arm_probe_mutation_operation. intros Ha.
  apply raise_if_then in Ha as [Hst%negb_false_iff Ha].
  do 4 apply unit_bind_Ok in Ha as [_ Ha].
  apply bind_Ok_inv in Ha as (? & _ & Ha). apply bind_Ok_inv in Ha as (w & _ & Ha).
  do 3 apply unit_bind_Ok in Ha as [_ Ha].
  apply raise_if_then in Ha as [Hun Ha].
  apply bind_Ok_inv in Ha as (cur & Hcur & Ha). apply unit_bind_Ok in Ha as [Hk Ha].
  apply raise_if_then in Ha as [Hnew Ha]. do 2 apply unit_bind_Ok in Ha as [_ Ha].
  apply bind_Ok_inv in Ha as (r1 & Hs & Ha). apply bind_Ok_inv in Ha as (o1 & _ & [= <-]).
  rewrite bool_decide_eq_false, <- eq_None_not_Some in Hnew.
  assert (unresolved_ops (rg_probe_ops r) = []) by (by destruct (unresolved_ops _)).
  destruct (is_kind ProbeMutationKind.OPEN o).
  - bool_to_prop. split_and!; try done; [congruence|by rewrite bool_decide_true].
  - apply unit_bind_Ok in Hk as [Hp Hk]. unfold _probe_slot_snapshot_matches in Hk.
    bool_to_prop. split_and!; try done; [congruence|by rewrite bool_decide_false].
Qed.

Lemma arm_preserved r o x :
  ops_ok r → arm_probe_mutation_operation r o = Ok x → preserved (CArm o) r x.1.
Proof.
  intros Hok (_ & Hnew & _ & _ & _ & Hs)%arm_Ok. split; [by eapply stored_ok|].
  apply store_operation_Ok in Hs as [_ ->]. cbn. intros k u Hu. exists u.
  rewrite lookup_insert_ne by congruence. split; [done|]. by apply advances_refl.
Qed.

Lemma close_preserved r id now x :
  ops_ok r → authorize_probe_close r id now = Ok x → preserved (CClose id now) r x.1.
Proof.
  intros Hok He. destruct x as [r' x]. apply bind_Ok_inv in He as (o & Ho & He).
  apply raise_if_then in He as [_ He]. apply raise_if_then in He as [Hst He].
  unfold is_state in Hst. bool_to_prop. apply keyed_get in Ho as [Ho Hid]; [|done].
  eapply save_advances; eauto.
  - assert (phase o = 0%nat) as Hp by (rewrite phase_of_state; by rewrite Hst).
    constructor; cbn; try done; rewrite Hp; lia.
  - intros i Hi. cbn. split; [|done]. by apply String.eqb_neq.
Qed.

Lemma open_preserved r id now x :
  ops_ok r → authorize_probe_open r id now = Ok x → preserved (COpen id now) r x.1.
Proof.
  intros Hok He. destruct x as [r' x]. apply bind_Ok_inv in He as (o & Ho & He).
  apply raise_if_then in He as [Hst He]. apply negb_false_iff, orb_true_iff in Hst.
  apply keyed_get in Ho as [Ho Hid]; [|done].
  assert (phase o ≤ 2)%nat as Hp.
  { unfold is_state in Hst.
    destruct Hst as [[_ Hs]%andb_true_iff|[_ Hs]%andb_true_iff]; bool_to_prop;
      (rewrite phase_of_state; [|congruence]); rewrite Hs; lia. }
  eapply save_advances; eauto.
  - assert (phase (o <| po_state := ProbeMutationState.OPEN_SUBMITTED |>
      <| po_resume_state := None |> <| po_updated_at := now |>) = 3%nat) as Hp3
      by (by rewrite phase_of_state).
    constructor; try done; rewrite Hp3; lia.
  - intros i Hi. cbn. split; [done|]. by apply String.eqb_neq.
Qed.

Lemma complete_preserved c r id b ts out x :
  harmless c → ops_ok r → complete_probe_mutation_operation r id b ts out = Ok x →
  preserved c r x.1.
Proof.
  intros Hc Hok He. apply bind_Ok_inv in He as (o & Ho & He).
  apply keyed_get in Ho as [Ho _]; [|done].
  case_test in He as Hst; [injection He as <-; by apply untouched_advances|].
  do 2 apply unit_bind_Ok in He as [_ He].
  apply bind_Ok_inv in He as (r2 & Hl & He). apply bind_Ok_inv in He as (y & _ & [= <-]).
  by eapply complete_locked_advances.
Qed.

Lemma fail_preserved c r id reason now x :
  harmless c → ops_ok r → fail_probe_mutation_operation r id reason now = Ok x →
  preserved c r x.1.
Proof.
  intros Hc Hok He. destruct x as [r' x]. apply bind_Ok_inv in He as (o & Ho & He).
  apply raise_if_then in He as [Hst He]. apply keyed_get in Ho as [Ho _]; [|done].
  eapply save_advances; eauto. apply advances_later; [done..|].
  rewrite (phase_of_state (failed_operation _ _ _)) by done. apply phase_le.
Qed.

Lemma reconcile_preserved c r id obs clock x :
  harmless c → ops_ok r → reconcile_probe_mutation_operation r id obs clock = Ok x →
  preserved c r x.1.
Proof.
  intros Hc Hok He. destruct x as [r' x]. apply bind_Ok_inv in He as (o & Ho & He).
  apply keyed_get in Ho as [Ho _]; [|done].
  case_test in He as Hst; [injection He as <- <-; by apply untouched_advances|].
  case_test in He as Hun; [injection He as <- <-; by apply untouched_advances|].
  apply bind_Ok_inv in He as (r2 & Hl & He). apply bind_Ok_inv in He as (y & _ & [= <- <-]).
  case_test in Hl as Hd; [by eapply complete_locked_advances|].
  apply bind_Ok_inv in Hl as ([r3 z] & Hs & [= <-]). bool_to_prop.
  eapply save_advances; eauto. apply advances_later; [done| |].
  - apply reconciled_same_identity.
  - by apply reconciled_phase.
Qed.

Lemma bind_slot_Ok r s t w u a h p e src obs ttl x :
  bind_probe_window_slot r s t w u a h p e src obs ttl = Ok x →
  unresolved_probe_mutation_operation r = None ∧
  (∀ b, b ∈ probe_window_slots r → ps_slot_id b = s) ∧
  x.1 = r <| rg_probe_slots := <[s := x.2]> (rg_probe_slots r) |>.
Proof.
  unfold bind_probe_window_slot, unresolved_probe_fence. cbv zeta. intros He.
  apply raise_if_then in He as [Hf He]. apply bind_Ok_inv in He as (wk & _ & He).
  apply unit_bind_Ok in He as [_ He]. apply raise_if_then in He as [Hs He].
  do 4 apply unit_bind_Ok in He as [_ He]. apply bind_Ok_inv in He as (r2 & Hr & [= <-]).
  unfold store_probe_slot in Hr. do 3 apply unit_bind_Ok in Hr as [_ Hr].
  injection Hr as <-. split_and!; [by destruct (unresolved_probe_mutation_operation r)| |done].
  intros b Hb. apply String.eqb_eq, negb_false_iff. destruct (String.eqb _ s) eqn:E; [done|].
  assert (existsb (λ s', negb (String.eqb (ps_slot_id s') s)) (probe_window_slots r) = true)
    as Hx; [|congruence].
  apply List.existsb_exists. exists b. by rewrite <- list_elem_of_In, E.
Qed.

Lemma exec_advances r c r' : ops_ok r → exec r c = Ok r' → preserved c r r'.
Proof.
  intros Hok He. destruct c; cbn [exec] in He;
    try (apply bind_Ok_inv in He as (x & He & [= <-])).
  - by apply arm_preserved.
  - by eapply close_preserved.
  - by eapply open_preserved.
  - by eapply complete_preserved.
  - by eapply fail_preserved.
  - by eapply reconcile_preserved.
  - apply bind_slot_Ok in He as (_ & _ & ->). by apply untouched_advances.
  - apply unit_bind_Ok in He as [_ [= <-]]. by apply untouched_advances.
  - injection He as <-. by apply untouched_advances.
Qed.

(** ** Runs *)

(** The authorities an operation can still be given. *)
Definition closes_left (r : Registry) (id : string) : nat :=
  match rg_probe_ops r !! id with
  | None => 1
  | Some o => if Nat.eqb (phase o) 0 then 1 else 0
  end.

Definition opens_left (r : Registry) (id : string) : nat :=
  match rg_probe_ops r !! id with
  | None => 1
  | Some o => if Nat.leb (phase o) 2 then 1 else 0
  end.

Lemma authority_needs_row r c r' id :
  exec r c = Ok r' → closes id c = true ∨ opens id c = true → is_Some (rg_probe_ops r !! id).
Proof.
  intros He Hc. destruct c; cbn in Hc; try (by destruct Hc);
    destruct Hc as [Hc|Hc]; try done; apply String.eqb_eq in Hc as ->;
    cbn [exec] in He; apply bind_Ok_inv in He as (x & He & _);
    apply bind_Ok_inv in He as (o & Ho%fetch_Ok & _); eauto.
Qed.

Lemma closes_left_step r c r' id :
  ops_ok r → exec r c = Ok r' →
  ((if closes id c then 1 else 0) + closes_left r' id ≤ closes_left r id)%nat.
Proof.
  intros Hok He. destruct (exec_advances _ _ _ Hok He) as [Hok' Hadv]. unfold closes_left.
  destruct (rg_probe_ops r !! id) as [o|] eqn:Ho.
  - destruct (Hadv _ _ Ho) as (o' & -> & Ha). pose proof (op_keyed _ Hok _ _ Ho) as <-.
    pose proof (adv_phase _ _ _ Ha). pose proof (adv_close _ _ _ Ha) as Hc.
    destruct (closes _ c).
    + destruct (Hc eq_refl) as [-> ->]. cbn. lia.
    + destruct (Nat.eqb_spec (phase o) 0), (Nat.eqb_spec (phase o') 0); lia.
  - destruct (closes id c) eqn:Hc.
    + destruct (authority_needs_row _ _ _ id He) as [? ?]; [by left|congruence].
    + case_match; [case_match|]; lia.
Qed.

Lemma opens_left_step r c r' id :
  ops_ok r → exec r c = Ok r' →
  ((if opens id c then 1 else 0) + opens_left r' id ≤ opens_left r id)%nat.
Proof.
  intros Hok He. destruct (exec_advances _ _ _ Hok He) as [Hok' Hadv]. unfold opens_left.
  destruct (rg_probe_ops r !! id) as [o|] eqn:Ho.
  - destruct (Hadv _ _ Ho) as (o' & -> & Ha). pose proof (op_keyed _ Hok _ _ Ho) as <-.
    pose proof (adv_phase _ _ _ Ha). pose proof (adv_open _ _ _ Ha) as Hc.
    destruct (opens _ c).
    + destruct (Hc eq_refl) as [Hle ->]. cbn. by destruct (Nat.leb_spec (phase o) 2); lia.
    + destruct (Nat.leb_spec (phase o) 2), (Nat.leb_spec (phase o') 2); lia.
  - destruct (opens id c) eqn:Hc.
    + destruct (authority_needs_row _ _ _ id He) as [? ?]; [by right|congruence].
    + case_match; [case_match|]; lia.
Qed.

(** A budget that every successful call pays for bounds the grants of a run. *)
Lemma grants_bounded (p : probe_call → bool) (budget : Registry → nat) :
  (∀ r c r', ops_ok r → exec r c = Ok r' →
    ((if p c then 1 else 0) + budget r' ≤ budget r)%nat) →
  ∀ calls r, ops_ok r → (grants p r calls ≤ budget r)%nat.
Proof.
  intros Hb calls. induction calls as [|c calls IH]; intros r Hok; cbn [grants]; [lia|].
  destruct (exec r c) as [r'|e] eqn:He; [|auto].
  specialize (IH r' (proj1 (exec_advances _ _ _ Hok He))).
  specialize (Hb _ _ _ Hok He). lia.
Qed.

Lemma exec_all_ok calls r : ops_ok r → ops_ok (exec_all r calls).
Proof.
  revert r. induction calls as [|c calls IH]; intros r Hok; cbn; [done|]. apply IH.
  destruct (exec r c) as [r'|e] eqn:He; [|done]. by apply (exec_advances _ _ _ Hok He).
Qed.

(** ** What a completed reconciliation has seen *)

Definition conclusive (obs : ProbeMutationObservation) (clock : float) : Prop :=
  flt clock (ob_observed_at obs) = false ∧ ob_complete obs = true ∧
  opt_truthy (ob_error obs) = false.

Definition adopts (o : ProbeMutationOperation) (obs : ProbeMutationObservation)
    (b : option ProbeWindowSlotBinding) : Prop :=
  if is_kind ProbeMutationKind.CLOSE o then
    ob_old_matches obs = [] ∧ ob_new_matches obs = [] ∧ b = None
  else
    _effective_state o = ProbeMutationState.OPEN_SUBMITTED ∧ ob_old_matches obs = [] ∧
    ∃ m, ob_new_matches obs = [m] ∧ _match_is_exact_new o m = true ∧
         b = Some (_binding_from_new_match o m (ob_observed_at obs)).

Lemma decide_completed o obs clock :
  rd_next_state (decide_probe_reconciliation o obs clock) = ProbeMutationState.COMPLETED →
  conclusive obs clock ∧ adopts o obs (rd_adopt_binding (decide_probe_reconciliation o obs clock)).
Proof.
  unfold decide_probe_reconciliation, conclusive, adopts, is_kind.
  destruct (flt clock (ob_observed_at obs)) eqn:Hfut; [done|].
  destruct (negb (ob_complete obs) || opt_truthy (ob_error obs)) eqn:Hc; [done|].
  bool_to_prop. intros Hd. split; [done|]. revert Hd.
  destruct (ob_old_matches obs) as [|m1 [|]], (ob_new_matches obs) as [|m2 [|]];
    cbn [length Nat.ltb Nat.leb orb head]; try done.
  - unfold decide_open, decide_close, decide_rotate.
    destruct (po_kind o); cbn; try done; repeat case_match; done.
  - destruct (_match_is_exact_new o m2) eqn:He; cbn [negb]; [|done].
    unfold decide_open, decide_close, decide_rotate.
    destruct (po_kind o); cbn; try done; case_bool_decide; cbn; try done; intros _; split_and!; eauto.
  - destruct (_match_is_exact_old o m1) eqn:He; cbn [negb]; [|done].
    unfold decide_open, decide_close, decide_rotate.
    destruct (po_kind o); cbn; try done; repeat case_match; done.
  - by repeat case_match.
Qed.

(** The slot table after a completion. *)
Definition published (r : Registry) (o : ProbeMutationOperation)
    (b : option ProbeWindowSlotBinding) : gmap string ProbeWindowSlotBinding :=
  match b with
  | Some b => <[po_slot_id o := b]> (rg_probe_slots r)
  | None => delete (po_slot_id o) (rg_probe_slots r)
  end.

Lemma complete_locked_Ok r o b ts out rec r' :
  _complete_probe_mutation_locked r o b ts out rec = Ok r' →
  rg_probe_slots r' = published r o b ∧
  (is_kind ProbeMutationKind.CLOSE o = bool_decide (b = None)) ∧
  (∀ x, b = Some x → _validate_probe_completion_binding o x = Ok tt) ∧
  ∃ cur, current_slot r = Ok cur ∧
    cur = (if is_kind ProbeMutationKind.OPEN o then None else po_prior_slot o).
Proof.
  unfold _complete_probe_mutation_locked. intros Hc.
  apply unit_bind_Ok in Hc as [Hb Hc]. apply bind_Ok_inv in Hc as (cur & Hcur & Hc).
  apply unit_bind_Ok in Hc as [Hk Hc]. apply bind_Ok_inv in Hc as (r1 & Hr1 & Hc).
  apply bind_Ok_inv in Hc as ([r2 x] & [_ Hs]%save_Ok & [= <-]).
  apply store_operation_Ok in Hs as [_ ->]. cbn.
  assert (∃ cur, current_slot r = Ok cur ∧
    cur = (if is_kind ProbeMutationKind.OPEN o then None else po_prior_slot o)).
  { exists cur. split; [done|]. unfold _probe_slot_snapshot_matches in Hk.
    destruct (is_kind ProbeMutationKind.OPEN o); by bool_to_prop. }
  destruct (is_kind ProbeMutationKind.CLOSE o).
  - bool_to_prop. subst b. injection Hr1 as <-. by split_and!.
  - destruct b as [b|]; [|done]. unfold store_probe_slot in Hr1.
    do 3 apply unit_bind_Ok in Hr1 as [_ Hr1]. injection Hr1 as <-. cbn.
    split_and!; [|done|by intros ? [= <-]|done].
    apply raise_if_then in Hb as [Hid%negb_false_iff%String.eqb_eq _]. by rewrite Hid.
Qed.

Lemma saved_lookup r o r' x :
  _save_probe_mutation_operation r o = Ok (r', x) →
  rg_probe_ops r' !! po_operation_id o = Some o ∧ rg_probe_slots r' = rg_probe_slots r.
Proof.
  intros [_ Hs]%save_Ok. apply store_operation_Ok in Hs as [_ ->]. cbn.
  by rewrite lookup_insert_eq.
Qed.

Lemma complete_locked_state r o b ts out rec r' id :
  ops_ok r → rg_probe_ops r !! id = Some o →
  _complete_probe_mutation_locked r o b ts out rec = Ok r' →
  ∃ o', rg_probe_ops r' !! id = Some o' ∧ po_state o' = ProbeMutationState.COMPLETED.
Proof.
  intros Hok Ho (slots & o' & x & (Hid & _) & Hst & Hs)%complete_locked_saves.
  apply saved_lookup in Hs as [Hl _]. exists o'.
  by rewrite Hid, (op_keyed _ Hok _ _ Ho) in Hl.
Qed.

(** ** The slot is fenced *)

Lemma no_unresolved r id o :
  rg_probe_ops r !! id = Some o → probe_unresolved o = true →
  unresolved_probe_mutation_operation r ≠ None.
Proof.
  intros Ho Hu. unfold unresolved_probe_mutation_operation.
  assert (o ∈ order_desc po_created_at (unresolved_ops (rg_probe_ops r))) as Hin.
  { unfold order_desc. apply elem_of_py_sorted, elem_of_select. eauto. }
  destruct (order_desc _ _); [by apply not_elem_of_nil in Hin|done].
Qed.

(** The call that completes operation [id]. *)
Definition completes (id : string) (c : probe_call) : bool :=
  match c with
  | CComplete i _ _ _ | CReconcile i _ _ => String.eqb i id
  | _ => false
  end.

Lemma saved_slots r o x : _save_probe_mutation_operation r o = Ok x →
  rg_probe_slots x.1 = rg_probe_slots r.
Proof. destruct x as [r' x]. intros [_ ?]%saved_lookup. done. Qed.

(** A completion through either call concerns the one unresolved operation. *)
Lemma completion_fenced r id id' o o1 b ts out rec r' :
  ops_ok r → rg_probe_ops r !! id = Some o → probe_unresolved o = true →
  rg_probe_ops r !! id' = Some o1 → probe_unresolved o1 = true →
  _complete_probe_mutation_locked r o1 b ts out rec = Ok r' →
  id' = id ∧ ∃ o', rg_probe_ops r' !! id = Some o' ∧ po_state o' = ProbeMutationState.COMPLETED.
Proof.
  intros Hok Ho Hu Ho1 Hu1 Hc.
  assert (id' = id) as -> by (by eapply (op_one r Hok)).
  split; [done|]. by eapply complete_locked_state.
Qed.

Lemma slot_fenced r c r' id o :
  ops_ok r → rg_probe_ops r !! id = Some o → probe_unresolved o = true →
  exec r c = Ok r' → rg_probe_slots r' ≠ rg_probe_slots r →
  completes id c = true ∧
  ∃ o', rg_probe_ops r' !! id = Some o' ∧ po_state o' = ProbeMutationState.COMPLETED.
Proof.
  intros Hok Ho Hu He Hne. destruct c; cbn [exec completes] in He |- *;
    try (apply bind_Ok_inv in He as (x & He & [= <-])).
  - apply arm_Ok in He as (_ & _ & _ & _ & _ & Hs).
    apply store_operation_Ok in Hs as [_ Hs]. by rewrite Hs in Hne.
  - apply bind_Ok_inv in He as (o1 & _ & He). do 2 apply unit_bind_Ok in He as [_ He].
    by apply saved_slots in He.
  - apply bind_Ok_inv in He as (o1 & _ & He). apply unit_bind_Ok in He as [_ He].
    by apply saved_slots in He.
  - apply bind_Ok_inv in He as (o1 & Ho1%fetch_Ok & He).
    case_test in He as Hst; [by injection He as <-|].
    apply raise_if_then in He as [Hun%negb_false_iff He]. apply unit_bind_Ok in He as [_ He].
    apply bind_Ok_inv in He as (r2 & Hl & He). apply bind_Ok_inv in He as (y & _ & [= <-]).
    destruct (completion_fenced _ _ _ _ _ _ _ _ _ _ Hok Ho Hu Ho1 Hun Hl) as [-> ?].
    by rewrite String.eqb_refl.
  - apply bind_Ok_inv in He as (o1 & _ & He). apply unit_bind_Ok in He as [_ He].
    by apply saved_slots in He.
  - apply bind_Ok_inv in He as (o1 & Ho1%fetch_Ok & He).
    case_test in He as Hst; [by injection He as <-|].
    case_test in He as Hun; [by injection He as <-|]. apply negb_false_iff in Hun.
    apply bind_Ok_inv in He as (r2 & Hl & He). apply bind_Ok_inv in He as (y & _ & [= <-]).
    case_test in Hl as Hd.
    + destruct (completion_fenced _ _ _ _ _ _ _ _ _ _ Hok Ho Hu Ho1 Hun Hl) as [-> ?].
      by rewrite String.eqb_refl.
    + apply bind_Ok_inv in Hl as (z & Hs%saved_slots & [= <-]). done.
  - apply bind_slot_Ok in He as (Hnone & _). by eapply no_unresolved in Hnone.
  - apply raise_if_then in He as [Hf _].
    pose proof (no_unresolved _ _ _ Ho Hu). by case_match.
  - by injection He as <-.
Qed.

(** ** Advice *)

Lemma index_ok_replace r o o' id :
  ops_ok r → rg_probe_ops r !! id = Some o → probe_unresolved o = true →
  po_operation_id o' = id →
  unresolved_index_ok (<[po_operation_id o' := o']> (rg_probe_ops r)) = true.
Proof.
  intros Hok Ho Hu Hid. apply Nat.leb_le. apply select_unique. rewrite Hid.
  assert (∀ k a, <[id := o']> (rg_probe_ops r) !! k = Some a → probe_unresolved a = true →
    k = id) as Hall; [|by intros; transitivity id; [|symmetry]; eauto].
  intros k a [[<- _]|[Hne Hk]]%lookup_insert_Some Ha; [done|].
  by eapply (op_one r Hok).
Qed.

Lemma save_succeeds r o o' id :
  ops_ok r → rg_probe_ops r !! id = Some o → probe_unresolved o = true →
  po_operation_id o' = id → is_nan (po_updated_at o') = false →
  ∃ x, _save_probe_mutation_operation r o' = Ok x.
Proof.
  intros Hok Ho Hu Hid Hnan. unfold _save_probe_mutation_operation, store_probe_operation.
  unfold get_probe_mutation_operation, fetch. rewrite Hid, Ho, Ok_bind. cbv zeta.
  unfold real_not_null. rewrite Hnan. cbn [raise_if]. rewrite Ok_bind.
  pose proof (index_ok_replace r o o' id Hok Ho Hu Hid) as Hi. rewrite Hid in Hi.
  rewrite Hi. cbn [negb raise_if]. rewrite !Ok_bind. eauto.
Qed.

Lemma decide_advice o obs clock :
  let d := decide_probe_reconciliation o obs clock in
  (rd_may_open d = true →
     po_kind o = ProbeMutationKind.OPEN ∧ rd_next_state d = ProbeMutationState.ARMED ∨
     po_kind o = ProbeMutationKind.ROTATE ∧ rd_next_state d = ProbeMutationState.READY_TO_OPEN) ∧
  (rd_may_close d = true →
     po_kind o ≠ ProbeMutationKind.OPEN ∧ rd_next_state d = ProbeMutationState.ARMED).
Proof.
  unfold decide_probe_reconciliation, decide_open, decide_close, decide_rotate. cbv zeta.
  destruct (po_kind o); repeat (case_match; try (by split)); cbn; naive_solver.
Qed.

(** A reconciliation that leaves the operation unresolved. *)
Lemma reconcile_unresolved r id o obs clock r' o' :
  ops_ok r → rg_probe_ops r !! id = Some o → probe_unresolved o = true →
  rd_next_state (decide_probe_reconciliation o obs clock) ≠ ProbeMutationState.COMPLETED →
  reconcile_probe_mutation_operation r id obs clock = Ok (r', o') →
  rg_probe_ops r' !! id = Some o' ∧
  o' = reconciled_operation o (decide_probe_reconciliation o obs clock) (ob_observed_at obs).
Proof.
  intros Hok Ho Hu Hd He. apply bind_Ok_inv in He as (o1 & Ho1%fetch_Ok & He).
  rewrite Ho in Ho1. injection Ho1 as <-.
  case_test in He as Hst.
  { unfold is_state, probe_unresolved in *. bool_to_prop. by rewrite Hst in Hu. }
  rewrite Hu in He. cbn [negb] in He. apply bind_Ok_inv in He as (r2 & Hl & He).
  rewrite bool_decide_false in Hl by done. apply bind_Ok_inv in Hl as ([r3 z] & Hs & [= <-]).
  apply bind_Ok_inv in He as (y & Hy%fetch_Ok & [= <- <-]).
  apply saved_lookup in Hs as [Hl _]. split; [done|].
  destruct (reconciled_same_identity o (decide_probe_reconciliation o obs clock)
    (ob_observed_at obs)) as [Hid _].
  rewrite Hid, (op_keyed _ Hok _ _ Ho) in Hl. cbn in Hy. congruence.
Qed.

Lemma reconcile_advises r id o obs clock r' o' now :
  ops_ok r → rg_probe_ops r !! id = Some o → probe_unresolved o = true →
  is_nan now = false → reconcile_probe_mutation_operation r id obs clock = Ok (r', o') →
  (rd_may_open (decide_probe_reconciliation o obs clock) = true →
     ∃ x, authorize_probe_open r' id now = Ok x) ∧
  (rd_may_close (decide_probe_reconciliation o obs clock) = true →
     ∃ x, authorize_probe_close r' id now = Ok x).
Proof.
  intros Hok Ho Hu Hnow He.
  destruct (reconcile_preserved (CReconcile id obs clock) _ _ _ _ _ ltac:(done) Hok He) as [Hok' _].
  destruct (decide_advice o obs clock) as [Hopen Hclose].
  assert (∀ st, rd_next_state (decide_probe_reconciliation o obs clock) = st →
    st ≠ ProbeMutationState.COMPLETED → st ≠ ProbeMutationState.RECONCILE_REQUIRED →
    rg_probe_ops r' !! id = Some o' ∧ po_state o' = st ∧ po_kind o' = po_kind o) as Hst.
  { intros st Hd H1 H2. rewrite <- Hd in H1.
    destruct (reconcile_unresolved _ _ _ _ _ _ _ Hok Ho Hu H1 He) as [Hl ->].
    split; [done|]. split; [by rewrite reconciled_state|]. apply reconciled_same_identity. }
  split.
  - intros Hmay. unfold authorize_probe_open, get_probe_mutation_operation, fetch, open_allowed,
      is_kind, is_state.
    destruct (Hopen Hmay) as [[Hk Hd]|[Hk Hd]];
      destruct (Hst _ Hd ltac:(done) ltac:(done)) as (Hl & Hs & Hk');
      rewrite Hl, Ok_bind, Hs, Hk', Hk; cbn;
      (eapply save_succeeds; [exact Hok'|exact Hl|unfold probe_unresolved; by rewrite Hs
        |exact (op_keyed _ Hok' _ _ Hl)|exact Hnow]).
  - intros Hmay. unfold authorize_probe_close, get_probe_mutation_operation, fetch, is_kind,
      is_state.
    destruct (Hclose Hmay) as [Hk Hd].
    destruct (Hst _ Hd ltac:(done) ltac:(done)) as (Hl & Hs & Hk').
    rewrite Hl, Ok_bind, Hs, Hk'. rewrite (bool_decide_false (po_kind o = _)) by done. cbn.
    eapply save_succeeds; [exact Hok'|exact Hl|unfold probe_unresolved; by rewrite Hs
      |exact (op_keyed _ Hok' _ _ Hl)|exact Hnow].
Qed.

(** ** Theorems *)

(** C9: Each external side effect of a probe operation is authorised at most once: in any
    sequence of registry calls, interleaved with any changes of the other tables, an
    operation id receives at most one CLOSE and at most one OPEN authority, and none
    once its record has gone past that phase. *)
Theorem probe_authority_once r calls id :
  ops_ok r →
  (grants (closes id) r calls ≤ closes_left r id ≤ 1)%nat ∧
  (grants (opens id) r calls ≤ opens_left r id ≤ 1)%nat.
Proof.
  intros Hok. split.
  - split; [|unfold closes_left; repeat case_match; lia].
    apply (grants_bounded _ (λ r, closes_left r id)); [|done].
    intros r1 c r2. apply closes_left_step.
  - split; [|unfold opens_left; repeat case_match; lia].
    apply (grants_bounded _ (λ r, opens_left r id)); [|done].
    intros r1 c r2. apply opens_left_step.
Qed.

(** At most one probe operation is unresolved at any time, and while one is, the
    published slot can only change by a call that completes this very operation. *)
Theorem probe_slot_fenced r calls c r' id o :
  ops_ok r → exec (exec_all r calls) c = Ok r' →
  rg_probe_ops (exec_all r calls) !! id = Some o → probe_unresolved o = true →
  (∀ id' o', rg_probe_ops (exec_all r calls) !! id' = Some o' →
     probe_unresolved o' = true → id' = id) ∧
  (rg_probe_slots r' ≠ rg_probe_slots (exec_all r calls) →
   completes id c = true ∧
   ∃ o', rg_probe_ops r' !! id = Some o' ∧ po_state o' = ProbeMutationState.COMPLETED).
Proof.
  intros Hok He Ho Hu. pose proof (exec_all_ok calls r Hok) as Hok'. split.
  - intros id' o' Ho' Hu'. by eapply (op_one _ Hok').
  - intros Hne. by eapply slot_fenced.
Qed.

(** Reconciliation adopts only exact evidence: when it completes an OPEN or ROTATE,
    OPEN authority had been issued and a complete, error-free observation showed no old
    window and exactly one new one with the recorded identity; the published slot is
    that window.  A CLOSE completes only when neither window exists. *)
Theorem reconcile_adopts_exact r id o obs clock r' o' :
  ops_ok r → rg_probe_ops r !! id = Some o → probe_unresolved o = true →
  reconcile_probe_mutation_operation r id obs clock = Ok (r', o') →
  po_state o' = ProbeMutationState.COMPLETED →
  conclusive obs clock ∧ ∃ b, adopts o obs b ∧ rg_probe_slots r' = published r o b.
Proof.
  intros Hok Ho Hu He Hst.
  destruct (decide (rd_next_state (decide_probe_reconciliation o obs clock) =
                    ProbeMutationState.COMPLETED)) as [Hd|Hd].
  - destruct (decide_completed _ _ _ Hd) as [Hc Ha]. split; [done|].
    eexists. split; [exact Ha|].
    apply bind_Ok_inv in He as (o1 & Ho1%fetch_Ok & He). rewrite Ho in Ho1.
    injection Ho1 as <-. case_test in He as Hs.
    { unfold is_state, probe_unresolved in *. bool_to_prop. by rewrite Hs in Hu. }
    rewrite Hu in He. cbn [negb] in He. apply bind_Ok_inv in He as (r2 & Hl & He).
    rewrite bool_decide_true in Hl by done. apply bind_Ok_inv in He as (y & _ & [= <- <-]).
    by apply complete_locked_Ok in Hl as [-> _].
  - destruct (reconcile_unresolved _ _ _ _ _ _ _ Hok Ho Hu Hd He) as [_ ->].
    by rewrite reconciled_state in Hst.
Qed.

(** The advice of a reconciliation can be followed: after an observation whose
    decision says the window may be opened (closed), the corresponding authority is
    granted by the next call, whatever the clock shows short of NaN. *)
Theorem reconcile_advice_holds r id o obs clock r' o' now :
  ops_ok r → rg_probe_ops r !! id = Some o → probe_unresolved o = true →
  is_nan now = false → reconcile_probe_mutation_operation r id obs clock = Ok (r', o') →
  (rd_may_open (decide_probe_reconciliation o obs clock) = true →
     ∃ x, authorize_probe_open r' id now = Ok x) ∧
  (rd_may_close (decide_probe_reconciliation o obs clock) = true →
     ∃ x, authorize_probe_close r' id now = Ok x).
Proof. apply reconcile_advises. Qed.

End Probe.

(** ** Witnesses

    A parked worker's window is rotated: the old window is closed, reconciliation sees
    it gone, the replacement is opened and adopted. *)

#[local] Existing Instance AsciiTables.

Definition t_ (n : Z) : float := of_Z n.

Definition demo_task : TaskRecord :=
  mkTaskRecord "task" "p" "o" "/w" SupervisorState.RUNNING None [] (Some "w1") 0 3 (t_ 1) (t_ 1).

Definition demo_worker : WorkerRecord :=
  mkWorkerRecord "w1" "task" "https://chat/c/1" None WorkerStatus.PARKED (t_ 1) None None.

Definition demo_slot : ProbeWindowSlotBinding :=
  mkProbeWindowSlotBinding "slot" "tok0" "w1" "https://chat/c/1" "https://chat/c/1#old" 11 21
    "C:/Chrome.exe" "probe" (t_ 2) (t_ 2) (t_ 100).

Definition demo_registry : Registry :=
  empty_registry <| rg_tasks := {["task" := demo_task]} |>
                 <| rg_workers := {["w1" := demo_worker]} |>
                 <| rg_probe_slots := {["slot" := demo_slot]} |>.

Definition demo_rotate : ProbeMutationOperation :=
  mkProbeMutationOperation "op" "nonce" ProbeMutationKind.ROTATE ProbeMutationState.ARMED "slot"
    "task" "w1" "https://chat/c/1" "tok1" "https://chat/c/1#new" "C:/Chrome.exe" "probe"
    (Some demo_slot) (t_ 3) (t_ 3) (t_ 120) 0 None None None None.

Definition old_gone : ProbeMutationObservation := mkProbeMutationObservation (t_ 5) [] [] true None.

Definition new_seen : ProbeMutationObservation :=
  mkProbeMutationObservation (t_ 8) []
    [mkProbeWindowMatch 12 22 "c:/chrome.exe" "https://chat/c/1#new/"] true None.

Definition demo_calls : list probe_call :=
  [CArm demo_rotate; CClose "op" (t_ 4); CClose "op" (t_ 4); CReconcile "op" old_gone (t_ 6);
   COpen "op" (t_ 7); COpen "op" (t_ 7)].

Definition row_of (r : Registry) (id : string) : ProbeMutationOperation :=
  default demo_rotate (rg_probe_ops r !! id).

Lemma demo_ok : ops_ok demo_registry.
Proof. by constructor. Qed.

Lemma exec_all_demo_ok calls : ops_ok (exec_all demo_registry calls).
Proof. apply exec_all_ok, demo_ok. Qed.

Definition reconciled (r : Registry) (id : string) (obs : ProbeMutationObservation)
    (clock : float) : Registry * ProbeMutationOperation :=
  match reconcile_probe_mutation_operation r id obs clock with
  | Ok x => x
  | Err _ => (r, demo_rotate)
  end.

Lemma probe_authority_once_witness :
  (grants (closes "op") demo_registry demo_calls ≤ closes_left demo_registry "op" ≤ 1)%nat ∧
  (grants (opens "op") demo_registry demo_calls ≤ opens_left demo_registry "op" ≤ 1)%nat.
Proof. apply (probe_authority_once demo_registry demo_calls "op"). by constructor. Defined.

Definition opened : Registry := exec_all demo_registry demo_calls.

Definition demo_finish : probe_call := CReconcile "op" new_seen (t_ 9).

Definition finished : Registry := exec_all opened [demo_finish].

Lemma probe_slot_fenced_witness :
  completes "op" demo_finish = true ∧
  ∃ o', rg_probe_ops finished !! "op" = Some o' ∧ po_state o' = ProbeMutationState.COMPLETED.
Proof.
  apply (probe_slot_fenced demo_registry demo_calls demo_finish finished "op"
           (row_of opened "op")).
  - by constructor.
  - vm_compute. reflexivity.
  - vm_compute. reflexivity.
  - vm_compute. reflexivity.
  - intros Heq. apply (f_equal (λ m, ps_window_handle <$> m !! "slot")) in Heq.
    vm_compute in Heq. discriminate.
Defined.

Lemma reconcile_adopts_exact_witness :
  conclusive new_seen (t_ 9) ∧
  ∃ b, adopts (row_of opened "op") new_seen b ∧
       rg_probe_slots finished = published opened (row_of opened "op") b.
Proof.
  apply (reconcile_adopts_exact opened "op" (row_of opened "op") new_seen (t_ 9) finished
    (row_of finished "op")).
  - apply exec_all_demo_ok.
  - vm_compute. reflexivity.
  - vm_compute. reflexivity.
  - vm_compute. reflexivity.
  - vm_compute. reflexivity.
Defined.

Definition closed_once : Registry := exec_all demo_registry (take 2 demo_calls).

Lemma reconcile_advice_holds_witness :
  rd_may_open (decide_probe_reconciliation (row_of closed_once "op") old_gone (t_ 6)) = true ∧
  ∃ x, authorize_probe_open (reconciled closed_once "op" old_gone (t_ 6)).1 "op" (t_ 7) = Ok x.
Proof.
  split; [vm_compute; reflexivity|].
  eapply (reconcile_advice_holds closed_once "op" (row_of closed_once "op") old_gone (t_ 6)
    (reconciled closed_once "op" old_gone (t_ 6)).1
    (reconciled closed_once "op" old_gone (t_ 6)).2 (t_ 7)).
  - apply exec_all_demo_ok.
  - vm_compute. reflexivity.
  - vm_compute. reflexivity.
  - vm_compute. reflexivity.
  - vm_compute. reflexivity.
  - vm_compute. reflexivity.
Defined.

(** ** A lost update

    [fail_probe_mutation_operation] reads the record and writes it back without holding
    the write lock.  When another process is granted CLOSE authority between the read
    and the write, the write overwrites that authority with FAILED: the operation is
    terminal, and another one can be armed, while the close is in flight. *)

Definition armed : Registry := exec_all demo_registry [CArm demo_rotate].

Definition stale_failure (r : Registry) (read_before : ProbeMutationOperation) : Registry :=
  match _save_probe_mutation_operation r (failed_operation read_before "operator" (t_ 4)) with
  | Ok x => x.1
  | Err _ => r
  end.

Definition demo_second : ProbeMutationOperation :=
  demo_rotate <| po_operation_id := "op2" |> <| po_nonce := "nonce2" |>.

Lemma fail_overwrites_authority :
  let other := exec_all armed [CClose "op" (t_ 4)] in
  let after := stale_failure other (row_of armed "op") in
  po_state (row_of other "op") = ProbeMutationState.CLOSE_SUBMITTED ∧
  po_state (row_of after "op") = ProbeMutationState.FAILED ∧
  res_ok (exec after (CArm demo_second)) = true.
Proof. vm_compute. repeat split; reflexivity. Qed.
