(* ===== verification/ProbeRuntime.v ===== *)
(** * page_runtime.py: planning a probe slot and mutating its window

    A probe slot is one tagged Chrome window that shows the conversation of a parked worker.
    The plan says whether to reuse, open or rotate it; an operation record carries the plan to
    the registry (ProbeOps.v); the transport closes or opens exactly one window for an
    operation whose authority is durable.  The PowerShell scripts and the launch of Chrome are
    the class [ProbeShell]. *)

From S2P Require Import Prelude PyFloat PyStr PyUrl PyJson Models Registry ProbeOps Runs.

Open Scope string_scope.
Open Scope Z_scope.
Open Scope list_scope.

Definition PROBE_SLOT_SOURCE : string := "windows_uia_lws_probe".
Definition DEFAULT_PROBE_SLOT_ID : string := "probe:default".

Module ProbeSlotAction.

Inductive t := REUSE | OPEN | ROTATE | BLOCKED.

#[global] Instance t_eq_dec : EqDecision t.
Proof. solve_decision. Defined.

End ProbeSlotAction.

Record ProbeSlotPlan := mkProbeSlotPlan {
  sp_slot_id : string;
  sp_worker_id : string;
  sp_target_conversation_url : string;
  sp_action : ProbeSlotAction.t;
  sp_mutation_required : bool;
  sp_reason : string;
  sp_checks : list (string * bool);
  sp_owner_token : option string;
}.

Record ProbeSlotExecution := mkProbeSlotExecution {
  ex_changed : bool;
  ex_side_effect_possible : bool;
  ex_detail : string;
  ex_binding : option ProbeWindowSlotBinding;
}.

(** ** Planning *)

Section Plan.
Context {tables : UnicodeTables} {check : NetlocCheck}.

Definition _conversation_identity (url : string) : res (option (string * string)) :=
  parsed ← urlsplit (strip url);
  if negb (String.eqb (lower (u_scheme parsed)) "https") ||
     negb (String.eqb (lower (u_netloc parsed)) "chatgpt.com")
  then Ok None
  else
    Ok (id ← conversation_id_from_url url; Some (lower (u_netloc parsed), lower id)).

Definition probe_fragment (slot_id owner_token : string) : string :=
  "lws-probe=" +:+ slot_id +:+ ":" +:+ owner_token.

Definition tagged_probe_url (conversation_url slot_id owner_token : string) : res string :=
  identity ← _conversation_identity conversation_url;
  raise_if (bool_decide (identity = None)) ValueError
    "probe slot requires an https://chatgpt.com/c/... conversation URL";;
  raise_if (negb (str_truthy (strip slot_id)) || negb (str_truthy (strip owner_token))) ValueError
    "probe slot tag requires slot id and owner token";;
  parsed ← urlsplit (strip conversation_url);
  Ok (urlunsplit (mkSplitResult (u_scheme parsed) (u_netloc parsed) (u_path parsed)
        (u_query parsed) (probe_fragment slot_id owner_token))).

(** Every error of the tag is a [ValueError], which means no ownership. *)
Definition slot_owns_actual_url (slot : ProbeWindowSlotBinding) : bool :=
  match tagged_probe_url (ps_target_conversation_url slot) (ps_slot_id slot)
          (ps_owner_token slot) with
  | Ok expected => String.eqb (rstrip_slash (ps_actual_url slot)) (rstrip_slash expected)
  | Err _ => false
  end.

Definition all_checks (checks : list (string * bool)) : bool := forallb snd checks.

Definition slot_checks (existing : ProbeWindowSlotBinding) (slot_id : string) (now : float)
    : list (string * bool) :=
  [("slot_id_matches", String.eqb (ps_slot_id existing) slot_id);
   ("slot_source_owned", String.eqb (ps_source existing) PROBE_SLOT_SOURCE);
   ("slot_fresh", slot_is_fresh existing now);
   ("slot_owner_tag_matches", slot_owns_actual_url existing)].

(** [token] is the fresh owner token of a plan that needs one. *)
Definition plan_probe_slot (worker : WorkerRecord) (existing : option ProbeWindowSlotBinding)
    (slot_id : string) (now : float) (token : string) : res ProbeSlotPlan :=
  let plan := mkProbeSlotPlan slot_id (wr_worker_id worker) (wr_conversation_url worker) in
  identity ← _conversation_identity (wr_conversation_url worker);
  let checks :=
    [("worker_is_parked", bool_decide (wr_status worker = WorkerStatus.PARKED));
     ("target_is_web_conversation", negb (bool_decide (identity = None)))] in
  if negb (all_checks checks)
  then Ok (plan ProbeSlotAction.BLOCKED false
    "probe slots are only for parked workers with an existing web chat conversation URL"
    checks None)
  else
    match existing with
    | None => Ok (plan ProbeSlotAction.OPEN true
        "no probe slot is bound; open exactly one tagged LWS probe window" checks (Some token))
    | Some slot =>
        let checks := checks ++ slot_checks slot slot_id now in
        if negb (all_checks checks)
        then Ok (plan ProbeSlotAction.BLOCKED false
          ("existing probe slot is stale, ambiguous, or no longer proves LWS ownership; " +:+
           "reconcile it before opening another window") checks (Some (ps_owner_token slot)))
        else
          same_target ←
            (if String.eqb (ps_target_worker_id slot) (wr_worker_id worker) then
               owned ← _conversation_identity (ps_target_conversation_url slot);
               Ok (bool_decide (owned = identity))
             else Ok false);
          let checks := checks ++ [("same_target", same_target)] in
          if (same_target : bool)
          then Ok (plan ProbeSlotAction.REUSE false
            "fresh LWS-owned probe slot already targets this parked worker" checks
            (Some (ps_owner_token slot)))
          else Ok (plan ProbeSlotAction.ROTATE true
            "rotate the single LWS probe slot by exact-close-before-open" checks (Some token))
    end.

(** The names and times of a new operation: [operation_id] and [nonce] when given, or fresh. *)
Definition armed_operation (kind : ProbeMutationKind.t) (worker : WorkerRecord)
    (slot_id owner_token expected_url chrome_executable source : string)
    (prior : option ProbeWindowSlotBinding) (now ttl_s : float) (operation_id nonce : string)
    : ProbeMutationOperation :=
  mkProbeMutationOperation operation_id nonce kind ProbeMutationState.ARMED slot_id
    (wr_task_id worker) (wr_worker_id worker) (wr_conversation_url worker) owner_token
    expected_url chrome_executable source prior now now ttl_s 0 None None None None.

(** [given or fresh] *)
Definition or_fresh (given : option string) (fresh : string) : string :=
  if opt_truthy given then default "" given else fresh.

Definition is_action (a : ProbeSlotAction.t) (p : ProbeSlotPlan) : bool :=
  bool_decide (sp_action p = a).

Definition probe_operation_from_plan (worker : WorkerRecord) (plan : ProbeSlotPlan)
    (existing : option ProbeWindowSlotBinding) (chrome_executable : string) (now : float)
    (operation_id nonce : option string) (slot_ttl_s : float) (uuid1 uuid2 : string)
    : res ProbeMutationOperation :=
  raise_if (negb (String.eqb (sp_worker_id plan) (wr_worker_id worker)) ||
            negb (String.eqb (sp_target_conversation_url plan) (wr_conversation_url worker)))
    ValueError "probe plan no longer matches its worker";;
  raise_if (negb (is_action ProbeSlotAction.OPEN plan) && negb (is_action ProbeSlotAction.ROTATE plan))
    ValueError "only OPEN/ROTATE plans create probe mutation operations";;
  raise_if (negb (opt_truthy (sp_owner_token plan))) ValueError
    "mutating probe plan requires an ownership token";;
  let owner_token := default "" (sp_owner_token plan) in
  raise_if (is_action ProbeSlotAction.OPEN plan && negb (bool_decide (existing = None))) ValueError
    "OPEN operation must not have a prior slot";;
  raise_if (is_action ProbeSlotAction.ROTATE plan && bool_decide (existing = None)) ValueError
    "ROTATE operation requires the prior slot";;
  actual_url ← tagged_probe_url (wr_conversation_url worker) (sp_slot_id plan) owner_token;
  Ok (armed_operation
        (if is_action ProbeSlotAction.OPEN plan then ProbeMutationKind.OPEN
         else ProbeMutationKind.ROTATE)
        worker (sp_slot_id plan) owner_token actual_url chrome_executable PROBE_SLOT_SOURCE existing
        now (fmax (of_Z 1) slot_ttl_s) (or_fresh operation_id ("probeop_" +:+ uuid1))
        (or_fresh nonce uuid2)).

Definition probe_close_operation (worker : WorkerRecord) (existing : ProbeWindowSlotBinding)
    (now : float) (operation_id nonce : option string) (uuid1 uuid2 : string)
    : res ProbeMutationOperation :=
  raise_if (negb (bool_decide (wr_status worker = WorkerStatus.PARKED))) ValueError
    "probe CLOSE requires a parked worker";;
  raise_if (negb (String.eqb (ps_target_worker_id existing) (wr_worker_id worker))) ValueError
    "probe CLOSE worker does not own the durable slot";;
  raise_if (negb (slot_owns_actual_url existing)) ValueError
    "probe CLOSE requires an exact LWS ownership tag";;
  Ok (armed_operation ProbeMutationKind.CLOSE worker (ps_slot_id existing)
        (ps_owner_token existing) "" (ps_chrome_executable existing) (ps_source existing)
        (Some existing) now
        (fmax (of_Z 1) (fsub (ps_expires_at existing) (ps_observed_at existing)))
        (or_fresh operation_id ("probeop_" +:+ uuid1)) (or_fresh nonce uuid2)).

(** [observe] is the probe of the exact window, asked for the tagged address. *)
Definition observe_probe_slot (worker : WorkerRecord) (slot : ProbeWindowSlotBinding)
    (observe : WorkerRecord → option BrowserObservation → Z → res BrowserObservation)
    (previous : option BrowserObservation) : res BrowserObservation :=
  raise_if (negb (bool_decide (wr_status worker = WorkerStatus.PARKED))) UiaProbeUnavailable
    "probe-slot observation requires a parked worker";;
  raise_if (negb (String.eqb (ps_target_worker_id slot) (wr_worker_id worker)))
    UiaProbeUnavailable "probe slot belongs to a different worker";;
  raise_if (negb (slot_owns_actual_url slot)) UiaProbeUnavailable
    "probe slot no longer proves LWS URL ownership";;
  shown ← _conversation_identity (ps_actual_url slot);
  wanted ← _conversation_identity (wr_conversation_url worker);
  raise_if (negb (bool_decide (shown = wanted))) UiaProbeUnavailable
    "probe slot conversation identity does not match the worker";;
  obs ← observe (worker <| wr_conversation_url := ps_actual_url slot |>) previous
          (ps_window_handle slot);
  Ok (mkBrowserObservation (wr_worker_id worker) (bo_observed_at obs)
        (Some (wr_conversation_url worker)) (bo_generating obs) (bo_send_button_ready obs)
        (bo_pending_tool_calls obs) (bo_visible_error obs) (bo_last_dom_change_at obs)
        (bo_message_signature obs)
        (dupdate (bo_raw obs)
           [("probe_slot_id", JStr (ps_slot_id slot)); ("probe_slot_owner", JBool true)])).

End Plan.

(** ** The transport *)

(** [os.name == "nt"], the two PowerShell scripts, each writing one JSON object, and the
    launch of Chrome. *)
Class ProbeShell := {
  on_windows : bool;
  find_windows : nat → string → res dict;
  close_window : nat → ProbeWindowSlotBinding → res dict;
  launch : nat → string → string → res unit;
}.

Record ProbeTransport := mkProbeTransport {
  pt_chrome_executable : string;
  pt_enabled : bool;
  pt_open_timeout_s : float;
  pt_slot_ttl_s : float;
}.

(** [ChromeUiaProbeWindowTransport.__init__] *)
Definition new_probe_transport (chrome_executable : string) (enabled : bool)
    (open_timeout_s slot_ttl_s : float) : ProbeTransport :=
  mkProbeTransport chrome_executable enabled (fmax (of_Z 1) open_timeout_s)
    (fmax (of_Z 5) slot_ttl_s).

(** The side effects, each with what was answered: the close script ran for a window, Chrome was
    launched. *)
Inductive probe_effect :=
  | CloseAsked (operation : ProbeMutationOperation) (slot : ProbeWindowSlotBinding)
      (answer : res dict)
  | Launched (operation : ProbeMutationOperation) (answer : res unit).

Notation probe_run := (eff (Runs.World unit probe_effect)).

Definition nothing (detail : string) : ProbeSlotExecution :=
  mkProbeSlotExecution false false detail None.

Definition possible (detail : string) : ProbeSlotExecution :=
  mkProbeSlotExecution false true detail None.

Section Transport.
Context {tables : UnicodeTables} {fmt : Formatting} {nums : Numbers} {env : RunEnv unit}.
Context {shell : ProbeShell} (T : ProbeTransport).

(** The rows that [for row in v] visits; a row of a text or an object has no [get]. *)
Definition json_rows (v : json) : res (list json) :=
  match v with
  | JList rows => Ok rows
  | JStr _ | JObj _ => raise AttributeError "'str' object has no attribute 'get'"
  | _ => raise TypeError "object is not iterable"
  end.

Definition row_fields (row : json) : res dict :=
  match row with JObj d => Ok d | _ => raise AttributeError "object has no attribute 'get'" end.

Definition row_match (row : json) : res ProbeWindowMatch :=
  d ← row_fields row;
  handle ← json_int_or_0 (dget "window_handle" d);
  pid ← json_int_or_0 (dget "browser_pid" d);
  Ok (mkProbeWindowMatch handle pid (json_text_or_empty (dget "chrome_executable" d))
        (json_text_or_empty (dget "actual_url" d))).

Definition found_rows (found : dict) : res (list json) :=
  let v := dget "matches" found in if jtruthy v then json_rows v else Ok [].

Definition _matches (found : dict) : res (list ProbeWindowMatch) :=
  rows ← found_rows found; mapM row_match rows.

Definition _find (actual_url : string) : probe_run dict :=
  ask (λ n, find_windows n actual_url) unlogged.

Definition find_matches (actual_url : string) : probe_run (list ProbeWindowMatch) :=
  found ← _find actual_url; lift (_matches found).

Definition observe_operation (operation : ProbeMutationOperation)
    : probe_run ProbeMutationObservation :=
  let failed error (now : float) := mkProbeMutationObservation now [] [] false (Some error) in
  if negb on_windows then now ← clock; mret (failed "Windows UI Automation is unavailable" now)
  else
    try_except
      (old_matches ← match po_prior_slot operation with
                     | Some prior => find_matches (ps_actual_url prior)
                     | None => mret []
                     end;
       new_matches ← (if str_truthy (po_expected_actual_url operation)
                      then find_matches (po_expected_actual_url operation) else mret []);
       now ← clock;
       mret (mkProbeMutationObservation now old_matches new_matches true None))
      (λ e, now ← clock;
            mret (failed (exn_name (exn_type e) +:+ ": " +:+ str_take 500 (exn_msg e)) now)).

Definition require_enabled : probe_run unit :=
  lift (raise_if (negb (pt_enabled T)) ProbeWindowTransportDisabled
    "normal-Chrome probe-window mutation transport is gated").

Definition close_authorized (operation : ProbeMutationOperation) : probe_run ProbeSlotExecution :=
  require_enabled;;
  if negb on_windows then mret (nothing "Windows UI Automation is unavailable") else
  if is_kind ProbeMutationKind.OPEN operation
  then mret (nothing "operation has no CLOSE phase") else
  if negb (is_state ProbeMutationState.CLOSE_SUBMITTED operation)
  then mret (nothing "CLOSE authority was not durably submitted") else
  match po_prior_slot operation with
  | None => mret (nothing "CLOSE authority has no prior slot snapshot")
  | Some prior =>
      result ← ask (λ n, close_window n prior) (λ _ answer, [CloseAsked operation prior answer]);
      mret (if jtruthy (dget "ambiguous" result)
            then nothing (json_text_or (dget "detail" result) "exact probe close became ambiguous")
            else if jtruthy (dget "absent" result)
            then nothing "exact old probe target was already absent"
            else mkProbeSlotExecution (jtruthy (dget "closed" result))
                   (jtruthy (dget "closed" result))
                   (json_text_or (dget "detail" result) "exact probe close requested") None)
  end.

(** The window that appeared is the authorised one. *)
Definition window_changed (operation : ProbeMutationOperation) (m : ProbeWindowMatch) : bool :=
  (pm_window_handle m <=? 0) || (pm_browser_pid m <=? 0) ||
  negb (String.eqb (rstrip_slash (pm_actual_url m))
          (rstrip_slash (po_expected_actual_url operation))) ||
  negb (String.eqb (casefold (pm_chrome_executable m))
          (casefold (po_expected_chrome_executable operation))).

Definition opened_slot (operation : ProbeMutationOperation) (m : ProbeWindowMatch) (now : float)
    : ProbeWindowSlotBinding :=
  mkProbeWindowSlotBinding (po_slot_id operation) (po_owner_token operation)
    (po_target_worker_id operation) (po_target_conversation_url operation)
    (po_expected_actual_url operation) (pm_window_handle m) (pm_browser_pid m)
    (po_expected_chrome_executable operation) (po_source operation) now now
    (fadd now (fmax (of_Z 1) (po_slot_ttl_s operation))).

(** The polls until [deadline]; [None] when [fuel] polls were not enough to reach it. *)
Fixpoint await_window (fuel : nat) (deadline : float) (operation : ProbeMutationOperation)
    : probe_run (option ProbeSlotExecution) :=
  match fuel with
  | O => mret None
  | S fuel =>
      now ← clock;
      if negb (flt now deadline)
      then mret (Some (possible ("Chrome launch occurred but the tagged probe window was not " +:+
             "uniquely observed before timeout")))
      else
        matches ← find_matches (po_expected_actual_url operation);
        match matches with
        | [] => _ ← clock; await_window fuel deadline operation
        | [m] =>
            if window_changed operation m
            then mret (Some (possible
              "tagged probe target appeared with changed identity; reconcile"))
            else
              now ← clock;
              mret (Some (mkProbeSlotExecution true true "single tagged LWS probe window opened"
                            (Some (opened_slot operation m now))))
        | _ => mret (Some (possible
            "multiple tagged probe windows appeared; stop and reconcile"))
        end
  end.

Definition open_authorized (fuel : nat) (operation : ProbeMutationOperation)
    : probe_run (option ProbeSlotExecution) :=
  require_enabled;;
  let no detail := mret (Some (nothing detail)) in
  if negb on_windows then no "Windows UI Automation is unavailable" else
  if is_kind ProbeMutationKind.CLOSE operation then no "operation has no OPEN phase" else
  if negb (is_state ProbeMutationState.OPEN_SUBMITTED operation)
  then no "OPEN authority was not durably submitted" else
  if negb (str_truthy (po_expected_actual_url operation))
  then no "OPEN authority has no expected tagged target" else
  if negb (String.eqb (casefold (po_expected_chrome_executable operation))
             (casefold (pt_chrome_executable T)))
  then no "transport executable does not match durable authority" else
  started ← try_except
    (ask (λ n, launch n (pt_chrome_executable T) (po_expected_actual_url operation))
         (λ _ answer, [Launched operation answer]);;
     mret None)
    (λ e, mret (Some (nothing ("Chrome launch failed before a probe window was observed: " +:+
                               exn_name (exn_type e)))));
  match started with
  | Some x => mret (Some x)
  | None =>
      now ← clock;
      await_window fuel (fadd now (pt_open_timeout_s T)) operation
  end.

(** The first row is the window of the slot. *)
Definition row_is_slot (d : dict) (slot : ProbeWindowSlotBinding) : res bool :=
  handle ← json_int_or_0 (dget "window_handle" d);
  if negb (handle =? ps_window_handle slot) then Ok false else
  pid ← json_int_or_0 (dget "browser_pid" d);
  Ok ((pid =? ps_browser_pid slot) &&
      String.eqb (casefold (json_text_or_empty (dget "chrome_executable" d)))
                 (casefold (ps_chrome_executable slot)) &&
      String.eqb (rstrip_slash (json_text_or_empty (dget "actual_url" d)))
                 (rstrip_slash (ps_actual_url slot))).

(** [matches[0]] *)
Definition first_row (found : dict) : res dict :=
  let v := dget "matches" found in
  match v with
  | JList (row :: _) => row_fields row
  | JStr _ => if jtruthy v then raise AttributeError "'str' object has no attribute 'get'"
              else raise IndexError "list index out of range"
  | JObj _ => if jtruthy v then raise KeyError "0" else raise IndexError "list index out of range"
  | _ => if jtruthy v then raise TypeError "object is not subscriptable"
         else raise IndexError "list index out of range"
  end.

Definition execute (plan : ProbeSlotPlan) (existing : option ProbeWindowSlotBinding)
    : probe_run ProbeSlotExecution :=
  require_enabled;;
  if negb on_windows then mret (nothing "Windows UI Automation is unavailable") else
  if is_action ProbeSlotAction.BLOCKED plan then mret (nothing (sp_reason plan)) else
  if is_action ProbeSlotAction.REUSE plan then
    match existing with
    | None => mret (nothing "reuse requires an existing slot")
    | Some slot =>
        found ← _find (ps_actual_url slot);
        count ← lift (json_int_or_0 (dget "count" found));
        if negb (count =? 1)
        then mret (nothing "fresh slot was not uniquely observable; reconcile before reuse")
        else
          same ← lift (row ← first_row found; row_is_slot row slot);
          if negb same
          then mret (nothing "fresh slot identity changed; reconcile before reuse")
          else
            now ← clock;
            mret (mkProbeSlotExecution false false "existing LWS probe window reused"
              (Some (mkProbeWindowSlotBinding (ps_slot_id slot) (ps_owner_token slot)
                 (ps_target_worker_id slot) (ps_target_conversation_url slot) (ps_actual_url slot)
                 (ps_window_handle slot) (ps_browser_pid slot) (ps_chrome_executable slot)
                 (ps_source slot) (ps_bound_at slot) now (fadd now (pt_slot_ttl_s T)))))
    end
  else mret (nothing ("mutating probe plans require a durably ARMED operation and explicit " +:+
                      "close/open authority")).

End Transport.

(** [DisabledProbeWindowTransport.execute] *)
Definition execute_disabled (plan : ProbeSlotPlan) : res ProbeSlotExecution :=
  raise ProbeWindowTransportDisabled
    ("probe-window transport is disabled for " +:+ sp_slot_id plan +:+ "; plan only").
