(* ===== verification/ProbeRuntimeTheorems.v ===== *)
(** * What a probe slot proves, and what its transport may do

    The tag that an operation writes into the address of its window is read back: the slot of
    an adopted window is owned, is reused for its worker, observed as its conversation and
    rotated for another one.  The transport acts only for an operation whose authority is
    durable, once, and reports only the window that the reconciliation would adopt. *)

From Stdlib Require Import Ascii.
From S2P Require Import Prelude PyFloat PyStr PyUrl PyJson Models ProjectUrl Registry ProbeOps.
From S2P Require Import ProbeTheorems Runs ProbeRuntime.

Open Scope string_scope.
Open Scope Z_scope.
Open Scope list_scope.

(** ** Addresses of plain characters *)

(** A printable ASCII character that is not a space. *)
Definition visible_char (a : ascii) : bool :=
  let n := nat_of_ascii a in Nat.leb 33 n && Nat.leb n 126.

Definition visible (s : string) : bool := str_forallb visible_char s.

Definition path_char (a : ascii) : bool := visible_char a && negb (char_in "?#" a).

Lemma forallb_app p s1 s2 : str_forallb p (s1 +:+ s2) = str_forallb p s1 && str_forallb p s2.
Proof.
  induction s1 as [|a s1 IH]; [done|].
  change (String a s1 +:+ s2) with (String a (s1 +:+ s2)). cbn. rewrite IH. apply andb_assoc.
Qed.

Lemma forallb_rev p s : str_forallb p (String.rev s) = str_forallb p s.
Proof.
  induction s as [|a s IH]; [done|]. change (String a s) with (String a "" +:+ s).
  rewrite str_rev_app, forallb_app, forallb_app, IH. cbn. rewrite andb_true_r. apply andb_comm.
Qed.

Lemma forallb_weaken (p q : ascii → bool) s :
  (∀ a, p a = true → q a = true) → str_forallb p s = true → str_forallb q s = true.
Proof.
  intros H. induction s as [|a s IH]; cbn; [done|]. rewrite !andb_true_iff. naive_solver.
Qed.

Lemma drop_visible ps s a :
  Forall (λ p, match p with String b _ => visible_char b = false | EmptyString => False end) ps →
  visible_char a = true → drop_any ps (String a s) = None.
Proof.
  intros Hps Ha. induction Hps as [|p ps Hp _ IH]; cbn; [done|].
  destruct p as [|b p]; [done|]. cbn. destruct (Ascii.eqb_spec b a) as [->|]; [congruence|done].
Qed.

Lemma lstrip_visible a s : visible_char a = true → lstrip (String a s) = String a s.
Proof. intros Ha. apply lstrip_of_id, drop_visible; [by repeat constructor|done]. Qed.

Lemma rstrip_visible s : visible s = true → rstrip s = s.
Proof.
  intros Hs. unfold rstrip, rstrip_of. rewrite <- (str_rev_rev s) at 2. f_equal.
  unfold visible in Hs. rewrite <- forallb_rev in Hs.
  destruct (String.rev s) as [|a t]; [done|]. cbn in Hs. apply andb_true_iff in Hs as [Ha _].
  apply lstrip_of_id, drop_visible; [by repeat constructor|done].
Qed.

Lemma strip_visible s : visible s = true → strip s = s.
Proof.
  intros Hs. unfold strip. destruct s as [|a s]; [done|].
  rewrite lstrip_visible; [by apply rstrip_visible|]. by apply andb_true_iff in Hs as [? _].
Qed.

Lemma remove_chars_visible s : visible s = true → remove_chars tab_newlines s = s.
Proof.
  induction s as [|a s IH]; [done|]. cbn [visible str_forallb]. intros [Ha Hs]%andb_true_iff.
  cbn [remove_chars].
  assert (char_in tab_newlines a = false) as ->; [|f_equal; by apply IH].
  destruct a as [[] [] [] [] [] [] [] []]; by vm_compute in Ha |- *.
Qed.

(** The text before the first character that stops. *)
Lemma split_at_none stop s : str_forallb (λ a, negb (stop a)) s = true → split_at stop s = (s, None).
Proof.
  induction s as [|a s IH]; cbn; [done|]. intros [Ha Hs]%andb_true_iff.
  apply negb_true_iff in Ha. by rewrite Ha, IH.
Qed.

Lemma split_at_some stop s c t :
  str_forallb (λ a, negb (stop a)) s = true → stop c = true →
  split_at stop (s +:+ String c t) = (s, Some t).
Proof.
  intros Hs Hc. induction s as [|a s IH].
  { change ("" +:+ String c t) with (String c t). cbn. by rewrite Hc. }
  cbn in Hs. apply andb_true_iff in Hs as [Ha Hs]. apply negb_true_iff in Ha.
  change (String a s +:+ String c t) with (String a (s +:+ String c t)). cbn. by rewrite Ha, IH.
Qed.

Lemma path_char_not c a : char_in "?#" c = true → path_char a = true → negb (Ascii.eqb c a) = true.
Proof.
  unfold path_char. intros Hc [_ Ha]%andb_true_iff. apply negb_true_iff in Ha. apply negb_true_iff.
  destruct (Ascii.eqb_spec c a) as [->|]; [congruence|done].
Qed.

(** ** The conversation in an address *)

Lemma take_ids_hash s t : take_ids (s +:+ String "#" t) = take_ids s.
Proof.
  induction s as [|a s IH]; [done|].
  change (String a s +:+ String "#" t) with (String a (s +:+ String "#" t)). cbn.
  by destruct (id_char a); rewrite ?IH.
Qed.

(** No match of [/c/] crosses the start of the fragment. *)
Lemma drop_c_hash s t :
  drop_prefix "/c/" (s +:+ String "#" t) =
  match drop_prefix "/c/" s with Some u => Some (u +:+ String "#" t) | None => None end.
Proof.
  destruct s as [|a [|b [|c s]]]; [done| | |].
  all: repeat match goal with
    |- context [String ?a ?u +:+ ?v] => change (String a u +:+ v) with (String a (u +:+ v)) end.
  all: change ("" +:+ String "#" t) with (String "#" t); cbn.
  all: repeat match goal with |- context [if ?b then _ else _] => destruct b end; done.
Qed.

Lemma conversation_id_hash s t i :
  conversation_id_from_url s = Some i → conversation_id_from_url (s +:+ String "#" t) = Some i.
Proof.
  induction s as [|a s IH]; [done|]. intros H.
  pose proof (drop_c_hash (String a s) t) as Hd.
  change (String a s +:+ String "#" t) with (String a (s +:+ String "#" t)) in *.
  cbn [conversation_id_from_url] in *. rewrite Hd.
  destruct (drop_prefix "/c/" (String a s)) as [u|]; cbn [mbind option_bind] in *; [|by apply IH].
  rewrite take_ids_hash. destruct (Nat.leb 16 (String.length (take_ids u))); [done|by apply IH].
Qed.

Section Slots.
Context {tables : UnicodeTables} {check : NetlocCheck}.

(** What the sections rely on: the case tables keep the two lower-case ASCII words, and the
    site is a valid network location. *)
Record site_ok : Prop := {
  so_scheme : lower "https" = "https";
  so_site : lower "chatgpt.com" = "chatgpt.com";
  so_netloc : netloc_valid "chatgpt.com" = true;
}.
Context (Hsite : site_ok).

(** An address of the site: a path of printable characters, without query and fragment. *)
Definition page_url (path : string) : string := "https://chatgpt.com/" +:+ path.

Definition plain_path (path : string) : bool := str_forallb path_char path.

Lemma plain_visible path : plain_path path = true → visible path = true.
Proof. apply forallb_weaken. by intros a [? _]%andb_true_iff. Qed.

Lemma visible_app s1 s2 : visible s1 = true → visible s2 = true → visible (s1 +:+ s2) = true.
Proof. intros H1 H2. unfold visible. by rewrite forallb_app, (H1 : str_forallb _ _ = _). Qed.

Lemma urlsplit_page path tail :
  plain_path path = true → visible tail = true →
  (tail = "" ∨ ∃ f, tail = String "#" f) →
  urlsplit (page_url path +:+ tail) =
    Ok (mkSplitResult "https" "chatgpt.com" (String "/" path) ""
          (match tail with String _ f => f | EmptyString => "" end)).
Proof.
  intros Hp Ht Hf. unfold urlsplit, page_url.
  set (rest := path +:+ tail).
  assert (("https://chatgpt.com/" +:+ path) +:+ tail = "https://chatgpt.com/" +:+ rest) as ->
    by by rewrite str_app_assoc.
  assert (visible rest = true) as Hr by (apply visible_app; [by apply plain_visible|done]).
  rewrite (lstrip_of_id control_or_space); [|by apply (drop_visible control_or_space); [repeat constructor|]].
  rewrite remove_chars_visible by (apply visible_app; [done|exact Hr]).
  assert (split_scheme ("https://chatgpt.com/" +:+ rest) =
    (lower "https", "//chatgpt.com/" +:+ rest)) as -> by done.
  cbv beta iota zeta.
  assert (drop_prefix "//" ("//chatgpt.com/" +:+ rest) = Some ("chatgpt.com/" +:+ rest)) as -> by done.
  assert (break_at "/?#" ("chatgpt.com/" +:+ rest) = ("chatgpt.com", "/" +:+ rest)) as -> by done.
  cbv beta iota zeta.
  change (raise_if (xorb (char_in "chatgpt.com" "[") (char_in "chatgpt.com" "]")) ValueError
    "Invalid IPv6 URL") with (Ok tt).
  rewrite !Ok_bind. cbv beta iota zeta.
  assert (split_at (Ascii.eqb "#") ("/" +:+ rest) =
    (String "/" path, match tail with String _ f => Some f | EmptyString => None end)) as ->.
  { unfold rest. destruct Hf as [->|[f ->]].
    - rewrite str_app_nil. apply (split_at_none (Ascii.eqb "#") (String "/" path)).
      eapply (forallb_weaken path_char); [|exact Hp]. intros a. by apply path_char_not.
    - apply (split_at_some (Ascii.eqb "#") (String "/" path)); [|done].
      eapply (forallb_weaken path_char); [|exact Hp]. intros a. by apply path_char_not. }
  cbv beta iota zeta. rewrite (split_at_none (Ascii.eqb "?") (String "/" path)).
  2: { eapply (forallb_weaken path_char); [|exact Hp]. intros a. by apply path_char_not. }
  rewrite (so_netloc Hsite), (so_scheme Hsite). by destruct Hf as [->|[f ->]].
Qed.

Lemma urlsplit_plain path :
  plain_path path = true →
  urlsplit (page_url path) = Ok (mkSplitResult "https" "chatgpt.com" (String "/" path) "" "").
Proof using Hsite.
  intros Hp. rewrite <- (str_app_nil (page_url path)).
  rewrite (urlsplit_page path "" Hp eq_refl); [done|by left].
Qed.

Lemma page_visible path : plain_path path = true → visible (page_url path) = true.
Proof using Type. intros Hp. apply visible_app; [done|by apply plain_visible]. Qed.

(** The identity of a page of the site, with or without a fragment. *)
Lemma identity_page path tail id :
  plain_path path = true → visible tail = true → (tail = "" ∨ ∃ f, tail = String "#" f) →
  conversation_id_from_url (page_url path) = Some id →
  _conversation_identity (page_url path +:+ tail) = Ok (Some ("chatgpt.com", lower id)).
Proof using Hsite.
  intros Hp Ht Hf Hid. unfold _conversation_identity.
  rewrite strip_visible by (apply visible_app; [by apply page_visible|done]).
  rewrite urlsplit_page by done. rewrite Ok_bind. cbn [u_scheme u_netloc].
  rewrite (so_scheme Hsite), (so_site Hsite). cbn [negb orb String.eqb Ascii.eqb Bool.eqb].
  assert (conversation_id_from_url (page_url path +:+ tail) = Some id) as ->; [|done].
  destruct Hf as [->|[f ->]]; [by rewrite str_app_nil|by apply conversation_id_hash].
Qed.

Lemma identity_plain path id :
  plain_path path = true → conversation_id_from_url (page_url path) = Some id →
  _conversation_identity (page_url path) = Ok (Some ("chatgpt.com", lower id)).
Proof using Hsite.
  intros Hp Hid. rewrite <- (str_app_nil (page_url path)). apply identity_page; auto.
Qed.

Definition tag (slot_id token : string) : string := String "#" (probe_fragment slot_id token).

(** Slot ids and tokens are non-empty and printable. *)
Definition tag_text (s : string) : bool := visible s && str_truthy s.

Lemma tag_visible slot_id token :
  tag_text slot_id = true → tag_text token = true → visible (tag slot_id token) = true.
Proof using Type.
  unfold tag_text. intros [H1 _]%andb_true_iff [H2 _]%andb_true_iff.
  apply (visible_app "#lws-probe="); [done|]. apply visible_app; [done|].
  by apply (visible_app ":").
Qed.

Lemma tagged_page path slot_id token id :
  plain_path path = true → tag_text slot_id = true → tag_text token = true →
  conversation_id_from_url (page_url path) = Some id →
  tagged_probe_url (page_url path) slot_id token = Ok (page_url path +:+ tag slot_id token).
Proof using Hsite.
  intros Hp H1 H2 Hid. unfold tagged_probe_url.
  rewrite (identity_plain path id Hp Hid), Ok_bind. rewrite bool_decide_false by done.
  cbn [raise_if]. rewrite Ok_bind.
  unfold tag_text in H1, H2. apply andb_true_iff in H1 as [V1 T1], H2 as [V2 T2].
  rewrite (strip_visible slot_id), (strip_visible token), T1, T2 by done.
  cbn [negb orb raise_if]. rewrite Ok_bind, strip_visible by by apply page_visible.
  rewrite urlsplit_plain, Ok_bind by done. unfold page_url. by rewrite str_app_assoc.
Qed.

(** ** The slot of an adopted window *)

(** A parked worker at a conversation of the site. *)
Record parked (w : WorkerRecord) (id : string) : Prop := {
  pk_status : wr_status w = WorkerStatus.PARKED;
  pk_page : ∃ path, wr_conversation_url w = page_url path ∧ plain_path path = true;
  pk_id : conversation_id_from_url (wr_conversation_url w) = Some id;
}.

Lemma parked_identity w id :
  parked w id → _conversation_identity (wr_conversation_url w) = Ok (Some ("chatgpt.com", lower id)).
Proof using Hsite.
  intros [_ (path & E & Hp) Hid]. rewrite E in *. by apply identity_plain.
Qed.

(** A plan that needs a mutation is an OPEN without a slot or a ROTATE of the slot. *)
Lemma mutating_plan w existing slot_id now token plan :
  plan_probe_slot w existing slot_id now token = Ok plan → sp_mutation_required plan = true →
  sp_slot_id plan = slot_id ∧ sp_worker_id plan = wr_worker_id w ∧
  sp_target_conversation_url plan = wr_conversation_url w ∧ sp_owner_token plan = Some token ∧
  sp_action plan = match existing with None => ProbeSlotAction.OPEN
                                     | Some _ => ProbeSlotAction.ROTATE end.
Proof using Type.
  unfold plan_probe_slot. intros (identity & _ & H)%bind_Ok_inv. cbv zeta in H.
  destruct (negb _); [by injection H as <-|].
  destruct existing as [slot|]; [|by injection H as <-].
  destruct (negb _); [by injection H as <-|].
  apply bind_Ok_inv in H as (same & _ & H). destruct same; by injection H as <-.
Qed.

Lemma operation_of_plan w plan existing chrome now oid nonce ttl u1 u2 op :
  probe_operation_from_plan w plan existing chrome now oid nonce ttl u1 u2 = Ok op →
  po_slot_id op = sp_slot_id plan ∧ Some (po_owner_token op) = sp_owner_token plan ∧
  po_target_worker_id op = wr_worker_id w ∧ po_target_conversation_url op = wr_conversation_url w ∧
  po_source op = PROBE_SLOT_SOURCE ∧ po_prior_slot op = existing ∧
  (po_kind op = ProbeMutationKind.OPEN ↔ existing = None) ∧
  po_kind op ≠ ProbeMutationKind.CLOSE ∧ po_state op = ProbeMutationState.ARMED ∧
  tagged_probe_url (wr_conversation_url w) (po_slot_id op) (po_owner_token op) =
    Ok (po_expected_actual_url op).
Proof using Type.
  unfold probe_operation_from_plan, is_action. cbv zeta. rewrite !raise_if_then.
  intros (_ & Ha & Ht & Ho & Hr & (url & Hu & [= <-])%bind_Ok_inv). cbn.
  destruct (sp_owner_token plan) as [token|]; [|done]. cbn in *.
  split_and!; try done.
  - repeat case_bool_decide; destruct existing; cbn in *; naive_solver.
  - by destruct (bool_decide _).
Qed.

(** What an adopted window of an operation is good for. *)
Record recognised (w : WorkerRecord) (slot_id token : string) (s : ProbeWindowSlotBinding) : Prop := {
  rc_owned : slot_owns_actual_url s = true;
  rc_slot : ps_slot_id s = slot_id ∧ ps_owner_token s = token ∧ ps_source s = PROBE_SLOT_SOURCE;
  rc_target : ps_target_worker_id s = wr_worker_id w ∧
              ps_target_conversation_url s = wr_conversation_url w;
  rc_shown : _conversation_identity (ps_actual_url s) = _conversation_identity (wr_conversation_url w);
}.

Lemma adopted_recognised w id slot_id token op m t :
  parked w id → tag_text slot_id = true → tag_text token = true →
  po_slot_id op = slot_id → po_owner_token op = token → po_source op = PROBE_SLOT_SOURCE →
  po_target_worker_id op = wr_worker_id w → po_target_conversation_url op = wr_conversation_url w →
  tagged_probe_url (wr_conversation_url w) slot_id token = Ok (po_expected_actual_url op) →
  recognised w slot_id token (_binding_from_new_match op m t).
Proof using Hsite.
  intros Hw Hs Ht <- <- Hsrc Hid Hurl Htag. constructor; cbn; try done.
  - unfold slot_owns_actual_url. cbn. by rewrite Hurl, Htag, String.eqb_refl.
  - destruct Hw as [_ (path & E & Hp) Hc]. rewrite E in *.
    rewrite (tagged_page _ _ _ _ Hp Hs Ht Hc) in Htag. injection Htag as <-.
    rewrite (identity_plain _ _ Hp Hc). apply identity_page; try done.
    + by apply tag_visible.
    + right. by eexists.
Qed.

(** The next plan for a fresh recognised slot. *)
Lemma plan_recognised w w2 id id2 slot_id token s now token2 :
  parked w id → parked w2 id2 → recognised w slot_id token s → slot_is_fresh s now = true →
  ∃ p, plan_probe_slot w2 (Some s) slot_id now token2 = Ok p ∧
    (if String.eqb (wr_worker_id w) (wr_worker_id w2) && String.eqb (lower id) (lower id2)
     then sp_action p = ProbeSlotAction.REUSE ∧ sp_mutation_required p = false ∧
          sp_owner_token p = Some token
     else sp_action p = ProbeSlotAction.ROTATE ∧ sp_mutation_required p = true ∧
          sp_owner_token p = Some token2).
Proof using Hsite.
  intros Hw Hw2 [Ho (Hsl & Htk & Hsrc) (Hid & Hurl) _] Hf. unfold plan_probe_slot.
  rewrite (parked_identity _ _ Hw2), Ok_bind. cbv zeta.
  rewrite (bool_decide_true (wr_status w2 = _)) by apply Hw2. rewrite bool_decide_false by done.
  unfold slot_checks. rewrite Hsl, Hsrc, Ho, Hf, !String.eqb_refl. cbn [all_checks forallb snd andb negb app].
  rewrite Hid, Hurl. destruct (String.eqb (wr_worker_id w) (wr_worker_id w2)) eqn:E; cbn [andb].
  - rewrite (parked_identity _ _ Hw), Ok_bind, Ok_bind.
    destruct (String.eqb_spec (lower id) (lower id2)) as [->|Hne].
    + rewrite bool_decide_true by done. eexists. split; [done|]. by rewrite <- Htk.
    + rewrite bool_decide_false by congruence. by eexists.
  - rewrite Ok_bind. by eexists.
Qed.

Lemma observe_recognised w id slot_id token s observe previous obs :
  parked w id → recognised w slot_id token s →
  observe (w <| wr_conversation_url := ps_actual_url s |>) previous (ps_window_handle s) = Ok obs →
  ∃ o, observe_probe_slot w s observe previous = Ok o ∧
    bo_worker_id o = wr_worker_id w ∧ bo_url o = Some (wr_conversation_url w) ∧
    bo_observed_at o = bo_observed_at obs ∧ bo_message_signature o = bo_message_signature obs.
Proof using Hsite.
  intros Hw [Ho _ (Hid & _) Hshown] Hobs. unfold observe_probe_slot.
  rewrite bool_decide_true by apply Hw. rewrite Hid, String.eqb_refl, Ho. cbn [negb raise_if].
  rewrite !Ok_bind, Hshown, (parked_identity _ _ Hw), !Ok_bind, bool_decide_true by done.
  cbn [negb raise_if]. rewrite Ok_bind, Hobs. by eexists.
Qed.

(** C17: An adopted probe window is recognised by everything that reads its slot.  A plan that
    needs a mutation becomes an operation whose tagged address shows the conversation of its
    worker; the slot of any window that the registry adopts for it is owned, can be observed
    as that worker, is reused as long as it is fresh, is rotated for a worker at another
    conversation with this slot as the one to close, and can be closed. *)
Theorem adopted_slot_is_recognised w id existing slot_id now token plan chrome oid nonce ttl u1 u2 op m t :
  parked w id → tag_text slot_id = true → tag_text token = true →
  plan_probe_slot w existing slot_id now token = Ok plan → sp_mutation_required plan = true →
  probe_operation_from_plan w plan existing chrome now oid nonce ttl u1 u2 = Ok op →
  let s := _binding_from_new_match op m t in
  slot_owns_actual_url s = true ∧
  (∀ observe previous obs,
     observe (w <| wr_conversation_url := ps_actual_url s |>) previous (pm_window_handle m) = Ok obs →
     ∃ o, observe_probe_slot w s observe previous = Ok o ∧ bo_worker_id o = wr_worker_id w ∧
       bo_url o = Some (wr_conversation_url w)) ∧
  (∀ later token2, slot_is_fresh s later = true →
     ∃ p, plan_probe_slot w (Some s) slot_id later token2 = Ok p ∧
       sp_action p = ProbeSlotAction.REUSE ∧ sp_mutation_required p = false) ∧
  (∀ w2 id2 later token2 chrome2 ttl2, parked w2 id2 → lower id ≠ lower id2 →
     slot_is_fresh s later = true → tag_text token2 = true →
     ∃ p op2, plan_probe_slot w2 (Some s) slot_id later token2 = Ok p ∧
       sp_action p = ProbeSlotAction.ROTATE ∧
       probe_operation_from_plan w2 p (Some s) chrome2 later oid nonce ttl2 u1 u2 = Ok op2 ∧
       po_kind op2 = ProbeMutationKind.ROTATE ∧ po_prior_slot op2 = Some s) ∧
  ∃ closing, probe_close_operation w s now oid nonce u1 u2 = Ok closing ∧
    po_prior_slot closing = Some s ∧ po_expected_actual_url closing = "".
Proof using Hsite.
  intros Hw Hs Ht Hplan Hmut Hop s.
  destruct (mutating_plan _ _ _ _ _ _ Hplan Hmut) as (Psl & _ & _ & Ptk & _).
  destruct (operation_of_plan _ _ _ _ _ _ _ _ _ _ _ Hop)
    as (Osl & Otk & Oid & Ourl & Osrc & _ & _ & _ & _ & Otag).
  rewrite Psl in Osl. rewrite Ptk in Otk. injection Otk as Otk. rewrite Osl, Otk in Otag.
  pose proof (adopted_recognised w id slot_id token op m t Hw Hs Ht Osl Otk Osrc Oid Ourl Otag) as Hr.
  fold s in Hr. split; [apply Hr|]. split; [|split; [|split]].
  - intros observe previous obs Hobs.
    destruct (observe_recognised w id _ _ s observe previous obs Hw Hr Hobs) as (o & Ho & H1 & H2 & _).
    by exists o.
  - intros later token2 Hf.
    destruct (plan_recognised w w id id _ _ s later token2 Hw Hw Hr Hf) as (p & Hp & H).
    rewrite !String.eqb_refl in H. cbn [andb] in H. destruct H as (H1 & H2 & _). by exists p.
  - intros w2 id2 later token2 chrome2 ttl2 Hw2 Hne Hf Ht2.
    destruct (plan_recognised w w2 id id2 _ _ s later token2 Hw Hw2 Hr Hf) as (p & Hp & H).
    apply String.eqb_neq in Hne. rewrite Hne, andb_false_r in H. destruct H as (Ha & Hm & Htk).
    destruct (mutating_plan _ _ _ _ _ _ Hp Hm) as (Qsl & Qw & Qu & _).
    destruct Hw2 as [_ (path & E & Hpp) Hid2].
    exists p. unfold probe_operation_from_plan, is_action.
    rewrite Qw, Qu, Qsl, Ha, Htk, !String.eqb_refl. cbn [negb orb andb raise_if opt_truthy default].
    rewrite !bool_decide_false by done. rewrite bool_decide_true by done.
    pose proof Ht2 as Ht2'. unfold tag_text in Ht2'. apply andb_true_iff in Ht2' as [_ Hn]. rewrite Hn.
    cbn [negb orb andb raise_if default]. rewrite E in *.
    change (Datatypes.id token2) with token2. rewrite (tagged_page _ _ _ _ Hpp Hs Ht2 Hid2).
    eexists. split; [exact Hp|]. split; [done|]. split; [reflexivity|]. by split.
  - unfold probe_close_operation. rewrite bool_decide_true by apply Hw.
    rewrite (proj1 (rc_target _ _ _ _ Hr)), String.eqb_refl, (rc_owned _ _ _ _ Hr).
    cbn [negb raise_if]. rewrite !Ok_bind. by eexists.
Qed.

End Slots.

(** ** The transport *)

Section Transport.
Context {tables : UnicodeTables} {fmt : Formatting} {nums : Numbers} {env : RunEnv unit}.
Context {shell : ProbeShell} (T : ProbeTransport).

Notation PW := (Runs.World unit probe_effect).

(** A program without effects on windows. *)
Definition same_log (w w' : PW) : Prop := w_log w' = w_log w.

#[local] Instance same_log_preorder : PreOrder same_log.
Proof. split; [done|]. intros w1 w2 w3 H1 H2. unfold same_log in *. by rewrite H2. Qed.

Lemma step_run (w w' : PW) o :
  step w = (w', o) → same_log w w' ∧ w_tick w' = S (w_tick w) ∧
    (o = Killed ∨ o = Done (run_now (w_tick w))).
Proof using Type. unfold step. cbv zeta. destruct (run_killed _); intros [= <- <-]; (split; [done|split; [done|auto]]).
Qed.

Lemma reads_step : moves same_log (step (St := unit) (Ev := probe_effect)).
Proof using Type. unfold step. intros w w' o. cbv zeta. destruct (run_killed _); by intros [= <- _]. Qed.

Lemma reads_ask {A} (answer : nat → res A) : moves same_log (ask answer unlogged).
Proof using Type.
  apply moves_bind; [apply _|apply reads_step|]. intros _ w w' o. unfold perform. cbv zeta.
  destruct (answer _); intros [= <- _]; unfold same_log; cbn; by rewrite app_nil_r.
Qed.

Lemma reads_matches url : moves same_log (find_matches url).
Proof using Type.
  apply moves_bind; [apply _|apply reads_ask|]. intros found. apply moves_lift, _.
Qed.

Ltac reads :=
  repeat first
    [ apply reads_step | apply reads_ask | apply reads_matches
    | match goal with
      | |- moves _ (_ ≫= _) => apply moves_bind; [apply _| |intros ?]
      | |- moves _ (mret _) => apply moves_ret, _
      | |- moves _ (lift _) => apply moves_lift, _
      | |- moves _ (try_except _ _) => apply moves_try; [apply _| |intros ?]
      | |- moves _ (if ?b then _ else _) => destruct b
      | |- moves _ (match ?x with _ => _ end) => destruct x
      end ].

Lemma reads_observe op : moves same_log (observe_operation op).
Proof using Type. unfold observe_operation, clock. cbv zeta. reads. Qed.

Lemma reads_execute plan existing : moves same_log (execute T plan existing).
Proof using Type. unfold execute, require_enabled, _find, clock. reads. Qed.

Lemma reads_await fuel deadline op : moves same_log (await_window fuel deadline op).
Proof using Type.
  induction fuel as [|fuel IH]; cbn [await_window]; [apply moves_ret, _|]. unfold clock.
  apply moves_bind; [apply _|apply reads_step|intros now]. destruct (negb _); [apply moves_ret, _|].
  apply moves_bind; [apply _|apply reads_matches|intros [|m [|]]]; [|reads..].
  apply moves_bind; [apply _|apply reads_step|intros _; apply IH].
Qed.

(** What a finished wait says. *)
Definition waited (op : ProbeMutationOperation) (x : option ProbeSlotExecution) : Prop :=
  ∀ y, x = Some y → ex_side_effect_possible y = true ∧
    (ex_changed y = true ↔ is_Some (ex_binding y)) ∧
    ∀ b, ex_binding y = Some b → ∃ m t, _match_is_exact_new op m = true ∧ b = _binding_from_new_match op m t.

Lemma window_unchanged op m : window_changed op m = false → _match_is_exact_new op m = true.
Proof using Type.
  unfold window_changed, _match_is_exact_new.
  rewrite !orb_false_iff, !Z.leb_gt, !negb_false_iff, !andb_true_iff, !Z.ltb_lt. naive_solver.
Qed.

Lemma unknown_waited {op detail} : 
  ex_side_effect_possible (possible detail) = true ∧
  (ex_changed (possible detail) = true ↔ is_Some (ex_binding (possible detail))) ∧
  ∀ b, ex_binding (possible detail) = Some b →
    ∃ m t, _match_is_exact_new op m = true ∧ b = _binding_from_new_match op m t.
Proof using Type. split; [done|]. split; [|done]. split; [done|by intros [? [=]]]. Qed.

Lemma await_waited fuel deadline op : returns (await_window fuel deadline op) (λ x _, waited op x).
Proof using Type.
  induction fuel as [|fuel IH]; cbn [await_window]; [by intros w w' x [= _ <-]|].
  apply returns_bind. intros now. destruct (negb _).
  { intros w w' x [= _ <-] y [= <-]. exact unknown_waited. }
  apply returns_bind. intros [|m [|]].
  - apply returns_bind. intros _. apply IH.
  - destruct (window_changed op m) eqn:E.
    + intros w w' x [= _ <-] y [= <-]. exact unknown_waited.
    + apply returns_bind. intros t w w' x [= _ <-] y [= <-]. split; [done|]. split; [by split|].
      intros b [= <-]. exists m, t. split; [by apply window_unchanged|done].
  - intros w w' x [= _ <-] y [= <-]. exact unknown_waited.
Qed.

(** Why a close is asked for, and why Chrome is launched. *)
Definition may_close (op : ProbeMutationOperation) (prior : ProbeWindowSlotBinding) : Prop :=
  pt_enabled T = true ∧ on_windows = true ∧ po_kind op ≠ ProbeMutationKind.OPEN ∧
  po_state op = ProbeMutationState.CLOSE_SUBMITTED ∧ po_prior_slot op = Some prior.

Definition may_open (op : ProbeMutationOperation) : Prop :=
  pt_enabled T = true ∧ on_windows = true ∧ po_kind op ≠ ProbeMutationKind.CLOSE ∧
  po_state op = ProbeMutationState.OPEN_SUBMITTED ∧ po_expected_actual_url op ≠ "" ∧
  casefold (po_expected_chrome_executable op) = casefold (pt_chrome_executable T).

Lemma require_enabled_run (w w' : PW) {A} (f : unit → eff PW A) o :
  (require_enabled T ≫= f) w = (w', o) →
  (pt_enabled T = true ∧ f tt w = (w', o)) ∨
  (pt_enabled T = false ∧ w' = w ∧ ∃ e, o = Raised e).
Proof using Type.
  unfold require_enabled, mbind, eff_bind, lift, raise_if.
  destruct (pt_enabled T); cbn; [by left|]. intros [= <- <-]. right. eauto.
Qed.

(** An execution that says that nothing happened *)
Definition untouched (x : ProbeSlotExecution) : Prop :=
  ex_changed x = false ∧ ex_side_effect_possible x = false ∧ ex_binding x = None.

(** The report of a close whose script answered [d]: the close counts as changed and possible
    exactly when the script says that it closed the window, without doubt or absence. *)
Definition close_reported (d : dict) (x : ProbeSlotExecution) : Prop :=
  ex_side_effect_possible x = ex_changed x ∧ ex_binding x = None ∧
  (ex_changed x = true ↔
     jtruthy (dget "closed" d) = true ∧ jtruthy (dget "ambiguous" d) = false ∧
     jtruthy (dget "absent" d) = false).

Lemma close_gated op w w' o :
  close_authorized T op w = (w', o) →
  (same_log w w' ∧ ∀ x, o = Done x → untouched x) ∨
  ∃ prior answer, may_close op prior ∧ w_log w' = w_log w ++ [CloseAsked op prior answer] ∧
    match answer with
    | Ok d => ∃ x, o = Done x ∧ close_reported d x
    | Err e => o = Raised e
    end.
Proof using Type.
  intros [[Hen H]|(_ & -> & e & ->)]%require_enabled_run; [|by left]. unfold is_kind, is_state in H.
  assert (∀ detail, (mret (nothing detail) : eff PW _) w = (w', o) →
    same_log w w' ∧ ∀ x, o = Done x → untouched x) as Hno.
  { intros detail [= <- <-]. split; [done|]. by intros x [= <-]. }
  destruct on_windows eqn:Hw; cbn [negb] in H; [|left; by eapply Hno].
  case_bool_decide as Hk; [left; by eapply Hno|].
  case_bool_decide as Hst; cbn [negb] in H; [|left; by eapply Hno].
  destruct (po_prior_slot op) as [prior|] eqn:Hp; [|left; by eapply Hno].
  revert H. unfold ask. unfold mbind at 1, eff_bind at 1. unfold mbind at 1, eff_bind at 1.
  destruct (step w) as [w1 x] eqn:Es.
  apply step_run in Es as (Hl & _ & [-> | ->]); [cbn; intros [= <- <-]; by left|].
  unfold perform. cbn. intros H. right. exists prior, (close_window (w_tick w1) prior).
  split; [by split_and!|].
  destruct (close_window _ _) as [d|e]; injection H as <- <-; cbn; (split; [by rewrite Hl|]);
    [|done].
  eexists. split; [done|]. unfold close_reported.
  destruct (jtruthy (dget "ambiguous" d)), (jtruthy (dget "absent" d)),
    (jtruthy (dget "closed" d)); cbn; naive_solver.
Qed.

Lemma open_gated fuel op w w' o :
  open_authorized T fuel op w = (w', o) →
  (same_log w w' ∧ ∀ x, o = Done x → ∃ y, x = Some y ∧ untouched y) ∨
  may_open op ∧ ∃ answer, w_log w' = w_log w ++ [Launched op answer] ∧
    ∀ x, o = Done x →
      match answer with
      | Ok _ => waited op x
      | Err _ => ∃ y, x = Some y ∧ untouched y
      end.
Proof using Type.
  intros [[Hen H]|(_ & -> & e & ->)]%require_enabled_run; [|by left]. cbv zeta in H.
  unfold is_kind, is_state in H.
  assert (∀ detail, (mret (Some (nothing detail)) : eff PW _) w = (w', o) →
    same_log w w' ∧ ∀ x, o = Done x → ∃ y, x = Some y ∧ untouched y) as Hno.
  { intros detail [= <- <-]. split; [done|]. intros x [= <-]. by eexists. }
  destruct on_windows eqn:Hw; cbn [negb] in H; [|left; by eapply Hno].
  case_bool_decide as Hk; [left; by eapply Hno|].
  case_bool_decide as Hst; cbn [negb] in H; [|left; by eapply Hno].
  destruct (str_truthy _) eqn:Hu; cbn [negb] in H; [|left; by eapply Hno].
  destruct (String.eqb_spec (casefold (po_expected_chrome_executable op))
    (casefold (pt_chrome_executable T))) as [Hc|]; cbn [negb] in H; [|left; by eapply Hno].
  apply str_truthy_true in Hu. assert (may_open op) as Hmay by by split_and!.
  revert H. unfold try_except, ask. unfold mbind at 1, eff_bind at 1.
  unfold mbind at 1, eff_bind at 1. unfold mbind at 1, eff_bind at 1.
  destruct (step w) as [w1 x1] eqn:Es. apply step_run in Es as (Hl & _ & [-> | ->]).
  { intros [= <- <-]. by left. }
  unfold perform. cbv zeta. right. split; [done|]. revert H. destruct (launch _ _ _) as [u|e] eqn:Ea.
  - cbn. intros H. exists (Ok u). revert H. unfold mbind at 1, eff_bind at 1, clock.
    match goal with |- context [step ?v] => set (v1 := v) end.
    destruct (step v1) as [w2 x2] eqn:Es. apply step_run in Es as (Hl2 & _ & [-> | ->]).
    { intros [= <- <-]. split; [|done]. unfold same_log in *. rewrite Hl2. cbn. by rewrite Hl. }
    intros H. split.
    + pose proof (reads_await _ _ _ _ _ _ H) as Hl3. unfold same_log in *.
      rewrite Hl3, Hl2. cbn. by rewrite Hl.
    + intros x ->. by apply (await_waited _ _ _ _ _ _ H).
  - cbn. intros [= <- <-]. exists (Err e). cbn. split; [by rewrite Hl|].
    intros x [= <-]. by eexists.
Qed.

(** From step [limit] on, the clock is past [deadline]. *)
Definition past (limit : nat) (deadline : float) : Prop :=
  ∀ n, (limit ≤ n)%nat → flt (run_now n) deadline = false.

(** What advances a run by at least [k] steps when it is done. *)
Definition takes {A} (k : nat) (m : eff PW A) : Prop :=
  ∀ w w' x, m w = (w', Done x) → (w_tick w + k ≤ w_tick w')%nat.

Lemma takes_step : takes 1 step.
Proof using Type.
  intros w w' x H. unfold step in H. destruct (run_killed _); [done|].
  injection H as <- _. cbn. lia.
Qed.

Lemma takes_find url : takes 1 (find_matches url).
Proof using Type.
  intros w w' x. unfold find_matches, _find, ask, mbind, eff_bind.
  destruct (step w) as [w1 [a|e|]] eqn:Es; try done. apply takes_step in Es.
  unfold perform, lift. cbv zeta. destruct (find_windows _ _) as [d|]; [|done].
  cbn. destruct (_matches d); [|done]. intros [= <- _]. done.
Qed.

Lemma await_ends limit deadline op fuel (w w' : PW) x :
  past limit deadline → (limit - w_tick w < fuel)%nat →
  await_window fuel deadline op w = (w', Done x) → x ≠ None.
Proof using Type.
  intros Hp. revert w. induction fuel as [|fuel IH]; intros w Hf; cbn [await_window]; [lia|].
  unfold clock. unfold mbind at 1, eff_bind at 1. destruct (step w) as [w1 [now|e|]] eqn:Es; try done.
  pose proof (takes_step _ _ _ Es) as Ht. apply step_run in Es as (_ & _ & [[=]|[= ->]]).
  destruct (flt (run_now (w_tick w)) deadline) eqn:El; cbn [negb]; [|by intros [= _ <-]].
  assert (w_tick w < limit)%nat as Hlt.
  { destruct (Nat.lt_ge_cases (w_tick w) limit) as [|Hge]; [done|]. by rewrite (Hp _ Hge) in El. }
  unfold mbind at 1, eff_bind at 1. destruct (find_matches _ w1) as [w2 [ms|e|]] eqn:Em; try done.
  apply takes_find in Em. destruct ms as [|m [|]].
  - unfold mbind, eff_bind. destruct (step w2) as [w3 [a|e|]] eqn:Es; try done.
    apply takes_step in Es. apply IH. lia.
  - destruct (window_changed op m); [by intros [= _ <-]|].
    unfold mbind, eff_bind. destruct (step w2) as [w3 [a|e|]]; try done. by intros [= _ <-].
  - by intros [= _ <-].
Qed.

Lemma open_ends limit op fuel (w w' : PW) x :
  past limit (fadd (run_now (S (w_tick w))) (pt_open_timeout_s T)) → (limit < fuel)%nat →
  open_authorized T fuel op w = (w', Done x) → x ≠ None.
Proof using Type.
  intros Hp Hf [[_ H]|(_ & _ & e & [=])]%require_enabled_run. cbv zeta in H.
  repeat match type of H with
    | (if ?b then _ else _) _ = _ => destruct b; [by injection H as _ <-|]
    end.
  revert H. unfold try_except, ask. unfold mbind at 1, eff_bind at 1.
  unfold mbind at 1, eff_bind at 1. unfold mbind at 1, eff_bind at 1.
  destruct (step w) as [w1 x1] eqn:Es. apply step_run in Es as (_ & Ht & [-> | ->]); [done|].
  unfold perform. cbv zeta. destruct (launch _ _ _) as [u|e]; [|by intros [= _ <-]].
  cbn. unfold mbind at 1, eff_bind at 1, clock.
  match goal with |- context [step ?v] => set (v1 := v) end.
  destruct (step v1) as [w2 x2] eqn:Es. apply step_run in Es as (_ & Ht2 & [-> | ->]); [done|].
  cbn in Ht2. rewrite <- Ht in Hp. change (w_tick v1) with (w_tick w1).
  intros H. eapply (await_ends limit); [exact Hp| |exact H]. lia.
Qed.

(** C10: The probe-window transport acts only with durable authority, once, and says what it
    did.  Observing an operation and executing a plan touch no window.  A close is asked for
    only with the transport enabled, on Windows, for an operation in CLOSE_SUBMITTED that is
    not an OPEN and has a prior slot, and then for that slot exactly once; the report then says
    that the window was closed, and that a side effect is possible, exactly when the script
    answered so without ambiguity or absence, and a script that failed raises.  Chrome is launched
    only for an operation in OPEN_SUBMITTED that is not a CLOSE, has a tagged address and names
    this transport's executable, and then exactly once; after a launch that did not raise,
    every answer says that a side effect is possible, it says that something changed exactly when
    it names a slot, and that slot is the one the reconciliation adopts for an exact window of the
    operation.  Every other report of a close or an open says that nothing changed, that no side
    effect is possible, and names no slot.  When the clock passes the deadline, enough polls give an answer. *)
Theorem probe_transport_is_gated (op : ProbeMutationOperation) (w w' : PW) :
  (∀ o, observe_operation op w = (w', o) → same_log w w') ∧
  (∀ plan existing o, execute T plan existing w = (w', o) → same_log w w') ∧
  (∀ o, close_authorized T op w = (w', o) →
     (same_log w w' ∧ ∀ x, o = Done x → untouched x) ∨
     ∃ prior answer, may_close op prior ∧ w_log w' = w_log w ++ [CloseAsked op prior answer] ∧
       match answer with
       | Ok d => ∃ x, o = Done x ∧ close_reported d x
       | Err e => o = Raised e
       end) ∧
  (∀ fuel o, open_authorized T fuel op w = (w', o) →
     (same_log w w' ∧ ∀ x, o = Done x →
        ∃ y, x = Some y ∧ untouched y) ∨
     may_open op ∧ ∃ answer, w_log w' = w_log w ++ [Launched op answer] ∧
       ∀ x, o = Done x →
         match answer with
         | Ok _ => waited op x
         | Err _ => ∃ y, x = Some y ∧ untouched y
         end) ∧
  (∀ limit fuel x, past limit (fadd (run_now (S (w_tick w))) (pt_open_timeout_s T)) →
     (limit < fuel)%nat → open_authorized T fuel op w = (w', Done x) → x ≠ None).
Proof using Type.
  split_and!.
  - intros o. exact (reads_observe op w w' o).
  - intros plan existing o. exact (reads_execute plan existing w w' o).
  - intros o. exact (close_gated op w w' o).
  - intros fuel o. exact (open_gated fuel op w w' o).
  - intros limit fuel x. exact (open_ends limit op fuel w w' x).
Qed.

End Transport.

(** ** Witnesses: one slot, opened by the transport *)

#[local] Existing Instance AsciiTables.
#[local] Existing Instance any_netloc.

Lemma ascii_site : site_ok.
Proof. by split. Qed.

Definition parked_worker : WorkerRecord :=
  mkWorkerRecord "w1" "task" "https://chatgpt.com/c/0123456789abcdef-1" None WorkerStatus.PARKED (of_Z 1)
    None None.

Lemma worker_is_parked : parked parked_worker "0123456789abcdef-1".
Proof. split; [done| |vm_compute; reflexivity]. by exists "c/0123456789abcdef-1". Qed.

Definition open_plan : ProbeSlotPlan :=
  match plan_probe_slot parked_worker None DEFAULT_PROBE_SLOT_ID (of_Z 10) "tok" with
  | Ok p => p
  | Err _ => mkProbeSlotPlan "" "" "" ProbeSlotAction.BLOCKED false "" [] None
  end.

Definition open_operation : ProbeMutationOperation :=
  match probe_operation_from_plan parked_worker open_plan None "chrome.exe" (of_Z 10) None
          (Some "n1") (of_Z 60) "u1" "u2" with
  | Ok op => op
  | Err _ => armed_operation ProbeMutationKind.CLOSE parked_worker "" "" "" "" "" None (of_Z 0)
               (of_Z 0) "" ""
  end.

Lemma adopted_slot_is_recognised_witness :
  slot_owns_actual_url (_binding_from_new_match open_operation
    (mkProbeWindowMatch 7 8 "chrome.exe" (po_expected_actual_url open_operation)) (of_Z 11)) = true ∧
  po_expected_actual_url open_operation =
    "https://chatgpt.com/c/0123456789abcdef-1#lws-probe=probe:default:tok".
Proof.
  split; [|vm_compute; reflexivity].
  refine (proj1 (adopted_slot_is_recognised ascii_site parked_worker "0123456789abcdef-1" None
    DEFAULT_PROBE_SLOT_ID (of_Z 10) "tok" open_plan "chrome.exe" None (Some "n1") (of_Z 60)
    "u1" "u2" open_operation _ _ worker_is_parked _ _ _ _ _)); vm_compute; reflexivity.
Defined.

#[local] Instance probe_formatting : Formatting := {|
  format_f0 := λ _, ""; format_f1 := λ _, ""; json_text := λ _, ""; json_repr := λ _, "";
|}.

#[local] Instance probe_numbers : Numbers := {|
  int_of_text := λ _, raise ValueError ""; int_of_float := λ _, raise ValueError "";
  float_of_text := λ _, raise ValueError "";
|}.

(** A clock that reaches infinity at step six. *)
#[local] Instance probe_env : RunEnv unit := {|
  run_now n := if Nat.leb 6 n then finf else of_Z (Z.of_nat n);
  run_others _ s := s;
  run_killed _ := false;
|}.

(** The window appears between the two polls. *)
#[local] Instance demo_shell : ProbeShell := {|
  on_windows := true;
  find_windows n url := Ok [("count", JInt 1); ("matches", JList (if Nat.leb 5 n then
    [JObj [("window_handle", JInt 7); ("browser_pid", JInt 8);
           ("chrome_executable", JStr "chrome.exe"); ("actual_url", JStr url)]] else []))];
  close_window n _ := Ok [("closed", JBool (Nat.ltb n 5)); ("ambiguous", JBool (Nat.leb 5 n));
    ("detail", JStr "asked")];
  launch _ _ _ := Ok tt;
|}.

Definition demo_transport : ProbeTransport :=
  new_probe_transport "CHROME.exe" true (of_Z 10) (of_Z 60).

Definition submitted_open : ProbeMutationOperation :=
  open_operation <| po_state := ProbeMutationState.OPEN_SUBMITTED |>.

Definition demo_open (fuel : nat) := open_authorized demo_transport fuel submitted_open
  (mkWorld tt 0 []).

(** The window is found by the second poll. *)
Example open_finds_the_window :
  demo_open 7 = (mkWorld tt 8 [Launched submitted_open (Ok tt)],
    Done (Some (mkProbeSlotExecution true true "single tagged LWS probe window opened"
      (Some (opened_slot submitted_open (mkProbeWindowMatch 7 8 "chrome.exe"
         (po_expected_actual_url submitted_open)) finf))))).
Proof. vm_compute. reflexivity. Qed.

(** A close of that window, at a step where the script closes it and at one where it is not sure:
    the second report names no side effect, although the script may have called [Close]. *)
Example close_is_reported :
  let slot := opened_slot submitted_open (mkProbeWindowMatch 7 8 "chrome.exe"
    (po_expected_actual_url submitted_open)) (of_Z 3) in
  let op := submitted_open <| po_kind := ProbeMutationKind.CLOSE |>
              <| po_state := ProbeMutationState.CLOSE_SUBMITTED |>
              <| po_prior_slot := Some slot |> in
  (close_authorized demo_transport op (mkWorld tt 0 [])).2 =
    Done (mkProbeSlotExecution true true "asked" None) ∧
  (close_authorized demo_transport op (mkWorld tt 5 [])).2 = Done (nothing "asked").
Proof. vm_compute. by split. Qed.

Lemma probe_transport_is_gated_witness :
  may_open demo_transport submitted_open ∧ (demo_open 7).2 ≠ Done None.
Proof.
  pose proof (probe_transport_is_gated demo_transport submitted_open (mkWorld tt 0 [])
    (demo_open 7).1) as (_ & _ & _ & Hgate & Hends).
  split.
  - destruct (Hgate 7%nat (demo_open 7).2) as [[H _]|[H _]];
      [by unfold demo_open; destruct (open_authorized _ _ _ _)| |exact H].
    exfalso. vm_compute in H. discriminate H.
  - intros H. eapply (Hends 6%nat 7%nat None); [|lia| |done].
    + intros [|[|[|[|[|[|n]]]]]] Hn; try lia. by vm_compute.
    + unfold demo_open in *. rewrite <- H. by destruct (open_authorized _ _ _ _).
Defined.
