(* ===== verification/AttemptTables.v ===== *)
(** * Tables of attempts with one open attempt per task

    Three tables of registry.py hold write-ahead attempts at an external side effect:
    action attempts, replacement attempts and child spawn attempts.  Each has the attempt
    id as its primary key and a partial unique index that admits one open row per task.
    [AttemptRow] is what such a table exposes, and the lemmas here are proved once for
    all of them. *)

From S2P Require Import Prelude PyFloat PyStr PyJson Models WorkerProtocol Registry.

Open Scope string_scope.

Class AttemptRow (A : Type) := {
  row_id : A → string;
  row_task : A → string;
  (** the condition of the partial unique index *)
  row_open : A → bool;
}.

Section Table.
Context `{AttemptRow A}.
Implicit Types m : gmap string A.

Definition open_of (task_id : string) (a : A) : bool :=
  String.eqb (row_task a) task_id && row_open a.

(** [SELECT ... WHERE task_id = ? AND state IN (...)] *)
Definition open_rows (m : gmap string A) (task_id : string) : list A :=
  select (open_of task_id) m.

(** The partial unique index holds for a task. *)
Definition one_open_index (m : gmap string A) (task_id : string) : bool :=
  Nat.leb (length (open_rows m task_id)) 1.

(** Writing a row: the primary key is replaced, the index is enforced for its task. *)
Definition put_row (m : gmap string A) (a : A) : res (gmap string A) :=
  let m' := <[row_id a := a]> m in
  raise_if (negb (one_open_index m' (row_task a))) IntegrityError "UNIQUE constraint failed: index";;
  Ok m'.

(** [INSERT INTO]: the primary key must be new. *)
Definition insert_row (m : gmap string A) (a : A) : res (gmap string A) :=
  raise_if (bool_decide (is_Some (m !! row_id a))) IntegrityError
    "UNIQUE constraint failed: attempt_id";;
  put_row m a.

Record table_ok (m : gmap string A) : Prop := {
  tb_keyed : ∀ k a, m !! k = Some a → row_id a = k;
  tb_one : ∀ k1 k2 a1 a2, m !! k1 = Some a1 → m !! k2 = Some a2 →
    row_task a1 = row_task a2 → row_open a1 = true → row_open a2 = true → k1 = k2;
}.

Lemma empty_table_ok : table_ok ∅.
Proof. by constructor. Qed.

Lemma elem_of_open_rows m task_id a :
  a ∈ open_rows m task_id ↔
  row_task a = task_id ∧ row_open a = true ∧ ∃ k, m !! k = Some a.
Proof.
  unfold open_rows, open_of. rewrite elem_of_select, andb_true_iff, String.eqb_eq.
  naive_solver.
Qed.

Lemma table_open_rows m task_id :
  table_ok m → (length (open_rows m task_id) ≤ 1)%nat.
Proof.
  intros [_ H1]. apply select_unique. unfold open_of.
  intros k1 k2 a1 a2 E1 E2 Hp1 Hp2. bool_to_prop. rewrite String.eqb_eq in *.
  eapply H1; eauto. congruence.
Qed.

Lemma table_index_ok m task_id : table_ok m → one_open_index m task_id = true.
Proof. intros. by apply Nat.leb_le, table_open_rows. Qed.

(** The index admits a single key. *)
Lemma index_single m task_id k1 k2 a1 a2 :
  (∀ k a, m !! k = Some a → row_id a = k) → one_open_index m task_id = true →
  m !! k1 = Some a1 → m !! k2 = Some a2 → row_task a1 = task_id → row_task a2 = task_id →
  row_open a1 = true → row_open a2 = true → k1 = k2.
Proof.
  intros Hkey Hlen E1 E2 T1 T2 O1 O2. apply Nat.leb_le in Hlen.
  assert (a1 ∈ open_rows m task_id) as Hi1 by (apply elem_of_open_rows; eauto).
  assert (a2 ∈ open_rows m task_id) as Hi2 by (apply elem_of_open_rows; eauto).
  destruct (open_rows m task_id) as [|x [|y l]]; cbn in Hlen; [|..|lia].
  - by apply not_elem_of_nil in Hi1.
  - apply list_elem_of_singleton in Hi1 as ->, Hi2 as ->.
    by rewrite <- (Hkey _ _ E1), <- (Hkey _ _ E2).
Qed.

Lemma put_row_Ok m a m' :
  put_row m a = Ok m' ↔
  one_open_index (<[row_id a := a]> m) (row_task a) = true ∧ m' = <[row_id a := a]> m.
Proof.
  unfold put_row. cbv zeta. rewrite raise_if_then, negb_false_iff. naive_solver.
Qed.

Lemma put_row_ok m a m' : table_ok m → put_row m a = Ok m' → table_ok m'.
Proof.
  intros [Hk H1] [Hi ->]%put_row_Ok.
  assert (∀ k x, <[row_id a := a]> m !! k = Some x → row_id x = k) as Hk'.
  { intros k x [[<- <-]|[_ Hx]]%lookup_insert_Some; [done|eauto]. }
  constructor; [done|]. intros k1 k2 a1 a2 E1 E2 Ht O1 O2.
  destruct (decide (row_task a1 = row_task a)) as [Heq|Hne].
  - eapply index_single; eauto. congruence.
  - apply lookup_insert_Some in E1 as [[_ <-]|[_ E1]]; [done|].
    apply lookup_insert_Some in E2 as [[_ <-]|[_ E2]]; [done|]. eauto.
Qed.

Lemma insert_row_Ok m a m' :
  insert_row m a = Ok m' → m !! row_id a = None ∧ put_row m a = Ok m'.
Proof.
  intros [Hnew Hp]%raise_if_then. split; [|done].
  by rewrite bool_decide_eq_false, <- eq_None_not_Some in Hnew.
Qed.

(** Replacing a row of the same task that is not newly open keeps the table well formed. *)
Lemma replace_table_ok m id a a' :
  table_ok m → m !! id = Some a → row_id a' = id → row_task a' = row_task a →
  (row_open a' = true → row_open a = true) → table_ok (<[id := a']> m).
Proof.
  intros [Hk H1] Ha Hid Ht Ho.
  assert (∀ k x, <[id := a']> m !! k = Some x → ∃ y, m !! k = Some y ∧
    row_task y = row_task x ∧ (row_open x = true → row_open y = true)) as Hback.
  { intros k x [[<- <-]|[_ Hx]]%lookup_insert_Some; [by exists a|eauto]. }
  constructor.
  - intros k x [[<- <-]|[_ Hx]]%lookup_insert_Some; eauto.
  - intros k1 k2 a1 a2 (y1 & E1 & <- & U1)%Hback (y2 & E2 & <- & U2)%Hback Ht' O1 O2. eauto.
Qed.

Lemma replace_row_Ok m id a a' :
  table_ok m → m !! id = Some a → row_id a' = id → row_task a' = row_task a →
  (row_open a' = true → row_open a = true) → put_row m a' = Ok (<[id := a']> m).
Proof.
  intros Hok Ha Hid Ht Ho. apply put_row_Ok. rewrite Hid. split; [|done].
  by eapply table_index_ok, replace_table_ok.
Qed.

End Table.
