(* ===== verification/Reconcile.v ===== *)
(** * reconcile.py: point-in-time evidence fences

    A reconciliation record keeps a sanitised snapshot of everything the supervisor has
    observed about a task, and a fence token: the digest of the snapshot without its
    sampling times.  Two records with the same token saw the same actionable world. *)

From S2P Require Import Prelude PyFloat PyStr PyJson Models.

Open Scope string_scope.
Open Scope Z_scope.

(** SHA-256 over the UTF-8 text, and over the canonical JSON text (sorted keys, compact
    separators) of a value.  The program relies on them being functions of their
    argument only, and not on how they are computed. *)
Class Digests := {
  sha256_text : string → string;
  sha256_json : json → string;
}.

Section Reconcile.
Context {digests : Digests}.

Definition _digest_json (value : json) : string := sha256_json value.

Definition task_snapshot (task : TaskRecord) (worker : option WorkerRecord) : dict :=
  let registered := match worker with
    | Some w => if bool_decide (tr_current_worker_id task = Some (wr_worker_id w))
                then Some w else None
    | None => None
    end in
  [("task_id", JStr (tr_task_id task));
   ("state", JStr (SupervisorState.value (tr_state task)));
   ("current_worker_id", j_of_opt_str (tr_current_worker_id task));
   ("registered_worker_url", j_of_opt_str (wr_conversation_url <$> registered));
   ("registered_worker_status",
      j_of_opt_str ((λ w, WorkerStatus.value (wr_status w)) <$> registered));
   ("lsm_session_id", j_of_opt_str (tr_lsm_session_id task));
   ("recovery_attempts", JInt (tr_recovery_attempts task));
   ("max_recovery_attempts", JInt (tr_max_recovery_attempts task));
   ("checkpoint_digest", JStr (_digest_json (JObj (tr_checkpoint task))))].

Definition browser_snapshot (b : BrowserObservation) : dict :=
  [("worker_id", JStr (bo_worker_id b));
   ("observed_at", JFloat (bo_observed_at b));
   ("url", j_of_opt_str (bo_url b));
   ("generating", j_of_opt_bool (bo_generating b));
   ("send_button_ready", j_of_opt_bool (bo_send_button_ready b));
   ("composer_present",
      if dmem "composer_present" (bo_raw b)
      then JBool (jtruthy (dget "composer_present" (bo_raw b))) else JNull);
   ("pending_tool_calls", j_of_opt_int (bo_pending_tool_calls b));
   ("visible_error", j_of_opt_str (bo_visible_error b));
   ("last_dom_change_at", j_of_opt_float (bo_last_dom_change_at b));
   ("message_signature", j_of_opt_str (bo_message_signature b))].

Definition network_snapshot (n : NetworkObservation) : dict :=
  [("worker_id", JStr (no_worker_id n));
   ("observed_at", JFloat (no_observed_at n));
   ("source", JStr (no_source n));
   ("page_url", j_of_opt_str (no_page_url n));
   ("event_count", JInt (no_event_count n));
   ("loading_failed", JInt (no_loading_failed n));
   ("last_activity_at", j_of_opt_float (no_last_activity_at n));
   ("quiet_since_at", j_of_opt_float (no_quiet_since_at n));
   ("inflight_requests", JInt (no_inflight_requests n))].

Definition lsm_snapshot (l : LsmObservation) : dict :=
  [("observed_at", JFloat (lo_observed_at l));
   ("session_id", j_of_opt_str (lo_session_id l));
   ("session_status", j_of_opt_str (lo_session_status l));
   ("active_run_id", j_of_opt_str (lo_active_run_id l));
   ("plan_status", j_of_opt_str (lo_plan_status l));
   ("plan_last_agent_activity", j_of_opt_float (lo_plan_last_agent_activity l));
   ("continuation_due", j_of_opt_bool (lo_continuation_due l));
   ("continuation_pending", j_of_opt_bool (lo_continuation_pending l));
   ("in_flight_calls", JInt (lo_in_flight_calls l));
   ("freshest_in_flight_heartbeat", j_of_opt_float (lo_freshest_in_flight_heartbeat l));
   ("active_jobs", JInt (lo_active_jobs l));
   ("failed_jobs", JInt (lo_failed_jobs l));
   ("succeeded_jobs", JInt (lo_succeeded_jobs l));
   ("recent_event_type", j_of_opt_str (lo_recent_event_type l));
   ("recent_event_at", j_of_opt_float (lo_recent_event_at l));
   ("completed_steps", j_of_opt_int (lo_completed_steps l));
   ("total_steps", j_of_opt_int (lo_total_steps l))].

Definition workspace_snapshot (w : WorkspaceObservation) : dict :=
  [("observed_at", JFloat (wo_observed_at w));
   ("cwd", JStr (wo_cwd w));
   ("cwd_exists", JBool (wo_cwd_exists w));
   ("is_git_repo", j_of_opt_bool (wo_is_git_repo w));
   ("git_root", j_of_opt_str (wo_git_root w));
   ("git_head", j_of_opt_str (wo_git_head w));
   ("git_dirty", j_of_opt_bool (wo_git_dirty w));
   ("git_status_hash", j_of_opt_str (wo_git_status_hash w));
   ("error", j_of_opt_str (wo_error w))].

Definition j_of_opt_dict (d : option dict) : json :=
  match d with Some d => JObj d | None => JNull end.

Definition snapshot_of (task : TaskRecord) (worker : option WorkerRecord)
    (browser : option BrowserObservation) (network : option NetworkObservation)
    (lsm : option LsmObservation) (workspace : option WorkspaceObservation) : dict :=
  [("task", JObj (task_snapshot task worker));
   ("browser", j_of_opt_dict (browser_snapshot <$> browser));
   ("network", j_of_opt_dict (network_snapshot <$> network));
   ("lsm", j_of_opt_dict (lsm_snapshot <$> lsm));
   ("workspace", j_of_opt_dict (workspace_snapshot <$> workspace))].

(** [snapshot.get(key) or {}] *)
Definition get_dict (key : string) (d : dict) : dict :=
  match dget key d with JObj o => o | _ => [] end.

(** [dict(snapshot.get(key) or {}) if snapshot.get(key) else None] without its sampling
    time. *)
Definition timeless (key : string) (snapshot : dict) : json :=
  match get_dict key snapshot with
  | [] => JNull
  | d => JObj (dpop "observed_at" d)
  end.

Definition _fence_material (snapshot : dict) : dict :=
  [("task", JObj (get_dict "task" snapshot));
   ("browser", timeless "browser" snapshot);
   ("network", timeless "network" snapshot);
   ("lsm", timeless "lsm" snapshot);
   ("workspace", timeless "workspace" snapshot)].

Definition build_reconciliation_record (uuid : string) (task : TaskRecord)
    (assessment : Assessment) (worker : option WorkerRecord)
    (browser : option BrowserObservation) (network : option NetworkObservation)
    (lsm : option LsmObservation) (workspace : option WorkspaceObservation)
    (created_at : float) : ReconciliationRecord :=
  let snapshot := snapshot_of task worker browser network lsm workspace in
  mkReconciliationRecord ("rec_" +:+ str_take 16 uuid) (tr_task_id task) created_at
    (SupervisorState.value (as_state assessment)) (as_confidence assessment)
    (as_reason assessment) (as_requires_reconcile assessment) (tr_current_worker_id task)
    (_digest_json (JObj (_fence_material snapshot))) 2 (as_evidence assessment) snapshot.

Definition fence_matches (a b : ReconciliationRecord) : bool :=
  String.eqb (rc_task_id a) (rc_task_id b) && (rc_fence_version a =? rc_fence_version b) &&
  String.eqb (rc_fence_token a) (rc_fence_token b).

(** ** Theorems *)

(** The observations of one sampling round. *)
Record world := mkWorld {
  w_task : TaskRecord;
  w_worker : option WorkerRecord;
  w_browser : option BrowserObservation;
  w_network : option NetworkObservation;
  w_lsm : option LsmObservation;
  w_workspace : option WorkspaceObservation;
}.

Definition record_of (uuid : string) (a : Assessment) (w : world) (at_ : float)
    : ReconciliationRecord :=
  build_reconciliation_record uuid (w_task w) a (w_worker w) (w_browser w) (w_network w)
    (w_lsm w) (w_workspace w) at_.

(** The same world sampled at other times. *)
Definition resampled (w : world) (tb tn tl tw : float) : world :=
  mkWorld (w_task w) (w_worker w)
    ((λ b, mkBrowserObservation (bo_worker_id b) tb (bo_url b) (bo_generating b)
       (bo_send_button_ready b) (bo_pending_tool_calls b) (bo_visible_error b)
       (bo_last_dom_change_at b) (bo_message_signature b) (bo_raw b)) <$> w_browser w)
    ((λ n, mkNetworkObservation (no_worker_id n) tn (no_source n) (no_sample_started_at n)
       (no_sample_ended_at n) (no_page_url n) (no_event_count n) (no_request_count n)
       (no_response_count n) (no_data_event_count n) (no_encoded_data_bytes n)
       (no_loading_finished n) (no_loading_failed n) (no_websocket_frames n)
       (no_last_activity_at n) (no_quiet_since_at n) (no_inflight_requests n)
       (no_raw n)) <$> w_network w)
    ((λ l, mkLsmObservation (lo_task_id l) tl (lo_session_id l) (lo_session_status l)
       (lo_active_run_id l) (lo_plan_status l) (lo_plan_last_agent_activity l)
       (lo_continuation_due l) (lo_continuation_pending l) (lo_in_flight_calls l)
       (lo_freshest_in_flight_heartbeat l) (lo_active_jobs l) (lo_failed_jobs l)
       (lo_succeeded_jobs l) (lo_recent_event_type l) (lo_recent_event_at l)
       (lo_completed_steps l) (lo_total_steps l) (lo_raw l)) <$> w_lsm w)
    ((λ s, mkWorkspaceObservation (wo_task_id s) tw (wo_cwd s) (wo_cwd_exists s)
       (wo_is_git_repo s) (wo_git_root s) (wo_git_head s) (wo_git_branch s)
       (wo_git_dirty s) (wo_git_status_hash s) (wo_git_status_entries s) (wo_error s)
       (wo_raw s)) <$> w_workspace w).

Definition material (w : world) : dict :=
  _fence_material (snapshot_of (w_task w) (w_worker w) (w_browser w) (w_network w)
                     (w_lsm w) (w_workspace w)).

Lemma material_resampled w tb tn tl tw : material (resampled w tb tn tl tw) = material w.
Proof. destruct w as [t k [b|] [n|] [l|] [s|]]; vm_compute; reflexivity. Qed.

Lemma j_of_opt_str_inj x y : j_of_opt_str x = j_of_opt_str y → x = y.
Proof. destruct x, y; cbn; congruence. Qed.

Lemma j_of_opt_bool_inj x y : j_of_opt_bool x = j_of_opt_bool y → x = y.
Proof. destruct x, y; cbn; congruence. Qed.

(** The facts of a world on which a recovery decision rests. *)
Definition lsm_facts (l : LsmObservation) :=
  (lo_session_id l, lo_session_status l, lo_active_run_id l, lo_plan_status l,
   lo_continuation_pending l, lo_in_flight_calls l, lo_active_jobs l).

Definition browser_facts (b : BrowserObservation) :=
  (bo_worker_id b, bo_url b, bo_generating b, bo_send_button_ready b,
   bo_visible_error b, bo_message_signature b).

Definition workspace_facts (s : WorkspaceObservation) :=
  (wo_cwd s, wo_cwd_exists s, wo_git_head s, wo_git_dirty s, wo_git_status_hash s).

Definition task_facts (t : TaskRecord) :=
  (tr_task_id t, tr_state t, tr_current_worker_id t, tr_lsm_session_id t,
   tr_recovery_attempts t, tr_max_recovery_attempts t).

Definition facts (w : world) :=
  (task_facts (w_task w), lsm_facts <$> w_lsm w, browser_facts <$> w_browser w,
   workspace_facts <$> w_workspace w).

(** One part of the fence material determines the facts of that part. *)
Ltac part_facts :=
  let H := fresh in
  intros H; injection H; clear H; intros;
  repeat match goal with
  | H : j_of_opt_str _ = j_of_opt_str _ |- _ => apply j_of_opt_str_inj in H
  | H : j_of_opt_bool _ = j_of_opt_bool _ |- _ => apply j_of_opt_bool_inj in H
  | H : SupervisorState.value _ = _ |- _ =>
      apply SupervisorState.supervisor_state_value_inj in H
  end; congruence.

Lemma task_part t1 k1 t2 k2 :
  task_snapshot t1 k1 = task_snapshot t2 k2 → task_facts t1 = task_facts t2.
Proof. unfold task_snapshot, task_facts. part_facts. Qed.

Lemma lsm_part l1 l2 :
  dpop "observed_at" (lsm_snapshot l1) = dpop "observed_at" (lsm_snapshot l2) →
  lsm_facts l1 = lsm_facts l2.
Proof. unfold lsm_snapshot, lsm_facts. cbn [dpop String.eqb Ascii.eqb Bool.eqb]. part_facts. Qed.

Lemma browser_part b1 b2 :
  dpop "observed_at" (browser_snapshot b1) = dpop "observed_at" (browser_snapshot b2) →
  browser_facts b1 = browser_facts b2.
Proof.
  unfold browser_snapshot, browser_facts. cbn [dpop String.eqb Ascii.eqb Bool.eqb]. part_facts.
Qed.

Lemma workspace_part s1 s2 :
  dpop "observed_at" (workspace_snapshot s1) = dpop "observed_at" (workspace_snapshot s2) →
  workspace_facts s1 = workspace_facts s2.
Proof.
  unfold workspace_snapshot, workspace_facts. cbn [dpop String.eqb Ascii.eqb Bool.eqb].
  part_facts.
Qed.

Definition part {A} (snapshot : A → dict) (x : option A) : json :=
  j_of_opt_dict ((λ a, dpop "observed_at" (snapshot a)) <$> x).

Lemma part_inj {A B} (snapshot : A → dict) (f : A → B) (x y : option A) :
  (∀ a b, dpop "observed_at" (snapshot a) = dpop "observed_at" (snapshot b) → f a = f b) →
  part snapshot x = part snapshot y → f <$> x = f <$> y.
Proof. intros Hf. destruct x, y; cbn; intros [=]; [f_equal; auto|done]. Qed.

Lemma material_parts w :
  material w =
  [("task", JObj (task_snapshot (w_task w) (w_worker w)));
   ("browser", part browser_snapshot (w_browser w));
   ("network", part network_snapshot (w_network w));
   ("lsm", part lsm_snapshot (w_lsm w));
   ("workspace", part workspace_snapshot (w_workspace w))].
Proof. destruct w as [t k [b|] [n|] [l|] [s|]]; vm_compute; reflexivity. Qed.

Lemma material_facts w1 w2 : material w1 = material w2 → facts w1 = facts w2.
Proof.
  rewrite !material_parts. intros Heq.
  pose proof (f_equal (get_dict "task") Heq) as Ht. pose proof (f_equal (dget "browser") Heq) as Hb.
  pose proof (f_equal (dget "lsm") Heq) as Hl.
  pose proof (f_equal (dget "workspace") Heq) as Hs. clear Heq.
  unfold facts. f_equal; [f_equal; [f_equal|]|].
  - exact (task_part _ _ _ _ Ht).
  - by apply (part_inj lsm_snapshot); [apply lsm_part|].
  - by apply (part_inj browser_snapshot); [apply browser_part|].
  - by apply (part_inj workspace_snapshot); [apply workspace_part|].
Qed.

(** The fence does not depend on when the world is sampled: a second record of the same
    world, whatever the sampling times, the record id, the creation time and the
    assessment, has the same fence. *)
Theorem fence_ignores_sampling u1 u2 a1 a2 w t1 t2 tb tn tl tw :
  fence_matches (record_of u1 a1 w t1) (record_of u2 a2 (resampled w tb tn tl tw) t2) = true.
Proof.
  assert (rc_fence_token (record_of u1 a1 w t1) =
          rc_fence_token (record_of u2 a2 (resampled w tb tn tl tw) t2)) as Ht.
  { change (_digest_json (JObj (material w)) =
            _digest_json (JObj (material (resampled w tb tn tl tw)))).
    by rewrite material_resampled. }
  unfold fence_matches. rewrite Ht, String.eqb_refl. cbn. by rewrite String.eqb_refl.
Qed.

(** The fence binds the facts a recovery rests on: when two records match, and the
    digest has no collision on their fence material, they saw the same task record,
    LSM session, browser page and workspace. *)
Theorem fence_binds_facts u1 u2 a1 a2 w1 w2 t1 t2 :
  (_digest_json (JObj (material w1)) = _digest_json (JObj (material w2)) →
     material w1 = material w2) →
  fence_matches (record_of u1 a1 w1 t1) (record_of u2 a2 w2 t2) = true →
  facts w1 = facts w2.
Proof.
  intros Hdigest Hm. apply material_facts, Hdigest. unfold fence_matches in Hm.
  bool_to_prop. by apply String.eqb_eq.
Qed.

End Reconcile.

(** A digest for the examples: the text itself, and the keys of an object. *)
Definition text_digests : Digests := {|
  sha256_text := id;
  sha256_json := λ j, match j with JObj d => join "," d.*1 | _ => "" end;
|}.

Definition demo_world : world :=
  mkWorld
    (mkTaskRecord "task" "p" "o" "/w" SupervisorState.RUNNING (Some "lsm") [] (Some "w1") 0 3
       (of_Z 1) (of_Z 1))
    None None None
    (Some (mkLsmObservation "task" (of_Z 5) (Some "lsm") (Some "active") None (Some "active")
       None (Some true) (Some false) 0 None 0 0 0 None None None None []))
    None.

Definition demo_assessment : Assessment :=
  mkAssessment SupervisorState.SUSPECT "stalled" "high" [] true false.

Lemma fence_binds_facts_witness :
  facts demo_world = facts (resampled demo_world (of_Z 7) (of_Z 8) (of_Z 9) (of_Z 10)).
Proof.
  apply (@fence_binds_facts text_digests "u1" "u2" demo_assessment demo_assessment demo_world
    (resampled demo_world (of_Z 7) (of_Z 8) (of_Z 9) (of_Z 10)) (of_Z 5) (of_Z 9)).
  - intros _. vm_compute. reflexivity.
  - vm_compute. reflexivity.
Defined.
