(* ===== verification/Watcher.v ===== *)
(** * watcher.py and recovery.py: from observations to an assessment and a recommendation

    [assess] classifies a task from the latest observations; durable evidence outranks
    the browser.  [recommend] turns the assessment into advice; it never dispatches. *)

From stdpp Require Import pretty.
From S2P Require Import Prelude PyFloat PyStr PyJson Models.

Open Scope string_scope.
Open Scope Z_scope.
Open Scope list_scope.

Record WatchPolicy := mkWatchPolicy {
  wp_browser_suspect_after_s : float;
  wp_network_suspect_after_s : float;
  wp_lsm_suspect_after_s : float;
  wp_hard_stall_after_s : float;
}.

Definition default_watch_policy : WatchPolicy :=
  mkWatchPolicy (of_Z 120) (of_Z 180) (of_Z 180) (of_Z 600).

(** [max(0.0, now - t)] *)
Definition age (now t : float) : float := fmax (of_Z 0) (fsub now t).

(** [Assessment(state, reason, confidence, evidence, requires_reconcile)] *)
Definition assessment (s : SupervisorState.t) (reason confidence : string)
    (evidence : list string) (reconcile : bool) : Assessment :=
  mkAssessment s reason confidence evidence reconcile false.

Definition line {A} (x : option A) (f : A → string) : list string :=
  match x with Some a => [f a] | None => [] end.

Definition when_ (b : bool) (s : string) : list string := if b then [s] else [].

(** A text field that is present and non-empty. *)
Definition truthy_text (s : option string) : option string :=
  match s with Some t => if str_truthy t then Some t else None | None => None end.

Definition opt_eqb (x : option string) (s : string) : bool :=
  match x with Some t => String.eqb t s | None => false end.

Definition opt_true (x : option bool) : bool := match x with Some b => b | None => false end.

Section Watch.
Context {fmt : Formatting}.

Definition workspace_evidence (task : TaskRecord) (workspace : option WorkspaceObservation)
    : list string :=
  match workspace with
  | None => []
  | Some w =>
      ["workspace.cwd_exists=" +:+ lower_bool (wo_cwd_exists w)] ++
      line (wo_is_git_repo w) (λ b, "workspace.git_repo=" +:+ lower_bool b) ++
      line (truthy_text (wo_git_head w)) (λ h, "workspace.git_head=" +:+ str_take 12 h) ++
      line (wo_git_dirty w) (λ b, "workspace.git_dirty=" +:+ lower_bool b) ++
      line (truthy_text (wo_error w)) (λ e, "workspace.error=" +:+ str_take 160 e) ++
      (let checkpoint_head := dget "git_head" (tr_checkpoint task) in
       match truthy_text (wo_git_head w) with
       | Some h =>
           when_ (jtruthy checkpoint_head)
             ("workspace.checkpoint_head_match=" +:+ lower_bool (String.eqb (json_str checkpoint_head) h))
       | None => []
       end)
  end.

Definition lsm_evidence (l : LsmObservation) : list string :=
  ["lsm.session=" +:+ default "unknown" (truthy_text (lo_session_status l));
   "lsm.plan=" +:+ default "none" (truthy_text (lo_plan_status l))] ++
  when_ (negb (lo_in_flight_calls l =? 0)) ("lsm.in_flight=" +:+ pretty (lo_in_flight_calls l)) ++
  when_ (negb (lo_active_jobs l =? 0)) ("lsm.active_jobs=" +:+ pretty (lo_active_jobs l)) ++
  when_ (negb (lo_failed_jobs l =? 0)) ("lsm.failed_jobs=" +:+ pretty (lo_failed_jobs l)).

(** The verdicts that rest on durable LSM evidence alone. *)
Definition lsm_verdict (l : LsmObservation) (evidence : list string) : option Assessment :=
  if opt_eqb (lo_session_status l) "completed" then
    Some (assessment SupervisorState.COMPLETED "durable LSM session is completed" "high"
            evidence false)
  else if opt_eqb (lo_session_status l) "cancelled" then
    Some (assessment SupervisorState.ABANDONED "durable LSM session is cancelled" "high"
            evidence false)
  else if opt_eqb (lo_plan_status l) "blocked" then
    Some (assessment SupervisorState.BLOCKED "durable Goal plan is blocked" "high" evidence false)
  else if opt_eqb (lo_plan_status l) "completed" && (lo_in_flight_calls l =? 0) &&
          (lo_active_jobs l =? 0) then
    Some (assessment SupervisorState.COMPLETED
            "durable Goal plan completed with no tracked active work" "high" evidence false)
  else if (0 <? lo_in_flight_calls l) || (0 <? lo_active_jobs l) then
    Some (assessment SupervisorState.RUNNING
            "durable Local Shell work is still active; UI state cannot override it" "high"
            evidence false)
  else None.

Definition browser_evidence (now : float) (b : BrowserObservation) : list string :=
  ["browser.observation_age_s=" +:+ format_f0 (age now (bo_observed_at b))] ++
  line (bo_last_dom_change_at b) (λ t, "browser.dom_silence_s=" +:+ format_f0 (age now t)) ++
  line (truthy_text (bo_visible_error b)) (λ e, "browser.error=" +:+ str_take 120 e) ++
  line (bo_pending_tool_calls b) (λ n, "browser.pending_tool_calls=" +:+ pretty n).

Definition network_evidence (now : float) (n : NetworkObservation) : list string :=
  ["network.observation_age_s=" +:+ format_f0 (age now (no_observed_at n))] ++
  line (no_quiet_since_at n) (λ t, "network.silence_s=" +:+ format_f0 (age now t)) ++
  ["network.sample_events=" +:+ pretty (no_event_count n)] ++
  when_ (negb (no_loading_failed n =? 0))
    ("network.loading_failed=" +:+ pretty (no_loading_failed n)).

(** The verdict from silence, progress and the UI, once durable evidence is exhausted. *)
Definition soft_verdict (task : TaskRecord) (browser : option BrowserObservation)
    (lsm : option LsmObservation) (dom_silence network_silence lsm_silence : option float)
    (policy : WatchPolicy) (evidence : list string) : Assessment :=
  let atleast t x := match x with Some v => fle t v | None => false end in
  let plan_active := match lsm with
                     | Some l => opt_eqb (lo_plan_status l) "active" | None => false end in
  let stale_browser := atleast (wp_browser_suspect_after_s policy) dom_silence in
  let stale_network := atleast (wp_network_suspect_after_s policy) network_silence in
  let stale_lsm := atleast (wp_lsm_suspect_after_s policy) lsm_silence in
  let network_silent := match network_silence with Some _ => true | None => false end in
  if match browser with
     | Some b => match truthy_text (bo_visible_error b) with Some _ => true | None => false end
     | None => false
     end then
    assessment SupervisorState.RECONCILING
      "web chat reports an error; reconcile durable LSM/workspace state before any retry"
      "high" evidence true
  else if match browser with
     | Some b =>
         opt_true (bo_send_button_ready b) && (0 <? default 0 (bo_pending_tool_calls b)) &&
         match dom_silence with
         | None => true
         | Some d => fle (wp_browser_suspect_after_s policy) d
         end
     | None => false
     end then
    assessment SupervisorState.RECONCILING
      "composer is ready while a tool call still appears pending; delivery lifecycle is contradictory"
      "high" evidence true
  else if plan_active &&
          match lsm with Some l => opt_true (lo_continuation_pending l) | None => false end then
    assessment SupervisorState.RUNNING
      "LSM continuation is already pending; supervisor must not compete with it" "high"
      evidence false
  else if plan_active &&
          match lsm with Some l => opt_true (lo_continuation_due l) | None => false end then
    if match network_silence with
       | Some n => flt n (wp_network_suspect_after_s policy) | None => false end then
      assessment SupervisorState.RECONCILING
        "Goal lease is due but network lifecycle activity is recent; evidence conflicts, so do not race the worker"
        "medium" evidence true
    else
      assessment SupervisorState.SUSPECT
        "Goal plan execution lease expired with no durable work in flight" "high" evidence true
  else if stale_browser && stale_lsm then
    if network_silent && negb stale_network then
      assessment SupervisorState.RECONCILING
        "DOM and LSM are silent but network lifecycle activity is recent; reconcile conflicting evidence before recovery"
        "medium" evidence true
    else
      let silences := omap id [lsm_silence; network_silence] in
      let shortest := foldl fmin (default (of_Z 0) dom_silence) silences in
      assessment SupervisorState.SUSPECT
        (if network_silent
         then "browser DOM, network lifecycle, and durable LSM activity are silent"
         else "both browser DOM and durable LSM activity are silent")
        (if fle (wp_hard_stall_after_s policy) shortest then "high" else "medium") evidence true
  else if match browser with Some b => opt_true (bo_generating b) | None => false end then
    assessment SupervisorState.RUNNING "browser reports active generation" "medium" evidence false
  else if plan_active then
    assessment SupervisorState.RUNNING
      "Goal plan remains active and no stall threshold has been crossed" "medium" evidence false
  else if bool_decide (tr_state task = SupervisorState.QUEUED) ||
          bool_decide (tr_state task = SupervisorState.STARTING) then
    assessment (tr_state task) "no contradictory runtime evidence" "medium" evidence false
  else
    assessment SupervisorState.SUSPECT
      "insufficient fresh evidence to prove progress or completion" "low" evidence true.

Definition assess (task : TaskRecord) (browser : option BrowserObservation)
    (lsm : option LsmObservation) (workspace : option WorkspaceObservation)
    (network : option NetworkObservation) (now : float) (policy : WatchPolicy) : Assessment :=
  let evidence := workspace_evidence task workspace in
  if bool_decide (tr_state task = SupervisorState.COMPLETED) then
    assessment SupervisorState.COMPLETED "task is already durably completed" "high" [] false
  else if bool_decide (tr_state task = SupervisorState.ABANDONED) then
    assessment SupervisorState.ABANDONED "task was explicitly abandoned" "high" [] false
  else
    let evidence := evidence ++ match lsm with Some l => lsm_evidence l | None => [] end in
    match (l ← lsm; lsm_verdict l evidence) with
    | Some verdict => verdict
    | None =>
        if match workspace with Some w => negb (wo_cwd_exists w) | None => false end then
          assessment SupervisorState.NEEDS_HUMAN "registered working directory no longer exists"
            "high" evidence true
        else
          let dom_silence := b ← browser; age now <$> bo_last_dom_change_at b in
          let network_silence := n ← network; age now <$> no_quiet_since_at n in
          let lsm_silence := l ← lsm; age now <$> lo_recent_event_at l in
          let evidence := evidence ++
            match browser with Some b => browser_evidence now b | None => [] end ++
            match network with Some n => network_evidence now n | None => [] end ++
            line lsm_silence (λ t, "lsm.event_silence_s=" +:+ format_f0 t) in
          soft_verdict task browser lsm dom_silence network_silence lsm_silence policy evidence
    end.

(** ** Recommendation *)

Definition _workspace_summary (workspace : option WorkspaceObservation) : string :=
  match workspace with
  | None => "unavailable"
  | Some w =>
      join ", "
        (["cwd_exists=" +:+ str_bool (wo_cwd_exists w)] ++
         line (wo_is_git_repo w) (λ b, "git_repo=" +:+ str_bool b) ++
         line (truthy_text (wo_git_head w)) (λ h, "git_head=" +:+ h) ++
         line (wo_git_dirty w) (λ b, "git_dirty=" +:+ str_bool b) ++
         line (truthy_text (wo_git_status_hash w)) (λ h, "git_status_hash=" +:+ h) ++
         line (truthy_text (wo_error w)) (λ e, "error=" +:+ e))
  end.

(** The constant texts of the recovery prompt and of the safety preamble are arguments:
    the lines of [RECOVERY_PROMPT] before its first field, and the preamble. *)
Class PromptTexts := {
  safety_preamble : string;
  recovery_instructions : string;
}.

Context {texts : PromptTexts}.

Definition newline : string := String (Ascii.ascii_of_nat 10) EmptyString.

Definition with_safety_preamble (instruction : string) : string :=
  rstrip safety_preamble +:+ newline +:+ newline +:+ lstrip instruction.

Definition recovery_prompt (task : TaskRecord) (session_id : string)
    (workspace : option WorkspaceObservation) : string :=
  with_safety_preamble
    (recovery_instructions +:+ "Task id: " +:+ tr_task_id task +:+ newline +:+
     "Local Shell logical session: " +:+ session_id +:+ newline +:+
     "Working directory: " +:+ tr_cwd task +:+ newline +:+
     "Recorded checkpoint: " +:+ json_text (JObj (tr_checkpoint task)) +:+ newline +:+
     "Observed workspace: " +:+ _workspace_summary workspace +:+ newline).

Definition recommend (task : TaskRecord) (a : Assessment) (lsm : option LsmObservation)
    (workspace : option WorkspaceObservation) : RecoveryRecommendation :=
  let advise action reason :=
    mkRecoveryRecommendation (tr_task_id task) action false reason None (as_evidence a) in
  if bool_decide (tr_state task = SupervisorState.COMPLETED) then
    advise "none" "task is durably complete"
  else if bool_decide (tr_state task = SupervisorState.ABANDONED) then
    advise "none" "task was abandoned/cancelled"
  else match as_state a with
  | SupervisorState.COMPLETED => advise "none" "task is durably complete"
  | SupervisorState.ABANDONED => advise "none" "task was abandoned/cancelled"
  | SupervisorState.NEEDS_HUMAN =>
      advise "human_decision" "task requires a human decision before recovery"
  | SupervisorState.BLOCKED =>
      advise "human_decision"
        "Goal plan is blocked; automatic continuation would bypass an explicit blocker"
  | SupervisorState.RUNNING | SupervisorState.STARTING | SupervisorState.RECOVERING =>
      advise "observe" "work still appears active; do not compete with the current worker"
  | SupervisorState.QUEUED | SupervisorState.SUSPECT | SupervisorState.RECONCILING =>
      if tr_max_recovery_attempts task <=? tr_recovery_attempts task then
        advise "human_decision" "recovery-attempt budget exhausted"
      else match truthy_text (tr_lsm_session_id task), lsm with
      | Some session_id, Some l =>
          if (0 <? lo_in_flight_calls l) || (0 <? lo_active_jobs l) ||
             opt_true (lo_continuation_pending l) then
            advise "observe"
              "durable LSM work/continuation is active; takeover or continue is unsafe"
          else
            mkRecoveryRecommendation (tr_task_id task) "reconcile_then_continue" false
              "candidate for a new web chat turn after explicit reconciliation; V0 does not auto-dispatch"
              (Some (recovery_prompt task session_id workspace)) (as_evidence a)
      | _, _ =>
          advise "human_decision"
            "no durable LSM session observation is available for reconciliation"
      end
  end.

(** ** Theorems *)

(** The verdict from the UI is about running, suspicion or waiting, never about the end
    of the task. *)
Lemma soft_verdict_open task browser lsm d n l policy ev :
  let s := as_state (soft_verdict task browser lsm d n l policy ev) in
  s ≠ SupervisorState.COMPLETED ∧ s ≠ SupervisorState.ABANDONED ∧
  s ≠ SupervisorState.BLOCKED ∧ s ≠ SupervisorState.NEEDS_HUMAN.
Proof.
  unfold soft_verdict. cbv zeta.
  repeat (match goal with |- context [if ?b then _ else _] => destruct b eqn:? end;
          try (by split_and!)).
  cbn. match goal with H : _ || _ = true |- _ => apply orb_true_iff in H as [H|H] end;
    bool_to_prop; match goal with H : tr_state task = _ |- _ => rewrite H end; done.
Qed.

Definition lsm_says_completed (l : LsmObservation) : Prop :=
  opt_eqb (lo_session_status l) "completed" = true ∨
  (opt_eqb (lo_session_status l) "cancelled" = false ∧
   opt_eqb (lo_plan_status l) "completed" = true ∧
   lo_in_flight_calls l = 0 ∧ lo_active_jobs l = 0).

Lemma opt_eqb_eq x s : opt_eqb x s = true ↔ x = Some s.
Proof. destruct x; cbn; [rewrite String.eqb_eq|]; naive_solver. Qed.

Lemma lsm_verdict_completed l ev :
  (∃ v, lsm_verdict l ev = Some v ∧ as_state v = SupervisorState.COMPLETED) ↔
  lsm_says_completed l.
Proof.
  unfold lsm_verdict, lsm_says_completed.
  destruct (opt_eqb (lo_session_status l) "completed"); [cbn; split; [by left|by eexists]|].
  destruct (opt_eqb (lo_session_status l) "cancelled"); [naive_solver|].
  destruct (opt_eqb (lo_plan_status l) "blocked") eqn:Hb.
  { apply opt_eqb_eq in Hb. rewrite Hb. cbn. naive_solver. }
  destruct (opt_eqb (lo_plan_status l) "completed"); cbn [andb].
  - destruct (Z.eqb_spec (lo_in_flight_calls l) 0), (Z.eqb_spec (lo_active_jobs l) 0);
      cbn [andb]; try case_match; naive_solver.
  - case_match; naive_solver.
Qed.

(** A task is assessed as completed exactly on durable grounds: it was already recorded
    as completed, or it is not abandoned and its LSM session is completed, or its plan
    is completed with no work in flight in a session that was not cancelled.  No
    browser, network or workspace observation can complete a task. *)
Theorem assess_completed_iff task browser lsm workspace network now policy :
  as_state (assess task browser lsm workspace network now policy) = SupervisorState.COMPLETED ↔
  tr_state task = SupervisorState.COMPLETED ∨
  (tr_state task ≠ SupervisorState.ABANDONED ∧ ∃ l, lsm = Some l ∧ lsm_says_completed l).
Proof.
  unfold assess. cbv zeta. case_bool_decide as Hc; [naive_solver|].
  case_bool_decide as Ha; [naive_solver|].
  destruct lsm as [l|]; cbn [mbind option_bind].
  - pose proof (lsm_verdict_completed l
      (workspace_evidence task workspace ++ lsm_evidence l)) as Hv.
    destruct (lsm_verdict l _) as [v|] eqn:Ev; [naive_solver|].
    assert (¬ lsm_says_completed l) by naive_solver.
    case_match; [cbn; naive_solver|].
    match goal with |- context [soft_verdict ?a ?b ?c ?d ?e ?f ?g ?h] =>
      destruct (soft_verdict_open a b c d e f g h) as [Hs _] end. naive_solver.
  - case_match; [cbn; naive_solver|].
    match goal with |- context [soft_verdict ?a ?b ?c ?d ?e ?f ?g ?h] =>
      destruct (soft_verdict_open a b c d e f g h) as [Hs _] end. naive_solver.
Qed.

(** Durable work outranks the user interface: while the LSM session of an open task
    has a call or a job in flight (and its plan is not blocked), the task is assessed as
    running and the advice is to observe, whatever the browser, the network and the
    workspace look like. *)
Theorem durable_work_outranks_ui task browser l workspace network now policy :
  tr_state task ≠ SupervisorState.COMPLETED → tr_state task ≠ SupervisorState.ABANDONED →
  0 < lo_in_flight_calls l ∨ 0 < lo_active_jobs l →
  lo_session_status l ≠ Some "completed" → lo_session_status l ≠ Some "cancelled" →
  lo_plan_status l ≠ Some "blocked" →
  let a := assess task browser (Some l) workspace network now policy in
  as_state a = SupervisorState.RUNNING ∧
  rr_action (recommend task a (Some l) workspace) = "observe" ∧
  rr_prompt (recommend task a (Some l) workspace) = None.
Proof.
  intros Hc Ha Hw H1 H2 H3. cbv zeta.
  assert (as_state (assess task browser (Some l) workspace network now policy) =
          SupervisorState.RUNNING) as Hs.
  { unfold assess. cbv zeta. rewrite !bool_decide_false by done. cbn [mbind option_bind].
    assert (opt_eqb (lo_session_status l) "completed" = false ∧
            opt_eqb (lo_session_status l) "cancelled" = false ∧
            opt_eqb (lo_plan_status l) "blocked" = false) as (E1 & E2 & E3)
      by (split_and!; apply not_true_iff_false; by rewrite opt_eqb_eq).
    unfold lsm_verdict. rewrite E1, E2, E3.
    destruct (Z.eqb_spec (lo_in_flight_calls l) 0), (Z.eqb_spec (lo_active_jobs l) 0);
      [lia| | |]; rewrite ?andb_false_r; cbn [andb];
      (destruct (Z.ltb_spec 0 (lo_in_flight_calls l)), (Z.ltb_spec 0 (lo_active_jobs l));
       [done..|lia]). }
  split; [done|]. unfold recommend. rewrite !bool_decide_false by done. by rewrite Hs.
Qed.

(** Continuing is advised only for an open task with recovery budget left, on a session
    that is observed idle (no call, job or continuation), and the advice itself never
    allows a dispatch. *)
Theorem continue_advice_is_safe task a lsm workspace :
  rr_safe_to_dispatch (recommend task a lsm workspace) = false ∧
  (rr_action (recommend task a lsm workspace) = "reconcile_then_continue" →
   tr_state task ≠ SupervisorState.COMPLETED ∧ tr_state task ≠ SupervisorState.ABANDONED ∧
   as_state a ∈ [SupervisorState.QUEUED; SupervisorState.SUSPECT; SupervisorState.RECONCILING] ∧
   tr_recovery_attempts task < tr_max_recovery_attempts task ∧
   opt_truthy (tr_lsm_session_id task) = true ∧
   ∃ l, lsm = Some l ∧ lo_in_flight_calls l ≤ 0 ∧ lo_active_jobs l ≤ 0 ∧
        lo_continuation_pending l ≠ Some true).
Proof.
  unfold recommend. case_bool_decide; [done|]. case_bool_decide; [done|].
  destruct (as_state a) eqn:Hs; try done.
  all: destruct (Z.leb_spec (tr_max_recovery_attempts task) (tr_recovery_attempts task)); [done|].
  all: unfold truthy_text; destruct (tr_lsm_session_id task) as [sid|]; [|done].
  all: cbn [opt_truthy]; destruct (str_truthy sid); [|done].
  all: destruct lsm as [l|]; [|done].
  all: destruct (_ || _) eqn:Hw; [done|]; bool_to_prop.
  all: split; [done|]; intros _; split_and!; try done.
  all: try (rewrite !elem_of_cons; tauto).
  all: exists l; split_and!; try done.
  all: intros Hp; by rewrite Hp in *.
Qed.

End Watch.

(** ** Witnesses *)

#[local] Instance demo_formatting : Formatting := {|
  format_f0 := λ _, ""; format_f1 := λ _, ""; json_text := λ _, "{}"; json_repr := λ _, "";
|}.

#[local] Instance demo_texts : PromptTexts := {|
  safety_preamble := "Be careful. "; recovery_instructions := " Resume. ";
|}.

Definition busy_lsm : LsmObservation :=
  mkLsmObservation "task" (of_Z 5) (Some "lsm") (Some "active") None (Some "active")
    None (Some true) (Some false) 2 None 0 0 0 None None None None [].

Definition stalled_browser : BrowserObservation :=
  mkBrowserObservation "w1" (of_Z 5) None (Some false) (Some true) (Some 1)
    (Some "Network error") (Some (of_Z 0)) None [].

Definition open_task : TaskRecord :=
  mkTaskRecord "task" "p" "o" "/w" SupervisorState.RUNNING (Some "lsm") [] (Some "w1") 0 3
    (of_Z 1) (of_Z 1).

Lemma durable_work_outranks_ui_witness :
  as_state (assess open_task (Some stalled_browser) (Some busy_lsm) None None (of_Z 900)
              default_watch_policy) = SupervisorState.RUNNING.
Proof.
  eapply (durable_work_outranks_ui open_task (Some stalled_browser) busy_lsm None None
    (of_Z 900) default_watch_policy); cbn; try discriminate. left. reflexivity.
Defined.
