(* ===== verification/Attention.v ===== *)
(** * The attention queue of scheduler.py

    The tasks that need an operator, one item per task, the most urgent first.  The queue
    does not depend on the order in which the assessments arrive. *)

From S2P Require Import Prelude PyFloat PyStr PyJson Models Watcher.

Open Scope string_scope.
Open Scope Z_scope.
Open Scope list_scope.

(** The table [_PRIORITY]. *)
Definition _PRIORITY (s : SupervisorState.t) : Z :=
  match s with
  | SupervisorState.NEEDS_HUMAN => 0
  | SupervisorState.BLOCKED => 1
  | SupervisorState.RECONCILING => 2
  | SupervisorState.SUSPECT => 3
  | SupervisorState.RECOVERING => 4
  | SupervisorState.STARTING => 5
  | SupervisorState.QUEUED => 6
  | SupervisorState.RUNNING => 7
  | SupervisorState.COMPLETED => 8
  | SupervisorState.ABANDONED => 9
  end.

Record AttentionItem := mkAttentionItem {
  ai_task_id : string;
  ai_state : SupervisorState.t;
  ai_priority : Z;
  ai_reason : string;
}.

Definition eligible (s : SupervisorState.t) : bool :=
  match s with
  | SupervisorState.NEEDS_HUMAN | SupervisorState.BLOCKED | SupervisorState.RECONCILING
  | SupervisorState.SUSPECT => true
  | _ => false
  end.

Definition attention_item (x : TaskRecord * Assessment) : AttentionItem :=
  mkAttentionItem (tr_task_id x.1) (as_state x.2) (_PRIORITY (as_state x.2)) (as_reason x.2).

Definition str_lt (a b : string) : bool := negb (String.leb b a).

(** [(priority, state.value, reason) < (...)] *)
Definition item_lt (x y : AttentionItem) : bool :=
  if negb (ai_priority x =? ai_priority y) then ai_priority x <? ai_priority y
  else if negb (String.eqb (SupervisorState.value (ai_state x)) (SupervisorState.value (ai_state y)))
  then str_lt (SupervisorState.value (ai_state x)) (SupervisorState.value (ai_state y))
  else str_lt (ai_reason x) (ai_reason y).

(** One iteration of the loop. *)
Definition keep_best (best : gmap string AttentionItem) (x : TaskRecord * Assessment)
    : gmap string AttentionItem :=
  if negb (eligible (as_state x.2)) then best else
  let candidate := attention_item x in
  match best !! ai_task_id candidate with
  | None => <[ai_task_id candidate := candidate]> best
  | Some current =>
      if item_lt candidate current then <[ai_task_id candidate := candidate]> best else best
  end.

(** [queue.sort(key=lambda item: (item.priority, item.task_id))] *)
Definition queue_leb (x y : AttentionItem) : bool :=
  if negb (ai_priority x =? ai_priority y) then ai_priority x <? ai_priority y
  else String.leb (ai_task_id x) (ai_task_id y).

(** The dictionary is only read through a sort by a unique key, so a map stands for it. *)
Definition attention_queue (items : list (TaskRecord * Assessment)) : list AttentionItem :=
  py_sorted queue_leb ((map_to_list (foldl keep_best ∅ items)).*2).

(** ** The order of the items of one task *)

Lemma priority_inj s1 s2 : _PRIORITY s1 = _PRIORITY s2 → s1 = s2.
Proof. by destruct s1, s2. Qed.

(** Items that the loop builds carry the priority of their state. *)
Definition well_ranked (x : AttentionItem) : Prop := ai_priority x = _PRIORITY (ai_state x).

Lemma item_lt_cases x y :
  well_ranked x → well_ranked y →
  item_lt x y = true ↔ ai_priority x < ai_priority y ∨
    (ai_priority x = ai_priority y ∧ str_lt (ai_reason x) (ai_reason y) = true).
Proof.
  unfold item_lt. intros Hx Hy. destruct (Z.eqb_spec (ai_priority x) (ai_priority y)) as [E|E]; cbn [negb].
  - assert (ai_state x = ai_state y) as -> by (apply priority_inj; rewrite <- Hx, <- Hy; done).
    rewrite String.eqb_refl. cbn [negb]. split; [intros ?; by right|intros [?|[_ ?]]; [lia|done]].
  - rewrite Z.ltb_lt. split; [intros ?; by left|intros [?|[? _]]; [done|lia]].
Qed.

Lemma str_lt_false a b : str_lt a b = false ↔ String.leb b a = true.
Proof. unfold str_lt. by rewrite negb_false_iff. Qed.

Lemma str_lt_leb a b : str_lt a b = true → String.leb a b = true.
Proof. unfold str_lt. destruct (String.leb_total a b) as [H|H]; rewrite H; done. Qed.

Lemma item_lt_false x y :
  well_ranked x → well_ranked y →
  item_lt x y = false ↔ ai_priority y < ai_priority x ∨
    (ai_priority x = ai_priority y ∧ String.leb (ai_reason y) (ai_reason x) = true).
Proof.
  intros Hx Hy. rewrite <- not_true_iff_false, item_lt_cases, <- str_lt_false by done.
  rewrite <- not_true_iff_false. destruct (Z.lt_trichotomy (ai_priority x) (ai_priority y)) as [?|[?|?]];
    naive_solver lia.
Qed.

(** ** The best item of each task *)

(** [x] is the most urgent eligible item of its task. *)
Definition most_urgent (items : list (TaskRecord * Assessment)) (x : AttentionItem) : Prop :=
  (∃ p, p ∈ items ∧ eligible (as_state p.2) = true ∧ x = attention_item p) ∧
  ∀ p, p ∈ items → eligible (as_state p.2) = true → tr_task_id p.1 = ai_task_id x →
    item_lt (attention_item p) x = false.

Lemma most_urgent_unique items x y :
  most_urgent items x → most_urgent items y → ai_task_id x = ai_task_id y → x = y.
Proof.
  intros [(p & Hp & Ep & ->) Hx] [(q & Hq & Eq & ->) Hy] E. cbn in E.
  pose proof (Hx q Hq Eq (eq_sym E)) as H1. pose proof (Hy p Hp Ep E) as H2.
  apply item_lt_false in H1; [|done..]. apply item_lt_false in H2; [|done..]. cbn in *.
  destruct H1 as [?|[Hpr Hr1]], H2 as [?|[Hpr2 Hr2]]; try lia.
  apply priority_inj in Hpr. pose proof (String.leb_antisym _ _ Hr1 Hr2) as Hr.
  unfold attention_item. by rewrite Hpr, E, Hr.
Qed.

Lemma most_urgent_snoc items p x :
  most_urgent (items ++ [p]) x ↔
  (most_urgent items x ∧
     (eligible (as_state p.2) = true → tr_task_id p.1 = ai_task_id x →
      item_lt (attention_item p) x = false)) ∨
  (eligible (as_state p.2) = true ∧ x = attention_item p ∧
     ∀ q, q ∈ items → eligible (as_state q.2) = true → tr_task_id q.1 = tr_task_id p.1 →
       item_lt (attention_item q) x = false).
Proof.
  unfold most_urgent. setoid_rewrite elem_of_app. setoid_rewrite list_elem_of_singleton. split.
  - intros [(q & [Hq| ->] & Eq & ->) H]; [left|right].
    + split; [split; [by eauto|by auto]|]. intros Ep Et. apply H; auto.
    + split_and!; [done..|]. intros q0 Hq0 E0 Et. apply H; auto.
  - intros [[[(q & Hq & Eq & ->) H] Hp]|(Ep & -> & H)].
    + split; [eauto 8|]. intros q0 [Hq0| ->] E0 Et; auto.
    + split; [by eauto 8|]. intros q [Hq| ->] Eq Et; [by apply H|].
      apply item_lt_false; [done..|]. right. split; [done|]. by destruct (String.leb_total (as_reason p.2) (as_reason p.2)).
Qed.

Lemma item_lt_below x y z :
  well_ranked x → well_ranked y → well_ranked z →
  item_lt x y = true → item_lt z y = false → item_lt z x = false.
Proof.
  intros Hx Hy Hz. rewrite item_lt_cases, !item_lt_false by done.
  intros [?|[? H1%str_lt_leb]] [?|[? H2]]; [left; lia..|]. right. split; [lia|].
  by eapply string_leb_trans.
Qed.

Lemma keep_best_has items p :
  p ∈ items → eligible (as_state p.2) = true →
  is_Some (foldl keep_best ∅ items !! tr_task_id p.1).
Proof.
  induction items as [|q items IH] using rev_ind; [by intros ?%not_elem_of_nil|].
  intros Hin Hp. rewrite foldl_app. cbn. set (best := foldl keep_best ∅ items) in *.
  assert (is_Some (best !! tr_task_id p.1) → is_Some (keep_best best q !! tr_task_id p.1)) as Hkeep.
  { unfold keep_best. intros H. repeat case_match; try done; apply lookup_insert_is_Some'; by right. }
  apply elem_of_app in Hin as [Hin|Hin%list_elem_of_singleton]; [auto|]. subst q.
  unfold keep_best. rewrite Hp. cbn. case_match eqn:E; [case_match|]; rewrite ?lookup_insert_eq;
    by eexists.
Qed.

Lemma keep_best_spec items id x :
  foldl keep_best ∅ items !! id = Some x ↔ ai_task_id x = id ∧ most_urgent items x.
Proof.
  revert id x. induction items as [|p items IH] using rev_ind; intros id x.
  { cbn. rewrite lookup_empty. split; [done|]. by intros [_ [(q & Hq%not_elem_of_nil & _) _]]. }
  rewrite foldl_app, most_urgent_snoc. cbn [foldl]. pose proof (keep_best_has items) as Hhas.
  set (best := foldl keep_best ∅ items) in *. unfold keep_best.
  destruct (eligible (as_state p.2)) eqn:Ep; cbn [negb].
  2: { rewrite IH. split; [intros [? ?]; split; [done|by left]|].
       intros [? [[? _]|([=] & _)]]. done. }
  cbv zeta. set (c := attention_item p). assert (well_ranked c) as Wp by done.
  assert (∀ x, most_urgent items x → well_ranked x) as HW.
  { intros y [(q & _ & _ & ->) _]. done. }
  destruct (decide (id = tr_task_id p.1)) as [->|Hne].
  2: { trans (best !! id = Some x).
       { destruct (best !! ai_task_id c); [destruct (item_lt _ _)|];
           by rewrite ?lookup_insert_ne by (cbn; congruence). }
       rewrite IH. split; intros [E H]; (split; [done|]).
       - left. split; [done|]. cbn. congruence.
       - destruct H as [[? _]|(_ & -> & _)]; [done|]. cbn in E. congruence. }
  destruct (best !! ai_task_id c) as [b|] eqn:Hb.
  - pose proof (proj1 (IH _ _) Hb) as [Eb Ub]. destruct (item_lt c b) eqn:Hlt.
    + rewrite lookup_insert_eq. split.
      * intros [= <-]. split; [done|]. right. split_and!; [done..|]. intros q Hq Eq Et.
        apply (item_lt_below c b); [done|by apply HW|done|done|]. apply (proj2 Ub); [done..|].
        by rewrite Et, Eb.
      * intros [E [[Ux Hp]|(_ & -> & _)]]; [|done].
        assert (x = b) as -> by (eapply most_urgent_unique; eauto; by rewrite E, Eb).
        by rewrite (Hp eq_refl (eq_sym E)) in Hlt.
    + change (tr_task_id p.1) with (ai_task_id c). rewrite Hb. split.
      * intros [= <-]. split; [done|]. left. split; [done|]. auto.
      * intros [E [[Ux _]|(_ & -> & H)]].
        -- f_equal. eapply most_urgent_unique; eauto. by rewrite E, Eb.
        -- destruct Ub as [(q & Hq & Eq & ->) _]. cbn in Eb.
           pose proof (H q Hq Eq Eb) as Hqp. apply item_lt_false in Hlt; [|done..].
           apply item_lt_false in Hqp; [|done..]. cbn in *.
           destruct Hlt as [?|[Hpr Hr1]], Hqp as [?|[Hpr2 Hr2]]; try lia.
           apply priority_inj in Hpr. pose proof (String.leb_antisym _ _ Hr1 Hr2) as Hr.
           f_equal. unfold c, attention_item. by rewrite Eb, Hpr, Hr.
  - rewrite lookup_insert_eq. split.
    + intros [= <-]. split; [done|]. right. split_and!; [done..|]. intros q Hq Eq Et.
      destruct (Hhas q Hq Eq) as [y Hy]. rewrite Et in Hy. cbn in Hb. congruence.
    + intros [E [[[(q & Hq & Eq & ->) _] _]|(_ & -> & _)]]; [|done].
      destruct (Hhas q Hq Eq) as [y Hy]. cbn in E, Hb. congruence.
Qed.

(** ** The queue *)

Lemma queue_leb_total x y : queue_leb x y = true ∨ queue_leb y x = true.
Proof.
  unfold queue_leb. rewrite (Z.eqb_sym (ai_priority y)).
  destruct (Z.eqb_spec (ai_priority x) (ai_priority y)); cbn; [apply String.leb_total|lia].
Qed.

Lemma queue_leb_trans x y z : queue_leb x y = true → queue_leb y z = true → queue_leb x z = true.
Proof.
  unfold queue_leb.
  destruct (Z.eqb_spec (ai_priority x) (ai_priority y)) as [E1|E1];
  destruct (Z.eqb_spec (ai_priority y) (ai_priority z)) as [E2|E2];
  destruct (Z.eqb_spec (ai_priority x) (ai_priority z)) as [E3|E3]; cbn; try lia.
  apply string_leb_trans.
Qed.

Lemma elem_of_queue items x : x ∈ attention_queue items ↔ most_urgent items x.
Proof.
  unfold attention_queue. rewrite elem_of_py_sorted, list_elem_of_fmap. split.
  - intros ([id y] & -> & H%elem_of_map_to_list%keep_best_spec). apply H.
  - intros H. exists (ai_task_id x, x). split; [done|]. by apply elem_of_map_to_list, keep_best_spec.
Qed.

Lemma queue_nodup items : NoDup (ai_task_id <$> attention_queue items).
Proof.
  unfold attention_queue. rewrite py_sorted_perm, <- list_fmap_compose.
  assert ((ai_task_id ∘ snd) <$> map_to_list (foldl keep_best ∅ items) =
    fst <$> map_to_list (foldl keep_best ∅ items)) as ->; [|apply NoDup_fst_map_to_list].
  apply list_fmap_ext. intros _ [id x] Hx%list_elem_of_lookup_2%elem_of_map_to_list.
  by apply keep_best_spec in Hx as [? _].
Qed.

Lemma most_urgent_perm items items' : items ≡ₚ items' →
  ∀ x, most_urgent items x ↔ most_urgent items' x.
Proof. intros Hp x. unfold most_urgent. by setoid_rewrite Hp. Qed.

(** The attention queue holds exactly the most urgent eligible assessment of each task,
    once per task, ordered by urgency and then by task; it does not depend on the order in
    which the assessments are given. *)
Theorem attention_queue_is_canonical items items' :
  items ≡ₚ items' →
  attention_queue items = attention_queue items' ∧
  NoDup (ai_task_id <$> attention_queue items) ∧
  Sorted (λ x y, queue_leb x y = true) (attention_queue items) ∧
  ∀ x, x ∈ attention_queue items ↔ most_urgent items x.
Proof.
  intros Hp. split_and!.
  - assert (Transitive (λ x y, queue_leb x y = true)) by (intros ???; apply queue_leb_trans).
    eapply (Sorted_unique_strong (λ x y, queue_leb x y = true)).
    + intros x y Hx Hy H1 H2. apply elem_of_queue in Hx as Ux. apply elem_of_queue in Hy as Uy.
      assert (most_urgent items y) as Uy' by (by apply (most_urgent_perm _ _ Hp)).
      eapply most_urgent_unique; [done..|]. unfold queue_leb in H1, H2.
      rewrite (Z.eqb_sym (ai_priority y)) in H2.
      destruct (Z.eqb_spec (ai_priority x) (ai_priority y)); cbn in H1, H2; [|lia].
      by apply String.leb_antisym.
    + apply py_sorted_Sorted, queue_leb_total.
    + apply py_sorted_Sorted, queue_leb_total.
    + apply NoDup_Permutation.
      * eapply NoDup_fmap_1, queue_nodup.
      * eapply NoDup_fmap_1, queue_nodup.
      * intros x. rewrite !elem_of_queue. by apply most_urgent_perm.
  - apply queue_nodup.
  - apply py_sorted_Sorted, queue_leb_total.
  - apply elem_of_queue.
Qed.

(** ** Witness *)

Definition attention_rows : list (TaskRecord * Assessment) :=
  let task id := mkTaskRecord id "p" "o" "/w" SupervisorState.RUNNING None [] None 0 3 (of_Z 1) (of_Z 1) in
  let say s why := mkAssessment s why "high" [] false false in
  [(task "t2", say SupervisorState.SUSPECT "quiet"); (task "t1", say SupervisorState.BLOCKED "b");
   (task "t3", say SupervisorState.RUNNING "busy"); (task "t2", say SupervisorState.NEEDS_HUMAN "stuck");
   (task "t1", say SupervisorState.BLOCKED "a")].

Lemma attention_queue_is_canonical_witness :
  attention_queue attention_rows = attention_queue (reverse attention_rows) ∧
  ((λ x, (ai_task_id x, ai_reason x)) <$> attention_queue attention_rows) =
    [("t2", "stuck"); ("t1", "a")].
Proof.
  split; [|vm_compute; reflexivity].
  destruct (attention_queue_is_canonical attention_rows (reverse attention_rows)) as [H _].
  - apply (symmetry (reverse_Permutation attention_rows)).
  - exact H.
Defined.
