(* ===== verification/Dispatcher.v ===== *)
(** * dispatcher.py: the deterministic preconditions of a recovery dispatch

    [build_dispatch_plan] checks two reconciliation records against the task and the
    policy.  Each check is a [gate]: its name, whether it passed, and the blocker that is
    reported when it did not; the Python dictionary [checks] and list [blockers] are the
    two projections of the gates in order. *)

From S2P Require Import Prelude PyFloat PyStr PyUrl PyJson Models Reconcile Watcher.

Open Scope string_scope.
Open Scope Z_scope.
Open Scope list_scope.

Module DispatchAction.

Inductive t := NONE | OBSERVE | HUMAN_DECISION | CONTINUE_CURRENT_WORKER | TAKEOVER_NEW_WORKER.

#[global] Instance t_eq_dec : EqDecision t.
Proof. solve_decision. Defined.

Definition value (a : t) : string :=
  match a with
  | NONE => "NONE"
  | OBSERVE => "OBSERVE"
  | HUMAN_DECISION => "HUMAN_DECISION"
  | CONTINUE_CURRENT_WORKER => "CONTINUE_CURRENT_WORKER"
  | TAKEOVER_NEW_WORKER => "TAKEOVER_NEW_WORKER"
  end.

End DispatchAction.

Record DispatchPolicy := mkDispatchPolicy {
  dp_max_reconciliation_age_s : float;
  dp_min_reconciliation_separation_s : float;
  dp_max_browser_observation_age_s : float;
  dp_max_network_observation_age_s : float;
  dp_min_dom_quiet_s : float;
  dp_min_network_quiet_s : float;
  dp_transport_enabled : bool;
}.

Definition default_dispatch_policy : DispatchPolicy :=
  mkDispatchPolicy (of_Z 120) (of_Z 3) (of_Z 30) (of_Z 30) (of_Z 5) (of_Z 5) false.

Record DispatchPlan := mkDispatchPlan {
  pl_task_id : string;
  pl_created_at : float;
  pl_action : DispatchAction.t;
  pl_candidate_ready : bool;
  pl_transport_enabled : bool;
  pl_would_dispatch : bool;
  pl_reason : string;
  pl_previous_reconcile_id : option string;
  pl_current_reconcile_id : option string;
  pl_fence_token : option string;
  pl_checks : list (string * bool);
  pl_blockers : list string;
}.

#[export] Instance eta_DispatchPlan : Eta DispatchPlan := λ r,
  mkDispatchPlan (pl_task_id r) (pl_created_at r) (pl_action r) (pl_candidate_ready r)
    (pl_transport_enabled r) (pl_would_dispatch r) (pl_reason r)
    (pl_previous_reconcile_id r) (pl_current_reconcile_id r) (pl_fence_token r)
    (pl_checks r) (pl_blockers r).

(** A check that appends its blocker when it fails. *)
Record gate := mkGate { g_name : string; g_pass : bool; g_blocker : string }.

Definition gates_checks (gs : list gate) : list (string * bool) :=
  (λ g, (g_name g, g_pass g)) <$> gs.

Definition gates_blockers (gs : list gate) : list string :=
  g_blocker <$> List.filter (λ g, negb (g_pass g)) gs.

Lemma blockers_nil gs : gates_blockers gs = [] ↔ ∀ g, g ∈ gs → g_pass g = true.
Proof.
  unfold gates_blockers. induction gs as [|g gs IH]; cbn.
  - split; [|done]. intros _ g Hg. by apply not_elem_of_nil in Hg.
  - destruct (g_pass g) eqn:Hp; cbn.
    + rewrite IH. split; [|intros H x Hx; apply H; by right].
      intros H x [-> |Hx]%elem_of_cons; auto.
    + split; [done|]. intros H. rewrite (H g) in Hp; [done|left].
Qed.

(** Gates that block nothing have passed, one by one. *)
Lemma gates_pass gs : gates_blockers gs = [] → Forall (λ g, g_pass g = true) gs.
Proof. intros H. apply Forall_forall. by apply blockers_nil. Qed.

(** [0.0 <= now - t <= max(1.0, limit)] *)
Definition recent (now t limit : float) : bool :=
  fle (of_Z 0) (fsub now t) && fle (fsub now t) (fmax (of_Z 1) limit).

(** [now - t >= max(0.0, limit)] *)
Definition quiet (now t limit : float) : bool := fle (fmax (of_Z 0) limit) (fsub now t).

Definition _action_from_recommendation (r : RecoveryRecommendation) : DispatchAction.t :=
  if String.eqb (rr_action r) "none" then DispatchAction.NONE
  else if String.eqb (rr_action r) "observe" then DispatchAction.OBSERVE
  else if String.eqb (rr_action r) "human_decision" then DispatchAction.HUMAN_DECISION
  else if String.eqb (rr_action r) "reconcile_then_continue"
  then DispatchAction.CONTINUE_CURRENT_WORKER
  else DispatchAction.HUMAN_DECISION.

Section Plan.
Context {tables : UnicodeTables} {check : NetlocCheck} {numbers : Numbers} {fmt : Formatting}.

Definition record_gates (task : TaskRecord) (previous current : option ReconciliationRecord)
    (policy : DispatchPolicy) (now : float) : list gate :=
  [mkGate "recovery_budget_available"
     (tr_recovery_attempts task <? tr_max_recovery_attempts task)
     "recovery attempt budget is exhausted";
   mkGate "current_reconciliation_present" (negb (bool_decide (current = None)))
     "no current reconciliation record"] ++
  match current with
  | None => []
  | Some c =>
      [mkGate "current_reconciliation_fresh"
         (recent now (rc_created_at c) (dp_max_reconciliation_age_s policy))
         "current reconciliation record is stale or from the future";
       mkGate "current_worker_matches_task"
         (bool_decide (rc_current_worker_id c = tr_current_worker_id task))
         "current worker changed after task registration/reconciliation";
       mkGate "recovery_state_allowed"
         (String.eqb (rc_state c) (SupervisorState.value SupervisorState.SUSPECT) ||
          String.eqb (rc_state c) (SupervisorState.value SupervisorState.RECONCILING))
         ("current state " +:+ rc_state c +:+ " is not a recoverable stalled state")]
  end ++
  [mkGate "previous_reconciliation_present" (negb (bool_decide (previous = None)))
     "two-phase dispatch requires a previous reconciliation record";
   mkGate "distinct_reconciliation_samples"
     (match previous, current with
      | Some p, Some c => negb (String.eqb (rc_reconcile_id p) (rc_reconcile_id c))
      | _, _ => false
      end) "dispatch requires two distinct reconciliation samples";
   mkGate "previous_reconciliation_fresh"
     (match previous with
      | Some p => recent now (rc_created_at p) (dp_max_reconciliation_age_s policy)
      | None => false
      end) "previous reconciliation record is stale or from the future";
   mkGate "reconciliation_separation_sufficient"
     (match previous, current with
      | Some p, Some c =>
          fle (fmax (of_Z 0) (dp_min_reconciliation_separation_s policy))
            (fsub (rc_created_at c) (rc_created_at p))
      | _, _ => false
      end) "reconciliation samples are too close together to prove stability";
   mkGate "fence_stable"
     (match previous, current with Some p, Some c => fence_matches p c | _, _ => false end)
     "reconciliation fence changed between samples"].

Definition is_empty (d : dict) : bool := match d with [] => true | _ => false end.

Definition lsm_gates (task : TaskRecord) (lsm : dict) : res (list gate) :=
  in_flight ← json_int_or_0 (dget "in_flight_calls" lsm);
  jobs ← json_int_or_0 (dget "active_jobs" lsm);
  Ok [mkGate "lsm_present"
        (negb (is_empty lsm) && jeq_opt (dget "session_id" lsm) (tr_lsm_session_id task))
        "durable LSM session evidence is missing or belongs to a different session";
      mkGate "lsm_session_active" (jeq_str (dget "session_status" lsm) "active")
        "durable LSM session is not active";
      mkGate "lsm_no_inflight_calls" (in_flight =? 0) "LSM has an in-flight tool call";
      mkGate "lsm_no_active_jobs" (jobs =? 0) "LSM has a tracked active job";
      mkGate "lsm_no_continuation_pending" (negb (jtruthy (dget "continuation_pending" lsm)))
        "LSM continuation is already pending"].

Definition worker_gates (workspace task_snapshot : dict) : list gate :=
  [mkGate "workspace_exists" (jtruthy (dget "cwd_exists" workspace))
     "registered workspace does not exist";
   mkGate "registered_worker_active"
     (jeq_str (dget "registered_worker_status" task_snapshot) "active")
     "registered current worker is not marked active";
   mkGate "registered_worker_url_present" (jtruthy (dget "registered_worker_url" task_snapshot))
     "registered current worker URL is missing from the reconciliation fence"].

(** [x is not None and f(float(x))] *)
Definition on_float (j : json) (f : float → bool) : res bool :=
  match j with
  | JNull => Ok false
  | _ => x ← json_float j; Ok (f x)
  end.

Definition urls_match (browser task_snapshot : dict) : res bool :=
  let registered := dget "registered_worker_url" task_snapshot in
  if negb (jtruthy registered) then Ok false else
  let url := dget "url" browser in
  a ← _normalize_url (if jtruthy url then json_str url else "");
  b ← _normalize_url (json_str registered);
  Ok (String.eqb a b).

Definition browser_gates (task : TaskRecord) (browser task_snapshot : dict)
    (policy : DispatchPolicy) (now : float) : res (list gate) :=
  url_ok ← urls_match browser task_snapshot;
  fresh ← on_float (dget "observed_at" browser)
            (λ t, recent now t (dp_max_browser_observation_age_s policy));
  dom_quiet ← on_float (dget "last_dom_change_at" browser)
                (λ t, quiet now t (dp_min_dom_quiet_s policy));
  Ok [mkGate "browser_worker_observed"
        (jeq_opt (dget "worker_id" browser) (tr_current_worker_id task))
        "browser observation does not belong to the current worker";
      mkGate "browser_url_matches_registered" url_ok
        "browser URL does not exactly match the registered worker URL";
      mkGate "browser_observation_fresh" fresh
        "browser observation is too stale for recovery dispatch";
      mkGate "browser_not_generating" (negb (jis_true (dget "generating" browser)))
        "browser still reports active generation";
      mkGate "composer_available"
        (jis_true (dget "composer_present" browser) ||
         jis_true (dget "send_button_ready" browser))
        "no positive composer-presence evidence";
      mkGate "dom_quiet_enough" dom_quiet
        "DOM/UI has not been stably quiet for the required interval"].

Definition network_gates (network : dict) (policy : DispatchPolicy) (now : float)
    : res (list gate) :=
  if is_empty network then Ok [mkGate "network_quiet_enough" true ""] else
  fresh ← on_float (dget "observed_at" network)
            (λ t, recent now t (dp_max_network_observation_age_s policy));
  net_quiet ← on_float (dget "quiet_since_at" network)
                (λ t, quiet now t (dp_min_network_quiet_s policy));
  Ok [mkGate "network_observation_fresh" fresh
        "network observation is too stale for recovery dispatch";
      mkGate "network_quiet_enough" net_quiet
        "network lifecycle is not stably quiet for the required interval"].

Definition plan_reason (ready transport : bool) (action : DispatchAction.t) : string :=
  if ready && negb transport then
    "all deterministic preconditions are satisfied, but transport is disabled for this plan; dry-run only"
  else if ready then "all deterministic preconditions are satisfied"
  else if bool_decide (action = DispatchAction.TAKEOVER_NEW_WORKER) then
    "takeover requires a separately bound replacement worker and remains disabled"
  else "recovery dispatch is blocked by one or more deterministic preconditions".

Definition build_dispatch_plan (task : TaskRecord) (recommendation : RecoveryRecommendation)
    (previous current : option ReconciliationRecord) (policy : DispatchPolicy) (now : float)
    : res DispatchPlan :=
  let action := _action_from_recommendation recommendation in
  let plan action ready would reason checks blockers :=
    mkDispatchPlan (tr_task_id task) now action ready (dp_transport_enabled policy) would reason
      (rc_reconcile_id <$> previous) (rc_reconcile_id <$> current) (rc_fence_token <$> current)
      checks blockers in
  match action with
  | DispatchAction.NONE | DispatchAction.OBSERVE | DispatchAction.HUMAN_DECISION =>
      Ok (plan action false false (rr_reason recommendation) []
            ["recovery recommendation does not request a continue/takeover action"])
  | _ =>
      let snapshot := match current with Some c => rc_snapshot c | None => [] end in
      let task_snapshot := get_dict "task" snapshot in
      let browser := get_dict "browser" snapshot in
      lsm ← lsm_gates task (get_dict "lsm" snapshot);
      browser_checks ←
        (if is_empty browser then
           Ok [mkGate "browser_worker_observed" false
                 "current browser worker is not positively observed; automatic takeover requires a separate explicit new-worker binding protocol"]
         else browser_gates task browser task_snapshot policy now);
      network ← network_gates (get_dict "network" snapshot) policy now;
      let action := if is_empty browser then DispatchAction.TAKEOVER_NEW_WORKER else action in
      let gates := record_gates task previous current policy now ++ lsm ++
                   worker_gates (get_dict "workspace" snapshot) task_snapshot ++
                   browser_checks ++ network in
      let blockers := gates_blockers gates in
      let ready := match blockers with [] => true | _ => false end &&
                   bool_decide (action = DispatchAction.CONTINUE_CURRENT_WORKER) in
      Ok (plan action ready (ready && dp_transport_enabled policy)
            (plan_reason ready (dp_transport_enabled policy) action)
            (gates_checks gates) blockers)
  end.

End Plan.

(** The generic executor stays disabled. *)
Definition execute_dispatch (plan : DispatchPlan) : res unit :=
  raise DispatchDisabled
    "generic recovery dispatch is disabled; use dispatch-plan or the explicit fenced executor".

(** * The guarantees of a dispatch plan

    A plan is ready exactly when all its checks passed; a ready plan rests on two fresh,
    distinct, separated reconciliation records with the same fence; and when these records
    were built by [build_reconciliation_record], the observed world was idle. *)

Lemma checks_all gs : (∀ n b, (n, b) ∈ gates_checks gs → b = true) ↔ gates_blockers gs = [].
Proof.
  rewrite blockers_nil. unfold gates_checks. split.
  - intros H g Hg. apply (H (g_name g)). by apply (list_elem_of_fmap_2 (λ g, (g_name g, g_pass g))).
  - intros H n b (g & [= -> ->] & Hg)%list_elem_of_fmap. auto.
Qed.

Section Plan.
Context {tables : UnicodeTables} {check : NetlocCheck} {numbers : Numbers} {fmt : Formatting}.

(** The gates of a plan that asks for a dispatch. *)
Definition plan_gates (task : TaskRecord) (previous current : option ReconciliationRecord)
    (policy : DispatchPolicy) (now : float) (gs : list gate) : Prop :=
  let snapshot := match current with Some c => rc_snapshot c | None => [] end in
  let browser := get_dict "browser" snapshot in
  ∃ lsm br net,
    lsm_gates task (get_dict "lsm" snapshot) = Ok lsm ∧
    (is_empty browser = false →
       browser_gates task browser (get_dict "task" snapshot) policy now = Ok br) ∧
    network_gates (get_dict "network" snapshot) policy now = Ok net ∧
    gs = record_gates task previous current policy now ++ lsm ++
         worker_gates (get_dict "workspace" snapshot) (get_dict "task" snapshot) ++ br ++ net.

Lemma plan_shape task r previous current policy now plan :
  build_dispatch_plan task r previous current policy now = Ok plan →
  pl_transport_enabled plan = dp_transport_enabled policy ∧
  pl_would_dispatch plan = pl_candidate_ready plan && pl_transport_enabled plan ∧
  (pl_candidate_ready plan = true →
     pl_action plan = DispatchAction.CONTINUE_CURRENT_WORKER ∧
     rr_action r = "reconcile_then_continue" ∧
     is_empty (get_dict "browser"
       match current with Some c => rc_snapshot c | None => [] end) = false) ∧
  (rr_action r = "reconcile_then_continue" →
     ∃ gs, plan_gates task previous current policy now gs ∧
       pl_checks plan = gates_checks gs ∧ pl_blockers plan = gates_blockers gs ∧
       pl_candidate_ready plan =
         match gates_blockers gs with [] => true | _ => false end &&
         bool_decide (pl_action plan = DispatchAction.CONTINUE_CURRENT_WORKER)).
Proof.
  unfold build_dispatch_plan, _action_from_recommendation. cbv zeta. intros Hp.
  destruct (String.eqb_spec (rr_action r) "none") as [E|_].
  { injection Hp as <-. rewrite E. by split_and!. }
  destruct (String.eqb_spec (rr_action r) "observe") as [E|_].
  { injection Hp as <-. rewrite E. by split_and!. }
  destruct (String.eqb_spec (rr_action r) "human_decision") as [E|_].
  { injection Hp as <-. rewrite E. by split_and!. }
  destruct (String.eqb_spec (rr_action r) "reconcile_then_continue") as [E|];
    [|injection Hp as <-; by split_and!].
  apply bind_Ok_inv in Hp as (lsm & Hl & Hp). apply bind_Ok_inv in Hp as (br & Hb & Hp).
  apply bind_Ok_inv in Hp as (net & Hn & [= <-]). cbn [pl_transport_enabled pl_would_dispatch
    pl_candidate_ready pl_action pl_checks pl_blockers].
  split_and!; [done|done| |].
  - intros Hr. bool_to_prop. destruct (is_empty _); [done|]. by split_and!.
  - intros _. set (snap := match current with Some c => rc_snapshot c | None => [] end) in *.
    exists (record_gates task previous current policy now ++ lsm ++
      worker_gates (get_dict "workspace" snap) (get_dict "task" snap) ++ br ++ net).
    split; [|split; [|split]; reflexivity]. exists lsm, br, net. split; [exact Hl|]. split; [|split; [exact Hn|reflexivity]].
    intros He. fold snap in He. by rewrite He in Hb.
Qed.

Lemma ready_gates task r previous current policy now plan :
  build_dispatch_plan task r previous current policy now = Ok plan →
  pl_candidate_ready plan = true →
  ∃ gs, plan_gates task previous current policy now gs ∧ ∀ g, g ∈ gs → g_pass g = true.
Proof.
  intros Hp Hr. destruct (plan_shape _ _ _ _ _ _ _ Hp) as (_ & _ & Hact & Hg).
  destruct (Hact Hr) as (_ & E & _). destruct (Hg E) as (gs & Hgs & _ & _ & Hready).
  exists gs. split; [done|]. apply blockers_nil. rewrite Hr in Hready.
  by destruct (gates_blockers gs).
Qed.

(** The records behind a ready plan. *)
Lemma ready_records task r previous current policy now plan :
  build_dispatch_plan task r previous current policy now = Ok plan →
  pl_candidate_ready plan = true →
  ∃ p c, previous = Some p ∧ current = Some c ∧
    ∀ g, g ∈ record_gates task (Some p) (Some c) policy now → g_pass g = true.
Proof.
  intros Hp Hr. destruct (ready_gates _ _ _ _ _ _ _ Hp Hr)
    as (gs & (lsm & br & net & _ & _ & _ & ->) & Hall).
  assert (∀ g, g ∈ record_gates task previous current policy now → g_pass g = true) as Hrec.
  { intros g Hg. apply Hall, elem_of_app. by left. }
  destruct previous as [p|]; cycle 1.
  { assert (false = true); [|done].
    apply (Hrec (mkGate "previous_reconciliation_present" false
      "two-phase dispatch requires a previous reconciliation record")).
    apply list_elem_of_In. destruct current; cbn; tauto. }
  destruct current as [c|]; cycle 1.
  { assert (false = true); [|done].
    apply (Hrec (mkGate "current_reconciliation_present" false
      "no current reconciliation record")). apply list_elem_of_In. cbn. tauto. }
  eauto.
Qed.

Definition two_phase (p c : ReconciliationRecord) (policy : DispatchPolicy) (now : float)
    : Prop :=
  rc_reconcile_id p ≠ rc_reconcile_id c ∧ fence_matches p c = true ∧
  recent now (rc_created_at p) (dp_max_reconciliation_age_s policy) = true ∧
  recent now (rc_created_at c) (dp_max_reconciliation_age_s policy) = true ∧
  fle (fmax (of_Z 0) (dp_min_reconciliation_separation_s policy))
    (fsub (rc_created_at c) (rc_created_at p)) = true.

Lemma record_gates_pass task p c policy now :
  (∀ g, g ∈ record_gates task (Some p) (Some c) policy now → g_pass g = true) →
  two_phase p c policy now ∧ tr_recovery_attempts task < tr_max_recovery_attempts task ∧
  rc_current_worker_id c = tr_current_worker_id task ∧
  (rc_state c = "SUSPECT" ∨ rc_state c = "RECONCILING").
Proof.
  intros Hall. rewrite <- Forall_forall in Hall. unfold record_gates in Hall. cbn in Hall.
  repeat (apply Forall_cons in Hall as [? Hall]; cbn in *). bool_to_prop.
  match goal with H : _ || _ = true |- _ => apply orb_true_iff in H end.
  unfold two_phase. split_and!; try done.
  - by apply String.eqb_neq.
  - match goal with H : _ ∨ _ |- _ => destruct H as [E|E] end;
      apply String.eqb_eq in E; [by left|by right].
Qed.

(** ** A ready plan on records of an observed world *)

Lemma snapshot_parts (w : world) (digests : Digests) :
  let s := snapshot_of (w_task w) (w_worker w) (w_browser w) (w_network w) (w_lsm w)
             (w_workspace w) in
  get_dict "task" s = task_snapshot (w_task w) (w_worker w) ∧
  get_dict "browser" s = default [] (browser_snapshot <$> w_browser w) ∧
  get_dict "lsm" s = default [] (lsm_snapshot <$> w_lsm w) ∧
  get_dict "workspace" s = default [] (workspace_snapshot <$> w_workspace w).
Proof. destruct w as [t k [b|] [n|] [l|] [x|]]; split_and!; vm_compute; reflexivity. Qed.

Lemma jeq_opt_str x y : jeq_opt (j_of_opt_str x) y = true → x = y.
Proof. destruct x, y; cbn; try done. by intros ->%String.eqb_eq. Qed.

Lemma jeq_str_opt x s : jeq_str (j_of_opt_str x) s = true → x = Some s.
Proof. destruct x; cbn; [|done]. by intros ->%String.eqb_eq. Qed.

Lemma int_field z : json_int_or_0 (JInt z) = Ok z.
Proof. unfold json_int_or_0. cbn. by destruct (Z.eqb_spec z 0) as [->|]. Qed.

(** The LSM session of the task is observed active and idle. *)
Definition lsm_idle (task : TaskRecord) (l : LsmObservation) : Prop :=
  lo_session_id l = tr_lsm_session_id task ∧ lo_session_status l = Some "active" ∧
  lo_in_flight_calls l = 0 ∧ lo_active_jobs l = 0 ∧ lo_continuation_pending l ≠ Some true.

Lemma lsm_gates_pass task (l : option LsmObservation) gs :
  lsm_gates task (default [] (lsm_snapshot <$> l)) = Ok gs →
  (∀ g, g ∈ gs → g_pass g = true) → ∃ l', l = Some l' ∧ lsm_idle task l'.
Proof.
  unfold lsm_gates. intros Hg Hall. rewrite <- Forall_forall in Hall.
  apply bind_Ok_inv in Hg as (x & Hx & Hg). apply bind_Ok_inv in Hg as (y & Hy & [= <-]).
  repeat (apply Forall_cons in Hall as [? Hall]; cbn in * ).
  destruct l as [l|]; [|done]. cbn in *. rewrite int_field in Hx, Hy.
  injection Hx as <-. injection Hy as <-. exists l. split; [done|].
  repeat match goal with H : g_pass _ = true |- _ => cbn in H end. bool_to_prop.
  unfold lsm_idle. split_and!; try done.
  - by apply jeq_opt_str.
  - by apply jeq_str_opt.
  - intros E. match goal with H : jtruthy _ = false |- _ => by rewrite E in H end.
Qed.

(** The browser shows the current worker's page, not generating. *)
Definition page_idle (task : TaskRecord) (b : BrowserObservation) : Prop :=
  tr_current_worker_id task = Some (bo_worker_id b) ∧ bo_generating b ≠ Some true.

Lemma browser_gates_pass task (b : option BrowserObservation) ts policy now gs :
  is_empty (default [] (browser_snapshot <$> b)) = false →
  browser_gates task (default [] (browser_snapshot <$> b)) ts policy now = Ok gs →
  (∀ g, g ∈ gs → g_pass g = true) → ∃ b', b = Some b' ∧ page_idle task b'.
Proof.
  destruct b as [b|]; [|done]. cbn [fmap option_fmap option_map default]. intros _ Hg Hall.
  rewrite <- Forall_forall in Hall. unfold browser_gates in Hg.
  apply bind_Ok_inv in Hg as (x & _ & Hg). apply bind_Ok_inv in Hg as (y & _ & Hg).
  apply bind_Ok_inv in Hg as (z & _ & [= <-]).
  repeat (apply Forall_cons in Hall as [? Hall]; cbn in * ).
  bool_to_prop. exists b. split; [done|]. split.
  - symmetry. apply jeq_opt_str. by destruct (tr_current_worker_id task).
  - intros E. match goal with H : jis_true _ = false |- _ => by rewrite E in H end.
Qed.

Context {digests : Digests}.

Lemma worker_gates_pass (x : option WorkspaceObservation) task worker :
  (∀ g, g ∈ worker_gates (default [] (workspace_snapshot <$> x)) (task_snapshot task worker) →
     g_pass g = true) →
  (∃ x', x = Some x' ∧ wo_cwd_exists x' = true) ∧
  ∃ k, worker = Some k ∧ tr_current_worker_id task = Some (wr_worker_id k) ∧
       wr_status k = WorkerStatus.ACTIVE.
Proof.
  intros Hall. rewrite <- Forall_forall in Hall. unfold worker_gates in Hall.
  repeat (apply Forall_cons in Hall as [? Hall]; cbn in * ). split.
  - destruct x as [x|]; [|done]. eauto.
  - destruct worker as [k|]; [|done]. case_bool_decide; [|done].
    exists k. split_and!; try done. cbn in *. by destruct (wr_status k).
Qed.

Definition idle_world (task : TaskRecord) (w : world) : Prop :=
  (∃ l, w_lsm w = Some l ∧ lsm_idle task l) ∧
  (∃ b, w_browser w = Some b ∧ page_idle task b) ∧
  (∃ x, w_workspace w = Some x ∧ wo_cwd_exists x = true) ∧
  (∃ k, w_worker w = Some k ∧ tr_current_worker_id (w_task w) = Some (wr_worker_id k) ∧
        wr_status k = WorkerStatus.ACTIVE).

Lemma ready_world task r previous policy now plan u a w t :
  build_dispatch_plan task r previous (Some (record_of u a w t)) policy now = Ok plan →
  pl_candidate_ready plan = true → idle_world task w.
Proof.
  intros Hp Hr. destruct (plan_shape _ _ _ _ _ _ _ Hp) as (_ & _ & Hact & _).
  destruct (Hact Hr) as (_ & _ & Hb). destruct (ready_gates _ _ _ _ _ _ _ Hp Hr)
    as (gs & (lsm & br & net & Hl & Hbr & _ & ->) & Hall).
  specialize (Hbr Hb). cbn [record_of build_reconciliation_record rc_snapshot] in Hl, Hbr, Hb, Hall.
  destruct (snapshot_parts w digests) as (Et & Eb & El & Ew). cbv zeta in *.
  rewrite El in Hl. rewrite Eb, ?Et in Hbr. rewrite Eb in Hb. rewrite Ew, Et in Hall.
  assert (∀ g, g ∈ worker_gates (default [] (workspace_snapshot <$> w_workspace w))
                     (task_snapshot (w_task w) (w_worker w)) → g_pass g = true) as Hwork.
  { intros g Hg. apply Hall. rewrite !elem_of_app. tauto. }
  apply worker_gates_pass in Hwork as [Hws Hwk].
  split; [|split; [|split; [exact Hws|exact Hwk]]].
  - eapply lsm_gates_pass; [exact Hl|]. intros g Hg. apply Hall. rewrite !elem_of_app. tauto.
  - eapply browser_gates_pass; [exact Hb|exact Hbr|]. intros g Hg. apply Hall.
    rewrite !elem_of_app. tauto.
Qed.

(** ** Theorems *)

(** A dispatch plan is consistent: it would dispatch exactly when it is ready and the
    transport is enabled, and for a recommendation to continue it is ready exactly when
    every check passed and the action is still to continue the current worker, each
    failed check being reported by a blocker. *)
Theorem plan_is_consistent task r previous current policy now plan :
  build_dispatch_plan task r previous current policy now = Ok plan →
  pl_would_dispatch plan = pl_candidate_ready plan && dp_transport_enabled policy ∧
  (rr_action r = "reconcile_then_continue" →
     ((∀ n b, (n, b) ∈ pl_checks plan → b = true) ↔ pl_blockers plan = []) ∧
     (pl_candidate_ready plan = true ↔
      pl_blockers plan = [] ∧ pl_action plan = DispatchAction.CONTINUE_CURRENT_WORKER)) ∧
  (rr_action r ≠ "reconcile_then_continue" → pl_candidate_ready plan = false).
Proof.
  intros Hp. destruct (plan_shape _ _ _ _ _ _ _ Hp) as (Ht & Hw & Hact & Hg).
  split_and!; [by rewrite Hw, Ht| |].
  - intros E. destruct (Hg E) as (gs & _ & -> & -> & ->). split; [apply checks_all|].
    rewrite andb_true_iff, bool_decide_eq_true. destruct (gates_blockers gs); naive_solver.
  - intros E. apply not_true_iff_false. intros Hr. by destruct (Hact Hr) as (_ & ? & _).
Qed.

(** Two-phase confirmation: a ready plan rests on two reconciliation records with
    different ids and the same fence, both fresh and far enough apart; the current one
    is for the task's current worker and in a stalled state, and the task has recovery
    budget left. *)
Theorem ready_plan_is_two_phase task r previous current policy now plan :
  build_dispatch_plan task r previous current policy now = Ok plan →
  pl_candidate_ready plan = true →
  ∃ p c, previous = Some p ∧ current = Some c ∧ two_phase p c policy now ∧
    tr_recovery_attempts task < tr_max_recovery_attempts task ∧
    rc_current_worker_id c = tr_current_worker_id task ∧
    (rc_state c = "SUSPECT" ∨ rc_state c = "RECONCILING").
Proof.
  intros Hp Hr. destruct (ready_records _ _ _ _ _ _ _ Hp Hr) as (p & c & -> & -> & Hall).
  exists p, c. split; [done|]. split; [done|]. by apply record_gates_pass.
Qed.

(** A ready plan never competes with live work: when its records were built from
    observed worlds, the current world has the task's LSM session active with no call,
    job or continuation pending, the current worker registered active and its page not
    generating, and the workspace present; and when the digest has no collision, the
    previous world had the same facts. *)
Theorem ready_plan_world_is_idle task r policy now plan u1 a1 w1 t1 u2 a2 w2 t2 :
  build_dispatch_plan task r (Some (record_of u1 a1 w1 t1)) (Some (record_of u2 a2 w2 t2))
    policy now = Ok plan →
  pl_candidate_ready plan = true →
  idle_world task w2 ∧
  ((_digest_json (JObj (material w1)) = _digest_json (JObj (material w2)) →
      material w1 = material w2) → facts w1 = facts w2).
Proof.
  intros Hp Hr. split; [by eapply ready_world|]. intros Hdigest. apply material_facts, Hdigest.
  destruct (ready_records _ _ _ _ _ _ _ Hp Hr) as (p & c & [= <-] & [= <-] & Hall).
  destruct (record_gates_pass _ _ _ _ _ Hall) as [(_ & Hm & _) _].
  unfold fence_matches in Hm. bool_to_prop. by apply String.eqb_eq.
Qed.

End Plan.

(** ** Witnesses: a stalled worker with a quiet page *)

#[local] Existing Instance AsciiTables.
#[local] Existing Instance any_netloc.
#[local] Existing Instance text_digests.

#[local] Instance demo_numbers : Numbers := {|
  int_of_text := λ _, raise ValueError ""; int_of_float := λ _, raise ValueError "";
  float_of_text := λ _, raise ValueError "";
|}.

#[local] Instance plan_formatting : Formatting := {|
  format_f0 := λ _, ""; format_f1 := λ _, ""; json_text := λ _, ""; json_repr := λ _, "";
|}.

Definition quiet_browser : BrowserObservation :=
  mkBrowserObservation "w1" (of_Z 990) (Some "https://chat/c/1") (Some false) (Some true) (Some 0)
    None (Some (of_Z 900)) (Some "sig") [].

Definition quiet_world : world :=
  mkWorld (w_task demo_world)
    (Some (mkWorkerRecord "w1" "task" "https://chat/c/1/" None WorkerStatus.ACTIVE (of_Z 1)
             None None))
    (Some quiet_browser) None (w_lsm demo_world)
    (Some (mkWorkspaceObservation "task" (of_Z 990) "/w" true (Some true) None (Some "abc") None
             (Some false) None [] None [])).

Definition first_record : ReconciliationRecord :=
  record_of "uuid1" demo_assessment quiet_world (of_Z 985).

Definition second_record : ReconciliationRecord :=
  record_of "uuid2" demo_assessment quiet_world (of_Z 992).

Definition continue_advice : RecoveryRecommendation :=
  mkRecoveryRecommendation "task" "reconcile_then_continue" false "stalled" (Some "go") [].

Definition demo_plan : DispatchPlan :=
  match build_dispatch_plan (w_task quiet_world) continue_advice (Some first_record)
          (Some second_record) default_dispatch_policy (of_Z 1000) with
  | Ok plan => plan
  | Err _ => mkDispatchPlan "" (of_Z 0) DispatchAction.NONE false false false "" None None None
               [] []
  end.

Lemma plan_is_consistent_witness :
  pl_would_dispatch demo_plan = false ∧ length (pl_checks demo_plan) = 25%nat.
Proof.
  destruct (plan_is_consistent (w_task quiet_world) continue_advice (Some first_record)
    (Some second_record) default_dispatch_policy (of_Z 1000) demo_plan) as [Hw _].
  - vm_compute. reflexivity.
  - split; [rewrite Hw; vm_compute; reflexivity|vm_compute; reflexivity].
Defined.

Lemma ready_plan_is_two_phase_witness :
  ∃ p c, Some first_record = Some p ∧ Some second_record = Some c ∧
    two_phase p c default_dispatch_policy (of_Z 1000).
Proof.
  destruct (ready_plan_is_two_phase (w_task quiet_world) continue_advice (Some first_record)
    (Some second_record) default_dispatch_policy (of_Z 1000) demo_plan) as (p & c & Hp & Hc & H2 & _).
  - vm_compute. reflexivity.
  - vm_compute. reflexivity.
  - exists p, c. split; [exact Hp|]. split; [exact Hc|exact H2].
Defined.

Lemma ready_plan_world_is_idle_witness : idle_world (w_task quiet_world) quiet_world.
Proof.
  apply (ready_plan_world_is_idle (w_task quiet_world) continue_advice default_dispatch_policy
    (of_Z 1000) demo_plan "uuid1" demo_assessment quiet_world (of_Z 985) "uuid2"
    demo_assessment quiet_world (of_Z 992)).
  - vm_compute. reflexivity.
  - vm_compute. reflexivity.
Defined.
