(* ===== verification/Actions.v ===== *)
(** * actions.py, action_runtime.py and the action attempts of registry.py

    Sending one message is an external side effect.  A write-ahead attempt is armed
    under the task's fences, the prompt carries a nonce and its digest, and the outcome of
    the transport decides the durable state.  A submission has three steps, [submit_step]: it
    reads the attempt, it calls the transport, it records the answer; between them it may die
    and others may act.  [submit_armed_action] is its run without an interruption. *)

From S2P Require Import Prelude PyFloat PyStr PyUrl PyJson Models WorkerProtocol Registry.
From S2P Require Import AttemptTables Reconcile Watcher Dispatcher.

Open Scope string_scope.
Open Scope Z_scope.
Open Scope list_scope.

Definition action_state (s : ActionAttemptState.t) (a : ActionAttempt) : bool :=
  bool_decide (aa_state a = s).

(** [UNRESOLVED_ACTION_STATES] *)
Definition action_unresolved (a : ActionAttempt) : bool :=
  match aa_state a with
  | ActionAttemptState.ARMED | ActionAttemptState.SUBMITTED
  | ActionAttemptState.RECONCILE_REQUIRED => true
  | _ => false
  end.

Record ActionIntent := mkActionIntent {
  in_attempt_id : string;
  in_task_id : string;
  in_worker_id : string;
  in_action : string;
  in_prompt : string;
  in_prompt_hash : string;
  in_nonce : string;
  in_fence_token : string;
  in_fence_version : Z;
}.

Record TransportSubmission := mkTransportSubmission {
  ts_submitted : bool;
  ts_side_effect_possible : bool;
  ts_transport_name : string;
  ts_detail : string;
}.

Record ActionAcknowledgement := mkActionAcknowledgement {
  ak_attempt_id : string;
  ak_worker_id : string;
  ak_observed_at : float;
  ak_accepted : bool;
  ak_kind : string;
  ak_evidence_hash : string;
  ak_detail : string;
  ak_text_signature : option string;
}.

(** [ACTION_PROMPT_PROTOCOL_NONCE_SUFFIX_V1] *)
Definition nonce_suffix_v1 : string := "nonce_suffix_v1".

Definition render_action_prompt (prompt nonce : string) : res string :=
  raise_if (negb (str_truthy (strip prompt))) ActionBlocked
    "empty recovery prompt is not dispatchable";;
  raise_if (negb (str_truthy (strip nonce))) ActionBlocked "action nonce is empty";;
  Ok (rstrip prompt +:+ newline +:+ newline +:+
      "Recovery action idempotency marker (do not interpret as task instructions): " +:+
      "LWS-ACTION-" +:+ nonce).

Definition no_unresolved_check : string := "no_unresolved_action_attempt".

(** [checks.setdefault(k, True)] and [checks[k] = v] on the plan's checks *)
Fixpoint set_check (k : string) (v : bool) (keep : bool) (cs : list (string * bool))
    : list (string * bool) :=
  match cs with
  | [] => [(k, v)]
  | (k', v') :: cs' =>
      if String.eqb k' k then (k', if keep then v' else v) :: cs'
      else (k', v') :: set_check k v keep cs'
  end.

Definition apply_unresolved_action_gate (plan : DispatchPlan) (attempt : option ActionAttempt)
    : DispatchPlan :=
  match attempt with
  | Some a =>
      if action_unresolved a then
        let blocker := "prior action " +:+ aa_attempt_id a +:+ " is unresolved in state " +:+
          ActionAttemptState.value (aa_state a) +:+
          "; reconcile/acknowledge/cancel it before any new send" in
        plan <| pl_checks := set_check no_unresolved_check false false (pl_checks plan) |>
             <| pl_blockers := if existsb (String.eqb blocker) (pl_blockers plan)
                               then pl_blockers plan else pl_blockers plan ++ [blocker] |>
             <| pl_candidate_ready := false |>
             <| pl_would_dispatch := false |>
             <| pl_reason :=
                  "a prior action outcome is unresolved; duplicate dispatch is fenced" |>
      else plan <| pl_checks := set_check no_unresolved_check true true (pl_checks plan) |>
  | None => plan <| pl_checks := set_check no_unresolved_check true true (pl_checks plan) |>
  end.

Section Actions.
Context {digests : Digests}.

Definition prompt_digest (prompt : string) : string := sha256_text prompt.

(** [uuid1] and [uuid2] are the two fresh uuids: the nonce and the attempt id. *)
Definition build_action_attempt (plan : DispatchPlan) (task : TaskRecord) (worker : WorkerRecord)
    (prompt : string) (fence_version : Z) (pre_action_signature : option string)
    (now : float) (uuid1 uuid2 : string) : res ActionAttempt :=
  raise_if (negb (pl_candidate_ready plan)) ActionBlocked
    "dispatch plan is not candidate-ready";;
  raise_if (negb (bool_decide (pl_action plan = DispatchAction.CONTINUE_CURRENT_WORKER)))
    ActionBlocked "unsupported action for current-worker adapter";;
  raise_if (negb (opt_truthy (pl_fence_token plan))) ActionBlocked
    "dispatch plan has no reconciliation fence token";;
  raise_if (negb (bool_decide (tr_current_worker_id task = Some (wr_worker_id worker))))
    ActionBlocked "worker is no longer the task's current worker";;
  raise_if (negb (bool_decide (wr_status worker = WorkerStatus.ACTIVE))) ActionBlocked
    "current worker is not active";;
  raise_if (negb (str_truthy (strip prompt))) ActionBlocked
    "empty recovery prompt is not dispatchable";;
  wire_prompt ← render_action_prompt prompt uuid1;
  Ok (mkActionAttempt ("act_" +:+ str_take 16 uuid2) (tr_task_id task) (wr_worker_id worker)
        (DispatchAction.value (pl_action plan)) (default "" (pl_fence_token plan)) fence_version
        (prompt_digest wire_prompt) uuid1 ActionAttemptState.ARMED now now
        pre_action_signature None None None None None None
        [("previous_reconcile_id", j_of_opt_str (pl_previous_reconcile_id plan));
         ("current_reconcile_id", j_of_opt_str (pl_current_reconcile_id plan));
         ("prompt_protocol", JStr nonce_suffix_v1)]).

Definition intent_from_attempt `{Formatting} (a : ActionAttempt) (prompt : string)
    : res ActionIntent :=
  raise_if (negb (action_state ActionAttemptState.ARMED a)) ActionBlocked
    "attempt is not ARMED";;
  let declared := dget "prompt_protocol" (aa_metadata a) in
  let protocol := if jtruthy declared then json_str declared else "" in
  wire_prompt ←
    (if String.eqb protocol nonce_suffix_v1 then render_action_prompt prompt (aa_nonce a)
     else if negb (str_truthy protocol) then Ok prompt
     else raise ActionBlocked "unsupported action prompt protocol");
  let digest := prompt_digest wire_prompt in
  raise_if (negb (String.eqb digest (aa_prompt_hash a))) ActionBlocked
    "prompt does not match the durable armed prompt hash";;
  Ok (mkActionIntent (aa_attempt_id a) (aa_task_id a) (aa_worker_id a) (aa_action a)
        wire_prompt digest (aa_nonce a) (aa_fence_token a) (aa_fence_version a)).

End Actions.

Definition validate_acknowledgement (a : ActionAttempt) (ack : ActionAcknowledgement)
    : res unit :=
  raise_if (negb (action_unresolved a)) ActionBlocked "attempt is already terminal";;
  raise_if (negb (String.eqb (ak_attempt_id ack) (aa_attempt_id a))) ActionBlocked
    "acknowledgement attempt id does not match";;
  raise_if (negb (String.eqb (ak_worker_id ack) (aa_worker_id a))) ActionBlocked
    "acknowledgement belongs to a different worker";;
  raise_if (negb (ak_accepted ack)) ActionBlocked
    "negative acknowledgement cannot mark an action accepted";;
  raise_if (flt (ak_observed_at ack) (aa_created_at a)) ActionBlocked
    "acknowledgement predates the armed action";;
  raise_if (negb (str_truthy (strip (ak_kind ack))) ||
            negb (str_truthy (strip (ak_evidence_hash ack)))) ActionBlocked
    "acknowledgement requires positive evidence kind/hash".

(** ** The durable table *)

(** The rows of [action_attempts]; [idx_action_attempts_one_unresolved] is over the
    unresolved states. *)
#[export] Instance action_row : AttemptRow ActionAttempt := {|
  row_id := aa_attempt_id; row_task := aa_task_id; row_open := action_unresolved;
|}.

Definition store_action (r : Registry) (a : ActionAttempt) : res Registry :=
  real_not_null (aa_updated_at a);;
  m ← put_row (rg_actions r) a;
  Ok (r <| rg_actions := m |>).

(** The [INSERT INTO action_attempts]. *)
Definition insert_action (r : Registry) (a : ActionAttempt) : res Registry :=
  raise_if (bool_decide (is_Some (rg_actions r !! aa_attempt_id a))) IntegrityError
    "UNIQUE constraint failed: action_attempts.attempt_id";;
  real_not_null (aa_created_at a);;
  store_action r a.

Definition unresolved_action_attempt (r : Registry) (task_id : string)
    : res (option ActionAttempt) :=
  get_task r task_id ≫= λ _,
  Ok (head (order_desc aa_created_at (open_rows (rg_actions r) task_id))).

Definition record_action_attempt (r : Registry) (a : ActionAttempt) : res Registry :=
  get_task r (aa_task_id a) ≫= λ _,
  worker ← get_worker r (aa_worker_id a);
  raise_if (negb (String.eqb (wr_task_id worker) (aa_task_id a))) ValueError
    "action attempt worker belongs to a different task";;
  unresolved ← unresolved_action_attempt r (aa_task_id a);
  raise_if (match unresolved with
            | Some u => negb (String.eqb (aa_attempt_id u) (aa_attempt_id a))
            | None => false
            end) RuntimeError "task already has unresolved action";;
  insert_action r a.

Definition task_terminal (t : TaskRecord) : bool :=
  bool_decide (tr_state t = SupervisorState.COMPLETED) ||
  bool_decide (tr_state t = SupervisorState.ABANDONED).

(** The worker of an attempt is the task's active current worker, and nothing is
    unresolved for the task. *)
Definition check_current_worker (r : Registry) (task : TaskRecord) (a : ActionAttempt)
    (message : string) : res unit :=
  worker ← get_worker r (aa_worker_id a);
  raise_if (negb (String.eqb (wr_task_id worker) (aa_task_id a))) ValueError
    "action attempt worker belongs to a different task";;
  raise_if (negb (bool_decide (tr_current_worker_id task = Some (aa_worker_id a))) ||
            negb (bool_decide (wr_status worker = WorkerStatus.ACTIVE))) RuntimeError message;;
  raise_if (match open_rows (rg_actions r) (aa_task_id a) with
            | [] => false | _ => true end) RuntimeError "task already has unresolved action".

Definition record_current_worker_action_attempt (r : Registry) (a : ActionAttempt)
    : res Registry :=
  raise_if (negb (action_state ActionAttemptState.ARMED a)) ValueError
    "current-worker action must be ARMED before durable recording";;
  task ← get_task r (aa_task_id a);
  raise_if (task_terminal task) RuntimeError "terminal task cannot arm a current-worker action";;
  check_current_worker r task a "current-worker action worker is no longer authoritative";;
  insert_action r a.

Definition record_recovery_action_attempt (r : Registry) (a : ActionAttempt) : res Registry :=
  raise_if (negb (action_state ActionAttemptState.ARMED a)) ValueError
    "recovery action must be ARMED before durable recording";;
  task ← get_task r (aa_task_id a);
  raise_if (task_terminal task) RuntimeError "terminal task cannot arm a recovery action";;
  raise_if (tr_max_recovery_attempts task <=? tr_recovery_attempts task) RuntimeError
    "recovery attempt budget is exhausted";;
  check_current_worker r task a "recovery action worker is no longer the active current worker";;
  r ← insert_action r a;
  Ok (r <| rg_tasks := <[aa_task_id a :=
             task <| tr_recovery_attempts := tr_recovery_attempts task + 1 |>
                  <| tr_updated_at := aa_created_at a |>]> (rg_tasks r) |>).

Definition _replace_action_attempt (r : Registry) (a : ActionAttempt)
    : res (Registry * ActionAttempt) :=
  get_action_attempt r (aa_attempt_id a) ≫= λ _,
  r' ← store_action r a;
  a' ← get_action_attempt r' (aa_attempt_id a);
  Ok (r', a').

Definition mark_action_submitted (r : Registry) (attempt_id transport_name : string)
    (now : float) : res (Registry * ActionAttempt) :=
  a ← get_action_attempt r attempt_id;
  raise_if (negb (action_state ActionAttemptState.ARMED a)) RuntimeError "action is not ARMED";;
  _replace_action_attempt r
    (a <| aa_state := ActionAttemptState.SUBMITTED |>
       <| aa_transport_name := Some transport_name |>
       <| aa_submitted_at := Some now |> <| aa_updated_at := now |>).

(** [transport_name or attempt.transport_name] *)
Definition or_name (name old : option string) : option string :=
  if opt_truthy name then name else old.

Definition resolve_action (s : ActionAttemptState.t) (r : Registry) (attempt_id : string)
    (error : string) (transport_name : option string) (ts : float)
    : res (Registry * ActionAttempt) :=
  a ← get_action_attempt r attempt_id;
  raise_if (negb (action_unresolved a)) RuntimeError "action is already terminal";;
  _replace_action_attempt r
    (a <| aa_state := s |> <| aa_transport_name := or_name transport_name (aa_transport_name a) |>
       <| aa_last_error := Some (str_take 1000 error) |> <| aa_updated_at := ts |>).

Definition mark_action_reconcile_required (r : Registry) (attempt_id error : string)
    (transport_name : option string) (ts : float) : res (Registry * ActionAttempt) :=
  resolve_action ActionAttemptState.RECONCILE_REQUIRED r attempt_id error transport_name ts.

Definition fail_action_attempt (r : Registry) (attempt_id error : string)
    (transport_name : option string) (ts : float) : res (Registry * ActionAttempt) :=
  resolve_action ActionAttemptState.FAILED r attempt_id error transport_name ts.

Definition cancel_action_attempt (r : Registry) (attempt_id reason : string) (ts : float)
    : res (Registry * ActionAttempt) :=
  resolve_action ActionAttemptState.CANCELLED r attempt_id reason None ts.

Definition acknowledge_action (r : Registry) (ack : ActionAcknowledgement)
    : res (Registry * ActionAttempt) :=
  a ← get_action_attempt r (ak_attempt_id ack);
  validate_acknowledgement a ack;;
  let a := a <| aa_state := ActionAttemptState.ACKNOWLEDGED |>
             <| aa_acknowledged_at := Some (ak_observed_at ack) |>
             <| aa_acknowledgement_kind := Some (ak_kind ack) |>
             <| aa_acknowledgement_hash := Some (ak_evidence_hash ack) |> in
  let a := match truthy_text (ak_text_signature ack) with
           | Some s => a <| aa_metadata := dset "ack_uia_text_signature" (JStr s) (aa_metadata a) |>
           | None => a
           end in
  _replace_action_attempt r
    (a <| aa_last_error := None |> <| aa_updated_at := ak_observed_at ack |>).

Definition record_action_ack_browser_signature (r : Registry)
    (attempt_id message_signature : string) : res (Registry * ActionAttempt) :=
  let signature := strip message_signature in
  raise_if (negb (str_truthy signature)) ValueError "message_signature must be non-empty";;
  a ← get_action_attempt r attempt_id;
  raise_if (negb (action_state ActionAttemptState.ACKNOWLEDGED a)) RuntimeError
    "browser acknowledgement signature requires ACKNOWLEDGED action";;
  _replace_action_attempt r
    (a <| aa_metadata := dset "ack_browser_signature" (JStr signature) (aa_metadata a) |>).

(** ** Submission *)

(** What [transport.submit(intent)] does: return, raise [ActionTransportDisabled], or
    raise anything else (its class name and text). *)
Inductive transport_outcome :=
  | Returned (result : TransportSubmission)
  | TransportDisabled (message : string)
  | TransportRaised (class_name message : string).

Record ActionTransport := mkActionTransport {
  tp_name : string;
  tp_submit : ActionIntent → transport_outcome;
}.

(** [DisabledActionTransport] *)
Definition disabled_transport : ActionTransport :=
  mkActionTransport "disabled" (λ intent, TransportDisabled
    ("no action transport is enabled for attempt " +:+ in_attempt_id intent +:+
     "; dry-run only")).

Record SubmitOutcome := mkSubmitOutcome {
  so_attempt_id : string;
  so_state : string;
  so_submitted : bool;
  so_side_effect_possible : bool;
  so_transport_name : option string;
  so_detail : string;
}.

(** [x or default] of a text *)
Definition or_text (x d : string) : string := if str_truthy x then x else d.

(** What the store keeps of the outcome of the transport [name]; [now] is the clock. *)
Definition record_submission (r : Registry) (attempt_id name : string) (out : transport_outcome)
    (now : float) : res (Registry * SubmitOutcome) :=
  match out with
  | TransportDisabled message => raise ActionTransportDisabled message
  | TransportRaised class_name message =>
      '(r', updated) ← mark_action_reconcile_required r attempt_id
        ("transport raised " +:+ class_name +:+ ": " +:+ message) (Some name) now;
      Ok (r', mkSubmitOutcome attempt_id (ActionAttemptState.value (aa_state updated)) false true
                (aa_transport_name updated)
                (or_text (default "" (aa_last_error updated)) "transport outcome ambiguous"))
  | Returned result =>
      if ts_submitted result then
        '(r', updated) ← mark_action_submitted r attempt_id (ts_transport_name result) now;
        Ok (r', mkSubmitOutcome attempt_id (ActionAttemptState.value (aa_state updated)) true true
                  (Some (ts_transport_name result)) (ts_detail result))
      else if ts_side_effect_possible result then
        '(r', updated) ← mark_action_reconcile_required r attempt_id
          (or_text (ts_detail result)
             "transport could not prove whether the side effect occurred")
          (Some (ts_transport_name result)) now;
        Ok (r', mkSubmitOutcome attempt_id (ActionAttemptState.value (aa_state updated)) false true
                  (Some (ts_transport_name result)) (ts_detail result))
      else
        '(r', updated) ← fail_action_attempt r attempt_id
          (or_text (ts_detail result) "transport proved no side effect occurred")
          (Some (ts_transport_name result)) now;
        Ok (r', mkSubmitOutcome attempt_id (ActionAttemptState.value (aa_state updated)) false false
                  (Some (ts_transport_name result)) (ts_detail result))
  end.

(** The function has three steps: it reads the attempt, it calls the transport, and it records
    the outcome.  Other calls may come between two of them, and the process may die there. *)
Inductive submission_phase :=
  | Entered
  | Intended (intent : ActionIntent)
  | Answered (out : transport_outcome).

Record submission := mkSubmission {
  sb_attempt_id : string;
  sb_prompt : string;
  sb_transport : ActionTransport;
  sb_phase : submission_phase;
}.

#[export] Instance eta_submission : Eta submission := λ s,
  mkSubmission (sb_attempt_id s) (sb_prompt s) (sb_transport s) (sb_phase s).

(** A call of the transport for an attempt, with its answer. *)
Record sending := mkSending {
  sd_attempt_id : string;
  sd_intent : ActionIntent;
  sd_outcome : transport_outcome;
}.

Definition submit_step `{Digests, Formatting} (now : float) (r : Registry) (s : submission)
    : Registry * list sending * (submission + res SubmitOutcome) :=
  let id := sb_attempt_id s in
  let transport := sb_transport s in
  match sb_phase s with
  | Entered =>
      match attempt ← get_action_attempt r id; intent_from_attempt attempt (sb_prompt s) with
      | Ok intent => (r, [], inl (s <| sb_phase := Intended intent |>))
      | Err e => (r, [], inr (Err e))
      end
  | Intended intent =>
      let out := tp_submit transport intent in
      (r, [mkSending id intent out], inl (s <| sb_phase := Answered out |>))
  | Answered out =>
      match record_submission r id (tp_name transport) out now with
      | Ok (r', outcome) => (r', [], inr (Ok outcome))
      | Err e => (r, [], inr (Err e))
      end
  end.

(** The steps with nothing in between; there are three of them. *)
Fixpoint finish_submission `{Digests, Formatting} (fuel : nat) (now : float) (r : Registry)
    (s : submission) : res (Registry * SubmitOutcome) :=
  match fuel, submit_step now r s with
  | S fuel, (r', _, inl s') => finish_submission fuel now r' s'
  | S _, (r', _, inr outcome) => o ← outcome; Ok (r', o)
  | O, _ => raise RuntimeError "the submission has more steps"
  end.

Definition submit_armed_action `{Digests, Formatting} (r : Registry) (attempt_id prompt : string)
    (transport : ActionTransport) (now : float) : res (Registry * SubmitOutcome) :=
  finish_submission 3 now r (mkSubmission attempt_id prompt transport Entered).

Definition require_no_unresolved_action (r : Registry) (task_id : string) : res unit :=
  unresolved ← unresolved_action_attempt r task_id;
  raise_if (match unresolved with Some _ => true | None => false end) ActionBlocked
    "task has unresolved action; reconcile or cancel it before any new send".
