(* ===== verification/ActionTheorems.v ===== *)
(** * The guarantees of the action attempts

    Over any sequence of registry calls a task has at most one unresolved attempt, a
    resolved attempt is final, the recovery budget is never exceeded.  Over any interleaving
    of submissions that may die between any two of their steps, each execution uses the
    transport at most once, and none that starts after an outcome was recorded uses it. *)

From S2P Require Import Prelude PyFloat PyStr PyUrl PyJson Models WorkerProtocol Registry.
From S2P Require Import AttemptTables Reconcile Watcher Dispatcher Runs Actions.

Open Scope string_scope.
Open Scope Z_scope.
Open Scope list_scope.

Inductive action_call :=
  | ARecord (a : ActionAttempt)
  | ACurrent (a : ActionAttempt)
  | ARecovery (a : ActionAttempt)
  (** the record of what a transport answered *)
  | AOutcome (attempt_id name : string) (out : transport_outcome) (now : float)
  | AReconcile (attempt_id error : string) (transport_name : option string) (now : float)
  | AFail (attempt_id error : string) (transport_name : option string) (now : float)
  | ACancel (attempt_id reason : string) (now : float)
  | AAcknowledge (ack : ActionAcknowledgement)
  | ASignature (attempt_id message_signature : string)
  (** changes of the other components: the workers, and a task's state and worker *)
  | AWorkers (workers : gmap string WorkerRecord)
  | ATask (task_id : string) (state : SupervisorState.t) (current : option string).

Section Actions.
Context {digests : Digests} {fmt : Formatting}.

Definition perform (r : Registry) (c : action_call) : res Registry :=
  match c with
  | ARecord a => record_action_attempt r a
  | ACurrent a => record_current_worker_action_attempt r a
  | ARecovery a => record_recovery_action_attempt r a
  | AOutcome id name out now => x ← record_submission r id name out now; Ok x.1
  | AReconcile id e t now => x ← mark_action_reconcile_required r id e t now; Ok x.1
  | AFail id e t now => x ← fail_action_attempt r id e t now; Ok x.1
  | ACancel id e now => x ← cancel_action_attempt r id e now; Ok x.1
  | AAcknowledge ack => x ← acknowledge_action r ack; Ok x.1
  | ASignature id s => x ← record_action_ack_browser_signature r id s; Ok x.1
  | AWorkers ws => Ok (r <| rg_workers := ws |>)
  | ATask id st cur =>
      task ← get_task r id;
      Ok (r <| rg_tasks := <[id := task <| tr_state := st |> <| tr_current_worker_id := cur |>]>
                             (rg_tasks r) |>)
  end.

Definition perform_or_stay (r : Registry) (c : action_call) : Registry :=
  match perform r c with Ok r' => r' | Err _ => r end.

Definition perform_all (r : Registry) (calls : list action_call) : Registry :=
  foldl perform_or_stay r calls.

(** ** The table invariant *)

Definition acts_ok (r : Registry) : Prop := table_ok (rg_actions r).

(** What a call may do to an attempt: its identity is fixed and a resolved state is
    final. *)
Record ages (a a' : ActionAttempt) : Prop := {
  ag_id : aa_attempt_id a' = aa_attempt_id a;
  ag_task : aa_task_id a' = aa_task_id a;
  ag_worker : aa_worker_id a' = aa_worker_id a;
  ag_nonce : aa_nonce a' = aa_nonce a;
  ag_hash : aa_prompt_hash a' = aa_prompt_hash a;
  ag_fence : aa_fence_token a' = aa_fence_token a;
  ag_final : action_unresolved a = false → aa_state a' = aa_state a;
  ag_armed : action_state ActionAttemptState.ARMED a' = true →
    action_state ActionAttemptState.ARMED a = true;
}.

#[export] Instance ages_preorder : PreOrder ages.
Proof.
  split; [by intros a; constructor|].
  intros a b c [] []. constructor; try congruence; [|auto].
  intros Hu. rewrite <- ag_final0 by done. apply ag_final1.
  unfold action_unresolved in *. by rewrite ag_final0.
Qed.

Definition kept (r r' : Registry) : Prop :=
  acts_ok r' ∧ ∀ k a, rg_actions r !! k = Some a →
    ∃ a', rg_actions r' !! k = Some a' ∧ ages a a'.

Lemma untouched_kept r r' : acts_ok r → rg_actions r' = rg_actions r → kept r r'.
Proof.
  intros Hok Heq. split; [by unfold acts_ok; rewrite Heq|]. rewrite Heq. intros k a Ha.
  by exists a.
Qed.

Lemma store_action_Ok r a r' :
  store_action r a = Ok r' →
  put_row (rg_actions r) a = Ok (<[aa_attempt_id a := a]> (rg_actions r)) ∧
  r' = r <| rg_actions := <[aa_attempt_id a := a]> (rg_actions r) |>.
Proof.
  intros [_ H]%unit_bind_Ok. apply bind_Ok_inv in H as (m & Hm & [= <-]).
  by pose proof Hm as [_ ->]%put_row_Ok.
Qed.

Lemma stored_action_ok r a r' : acts_ok r → store_action r a = Ok r' → acts_ok r'.
Proof. intros Hok [Hp ->]%store_action_Ok. by eapply put_row_ok. Qed.

(** A new row. *)
Lemma insert_kept r a r' :
  acts_ok r → insert_action r a = Ok r' →
  kept r r' ∧ rg_tasks r' = rg_tasks r ∧ rg_actions r !! aa_attempt_id a = None.
Proof.
  unfold insert_action. intros Hok Hi. apply raise_if_then in Hi as [Hnew Hi].
  apply unit_bind_Ok in Hi as [_ Hi].
  rewrite bool_decide_eq_false, <- eq_None_not_Some in Hnew.
  pose proof (stored_action_ok _ _ _ Hok Hi). apply store_action_Ok in Hi as [_ ->].
  split; [|done]. split; [done|]. intros k x Hx. exists x. cbn.
  rewrite lookup_insert_ne by congruence. done.
Qed.

(** A row replaced by an aged one. *)
Lemma replace_kept r id a a' x :
  acts_ok r → rg_actions r !! id = Some a → ages a a' → _replace_action_attempt r a' = Ok x →
  kept r x.1 ∧ rg_tasks x.1 = rg_tasks r ∧ x.2 = a' ∧ rg_actions x.1 !! id = Some a'.
Proof.
  intros Hok Ha Hag Hr. apply bind_Ok_inv in Hr as (? & _ & Hr).
  apply bind_Ok_inv in Hr as (r1 & Hs & Hr). apply bind_Ok_inv in Hr as (b & Hb%fetch_Ok & [= <-]).
  pose proof (stored_action_ok _ _ _ Hok Hs) as Hok'. apply store_action_Ok in Hs as [_ ->].
  assert (aa_attempt_id a' = id) as E.
  { by rewrite (ag_id _ _ Hag), (tb_keyed _ Hok _ _ Ha : aa_attempt_id a = id). }
  cbn in *. rewrite E in *. rewrite lookup_insert_eq in *. injection Hb as <-.
  split; [split; [done|]|done]. cbn. intros k y Hy. destruct (decide (k = id)) as [->|Hne].
  - exists a'. rewrite lookup_insert_eq. split; [done|]. congruence.
  - exists y. by rewrite lookup_insert_ne.
Qed.

(** ** The calls *)

Lemma resolve_kept s r id e t ts x :
  s ≠ ActionAttemptState.ARMED → acts_ok r → resolve_action s r id e t ts = Ok x →
  kept r x.1 ∧ rg_tasks x.1 = rg_tasks r ∧ rg_actions x.1 !! id = Some x.2 ∧ aa_state x.2 = s.
Proof.
  intros Hs Hok Hr. apply bind_Ok_inv in Hr as (a & Ha%fetch_Ok & Hr).
  apply raise_if_then in Hr as [Hu%negb_false_iff Hr].
  eapply replace_kept in Hr as (? & ? & -> & ?); [by split_and!|done..|].
  constructor; cbn; try done; [congruence|].
  unfold action_state. cbn. by rewrite bool_decide_eq_true.
Qed.

Lemma submitted_kept r id t now x :
  acts_ok r → mark_action_submitted r id t now = Ok x →
  kept r x.1 ∧ rg_tasks x.1 = rg_tasks r ∧ rg_actions x.1 !! id = Some x.2 ∧
  aa_state x.2 = ActionAttemptState.SUBMITTED.
Proof.
  intros Hok Hr. apply bind_Ok_inv in Hr as (a & Ha%fetch_Ok & Hr).
  apply raise_if_then in Hr as [Hst Hr]. unfold action_state in Hst. bool_to_prop.
  eapply replace_kept in Hr as (? & ? & -> & ?); [by split_and!|done..|].
  constructor; try done. cbn. unfold action_unresolved. by rewrite Hst.
Qed.

Lemma acknowledge_kept r ack x :
  acts_ok r → acknowledge_action r ack = Ok x → kept r x.1 ∧ rg_tasks x.1 = rg_tasks r.
Proof.
  intros Hok Hr. apply bind_Ok_inv in Hr as (a & Ha%fetch_Ok & Hr).
  apply unit_bind_Ok in Hr as [Hv Hr]. cbv zeta in Hr.
  apply raise_if_then in Hv as [Hu%negb_false_iff _].
  eapply replace_kept in Hr as (? & ? & _); [done|done..|].
  destruct (truthy_text _); constructor; try done; cbn; congruence.
Qed.

Lemma signature_kept r id s x :
  acts_ok r → record_action_ack_browser_signature r id s = Ok x →
  kept r x.1 ∧ rg_tasks x.1 = rg_tasks r.
Proof.
  intros Hok Hr. apply unit_bind_Ok in Hr as [_ Hr].
  apply bind_Ok_inv in Hr as (a & Ha%fetch_Ok & Hr). apply unit_bind_Ok in Hr as [_ Hr].
  eapply replace_kept in Hr as (? & ? & _); [done|done..|]. by constructor.
Qed.

(** The intent of an attempt needs an ARMED record. *)
Lemma intent_armed a prompt i :
  intent_from_attempt a prompt = Ok i → action_state ActionAttemptState.ARMED a = true.
Proof. intros Hi. by apply raise_if_then in Hi as [Hs%negb_false_iff _]. Qed.

(** An unresolved attempt fences every other send for its task. *)
Lemma unresolved_blocks r id a u :
  rg_actions r !! id = Some a → action_unresolved a = true →
  require_no_unresolved_action r (aa_task_id a) = Ok u → False.
Proof using Type.
  intros Ha Hu Hreq. apply bind_Ok_inv in Hreq as (x & Hx & Hreq). apply raise_if_Ok_inv in Hreq.
  destruct x; [done|]. apply bind_Ok_inv in Hx as (_ & _ & [= Hx]).
  assert (a ∈ open_rows (rg_actions r) (aa_task_id a)) as Hin.
  { apply elem_of_open_rows. split_and!; [done|done|by exists id]. }
  destruct (open_rows _ _) as [|y l] eqn:E; [by apply not_elem_of_nil in Hin|].
  assert (y ∈ order_desc aa_created_at (y :: l)) as Hy by (apply elem_of_py_sorted; left).
  destruct (order_desc _ _); [by apply not_elem_of_nil in Hy|done].
Qed.

(** How the outcome of the transport is recorded. *)
Definition outcome_state (o : transport_outcome) : ActionAttemptState.t :=
  match o with
  | Returned result =>
      if ts_submitted result then ActionAttemptState.SUBMITTED
      else if ts_side_effect_possible result then ActionAttemptState.RECONCILE_REQUIRED
      else ActionAttemptState.FAILED
  | TransportDisabled _ => ActionAttemptState.ARMED
  | TransportRaised _ _ => ActionAttemptState.RECONCILE_REQUIRED
  end.

(** What is recorded of an outcome that is not a refusal. *)
Lemma recorded_Ok r id name out now x :
  acts_ok r → record_submission r id name out now = Ok x →
  (∀ m, out ≠ TransportDisabled m) ∧
  kept r x.1 ∧ rg_tasks x.1 = rg_tasks r ∧
  ∃ a', rg_actions x.1 !! id = Some a' ∧ aa_state a' = outcome_state out ∧
    so_state x.2 = ActionAttemptState.value (aa_state a') ∧
    so_side_effect_possible x.2 =
      match out with
      | Returned result => ts_submitted result || ts_side_effect_possible result
      | _ => true
      end.
Proof.
  unfold record_submission. intros Hok Hr.
  destruct out as [result|m|c m]; [|done|].
  - unfold outcome_state. split; [done|].
    destruct (ts_submitted result); [|destruct (ts_side_effect_possible result)];
      apply bind_Ok_inv in Hr as ([r' u] & Hr & [= <-]); cbn;
      [apply submitted_kept in Hr as (? & ? & ? & ?)
      |apply resolve_kept in Hr as (? & ? & ? & ?)..]; try done; naive_solver.
  - apply bind_Ok_inv in Hr as ([r' u] & Hr & [= <-]). split; [done|]. cbn.
    apply resolve_kept in Hr as (? & ? & ? & ?); [|done|done]. naive_solver.
Qed.

(** A submission with nothing in between *)
Lemma submission_alone r attempt_id prompt transport now :
  submit_armed_action r attempt_id prompt transport now =
  (attempt ← get_action_attempt r attempt_id;
   intent ← intent_from_attempt attempt prompt;
   record_submission r attempt_id (tp_name transport) (tp_submit transport intent) now).
Proof.
  unfold submit_armed_action. cbn -[record_submission intent_from_attempt get_action_attempt].
  destruct (get_action_attempt r attempt_id) as [a|e]; [|done].
  cbn -[record_submission intent_from_attempt].
  destruct (intent_from_attempt a prompt) as [i|e]; [|done]. cbn -[record_submission].
  by destruct (record_submission _ _ _ _ _) as [[? ?]|].
Qed.

Lemma submit_Ok r id prompt t now x :
  acts_ok r → submit_armed_action r id prompt t now = Ok x →
  ∃ a i a', rg_actions r !! id = Some a ∧ intent_from_attempt a prompt = Ok i ∧
    (∀ m, tp_submit t i ≠ TransportDisabled m) ∧
    kept r x.1 ∧ rg_tasks x.1 = rg_tasks r ∧ rg_actions x.1 !! id = Some a' ∧
    aa_state a' = outcome_state (tp_submit t i) ∧
    so_side_effect_possible x.2 =
      match tp_submit t i with
      | Returned result => ts_submitted result || ts_side_effect_possible result
      | _ => true
      end.
Proof.
  rewrite submission_alone. intros Hok Hr. apply bind_Ok_inv in Hr as (a & Ha%fetch_Ok & Hr).
  apply bind_Ok_inv in Hr as (i & Hi & Hr).
  apply recorded_Ok in Hr as (? & ? & ? & a' & ? & ? & _ & ?); [|done]. by exists a, i, a'.
Qed.

(** The outcome reports the stored attempt. *)
Lemma submit_reports r id prompt t now x a :
  acts_ok r → submit_armed_action r id prompt t now = Ok x → rg_actions x.1 !! id = Some a →
  so_state x.2 = ActionAttemptState.value (aa_state a) ∧
  so_side_effect_possible x.2 = action_unresolved a.
Proof.
  rewrite submission_alone. intros Hok Hr Ha. apply bind_Ok_inv in Hr as (b & _ & Hr).
  apply bind_Ok_inv in Hr as (i & _ & Hr).
  apply recorded_Ok in Hr as (Hd & _ & _ & a' & Ha' & Hs & Ho & Hp); [|done].
  assert (a' = a) as -> by congruence. split; [done|].
  rewrite Hp. unfold action_unresolved. rewrite Hs. unfold outcome_state.
  destruct (tp_submit t i) as [result|m|]; [|by destruct (Hd m)|done].
  by destruct (ts_submitted result), (ts_side_effect_possible result).
Qed.

Lemma arm_kept r task a m r' :
  acts_ok r → (check_current_worker r task a m;; insert_action r a) = Ok r' →
  kept r r' ∧ rg_tasks r' = rg_tasks r.
Proof. intros Hok [_ Hi]%unit_bind_Ok. apply insert_kept in Hi; naive_solver. Qed.

(** What a call does to the attempts, and to the recovery counters of the tasks. *)
Lemma recovery_Ok r a r' :
  acts_ok r → record_recovery_action_attempt r a = Ok r' →
  kept r r' ∧ ∃ task, rg_tasks r !! aa_task_id a = Some task ∧
    tr_recovery_attempts task < tr_max_recovery_attempts task ∧
    rg_tasks r' = <[aa_task_id a :=
      task <| tr_recovery_attempts := tr_recovery_attempts task + 1 |>
           <| tr_updated_at := aa_created_at a |>]> (rg_tasks r).
Proof.
  intros Hok H. apply unit_bind_Ok in H as [_ H].
  apply bind_Ok_inv in H as (task & Ht%fetch_Ok & H). apply unit_bind_Ok in H as [_ H].
  apply raise_if_then in H as [Hb H]. apply unit_bind_Ok in H as [_ H].
  apply bind_Ok_inv in H as (r1 & Hi & [= <-]).
  apply insert_kept in Hi as ([Hk1 Hk2] & Htasks & _); [|done].
  split; [split; [by destruct Hk1|done]|]. exists task. cbn. rewrite Htasks.
  bool_to_prop. done.
Qed.

Lemma record_kept r a r' :
  acts_ok r → record_action_attempt r a = Ok r' → kept r r' ∧ rg_tasks r' = rg_tasks r.
Proof.
  intros Hok H. apply bind_Ok_inv in H as (_ & _ & H). apply bind_Ok_inv in H as (w & _ & H).
  apply unit_bind_Ok in H as [_ H]. apply bind_Ok_inv in H as (u & _ & H).
  apply unit_bind_Ok in H as [_ H]. apply insert_kept in H; naive_solver.
Qed.

Lemma current_kept r a r' :
  acts_ok r → record_current_worker_action_attempt r a = Ok r' →
  kept r r' ∧ rg_tasks r' = rg_tasks r.
Proof.
  intros Hok H. apply unit_bind_Ok in H as [_ H]. apply bind_Ok_inv in H as (t & _ & H).
  apply unit_bind_Ok in H as [_ H]. by eapply arm_kept.
Qed.

Lemma perform_kept r c r' : acts_ok r → perform r c = Ok r' → kept r r'.
Proof.
  intros Hok H. destruct c; cbn in H.
  - by apply record_kept in H as [? _].
  - by apply current_kept in H as [? _].
  - by apply recovery_Ok in H as [? _].
  - apply bind_Ok_inv in H as (x & H & [= <-]).
    by apply recorded_Ok in H as (_ & ? & _).
  - apply bind_Ok_inv in H as (x & H & [= <-]). by apply resolve_kept in H as [? _].
  - apply bind_Ok_inv in H as (x & H & [= <-]). by apply resolve_kept in H as [? _].
  - apply bind_Ok_inv in H as (x & H & [= <-]). by apply resolve_kept in H as [? _].
  - apply bind_Ok_inv in H as (x & H & [= <-]). by apply acknowledge_kept in H as [? _].
  - apply bind_Ok_inv in H as (x & H & [= <-]). by apply signature_kept in H as [? _].
  - injection H as <-. by apply untouched_kept.
  - apply bind_Ok_inv in H as (t & _ & [= <-]). by apply untouched_kept.
Qed.

#[export] Instance kept_trans : Transitive kept.
Proof.
  intros r1 r2 r3 [_ H12] [Hok H23]. split; [done|]. intros k a Ha.
  destruct (H12 _ _ Ha) as (b & Hb & Hab). destruct (H23 _ _ Hb) as (c & Hc & Hbc).
  exists c. split; [done|by trans b].
Qed.

Lemma step_kept r c : acts_ok r → kept r (perform_or_stay r c).
Proof.
  unfold perform_or_stay. intros Hok. destruct (perform r c) eqn:E; [by eapply perform_kept|].
  by apply untouched_kept.
Qed.

Lemma perform_all_kept r calls : acts_ok r → kept r (perform_all r calls).
Proof.
  revert r. induction calls as [|c calls IH]; intros r Hok; cbn; [by apply untouched_kept|].
  pose proof (step_kept r c Hok) as Hs. trans (perform_or_stay r c); [done|].
  apply IH. apply Hs.
Qed.

Lemma empty_acts_ok r : rg_actions r = ∅ → acts_ok r.
Proof. intros He. unfold acts_ok. rewrite He. apply empty_table_ok. Qed.

(** ** The recovery budget *)

(** The number of recovery actions of a task that a run arms. *)
Definition arms_recovery (r : Registry) (task_id : string) (c : action_call) : bool :=
  match c with
  | ARecovery a => String.eqb (aa_task_id a) task_id && res_ok (perform r c)
  | _ => false
  end.

Fixpoint recoveries (task_id : string) (r : Registry) (calls : list action_call) : Z :=
  match calls with
  | [] => 0
  | c :: calls =>
      (if arms_recovery r task_id c then 1 else 0) +
      recoveries task_id (perform_or_stay r c) calls
  end.

Definition counts (r : Registry) (task_id : string) (n m : Z) : Prop :=
  ∃ t, rg_tasks r !! task_id = Some t ∧ tr_recovery_attempts t = n ∧
       tr_max_recovery_attempts t = m.

Lemma perform_tasks r c r' :
  acts_ok r → perform r c = Ok r' →
  match c with ARecovery _ | ATask _ _ _ => True | _ => rg_tasks r' = rg_tasks r end.
Proof.
  intros Hok H. destruct c; cbn in H; try done.
  - by apply record_kept in H as [_ ?].
  - by apply current_kept in H as [_ ?].
  - apply bind_Ok_inv in H as (x & H & [= <-]).
    by apply recorded_Ok in H as (_ & _ & ? & _).
  - apply bind_Ok_inv in H as (x & H & [= <-]). by apply resolve_kept in H as (_ & ? & _).
  - apply bind_Ok_inv in H as (x & H & [= <-]). by apply resolve_kept in H as (_ & ? & _).
  - apply bind_Ok_inv in H as (x & H & [= <-]). by apply resolve_kept in H as (_ & ? & _).
  - apply bind_Ok_inv in H as (x & H & [= <-]). by apply acknowledge_kept in H as [_ ?].
  - apply bind_Ok_inv in H as (x & H & [= <-]). by apply signature_kept in H as [_ ?].
  - by injection H as <-.
Qed.

Lemma step_counts r c id n m :
  acts_ok r → counts r id n m → ∃ n', counts (perform_or_stay r c) id n' m ∧
    n' = n + (if arms_recovery r id c then 1 else 0) ∧
    (arms_recovery r id c = true → n < m).
Proof.
  intros Hok (t & Ht & Hn & Hm). unfold arms_recovery, perform_or_stay.
  destruct (perform r c) as [r'|e] eqn:E.
  - pose proof (perform_tasks _ _ _ Hok E) as Htasks.
    destruct c; try (exists n; split_and!; [exists t; by rewrite Htasks|lia|done]).
    + apply recovery_Ok in E as (_ & task & Htask & Hlt & Heq); [|done]. cbn.
      rewrite andb_true_r. unfold counts. rewrite Heq.
      destruct (String.eqb_spec (aa_task_id a) id) as [Eid|Hne].
      * rewrite Eid in *. assert (task = t) as -> by congruence. rewrite lookup_insert_eq.
        exists (n + 1). split_and!; [eexists; split_and!; [done|cbn; lia|done]|done|lia].
      * rewrite lookup_insert_ne by done. exists n. split_and!; [eauto|lia|done].
    + apply bind_Ok_inv in E as (task & Htask%fetch_Ok & [= <-]). exists n.
      split_and!; [|lia|done]. unfold counts. cbn.
      destruct (decide (task_id = id)) as [->|Hne].
      * assert (task = t) as -> by congruence. rewrite lookup_insert_eq. eexists. done.
      * rewrite lookup_insert_ne by done. eauto.
  - exists n. split_and!.
    + by exists t.
    + destruct c; try lia. rewrite andb_false_r. lia.
    + destruct c; try done. by rewrite andb_false_r.
Qed.

(** ** Interleaved submissions

    The moves on a registry: a call, an execution, which arms a new attempt and submits it, or
    a direct submission of a stored one; and the steps of the submissions at work. *)

Definition arm_action (consume : bool) (r : Registry) (a : ActionAttempt) : res Registry :=
  if consume then record_recovery_action_attempt r a else record_current_worker_action_attempt r a.

Inductive submission_act :=
  | Call (c : action_call)
  | Execute (consume : bool) (a : ActionAttempt) (prompt : string) (t : ActionTransport)
  | Resubmit (attempt_id prompt : string) (t : ActionTransport).

Definition submission_start (c : submission_act) (r : Registry)
    : Registry * list sending * option submission :=
  match c with
  | Call c => (perform_or_stay r c, [], None)
  | Execute consume a prompt t =>
      match arm_action consume r a with
      | Ok r' => (r', [], Some (mkSubmission (aa_attempt_id a) prompt t Entered))
      | Err _ => (r, [], None)
      end
  | Resubmit id prompt t => (r, [], Some (mkSubmission id prompt t Entered))
  end.

Definition submission_advance (now : float) (r : Registry) (s : submission)
    : Registry * list sending * option submission :=
  let '(r', sent, next) := submit_step now r s in
  (r', sent, match next with inl s' => Some s' | inr _ => None end).

Definition submissions : Pool.t Registry submission sending → list (Pool.move submission_act) →
    Pool.t Registry submission sending := Pool.play submission_advance submission_start.

Definition nobody_submits (r : Registry) : Pool.t Registry submission sending :=
  Pool.mk r [] [].

(** The transport did not refuse to act. *)
Definition acted (out : transport_outcome) : bool :=
  match out with TransportDisabled _ => false | _ => true end.

Definition one_if (b : bool) : nat := if b then 1 else 0.

Definition transport_uses (id : string) (log : list sending) : nat :=
  Pool.total (λ s, one_if (String.eqb (sd_attempt_id s) id && acted (sd_outcome s))) log.

(** The direct submissions of an attempt among the moves *)
Definition resubmits (id : string) (c : submission_act) : nat :=
  match c with Resubmit id' _ _ => one_if (String.eqb id' id) | _ => 0 end.

Definition resubmissions (id : string) (ms : list (Pool.move submission_act)) : nat :=
  Pool.total (Pool.earned (resubmits id)) ms.

Definition not_stored (r : Registry) (id : string) : nat :=
  match rg_actions r !! id with None => 1 | Some _ => 0 end.

(** A submission that has not called the transport yet, and one that is about to. *)
Definition may_send (id : string) (s : submission) : nat :=
  one_if (String.eqb (sb_attempt_id s) id &&
          match sb_phase s with Answered _ => false | _ => true end).

Definition is_sending (id : string) (s : submission) : nat :=
  one_if (String.eqb (sb_attempt_id s) id &&
          match sb_phase s with Intended _ => true | _ => false end).

Definition in_the_air (id : string) (running : list (option submission)) : nat :=
  Pool.total (Pool.load (is_sending id)) running.

Definition disarmed (r : Registry) (id : string) : Prop :=
  ∃ a, rg_actions r !! id = Some a ∧ action_state ActionAttemptState.ARMED a = false.

(** Replacing an unresolved row never violates the unique index. *)
Lemma replace_succeeds r id a a' :
  acts_ok r → rg_actions r !! id = Some a → action_unresolved a = true → ages a a' →
  is_nan (aa_updated_at a') = false → is_Ok (_replace_action_attempt r a').
Proof.
  intros Hok Ha Hu Hag Hnan. unfold _replace_action_attempt, store_action.
  assert (aa_attempt_id a' = id) as E by (rewrite (ag_id _ _ Hag); by apply (tb_keyed _ Hok)).
  rewrite E. assert (get_action_attempt r id = Ok a) as -> by by apply fetch_Ok.
  rewrite Ok_bind. unfold real_not_null. rewrite Hnan. cbn [raise_if]. rewrite Ok_bind.
  rewrite (replace_row_Ok _ id a) by (try done; apply Hag). rewrite !Ok_bind.
  unfold get_action_attempt, fetch. cbn. rewrite lookup_insert_eq. by eexists.
Qed.

(** An outcome that is recorded takes an ARMED attempt out of this state for good. *)
Lemma record_disarms r id name out now a :
  acts_ok r → rg_actions r !! id = Some a → aa_state a = ActionAttemptState.ARMED →
  is_nan now = false → acted out = true →
  ∃ x, record_submission r id name out now = Ok x ∧ disarmed x.1 id.
Proof.
  intros Hok Ha Harm Hnan Hact.
  assert (is_Ok (record_submission r id name out now)) as [x Hx].
  { assert (get_action_attempt r id = Ok a) as Hget by by apply fetch_Ok.
    assert (action_unresolved a = true) as Hun by (unfold action_unresolved; by rewrite Harm).
    assert (∀ s e tn, s ≠ ActionAttemptState.ARMED → is_Ok (resolve_action s r id e tn now))
      as Hres.
    { intros s e tn Hs. unfold resolve_action. rewrite Hget, Ok_bind, Hun. cbn [negb raise_if].
      rewrite Ok_bind. eapply replace_succeeds; [done..| |done].
      constructor; try done; [cbn; congruence|]. cbn. unfold action_state.
      by rewrite Harm, bool_decide_eq_true. }
    unfold record_submission, mark_action_reconcile_required, fail_action_attempt.
    destruct out as [result|m|c m]; [|done|].
    - destruct (ts_submitted result); [|destruct (ts_side_effect_possible result)].
      + assert (is_Ok (mark_action_submitted r id (ts_transport_name result) now)) as [[] ->];
          [|cbn; by eexists].
        unfold mark_action_submitted. rewrite Hget, Ok_bind. unfold action_state.
        rewrite Harm. cbn. eapply replace_succeeds; [done..| |done].
        constructor; try done. cbn. by rewrite Hun.
      + edestruct Hres as [[] ->]; [done|]. by eexists.
      + edestruct Hres as [[] ->]; [done|]. by eexists.
    - edestruct Hres as [[] ->]; [done|]. by eexists. }
  exists x. split; [done|].
  apply recorded_Ok in Hx as (_ & _ & _ & a' & Ha' & Hst & _); [|done]. exists a'. split; [done|].
  unfold action_state. rewrite Hst. unfold outcome_state. destruct out as [result| |]; [|done|done].
  by destruct (ts_submitted result), (ts_side_effect_possible result).
Qed.

Lemma kept_disarmed r r' id : kept r r' → disarmed r id → disarmed r' id.
Proof.
  intros [_ Hk] (a & Ha & Hst). destruct (Hk _ _ Ha) as (a' & Ha' & Hag). exists a'.
  split; [done|]. destruct (action_state ActionAttemptState.ARMED a') eqn:E; [|done].
  by rewrite (ag_armed _ _ Hag E) in Hst.
Qed.

(** Arming inserts the attempt. *)
Lemma arm_inserts consume r a r' :
  acts_ok r → arm_action consume r a = Ok r' →
  aa_state a = ActionAttemptState.ARMED ∧ rg_actions r !! aa_attempt_id a = None ∧
  rg_actions r' = <[aa_attempt_id a := a]> (rg_actions r).
Proof.
  intros Hok H.
  assert (∃ r1, aa_state a = ActionAttemptState.ARMED ∧ insert_action r a = Ok r1 ∧
    rg_actions r' = rg_actions r1) as (r1 & Hs & Hi & ->).
  { unfold arm_action in H. destruct consume;
      apply raise_if_then in H as [Hst%negb_false_iff%bool_decide_eq_true H];
      apply bind_Ok_inv in H as (task & _ & H).
    - apply unit_bind_Ok in H as [_ H]. apply unit_bind_Ok in H as [_ H].
      apply unit_bind_Ok in H as [_ H]. apply bind_Ok_inv in H as (r1 & Hi & [= <-]). by exists r1.
    - apply unit_bind_Ok in H as [_ H]. apply unit_bind_Ok in H as [_ H]. by exists r'. }
  pose proof Hi as (_ & _ & Hn)%insert_kept; [|done]. split_and!; [done..|].
  apply raise_if_then in Hi as [_ Hi]. apply unit_bind_Ok in Hi as [_ Hi].
  by apply store_action_Ok in Hi as [_ ->].
Qed.

Lemma arm_kept_ok consume r a r' : acts_ok r → arm_action consume r a = Ok r' → kept r r'.
Proof.
  unfold arm_action. intros Hok. destruct consume.
  - by intros [? _]%recovery_Ok.
  - by intros [? _]%current_kept.
Qed.

(** While an attempt of its task is unresolved, no new one is armed. *)
Lemma arm_blocked consume r id u a :
  acts_ok r → rg_actions r !! id = Some u → action_unresolved u = true →
  aa_task_id a = aa_task_id u → ∃ e, arm_action consume r a = Err e.
Proof.
  intros Hok Hu Hopen Ht. destruct (arm_action consume r a) as [r'|e] eqn:E; [|eauto]. exfalso.
  pose proof (arm_kept_ok _ _ _ _ Hok E) as [Hok' _].
  destruct (arm_inserts _ _ _ _ Hok E) as (Hs & Hn & Er).
  assert (aa_attempt_id a = id) as Eid; [|congruence].
  eapply (tb_one _ Hok'); rewrite ?Er.
  - apply lookup_insert_eq.
  - rewrite lookup_insert_ne by congruence. exact Hu.
  - exact Ht.
  - cbn. unfold action_unresolved. by rewrite Hs.
  - exact Hopen.
Qed.

(** ** What the moves keep *)

Lemma submit_step_kept now r s r' sent next :
  acts_ok r → submit_step now r s = (r', sent, next) → kept r r'.
Proof.
  intros Hok. unfold submit_step. cbv zeta. destruct (sb_phase s) as [|i|out].
  - destruct (_ ≫= _); intros [= <- _ _]; by apply untouched_kept.
  - intros [= <- _ _]. by apply untouched_kept.
  - destruct (record_submission _ _ _ _ _) as [[r1 o]|e] eqn:E; intros [= <- _ _];
      [by apply recorded_Ok in E as (_ & ? & _)|by apply untouched_kept].
Qed.

Lemma submission_start_kept c r r' sent next :
  acts_ok r → submission_start c r = (r', sent, next) → kept r r'.
Proof.
  intros Hok. destruct c as [c|consume a prompt t|id prompt t]; cbn.
  - intros [= <- _ _]. by apply step_kept.
  - destruct (arm_action consume r a) as [r1|e] eqn:E; intros [= <- _ _];
      [by eapply arm_kept_ok|by apply untouched_kept].
  - intros [= <- _ _]. by apply untouched_kept.
Qed.

Lemma submissions_steady (I : Registry → Prop) :
  (∀ r, I r → acts_ok r) → (∀ r r', I r → kept r r' → I r') →
  Pool.steady submission_advance submission_start I.
Proof.
  intros Hok Hk. split.
  - intros now r s r' sent next Hi. unfold submission_advance.
    destruct (submit_step now r s) as [[r1 es] n] eqn:E. intros [= <- _ _].
    eapply Hk; [done|]. by eapply submit_step_kept, E; apply Hok.
  - intros c r r' sent next Hi E. eapply Hk; [done|]. by eapply submission_start_kept, E; apply Hok.
Qed.

Lemma acts_ok_steady : Pool.steady submission_advance submission_start acts_ok.
Proof. apply submissions_steady; [done|]. by intros r r' _ [? _]. Qed.

(** The transport is called for an attempt by a submission that is in its second step. *)
Lemma submit_step_sends now r s r' sent next id :
  submit_step now r s = (r', sent, next) →
  (transport_uses id sent ≤ is_sending id s)%nat ∧
  (Pool.load (may_send id) (match next with inl s' => Some s' | inr _ => None end) +
     transport_uses id sent ≤ may_send id s)%nat ∧
  (disarmed r id → Pool.load (is_sending id) (match next with inl s' => Some s' | inr _ => None end) +
     transport_uses id sent ≤ is_sending id s)%nat.
Proof.
  unfold submit_step, may_send, is_sending, transport_uses, Pool.total. cbv zeta.
  destruct (sb_phase s) as [|i|out] eqn:Ep.
  - destruct (_ ≫= _) as [i|e] eqn:E; intros [= _ <- <-]; cbn; rewrite ?Ep; (split_and!; [lia|lia|]);
      [|intros; lia].
    intros (a & Ha & Hst). destruct (String.eqb_spec (sb_attempt_id s) id) as [<-|]; [|done].
    apply bind_Ok_inv in E as (b & Hb%fetch_Ok & Hi%intent_armed). congruence.
  - intros [= _ <- <-]. cbn. destruct (String.eqb (sb_attempt_id s) id); cbn; [|lia].
    destruct (acted _); cbn; lia.
  - destruct (record_submission _ _ _ _ _) as [[r1 o]|e]; intros [= _ <- <-]; cbn; lia.
Qed.

Lemma submission_start_sends c r r' sent next id :
  acts_ok r → submission_start c r = (r', sent, next) →
  sent = [] ∧ Pool.load (is_sending id) next = 0%nat ∧
  (not_stored r' id + Pool.load (may_send id) next ≤ not_stored r id + resubmits id c)%nat.
Proof.
  intros Hok H. pose proof (submission_start_kept _ _ _ _ _ Hok H) as [_ Hk].
  assert (not_stored r' id ≤ not_stored r id)%nat as Hle.
  { unfold not_stored. destruct (rg_actions r !! id) eqn:E; [|destruct (rg_actions r' !! id); lia].
    destruct (Hk _ _ E) as (? & -> & _). done. }
  destruct c as [c|consume a prompt t|id' prompt t]; cbn in H.
  - injection H as <- <- <-. cbn. split_and!; [done..|lia].
  - destruct (arm_action consume r a) as [r1|e] eqn:E; injection H as <- <- <-; cbn;
      [|split_and!; [done..|lia]].
    apply arm_inserts in E as (_ & Hn & Es); [|done]. unfold is_sending, may_send. cbn.
    rewrite andb_false_r, andb_true_r. split_and!; [done..|].
    destruct (String.eqb_spec (aa_attempt_id a) id) as [<-|]; cbn; [|lia].
    unfold not_stored. rewrite Es, Hn, lookup_insert_eq. cbn. lia.
  - injection H as <- <- <-. unfold is_sending, may_send. cbn.
    rewrite andb_false_r, andb_true_r. split_and!; [done..|]. lia.
Qed.

Lemma submissions_bounded id :
  Pool.bounded submission_advance submission_start acts_ok (λ r, not_stored r id) (may_send id)
    (λ s, one_if (String.eqb (sd_attempt_id s) id && acted (sd_outcome s))) (resubmits id).
Proof.
  split; [apply acts_ok_steady| |].
  - intros now r s r' sent next Hok. unfold submission_advance.
    destruct (submit_step now r s) as [[r1 es] n] eqn:E. intros [= <- <- <-].
    pose proof (submit_step_kept _ _ _ _ _ _ Hok E) as [_ Hk].
    apply (submit_step_sends _ _ _ _ _ _ id) in E as (_ & E & _). unfold transport_uses in E.
    assert (not_stored r1 id ≤ not_stored r id)%nat; [|lia].
    unfold not_stored. destruct (rg_actions r !! id) eqn:Er; [|destruct (rg_actions r1 !! id); lia].
    destruct (Hk _ _ Er) as (? & -> & _). done.
  - intros c r r' sent next Hok E. apply (submission_start_sends _ _ _ _ _ id) in E as (-> & _ & ?); [|done].
    unfold Pool.total. cbn. lia.
Qed.

Lemma disarmed_bounded id :
  Pool.bounded submission_advance submission_start (λ r, acts_ok r ∧ disarmed r id) (λ _, 0%nat)
    (is_sending id) (λ s, one_if (String.eqb (sd_attempt_id s) id && acted (sd_outcome s)))
    (λ _, 0%nat).
Proof.
  split.
  - apply submissions_steady; [by intros r []|]. intros r r' [_ Hd] Hk. split; [apply Hk|].
    by eapply kept_disarmed.
  - intros now r s r' sent next [Hok Hd]. unfold submission_advance.
    destruct (submit_step now r s) as [[r1 es] n] eqn:E. intros [= <- <- <-].
    apply (submit_step_sends _ _ _ _ _ _ id) in E as (_ & _ & E). specialize (E Hd).
    unfold transport_uses in E. lia.
  - intros c r r' sent next [Hok _] E.
    apply (submission_start_sends _ _ _ _ _ id) in E as (-> & Hz & _); [|done].
    rewrite Hz. unfold Pool.total. cbn. lia.
Qed.

(** ** The prompt of an attempt *)

Lemma built_attempt plan task worker prompt version sig now u1 u2 a :
  build_action_attempt plan task worker prompt version sig now u1 u2 = Ok a →
  ∃ wire, render_action_prompt prompt u1 = Ok wire ∧ aa_nonce a = u1 ∧
    aa_prompt_hash a = prompt_digest wire ∧ aa_state a = ActionAttemptState.ARMED ∧
    dget "prompt_protocol" (aa_metadata a) = JStr nonce_suffix_v1 ∧
    pl_candidate_ready plan = true ∧ pl_fence_token plan = Some (aa_fence_token a) ∧
    tr_current_worker_id task = Some (aa_worker_id a) ∧
    wr_status worker = WorkerStatus.ACTIVE ∧ aa_task_id a = tr_task_id task.
Proof.
  unfold build_action_attempt. intros H. repeat apply raise_if_then in H as [? H].
  apply bind_Ok_inv in H as (wire & Hw & [= <-]). exists wire. cbn. bool_to_prop.
  split_and!; try done. by destruct (pl_fence_token plan).
Qed.

Lemma built_intent a u1 prompt :
  aa_state a = ActionAttemptState.ARMED → aa_nonce a = u1 →
  dget "prompt_protocol" (aa_metadata a) = JStr nonce_suffix_v1 →
  intent_from_attempt a prompt =
  match render_action_prompt prompt u1 with
  | Err e => Err e
  | Ok wire =>
      if String.eqb (prompt_digest wire) (aa_prompt_hash a) then
        Ok (mkActionIntent (aa_attempt_id a) (aa_task_id a) (aa_worker_id a) (aa_action a)
              wire (prompt_digest wire) (aa_nonce a) (aa_fence_token a) (aa_fence_version a))
      else raise ActionBlocked "prompt does not match the durable armed prompt hash"
  end.
Proof.
  intros Hs Hn Hp. unfold intent_from_attempt, action_state. rewrite Hs, Hp, Hn. cbn.
  destruct (render_action_prompt prompt u1); cbn; [|done].
  by destruct (String.eqb _ _).
Qed.

(** ** Properties *)

(** Whatever calls are made, a task never has two unresolved attempts, and an attempt
    never disappears, never changes its task, worker, nonce, digest or fence, and keeps
    its final state once it is acknowledged, failed or cancelled. *)
Theorem action_attempts_exclusive r calls1 calls2 :
  rg_actions r = ∅ →
  let r1 := perform_all r calls1 in
  let r2 := perform_all r1 calls2 in
  (∀ task_id, (length (open_rows (rg_actions r2) task_id) ≤ 1)%nat) ∧
  (∀ id a, rg_actions r1 !! id = Some a →
     ∃ a', rg_actions r2 !! id = Some a' ∧ ages a a').
Proof.
  intros He r1 r2. pose proof (perform_all_kept _ calls1 (empty_acts_ok _ He)) as [Hok1 _].
  pose proof (perform_all_kept _ calls2 Hok1) as [Hok2 Hk]. split; [|done].
  intros task_id. by apply table_open_rows.
Qed.

(** The recovery budget of a task is exact: the counter of the task advances by one
    with each recovery action that is armed and with no other call, and a task with [n]
    recoveries out of [m] can arm at most [m - n] more. *)
Theorem recovery_budget_is_exact r calls id n m :
  acts_ok r → counts r id n m → n ≤ m →
  counts (perform_all r calls) id (n + recoveries id r calls) m ∧
  recoveries id r calls ≤ m - n.
Proof.
  revert r n. induction calls as [|c calls IH]; intros r n Hok Hc Hle; cbn.
  - rewrite Z.add_0_r. split; [done|lia].
  - destruct (step_counts _ c _ _ _ Hok Hc) as (n' & Hc' & -> & Hlt).
    destruct (IH (perform_or_stay r c) _ (proj1 (step_kept r c Hok)) Hc') as [H1 H2].
    + destruct (arms_recovery r id c); [specialize (Hlt eq_refl)|]; lia.
    + split; [|lia]. by rewrite Z.add_assoc.
Qed.

(** C7: One execution uses the transport once, whatever happens between its steps.  Any calls,
    executions and submissions may be interleaved, and each may die between any two of its
    steps, so also between the answer of the transport and its record.  The transport is used
    for an attempt at most once by the execution that arms it, and once more for each direct
    submission of the stored attempt (the code has no caller that makes one); a stored attempt
    is never submitted again by an execution.  Once an attempt has left ARMED, only submissions
    that had already read it still use the transport; a record of what the transport did takes
    it out of ARMED; and as long as it is unresolved, as it is after a crash before the record,
    no new attempt of its task is armed, so nothing is sent for the task. *)
Theorem transport_used_once r ms1 ms2 id :
  acts_ok r →
  let p := submissions (nobody_submits r) ms1 in
  let q := submissions p ms2 in
  (transport_uses id (Pool.log q) ≤ not_stored r id + resubmissions id (ms1 ++ ms2))%nat ∧
  (disarmed (Pool.store p) id →
   transport_uses id (Pool.log q) ≤
     transport_uses id (Pool.log p) + in_the_air id (Pool.running p))%nat ∧
  (∀ k now s out a,
     Pool.running p !! k = Some (Some s) → sb_attempt_id s = id → sb_phase s = Answered out →
     acted out = true → rg_actions (Pool.store p) !! id = Some a →
     aa_state a = ActionAttemptState.ARMED → is_nan now = false →
     disarmed (Pool.store (submissions p [Pool.Step k now])) id) ∧
  (∀ a, rg_actions (Pool.store p) !! id = Some a → action_unresolved a = true →
     ∀ consume b prompt t, aa_task_id b = aa_task_id a →
       submission_start (Execute consume b prompt t) (Pool.store p) = (Pool.store p, [], None)).
Proof.
  intros Hok p q.
  assert (acts_ok (Pool.store p)) as Hp
    by exact (Pool.play_steady _ _ _ (nobody_submits r) ms1 acts_ok_steady Hok).
  split_and!.
  - pose proof (Pool.play_bounded submission_advance submission_start acts_ok
      (λ r, not_stored r id) (may_send id) _ (resubmits id) (nobody_submits r) (ms1 ++ ms2)
      (submissions_bounded id) Hok) as H.
    rewrite Pool.play_app in H. unfold Pool.spent in H. cbn in H.
    change (Pool.play submission_advance submission_start) with submissions in H. fold p q in H.
    rewrite !Pool.total_nil in H. unfold transport_uses, resubmissions. lia.
  - intros Hd. pose proof (Pool.play_bounded submission_advance submission_start
      (λ r, acts_ok r ∧ disarmed r id) (λ _, 0%nat) (is_sending id) _ (λ _, 0%nat) p ms2
      (disarmed_bounded id) (conj Hp Hd)) as H.
    unfold Pool.spent in H. change (Pool.play submission_advance submission_start) with submissions in H.
    fold q in H. rewrite Pool.nothing_earned in H. unfold transport_uses, in_the_air. lia.
  - intros k now s out a Hk <- Hph Hact Ha Harm Hnan.
    destruct (record_disarms _ _ (tp_name (sb_transport s)) _ now _ Hp Ha Harm Hnan Hact)
      as ([r' o] & Hr & Hd).
    cbn. rewrite Hk. unfold submission_advance, submit_step. rewrite Hph, Hr. exact Hd.
  - intros a Ha Hu consume b prompt t Ht. cbn.
    by destruct (arm_blocked consume _ _ _ _ Hp Ha Hu Ht) as [e ->].
Qed.

(** The record of a submission is conservative: the attempt is SUBMITTED only when the
    transport said so, FAILED only when it denied any side effect, and otherwise
    RECONCILE_REQUIRED; whenever a side effect is possible the attempt stays unresolved,
    so the next send is blocked until it is reconciled. *)
Theorem submission_is_conservative r id prompt t now r' o :
  acts_ok r → submit_armed_action r id prompt t now = Ok (r', o) →
  ∃ a i a', rg_actions r !! id = Some a ∧ intent_from_attempt a prompt = Ok i ∧
    rg_actions r' !! id = Some a' ∧ aa_state a' = outcome_state (tp_submit t i) ∧
    (so_side_effect_possible o = true ↔ action_unresolved a' = true) ∧
    (so_side_effect_possible o = true →
       is_Ok (require_no_unresolved_action r' (aa_task_id a)) → False).
Proof.
  intros Hok H. apply submit_Ok in H as (a & i & a' & Ha & Hi & Hd & Hk & _ & Ha' & Hs & Ho);
    [|done]. cbn in *. exists a, i, a'.
  assert (so_side_effect_possible o = action_unresolved a') as Hso.
  { rewrite Ho. unfold action_unresolved. rewrite Hs. unfold outcome_state.
    destruct (tp_submit t i) as [result|m|]; [|by destruct (Hd m)|done].
    by destruct (ts_submitted result), (ts_side_effect_possible result). }
  split_and!; try done; [by rewrite Hso|]. intros Hu [u Hreq]. destruct Hk as [_ Hk].
  destruct (Hk _ _ Ha) as (b & Hb & Hag). assert (b = a') as -> by congruence.
  rewrite <- (ag_task _ _ Hag) in Hreq.
  apply (unresolved_blocks _ _ _ _ Ha') in Hreq; [done|by rewrite <- Hso].
Qed.

(** An armed attempt is bound to its prompt: it exists only for a ready plan, a fence
    and the task's active current worker; the intent rebuilt from the same prompt carries
    that prompt with the attempt's nonce and digest; and a prompt that renders to another
    digest is refused. *)
Theorem armed_prompt_is_bound plan task worker prompt version sig now u1 u2 a :
  build_action_attempt plan task worker prompt version sig now u1 u2 = Ok a →
  (pl_candidate_ready plan = true ∧ pl_fence_token plan = Some (aa_fence_token a) ∧
   tr_current_worker_id task = Some (aa_worker_id a) ∧
   wr_status worker = WorkerStatus.ACTIVE ∧ aa_task_id a = tr_task_id task) ∧
  (∃ wire i, render_action_prompt prompt u1 = Ok wire ∧ intent_from_attempt a prompt = Ok i ∧
     in_prompt i = wire ∧ in_prompt_hash i = aa_prompt_hash a ∧
     in_attempt_id i = aa_attempt_id a) ∧
  (∀ other i, intent_from_attempt a other = Ok i →
     ∃ wire, render_action_prompt other u1 = Ok wire ∧ prompt_digest wire = aa_prompt_hash a).
Proof.
  intros H. destruct (built_attempt _ _ _ _ _ _ _ _ _ _ H)
    as (wire & Hw & Hn & Hh & Hs & Hp & Hrest).
  split; [done|]. split.
  - exists wire, (mkActionIntent (aa_attempt_id a) (aa_task_id a) (aa_worker_id a) (aa_action a)
      wire (prompt_digest wire) (aa_nonce a) (aa_fence_token a) (aa_fence_version a)).
    rewrite (built_intent a u1 prompt), Hw, Hh, String.eqb_refl by done. by cbn.
  - intros other i. rewrite (built_intent a u1 other) by done.
    destruct (render_action_prompt other u1) as [w|]; [|done].
    destruct (String.eqb_spec (prompt_digest w) (aa_prompt_hash a)); [|done]. eauto.
Qed.

End Actions.

(** ** Witnesses: one attempt armed, sent twice, acknowledged, and a second recovery *)

#[local] Existing Instance text_digests.

#[local] Instance attempt_formatting : Formatting := {|
  format_f0 := λ _, ""; format_f1 := λ _, ""; json_text := λ _, ""; json_repr := λ _, "";
|}.

Definition recovery_task : TaskRecord :=
  mkTaskRecord "task" "p" "o" "/w" SupervisorState.SUSPECT None [] (Some "w1") 0 2
    (of_Z 1) (of_Z 1).

Definition recovery_worker : WorkerRecord :=
  mkWorkerRecord "w1" "task" "https://chat/c/1" None WorkerStatus.ACTIVE (of_Z 1) None None.

Definition recovery_registry : Registry :=
  empty_registry <| rg_tasks := {["task" := recovery_task]} |>
                 <| rg_workers := {["w1" := recovery_worker]} |>.

Definition continue_plan : DispatchPlan :=
  mkDispatchPlan "task" (of_Z 2) DispatchAction.CONTINUE_CURRENT_WORKER true true true "ok"
    (Some "rec_1") (Some "rec_2") (Some "fence") [] [].

(** The attempt that [build_action_attempt] makes with the nonce [n]. *)
Definition attempt_of (n : string) (now : Z) : ActionAttempt :=
  match build_action_attempt continue_plan recovery_task recovery_worker "go on" 7 None
          (of_Z now) n (n +:+ "0123456789abcdef") with
  | Ok a => a
  | Err _ => mkActionAttempt "" "" "" "" "" 0 "" "" ActionAttemptState.CANCELLED (of_Z 0)
               (of_Z 0) None None None None None None None []
  end.

Definition unsure_answer : transport_outcome :=
  Returned (mkTransportSubmission false true "cdp" "no echo").

Definition unsure_transport : ActionTransport := mkActionTransport "cdp" (λ _, unsure_answer).

Definition first_id : string := aa_attempt_id (attempt_of "n1" 3).

Definition attempt_calls : list action_call :=
  [ARecovery (attempt_of "n1" 3); ARecovery (attempt_of "n2" 4);
   AOutcome first_id "disabled" (TransportDisabled "off") (of_Z 5);
   AOutcome first_id "cdp" unsure_answer (of_Z 6);
   AOutcome first_id "cdp" unsure_answer (of_Z 7);
   AAcknowledge (mkActionAcknowledgement first_id "w1" (of_Z 8) true "reply" "hash" "" None);
   AFail first_id "late" None (of_Z 9); ARecovery (attempt_of "n2" 10);
   ACancel (aa_attempt_id (attempt_of "n2" 10)) "stop" (of_Z 11);
   ARecovery (attempt_of "n3" 12)].

Lemma recovery_registry_ok : acts_ok recovery_registry.
Proof. apply empty_acts_ok. reflexivity. Qed.

Lemma action_attempts_exclusive_witness :
  (length (open_rows (rg_actions (perform_all (perform_all recovery_registry
     (take 4 attempt_calls)) (drop 4 attempt_calls))) "task") ≤ 1)%nat.
Proof.
  destruct (action_attempts_exclusive recovery_registry (take 4 attempt_calls)
    (drop 4 attempt_calls)) as [H _]; [reflexivity|]. apply H.
Defined.

Lemma recovery_budget_is_exact_witness :
  counts (perform_all recovery_registry attempt_calls) "task"
    (0 + recoveries "task" recovery_registry attempt_calls) 2 ∧
  recoveries "task" recovery_registry attempt_calls = 2.
Proof.
  destruct (recovery_budget_is_exact recovery_registry attempt_calls "task" 0 2) as [H _].
  - apply recovery_registry_ok.
  - exists recovery_task. split_and!; reflexivity.
  - lia.
  - split; [exact H|vm_compute; reflexivity].
Defined.

(** The execution of the first attempt sends and dies; a direct submission of the attempt it
    left ARMED sends again, while executions are refused. *)
Definition crash_moves : list (Pool.move submission_act) :=
  [Pool.Act (Execute true (attempt_of "n1" 3) "go on" unsure_transport);
   Pool.Step 0 (of_Z 4); Pool.Step 0 (of_Z 5); Pool.Die 0;
   Pool.Act (Execute true (attempt_of "n2" 6) "go on" unsure_transport)].

Definition resend_moves : list (Pool.move submission_act) :=
  [Pool.Act (Resubmit first_id "go on" unsure_transport);
   Pool.Step 2 (of_Z 7); Pool.Step 2 (of_Z 8); Pool.Step 2 (of_Z 9)].

Definition crashed := submissions (nobody_submits recovery_registry) crash_moves.

Example crash_leaves_the_attempt_armed :
  (aa_state <$> rg_actions (Pool.store crashed) !! first_id = Some ActionAttemptState.ARMED) ∧
  transport_uses first_id (Pool.log crashed) = 1%nat ∧ Pool.running crashed = [None; None] ∧
  transport_uses first_id (Pool.log (submissions crashed resend_moves)) = 2%nat.
Proof. vm_compute. by split_and!. Qed.

Example crash_keeps_the_task :
  aa_task_id <$> rg_actions (Pool.store crashed) !! first_id = Some "task".
Proof. vm_compute. reflexivity. Qed.

Lemma transport_used_once_witness :
  (transport_uses first_id (Pool.log (submissions crashed resend_moves)) ≤ 2)%nat ∧
  submission_start (Execute true (attempt_of "n2" 6) "go on" unsure_transport)
    (Pool.store crashed) = (Pool.store crashed, [], None) ∧
  (transport_uses first_id (Pool.log (submissions crashed [])) ≤ 1)%nat.
Proof.
  destruct (transport_used_once recovery_registry crash_moves resend_moves first_id
    recovery_registry_ok) as (H1 & _ & _ & H4).
  destruct (transport_used_once recovery_registry crash_moves [] first_id
    recovery_registry_ok) as (H0 & _).
  split; [exact H1|]. split; [|exact H0].
  destruct (rg_actions (Pool.store crashed) !! first_id) as [a|] eqn:E.
  - apply (H4 a).
    + exact E.
    + pose proof (proj1 crash_leaves_the_attempt_armed) as Hs. rewrite E in Hs.
      injection Hs as Hs. unfold action_unresolved. rewrite Hs. reflexivity.
    + pose proof crash_keeps_the_task as Ht. rewrite E in Ht. injection Ht as Ht.
      rewrite Ht. vm_compute. reflexivity.
  - pose proof (proj1 crash_leaves_the_attempt_armed) as Hs. rewrite E in Hs. discriminate Hs.
Defined.

Definition armed_registry : Registry := perform_all recovery_registry (take 3 attempt_calls).

Definition unsure_submission : Registry * SubmitOutcome :=
  match submit_armed_action armed_registry first_id "go on" unsure_transport (of_Z 6) with
  | Ok x => x
  | Err _ => (empty_registry, mkSubmitOutcome "" "" false false None "")
  end.

Lemma submission_is_conservative_witness :
  so_side_effect_possible unsure_submission.2 = true ∧
  ∃ a', rg_actions unsure_submission.1 !! first_id = Some a' ∧
    (so_side_effect_possible unsure_submission.2 = true ↔ action_unresolved a' = true).
Proof.
  split; [vm_compute; reflexivity|].
  destruct (submission_is_conservative armed_registry first_id "go on" unsure_transport (of_Z 6)
    unsure_submission.1 unsure_submission.2) as (a & i & a' & _ & _ & Ha' & _ & Hiff & _).
  - apply perform_all_kept, recovery_registry_ok.
  - vm_compute. reflexivity.
  - exists a'. split; [exact Ha'|exact Hiff].
Defined.

Lemma armed_prompt_is_bound_witness :
  ∃ wire i, render_action_prompt "go on" "n1" = Ok wire ∧
    intent_from_attempt (attempt_of "n1" 3) "go on" = Ok i ∧ in_prompt i = wire.
Proof.
  destruct (armed_prompt_is_bound continue_plan recovery_task recovery_worker "go on" 7 None
    (of_Z 3) "n1" "n10123456789abcdef" (attempt_of "n1" 3))
    as (_ & (wire & i & Hw & Hi & Hp & _) & _).
  - vm_compute. reflexivity.
  - exists wire, i. split; [exact Hw|]. split; [exact Hi|exact Hp].
Defined.
