(* ===== verification/Leases.v ===== *)
(** * registry.py: watchdog leases and runtime cooldowns

    A watchdog lease excludes a second supervisor while it is fresh.  A stop request
    replaces the owner by a stop token, so the running watchdog loses its next heartbeat
    while no replacement can start before the grace period ends. *)

From S2P Require Import Prelude PyFloat PyStr PyJson Models WorkerProtocol Registry.

Open Scope string_scope.
Open Scope Z_scope.
Open Scope list_scope.

(** ** Watchdog leases *)

Definition watchdog_lease (r : Registry) (name : string) : option WatchdogLease :=
  rg_watchdogs r !! name.

(** Writing a row: its REAL columns are NOT NULL. *)
Definition put_lease (r : Registry) (name : string) (l : WatchdogLease) : res Registry :=
  real_not_null (wd_started_at l);;
  real_not_null (wd_heartbeat_at l);;
  real_not_null (wd_expires_at l);;
  Ok (r <| rg_watchdogs := <[name := l]> (rg_watchdogs r) |>).

(** The boolean says whether the lease was acquired; the lease is the new row, or the
    row of the owner that still holds it. *)
Definition acquire_watchdog_lease (r : Registry) (name owner_id : string) (pid : Z)
    (host : string) (ttl_s now : float) : res (Registry * (bool * WatchdogLease)) :=
  let expires_at := fadd now (fmax (of_Z 1) ttl_s) in
  let write started_at :=
    let l := mkWatchdogLease owner_id pid host started_at now expires_at in
    r' ← put_lease r name l;
    Ok (r', (true, l)) in
  match rg_watchdogs r !! name with
  | None => write now
  | Some row =>
      if String.eqb (wd_owner_id row) owner_id then write (wd_started_at row)
      else if flt now (wd_expires_at row) then Ok (r, (false, row))
      else write now
  end.

(** [UPDATE ... WHERE name = ? AND owner_id = ?] *)
Definition heartbeat_watchdog_lease (r : Registry) (name owner_id : string)
    (ttl_s now : float) : res (Registry * bool) :=
  match rg_watchdogs r !! name with
  | Some row =>
      if String.eqb (wd_owner_id row) owner_id then
        r' ← put_lease r name
          (row <| wd_heartbeat_at := now |>
               <| wd_expires_at := fadd now (fmax (of_Z 1) ttl_s) |>);
        Ok (r', true)
      else Ok (r, false)
  | None => Ok (r, false)
  end.

(** [DELETE ... WHERE name = ? AND owner_id = ?] *)
Definition release_watchdog_lease (r : Registry) (name owner_id : string)
    : res (Registry * bool) :=
  match rg_watchdogs r !! name with
  | Some row =>
      if String.eqb (wd_owner_id row) owner_id
      then Ok (r <| rg_watchdogs := delete name (rg_watchdogs r) |>, true)
      else Ok (r, false)
  | None => Ok (r, false)
  end.

Definition stop_prefix : string := "stop:".

(** [uuid] is the fresh [uuid4().hex].  The result is the row, with the previous owner
    when this call fenced it. *)
Definition request_watchdog_stop (r : Registry) (name : string) (grace_s : float)
    (uuid : string) (now : float)
    : res (Registry * option (WatchdogLease * option string)) :=
  match rg_watchdogs r !! name with
  | None => Ok (r, None)
  | Some previous =>
      if startswith stop_prefix (wd_owner_id previous) && flt now (wd_expires_at previous)
      then Ok (r, Some (previous, None))
      else
        let l := previous <| wd_owner_id := stop_prefix +:+ uuid |>
                          <| wd_heartbeat_at := now |>
                          <| wd_expires_at := fadd now (fmax (of_Z 5) grace_s) |> in
        r' ← put_lease r name l;
        Ok (r', Some (l, Some (wd_owner_id previous)))
  end.

Definition clear_watchdog_stop (r : Registry) (name stop_owner_id : string)
    : res (Registry * bool) :=
  raise_if (negb (startswith stop_prefix stop_owner_id)) ValueError
    "stop_owner_id must be a stop: lease token";;
  release_watchdog_lease r name stop_owner_id.

(** ** Runtime cooldowns *)

Definition get_runtime_cooldown (r : Registry) (name : string)
    : res (option RuntimeCooldown) :=
  raise_if (negb (str_truthy (strip name))) ValueError "runtime cooldown name is required";;
  Ok (rg_cooldowns r !! strip name).

(** The result is [get_runtime_cooldown(key) or {}]. *)
Definition set_runtime_cooldown (r : Registry) (name : string) (until_at : float)
    (reason : string) (metadata : option dict) (now : float)
    : res (Registry * option RuntimeCooldown) :=
  let key := strip name in
  let note := strip reason in
  raise_if (negb (str_truthy key) || negb (str_truthy note)) ValueError
    "runtime cooldown name and reason are required";;
  raise_if (fle until_at now) ValueError "runtime cooldown must end in the future";;
  real_not_null until_at;;
  real_not_null now;;
  let r' := r <| rg_cooldowns := <[key :=
    mkRuntimeCooldown until_at note now (default [] metadata)]> (rg_cooldowns r) |> in
  d ← get_runtime_cooldown r' key;
  Ok (r', d).

(** ** Runs of lease calls *)

Inductive lease_call :=
  | LAcquire (name owner_id : string) (pid : Z) (host : string) (ttl_s now : float)
  | LHeartbeat (name owner_id : string) (ttl_s now : float)
  | LRelease (name owner_id : string)
  | LStop (name : string) (grace_s : float) (uuid : string) (now : float)
  | LClear (name stop_owner_id : string).

(** The new registry, and whether the call was granted. *)
Definition lease_step (r : Registry) (c : lease_call) : res (Registry * bool) :=
  match c with
  | LAcquire name o pid host ttl now =>
      '(r', (b, _)) ← acquire_watchdog_lease r name o pid host ttl now; Ok (r', b)
  | LHeartbeat name o ttl now => heartbeat_watchdog_lease r name o ttl now
  | LRelease name o => release_watchdog_lease r name o
  | LStop name g u now =>
      '(r', x) ← request_watchdog_stop r name g u now;
      Ok (r', match x with Some (_, Some _) => true | _ => false end)
  | LClear name o => clear_watchdog_stop r name o
  end.

(** An exception leaves the registry as it was. *)
Definition lease_step_or_stay (r : Registry) (c : lease_call) : Registry * bool :=
  match lease_step r c with Ok x => x | Err _ => (r, false) end.

Definition lease_call_name (c : lease_call) : string :=
  match c with
  | LAcquire n _ _ _ _ _ | LHeartbeat n _ _ _ | LRelease n _ | LStop n _ _ _ | LClear n _ => n
  end.

Fixpoint lease_run (r : Registry) (calls : list lease_call) : Registry :=
  match calls with
  | [] => r
  | c :: calls => lease_run (lease_step_or_stay r c).1 calls
  end.

(** The calls on the lease [name] that were granted, in order. *)
Fixpoint lease_grants (name : string) (r : Registry) (calls : list lease_call)
    : list lease_call :=
  match calls with
  | [] => []
  | c :: calls =>
      let '(r', b) := lease_step_or_stay r c in
      (if b && String.eqb (lease_call_name c) name then [c] else []) ++
      lease_grants name r' calls
  end.

(** A call on [l] that comes from somebody else, and not after its expiry; a stop request
    is from somebody else when [l] is itself a stop token. *)
Definition outsider (name : string) (l : WatchdogLease) (c : lease_call) : bool :=
  negb (String.eqb (lease_call_name c) name) ||
  match c with
  | LAcquire _ o _ _ _ now => negb (String.eqb o (wd_owner_id l)) && flt now (wd_expires_at l)
  | LHeartbeat _ o _ _ | LRelease _ o | LClear _ o => negb (String.eqb o (wd_owner_id l))
  | LStop _ _ _ now => startswith stop_prefix (wd_owner_id l) && flt now (wd_expires_at l)
  end.

(** ** Lemmas *)

Lemma put_lease_Ok r name l r' :
  put_lease r name l = Ok r' → r' = r <| rg_watchdogs := <[name := l]> (rg_watchdogs r) |>.
Proof. unfold put_lease. by intros [_ [_ [_ [= <-]]%unit_bind_Ok]%unit_bind_Ok]%unit_bind_Ok. Qed.

(** Each operation works on one name. *)
Lemma lease_step_other r c r' b name :
  lease_step r c = Ok (r', b) → lease_call_name c ≠ name →
  rg_watchdogs r' !! name = rg_watchdogs r !! name.
Proof.
  intros H Hne. destruct c as [n o pid h ttl now|n o ttl now|n o|n g u now|n o]; cbn in H, Hne.
  - apply bind_Ok_inv in H as ([r1 [b1 l1]] & H & [= <- _]). revert H.
    unfold acquire_watchdog_lease. cbv zeta.
    destruct (rg_watchdogs r !! n) as [row|];
      [destruct (String.eqb _ _); [|destruct (flt _ _)]|].
    + intros (r2 & ->%put_lease_Ok & [= <- _ _])%bind_Ok_inv. by apply lookup_insert_ne.
    + by intros [= <- _ _].
    + intros (r2 & ->%put_lease_Ok & [= <- _ _])%bind_Ok_inv. by apply lookup_insert_ne.
    + intros (r2 & ->%put_lease_Ok & [= <- _ _])%bind_Ok_inv. by apply lookup_insert_ne.
  - revert H. unfold heartbeat_watchdog_lease.
    destruct (rg_watchdogs r !! n) as [row|]; [destruct (String.eqb _ _)|]; [|by intros [= <- _]..].
    intros (r2 & ->%put_lease_Ok & [= <- _])%bind_Ok_inv. by apply lookup_insert_ne.
  - revert H. unfold release_watchdog_lease.
    destruct (rg_watchdogs r !! n) as [row|]; [destruct (String.eqb _ _)|]; [|by intros [= <- _]..].
    intros [= <- _]. by apply lookup_delete_ne.
  - apply bind_Ok_inv in H as ([r1 x] & H & [= <- _]). revert H. unfold request_watchdog_stop.
    destruct (rg_watchdogs r !! n) as [row|]; [|by intros [= <- _]].
    destruct (_ && _); [by intros [= <- _]|]. cbv zeta.
    intros (r2 & ->%put_lease_Ok & [= <- _])%bind_Ok_inv. by apply lookup_insert_ne.
  - apply unit_bind_Ok in H as [_ H]. revert H. unfold release_watchdog_lease.
    destruct (rg_watchdogs r !! n) as [row|]; [destruct (String.eqb _ _)|]; [|by intros [= <- _]..].
    intros [= <- _]. by apply lookup_delete_ne.
Qed.

(** A call by an outsider leaves the lease as it is and is refused. *)
Lemma outsider_refused r c name l r' b :
  rg_watchdogs r !! name = Some l → outsider name l c = true →
  lease_step_or_stay r c = (r', b) →
  rg_watchdogs r' !! name = Some l ∧ b && String.eqb (lease_call_name c) name = false.
Proof.
  intros Hl Ho. unfold lease_step_or_stay. destruct (lease_step r c) as [[r1 b1]|] eqn:E;
    [|by intros [= <- <-]].
  intros [= <- <-]. unfold outsider in Ho.
  destruct (String.eqb_spec (lease_call_name c) name) as [Hn|Hn].
  - cbn [negb orb] in Ho. revert E.
    destruct c as [n o pid h ttl now|n o ttl now|n o|n g u now|n o]; cbn in Hn, Ho |- *;
      subst n; try apply andb_true_iff in Ho as [Ho Hx]; try apply negb_true_iff in Ho.
    + unfold acquire_watchdog_lease. rewrite Hl, String.eqb_sym, Ho, Hx. by intros [= <- <-].
    + unfold heartbeat_watchdog_lease. rewrite Hl, String.eqb_sym, Ho. by intros [= <- <-].
    + unfold release_watchdog_lease. rewrite Hl, String.eqb_sym, Ho. by intros [= <- <-].
    + unfold request_watchdog_stop. rewrite Hl, Ho, Hx. by intros [= <- <-].
    + intros [_ H]%unit_bind_Ok. revert H. unfold release_watchdog_lease.
      rewrite Hl, String.eqb_sym, Ho. by intros [= <- <-].
  - rewrite (lease_step_other _ _ _ _ _ E Hn), andb_false_r. done.
Qed.

Lemma outsiders_refused r calls name l :
  rg_watchdogs r !! name = Some l → forallb (outsider name l) calls = true →
  rg_watchdogs (lease_run r calls) !! name = Some l ∧ lease_grants name r calls = [].
Proof.
  revert r. induction calls as [|c calls IH]; intros r Hl Ho; cbn; [done|].
  cbn in Ho. apply andb_true_iff in Ho as [Hc Ho].
  destruct (lease_step_or_stay r c) as [r' b] eqn:E. cbn.
  destruct (outsider_refused _ _ _ _ _ _ Hl Hc E) as [Hl' ->]. by apply IH.
Qed.

(** * The guarantees of the watchdog leases and the cooldowns *)

Lemma acquired_lease r name o pid host ttl now r' l :
  acquire_watchdog_lease r name o pid host ttl now = Ok (r', (true, l)) →
  rg_watchdogs r' !! name = Some l ∧ wd_owner_id l = o ∧ wd_pid l = pid ∧ wd_host l = host ∧
  wd_heartbeat_at l = now ∧ wd_expires_at l = fadd now (fmax (of_Z 1) ttl).
Proof.
  unfold acquire_watchdog_lease. cbv zeta. destruct (rg_watchdogs r !! name) as [row|];
    [destruct (String.eqb _ _); [|destruct (flt _ _); [done|]]|];
    intros (r1 & ->%put_lease_Ok & [= <- <-])%bind_Ok_inv; cbn;
    by rewrite lookup_insert_eq.
Qed.

Lemma startswith_app p s : startswith p (p +:+ s) = true.
Proof.
  unfold startswith. assert (drop_prefix p (p +:+ s) = Some s) as ->; [|done].
  induction p as [|a p IH]; [done|]. change (String a p +:+ s) with (String a (p +:+ s)).
  cbn. by rewrite Ascii.eqb_refl.
Qed.

(** The watchdog lease excludes: once an owner has acquired it, no call of anybody
    else before it expires is granted or changes it, neither an acquisition, a heartbeat,
    a release nor the clearing of a stop, on whatever run of calls. *)
Theorem watchdog_lease_excludes r name o pid host ttl now r' l calls :
  acquire_watchdog_lease r name o pid host ttl now = Ok (r', (true, l)) →
  forallb (outsider name l) calls = true →
  wd_owner_id l = o ∧ wd_expires_at l = fadd now (fmax (of_Z 1) ttl) ∧
  rg_watchdogs (lease_run r' calls) !! name = Some l ∧ lease_grants name r' calls = [].
Proof.
  intros (Hl & Ho & _ & _ & _ & He)%acquired_lease Hout.
  split; [done|]. split; [done|]. by apply outsiders_refused.
Qed.

(** A stop request fences the running watchdog: the lease passes to the stop token for
    at least five seconds; until it expires every call of the previous owner and of any
    replacement is refused, further stop requests included; and clearing the token frees
    the name. *)
Theorem watchdog_stop_fences r name grace uuid now r' l previous calls :
  request_watchdog_stop r name grace uuid now = Ok (r', Some (l, Some previous)) →
  forallb (outsider name l) calls = true →
  wd_owner_id l = stop_prefix +:+ uuid ∧ wd_expires_at l = fadd now (fmax (of_Z 5) grace) ∧
  rg_watchdogs (lease_run r' calls) !! name = Some l ∧ lease_grants name r' calls = [] ∧
  (∀ ttl t, previous ≠ stop_prefix +:+ uuid → outsider name l (LHeartbeat name previous ttl t) = true) ∧
  (∀ g u t, flt t (wd_expires_at l) = true → outsider name l (LStop name g u t) = true) ∧
  ∃ r'', clear_watchdog_stop (lease_run r' calls) name (wd_owner_id l) = Ok (r'', true) ∧
    rg_watchdogs r'' !! name = None.
Proof.
  unfold request_watchdog_stop. destruct (rg_watchdogs r !! name) as [row|] eqn:Hrow; [|done].
  destruct (_ && _); [done|]. cbv zeta.
  intros (r1 & ->%put_lease_Ok & [= <- <- <-])%bind_Ok_inv Hout.
  match goal with |- context [lease_run ?r1 _] =>
    destruct (outsiders_refused r1 calls name _ (lookup_insert_eq _ _ _) Hout) as [Hl Hg] end.
  split_and!; try done.
  - intros ttl t Hne. unfold outsider. cbn [lease_call_name]. rewrite String.eqb_refl.
    cbn. by apply negb_true_iff, String.eqb_neq.
  - intros g u t Ht. unfold outsider. cbn [lease_call_name]. rewrite String.eqb_refl.
    cbn [negb orb]. rewrite Ht. cbn [wd_owner_id]. by rewrite startswith_app.
  - unfold clear_watchdog_stop, release_watchdog_lease. rewrite Hl. cbn [wd_owner_id].
    rewrite startswith_app, String.eqb_refl. eexists. split; [done|]. cbn. apply lookup_delete_eq.
Qed.

(** Acquisition is decided by the lease alone: it is granted exactly when no other
    owner holds an unexpired lease; a refusal reports the holder and writes nothing; and
    the same owner keeps its start time. *)
Theorem watchdog_acquire_decides r name o pid host ttl now r' b l :
  acquire_watchdog_lease r name o pid host ttl now = Ok (r', (b, l)) →
  (b = true ↔ ∀ row, rg_watchdogs r !! name = Some row → wd_owner_id row ≠ o →
                flt now (wd_expires_at row) = false) ∧
  (b = false → r' = r ∧ rg_watchdogs r !! name = Some l ∧ wd_owner_id l ≠ o) ∧
  (∀ row, rg_watchdogs r !! name = Some row → wd_owner_id row = o →
     wd_started_at l = wd_started_at row).
Proof.
  unfold acquire_watchdog_lease. cbv zeta. destruct (rg_watchdogs r !! name) as [row|] eqn:Hrow.
  - destruct (String.eqb_spec (wd_owner_id row) o) as [Ho|Ho].
    + intros (r1 & _ & [= _ <- <-])%bind_Ok_inv. split_and!; [|done|].
      * split; [|done]. intros _ row' [= <-] Hne. done.
      * intros row' [= <-] _. done.
    + destruct (flt now (wd_expires_at row)) eqn:Hlive.
      * intros [= <- <- <-]. split_and!; [|done|].
        -- split; [done|]. intros H. by rewrite (H row) in Hlive.
        -- by intros row' [= <-] ?.
      * intros (r1 & _ & [= _ <- <-])%bind_Ok_inv. split_and!; [|done|].
        -- split; [|done]. by intros _ row' [= <-] _.
        -- by intros row' [= <-] ?.
  - intros (r1 & _ & [= _ <- <-])%bind_Ok_inv. by split_and!.
Qed.

(** Runtime cooldowns are read back as they were set: under every name that differs
    only in surrounding white space, with the trimmed reason and an end that is still to
    come; the other names are not touched. *)
Theorem cooldown_roundtrip r name until_at reason metadata now r' d :
  set_runtime_cooldown r name until_at reason metadata now = Ok (r', d) →
  d = Some (mkRuntimeCooldown until_at (strip reason) now (default [] metadata)) ∧
  flt now until_at = true ∧
  (∀ other, strip other = strip name → get_runtime_cooldown r' other = Ok d) ∧
  (∀ other, strip other ≠ strip name →
     get_runtime_cooldown r' other = get_runtime_cooldown r other).
Proof.
  intros H. apply raise_if_then in H as [Hkey H]. apply raise_if_then in H as [Hle H].
  apply unit_bind_Ok in H as [Hu H]. apply unit_bind_Ok in H as [Hn H].
  apply raise_if_Ok_inv in Hu, Hn.
  apply bind_Ok_inv in H as (d' & Hd & [= <- <-]). bool_to_prop.
  unfold get_runtime_cooldown in *. rewrite strip_idemp in Hd.
  destruct (str_truthy (strip name)) eqn:Ht; [|done]. cbn in Hd.
  rewrite lookup_insert_eq in Hd. injection Hd as <-. split_and!; [done| | |].
  - destruct (flt now until_at) eqn:E; [done|]. apply not_flt_fle in E; [congruence|done..].
  - intros other ->. rewrite Ht. cbn. by rewrite lookup_insert_eq.
  - intros other Hne. destruct (str_truthy (strip other)); [|done]. cbn.
    by rewrite lookup_insert_ne.
Qed.

(** ** Witnesses *)

Definition lease_calls : list lease_call :=
  [LAcquire "default" "b" 2 "host" (of_Z 30) (of_Z 20); LHeartbeat "default" "b" (of_Z 30) (of_Z 25);
   LRelease "default" "b"; LAcquire "other" "b" 2 "host" (of_Z 30) (of_Z 26);
   LClear "default" "stop:x"].

Definition first_lease : WatchdogLease :=
  mkWatchdogLease "a" 1 "host" (of_Z 10) (of_Z 10) (of_Z 40).

Definition leased : Registry := empty_registry <| rg_watchdogs := {["default" := first_lease]} |>.

Lemma watchdog_lease_excludes_witness :
  rg_watchdogs (lease_run leased lease_calls) !! "default" = Some first_lease.
Proof.
  apply (watchdog_lease_excludes empty_registry "default" "a" 1 "host" (of_Z 30) (of_Z 10) leased
    first_lease lease_calls); vm_compute; reflexivity.
Defined.

Definition stop_lease : WatchdogLease :=
  mkWatchdogLease "stop:u" 1 "host" (of_Z 10) (of_Z 15) (of_Z 75).

Definition stopped : Registry :=
  empty_registry <| rg_watchdogs := {["default" := stop_lease]} |>.

Definition fenced_calls : list lease_call :=
  [LHeartbeat "default" "a" (of_Z 30) (of_Z 16); LStop "default" (of_Z 60) "v" (of_Z 20);
   LAcquire "default" "b" 2 "host" (of_Z 30) (of_Z 50); LRelease "default" "a"].

Lemma watchdog_stop_fences_witness :
  rg_watchdogs (lease_run stopped fenced_calls) !! "default" = Some stop_lease ∧
  lease_grants "default" stopped fenced_calls = [].
Proof.
  destruct (watchdog_stop_fences leased "default" (of_Z 60) "u" (of_Z 15) stopped stop_lease "a"
    fenced_calls) as (_ & _ & H1 & H2 & _).
  - vm_compute. reflexivity.
  - vm_compute. reflexivity.
  - split; [exact H1|exact H2].
Defined.

Lemma watchdog_acquire_decides_witness :
  rg_watchdogs leased !! "default" = Some first_lease ∧
  String.eqb (wd_owner_id first_lease) "b" = false.
Proof.
  destruct (watchdog_acquire_decides leased "default" "b" 2 "host" (of_Z 30) (of_Z 20) leased
    false first_lease) as (_ & H & _).
  - vm_compute. reflexivity.
  - destruct (H eq_refl) as (_ & Hl & Hne). split; [exact Hl|by apply String.eqb_neq].
Defined.

Definition rested : Registry :=
  empty_registry <| rg_cooldowns :=
    {["chat" := mkRuntimeCooldown (of_Z 50) "quota" (of_Z 10) []]} |>.

Lemma cooldown_roundtrip_witness :
  get_runtime_cooldown rested "chat " =
  Ok (Some (mkRuntimeCooldown (of_Z 50) "quota" (of_Z 10) [])).
Proof.
  apply (cooldown_roundtrip empty_registry " chat" (of_Z 50) "quota " None (of_Z 10) rested
    (Some (mkRuntimeCooldown (of_Z 50) "quota" (of_Z 10) []))); vm_compute; reflexivity.
Defined.
