(* ===== verification/Programs.v ===== *)
(** * Programs of several transactions

    Some operations of the supervisor run several registry transactions one after the
    other.  Such a program keeps what it committed when a later step raises, so it returns
    the registry next to its result. *)

From S2P Require Import Prelude PyFloat PyStr Models WorkerProtocol Registry.

Open Scope string_scope.
Open Scope Z_scope.
Open Scope list_scope.

Definition prog (A : Type) : Type := Registry → Registry * res A.

#[export] Instance prog_ret : MRet prog := λ A a r, (r, Ok a).
#[export] Instance prog_bind : MBind prog := λ A B f m r,
  match m r with
  | (r', Ok a) => f a r'
  | (r', Err e) => (r', Err e)
  end.

(** One transaction: an exception rolls it back. *)
Definition txn {A} (m : Registry → res (Registry * A)) : prog A := λ r,
  match m r with Ok (r', a) => (r', Ok a) | Err e => (r, Err e) end.

Definition query {A} (m : Registry → res A) : prog A := λ r, (r, m r).

Definition fails {A} (c : exn_class) (msg : string) : prog A := λ r, (r, raise c msg).

(** A protocol call whose decision must be accepted. *)
Definition accepted_or (m : Registry → res (Registry * ProtocolDecision)) (msg : string)
    : prog WorkerTaskState :=
  d ← txn m;
  if pd_accepted d then mret (pd_state d) else fails RuntimeError msg.

(** ** Running a program *)

Lemma prog_bind_run {A B} (m : prog A) (f : A → prog B) r :
  (m ≫= f) r =
  match m r with (r', Ok a) => f a r' | (r', Err e) => (r', Err e) end.
Proof. done. Qed.

Lemma query_bind {A B} (q : Registry → res A) (f : A → prog B) r r' x :
  (query q ≫= f) r = (r', x) →
  (∃ a, q r = Ok a ∧ f a r = (r', x)) ∨ (∃ e, q r = Err e ∧ r' = r ∧ x = Err e).
Proof.
  rewrite prog_bind_run. unfold query. destruct (q r) as [a|e]; [by left; eauto|].
  intros [= <- <-]. right. eauto.
Qed.

Lemma txn_bind {A B} (m : Registry → res (Registry * A)) (f : A → prog B) r r' x :
  (txn m ≫= f) r = (r', x) →
  (∃ r1 a, m r = Ok (r1, a) ∧ f a r1 = (r', x)) ∨ (∃ e, m r = Err e ∧ r' = r ∧ x = Err e).
Proof.
  rewrite prog_bind_run. unfold txn. destruct (m r) as [[r1 a]|e]; [by left; eauto|].
  intros [= <- <-]. right. eauto.
Qed.

Lemma accepted_bind {B} m msg (f : WorkerTaskState → prog B) r r' x :
  (accepted_or m msg ≫= f) r = (r', x) →
  (∃ r1 d, m r = Ok (r1, d) ∧ pd_accepted d = true ∧ f (pd_state d) r1 = (r', x)) ∨
  (∃ e, x = Err e).
Proof.
  rewrite prog_bind_run. unfold accepted_or. rewrite prog_bind_run. unfold txn.
  destruct (m r) as [[r1 d]|e]; [|intros [= _ <-]; eauto].
  destruct (pd_accepted d) eqn:E; cbn; [left; eauto 6|].
  intros [= _ <-]. eauto.
Qed.

(** Programs all of whose transactions respect a preorder. *)
Section Respects.
Context (R : Registry → Registry → Prop) `{!PreOrder R}.

Definition respects {A} (m : prog A) : Prop := ∀ r r' x, m r = (r', x) → R r r'.

Lemma respects_bind {A B} (m : prog A) (f : A → prog B) :
  respects m → (∀ a, respects (f a)) → respects (m ≫= f).
Proof using PreOrder0.
  intros Hm Hf r r' x. rewrite prog_bind_run. destruct (m r) as [r1 [a|e]] eqn:E.
  - intros H. etrans; [by eapply Hm|by eapply Hf].
  - intros [= <- <-]. by eapply Hm.
Qed.

Lemma respects_txn {A} (m : Registry → res (Registry * A)) :
  (∀ r r' a, m r = Ok (r', a) → R r r') → respects (txn m).
Proof using PreOrder0.
  intros H r r' x. unfold txn. destruct (m r) as [[r1 a]|e] eqn:E; intros [= <- <-]; eauto.
  reflexivity.
Qed.

Lemma respects_stay {A} (g : Registry → res A) : respects (λ r, (r, g r)).
Proof using PreOrder0. intros r r' x [= <- _]. reflexivity. Qed.

End Respects.

Lemma query_case {A B} (q : Registry → res A) (f : A → prog B) r x :
  (query q ≫= f) r = x →
  (∃ a, q r = Ok a ∧ f a r = x) ∨ (∃ e, q r = Err e ∧ x = (r, Err e)).
Proof.
  rewrite prog_bind_run. unfold query. destruct (q r) as [a|e]; [by left; eauto|].
  intros <-. right. eauto.
Qed.

Lemma txn_Ok {A} (m : Registry → res (Registry * A)) r r' a :
  txn m r = (r', Ok a) → m r = Ok (r', a).
Proof. unfold txn. destruct (m r) as [[r1 b]|e]; [by intros [= <- <-]|done]. Qed.

Lemma bind_mret {A} (m : prog A) r : (m ≫= mret) r = m r.
Proof. rewrite prog_bind_run. by destruct (m r) as [? []]. Qed.
