(* ===== verification/ProbeOperator.v ===== *)
(** * probe_operator.py: evidence that an operator gives for a probe mutation

    A JSON file with the windows that were seen resolves an ambiguous operation.  Its parser
    accepts exactly the objects of one shape that name the operation and its owner token; the
    command hands what it parsed to the reconciliation of the registry. *)

From stdpp Require Import pretty.
From S2P Require Import Prelude PyFloat PyStr PyJson Models Registry ProbeOps ProbeTheorems Programs.

Open Scope string_scope.
Open Scope Z_scope.
Open Scope list_scope.

Definition MAX_EVIDENCE_BYTES : Z := 32 * 1024.
Definition MAX_MATCHES_PER_TARGET : nat := 8.
Definition MAX_IDENTITY_TEXT : nat := 2048.

Definition _ALLOWED_TOP_LEVEL : list string :=
  ["operation_id"; "owner_token"; "observed_at"; "complete"; "old_matches"; "new_matches"].

Definition _ALLOWED_MATCH_KEYS : list string :=
  ["window_handle"; "browser_pid"; "chrome_executable"; "actual_url"].

Definition classify_probe_operation (operation : option ProbeMutationOperation) : string :=
  match operation with
  | None => "NONE"
  | Some o =>
      if is_state ProbeMutationState.COMPLETED o then "COMPLETED"
      else if is_state ProbeMutationState.RECONCILE_REQUIRED o then "BLOCKED"
      else if probe_unresolved o then "UNRESOLVED"
      else "TERMINAL"
  end.

Definition refuse {A} (message : string) : res A := raise ProbeOperatorEvidenceError message.

Definition refuse_when (b : bool) (message : string) : res unit :=
  raise_if b ProbeOperatorEvidenceError message.

Definition _bounded_text (value : json) (name : string) : res string :=
  match value with
  | JStr s =>
      refuse_when (negb (str_truthy s)) (name +:+ " must be a non-empty string");;
      refuse_when (Nat.ltb MAX_IDENTITY_TEXT (py_len s))
        (name +:+ " exceeds the bounded identity length");;
      Ok s
  | _ => refuse (name +:+ " must be a non-empty string")
  end.

Definition _positive_int (value : json) (name : string) : res Z :=
  match value with
  | JInt z => refuse_when (z <=? 0) (name +:+ " must be a positive integer");; Ok z
  | _ => refuse (name +:+ " must be a positive integer")
  end.

Definition _expected_old_url (operation : ProbeMutationOperation) : option string :=
  prior ← po_prior_slot operation;
  if str_truthy (ps_actual_url prior) then Some (ps_actual_url prior) else None.

(** [sorted(xs - ys)] *)
Definition difference (xs ys : list string) : list string :=
  py_sorted String.leb (List.filter (λ x, negb (bool_decide (x ∈ ys))) xs).

(** [set(keys) != allowed]: what is missing and what is extra, in the message. *)
Definition check_keys (keys allowed : list string) (message : string) : res unit :=
  let missing := difference allowed keys in
  let extra := difference keys allowed in
  let detail := (match missing with [] => [] | _ => ["missing=" +:+ join "," missing] end) ++
                (match extra with [] => [] | _ => ["extra=" +:+ join "," extra] end) in
  refuse_when (match detail with [] => false | _ => true end)
    (message +:+ " (" +:+ join "; " detail +:+ ")").

Definition _parse_match (raw : json) (name : string) (expected_url : option string)
    : res ProbeWindowMatch :=
  match raw with
  | JObj d =>
      check_keys d.*1 _ALLOWED_MATCH_KEYS (name +:+ " match fields are invalid");;
      actual_url ← _bounded_text (dget "actual_url" d) (name +:+ ".actual_url");
      match expected_url with
      | None => refuse (name +:+ " evidence is not valid for this operation")
      | Some expected =>
          refuse_when (negb (String.eqb (rstrip_slash actual_url) (rstrip_slash expected)))
            (name +:+ ".actual_url does not match this operation");;
          handle ← _positive_int (dget "window_handle" d) (name +:+ ".window_handle");
          pid ← _positive_int (dget "browser_pid" d) (name +:+ ".browser_pid");
          chrome ← _bounded_text (dget "chrome_executable" d) (name +:+ ".chrome_executable");
          Ok (mkProbeWindowMatch handle pid chrome actual_url)
      end
  | _ => refuse (name +:+ " entries must be JSON objects")
  end.

(** [f"{name}[{index}]"] from [index] on *)
Fixpoint parse_matches (index : Z) (rows : list json) (name : string)
    (expected_url : option string) : res (list ProbeWindowMatch) :=
  match rows with
  | [] => Ok []
  | row :: rows =>
      m ← _parse_match row (name +:+ "[" +:+ pretty index +:+ "]") expected_url;
      ms ← parse_matches (index + 1) rows name expected_url;
      Ok (m :: ms)
  end.

Definition _parse_match_list (raw : json) (name : string) (expected_url : option string)
    : res (list ProbeWindowMatch) :=
  match raw with
  | JList rows =>
      refuse_when (Nat.ltb MAX_MATCHES_PER_TARGET (length rows))
        (name +:+ " exceeds the maximum of 8 matches");;
      parse_matches 0 rows name expected_url
  | _ => refuse (name +:+ " must be a JSON array")
  end.

Definition is_finite (f : float) : bool :=
  match f with SpecFloat.S754_zero _ | SpecFloat.S754_finite _ _ _ => true | _ => false end.

(** [float(observed_at)] of a JSON number; an integer beyond the range of a float raises
    [OverflowError], which no caller catches. *)
Definition observed_number (value : json) : res float :=
  match value with
  | JInt z => Ok (of_Z z)
  | JFloat f => Ok f
  | _ => refuse "observed_at must be a finite non-negative number"
  end.

Definition parse_probe_reconciliation_evidence (payload : json)
    (operation : ProbeMutationOperation) (now : float) : res ProbeMutationObservation :=
  match payload with
  | JObj d =>
      check_keys d.*1 _ALLOWED_TOP_LEVEL "probe reconciliation evidence fields are invalid";;
      operation_id ← _bounded_text (dget "operation_id" d) "operation_id";
      owner_token ← _bounded_text (dget "owner_token" d) "owner_token";
      refuse_when (negb (String.eqb operation_id (po_operation_id operation)))
        "evidence operation_id does not match the requested operation";;
      refuse_when (negb (String.eqb owner_token (po_owner_token operation)))
        "evidence owner_token does not match the durable operation";;
      observed_at ← observed_number (dget "observed_at" d);
      refuse_when (negb (is_finite observed_at) || flt observed_at (of_Z 0))
        "observed_at must be a finite non-negative number";;
      refuse_when (flt observed_at (po_updated_at operation))
        "observed_at predates the operation's current durable state";;
      refuse_when (flt (fadd now (of_Z 300)) observed_at)
        "observed_at is implausibly far in the future";;
      match dget "complete" d with
      | JBool complete =>
          old_matches ← _parse_match_list (dget "old_matches" d) "old_matches"
                          (_expected_old_url operation);
          new_matches ← _parse_match_list (dget "new_matches" d) "new_matches"
                          (if str_truthy (po_expected_actual_url operation)
                           then Some (po_expected_actual_url operation) else None);
          Ok (mkProbeMutationObservation observed_at old_matches new_matches complete None)
      | _ => refuse "complete must be a boolean"
      end
  | _ => refuse "probe reconciliation evidence must be a JSON object"
  end.

(** The file on disk: its size and the JSON value of its text. *)
Record EvidenceFile := mkEvidenceFile {
  ef_size : res Z;
  ef_payload : res json;
}.

(** An [OSError] becomes the parser's error; one of the JSON reader passes. *)
Definition reading {A} (m : res A) : res A :=
  match m with
  | Err (Exn OSError message) =>
      refuse ("cannot read probe reconciliation evidence: " +:+ message)
  | _ => m
  end.

Definition load_probe_reconciliation_evidence (file : EvidenceFile)
    (operation : ProbeMutationOperation) (now : float) : res ProbeMutationObservation :=
  size ← reading (ef_size file);
  refuse_when (MAX_EVIDENCE_BYTES <? size)
    "probe reconciliation evidence exceeds 32768 bytes";;
  payload ← reading (ef_payload file);
  parse_probe_reconciliation_evidence payload operation now.

(** ** The commands *)

(** [ORDER BY created_at DESC, operation_id LIMIT ?] *)
Definition newer_operation (x y : ProbeMutationOperation) : bool :=
  if flt (po_created_at y) (po_created_at x) then true
  else if flt (po_created_at x) (po_created_at y) then false
  else String.leb (po_operation_id x) (po_operation_id y).

Definition probe_mutation_operations (r : Registry) (limit : Z) : list ProbeMutationOperation :=
  take (Z.to_nat (Z.max 1 (Z.min limit 500)))
    (py_sorted newer_operation (select (λ _, true) (rg_probe_ops r))).

(** [lws probe-op-status]: the operation that it shows. *)
Definition probe_op_status (r : Registry) (operation_id : option string) (latest : bool)
    : res (string * option ProbeMutationOperation) :=
  raise_if (opt_truthy operation_id && latest) ValueError
    "operation_id and --latest are mutually exclusive";;
  if opt_truthy operation_id then
    o ← get_probe_mutation_operation r (default "" operation_id); Ok ("exact", Some o)
  else if latest
  then Ok ("latest", head (probe_mutation_operations r 1))
  else Ok ("unresolved", unresolved_probe_mutation_operation r).

Section Reconcile.
Context {tables : UnicodeTables}.

(** [lws probe-op-reconcile]: the operation before and after. *)
Definition probe_op_reconcile (operation_id : string) (file : EvidenceFile) (now clock : float)
    : prog (ProbeMutationOperation * ProbeMutationOperation) :=
  before ← query (λ r, get_probe_mutation_operation r operation_id);
  let class := classify_probe_operation (Some before) in
  if String.eqb class "COMPLETED" || String.eqb class "TERMINAL"
  then fails ValueError ("probe operation " +:+ po_operation_id before +:+
         " is terminal in state " +:+ ProbeMutationState.value (po_state before))
  else
    observation ← query (λ _, load_probe_reconciliation_evidence file before now);
    after ← txn (λ r, reconcile_probe_mutation_operation r (po_operation_id before) observation
                        clock);
    mret (before, after).

End Reconcile.

(** ** What the parser accepts *)

Record bounded (s : string) : Prop := {
  bd_some : s ≠ "";
  bd_size : (py_len s ≤ MAX_IDENTITY_TEXT)%nat;
}.

Definition same_keys (keys allowed : list string) : Prop := ∀ k, k ∈ keys ↔ k ∈ allowed.

Record match_fits (expected : option string) (row : json) (m : ProbeWindowMatch) : Prop := {
  mf_fields : ∃ d, row = JObj d ∧ same_keys d.*1 _ALLOWED_MATCH_KEYS ∧
    dget "window_handle" d = JInt (pm_window_handle m) ∧
    dget "browser_pid" d = JInt (pm_browser_pid m) ∧
    dget "chrome_executable" d = JStr (pm_chrome_executable m) ∧
    dget "actual_url" d = JStr (pm_actual_url m);
  mf_window : 0 < pm_window_handle m ∧ 0 < pm_browser_pid m;
  mf_texts : bounded (pm_chrome_executable m) ∧ bounded (pm_actual_url m);
  mf_target : ∃ url, expected = Some url ∧ rstrip_slash (pm_actual_url m) = rstrip_slash url;
}.

Definition rows_fit (expected : option string) (v : json) (ms : list ProbeWindowMatch) : Prop :=
  ∃ rows, v = JList rows ∧ (length rows ≤ MAX_MATCHES_PER_TARGET)%nat ∧
    Forall2 (match_fits expected) rows ms.

Definition expected_new (o : ProbeMutationOperation) : option string :=
  if str_truthy (po_expected_actual_url o) then Some (po_expected_actual_url o) else None.

Record evidence_fits (o : ProbeMutationOperation) (now : float) (d : dict)
    (obs : ProbeMutationObservation) : Prop := {
  ev_fields : same_keys d.*1 _ALLOWED_TOP_LEVEL;
  ev_operation : dget "operation_id" d = JStr (po_operation_id o) ∧ bounded (po_operation_id o);
  ev_owner : dget "owner_token" d = JStr (po_owner_token o) ∧ bounded (po_owner_token o);
  ev_number : observed_number (dget "observed_at" d) = Ok (ob_observed_at obs);
  ev_time : is_finite (ob_observed_at obs) = true ∧ flt (ob_observed_at obs) (of_Z 0) = false ∧
    flt (ob_observed_at obs) (po_updated_at o) = false ∧
    flt (fadd now (of_Z 300)) (ob_observed_at obs) = false;
  ev_complete : dget "complete" d = JBool (ob_complete obs);
  ev_old : rows_fit (_expected_old_url o) (dget "old_matches" d) (ob_old_matches obs);
  ev_new : rows_fit (expected_new o) (dget "new_matches" d) (ob_new_matches obs);
  ev_error : ob_error obs = None;
}.

Lemma bounded_text_Ok v name s : _bounded_text v name = Ok s ↔ v = JStr s ∧ bounded s.
Proof.
  unfold _bounded_text, refuse_when. split.
  - destruct v as [| | | |t| |]; try done. rewrite !raise_if_then, negb_false_iff, str_truthy_true.
    intros (H1 & H2%Nat.ltb_ge & [= <-]). split; [done|by split].
  - intros [-> [H1 H2]]. rewrite !raise_if_then, negb_false_iff, str_truthy_true, Nat.ltb_ge. done.
Qed.

Lemma positive_int_Ok v name z : _positive_int v name = Ok z ↔ v = JInt z ∧ 0 < z.
Proof.
  unfold _positive_int, refuse_when. split.
  - destruct v; try done. rewrite raise_if_then. intros [H%Z.leb_gt [= <-]]. by split.
  - intros [-> H]. rewrite raise_if_then, Z.leb_gt. done.
Qed.

Lemma difference_nil xs ys : difference xs ys = [] ↔ ∀ k, k ∈ xs → k ∈ ys.
Proof.
  unfold difference. split.
  - intros H k Hk. destruct (decide (k ∈ ys)) as [|Hn]; [done|].
    assert (k ∈ @nil string) as []%not_elem_of_nil. rewrite <- H, elem_of_py_sorted.
    apply list_elem_of_In, List.filter_In. rewrite <- list_elem_of_In.
    by rewrite bool_decide_false.
  - intros H. destruct (py_sorted _ _) as [|k l] eqn:E; [done|].
    assert (k ∈ py_sorted String.leb (List.filter (λ x, negb (bool_decide (x ∈ ys))) xs)) as Hk
      by (rewrite E; by left).
    rewrite elem_of_py_sorted in Hk. apply list_elem_of_In, List.filter_In in Hk as [Hk Hn].
    apply list_elem_of_In, H in Hk. by rewrite bool_decide_true in Hn.
Qed.

Lemma check_keys_Ok keys allowed message :
  check_keys keys allowed message = Ok tt ↔ same_keys keys allowed.
Proof.
  unfold check_keys, refuse_when. rewrite raise_if_Ok.
  transitivity (difference allowed keys = [] ∧ difference keys allowed = []).
  - destruct (difference allowed keys), (difference keys allowed); cbn; naive_solver.
  - rewrite !difference_nil. unfold same_keys. naive_solver.
Qed.

Lemma parse_match_Ok row name expected m :
  _parse_match row name expected = Ok m ↔ match_fits expected row m.
Proof.
  unfold _parse_match. split.
  - destruct row as [| | | | | |d]; try done. intros [Hk H]%unit_bind_Ok.
    apply check_keys_Ok in Hk.
    apply bind_Ok in H as (url & [Hu Hb]%bounded_text_Ok & H). destruct expected as [e|]; [|done].
    apply unit_bind_Ok in H as [Hr%raise_if_Ok%negb_false_iff%String.eqb_eq H].
    apply bind_Ok in H as (h & [Hh Hh0]%positive_int_Ok & H).
    apply bind_Ok in H as (p & [Hp Hp0]%positive_int_Ok & H).
    apply bind_Ok in H as (c & [Hc Hcb]%bounded_text_Ok & [= <-]).
    constructor; cbn; [by exists d|done|done|by exists e].
  - intros [(d & -> & Hk & Hh & Hp & Hc & Hu) [Hh0 Hp0] [Hcb Hub] (e & -> & Hr)].
    apply unit_bind_Ok. split; [by apply check_keys_Ok|].
    apply bind_Ok. exists (pm_actual_url m). split; [by apply bounded_text_Ok|].
    apply unit_bind_Ok. split; [by apply raise_if_Ok, negb_false_iff, String.eqb_eq|].
    apply bind_Ok. exists (pm_window_handle m). split; [by apply positive_int_Ok|].
    apply bind_Ok. exists (pm_browser_pid m). split; [by apply positive_int_Ok|].
    apply bind_Ok. exists (pm_chrome_executable m). split; [by apply bounded_text_Ok|].
    by destruct m.
Qed.

Lemma parse_matches_Ok i rows name expected ms :
  parse_matches i rows name expected = Ok ms ↔ Forall2 (match_fits expected) rows ms.
Proof.
  revert i ms. induction rows as [|row rows IH]; intros i ms; cbn.
  - split; [by intros [= <-]|by intros ->%Forall2_nil_inv_l].
  - rewrite bind_Ok. split.
    + intros (m & Hm%parse_match_Ok & H). apply bind_Ok in H as (ms' & H%IH & [= <-]). by constructor.
    + intros H. apply Forall2_cons_inv_l in H as (m & ms' & Hm%(parse_match_Ok _ (name +:+ "[" +:+ pretty i +:+ "]")) & H & ->).
      exists m. split; [done|]. apply bind_Ok. exists ms'. split; [by apply IH|done].
Qed.

Lemma parse_match_list_Ok v name expected ms :
  _parse_match_list v name expected = Ok ms ↔ rows_fit expected v ms.
Proof.
  unfold _parse_match_list, rows_fit. split.
  - destruct v as [| | | | |rows|]; try done.
    intros [H1%raise_if_Ok%Nat.ltb_ge H2%parse_matches_Ok]%unit_bind_Ok. by exists rows.
  - intros (rows & -> & H1 & H2). apply unit_bind_Ok.
    split; [by apply raise_if_Ok, Nat.ltb_ge|by apply parse_matches_Ok].
Qed.

Lemma parse_evidence_Ok payload o now obs :
  parse_probe_reconciliation_evidence payload o now = Ok obs ↔
  ∃ d, payload = JObj d ∧ evidence_fits o now d obs.
Proof.
  unfold parse_probe_reconciliation_evidence, refuse_when. split.
  - destruct payload as [| | | | | |d]; try done. intros [Hk H]%unit_bind_Ok.
    apply check_keys_Ok in Hk.
    apply bind_Ok in H as (id & [Hid Hidb]%bounded_text_Ok & H).
    apply bind_Ok in H as (owner & [How Howb]%bounded_text_Ok & H).
    rewrite !raise_if_then, !negb_false_iff, !String.eqb_eq in H. destruct H as (-> & -> & H).
    apply bind_Ok in H as (t & Ht & H). rewrite !raise_if_then, orb_false_iff, negb_false_iff in H.
    destruct H as ([Hf H0] & Hu & Hn & H).
    destruct (dget "complete" d) as [|complete| | | | |] eqn:Ec; try done.
    apply bind_Ok in H as (old & Ho%parse_match_list_Ok & H).
    apply bind_Ok in H as (new & Hw%parse_match_list_Ok & [= <-]).
    exists d. split; [done|]. by constructor.
  - intros (d & -> & [Hk [Hid Hidb] [How Howb] Ht (Hf & H0 & Hu & Hn) Hc Ho Hw He]).
    apply unit_bind_Ok. split; [by apply check_keys_Ok|].
    apply bind_Ok. exists (po_operation_id o). split; [by apply bounded_text_Ok|].
    apply bind_Ok. exists (po_owner_token o). split; [by apply bounded_text_Ok|].
    rewrite !raise_if_then, !negb_false_iff, !String.eqb_eq. split; [done|]. split; [done|].
    apply bind_Ok. exists (ob_observed_at obs). split; [done|].
    rewrite !raise_if_then, orb_false_iff, negb_false_iff. split_and!; [done..|].
    rewrite Hc. apply bind_Ok. exists (ob_old_matches obs). split; [by apply parse_match_list_Ok|].
    apply bind_Ok. exists (ob_new_matches obs). split; [by apply parse_match_list_Ok|].
    destruct obs; cbn in *; by subst.
Qed.

(** C40: The evidence of an operator is typed and bound to its operation.  A file is accepted
    exactly when it is small enough and holds an object of the six fields, each of its type,
    that names the operation and its owner token, was observed after the last change of the
    operation, and whose windows all carry the address that the operation recorded; the
    command then resolves an unresolved operation, which completes only on conclusive
    evidence, and the slot becomes the one window that was seen or is dropped.  A refused
    file changes nothing. *)
Theorem operator_evidence_is_typed {tables : UnicodeTables} id file now clock r r' x :
  ops_ok r → probe_op_reconcile id file now clock r = (r', x) →
  (∀ o obs, load_probe_reconciliation_evidence file o now = Ok obs ↔
     ∃ size d, ef_size file = Ok size ∧ size ≤ MAX_EVIDENCE_BYTES ∧
       ef_payload file = Ok (JObj d) ∧ evidence_fits o now d obs) ∧
  (∀ e, x = Err e → r' = r) ∧
  (∀ before after, x = Ok (before, after) →
     rg_probe_ops r !! id = Some before ∧ probe_unresolved before = true ∧
     ∃ obs, load_probe_reconciliation_evidence file before now = Ok obs ∧
       (po_state after = ProbeMutationState.COMPLETED →
          conclusive obs clock ∧ ∃ b, adopts before obs b ∧ rg_probe_slots r' = published r before b)).
Proof.
  intros Hok H. split; [|split].
  - intros o obs. unfold load_probe_reconciliation_evidence, refuse_when. rewrite bind_Ok. split.
    + intros (size & Hs & [Hle%Z.ltb_ge Hp]%raise_if_then).
      apply bind_Ok in Hp as (payload & Hp & (d & -> & He)%parse_evidence_Ok).
      exists size, d. split_and!; try done.
      * destruct (ef_size file) as [|[[] ?]]; try done.
      * destruct (ef_payload file) as [|[[] ?]]; try done.
    + intros (size & d & Hs & Hle & Hp & He). exists size. rewrite Hs, Hp. split; [done|].
      apply raise_if_then. split; [by apply Z.ltb_ge|]. apply parse_evidence_Ok. by exists d.
  - intros e ->. unfold probe_op_reconcile in H.
    apply query_bind in H as [(before & Hb & H)|(e' & _ & -> & _)]; [|done].
    destruct (_ || _); [by injection H as <- _|].
    apply query_bind in H as [(obs & Ho & H)|(e' & _ & -> & _)]; [|done].
    apply txn_bind in H as [(r1 & after & Ha & [= _ ?])|(e' & _ & -> & _)]; done.
  - intros before after ->. unfold probe_op_reconcile in H.
    apply query_bind in H as [(b & Hb & H)|(e' & _ & _ & [=])].
    destruct (_ || _) eqn:Hc; [done|]. apply orb_false_iff in Hc as [Hc Ht].
    apply query_bind in H as [(obs & Ho & H)|(e' & _ & _ & [=])].
    apply txn_bind in H as [(r1 & a & Ha & [= <- <- <-])|(e' & _ & _ & [=])].
    pose proof Hb as Hb'%fetch_Ok.
    assert (probe_unresolved b = true) as Hu.
    { unfold classify_probe_operation in Hc, Ht. unfold is_state in Hc, Ht.
      destruct (bool_decide (po_state b = ProbeMutationState.COMPLETED)) eqn:E1; [done|].
      destruct (bool_decide (po_state b = ProbeMutationState.RECONCILE_REQUIRED)) eqn:E2.
      - apply bool_decide_eq_true in E2. unfold probe_unresolved. by rewrite E2.
      - by destruct (probe_unresolved b). }
    rewrite (op_keyed _ Hok _ _ Hb') in Ha.
    split; [done|]. split; [done|]. exists obs. split; [done|]. intros Hst.
    by eapply reconcile_adopts_exact.
Qed.

(** ** A file that completes a rotation *)

Definition seen_file : EvidenceFile := mkEvidenceFile (Ok 300) (Ok (JObj
  [("operation_id", JStr "op"); ("owner_token", JStr "tok1"); ("observed_at", JInt 8);
   ("complete", JBool true); ("old_matches", JList []);
   ("new_matches", JList [JObj [("window_handle", JInt 12); ("browser_pid", JInt 22);
      ("chrome_executable", JStr "c:/chrome.exe"); ("actual_url", JStr "https://chat/c/1#new/")]])])).

Definition operator_run : Registry * res (ProbeMutationOperation * ProbeMutationOperation) :=
  probe_op_reconcile (tables := AsciiTables) "op" seen_file (of_Z 9) (of_Z 9) opened.

Lemma operator_evidence_is_typed_witness :
  match operator_run with
  | (r', Ok (before, after)) =>
      po_state after = ProbeMutationState.COMPLETED ∧
      ∃ obs b, load_probe_reconciliation_evidence seen_file before (of_Z 9) = Ok obs ∧
        rg_probe_slots r' = published opened before b
  | _ => False
  end.
Proof.
  destruct operator_run as [r' [[before after]|e]] eqn:E; [|by vm_compute in E].
  assert (po_state after = ProbeMutationState.COMPLETED) as Hst.
  { vm_compute in E. injection E as <- <- <-. reflexivity. }
  split; [exact Hst|].
  destruct (operator_evidence_is_typed (tables := AsciiTables) "op" seen_file (of_Z 9) (of_Z 9)
    opened r' (Ok (before, after)) (exec_all_demo_ok _) E) as (_ & _ & H).
  destruct (H before after eq_refl) as (_ & _ & obs & Hobs & Hb).
  destruct (Hb Hst) as (_ & b & _ & Hslots). exists obs, b. split; [exact Hobs|exact Hslots].
Defined.
