(* ===== verification/Spawns.v ===== *)
(** * The child spawn attempts of registry.py

    Opening a browser window for a new child is an external side effect, so it is recorded
    before it happens.  A row holds the attempt as its payload and the state once more in
    an indexed column; the payload is authoritative, and a scan for the unresolved attempt
    of a child repairs the column of the rows it visits. *)

From S2P Require Import Prelude PyFloat PyStr PyJson Models WorkerProtocol Registry.
From S2P Require Import AttemptTables Programs.

Open Scope string_scope.
Open Scope Z_scope.
Open Scope list_scope.

Definition spawn_unresolved (s : ChildSpawnAttemptState.t) : bool :=
  match s with
  | ChildSpawnAttemptState.ARMED | ChildSpawnAttemptState.WINDOW_OPEN_SUBMITTED
  | ChildSpawnAttemptState.WINDOW_BOUND | ChildSpawnAttemptState.PROMPT_SUBMITTED
  | ChildSpawnAttemptState.RECONCILE_REQUIRED => true
  | _ => false
  end.

(** [idx_child_spawn_attempts_one_unresolved] reads the state column. *)
#[export] Instance spawn_row : AttemptRow ChildSpawnRow := {|
  row_id := λ w, sa_attempt_id (csr_payload w);
  row_task := λ w, sa_child_task_id (csr_payload w);
  row_open := λ w, spawn_unresolved (csr_state w);
|}.

Definition spawn_in (s : ChildSpawnAttemptState.t) (a : ChildSpawnAttempt) : bool :=
  bool_decide (sa_state a = s).

(** The row that an insertion or an update writes. *)
Definition row_of_attempt (a : ChildSpawnAttempt) : ChildSpawnRow :=
  mkChildSpawnRow (sa_state a) a.

Definition get_child_spawn_attempt (r : Registry) (attempt_id : string)
    : res ChildSpawnAttempt :=
  row ← fetch "child spawn attempt" (rg_child_spawns r) attempt_id;
  Ok (csr_payload row).

(** The rows of a child by [created_at DESC, attempt_id DESC]. *)
Definition spawn_rows (r : Registry) (child_task_id : string) : list ChildSpawnRow :=
  order_desc (λ w, sa_created_at (csr_payload w))
    (reverse (select (λ w, String.eqb (sa_child_task_id (csr_payload w)) child_task_id)
                (rg_child_spawns r))).

(** The loop of [unresolved_child_spawn_attempt]: repair the column of each row, and stop
    at the first unresolved payload. *)
Fixpoint scan_spawns (m : gmap string ChildSpawnRow) (rows : list ChildSpawnRow)
    : res (gmap string ChildSpawnRow * option ChildSpawnAttempt) :=
  match rows with
  | [] => Ok (m, None)
  | row :: rows =>
      let a := csr_payload row in
      m ← if bool_decide (csr_state row = sa_state a) then Ok m
          else put_row m (row_of_attempt a);
      if spawn_unresolved (sa_state a) then Ok (m, Some a) else scan_spawns m rows
  end.

Definition unresolved_child_spawn_attempt (r : Registry) (child_task_id : string)
    : res (Registry * option ChildSpawnAttempt) :=
  '(m, o) ← scan_spawns (rg_child_spawns r) (spawn_rows r child_task_id);
  Ok (r <| rg_child_spawns := m |>, o).

(** [ORDER BY created_at DESC, attempt_id LIMIT ?] *)
Definition child_spawn_attempts (r : Registry) (child_task_id : string) (limit : Z)
    : list ChildSpawnAttempt :=
  take (Z.to_nat (Z.max 1 (Z.min limit 500)))
    (csr_payload <$> order_desc (λ w, sa_created_at (csr_payload w))
       (select (λ w, String.eqb (sa_child_task_id (csr_payload w)) child_task_id)
          (rg_child_spawns r))).

(** The insertion of a new attempt. *)
Definition insert_spawn (r : Registry) (a : ChildSpawnAttempt)
    : res (Registry * ChildSpawnAttempt) :=
  real_not_null (sa_created_at a);;
  real_not_null (sa_updated_at a);;
  m ← insert_row (rg_child_spawns r) (row_of_attempt a);
  let r' := r <| rg_child_spawns := m |> in
  a' ← get_child_spawn_attempt r' (sa_attempt_id a);
  Ok (r', a').

Definition record_child_spawn_attempt (a : ChildSpawnAttempt) : prog ChildSpawnAttempt :=
  _ ← query (λ r, get_child_dispatch r (sa_child_task_id a));
  if negb (spawn_in ChildSpawnAttemptState.ARMED a)
  then fails ValueError "child spawn attempt must be ARMED before durable recording" else
  unresolved ← txn (λ r, unresolved_child_spawn_attempt r (sa_child_task_id a));
  match unresolved with
  | Some _ => fails RuntimeError "child task already has an unresolved spawn attempt"
  | None => txn (λ r, insert_spawn r a)
  end.

Definition annotated_spawn (a : ChildSpawnAttempt) (metadata_updates : dict) (now : float)
    : ChildSpawnAttempt :=
  a <| sa_metadata := dupdate (sa_metadata a) metadata_updates |> <| sa_updated_at := now |>.

(** Merging metadata writes the payload and not the state column. *)
Definition annotate_child_spawn_attempt (r : Registry) (attempt_id : string)
    (metadata_updates : dict) (now : float) : res (Registry * ChildSpawnAttempt) :=
  row ← fetch "child spawn attempt" (rg_child_spawns r) attempt_id;
  let a := annotated_spawn (csr_payload row) metadata_updates now in
  real_not_null now;;
  let r' := r <| rg_child_spawns :=
    <[attempt_id := mkChildSpawnRow (csr_state row) a]> (rg_child_spawns r) |> in
  a' ← get_child_spawn_attempt r' attempt_id;
  Ok (r', a').

Definition spawn_allowed (s : ChildSpawnAttemptState.t) : list ChildSpawnAttemptState.t :=
  match s with
  | ChildSpawnAttemptState.ARMED =>
      [ChildSpawnAttemptState.WINDOW_OPEN_SUBMITTED; ChildSpawnAttemptState.FAILED]
  | ChildSpawnAttemptState.WINDOW_OPEN_SUBMITTED =>
      [ChildSpawnAttemptState.WINDOW_BOUND; ChildSpawnAttemptState.RECONCILE_REQUIRED;
       ChildSpawnAttemptState.FAILED]
  | ChildSpawnAttemptState.WINDOW_BOUND =>
      [ChildSpawnAttemptState.PROMPT_SUBMITTED; ChildSpawnAttemptState.RECONCILE_REQUIRED;
       ChildSpawnAttemptState.FAILED]
  | ChildSpawnAttemptState.PROMPT_SUBMITTED =>
      [ChildSpawnAttemptState.WINDOW_BOUND; ChildSpawnAttemptState.COMPLETED;
       ChildSpawnAttemptState.RECONCILE_REQUIRED]
  | ChildSpawnAttemptState.RECONCILE_REQUIRED =>
      [ChildSpawnAttemptState.WINDOW_BOUND; ChildSpawnAttemptState.COMPLETED;
       ChildSpawnAttemptState.RECONCILE_REQUIRED]
  | _ => []
  end.

(** The optional keyword arguments of an update. *)
Record SpawnUpdate := mkSpawnUpdate {
  su_window_handle : option Z;
  su_browser_pid : option Z;
  su_conversation_url : option string;
  su_worker_id : option string;
  su_last_error : option string;
  su_metadata_updates : dict;
}.

Definition no_update : SpawnUpdate := mkSpawnUpdate None None None None None [].

(** [if x is not None: attempt.field = f(x)] *)
Definition assign {A B} (f : A → option B) (x : option A) (old : option B) : option B :=
  match x with Some a => f a | None => old end.

Definition updated_spawn (a : ChildSpawnAttempt) (s : ChildSpawnAttemptState.t)
    (u : SpawnUpdate) (now : float) : ChildSpawnAttempt :=
  a <| sa_state := s |> <| sa_updated_at := now |>
    <| sa_window_handle := assign Some (su_window_handle u) (sa_window_handle a) |>
    <| sa_browser_pid := assign Some (su_browser_pid u) (sa_browser_pid a) |>
    <| sa_conversation_url :=
         assign strip_or_none (su_conversation_url u) (sa_conversation_url a) |>
    <| sa_worker_id := assign strip_or_none (su_worker_id u) (sa_worker_id a) |>
    <| sa_last_error := assign (λ e, Some (str_take 1000 e)) (su_last_error u) (sa_last_error a) |>
    <| sa_metadata := dupdate (sa_metadata a) (su_metadata_updates u) |>.

Definition update_child_spawn_attempt (r : Registry) (attempt_id : string)
    (s : ChildSpawnAttemptState.t) (u : SpawnUpdate) (now : float)
    : res (Registry * ChildSpawnAttempt) :=
  a ← get_child_spawn_attempt r attempt_id;
  raise_if (negb (bool_decide (s = sa_state a)) &&
            negb (bool_decide (s ∈ spawn_allowed (sa_state a)))) RuntimeError
    "invalid child spawn transition";;
  let a := updated_spawn a s u now in
  real_not_null now;;
  m ← put_row (rg_child_spawns r) (row_of_attempt a);
  let r' := r <| rg_child_spawns := m |> in
  a' ← get_child_spawn_attempt r' attempt_id;
  Ok (r', a').

(** * The guarantees of the child spawn attempts

    Whatever calls are made, a child has at most one unresolved attempt, an attempt moves
    forward through its phases and keeps its final state, and the indexed state column
    agrees with the payload.  A scan of drifted rows trusts the payload and repairs the
    column. *)

(** ** The rows of a child *)

Definition child_row (child_task_id : string) (w : ChildSpawnRow) : bool :=
  String.eqb (sa_child_task_id (csr_payload w)) child_task_id.

Definition keyed (m : gmap string ChildSpawnRow) : Prop := ∀ k w, m !! k = Some w → row_id w = k.

Lemma spawn_rows_perm r child :
  spawn_rows r child ≡ₚ select (child_row child) (rg_child_spawns r).
Proof. unfold spawn_rows, order_desc. by rewrite py_sorted_perm, reverse_Permutation. Qed.

Lemma elem_of_spawn_rows r child w :
  keyed (rg_child_spawns r) →
  w ∈ spawn_rows r child ↔
  sa_child_task_id (csr_payload w) = child ∧ rg_child_spawns r !! row_id w = Some w.
Proof.
  intros Hk. rewrite spawn_rows_perm, elem_of_select. unfold child_row.
  rewrite String.eqb_eq. split; [|naive_solver].
  intros (Hc & k & Hw). split; [done|]. by rewrite (Hk _ _ Hw).
Qed.

Lemma spawn_rows_NoDup r child :
  keyed (rg_child_spawns r) → NoDup (row_id <$> spawn_rows r child).
Proof. intros Hk. rewrite spawn_rows_perm. by apply (select_sorted row_id). Qed.

(** ** The scan *)

(** The rows have the same payloads. *)
Definition same_payloads (m m' : gmap string ChildSpawnRow) : Prop :=
  csr_payload <$> m' = csr_payload <$> m.

Lemma same_payloads_put m a m' w :
  m !! sa_attempt_id a = Some w → csr_payload w = a → put_row m (row_of_attempt a) = Ok m' →
  m' = <[sa_attempt_id a := row_of_attempt a]> m ∧ same_payloads m m'.
Proof.
  intros Hw Ha [_ ->]%put_row_Ok. split; [done|]. unfold same_payloads.
  rewrite fmap_insert. apply insert_id. rewrite lookup_fmap. cbn. rewrite Hw. cbn. by f_equal.
Qed.

Lemma same_payloads_keyed m m' : same_payloads m m' → keyed m → keyed m'.
Proof.
  intros Hs Hk k w Hw. assert ((csr_payload <$> m') !! k = Some (csr_payload w)) as H.
  { by rewrite lookup_fmap, Hw. }
  rewrite Hs, lookup_fmap in H. destruct (m !! k) as [w0|] eqn:E; [|done].
  cbn in H. injection H as H. rewrite <- (Hk _ _ E). cbn. by rewrite H.
Qed.

Lemma scan_spec rows : ∀ m m' o,
  NoDup (row_id <$> rows) → (∀ w, w ∈ rows → m !! row_id w = Some w) →
  scan_spawns m rows = Ok (m', o) →
  same_payloads m m' ∧
  match o with
  | None => ∀ w, w ∈ rows → spawn_unresolved (sa_state (csr_payload w)) = false ∧
              m' !! row_id w = Some (row_of_attempt (csr_payload w))
  | Some a => spawn_unresolved (sa_state a) = true ∧
              ∃ w, w ∈ rows ∧ csr_payload w = a ∧ m' !! row_id w = Some (row_of_attempt a)
  end ∧ (∀ k, k ∉ row_id <$> rows → m' !! k = m !! k).
Proof.
  induction rows as [|w rows IH]; intros m m' o Hnd Hin H; cbn in H.
  { injection H as <- <-. split_and!; [done|..]; [|done]. intros w Hw. by apply not_elem_of_nil in Hw. }
  cbn in Hnd. apply NoDup_cons in Hnd as [Hni Hnd].
  apply bind_Ok_inv in H as (m1 & Hm1 & H).
  pose proof (Hin w ltac:(by left)) as Hw.
  assert (same_payloads m m1 ∧ m1 !! row_id w = Some (row_of_attempt (csr_payload w)) ∧
          ∀ k, k ≠ row_id w → m1 !! k = m !! k) as (Hs1 & Hw1 & Hother).
  { destruct (bool_decide _) eqn:E in Hm1.
    - injection Hm1 as <-. apply bool_decide_eq_true in E. split_and!; [done| |done].
      rewrite Hw. f_equal. destruct w as [st a]. cbn in *. by subst st.
    - destruct (same_payloads_put _ _ _ w Hw eq_refl Hm1) as [-> Hs]. split; [done|].
      split; [by rewrite lookup_insert_eq|]. intros k Hk. by rewrite lookup_insert_ne. }
  destruct (spawn_unresolved _) eqn:Hu.
  { injection H as <- <-. split; [done|]. split.
    - split; [done|]. exists w. split; [by left|done].
    - intros k Hk. apply Hother. intros ->. apply Hk. by left. }
  destruct (IH m1 m' o Hnd) as (Hs & Ho & Hrest); [|done|].
  { intros v Hv. rewrite Hother; [by apply Hin; right|]. intros E. apply Hni.
    assert (row_id w ∈ row_id <$> rows) by (rewrite <- E; by apply list_elem_of_fmap_2). done. }
  assert (m' !! row_id w = Some (row_of_attempt (csr_payload w))) as Hw' by by rewrite Hrest.
  split; [by etrans|]. split.
  - destruct o as [a|].
    + destruct Ho as (? & v & Hv & ?). split; [done|]. exists v. split; [by right|done].
    + intros v [->|Hv]%elem_of_cons; auto.
  - intros k Hk. cbn in Hk. rewrite not_elem_of_cons in Hk. rewrite Hrest by naive_solver.
    apply Hother. naive_solver.
Qed.

Lemma scan_Ok r child r' o :
  keyed (rg_child_spawns r) → unresolved_child_spawn_attempt r child = Ok (r', o) →
  r' = r <| rg_child_spawns := rg_child_spawns r' |> ∧
  same_payloads (rg_child_spawns r) (rg_child_spawns r') ∧
  match o with
  | None => ∀ w, w ∈ spawn_rows r child → spawn_unresolved (sa_state (csr_payload w)) = false ∧
              rg_child_spawns r' !! row_id w = Some (row_of_attempt (csr_payload w))
  | Some a => spawn_unresolved (sa_state a) = true ∧ sa_child_task_id a = child ∧
              rg_child_spawns r' !! sa_attempt_id a = Some (row_of_attempt a)
  end.
Proof.
  intros Hk H. unfold unresolved_child_spawn_attempt in H.
  destruct (scan_spawns _ _) as [[m o']|] eqn:E; [|done]. injection H as <- <-.
  destruct (scan_spec _ _ _ _ (spawn_rows_NoDup r child Hk)
    (λ w Hw, proj2 (proj1 (elem_of_spawn_rows _ _ _ Hk) Hw)) E) as (Hs & Ho & _).
  split; [done|]. split; [done|]. cbn. destruct o' as [a|]; [|done].
  destruct Ho as (Hu & w & Hw & Ha & Hm). apply elem_of_spawn_rows in Hw as [Hc Hw]; [|done].
  subst a. by split_and!.
Qed.

(** ** Phases *)

Definition phase (s : ChildSpawnAttemptState.t) : nat :=
  match s with
  | ChildSpawnAttemptState.ARMED => 0
  | ChildSpawnAttemptState.WINDOW_OPEN_SUBMITTED => 1
  | ChildSpawnAttemptState.WINDOW_BOUND | ChildSpawnAttemptState.PROMPT_SUBMITTED
  | ChildSpawnAttemptState.RECONCILE_REQUIRED => 2
  | ChildSpawnAttemptState.COMPLETED | ChildSpawnAttemptState.FAILED => 3
  end.

(** An attempt and what later calls may have made of it. *)
Record spawn_later (a a' : ChildSpawnAttempt) : Prop := {
  sl_id : sa_attempt_id a' = sa_attempt_id a;
  sl_child : sa_child_task_id a' = sa_child_task_id a;
  sl_owner : sa_owner_token a' = sa_owner_token a;
  sl_prompt : sa_prompt_sha256 a' = sa_prompt_sha256 a;
  sl_phase : (phase (sa_state a) ≤ phase (sa_state a'))%nat;
  sl_final : spawn_unresolved (sa_state a) = false → sa_state a' = sa_state a;
}.

#[export] Instance spawn_later_preorder : PreOrder spawn_later.
Proof.
  split.
  - intros a. by constructor.
  - intros a b c [] []. constructor; try congruence; [lia|].
    intros Hf. rewrite sl_final1; [auto|]. by rewrite sl_final0.
Qed.

Lemma spawn_allowed_phase s s' :
  s' = s ∨ s' ∈ spawn_allowed s →
  (phase s ≤ phase s')%nat ∧ (spawn_unresolved s = false → s' = s) ∧
  (spawn_unresolved s' = true → spawn_unresolved s = true).
Proof.
  intros [->|H]; [done|]. destruct s; cbn in H;
    rewrite ?elem_of_cons, ?elem_of_nil in H; destruct_or? H; subst; cbn; split_and!; done || lia.
Qed.

(** ** The table *)

Record spawns_ok (r : Registry) : Prop := {
  so_table : table_ok (rg_child_spawns r);
  so_agree : ∀ k w, rg_child_spawns r !! k = Some w → w = row_of_attempt (csr_payload w);
}.

Lemma empty_spawns_ok r : rg_child_spawns r = ∅ → spawns_ok r.
Proof. intros E. constructor; rewrite E; [apply empty_table_ok|done]. Qed.

Definition spawns_advance (r r' : Registry) : Prop :=
  spawns_ok r → spawns_ok r' ∧
  ∀ k w, rg_child_spawns r !! k = Some w →
    ∃ w', rg_child_spawns r' !! k = Some w' ∧ spawn_later (csr_payload w) (csr_payload w').

#[export] Instance spawns_advance_preorder : PreOrder spawns_advance.
Proof.
  split.
  - intros r Hok. split; [done|]. intros k w Hw. by exists w.
  - intros r1 r2 r3 H12 H23 Hok. destruct (H12 Hok) as [Hok2 H2], (H23 Hok2) as [Hok3 H3].
    split; [done|]. intros k w Hw. destruct (H2 _ _ Hw) as (w2 & Hw2 & L2).
    destruct (H3 _ _ Hw2) as (w3 & Hw3 & L3). exists w3. split; [done|]. by etrans.
Qed.

(** Rows that agree are not written. *)
Lemma scan_agreeing m rows :
  (∀ w, w ∈ rows → w = row_of_attempt (csr_payload w)) →
  scan_spawns m rows =
    Ok (m, next_where (λ a, spawn_unresolved (sa_state a)) (csr_payload <$> rows)).
Proof.
  induction rows as [|[st a] rows IH]; intros Hag; [done|].
  pose proof (Hag _ ltac:(by left)) as Hw. cbn in Hw. injection Hw as ->. cbn.
  rewrite bool_decide_true by done. rewrite Ok_bind.
  destruct (spawn_unresolved _); [done|]. apply IH. intros v Hv. apply Hag. by right.
Qed.

Lemma spawns_self r : r <| rg_child_spawns := rg_child_spawns r |> = r.
Proof. by destruct r. Qed.

Lemma scan_reads r child :
  spawns_ok r →
  unresolved_child_spawn_attempt r child =
    Ok (r, next_where (λ a, spawn_unresolved (sa_state a)) (csr_payload <$> spawn_rows r child)).
Proof.
  intros [[Hk _] Hag]. unfold unresolved_child_spawn_attempt.
  rewrite scan_agreeing, Ok_bind, spawns_self; [done|].
  intros w [_ Hw]%elem_of_spawn_rows; [|done]. by eapply Hag.
Qed.

Lemma write_advances r w a :
  rg_child_spawns r !! sa_attempt_id a = Some w → spawn_later (csr_payload w) a →
  (∀ m, put_row (rg_child_spawns r) (row_of_attempt a) = Ok m →
     spawns_advance r (r <| rg_child_spawns := m |>)).
Proof.
  intros Hw Hl m Hm [Ht Hag]. pose proof (put_row_ok _ _ _ Ht Hm) as Ht'.
  apply put_row_Ok in Hm as [_ ->]. cbn in *. split.
  - constructor; [done|]. cbn. intros k v [[<- <-]|[_ Hv]]%lookup_insert_Some; [done|eauto].
  - cbn. intros k v Hv. destruct (decide (k = sa_attempt_id a)) as [->|Hne].
    + rewrite lookup_insert_eq. exists (row_of_attempt a). split; [done|]. cbn. congruence.
    + rewrite lookup_insert_ne by done. by exists v.
Qed.

Lemma update_spawn_advances r id s u now r' a' :
  update_child_spawn_attempt r id s u now = Ok (r', a') → spawns_advance r r'.
Proof.
  intros H Hok. revert H. intros H. apply bind_Ok_inv in H as (a & Ha & H).
  apply bind_Ok_inv in Ha as (w & Hw%fetch_Ok & [= <-]).
  apply raise_if_then in H as [Hs H]. cbv zeta in H. apply unit_bind_Ok in H as [_ H].
  apply bind_Ok_inv in H as (m & Hm & H). apply bind_Ok_inv in H as (? & _ & [= <- _]).
  assert (s = sa_state (csr_payload w) ∨ s ∈ spawn_allowed (sa_state (csr_payload w))) as Hal.
  { apply andb_false_iff in Hs as [Hs|Hs]; bool_to_prop; auto. }
  destruct (spawn_allowed_phase _ _ Hal) as (Hp & Hf & _).
  pose proof (tb_keyed _ (so_table _ Hok) _ _ Hw) as Hid. cbn in Hid.
  eapply write_advances; [..|done|done].
  - cbn. rewrite Hid. exact Hw.
  - by constructor.
Qed.

Lemma annotate_advances r id meta now r' a' :
  annotate_child_spawn_attempt r id meta now = Ok (r', a') → spawns_advance r r'.
Proof.
  intros H [Ht Hag]. apply bind_Ok_inv in H as (w & Hw%fetch_Ok & H). cbv zeta in H.
  apply unit_bind_Ok in H as [_ H]. apply bind_Ok_inv in H as (? & _ & [= <- _]).
  pose proof (Hag _ _ Hw) as Hrow. set (a := annotated_spawn _ _ _) in *.
  assert (mkChildSpawnRow (csr_state w) a = row_of_attempt a) as -> by by rewrite Hrow.
  assert (spawn_later (csr_payload w) a) as Hl by by constructor.
  pose proof (tb_keyed _ Ht _ _ Hw) as Hid. split.
  - constructor; cbn.
    + eapply replace_table_ok; [done|exact Hw|exact Hid|done|]. by rewrite Hrow.
    + intros k v [[<- <-]|[_ Hv]]%lookup_insert_Some; [done|by eapply Hag].
  - cbn. intros k v Hv. destruct (decide (k = id)) as [->|Hne].
    + rewrite lookup_insert_eq. exists (row_of_attempt a). split; [done|].
      by assert (v = w) as -> by congruence.
    + rewrite lookup_insert_ne by done. by exists v.
Qed.

Lemma insert_spawn_advances r a r' a' :
  insert_spawn r a = Ok (r', a') → spawns_advance r r'.
Proof.
  intros H [Ht Hag]. apply unit_bind_Ok in H as [_ H]. apply unit_bind_Ok in H as [_ H].
  apply bind_Ok_inv in H as (m & Hm & H). cbv zeta in H.
  apply bind_Ok_inv in H as (? & _ & [= <- _]).
  apply insert_row_Ok in Hm as [Hnew Hm]. pose proof (put_row_ok _ _ _ Ht Hm) as Ht'.
  apply put_row_Ok in Hm as [_ ->]. cbn in *. split.
  - constructor; [done|]. cbn. intros k v [[<- <-]|[_ Hv]]%lookup_insert_Some; [done|eauto].
  - cbn. intros k v Hv. exists v. split; [|done]. rewrite lookup_insert_ne; [done|congruence].
Qed.

(** ** Calls *)

Inductive spawn_call :=
  | SRecord (a : ChildSpawnAttempt)
  | SAnnotate (id : string) (metadata_updates : dict) (now : float)
  | SUpdate (id : string) (s : ChildSpawnAttemptState.t) (u : SpawnUpdate) (now : float)
  | SScan (child_task_id : string).

Definition spawn_prog (c : spawn_call) : prog unit :=
  match c with
  | SRecord a => _ ← record_child_spawn_attempt a; mret tt
  | SAnnotate id meta now => _ ← txn (λ r, annotate_child_spawn_attempt r id meta now); mret tt
  | SUpdate id s u now => _ ← txn (λ r, update_child_spawn_attempt r id s u now); mret tt
  | SScan child => _ ← txn (λ r, unresolved_child_spawn_attempt r child); mret tt
  end.

(** The registry after a sequence of calls, failing ones included. *)
Definition spawn_run (r : Registry) (calls : list spawn_call) : Registry :=
  foldl (λ r c, (spawn_prog c r).1) r calls.

Lemma scan_advances r child r' o :
  unresolved_child_spawn_attempt r child = Ok (r', o) → spawns_advance r r'.
Proof. intros H Hok. rewrite (scan_reads _ _ Hok) in H. injection H as <- _.
  by apply (reflexivity (R := spawns_advance)). Qed.

Lemma record_spawn_advances a : respects spawns_advance (record_child_spawn_attempt a).
Proof.
  unfold record_child_spawn_attempt. apply respects_bind; [apply _|apply respects_stay, _|].
  intros _. destruct (negb _); [apply (respects_stay _ (λ _, raise _ _))|].
  apply respects_bind; [apply _| |].
  - apply respects_txn; [apply _|]. intros r r' o. apply scan_advances.
  - intros [b|]; [apply (respects_stay _ (λ _, raise _ _))|].
    apply respects_txn; [apply _|]. intros r r' b. apply insert_spawn_advances.
Qed.

Lemma call_advances_spawns c : respects spawns_advance (spawn_prog c).
Proof.
  destruct c; cbn; (apply respects_bind; [apply _| |intros _; apply (respects_stay _ (λ _, Ok tt))]).
  - apply record_spawn_advances.
  - apply respects_txn; [apply _|]. intros r r' b. apply annotate_advances.
  - apply respects_txn; [apply _|]. intros r r' b. apply update_spawn_advances.
  - apply respects_txn; [apply _|]. intros r r' b. apply scan_advances.
Qed.

Lemma spawn_run_advances calls r : spawns_advance r (spawn_run r calls).
Proof.
  revert r. induction calls as [|c calls IH]; intros r; [by apply (reflexivity (R := spawns_advance))|].
  cbn. etrans; [|apply IH]. destruct (spawn_prog c r) as [r' x] eqn:E.
  by eapply call_advances_spawns.
Qed.

(** The scan of a well-formed table finds the unresolved attempt of the child. *)
Lemma scan_finds r child a :
  spawns_ok r →
  next_where (λ a, spawn_unresolved (sa_state a)) (csr_payload <$> spawn_rows r child) = Some a ↔
  sa_child_task_id a = child ∧ spawn_unresolved (sa_state a) = true ∧
  rg_child_spawns r !! sa_attempt_id a = Some (row_of_attempt a).
Proof.
  intros [[Hk H1] Hag]. split.
  - intros [Hin Hu]%next_where_Some. apply list_elem_of_fmap in Hin as (w & -> & Hw).
    apply elem_of_spawn_rows in Hw as [Hc Hw]; [|done]. split_and!; [done..|].
    rewrite <- (Hag _ _ Hw). exact Hw.
  - intros (Hc & Hu & Hrow).
    destruct (next_where_is_Some (λ a, spawn_unresolved (sa_state a))
      (csr_payload <$> spawn_rows r child) a) as [b Hb]; [|done|].
    { apply list_elem_of_fmap. exists (row_of_attempt a). split; [done|].
      by apply elem_of_spawn_rows. }
    rewrite Hb. f_equal. apply next_where_Some in Hb as [Hin Hub].
    apply list_elem_of_fmap in Hin as (w & -> & Hw). apply elem_of_spawn_rows in Hw as [Hcw Hw]; [|done].
    pose proof (Hag _ _ Hw) as Ew. rewrite Ew in Hw. cbn in Hw.
    assert (sa_attempt_id (csr_payload w) = sa_attempt_id a) as Hid.
    { eapply (H1 _ _ _ _ Hw Hrow); [exact (eq_trans Hcw (eq_sym Hc))|exact Hub|exact Hu]. }
    rewrite Hid, Hrow in Hw. by injection Hw as _ ->.
Qed.

(** Whatever spawn calls are made, a child has at most one unresolved spawn attempt, a
    scan finds exactly it and writes nothing, and an attempt never disappears, never goes
    back to an earlier phase - in particular its window is never submitted for opening
    again - and keeps its final state. *)
Theorem spawn_attempts_exclusive r calls1 calls2 :
  rg_child_spawns r = ∅ →
  let r1 := spawn_run r calls1 in
  let r2 := spawn_run r1 calls2 in
  (∀ child, ∃ o, unresolved_child_spawn_attempt r2 child = Ok (r2, o) ∧
     ∀ a, o = Some a ↔ sa_child_task_id a = child ∧ spawn_unresolved (sa_state a) = true ∧
       ∃ k w, rg_child_spawns r2 !! k = Some w ∧ csr_payload w = a) ∧
  ∀ k w, rg_child_spawns r1 !! k = Some w →
    ∃ w', rg_child_spawns r2 !! k = Some w' ∧ spawn_later (csr_payload w) (csr_payload w').
Proof.
  intros He r1 r2. destruct (spawn_run_advances calls1 r (empty_spawns_ok r He)) as [Hok1 _].
  destruct (spawn_run_advances calls2 _ Hok1) as [Hok2 Hl]. split; [|exact Hl].
  intros child. eexists. split; [apply (scan_reads _ _ Hok2)|]. intros a.
  rewrite (scan_finds _ _ _ Hok2). split.
  - intros (Hc & Hu & Hrow). split_and!; eauto.
  - intros (Hc & Hu & k & w & Hw & <-). split_and!; try done.
    pose proof (so_agree _ Hok2 _ _ Hw) as Ew. pose proof (tb_keyed _ (so_table _ Hok2) _ _ Hw) as Hid.
    cbn in Hid. rewrite Hid, <- Ew. exact Hw.
Qed.

(** When the state column of some rows has drifted from the payload, the scan trusts the
    payload: it changes no payload and nothing else in the database, it answers that the
    child is free only when every payload of the child is resolved - and has then repaired
    all their columns - and otherwise it returns a payload that is unresolved. *)
Theorem spawn_scan_trusts_payload r child r' o :
  (∀ k w, rg_child_spawns r !! k = Some w → sa_attempt_id (csr_payload w) = k) →
  unresolved_child_spawn_attempt r child = Ok (r', o) →
  csr_payload <$> rg_child_spawns r' = csr_payload <$> rg_child_spawns r ∧
  r' = r <| rg_child_spawns := rg_child_spawns r' |> ∧
  (o = None → ∀ k w, rg_child_spawns r !! k = Some w → sa_child_task_id (csr_payload w) = child →
     spawn_unresolved (sa_state (csr_payload w)) = false ∧
     rg_child_spawns r' !! k = Some (row_of_attempt (csr_payload w))) ∧
  (∀ a, o = Some a → sa_child_task_id a = child ∧ spawn_unresolved (sa_state a) = true ∧
     rg_child_spawns r' !! sa_attempt_id a = Some (row_of_attempt a)).
Proof.
  intros Hk H. destruct (scan_Ok r child r' o Hk H) as (Hr & Hs & Ho).
  split; [done|]. split; [done|]. split.
  - intros -> k w Hw Hc. destruct (Ho w) as [Hu Hw'].
    { apply elem_of_spawn_rows; [done|]. split; [done|]. cbn. by rewrite (Hk _ _ Hw). }
    split; [done|]. rewrite <- (Hk _ _ Hw). exact Hw'.
  - intros a ->. destruct Ho as (Hu & Hc & Hrow). done.
Qed.

(** ** Witnesses *)

Definition demo_spawn (id : string) (s : ChildSpawnAttemptState.t) (t : float) : ChildSpawnAttempt :=
  mkChildSpawnAttempt id "child" s "owner" "https://p" "p" "https://p#t" "sha" "chrome" t t
    None None None None None [].

(** A crash left the column of a completed attempt open. *)
Definition drifted_spawns : Registry :=
  empty_registry <| rg_child_spawns :=
    {["s1" := mkChildSpawnRow ChildSpawnAttemptState.PROMPT_SUBMITTED
                (demo_spawn "s1" ChildSpawnAttemptState.COMPLETED (of_Z 1))]} |>.

Lemma spawn_scan_trusts_payload_witness :
  ∃ r', unresolved_child_spawn_attempt drifted_spawns "child" = Ok (r', None) ∧
    rg_child_spawns r' !! "s1" =
      Some (row_of_attempt (demo_spawn "s1" ChildSpawnAttemptState.COMPLETED (of_Z 1))).
Proof.
  eexists. split; [vm_compute; reflexivity|].
  edestruct (spawn_scan_trusts_payload drifted_spawns "child") as (_ & _ & H & _).
  - intros k w Hw. cbn in Hw. apply lookup_singleton_Some in Hw as [<- <-]. reflexivity.
  - vm_compute. reflexivity.
  - apply (H eq_refl "s1" (mkChildSpawnRow ChildSpawnAttemptState.PROMPT_SUBMITTED
      (demo_spawn "s1" ChildSpawnAttemptState.COMPLETED (of_Z 1)))); reflexivity.
Defined.

Definition spawning_child : Registry :=
  empty_registry <| rg_dispatches :=
    {["d" := mkChildDispatchRecord "d" "parent" "child" "k" "p" "sha" None None None (of_Z 1)
               (of_Z 1) []]} |>.

Definition spawn_calls : list spawn_call :=
  [SRecord (demo_spawn "s1" ChildSpawnAttemptState.ARMED (of_Z 2));
   SUpdate "s1" ChildSpawnAttemptState.WINDOW_OPEN_SUBMITTED no_update (of_Z 3);
   SRecord (demo_spawn "s2" ChildSpawnAttemptState.ARMED (of_Z 4))].

Lemma spawn_attempts_exclusive_witness :
  ∃ o, unresolved_child_spawn_attempt (spawn_run (spawn_run spawning_child spawn_calls) []) "child" =
         Ok (spawn_run (spawn_run spawning_child spawn_calls) [], o) ∧
       sa_attempt_id <$> o = Some "s1".
Proof.
  destruct (spawn_attempts_exclusive spawning_child spawn_calls [] eq_refl) as [H _].
  destruct (H "child") as (o & Ho & _). exists o. split; [exact Ho|].
  vm_compute in Ho. injection Ho as <-. reflexivity.
Defined.
