(* ===== verification/ProtocolCalls.v ===== *)
(** * Calling the protocol from a program

    One registry call of the lease protocol, as a step of a larger program: what an
    accepted call commits, what a refused one leaves, and when a call is accepted. *)

From S2P Require Import Prelude PyFloat PyStr PyJson Models.
From S2P Require Import WorkerProtocol WorkerProtocolFacts WorkerProtocolSteps WorkerProtocolReach.
From S2P Require Import WorkerProtocolSpec Registry Persistence PersistenceFacts PersistenceTheorems.
From S2P Require Import Programs.

Open Scope string_scope.
Open Scope Z_scope.
Open Scope list_scope.

(** ** Protocol calls of the program *)

(** An accepted request that is not a registration takes a step and commits it. *)
Lemma protocol_step r task s req e r1 d :
  loaded r task s →
  apply_worker_protocol_transition r task e (λ s, handle s req e) = Ok (r1, d) →
  pd_accepted d = true → (∀ id ref now, req ≠ Register id ref now) →
  ∃ c t es, step s req c t es ∧ e = ws_revision s ∧ pd_state d = commit s t ∧
    loaded r1 task (commit s t) ∧ other_tables r1 = other_tables r.
Proof.
  intros L (s0 & L0 & Hf & _ & _ & Hcase)%apply_Ok Hacc Hreq.
  assert (s0 = s) as -> by (rewrite <- load_Ok in L, L0; congruence).
  destruct (handle_cases _ (ld_valid _ _ _ L) _ _ _ Hf)
    as [(c & -> & _)|[(_ & _ & id & ref & now & Hr & _)|(He & c & t & es & Hs & ->)]];
    [done|by apply Hreq in Hr|].
  exists c, t, es. split_and!; try done.
  - destruct Hcase as [[Hm _]|(_ & _ & _ & L1 & _)]; [|done].
    unfold pd_mutated in Hm. cbn in Hm. by rewrite <- He, Z.eqb_refl in Hm.
  - destruct Hcase as [[_ ->]|(_ & _ & P & _)]; [done|].
    by eapply ps_other.
Qed.

(** A step that the protocol allows is committed. *)
Lemma protocol_total r task s req c t es :
  db_ok r → loaded r task s → step s req c t es → real_times req = true →
  fresh_registration r s req →
  handle s req (ws_revision s) =
    Ok (mkProtocolDecision true c (ws_revision s) (commit s t) (stamp s es)) →
  ∃ r1, apply_worker_protocol_transition r task (ws_revision s)
      (λ s', handle s' req (ws_revision s)) =
      Ok (r1, mkProtocolDecision true c (ws_revision s) (commit s t) (stamp s es)) ∧
    db_ok r1 ∧ loaded r1 task (commit s t) ∧ other_tables r1 = other_tables r.
Proof.
  intros D L Hs Hreal Hfresh Hh.
  destruct (step_applies _ _ _ D L _ _ _ _ Hreal Hfresh Hs
    (λ s', handle s' req (ws_revision s)) Hh) as [r1 Hr1].
  exists r1. split; [done|]. split; [by eapply apply_db_ok|].
  apply apply_Ok in Hr1 as (s0 & _ & _ & _ & _ & [[Hm _]|(_ & _ & P & L1 & _)]).
  - unfold pd_mutated in Hm. cbn in Hm. by rewrite Z.eqb_refl in Hm.
  - split; [done|]. by eapply ps_other.
Qed.

Section Grants.
Context (s : WorkerTaskState) (V : valid_state s) (Hopen : task_open s = true).

Lemma claim_grants w now ls :
  candidate s w → ws_current_worker_id s = None → fle ls (of_Z 0) = false →
  ∃ c t es, step s (Claim (wl_worker_id w) now ls) c t es ∧
    handle s (Claim (wl_worker_id w) now ls) (ws_revision s) =
      Ok (mkProtocolDecision true c (ws_revision s) (commit s t) (stamp s es)).
Proof using V Hopen.
  intros Hc Hcur Hls. eexists _, _, _. split; [by apply step_claim|].
  pose proof Hc as [Hw Hst]. cbn [handle]. unfold claim_worker.
  rewrite positive_lease_then, preflight_valid, Z.eqb_refl, Hopen, Hw by done.
  unfold is_status. rewrite Hst, Hcur, !bool_decide_true by done. cbn [negb]. cbv zeta.
  eapply accept_step; [done|by apply step_claim].
Qed.

Lemma abandon_grants w now :
  worker_by_id s (wl_worker_id w) = Some w → ws_current_worker_id s = Some (wl_worker_id w) →
  ∃ c es, step s (AbandonWorker (wl_worker_id w) (ws_generation s) now) c
      (without_current s (ended_lease w WorkerLeaseStatus.ABANDONED now)) es ∧
    handle s (AbandonWorker (wl_worker_id w) (ws_generation s) now) (ws_revision s) =
      Ok (mkProtocolDecision true c (ws_revision s)
        (commit s (without_current s (ended_lease w WorkerLeaseStatus.ABANDONED now))) (stamp s es)).
Proof using V Hopen.
  intros Hw Hcur. pose proof (owner_owned _ V _ Hw Hcur Hopen) as Ho.
  eexists _, _. split; [by apply step_abandon_worker|].
  pose proof Ho as (_ & _ & _ & Hst & _ & Hg). cbn [handle]. unfold abandon_worker.
  rewrite preflight_valid, Z.eqb_refl, Hopen, Hw by done.
  unfold is_status. rewrite Hst, Hcur, Hg, Z.eqb_refl, !bool_decide_true by done. cbn.
  eapply accept_step; [done|by apply step_abandon_worker].
Qed.

Lemma takeover_grants w el now ls :
  candidate s w → takeover_eligibility s (wl_worker_id w) now = Ok el → te_eligible el = true →
  fle ls (of_Z 0) = false →
  ∃ c t es, step s (Takeover (wl_worker_id w) now ls) c t es ∧
    handle s (Takeover (wl_worker_id w) now ls) (ws_revision s) =
      Ok (mkProtocolDecision true c (ws_revision s) (commit s t) (stamp s es)).
Proof using V Hopen.
  intros Hc Hel Hok Hls.
  exists DecisionCode.TAKEOVER_GRANTED. pose proof Hc as [Hw _].
  destruct (takeover_eligible _ V _ _ _ Hel Hok)
    as (w' & old & _ & _ & _ & Hold & Hcur & Hwhy).
  eexists _, _. split; [by eapply step_takeover|]. cbn [handle]. unfold takeover_worker.
  rewrite positive_lease_then, preflight_valid, Z.eqb_refl, Hel, Ok_bind, Hok, Hcur by done.
  cbn [negb]. unfold require_worker. rewrite Hold, Ok_bind, Hw, Ok_bind. cbv zeta.
  eapply accept_step; [done|by eapply step_takeover].
Qed.

(** The eligibility of a registered candidate while another worker is authoritative. *)
Lemma eligibility_of_candidate w now :
  candidate s w → is_Some (ws_current_worker_id s) →
  ∃ el, takeover_eligibility s (wl_worker_id w) now = Ok el ∧
    (te_eligible el = true ∨
     te_eligible el = false ∧ te_reason el = TakeoverReason.ACTIVE_LEASE_FRESH).
Proof using V Hopen.
  intros [Hw Hst] [cur Hcur]. unfold takeover_eligibility. cbv zeta.
  rewrite (validate_valid _ V), Ok_bind, Hopen, Hw. unfold is_status.
  rewrite Hst, bool_decide_true, Hcur by done. cbn [negb].
  case_match; [|case_match]; eexists; (split; [done|]); cbn; auto.
Qed.

End Grants.

(** ** Calls in program order *)

(** One accepted call of the program, in program order. *)
Lemma accepted_call {B} r task s req e msg (f : WorkerTaskState → prog B) r' x :
  loaded r task s → (∀ id ref now, req ≠ Register id ref now) →
  (accepted_or (λ r, apply_worker_protocol_transition r task e (λ s, handle s req e)) msg ≫= f) r
    = (r', Ok x) →
  ∃ r1 c t es, step s req c t es ∧ transition s (commit s t) ∧ loaded r1 task (commit s t) ∧
    other_tables r1 = other_tables r ∧ f (commit s t) r1 = (r', Ok x).
Proof.
  intros L Hreq [(r1 & d & Hm & Hacc & H)|(? & [=])]%accepted_bind.
  destruct (protocol_step _ _ _ _ _ _ _ L Hm Hacc Hreq) as (c & t & es & Hs & He & Hd & L1 & Hr).
  rewrite Hd in H. exists r1, c, t, es. split_and!; try done.
  apply apply_Ok in Hm as (s0 & L0 & Hf & _). rewrite <- load_Ok in L, L0.
  assert (s0 = s) as -> by congruence. by exists req, e, d.
Qed.

Lemma claim_published s w now ls c t es :
  step s (Claim w now ls) c t es →
  ws_current_worker_id t = Some w ∧ ws_generation t = ws_generation s + 1.
Proof. by inversion 1. Qed.

Lemma accepted_fails m msg r r' e :
  accepted_or m msg r = (r', Err e) →
  r' = r ∨ ∃ d, m r = Ok (r', d) ∧ pd_accepted d = false.
Proof.
  unfold accepted_or. rewrite prog_bind_run. unfold txn.
  destruct (m r) as [[r1 d]|e1]; [|intros [= -> _]; by left].
  destruct (pd_accepted d) eqn:E; [done|]. intros [= -> _]. right. by exists d.
Qed.

(** A refused call changes nothing. *)
Lemma refused_call r task s req e r1 d :
  loaded r task s →
  apply_worker_protocol_transition r task e (λ s, handle s req e) = Ok (r1, d) →
  pd_accepted d = false → r1 = r.
Proof.
  intros L (s0 & L0 & Hf & _ & _ & Hcase)%apply_Ok Hacc.
  destruct Hcase as [[_ ->]|(Hm & _)]; [done|].
  unfold pd_mutated in Hm. by rewrite Hacc in Hm.
Qed.

Lemma call_fails r task s req e msg r' x :
  loaded r task s →
  accepted_or (λ r, apply_worker_protocol_transition r task e (λ s, handle s req e)) msg r
    = (r', Err x) → r' = r.
Proof. intros L [->|(d & Hm & Hacc)]%accepted_fails; [done|by eapply refused_call]. Qed.

Lemma accepted_total r task s req c t es msg :
  db_ok r → loaded r task s → step s req c t es → real_times req = true →
  (∀ id ref now, req ≠ Register id ref now) →
  handle s req (ws_revision s) =
    Ok (mkProtocolDecision true c (ws_revision s) (commit s t) (stamp s es)) →
  ∃ r1, accepted_or (λ r, apply_worker_protocol_transition r task (ws_revision s)
                            (λ s', handle s' req (ws_revision s))) msg r
      = (r1, Ok (commit s t)) ∧ db_ok r1 ∧ loaded r1 task (commit s t).
Proof.
  intros D L Hs Hreal Hreq Hh.
  destruct (protocol_total _ _ _ _ _ _ _ D L Hs Hreal) as (r1 & Hr1 & D1 & L1 & _); [|done|].
  { destruct req; try done. by destruct (Hreq worker_id conversation_ref now). }
  exists r1. split; [|done]. unfold accepted_or. rewrite prog_bind_run. unfold txn. by rewrite Hr1.
Qed.
