(* ===== verification/Replacement.v ===== *)
(** * replacement.py and the replacement attempts of registry.py

    Replacing the conversation worker of a child task takes an external LSM takeover.  An
    attempt is armed against fresh evidence, submitted once, and completed by publishing a
    new protocol generation when the takeover is observed.  The submission reads the attempt,
    reads it again and writes it, [takeover_begin] and [takeover_step], with room for others in
    between; [submit_replacement] is its run without an interruption.  Completion runs several
    transactions, so it is a program that keeps what it committed when it raises. *)

From stdpp Require Import pretty.
From S2P Require Import Prelude PyFloat PyStr PyJson Models WorkerProtocol Registry.
From S2P Require Import Persistence ProbeOps AttemptTables Actions Programs.

Open Scope string_scope.
Open Scope Z_scope.
Open Scope list_scope.

(** ** The registry operations *)

Definition replacement_open (a : ReplacementAttempt) : bool :=
  match ra_state a with
  | ReplacementAttemptState.ARMED | ReplacementAttemptState.LSM_TAKEOVER_SUBMITTED
  | ReplacementAttemptState.RECONCILE_REQUIRED => true
  | _ => false
  end.

(** [idx_replacement_attempts_one_unresolved] *)
#[export] Instance replacement_row : AttemptRow ReplacementAttempt := {|
  row_id := ra_attempt_id; row_task := ra_task_id; row_open := replacement_open;
|}.

Definition replacement_state (s : ReplacementAttemptState.t) (a : ReplacementAttempt) : bool :=
  bool_decide (ra_state a = s).

Definition get_replacement_attempt (r : Registry) (attempt_id : string)
    : res ReplacementAttempt :=
  fetch "replacement attempt" (rg_replacements r) attempt_id.

Definition unresolved_replacement_attempt (r : Registry) (task_id : string)
    : option ReplacementAttempt :=
  head (order_desc ra_created_at (open_rows (rg_replacements r) task_id)).

Definition record_replacement_attempt (r : Registry) (a : ReplacementAttempt)
    : res (Registry * ReplacementAttempt) :=
  get_child_dispatch r (ra_task_id a) ≫= λ _,
  worker ← get_worker r (ra_candidate_worker_id a);
  raise_if (negb (String.eqb (wr_task_id worker) (ra_task_id a))) ValueError
    "replacement candidate belongs to a different task";;
  raise_if (negb (replacement_state ReplacementAttemptState.ARMED a)) ValueError
    "replacement attempt must be ARMED before durable recording";;
  raise_if (match unresolved_replacement_attempt r (ra_task_id a) with
            | Some u => negb (String.eqb (ra_attempt_id u) (ra_attempt_id a))
            | None => false
            end) RuntimeError "task already has unresolved replacement";;
  real_not_null (ra_created_at a);;
  real_not_null (ra_updated_at a);;
  m ← insert_row (rg_replacements r) a;
  let r' := r <| rg_replacements := m |> in
  a' ← get_replacement_attempt r' (ra_attempt_id a);
  Ok (r', a').

(** The table [allowed] of [update_replacement_attempt]. *)
Definition replacement_allowed (s : ReplacementAttemptState.t)
    : list ReplacementAttemptState.t :=
  match s with
  | ReplacementAttemptState.ARMED =>
      [ReplacementAttemptState.LSM_TAKEOVER_SUBMITTED; ReplacementAttemptState.FAILED]
  | ReplacementAttemptState.LSM_TAKEOVER_SUBMITTED
  | ReplacementAttemptState.RECONCILE_REQUIRED =>
      [ReplacementAttemptState.RECONCILE_REQUIRED; ReplacementAttemptState.COMPLETED]
  | _ => []
  end.

(** The row that an update writes. *)
Definition updated_attempt (a : ReplacementAttempt) (s : ReplacementAttemptState.t)
    (run err : option string) (now : float) : ReplacementAttempt :=
  a <| ra_state := s |> <| ra_updated_at := now |>
    <| ra_new_active_run_id := match run with
                               | Some run => strip_or_none run
                               | None => ra_new_active_run_id a
                               end |>
    <| ra_last_error := match err with
                        | Some e => Some (str_take 1000 e)
                        | None => ra_last_error a
                        end |>.

(** Whether the row that was read has to be written. *)
Definition update_required (a : ReplacementAttempt) (s : ReplacementAttemptState.t) : res bool :=
  if bool_decide (s = ra_state a) then Ok false else
  raise_if (negb (bool_decide (s ∈ replacement_allowed (ra_state a)))) RuntimeError
    "invalid replacement transition";;
  Ok true.

(** The [UPDATE] of the whole row, and the row read back. *)
Definition write_replacement (r : Registry) (a : ReplacementAttempt)
    : res (Registry * ReplacementAttempt) :=
  get_replacement_attempt r (ra_attempt_id a) ≫= λ _,
  real_not_null (ra_updated_at a);;
  m ← put_row (rg_replacements r) a;
  let r' := r <| rg_replacements := m |> in
  a' ← get_replacement_attempt r' (ra_attempt_id a);
  Ok (r', a').

Definition update_replacement_attempt (r : Registry) (attempt_id : string)
    (s : ReplacementAttemptState.t) (new_active_run_id last_error : option string)
    (now : float) : res (Registry * ReplacementAttempt) :=
  a ← get_replacement_attempt r attempt_id;
  required ← update_required a s;
  if (required : bool)
  then write_replacement r (updated_attempt a s new_active_run_id last_error now)
  else Ok (r, a).

(** ** Evidence *)

(** [0 <= now - observed_at <= max_age_s] *)
Definition _fresh (observed_at now max_age_s : float) : bool :=
  fle (of_Z 0) (fsub now observed_at) && fle (fsub now observed_at) max_age_s.

Definition block_if (b : bool) (msg : string) : list string := if b then [msg] else [].

Definition _safe_lsm (task_session_id : option string) (lsm : option LsmObservation)
    (now max_age_s : float) : list string :=
  if negb (opt_truthy task_session_id)
  then ["child has no bound durable LSM logical session"] else
  match lsm with
  | None => ["fresh LSM observation is required"]
  | Some l =>
      block_if (negb (bool_decide (lo_session_id l = task_session_id)))
        "LSM observation belongs to a different logical session" ++
      block_if (negb (_fresh (lo_observed_at l) now max_age_s))
        "LSM observation is stale or from the future" ++
      block_if (negb (lo_in_flight_calls l =? 0))
        ("LSM has " +:+ pretty (lo_in_flight_calls l) +:+ " in-flight tool call(s)") ++
      block_if (negb (lo_active_jobs l =? 0))
        ("LSM has " +:+ pretty (lo_active_jobs l) +:+ " active tracked job(s)") ++
      block_if (default false (lo_continuation_pending l)) "LSM has a pending continuation"
  end.

Definition _safe_workspace (dispatch : ChildDispatchRecord)
    (workspace : option WorkspaceObservation) (now max_age_s : float) : list string :=
  match workspace with
  | None => ["fresh workspace observation is required"]
  | Some w =>
      block_if (negb (_fresh (wo_observed_at w) now max_age_s))
        "workspace observation is stale or from the future" ++
      block_if (negb (wo_cwd_exists w)) "child working directory does not exist" ++
      block_if (opt_truthy (wo_error w))
        ("workspace reconciliation failed: " +:+ default "" (wo_error w)) ++
      if opt_truthy (cd_expected_branch dispatch) then
        if negb (bool_decide (wo_is_git_repo w = Some true)) then
          ["dispatch expects a Git branch but workspace is not a verified Git repository"]
        else
          block_if (negb (bool_decide (wo_git_branch w = cd_expected_branch dispatch)))
            ("workspace branch changed: expected " +:+ default "" (cd_expected_branch dispatch) +:+
             ", observed " +:+
             (if opt_truthy (wo_git_branch w) then default "" (wo_git_branch w) else "<detached>"))
      else []
  end.

(** The blockers of an unresolved browser action or probe mutation. *)
Definition unresolved_effects (action : option ActionAttempt)
    (probe : option ProbeMutationOperation) : list string :=
  match action with
  | Some a => ["unresolved external browser action " +:+ aa_attempt_id a +:+ " is " +:+
               ActionAttemptState.value (aa_state a)]
  | None => []
  end ++
  match probe with
  | Some o => ["global probe mutation " +:+ po_operation_id o +:+ " is " +:+
               ProbeMutationState.value (po_state o)]
  | None => []
  end.

Definition blocked {A} (blockers : list string) : res A :=
  raise ReplacementBlocked (join "; " blockers).

Definition blocks {A} (blockers : list string) : prog A := λ r, (r, blocked blockers).

(** How the candidate may take over: the mode, the reason and the blockers. *)
Definition replacement_mode (s : WorkerTaskState) (candidate_worker_id : string)
    (candidate : option WorkerLease) (now : float) : res (string * string * list string) :=
  match candidate with
  | Some c =>
      if is_status WorkerLeaseStatus.CANDIDATE c then
        if bool_decide (ws_current_worker_id s = None)
        then Ok ("CLAIM_AFTER_LSM_RESUME",
                 TakeoverReason.value TakeoverReason.NO_ACTIVE_WORKER, [])
        else
          eligibility ← takeover_eligibility s candidate_worker_id now;
          let reason := te_reason eligibility in
          if te_eligible eligibility
          then Ok ("PROTOCOL_TAKEOVER", TakeoverReason.value reason, [])
          else if bool_decide (reason = TakeoverReason.ACTIVE_LEASE_FRESH)
          then Ok ("LSM_FENCE_THEN_CLAIM", TakeoverReason.value reason, [])
          else Ok ("", TakeoverReason.value reason,
                   ["worker protocol replacement is not eligible: " +:+
                    TakeoverReason.value reason])
      else Ok ("", "", [])
  | None => Ok ("", "", [])
  end.

(** [ts] is the clock and [uuid] the fresh [uuid4().hex]. *)
Definition arm_replacement (r : Registry) (task_id candidate_worker_id : string)
    (lsm : option LsmObservation) (workspace : option WorkspaceObservation)
    (ts max_evidence_age_s : float) (uuid : string) : res (Registry * ReplacementAttempt) :=
  dispatch ← get_child_dispatch r task_id;
  task ← get_task r task_id;
  state ← load_worker_protocol r task_id;
  let candidate := worker_by_id state candidate_worker_id in
  unresolved_action ← unresolved_action_attempt r task_id;
  mode ← replacement_mode state candidate_worker_id candidate ts;
  let '(mode, reason, mode_blockers) := mode in
  let blockers :=
    block_if (bool_decide (is_Some (unresolved_replacement_attempt r task_id)))
      "an unresolved replacement attempt already exists" ++
    unresolved_effects unresolved_action (unresolved_probe_mutation_operation r) ++
    block_if (negb (task_open state)) "durable child task is not open" ++
    match candidate with
    | None => ["replacement candidate is not registered on this child task"]
    | Some c =>
        block_if (negb (is_status WorkerLeaseStatus.CANDIDATE c))
          ("replacement worker is " +:+ WorkerLeaseStatus.value (wl_status c) +:+
           ", not candidate")
    end ++
    _safe_lsm (tr_lsm_session_id task) lsm ts max_evidence_age_s ++
    _safe_workspace dispatch workspace ts max_evidence_age_s ++
    mode_blockers ++
    block_if (negb (bool_decide (ws_current_worker_id state = None)) &&
              negb (opt_truthy (lsm ≫= lo_active_run_id)))
      "active conversation worker has no observed LSM active run to supersede" in
  match blockers with
  | _ :: _ => blocked blockers
  | [] =>
      record_replacement_attempt r
        (mkReplacementAttempt ("replace_" +:+ str_take 16 uuid) task_id candidate_worker_id
           ReplacementAttemptState.ARMED (ws_revision state) (ws_current_worker_id state)
           (ws_generation state) (default "None" (tr_lsm_session_id task))
           (lsm ≫= lo_active_run_id) (workspace ≫= wo_git_head) (workspace ≫= wo_git_status_hash)
           (cd_expected_branch dispatch) mode reason ts ts None None
           [("candidate_conversation_url", j_of_opt_str (candidate ≫= wl_conversation_ref));
            ("workspace_cwd", JStr (match workspace with Some w => wo_cwd w | None => tr_cwd task end));
            ("lsm_observed_at", j_of_opt_float (lo_observed_at <$> lsm));
            ("workspace_observed_at", j_of_opt_float (wo_observed_at <$> workspace))])
  end.

(** A submission reads the attempt, which must be ARMED; its update reads the row again, and
    then writes it.  None of this is one transaction: others may come between the steps. *)
Inductive takeover :=
  | TakeoverChecked (attempt_id : string)
  | TakeoverLoaded (a : ReplacementAttempt).

Definition takeover_begin (r : Registry) (attempt_id : string) : res takeover :=
  a ← get_replacement_attempt r attempt_id;
  raise_if (negb (replacement_state ReplacementAttemptState.ARMED a)) RuntimeError
    "replacement is not ARMED";;
  Ok (TakeoverChecked attempt_id).

Definition takeover_step (now : float) (r : Registry) (t : takeover)
    : Registry * (takeover + res ReplacementAttempt) :=
  let submitted := ReplacementAttemptState.LSM_TAKEOVER_SUBMITTED in
  match t with
  | TakeoverChecked attempt_id =>
      match a ← get_replacement_attempt r attempt_id;
            required ← update_required a submitted; Ok (a, required : bool) with
      | Ok (a, true) => (r, inl (TakeoverLoaded a))
      | Ok (a, false) => (r, inr (Ok a))
      | Err e => (r, inr (Err e))
      end
  | TakeoverLoaded a =>
      match write_replacement r (updated_attempt a submitted None None now) with
      | Ok (r', a') => (r', inr (Ok a'))
      | Err e => (r, inr (Err e))
      end
  end.

(** The two steps of the update with nothing in between *)
Definition finish_takeover (now : float) (r : Registry) (t : takeover)
    : res (Registry * ReplacementAttempt) :=
  match takeover_step now r t with
  | (r1, inl t1) =>
      match takeover_step now r1 t1 with
      | (r2, inr answer) => a ← answer; Ok (r2, a)
      | (_, inl _) => raise RuntimeError "the submission has more steps"
      end
  | (r1, inr answer) => a ← answer; Ok (r1, a)
  end.

Definition submit_replacement (r : Registry) (attempt_id : string) (now : float)
    : res (Registry * ReplacementAttempt) :=
  t ← takeover_begin r attempt_id; finish_takeover now r t.

Definition _completion_blockers (r : Registry) (a : ReplacementAttempt)
    (lsm : option LsmObservation) (workspace : option WorkspaceObservation)
    (new_active_run_id : string) (now max_evidence_age_s : float) : res (list string) :=
  unresolved_action ← unresolved_action_attempt r (ra_task_id a);
  dispatch ← get_child_dispatch r (ra_task_id a);
  Ok (
    unresolved_effects unresolved_action (unresolved_probe_mutation_operation r) ++
    _safe_lsm (Some (ra_lsm_session_id a)) lsm now max_evidence_age_s ++
    _safe_workspace dispatch workspace now max_evidence_age_s ++
    match lsm with
    | Some l =>
        (if negb (str_truthy (strip new_active_run_id))
         then ["new LSM active run id is required"]
         else block_if (negb (bool_decide (lo_active_run_id l = Some new_active_run_id)))
                "observed LSM active run does not match the reported takeover result") ++
        block_if (opt_truthy (ra_previous_active_run_id a) &&
                  bool_decide (ra_previous_active_run_id a = Some new_active_run_id))
          "LSM active run did not change across takeover"
    | None => []
    end ++
    match workspace with
    | Some w =>
        block_if (negb (bool_decide (wo_git_head w = ra_workspace_git_head a)))
          "workspace HEAD changed while replacement was in flight" ++
        block_if (negb (bool_decide (wo_git_status_hash w = ra_workspace_status_hash a)))
          "workspace status changed while replacement was in flight" ++
        block_if (opt_truthy (ra_expected_branch a) &&
                  negb (bool_decide (wo_git_branch w = ra_expected_branch a)))
          "workspace branch changed while replacement was in flight"
    | None => []
    end).

(** Publish the candidate's authority; the state is the one loaded at the start. *)
Definition publish_candidate (a : ReplacementAttempt) (state : WorkerTaskState)
    (lease_seconds ts : float) : prog WorkerTaskState :=
  let task_id := ra_task_id a in
  let candidate := ra_candidate_worker_id a in
  match ws_current_worker_id state with
  | None =>
      accepted_or (λ r, protocol_claim_worker r task_id candidate (ws_revision state)
                          lease_seconds ts) "replacement claim rejected"
  | Some current =>
      if negb (bool_decide (ra_previous_worker_id a = Some current)) ||
         negb (ws_generation state =? ra_previous_generation a)
      then blocks ["current worker/generation changed since replacement was armed"]
      else
        eligibility ← query (λ _, takeover_eligibility state candidate ts);
        if te_eligible eligibility then
          accepted_or (λ r, protocol_takeover_worker r task_id candidate (ws_revision state)
                              lease_seconds ts) "replacement takeover rejected"
        else if bool_decide (te_reason eligibility = TakeoverReason.ACTIVE_LEASE_FRESH) then
          abandoned ← accepted_or (λ r, protocol_abandon_worker r task_id current
                                          (ws_generation state) (ws_revision state) ts)
                        "old worker fence rejected";
          accepted_or (λ r, protocol_claim_worker r task_id candidate (ws_revision abandoned)
                              lease_seconds ts) "replacement claim rejected"
        else blocks ["worker protocol replacement ceased to be eligible: " +:+
                     TakeoverReason.value (te_reason eligibility)]
  end.

(** Record the blockers and raise. *)
Definition reconcile_replacement (attempt_id new_active_run_id : string) (ts : float)
    (bs : list string) : prog ReplacementAttempt :=
  _ ← txn (λ r, update_replacement_attempt r attempt_id
                  ReplacementAttemptState.RECONCILE_REQUIRED
                  (Some new_active_run_id) (Some (join "; " bs)) ts);
  blocks bs.

Definition complete_replacement (attempt_id new_active_run_id : string)
    (lsm : option LsmObservation) (workspace : option WorkspaceObservation)
    (lease_seconds ts max_evidence_age_s : float) : prog ReplacementAttempt :=
  a ← query (λ r, get_replacement_attempt r attempt_id);
  if negb (replacement_state ReplacementAttemptState.LSM_TAKEOVER_SUBMITTED a) &&
     negb (replacement_state ReplacementAttemptState.RECONCILE_REQUIRED a)
  then fails RuntimeError "replacement is not awaiting LSM reconciliation" else
  blockers ← query (λ r, _completion_blockers r a lsm workspace new_active_run_id ts
                           max_evidence_age_s);
  state ← query (λ r, load_worker_protocol r (ra_task_id a));
  let completed :=
    txn (λ r, update_replacement_attempt r attempt_id ReplacementAttemptState.COMPLETED
                (Some new_active_run_id) None ts) in
  let reconcile := reconcile_replacement attempt_id new_active_run_id ts in
  let publish bs :=
    match bs with
    | _ :: _ => reconcile bs
    | [] =>
        published ← publish_candidate a state lease_seconds ts;
        if negb (bool_decide (ws_current_worker_id published = Some (ra_candidate_worker_id a)))
        then fails RuntimeError "replacement transition did not publish candidate authority"
        else completed
    end in
  match worker_by_id state (ra_candidate_worker_id a) with
  | None => publish (blockers ++ ["replacement candidate disappeared from worker protocol"])
  | Some candidate =>
      if bool_decide (ws_current_worker_id state = Some (ra_candidate_worker_id a)) &&
         is_status WorkerLeaseStatus.ACTIVE candidate
      then
        match blockers ++ block_if (ws_generation state <=? ra_previous_generation a)
                            "candidate is active without a newer protocol generation" with
        | (_ :: _) as bs => reconcile bs
        | [] => completed
        end
      else
        publish (blockers ++ block_if (negb (ws_revision state =? ra_expected_revision a))
                   ("worker protocol revision changed from " +:+ pretty (ra_expected_revision a) +:+
                    " to " +:+ pretty (ws_revision state)))
  end.
