(* ===== verification/ChildDispatch.v ===== *)
(** * The child dispatches of registry.py

    A parent task hands work to a child task under a key.  Creating the dispatch persists
    the contract, the child task and its protocol lineage in one transaction; the child is
    then bound to one LSM session, adopted by one conversation worker, and completed.  The
    last two run several transactions and are programs. *)

From S2P Require Import Prelude PyFloat PyStr PyJson Models WorkerProtocol Registry.
From S2P Require Import Persistence AttemptTables Actions Reconcile Programs Spawns Replacement.

Open Scope string_scope.
Open Scope Z_scope.
Open Scope list_scope.

(** ** Creating a dispatch *)

(** The arguments of [create_child_dispatch]. *)
Record ChildRequest := mkChildRequest {
  cr_parent_task_id : string;
  cr_child_key : string;
  cr_project : string;
  cr_objective : string;
  cr_cwd : string;
  cr_prompt_text : string;
  cr_child_task_id : option string;
  cr_expected_branch : option string;
  cr_base_ref : option string;
  cr_web_project_url : option string;
  cr_metadata : dict;
}.

Definition _optional_text (value : option string) : option string := value ≫= strip_or_none.

(** 256 KiB *)
Definition max_prompt_bytes : Z := 256 * 1024.

(** The stripped arguments; [uuid] names a child that the caller did not name. *)
Definition normalized_request (q : ChildRequest) (uuid : string) : res (ChildRequest * string) :=
  let parent := strip (cr_parent_task_id q) in
  let q' := mkChildRequest parent (strip (cr_child_key q)) (strip (cr_project q))
    (strip (cr_objective q)) (strip (cr_cwd q)) (cr_prompt_text q) (cr_child_task_id q)
    (_optional_text (cr_expected_branch q)) (_optional_text (cr_base_ref q))
    (_optional_text (cr_web_project_url q)) (cr_metadata q) in
  raise_if (negb (str_truthy parent) || negb (str_truthy (cr_child_key q')) ||
            negb (str_truthy (cr_project q')) || negb (str_truthy (cr_objective q')) ||
            negb (str_truthy (cr_cwd q'))) ValueError
    "parent task, child key, project, objective, and cwd are required";;
  raise_if (negb (str_truthy (strip (cr_prompt_text q)))) ValueError
    "child dispatch prompt must be non-empty";;
  raise_if (max_prompt_bytes <? Z.of_nat (String.length (cr_prompt_text q))) ValueError
    "child dispatch prompt exceeds 256 KiB";;
  let child := strip (if opt_truthy (cr_child_task_id q) then default "" (cr_child_task_id q)
                      else "task_" +:+ str_take 12 uuid) in
  raise_if (negb (str_truthy child) || String.eqb child parent) ValueError
    "child_task_id must identify a different non-empty task";;
  Ok (q', child).

(** [SELECT * FROM child_dispatches WHERE parent_task_id = ? AND child_key = ?] *)
Definition dispatch_for_key (r : Registry) (parent key : string) : option ChildDispatchRecord :=
  head (select (λ d, String.eqb (cd_parent_task_id d) parent && String.eqb (cd_child_key d) key)
          (rg_dispatches r)).

Section Create.
Context {digests : Digests}.

(** The existing dispatch was made by the same request. *)
Definition same_contract (r : Registry) (d : ChildDispatchRecord) (q : ChildRequest) : bool :=
  match rg_tasks r !! cd_child_task_id d with
  | Some child =>
      String.eqb (tr_project child) (cr_project q) &&
      String.eqb (tr_objective child) (cr_objective q) && String.eqb (tr_cwd child) (cr_cwd q)
  | None => false
  end &&
  String.eqb (cd_prompt_sha256 d) (sha256_text (cr_prompt_text q)) &&
  bool_decide (cd_expected_branch d = cr_expected_branch q) &&
  bool_decide (cd_base_ref d = cr_base_ref q) &&
  bool_decide (cd_web_project_url d = cr_web_project_url q) &&
  json_eq (JObj (cd_metadata d)) (JObj (cr_metadata q)).

Definition new_child_task (q : ChildRequest) (child : string) (timestamp : float) : TaskRecord :=
  mkTaskRecord child (cr_project q) (cr_objective q) (cr_cwd q) SupervisorState.QUEUED None []
    None 0 3 timestamp timestamp.

Definition new_child_protocol (q : ChildRequest) (child root : string) : ProtocolTaskRow :=
  mkProtocolTaskRow (mkTaskLineage child (Some (cr_parent_task_id q)) root (Some (cr_child_key q)))
    0 0 DurableTaskStatus.OPEN None None None None None.

Definition new_dispatch (q : ChildRequest) (child dispatch_id : string) (timestamp : float)
    : ChildDispatchRecord :=
  mkChildDispatchRecord dispatch_id (cr_parent_task_id q) child (cr_child_key q)
    (cr_prompt_text q) (sha256_text (cr_prompt_text q)) (cr_expected_branch q) (cr_base_ref q)
    (cr_web_project_url q) timestamp timestamp (cr_metadata q).

(** The unique indexes of [child_dispatches]. *)
Definition dispatch_conflict (r : Registry) (d : ChildDispatchRecord) : bool :=
  bool_decide (is_Some (rg_dispatches r !! cd_dispatch_id d)) ||
  existsb (λ e, String.eqb (cd_child_task_id e) (cd_child_task_id d) ||
                String.eqb (cd_parent_task_id e) (cd_parent_task_id d) &&
                String.eqb (cd_child_key e) (cd_child_key d))
    (select (λ _, true) (rg_dispatches r)).

(** The three inserts. *)
Definition insert_child (r : Registry) (q : ChildRequest) (child root dispatch_id : string)
    (timestamp : float) : res Registry :=
  real_not_null timestamp;;
  raise_if (bool_decide (is_Some (rg_protocol_tasks r !! child))) IntegrityError
    "UNIQUE constraint failed: worker_protocol_tasks.task_id";;
  let d := new_dispatch q child dispatch_id timestamp in
  raise_if (dispatch_conflict r d) IntegrityError "UNIQUE constraint failed: child_dispatches";;
  Ok (r <| rg_tasks := <[child := new_child_task q child timestamp]> (rg_tasks r) |>
        <| rg_protocol_tasks := <[child := new_child_protocol q child root]> (rg_protocol_tasks r) |>
        <| rg_dispatches := <[dispatch_id := d]> (rg_dispatches r) |>).

(** The write transaction, on the stripped arguments. *)
Definition create_locked (r : Registry) (q : ChildRequest) (child dispatch_uuid : string)
    (timestamp : float) : res (Registry * ChildDispatchRecord) :=
  let parent := cr_parent_task_id q in
  raise_if (negb (task_exists r parent)) KeyError "unknown parent task";;
  match rg_protocol_tasks r !! parent with
  | None => raise RuntimeError "parent task must have worker protocol state before dispatch"
  | Some row =>
      raise_if (negb (bool_decide (pt_task_status row = DurableTaskStatus.OPEN))) RuntimeError
        "completed parent task cannot create new child dispatches";;
      match dispatch_for_key r parent (cr_child_key q) with
      | Some d =>
          raise_if (negb (same_contract r d q) || negb (String.eqb child (cd_child_task_id d)))
            RuntimeError "child key already exists with a different dispatch contract";;
          Ok (r, d)
      | None =>
          raise_if (task_exists r child) RuntimeError
            "child_task_id already exists without this dispatch contract";;
          r' ← insert_child r q child (tl_root_task_id (pt_lineage row))
                 ("dispatch_" +:+ str_take 16 dispatch_uuid) timestamp;
          d ← get_child_dispatch r' child;
          Ok (r', d)
      end
  end.

(** A parent without protocol state is bootstrapped first, in its own transaction. *)
Definition ensure_protocol (task_id : string) : prog unit := λ r,
  if protocol_state_exists r task_id then (r, Ok tt)
  else txn (λ r, '(r', _) ← bootstrap_worker_protocol r task_id None None None; Ok (r', tt)) r.

Definition create_child_dispatch (q : ChildRequest) (uuid dispatch_uuid : string)
    (timestamp : float) : prog ChildDispatchRecord :=
  normalized ← query (λ _, normalized_request q uuid);
  let '(q, child) := normalized in
  _ ← ensure_protocol (cr_parent_task_id q);
  txn (λ r, create_locked r q child dispatch_uuid timestamp).

End Create.

(** [ORDER BY created_at, dispatch_id] *)
Definition child_dispatches_for_parent (r : Registry) (parent_task_id : string)
    : list ChildDispatchRecord :=
  py_sorted (λ x y, negb (flt (cd_created_at y) (cd_created_at x)))
    (select (λ d, String.eqb (cd_parent_task_id d) parent_task_id) (rg_dispatches r)).

(** ** The LSM session *)

(** [now] is the clock read when the session is written. *)
Definition bind_child_lsm_session (r : Registry) (child_task_id session_id : string) (now : float)
    : res (Registry * TaskRecord) :=
  get_child_dispatch r child_task_id ≫= λ _,
  let session_id := strip session_id in
  raise_if (negb (str_truthy session_id)) ValueError "session_id must be non-empty";;
  task ← get_task r child_task_id;
  match tr_lsm_session_id task with
  | Some existing =>
      raise_if (negb (String.eqb existing session_id)) RuntimeError
        "child already belongs to a different durable LSM session";;
      Ok (r, task)
  | None =>
      real_not_null now;;
      let task := task <| tr_lsm_session_id := Some session_id |> <| tr_updated_at := now |> in
      Ok (r <| rg_tasks := <[child_task_id := task]> (rg_tasks r) |>, task)
  end.

(** ** The durable state of a task *)

(** [now] is the clock; an unknown task is left alone. *)
Definition update_state (r : Registry) (task_id : string) (st : SupervisorState.t) (now : float)
    : res (Registry * unit) :=
  (if protocol_state_exists r task_id then
     s ← load_worker_protocol r task_id;
     if bool_decide (ws_task_status s = DurableTaskStatus.COMPLETED) then
       raise_if (negb (bool_decide (st = SupervisorState.COMPLETED))) RuntimeError
         "completed worker protocol task cannot be reopened by legacy update_state"
     else
       raise_if (bool_decide (st = SupervisorState.COMPLETED) ||
                 bool_decide (st = SupervisorState.ABANDONED)) RuntimeError
         "use worker-protocol task semantics for a protocol-initialized durable task"
   else Ok tt);;
  match rg_tasks r !! task_id with
  | Some task =>
      real_not_null now;;
      Ok (r <| rg_tasks := <[task_id := task <| tr_state := st |> <| tr_updated_at := now |>]>
                 (rg_tasks r) |>, tt)
  | None => Ok (r, tt)
  end.

(** ** Completion *)

(** An unresolved side effect of the child raises. *)
Definition require_resolved {A} (o : option A) (msg : string) : prog unit := λ r,
  (r, match o with Some _ => raise RuntimeError msg | None => Ok tt end).

(** End the current worker: complete it, or abandon it when its lease has expired. *)
Definition end_current_worker (child_task_id : string) (s : WorkerTaskState) (ts : float)
    : prog WorkerTaskState :=
  match ws_current_worker_id s with
  | None => mret s
  | Some current =>
      completed ← txn (λ r, protocol_complete_worker r child_task_id current (ws_generation s)
                              (ws_revision s) ts);
      if pd_accepted completed then mret (pd_state completed)
      else if bool_decide (pd_code completed = DecisionCode.LEASE_EXPIRED) then
        accepted_or (λ r, protocol_abandon_worker r child_task_id current (ws_generation s)
                            (ws_revision s) ts)
          "expired current child worker abandonment rejected"
      else fails RuntimeError "current child worker completion rejected"
  end.

(** The part of a completion that follows the load; [now] is the clock that [update_state]
    reads. *)
Definition finish_child (child_task_id completion_ref : string) (s : WorkerTaskState)
    (ts now : float) : prog WorkerTaskState :=
  if bool_decide (ws_task_status s = DurableTaskStatus.COMPLETED) then
    if negb (bool_decide (ws_completion_ref s = Some completion_ref))
    then fails RuntimeError "child is already completed with a different completion_ref" else
    task ← query (λ r, get_task r child_task_id);
    if negb (bool_decide (tr_state task = SupervisorState.COMPLETED)) then
      _ ← txn (λ r, update_state r child_task_id SupervisorState.COMPLETED now); mret s
    else mret s
  else
    s ← end_current_worker child_task_id s ts;
    s' ← accepted_or (λ r, protocol_complete_task r child_task_id completion_ref
                             (ws_revision s) ts) "child task completion rejected";
    _ ← txn (λ r, update_state r child_task_id SupervisorState.COMPLETED now);
    mret s'.

Definition complete_child_dispatch (child_task_id completion_ref : string) (ts now : float)
    : prog WorkerTaskState :=
  _ ← query (λ r, get_child_dispatch r child_task_id);
  let completion_ref := strip completion_ref in
  if negb (str_truthy completion_ref)
  then fails ValueError "completion_ref must be non-empty" else
  action ← query (λ r, unresolved_action_attempt r child_task_id);
  _ ← require_resolved action "child has unresolved external action";
  replacement ← query (λ r, Ok (unresolved_replacement_attempt r child_task_id));
  _ ← require_resolved replacement "child has unresolved replacement";
  spawn ← txn (λ r, unresolved_child_spawn_attempt r child_task_id);
  _ ← require_resolved spawn "child has unresolved spawn";
  s ← query (λ r, load_worker_protocol r child_task_id);
  finish_child child_task_id completion_ref s ts now.

(** ** Workers of a child *)

Definition workers_at (s : WorkerTaskState) (conversation_url : string) : list WorkerLease :=
  List.filter (λ w, bool_decide (wl_conversation_ref w = Some conversation_url)) (ws_workers s).

Definition adopt_child_worker (child_task_id conversation_url : string) (lease_seconds : float)
    (worker_id : option string) (uuid : string) (timestamp : float) : prog WorkerTaskState :=
  _ ← query (λ r, get_child_dispatch r child_task_id);
  let url := strip conversation_url in
  if negb (str_truthy url) then fails ValueError "conversation_url must be non-empty" else
  if fle lease_seconds (of_Z 0) then fails ValueError "lease_seconds must be positive" else
  s ← query (λ r, load_worker_protocol r child_task_id);
  let claim w s := accepted_or (λ r, protocol_claim_worker r child_task_id (wl_worker_id w)
                                       (ws_revision s) lease_seconds timestamp)
                     "child worker claim rejected" in
  match workers_at s url, ws_current_worker_id s with
  | _ :: _ :: _, _ => fails RuntimeError
      "multiple protocol workers unexpectedly share the conversation URL"
  | [w], Some current =>
      if String.eqb (wl_worker_id w) current then mret s
      else fails RuntimeError "child already has an authoritative worker; use replacement protocol"
  | [], Some _ =>
      fails RuntimeError "child already has an authoritative worker; use replacement protocol"
  | [w], None =>
      if negb (is_status WorkerLeaseStatus.CANDIDATE w)
      then fails RuntimeError "existing conversation worker is terminal and cannot be re-adopted"
      else claim w s
  | [], None =>
      s ← accepted_or (λ r, protocol_register_worker r child_task_id url (ws_revision s) worker_id
                              uuid timestamp) "child worker registration rejected";
      match workers_at s url with
      | w :: _ => claim w s
      | [] => fails StopIteration ""
      end
  end.

Definition register_replacement_candidate (child_task_id conversation_url : string)
    (worker_id : option string) (uuid : string) (now : float) : prog WorkerTaskState :=
  _ ← query (λ r, get_child_dispatch r child_task_id);
  let url := strip conversation_url in
  if negb (str_truthy url) then fails ValueError "conversation_url must be non-empty" else
  s ← query (λ r, load_worker_protocol r child_task_id);
  match workers_at s url with
  | _ :: _ :: _ => fails RuntimeError
      "multiple protocol workers unexpectedly share the conversation URL"
  | [w] =>
      if negb (is_status WorkerLeaseStatus.CANDIDATE w)
      then fails RuntimeError "replacement conversation already belongs to a terminal/active worker"
      else mret s
  | [] => accepted_or (λ r, protocol_register_worker r child_task_id url (ws_revision s) worker_id
                              uuid now) "replacement candidate rejected"
  end.
