(* ===== verification/ChildCalls.v ===== *)
(** * Runs of the registry calls on children

    The calls on child dispatches and their workers as programs, and what every one of them
    has in common: a preorder that each of the transactions below respects is respected by
    every program, whatever its conditions, refusals and interruptions. *)

From S2P Require Import Prelude PyFloat PyStr PyJson Models.
From S2P Require Import WorkerProtocol Registry Persistence PersistenceTheorems.
From S2P Require Import AttemptTables Actions Reconcile Programs Spawns Replacement ChildDispatch.

Open Scope string_scope.
Open Scope Z_scope.
Open Scope list_scope.

Inductive child_call :=
  | CCreate (q : ChildRequest) (uuid dispatch_uuid : string) (ts : float)
  | CBind (child session_id : string) (now : float)
  | CComplete (child ref : string) (ts now : float)
  | CAdopt (child url : string) (lease_seconds : float) (worker : option string) (uuid : string)
      (ts : float)
  | CCandidate (child url : string) (worker : option string) (uuid : string) (now : float)
  | CState (task : string) (st : SupervisorState.t) (now : float)
  | CProtocol (c : protocol_call).

Section Calls.
Context {digests : Digests}.

Definition child_prog (c : child_call) : prog unit :=
  match c with
  | CCreate q uuid duuid ts => _ ← create_child_dispatch q uuid duuid ts; mret tt
  | CBind child sid now => _ ← txn (λ r, bind_child_lsm_session r child sid now); mret tt
  | CComplete child ref ts now => _ ← complete_child_dispatch child ref ts now; mret tt
  | CAdopt child url ls w uuid ts => _ ← adopt_child_worker child url ls w uuid ts; mret tt
  | CCandidate child url w uuid now =>
      _ ← register_replacement_candidate child url w uuid now; mret tt
  | CState task st now => txn (λ r, update_state r task st now)
  | CProtocol c => _ ← txn (λ r, perform_protocol r c); mret tt
  end.

(** The registry after a sequence of calls, failing and interrupted ones included. *)
Definition child_run (r : Registry) (calls : list child_call) : Registry :=
  foldl (λ r c, (child_prog c r).1) r calls.

(** ** Preorders *)

Record calls_respect (R : Registry → Registry → Prop) : Prop := {
  tr_apply : ∀ r t e f r' d, apply_worker_protocol_transition r t e f = Ok (r', d) → R r r';
  tr_session : ∀ r c sid now r' t, bind_child_lsm_session r c sid now = Ok (r', t) → R r r';
  tr_state : ∀ r id st now r' u, update_state r id st now = Ok (r', u) → R r r';
  tr_scan : ∀ r c r' o, unresolved_child_spawn_attempt r c = Ok (r', o) → R r r';
  tr_bootstrap : ∀ r id r' s, protocol_state_exists r id = false →
    bootstrap_worker_protocol r id None None None = Ok (r', s) → R r r';
  tr_create : ∀ r q c uuid ts r' d, create_locked r q c uuid ts = Ok (r', d) → R r r';
}.

Context (R : Registry → Registry → Prop) `{!PreOrder R} (HR : calls_respect R).

Lemma stay_respects {A} (g : Registry → res A) : respects R (λ r, (r, g r)).
Proof using PreOrder0. apply respects_stay, _. Qed.

Lemma protocol_respects {A} (m : prog A) (c : protocol_call) g :
  (∀ r, m r = match perform_protocol r c with Ok (r', d) => (r', g d) | Err e => (r, Err e) end) →
  respects R m.
Proof using HR PreOrder0.
  intros Hm r r' x. rewrite Hm. destruct (perform_protocol r c) as [[r1 d]|e] eqn:E.
  - intros [= <- _]. apply performs_request in E as (task & e & req & E).
    by eapply (tr_apply R HR).
  - intros [= <- _]. reflexivity.
Qed.

Lemma accepted_respects m msg :
  (∃ c, ∀ r, m r = perform_protocol r c) → respects R (accepted_or m msg).
Proof using HR PreOrder0.
  intros [c Hc]. apply (protocol_respects _ c (λ d,
    if pd_accepted d then Ok (pd_state d) else raise RuntimeError msg)).
  intros r. unfold accepted_or. rewrite prog_bind_run. unfold txn. rewrite Hc.
  destruct (perform_protocol r c) as [[r1 d]|]; [|done]. by destruct (pd_accepted d).
Qed.

(** A program of registry calls: case analysis on its conditions, then one fact per call. *)
Ltac respects_step :=
  match goal with
  | |- respects R (_ ≫= _) => apply respects_bind; [apply _| |intros]
  | |- respects R (if ?b then _ else _) => destruct b
  | |- respects R (match ?x with _ => _ end) => destruct x
  | |- respects R (accepted_or _ _) => apply accepted_respects
  | |- respects R (txn (λ r, unresolved_child_spawn_attempt r _)) =>
      apply respects_txn; [apply _|by intros ????; eapply (tr_scan R HR)]
  | |- respects R (txn (λ r, update_state r _ _ _)) =>
      apply respects_txn; [apply _|by intros ????; eapply (tr_state R HR)]
  | |- respects R (query _) => apply stay_respects
  | |- respects R (fails _ _) => apply (stay_respects (λ _, raise _ _))
  | |- respects R (mret _) => apply (stay_respects (λ _, Ok _))
  | |- respects R (require_resolved _ _) => apply (stay_respects (λ _, _))
  end.

Lemma complete_respects child ref ts now :
  respects R (complete_child_dispatch child ref ts now).
Proof using HR PreOrder0.
  unfold complete_child_dispatch, finish_child, end_current_worker. cbv zeta.
  assert (∀ w g e, respects R (txn (λ r, protocol_complete_worker r child w g e ts))) as Hc.
  { intros w g e. by apply (protocol_respects _ (PCompleteWorker child w g e ts) Ok). }
  repeat respects_step.
  - apply Hc.
  - by eexists (PAbandonWorker _ _ _ _ _).
  - by eexists (PCompleteTask _ _ _ _).
Qed.

Lemma adopt_respects child url ls w uuid ts :
  respects R (adopt_child_worker child url ls w uuid ts).
Proof using HR PreOrder0.
  unfold adopt_child_worker. cbv zeta. repeat respects_step.
  - by eexists (PRegister _ _ _ _ _ _).
  - by eexists (PClaim _ _ _ _ _).
  - by eexists (PClaim _ _ _ _ _).
Qed.

Lemma candidate_respects child url w uuid now :
  respects R (register_replacement_candidate child url w uuid now).
Proof using HR PreOrder0.
  unfold register_replacement_candidate. cbv zeta. repeat respects_step.
  by eexists (PRegister _ _ _ _ _ _).
Qed.

Lemma ensure_respects id : respects R (ensure_protocol id).
Proof using HR PreOrder0.
  intros r r' x. unfold ensure_protocol.
  destruct (protocol_state_exists r id) eqn:He; [by intros [= <- _]|].
  unfold txn. destruct (bootstrap_worker_protocol r id None None None) as [[r1 s]|] eqn:Hb;
    [|by intros [= <- _]].
  intros [= <- _]. by eapply (tr_bootstrap R HR).
Qed.

Lemma create_respects q uuid duuid ts : respects R (create_child_dispatch q uuid duuid ts).
Proof using HR PreOrder0.
  unfold create_child_dispatch. respects_step; [apply stay_respects|]. destruct a as [q' child].
  respects_step; [apply ensure_respects|]. apply respects_txn; [apply _|].
  intros r r' d. by apply (tr_create R HR).
Qed.

Lemma call_respects c : respects R (child_prog c).
Proof using HR PreOrder0.
  destruct c; cbn; try (respects_step; [|by respects_step]).
  - apply create_respects.
  - apply respects_txn; [apply _|]. intros r r' t. by apply (tr_session R HR).
  - apply complete_respects.
  - apply adopt_respects.
  - apply candidate_respects.
  - apply respects_txn; [apply _|]. intros r r' u. by apply (tr_state R HR).
  - by apply (protocol_respects _ c Ok).
Qed.

Lemma child_run_respects calls r : R r (child_run r calls).
Proof using HR PreOrder0.
  revert r. induction calls as [|c calls IH]; intros r; [by apply (reflexivity (R := R))|].
  cbn. etrans; [|apply IH]. destruct (child_prog c r) as [r' x] eqn:E. by eapply call_respects.
Qed.

End Calls.
