(* ===== verification/ReplacementTheorems.v ===== *)
(** * The guarantees of the replacement attempts

    Over any sequence of registry calls a task has at most one unresolved attempt; over any
    interleaving of submissions no LSM takeover is submitted by one that starts after another
    has succeeded.  A completion publishes the candidate's
    authority along the lease protocol, a blocked one leaves the protocol alone, and a
    completion whose evidence is clean succeeds. *)

From S2P Require Import Prelude PyFloat Runs PyStr PyJson Models.
From S2P Require Import WorkerProtocol WorkerProtocolFacts WorkerProtocolSteps WorkerProtocolReach.
From S2P Require Import Registry Persistence PersistenceFacts PersistenceTheorems.
From S2P Require Import ProbeOps AttemptTables Actions Programs Replacement.

Open Scope string_scope.
Open Scope Z_scope.
Open Scope list_scope.

(** ** The table of attempts *)

Definition replacements_ok (r : Registry) : Prop := table_ok (rg_replacements r).

Definition rank (s : ReplacementAttemptState.t) : nat :=
  match s with
  | ReplacementAttemptState.ARMED => 0
  | ReplacementAttemptState.LSM_TAKEOVER_SUBMITTED => 1
  | ReplacementAttemptState.RECONCILE_REQUIRED => 2
  | ReplacementAttemptState.COMPLETED | ReplacementAttemptState.FAILED => 3
  end.

(** What the calls may do to an attempt: what was armed is fixed, the state moves
    forward, and a resolved attempt is final. *)
Record advances (a a' : ReplacementAttempt) : Prop := {
  av_id : ra_attempt_id a' = ra_attempt_id a;
  av_task : ra_task_id a' = ra_task_id a;
  av_candidate : ra_candidate_worker_id a' = ra_candidate_worker_id a;
  av_revision : ra_expected_revision a' = ra_expected_revision a;
  av_previous : ra_previous_worker_id a' = ra_previous_worker_id a;
  av_generation : ra_previous_generation a' = ra_previous_generation a;
  av_session : ra_lsm_session_id a' = ra_lsm_session_id a;
  av_rank : (rank (ra_state a) ≤ rank (ra_state a'))%nat;
  av_final : replacement_open a = false → ra_state a' = ra_state a;
}.

#[export] Instance advances_preorder : PreOrder advances.
Proof.
  split; [by intros a; constructor|].
  intros a b c [] []. constructor; try congruence; [lia|].
  intros Hu. rewrite <- av_final0 by done. apply av_final1.
  unfold replacement_open in *. by rewrite av_final0.
Qed.

Definition attempts_advance (r r' : Registry) : Prop :=
  replacements_ok r → replacements_ok r' ∧
  ∀ k a, rg_replacements r !! k = Some a →
    ∃ a', rg_replacements r' !! k = Some a' ∧ advances a a'.

#[export] Instance attempts_advance_preorder : PreOrder attempts_advance.
Proof.
  split.
  - intros r Hok. split; [done|]. intros k a Ha. by exists a.
  - intros r1 r2 r3 H12 H23 Hok. destruct (H12 Hok) as [Hok2 H2].
    destruct (H23 Hok2) as [Hok3 H3]. split; [done|]. intros k a Ha.
    destruct (H2 _ _ Ha) as (b & Hb & ?). destruct (H3 _ _ Hb) as (c & Hc & ?).
    exists c. split; [done|by trans b].
Qed.

Lemma same_attempts r r' : rg_replacements r' = rg_replacements r → attempts_advance r r'.
Proof.
  intros Heq Hok. unfold replacements_ok. rewrite Heq. split; [done|].
  intros k a Ha. by exists a.
Qed.

Lemma write_Ok r a r' a' :
  write_replacement r a = Ok (r', a') →
  is_nan (ra_updated_at a) = false ∧ a' = a ∧
  r' = r <| rg_replacements := <[ra_attempt_id a := a]> (rg_replacements r) |> ∧
  put_row (rg_replacements r) a = Ok (rg_replacements r').
Proof.
  intros H. apply bind_Ok_inv in H as (_ & _ & H).
  apply unit_bind_Ok in H as [Hnan%raise_if_Ok_inv H]. apply bind_Ok_inv in H as (m & Hm & H).
  apply bind_Ok_inv in H as (b & Hb%fetch_Ok & [= <- <-]).
  pose proof Hm as [_ Em]%put_row_Ok. cbn in Em, Hb. subst m.
  rewrite lookup_insert_eq in Hb. injection Hb as <-. by split_and!.
Qed.

Lemma update_Ok r id s run err now r' a' :
  replacements_ok r → update_replacement_attempt r id s run err now = Ok (r', a') →
  ∃ a, rg_replacements r !! id = Some a ∧
    ((ra_state a = s ∧ r' = r ∧ a' = a) ∨
     (ra_state a ≠ s ∧ s ∈ replacement_allowed (ra_state a) ∧ is_nan now = false ∧
      a' = updated_attempt a s run err now ∧
      r' = r <| rg_replacements := <[id := a']> (rg_replacements r) |> ∧
      put_row (rg_replacements r) a' = Ok (rg_replacements r'))).
Proof.
  intros Hok H. apply bind_Ok_inv in H as (a & Ha%fetch_Ok & H). exists a. split; [done|].
  apply bind_Ok_inv in H as (required & Hr & H). unfold update_required in Hr.
  case_bool_decide as Hs; [injection Hr as <-; injection H as <- <-; by left|].
  apply raise_if_then in Hr as [Hal%negb_false_iff%bool_decide_eq_true [= <-]].
  apply write_Ok in H as (Hnan & -> & Er & Hp). cbn in Hnan.
  assert (row_id (updated_attempt a s run err now) = id) as E
    by exact (tb_keyed _ Hok _ _ Ha).
  cbn in E, Er, Hp. rewrite E in Er. right. by split_and!.
Qed.

Lemma allowed_forward s s' :
  s' ∈ replacement_allowed s → s' ≠ s →
  (rank s < rank s')%nat ∧ s' ≠ ReplacementAttemptState.ARMED.
Proof.
  destruct s, s'; cbn; rewrite ?elem_of_cons, ?elem_of_nil; intros H Hne;
    try (destruct_or? H; done); (split; [lia|done]).
Qed.

Lemma open_below_resolved a : replacement_open a = true ↔ (rank (ra_state a) < 3)%nat.
Proof. unfold replacement_open. destruct (ra_state a); cbn; split; (done || lia). Qed.

Lemma updated_advances a s run err now :
  s ∈ replacement_allowed (ra_state a) → s ≠ ra_state a →
  advances a (updated_attempt a s run err now).
Proof.
  intros Hal Hne. destruct (allowed_forward _ _ Hal Hne) as [Hr _].
  constructor; cbn; try done; [lia|]. intros Hu.
  unfold replacement_open in Hu. destruct (ra_state a); (done || by apply not_elem_of_nil in Hal).
Qed.

Lemma update_advances id s run err now r r' a' :
  update_replacement_attempt r id s run err now = Ok (r', a') → attempts_advance r r'.
Proof.
  intros H Hok. destruct (update_Ok _ _ _ _ _ _ _ _ Hok H)
    as (a & Ha & [(_ & -> & _)|(Hne & Hal & _ & -> & -> & Hp)]).
  - by apply (reflexivity (R := attempts_advance) r).
  - split; [by eapply put_row_ok|]. intros k x Hx. cbn.
    destruct (decide (k = id)) as [->|Hk].
    + eexists. rewrite lookup_insert_eq. split; [done|].
      replace x with a by congruence. by apply updated_advances.
    + exists x. by rewrite lookup_insert_ne.
Qed.

Lemma record_advances a r r' a' :
  record_replacement_attempt r a = Ok (r', a') → attempts_advance r r'.
Proof.
  intros H Hok. inv_bind H. inv_bind H.
  apply raise_if_then in H as [_ H]. apply raise_if_then in H as [_ H].
  apply raise_if_then in H as [_ H]. apply unit_bind_Ok in H as [_ H].
  apply unit_bind_Ok in H as [_ H]. apply bind_Ok_inv in H as (m & [Hnew Hp]%insert_row_Ok & H).
  cbv zeta in H. apply bind_Ok_inv in H as (b & _ & [= <- _]).
  split; [by eapply put_row_ok|]. apply put_row_Ok in Hp as [_ ->]. intros k y Hy.
  exists y. cbn. rewrite lookup_insert_ne by (intros <-; cbn in Hnew; congruence). done.
Qed.

Lemma protocol_attempts c r x : perform_protocol r c = Ok x → attempts_advance r x.1.
Proof.
  intros (task & e & req & H)%performs_request. destruct x as [r' d].
  apply apply_Ok in H as (s & _ & _ & _ & _ & [[_ ->]|(_ & _ & P & _)]); [done|].
  apply same_attempts. pose proof (ps_other _ _ _ _ _ P) as Ho. by injection Ho.
Qed.

(** ** Runs of the registry's calls *)

Inductive replacement_call :=
  | RArm (task_id candidate : string) (lsm : option LsmObservation)
      (workspace : option WorkspaceObservation) (ts max_age : float) (uuid : string)
  | RRecord (a : ReplacementAttempt)
  | RUpdate (attempt_id : string) (s : ReplacementAttemptState.t) (run err : option string)
      (now : float)
  | RComplete (attempt_id run : string) (lsm : option LsmObservation)
      (workspace : option WorkspaceObservation) (lease_seconds ts max_age : float)
  | RProtocol (c : protocol_call).

Definition replacement_prog (c : replacement_call) : prog unit :=
  match c with
  | RArm task w lsm ws ts age uuid =>
      _ ← txn (λ r, arm_replacement r task w lsm ws ts age uuid); mret tt
  | RRecord a => _ ← txn (λ r, record_replacement_attempt r a); mret tt
  | RUpdate id s run err now =>
      _ ← txn (λ r, update_replacement_attempt r id s run err now); mret tt
  | RComplete id run lsm ws ls ts age => _ ← complete_replacement id run lsm ws ls ts age; mret tt
  | RProtocol c => _ ← txn (λ r, perform_protocol r c); mret tt
  end.

Definition replacement_run (r : Registry) (calls : list replacement_call) : Registry :=
  foldl (λ r c, (replacement_prog c r).1) r calls.

Lemma arm_advances r task w lsm ws ts age uuid r' a :
  arm_replacement r task w lsm ws ts age uuid = Ok (r', a) → attempts_advance r r'.
Proof.
  intros H. do 5 inv_bind H. destruct x3 as [[mode reason] mbs]. cbv zeta in H.
  case_match; [by eapply record_advances|done].
Qed.

(** A submission with nothing in between *)
Lemma takeover_alone r id now :
  submit_replacement r id now =
  (a ← get_replacement_attempt r id;
   raise_if (negb (replacement_state ReplacementAttemptState.ARMED a)) RuntimeError
     "replacement is not ARMED";;
   update_replacement_attempt r id ReplacementAttemptState.LSM_TAKEOVER_SUBMITTED None None now).
Proof.
  unfold submit_replacement, takeover_begin, update_replacement_attempt.
  destruct (get_replacement_attempt r id) as [a|e] eqn:E; [|done]. rewrite !Ok_bind.
  destruct (raise_if _ _ _) as [[]|e]; [|done]. rewrite !Ok_bind.
  unfold finish_takeover. cbn [takeover_step]. rewrite E, !Ok_bind.
  destruct (update_required a _) as [[]|e]; [|done|done]. rewrite !Ok_bind. cbn [takeover_step].
  by destruct (write_replacement _ _) as [[? ?]|].
Qed.

(** A protocol call in a program. *)
Lemma accepted_attempts m msg :
  (∃ c, ∀ r, m r = perform_protocol r c) → respects attempts_advance (accepted_or m msg).
Proof.
  intros [c Hc]. apply respects_bind; [apply _| |].
  - apply respects_txn; [apply _|]. intros r r' d. rewrite Hc. apply (protocol_attempts c r (r', d)).
  - intros d. destruct (pd_accepted d); apply (respects_stay attempts_advance (λ _, _)).
Qed.

Lemma publish_attempts a state ls ts :
  respects attempts_advance (publish_candidate a state ls ts).
Proof.
  unfold publish_candidate. cbv zeta.
  destruct (ws_current_worker_id state) as [cur|]; [|by apply accepted_attempts; eexists (PClaim _ _ _ _ _)].
  destruct (_ || _); [apply (respects_stay _ (λ _, blocked _))|].
  apply respects_bind; [apply _|apply respects_stay, _|]. intros el.
  destruct (te_eligible el); [by apply accepted_attempts; eexists (PTakeover _ _ _ _ _)|].
  destruct (bool_decide _); [|apply (respects_stay _ (λ _, blocked _))].
  apply respects_bind; [apply _|by apply accepted_attempts; eexists (PAbandonWorker _ _ _ _ _)|].
  intros ab. by apply accepted_attempts; eexists (PClaim _ _ _ _ _).
Qed.

Lemma complete_attempts id run lsm ws ls ts age :
  respects attempts_advance (complete_replacement id run lsm ws ls ts age).
Proof.
  assert (∀ s err, respects attempts_advance
    (txn (λ r, update_replacement_attempt r id s (Some run) err ts))) as Hu.
  { intros s err. apply respects_txn; [apply _|]. intros. by eapply update_advances. }
  assert (∀ bs, respects attempts_advance (reconcile_replacement id run ts bs)) as Hr.
  { intros bs. apply respects_bind; [apply _|apply Hu|]. intros _.
    apply (respects_stay _ (λ _, blocked _)). }
  unfold complete_replacement.
  apply respects_bind; [apply _|apply respects_stay, _|]. intros a.
  destruct (_ && _); [apply (respects_stay _ (λ _, raise _ _))|].
  apply respects_bind; [apply _|apply respects_stay, _|]. intros bs.
  apply respects_bind; [apply _|apply respects_stay, _|]. intros state. cbv zeta.
  assert (∀ bs, respects attempts_advance (match bs with
    | [] => publish_candidate a state ls ts ≫= λ published,
        if negb (bool_decide (ws_current_worker_id published = Some (ra_candidate_worker_id a)))
        then fails RuntimeError "replacement transition did not publish candidate authority"
        else txn (λ r, update_replacement_attempt r id ReplacementAttemptState.COMPLETED
                         (Some run) None ts)
    | _ :: _ => reconcile_replacement id run ts bs end)) as Hp.
  { intros [|b bs']; [|apply Hr]. apply respects_bind; [apply _|apply publish_attempts|].
    intros p. case_match; [apply (respects_stay _ (λ _, raise _ _))|apply Hu]. }
  destruct (worker_by_id _ _) as [w|]; [|apply Hp].
  destruct (_ && _); [|apply Hp]. destruct (bs ++ _); [apply Hu|apply Hr].
Qed.

Lemma call_advances c : respects attempts_advance (replacement_prog c).
Proof.
  destruct c; cbn; (apply respects_bind; [apply _| |intros _; apply respects_stay, _]);
    try (apply respects_txn; [apply _|]; intros r r' a0 H).
  - by eapply arm_advances.
  - by eapply record_advances.
  - by eapply update_advances.
  - apply complete_attempts.
  - by apply (protocol_attempts c r (r', a0)).
Qed.

Lemma run_advances calls r : attempts_advance r (replacement_run r calls).
Proof.
  revert r. induction calls as [|c calls IH]; intros r; cbn; [done|].
  etrans; [|apply IH]. destruct (replacement_prog c r) as [r' x] eqn:E. by eapply call_advances.
Qed.

(** Whatever calls are made, completions that stop half-way included, a task never has
    two unresolved replacements, what was armed for an attempt never changes, its state
    only moves forward, and a completed or failed attempt stays so. *)
Theorem replacement_attempts_exclusive r calls :
  table_ok (rg_replacements r) →
  (∀ task, (length (open_rows (rg_replacements (replacement_run r calls)) task) ≤ 1)%nat) ∧
  ∀ k a, rg_replacements r !! k = Some a →
    ∃ a', rg_replacements (replacement_run r calls) !! k = Some a' ∧ advances a a'.
Proof.
  intros Hok. destruct (run_advances calls r Hok) as [Hok' H].
  split; [|done]. intros task. by apply table_open_rows.
Qed.

(** ** Interleaved submissions

    The moves: a submission begins, when it finds the attempt ARMED; another call is made; a
    submission takes its next step or dies.  The log holds the attempts that were answered. *)

Inductive takeover_act :=
  | Submit (attempt_id : string)
  | Beside (c : replacement_call).

Definition takeover_start (c : takeover_act) (r : Registry)
    : Registry * list ReplacementAttempt * option takeover :=
  match c with
  | Submit id => (r, [], match takeover_begin r id with Ok t => Some t | Err _ => None end)
  | Beside c => ((replacement_prog c r).1, [], None)
  end.

Definition takeover_advance (now : float) (r : Registry) (t : takeover)
    : Registry * list ReplacementAttempt * option takeover :=
  match takeover_step now r t with
  | (r', inl t') => (r', [], Some t')
  | (r', inr (Ok a)) => (r', [a], None)
  | (r', inr (Err _)) => (r', [], None)
  end.

Definition takeovers : Pool.t Registry takeover ReplacementAttempt →
    list (Pool.move takeover_act) → Pool.t Registry takeover ReplacementAttempt :=
  Pool.play takeover_advance takeover_start.

Definition nobody_takes_over (r : Registry) : Pool.t Registry takeover ReplacementAttempt :=
  Pool.mk r [] [].

Definition is_attempt (id : string) (a : ReplacementAttempt) : nat :=
  if String.eqb (ra_attempt_id a) id then 1 else 0.

(** The submissions of an attempt that succeeded *)
Definition takeover_successes (id : string) (log : list ReplacementAttempt) : nat :=
  Pool.total (is_attempt id) log.

Definition takes_over (id : string) (t : takeover) : nat :=
  match t with
  | TakeoverChecked id' => if String.eqb id' id then 1 else 0
  | TakeoverLoaded a => is_attempt id a
  end.

(** The submissions of an attempt that are past the check for ARMED *)
Definition takeovers_in_the_air (id : string) (running : list (option takeover)) : nat :=
  Pool.total (Pool.load (takes_over id)) running.

Definition left_armed (r : Registry) (id : string) : Prop :=
  ∃ a, rg_replacements r !! id = Some a ∧ ra_state a ≠ ReplacementAttemptState.ARMED.

Lemma advance_left_armed r r' id :
  replacements_ok r → attempts_advance r r' → left_armed r id → left_armed r' id.
Proof.
  intros Hok Hadv (a & Ha & Hs). destruct (proj2 (Hadv Hok) _ _ Ha) as (b & Hb & Hab).
  exists b. split; [done|]. intros E. pose proof (av_rank _ _ Hab) as Hr. rewrite E in Hr.
  destruct (ra_state a); cbn in Hr; (done || lia).
Qed.

Definition submitted_attempt (a : ReplacementAttempt) : Prop :=
  ra_state a = ReplacementAttemptState.LSM_TAKEOVER_SUBMITTED.

(** What a step does: it keeps the table, it takes no attempt back to ARMED, and its answer is
    a submitted attempt that is in the table. *)
Lemma takeover_step_ok now r t r' es t' :
  replacements_ok r → takeover_advance now r t = (r', es, t') →
  replacements_ok r' ∧ (∀ id, left_armed r id → left_armed r' id) ∧
  (∀ a, a ∈ es → submitted_attempt a ∧ left_armed r' (ra_attempt_id a)) ∧
  ∀ id, (Pool.load (takes_over id) t' + takeover_successes id es ≤ takes_over id t)%nat.
Proof.
  intros Hok. unfold takeover_advance, takeover_successes. destruct t as [id|a]; cbn [takeover_step].
  - assert ((r, [], None) = (r', es, t') → replacements_ok r' ∧ (∀ id, left_armed r id → left_armed r' id) ∧
      (∀ a, a ∈ es → submitted_attempt a ∧ left_armed r' (ra_attempt_id a)) ∧
      ∀ id', (Pool.load (takes_over id') t' + Pool.total (is_attempt id') es ≤
        takes_over id' (TakeoverChecked id))%nat) as Hfail.
    { intros [= <- <- <-]. split_and!; [done|done|by intros ? ?%not_elem_of_nil|].
      intros id'. rewrite Pool.total_nil. cbn. lia. }
    destruct (get_replacement_attempt r id) as [a|e] eqn:Ea; [|by apply Hfail].
    rewrite Ok_bind. apply fetch_Ok in Ea.
    assert (ra_attempt_id a = id) as <- by exact (tb_keyed _ Hok _ _ Ea).
    unfold update_required. case_bool_decide as Hs; [|destruct (raise_if _ _ _) as [[]|e]];
      rewrite ?Ok_bind; [| |by apply Hfail]; intros [= <- <- <-]; (split_and!; [done|done|..]).
    + intros x ->%list_elem_of_singleton. split; [by symmetry|]. exists a. split; [done|].
      by rewrite <- Hs.
    + intros id'. unfold Pool.total. cbn. unfold is_attempt. cbn. destruct (String.eqb _ _); lia.
    + by intros ? ?%not_elem_of_nil.
    + intros id'. rewrite Pool.total_nil. cbn. unfold is_attempt. destruct (String.eqb _ _); lia.
  - destruct (write_replacement _ _) as [[r1 b]|e] eqn:Ew; intros [= <- <- <-].
    + apply write_Ok in Ew as (_ & -> & Er & Hp). cbn in Er.
      assert (∀ id, left_armed r id ∨ id = ra_attempt_id a → left_armed r1 id) as Hl.
      { intros id Hid. unfold left_armed. rewrite Er. cbn.
        destruct (decide (ra_attempt_id a = id)) as [->|Hne]; [rewrite lookup_insert_eq; by eexists|].
        rewrite lookup_insert_ne by done. destruct Hid as [Hid|]; [exact Hid|congruence]. }
      split_and!; [by eapply put_row_ok|auto| |].
      * intros x ->%list_elem_of_singleton. split; [done|]. cbn. auto.
      * intros id. unfold Pool.total. cbn. unfold is_attempt. cbn. destruct (String.eqb _ _); lia.
    + split_and!; [done|done|by intros ? ?%not_elem_of_nil|].
      intros id. rewrite Pool.total_nil. cbn. lia.
Qed.

Lemma takeover_start_ok c r r' es t :
  replacements_ok r → takeover_start c r = (r', es, t) →
  replacements_ok r' ∧ (∀ id, left_armed r id → left_armed r' id) ∧ es = [] ∧
  ∀ id, left_armed r id → Pool.load (takes_over id) t = 0%nat.
Proof.
  intros Hok. destruct c as [id|c]; cbn.
  - intros [= <- <- <-]. split_and!; try done. intros id' (a & Ha & Hs).
    unfold takeover_begin. destruct (get_replacement_attempt r id) as [b|e] eqn:Eb; [|done].
    rewrite Ok_bind. destruct (raise_if _ _ _) as [[]|e] eqn:Er; [|done]. rewrite Ok_bind. cbn.
    destruct (String.eqb_spec id id') as [->|]; [|done]. exfalso. apply fetch_Ok in Eb.
    apply raise_if_Ok_inv, negb_false_iff, bool_decide_eq_true in Er. congruence.
  - destruct (replacement_prog c r) as [r1 x] eqn:E. intros [= <- <- <-].
    pose proof (call_advances c r r1 x E) as Hadv. split_and!; try done.
    + by apply Hadv.
    + intros id. by apply advance_left_armed.
Qed.

Lemma replacements_steady : Pool.steady takeover_advance takeover_start replacements_ok.
Proof.
  split.
  - intros now r t r' es t' Hok E. by apply (takeover_step_ok _ _ _ _ _ _ Hok E).
  - intros c r r' es t Hok E. by apply (takeover_start_ok _ _ _ _ _ Hok E).
Qed.

Lemma left_armed_bounded id :
  Pool.bounded takeover_advance takeover_start (λ r, replacements_ok r ∧ left_armed r id)
    (λ _, 0%nat) (takes_over id) (is_attempt id) (λ _, 0%nat).
Proof.
  split; [split|..].
  - intros now r t r' es t' [Hok Hl] E.
    destruct (takeover_step_ok _ _ _ _ _ _ Hok E) as (? & H & _). auto.
  - intros c r r' es t [Hok Hl] E.
    destruct (takeover_start_ok _ _ _ _ _ Hok E) as (? & H & _). auto.
  - intros now r t r' es t' [Hok Hl] E.
    destruct (takeover_step_ok _ _ _ _ _ _ Hok E) as (_ & _ & _ & H). specialize (H id).
    unfold takeover_successes in H. lia.
  - intros c r r' es t [Hok Hl] E.
    destruct (takeover_start_ok _ _ _ _ _ Hok E) as (_ & _ & -> & H). rewrite (H id Hl).
    rewrite Pool.total_nil. lia.
Qed.

(** C18: The LSM takeover of an attempt is submitted once, up to submissions that overlap.  A
    submission reads the attempt, its update reads it again and then writes it; any other
    submissions and calls may come between these steps, and it may die there.  A submission
    that succeeds answers a submitted attempt, and from then on the stored attempt is not ARMED;
    once it is not, it never is again, every submission that begins is refused, and the only
    ones that still succeed are those in the air that had found it ARMED before.  With none in
    the air, a submission that succeeds moved the stored attempt from ARMED to submitted. *)
Theorem takeover_submitted_once r ms1 ms2 id :
  table_ok (rg_replacements r) →
  let p := takeovers (nobody_takes_over r) ms1 in
  let q := takeovers p ms2 in
  (∀ a, a ∈ Pool.log p → ra_attempt_id a = id →
     ra_state a = ReplacementAttemptState.LSM_TAKEOVER_SUBMITTED ∧ left_armed (Pool.store p) id) ∧
  (left_armed (Pool.store p) id →
     left_armed (Pool.store q) id ∧
     (takeover_successes id (Pool.log q) ≤
        takeover_successes id (Pool.log p) + takeovers_in_the_air id (Pool.running p))%nat ∧
     ∀ now, submit_replacement (Pool.store q) id now =
       raise RuntimeError "replacement is not ARMED") ∧
  (∀ now r' a, submit_replacement (Pool.store p) id now = Ok (r', a) →
     ∃ a0, rg_replacements (Pool.store p) !! id = Some a0 ∧
       ra_state a0 = ReplacementAttemptState.ARMED ∧
       a = updated_attempt a0 ReplacementAttemptState.LSM_TAKEOVER_SUBMITTED None None now ∧
       rg_replacements r' = <[id := a]> (rg_replacements (Pool.store p))).
Proof.
  intros Hok p q.
  assert (replacements_ok (Pool.store p)) as Hp
    by exact (Pool.play_steady _ _ _ (nobody_takes_over r) ms1 replacements_steady Hok).
  split_and!.
  - intros a Ha <-.
    apply (Pool.play_log takeover_advance takeover_start replacements_ok
      (λ a r, submitted_attempt a ∧ left_armed r (ra_attempt_id a)) (nobody_takes_over r) ms1);
      [apply replacements_steady| | |done|by intros e ?%not_elem_of_nil|exact Ha].
    + intros now s t s' es t' Hs E.
      destruct (takeover_step_ok _ _ _ _ _ _ Hs E) as (_ & Hl & Hes & _). naive_solver.
    + intros c s s' es t Hs E.
      destruct (takeover_start_ok _ _ _ _ _ Hs E) as (_ & Hl & -> & _).
      split; [by intros e ?%not_elem_of_nil|naive_solver].
  - intros Hl. pose proof (left_armed_bounded id) as HB.
    destruct (Pool.play_steady _ _ _ p ms2 (Pool.bd_keeps _ _ _ _ _ _ _ HB) (conj Hp Hl))
      as [_ Hlq]. change (left_armed (Pool.store q) id) in Hlq. split_and!; [done|..].
    + pose proof (Pool.play_bounded _ _ _ _ _ _ _ p ms2 HB (conj Hp Hl)) as H.
      unfold Pool.spent in H. rewrite Pool.nothing_earned in H.
      change (Pool.play takeover_advance takeover_start p ms2) with q in H.
      unfold takeover_successes, takeovers_in_the_air. lia.
    + intros now. destruct Hlq as (a & Ha & Hs). rewrite takeover_alone.
      unfold get_replacement_attempt, fetch. rewrite Ha, Ok_bind. unfold replacement_state.
      by rewrite bool_decide_eq_false_2.
  - intros now r' a H. rewrite takeover_alone in H.
    apply bind_Ok_inv in H as (a0 & Ha0%fetch_Ok & H).
    apply raise_if_then in H as [Hs%negb_false_iff%bool_decide_eq_true H].
    apply update_Ok in H as (a1 & Ha1 & [(Hs1 & _)|(_ & _ & _ & -> & -> & _)]);
      [congruence| |done].
    exists a1. assert (a1 = a0) as -> by congruence. by split_and!.
Qed.

(** A reconciliation recorded on an attempt that already requires one stores nothing: the
    run id and the blockers of the later failure are dropped. *)
Lemma repeated_reconcile_drops_evidence r id a run blockers now :
  get_replacement_attempt r id = Ok a → ra_state a = ReplacementAttemptState.RECONCILE_REQUIRED →
  update_replacement_attempt r id ReplacementAttemptState.RECONCILE_REQUIRED run blockers now =
    Ok (r, a).
Proof.
  intros Ha Hs. unfold update_replacement_attempt, update_required. rewrite Ha, Ok_bind.
  by rewrite bool_decide_eq_true_2.
Qed.
