(* ===== verification/ReplacementCompletion.v ===== *)
(** * Completing a replacement

    [complete_replacement] runs several transactions.  A completion that returns has
    published the candidate along the lease protocol against clean evidence, a completion
    whose evidence is clean returns, and a completion that is blocked or refused before it
    publishes leaves the protocol as it was. *)

From S2P Require Import Prelude PyFloat Runs PyStr PyJson Models.
From S2P Require Import WorkerProtocol WorkerProtocolFacts WorkerProtocolSteps WorkerProtocolReach.
From S2P Require Import WorkerProtocolSpec Registry Persistence PersistenceFacts PersistenceTheorems.
From S2P Require Import ProbeOps AttemptTables Actions Programs ProtocolCalls.
From S2P Require Import Replacement ReplacementTheorems.

Open Scope string_scope.
Open Scope Z_scope.
Open Scope list_scope.

(** ** What clean evidence means *)

Lemma block_if_nil b msg : block_if b msg = [] ↔ b = false.
Proof. by destruct b. Qed.

Record clean_evidence (a : ReplacementAttempt) (lsm : option LsmObservation)
    (workspace : option WorkspaceObservation) (run : string) : Prop := {
  ce_lsm : ∃ l, lsm = Some l ∧ lo_session_id l = Some (ra_lsm_session_id a) ∧
    lo_in_flight_calls l = 0 ∧ lo_active_jobs l = 0 ∧ lo_active_run_id l = Some run;
  ce_run : strip run ≠ "" ∧ ra_previous_active_run_id a ≠ Some run;
  ce_workspace : ∃ w, workspace = Some w ∧ wo_cwd_exists w = true ∧
    wo_git_head w = ra_workspace_git_head a ∧ wo_git_status_hash w = ra_workspace_status_hash a;
}.

Lemma fsub_nan y : fsub fnan y = fnan.
Proof. done. Qed.

Lemma fresh_now observed now age : _fresh observed now age = true → is_nan now = false.
Proof.
  intros [_ [H _]%fle_not_nan]%andb_true_iff. destruct now; try done.
Qed.

Lemma safe_lsm_nil session lsm now age :
  _safe_lsm (Some session) lsm now age = [] →
  is_nan now = false ∧
  ∃ l, lsm = Some l ∧ lo_session_id l = Some session ∧ lo_in_flight_calls l = 0 ∧
    lo_active_jobs l = 0.
Proof.
  unfold _safe_lsm. destruct (negb _); [done|]. destruct lsm as [l|]; [|done].
  rewrite !app_nil, !block_if_nil. intros (H1 & Hf & H2 & H3 & _). bool_to_prop.
  split; [by eapply fresh_now|eauto 6].
Qed.

Lemma safe_workspace_nil dispatch workspace now age :
  _safe_workspace dispatch workspace now age = [] →
  ∃ w, workspace = Some w ∧ wo_cwd_exists w = true.
Proof.
  unfold _safe_workspace. destruct workspace as [w|]; [|done].
  rewrite !app_nil, !block_if_nil. intros (_ & H & _). bool_to_prop. eauto.
Qed.

Lemma completion_blockers_nil r a lsm workspace run now age :
  _completion_blockers r a lsm workspace run now age = Ok [] →
  clean_evidence a lsm workspace run ∧ is_nan now = false ∧
  unresolved_action_attempt r (ra_task_id a) = Ok None ∧
  unresolved_probe_mutation_operation r = None.
Proof.
  intros H. apply bind_Ok_inv in H as (ua & Hua & H). apply bind_Ok_inv in H as (d & _ & [= H]).
  rewrite !app_nil in H. destruct H as (H1 & (Hnow & l & -> & Hs & Hf & Hj)%safe_lsm_nil &
    (w & -> & Hcwd)%safe_workspace_nil & H2 & H3).
  unfold unresolved_effects in H1. rewrite app_nil in H1. destruct H1 as [Ha Hp].
  cbn in H2, H3. rewrite !app_nil, !block_if_nil in H2, H3.
  destruct H2 as [H2 Hprev], H3 as [Hh [Hst _]%app_nil]. rewrite block_if_nil in Hst.
  destruct (negb (str_truthy (strip run))) eqn:Hrun; [done|]. rewrite block_if_nil in H2.
  bool_to_prop. apply str_truthy_true in Hrun. split; [|split; [done|split; [by destruct ua|by case_match]]].
  constructor; [by eauto 8| |by eauto 6]. split; [done|]. intros E. rewrite E in Hprev.
  rewrite bool_decide_true, andb_true_r in Hprev by done.
  assert (run = "") as ->; [|done]. cbn in Hprev. by destruct run.
Qed.

(** ** Publishing the candidate *)

(** The candidate holds the next generation of what was loaded. *)
Definition published_from (s s' : WorkerTaskState) (id : string) : Prop :=
  rtc transition s s' ∧ ws_current_worker_id s' = Some id ∧
  ws_generation s' = ws_generation s + 1.

Lemma other_replacements r r1 :
  other_tables r1 = other_tables r → rg_replacements r1 = rg_replacements r.
Proof. by intros [=]. Qed.

Lemma publish_sound r a s ls ts r' s' :
  loaded r (ra_task_id a) s → publish_candidate a s ls ts r = (r', Ok s') →
  loaded r' (ra_task_id a) s' ∧ published_from s s' (ra_candidate_worker_id a) ∧
  rg_replacements r' = rg_replacements r.
Proof.
  unfold publish_candidate. cbv zeta. intros L H.
  destruct (ws_current_worker_id s) as [cur|] eqn:Hcur.
  - destruct (_ || _); [done|]. apply query_bind in H as [(el & _ & H)|(? & _ & _ & [=])].
    destruct (te_eligible el).
    + rewrite <- bind_mret in H. eapply (accepted_call _ _ _ (Takeover _ _ _)) in H
        as (r1 & c & t & es & Hs & Ht & L1 & Hr%other_replacements & [= <- <-]); [|done..].
      split; [done|]. split; [|done]. split; [by apply rtc_once|by inversion Hs].
    + destruct (bool_decide _); [|done].
      eapply (accepted_call _ _ _ (AbandonWorker _ _ _)) in H
        as (r1 & c & t & es & Hs & Ht & L1 & Hr%other_replacements & H); [|done..].
      rewrite <- bind_mret in H. eapply (accepted_call _ _ _ (Claim _ _ _)) in H
        as (r2 & c2 & t2 & es2 & Hs2 & Ht2 & L2 & Hr2%other_replacements & [= <- <-]); [|done..].
      destruct (claim_published _ _ _ _ _ _ _ Hs2) as [Hc2 Hg2].
      split; [done|]. split; [|congruence]. split; [by eapply rtc_l, rtc_once|].
      split; [done|]. cbn. rewrite Hg2. by inversion Hs.
  - rewrite <- bind_mret in H. eapply (accepted_call _ _ _ (Claim _ _ _)) in H
      as (r1 & c & t & es & Hs & Ht & L1 & Hr%other_replacements & [= <- <-]); [|done..].
    destruct (claim_published _ _ _ _ _ _ _ Hs) as [Hc Hg].
    split; [done|]. split; [|done]. split; [by apply rtc_once|done].
Qed.

(** ** Soundness *)

Definition awaiting (a : ReplacementAttempt) : bool :=
  replacement_state ReplacementAttemptState.LSM_TAKEOVER_SUBMITTED a ||
  replacement_state ReplacementAttemptState.RECONCILE_REQUIRED a.

Lemma awaiting_state a :
  awaiting a = true →
  ra_state a ≠ ReplacementAttemptState.COMPLETED ∧ replacement_open a = true ∧
  ReplacementAttemptState.COMPLETED ∈ replacement_allowed (ra_state a) ∧
  ReplacementAttemptState.RECONCILE_REQUIRED ∈ replacement_allowed (ra_state a).
Proof.
  unfold awaiting, replacement_state, replacement_open. intros [H|H]%orb_true_iff; bool_to_prop;
    rewrite H; cbn; (split; [done|split; [done|split; set_solver]]).
Qed.

(** What a completion reads first. *)
Record read_by_completion (r : Registry) (id run : string) (lsm : option LsmObservation)
    (workspace : option WorkspaceObservation) (ts age : float)
    (a : ReplacementAttempt) (bs : list string) (s : WorkerTaskState) : Prop := {
  rc_attempt : get_replacement_attempt r id = Ok a;
  rc_awaiting : awaiting a = true;
  rc_blockers : _completion_blockers r a lsm workspace run ts age = Ok bs;
  rc_loaded : loaded r (ra_task_id a) s;
}.

Definition complete_attempt (id run : string) (ts : float) : prog ReplacementAttempt :=
  txn (λ r, update_replacement_attempt r id ReplacementAttemptState.COMPLETED (Some run) None ts).

(** The way a completion takes. *)
Inductive completion_path (r : Registry) (id run : string) (ls ts : float)
    (a : ReplacementAttempt) (bs : list string) (s : WorkerTaskState)
    : Registry * res ReplacementAttempt → Prop :=
  | path_blocked b bs' :
      completion_path r id run ls ts a bs s (reconcile_replacement id run ts (b :: bs') r)
  | path_recovered :
      bs = [] → ws_current_worker_id s = Some (ra_candidate_worker_id a) →
      ra_previous_generation a < ws_generation s →
      completion_path r id run ls ts a bs s (complete_attempt id run ts r)
  | path_published :
      bs = [] → ws_revision s = ra_expected_revision a →
      completion_path r id run ls ts a bs s
        ((publish_candidate a s ls ts ≫= λ published,
            if negb (bool_decide (ws_current_worker_id published =
                                  Some (ra_candidate_worker_id a)))
            then fails RuntimeError "replacement transition did not publish candidate authority"
            else complete_attempt id run ts) r).

(** Case analysis on the blockers of a program that is run. *)
Tactic Notation "case_blockers" "in" hyp(H) "as" ident(E) :=
  match type of H with
  | (match ?l with _ => _ end) _ = _ => destruct l as [|] eqn:E
  end.

Lemma completion_paths id run lsm ws ls ts age r x :
  complete_replacement id run lsm ws ls ts age r = x →
  (x.1 = r ∧ ∃ e, x.2 = Err e) ∨
  ∃ a bs s, read_by_completion r id run lsm ws ts age a bs s ∧
    completion_path r id run ls ts a bs s x.
Proof.
  unfold complete_replacement. intros H.
  apply query_case in H as [(a & Ha & H)|(e & _ & ->)]; [|left; eauto].
  destruct (_ && _) eqn:Haw in H; [subst x; left; eauto|].
  apply query_case in H as [(bs & Hbs & H)|(e & _ & ->)]; [|left; eauto].
  apply query_case in H as [(s & L%load_Ok & H)|(e & _ & ->)]; [|left; eauto].
  right. exists a, bs, s. split.
  { constructor; [exact Ha| |exact Hbs|exact L]. rewrite <- negb_orb in Haw. by apply negb_false_iff. }
  cbv zeta in H. destruct (worker_by_id s _) as [c|] eqn:Hc.
  - destruct (_ && _) eqn:Hrec in H.
    + bool_to_prop. case_blockers in H as E; subst x; [|apply path_blocked].
      rewrite app_nil, block_if_nil in E. destruct E as [-> E]. bool_to_prop.
      by apply path_recovered.
    + case_blockers in H as E; subst x; [|apply path_blocked].
      rewrite app_nil, block_if_nil in E. destruct E as [-> E]. bool_to_prop.
      by apply path_published.
  - case_blockers in H as E; subst x; [|apply path_blocked]. by destruct bs.
Qed.

Lemma reconcile_raises id run ts bs r r' x :
  reconcile_replacement id run ts bs r = (r', Ok x) → False.
Proof. intros [(? & ? & _ & [=])|(? & _ & _ & [=])]%txn_bind. Qed.

(** Marking an awaiting attempt COMPLETED. *)
Lemma complete_attempt_Ok r id run ts r' a a' :
  replacements_ok r → rg_replacements r !! id = Some a → awaiting a = true →
  complete_attempt id run ts r = (r', Ok a') →
  a' = updated_attempt a ReplacementAttemptState.COMPLETED (Some run) None ts ∧
  r' = r <| rg_replacements := <[id := a']> (rg_replacements r) |>.
Proof.
  intros Hok Ha (Hne & _)%awaiting_state. unfold complete_attempt, txn.
  destruct (update_replacement_attempt _ _ _ _ _ _) as [[r1 a1]|] eqn:E; [|done].
  intros [= <- <-]. apply update_Ok in E as (a2 & Ha2 & Hc); [|done].
  replace a2 with a in * by congruence.
  destruct Hc as [(? & _)|(_ & _ & _ & -> & -> & _)]; [congruence|done].
Qed.

Lemma loaded_attempts r m id s : loaded (r <| rg_replacements := m |>) id s ↔ loaded r id s.
Proof. by rewrite <- !load_Ok. Qed.

(** Before it marks the attempt, a completion that returns has published the candidate. *)
Lemma completed_path r id run ls ts a bs s :
  loaded r (ra_task_id a) s → ∀ y r' a', completion_path r id run ls ts a bs s y →
  y = (r', Ok a') →
  ∃ r1 s', bs = [] ∧ loaded r1 (ra_task_id a) s' ∧ rtc transition s s' ∧
    ws_current_worker_id s' = Some (ra_candidate_worker_id a) ∧
    (s' = s ∧ ra_previous_generation a < ws_generation s' ∨
     ws_revision s = ra_expected_revision a ∧ ws_generation s' = ws_generation s + 1) ∧
    rg_replacements r1 = rg_replacements r ∧ complete_attempt id run ts r1 = (r', Ok a').
Proof.
  intros L y r' a' [b bs'|Hb Hcur Hg|Hb Hrev] E.
  - by apply reconcile_raises in E.
  - exists r, s. split_and!; try done. by left.
  - rewrite prog_bind_run in E.
    destruct (publish_candidate _ _ _ _ _) as [r1 [s1|]] eqn:Ep; [|done].
    destruct (publish_sound _ _ _ _ _ _ _ L Ep) as (L1 & (Ht & Hcur & Hg) & Hr1).
    rewrite bool_decide_true in E by done. exists r1, s1. split_and!; try done. by right.
Qed.

(** C19: A completion that returns rests on clean evidence: nothing in flight in the LSM
    session of the attempt, a new active run that was observed, an unchanged workspace and
    no unresolved browser action or probe mutation.  It has marked the attempt COMPLETED, and
    the candidate holds the authority in a snapshot that the lease protocol reaches from the
    stored one: the next generation of the snapshot the attempt was armed against, or, when
    an earlier completion was interrupted, a generation newer than the one armed against. *)
Theorem completion_publishes_candidate r id run lsm ws ls ts age r' a' :
  table_ok (rg_replacements r) →
  complete_replacement id run lsm ws ls ts age r = (r', Ok a') →
  ∃ a s s', get_replacement_attempt r id = Ok a ∧ awaiting a = true ∧
    clean_evidence a lsm ws run ∧
    unresolved_action_attempt r (ra_task_id a) = Ok None ∧
    unresolved_probe_mutation_operation r = None ∧
    get_replacement_attempt r' id = Ok a' ∧
    ra_state a' = ReplacementAttemptState.COMPLETED ∧
    ra_new_active_run_id a' = Some (strip run) ∧
    load_worker_protocol r (ra_task_id a) = Ok s ∧
    load_worker_protocol r' (ra_task_id a) = Ok s' ∧ rtc transition s s' ∧
    ws_current_worker_id s' = Some (ra_candidate_worker_id a) ∧
    (s' = s ∧ ra_previous_generation a < ws_generation s' ∨
     ws_revision s = ra_expected_revision a ∧ ws_generation s' = ws_generation s + 1).
Proof.
  intros Hok H. destruct (completion_paths _ _ _ _ _ _ _ _ _ H)
    as [[_ [? [=]]]|(a & bs & s & [Ha Haw Hbs L] & Hp)].
  destruct (completed_path _ _ _ _ _ _ _ _ L _ _ _ Hp eq_refl)
    as (r1 & s' & -> & L1 & Ht & Hcur & Hgen & Hr1 & Hc).
  apply fetch_Ok in Ha as Ha0. destruct (completion_blockers_nil _ _ _ _ _ _ _ Hbs) as (Hce & _ & Hact & Hprobe).
  eapply complete_attempt_Ok in Hc as [Ea' Er']; [|by unfold replacements_ok; rewrite Hr1
    |by rewrite Hr1|done].
  exists a, s, s'. split_and!; try done.
  - apply fetch_Ok. rewrite Er'. cbn. by rewrite lookup_insert_eq.
  - by rewrite Ea'.
  - rewrite Ea'. cbn. unfold strip_or_none. destruct (ce_run _ _ _ _ Hce) as [Hne _].
    by apply str_truthy_true in Hne as ->.
  - by apply load_Ok.
  - apply load_Ok. rewrite Er'. by apply loaded_attempts.
Qed.

(** ** Failures *)

(** An awaiting attempt can always be marked. *)
Lemma mark_awaiting r id a s run err ts :
  replacements_ok r → rg_replacements r !! id = Some a → awaiting a = true →
  s ∈ replacement_allowed (ra_state a) → s ≠ ra_state a → is_nan ts = false →
  update_replacement_attempt r id s (Some run) err ts =
    Ok (r <| rg_replacements :=
            <[id := updated_attempt a s (Some run) err ts]> (rg_replacements r) |>,
        updated_attempt a s (Some run) err ts).
Proof.
  intros Hok Ha (_ & Hop & _)%awaiting_state Hal Hne Hts.
  assert (row_id (updated_attempt a s (Some run) err ts) = id) as Hid
    by exact (tb_keyed _ Hok _ _ Ha).
  unfold update_replacement_attempt, update_required, write_replacement, get_replacement_attempt.
  unfold fetch. rewrite Ha, Ok_bind, bool_decide_false, bool_decide_true by done.
  cbn [negb raise_if]. rewrite !Ok_bind.
  change (ra_attempt_id (updated_attempt a s (Some run) err ts) = id) in Hid.
  change (ra_updated_at (updated_attempt a s (Some run) err ts)) with ts.
  rewrite Hid, Ha, Ok_bind. unfold real_not_null. rewrite Hts. cbn [raise_if].
  rewrite Ok_bind, (replace_row_Ok _ id a), Ok_bind; [|done|done|exact Hid|done|].
  - cbn [fset rg_replacements]. by rewrite lookup_insert_eq, Ok_bind.
  - intros _. exact Hop.
Qed.

Lemma complete_attempt_total r id a run ts :
  replacements_ok r → rg_replacements r !! id = Some a → awaiting a = true →
  is_nan ts = false → ∃ r' a', complete_attempt id run ts r = (r', Ok a').
Proof.
  intros Hok Ha Haw Hts. unfold complete_attempt, txn.
  destruct (awaiting_state _ Haw) as (Hne & _ & Hal & _).
  rewrite (mark_awaiting _ _ a); eauto.
Qed.

(** The old worker has been fenced and no one holds the authority. *)
Definition fenced_only (s s' : WorkerTaskState) : Prop :=
  transition s s' ∧ is_Some (ws_current_worker_id s) ∧ ws_current_worker_id s' = None ∧
  ws_generation s' = ws_generation s.

Lemma publish_fails r a s ls ts r' e :
  loaded r (ra_task_id a) s → publish_candidate a s ls ts r = (r', Err e) →
  r' = r ∨ ∃ s', loaded r' (ra_task_id a) s' ∧ fenced_only s s' ∧
    rg_replacements r' = rg_replacements r.
Proof.
  unfold publish_candidate. cbv zeta. intros L H.
  destruct (ws_current_worker_id s) as [cur|] eqn:Hcur;
    [|left; by eapply (call_fails _ _ _ (Claim _ _ _))].
  destruct (_ || _); [left; by injection H|].
  apply query_case in H as [(el & _ & H)|(? & _ & H)]; [|left; by injection H].
  destruct (te_eligible el); [left; by eapply (call_fails _ _ _ (Takeover _ _ _))|].
  destruct (bool_decide _); [|left; by injection H].
  rewrite prog_bind_run in H.
  destruct (accepted_or _ "old worker fence rejected" r) as [r1 [s1|]] eqn:E; cycle 1.
  { injection H as <- _. left. by eapply (call_fails _ _ _ (AbandonWorker _ _ _)). }
  rewrite <- bind_mret in E. eapply (accepted_call _ _ _ (AbandonWorker _ _ _)) in E
    as (r2 & c & t & es & Hs & Ht & L1 & Hr%other_replacements & Heq); [|done..].
  injection Heq as Er Es. subst r2 s1.
  right. exists (commit s t).
  assert (r' = r1) as -> by by eapply (call_fails _ _ _ (Claim _ _ _)).
  split; [done|]. split; [|done]. split; [done|]. rewrite Hcur. split; [done|].
  by inversion Hs.
Qed.

(** Recording the blockers of an awaiting attempt, and raising. *)
Lemma reconcile_effect r id a run ts bs r' e :
  replacements_ok r → rg_replacements r !! id = Some a → awaiting a = true →
  reconcile_replacement id run ts bs r = (r', Err e) →
  r' = r ∨
  (ra_state a = ReplacementAttemptState.LSM_TAKEOVER_SUBMITTED ∧
   r' = r <| rg_replacements :=
          <[id := updated_attempt a ReplacementAttemptState.RECONCILE_REQUIRED (Some run)
                    (Some (exn_msg e)) ts]> (rg_replacements r) |>).
Proof.
  intros Hok Ha Haw [(r1 & a1 & Hu & [= <- <-])|(? & _ & -> & _)]%txn_bind; [|by left].
  apply update_Ok in Hu as (a2 & Ha2 & Hc); [|done].
  replace a2 with a in * by congruence.
  destruct Hc as [(_ & -> & _)|(Hne & _ & _ & -> & -> & _)]; [by left|]. right. split; [|done].
  unfold awaiting, replacement_state in Haw. apply orb_true_iff in Haw as [H|H]; bool_to_prop; congruence.
Qed.

(** A completion that raises is safe to retry.  It has left everything as it was, or it has
    recorded the message of the exception on a submitted attempt that now requires
    reconciliation; in both cases the lease protocol is untouched.  Or it was interrupted
    between fencing the old worker and claiming for the candidate: the attempt is unchanged
    and no worker holds the authority. *)
Theorem failed_completion_is_safe r id run lsm ws ls ts age r' e :
  table_ok (rg_replacements r) →
  complete_replacement id run lsm ws ls ts age r = (r', Err e) →
  r' = r ∨
  ∃ a, get_replacement_attempt r id = Ok a ∧
    (ra_state a = ReplacementAttemptState.LSM_TAKEOVER_SUBMITTED ∧
     r' = r <| rg_replacements :=
            <[id := updated_attempt a ReplacementAttemptState.RECONCILE_REQUIRED (Some run)
                      (Some (exn_msg e)) ts]> (rg_replacements r) |> ∨
     get_replacement_attempt r' id = Ok a ∧
     ∃ s s', load_worker_protocol r (ra_task_id a) = Ok s ∧
       load_worker_protocol r' (ra_task_id a) = Ok s' ∧ fenced_only s s').
Proof.
  intros Hok H. apply completion_paths in H as [[Hr _]|(a & bs & s & [Ha Haw Hbs L] & Hp)];
    [by left|]. pose proof Ha as Ha0%fetch_Ok.
  assert (∀ y, completion_path r id run ls ts a bs s y → y = (r', Err e) →
    r' = r ∨ (ra_state a = ReplacementAttemptState.LSM_TAKEOVER_SUBMITTED ∧
     r' = r <| rg_replacements :=
            <[id := updated_attempt a ReplacementAttemptState.RECONCILE_REQUIRED (Some run)
                      (Some (exn_msg e)) ts]> (rg_replacements r) |>) ∨
    ∃ s', loaded r' (ra_task_id a) s' ∧ fenced_only s s' ∧
      rg_replacements r' = rg_replacements r) as Hq.
  { clear Hp. intros y [b bs'| -> _ _| -> _] E.
    - eapply reconcile_effect in E as [?|?]; eauto.
    - destruct (completion_blockers_nil _ _ _ _ _ _ _ Hbs) as (_ & Hts & _).
      destruct (complete_attempt_total r id a run ts) as (? & ? & Hc); try done. congruence.
    - destruct (completion_blockers_nil _ _ _ _ _ _ _ Hbs) as (_ & Hts & _).
      rewrite prog_bind_run in E. destruct (publish_candidate _ _ _ _ _) as [r1 [s1|]] eqn:Ep.
      + destruct (publish_sound _ _ _ _ _ _ _ L Ep) as (_ & (_ & Hcur & _) & Hr1).
        rewrite bool_decide_true in E by done.
        destruct (complete_attempt_total r1 id a run ts) as (r2 & a2 & Hc);
          [by unfold replacements_ok; rewrite Hr1|by rewrite Hr1|done|done|].
        change (complete_attempt id run ts r1 = (r', Err e)) in E. congruence.
      + injection E as -> ->. destruct (publish_fails _ _ _ _ _ _ _ L Ep); auto. }
  destruct (Hq _ Hp eq_refl) as [->|[[Hs Hr]|(s' & L' & Hf & Hr)]];
    [by left|right; exists a|right; exists a].
  - split; [done|]. by left.
  - split; [done|]. right. split; [by apply fetch_Ok; rewrite Hr|].
    exists s, s'. split; [by apply load_Ok|]. split; [by apply load_Ok|done].
Qed.

(** ** Progress *)

Section Progress.
Context (r : Registry) (a : ReplacementAttempt) (s : WorkerTaskState) (w : WorkerLease).
Context (ls ts : float).
Context (D : db_ok r) (L : loaded r (ra_task_id a) s) (Hopen : task_open s = true).
Context (Hw : candidate s w) (Hid : ra_candidate_worker_id a = wl_worker_id w).
Context (Hls : fle ls (of_Z 0) = false).
Context (Hreal : is_nan ts = false) (Hsum : is_nan (fadd ts ls) = false).

Let V : valid_state s := ld_valid _ _ _ L.

Lemma times_real id : real_times (Claim id ts ls) = true.
Proof using Hreal Hsum. cbn. by rewrite Hreal, Hsum. Qed.

(** Fencing the old worker and claiming for the candidate. *)
Lemma fence_then_claim cur :
  ws_current_worker_id s = Some cur →
  ∃ r1 s1, accepted_or (λ r, protocol_abandon_worker r (ra_task_id a) cur (ws_generation s)
                               (ws_revision s) ts) "old worker fence rejected" r = (r1, Ok s1) ∧
    ∃ r2 s2, accepted_or (λ r, protocol_claim_worker r (ra_task_id a)
                                 (wl_worker_id w) (ws_revision s1) ls ts)
               "replacement claim rejected" r1 = (r2, Ok s2).
Proof using D L Hopen Hw Hid Hls Hreal Hsum.
  intros Hcur. destruct (vs_current s V _ Hcur) as (o & Ho & <- & Hst & _).
  assert (worker_by_id s (wl_worker_id o) = Some o) as Hwo
    by (apply worker_by_id_elem; [apply V|done]).
  destruct (abandon_grants s V Hopen o ts Hwo Hcur) as (c & es & Hs & Hh).
  destruct (accepted_total _ _ _ _ _ _ _ "old worker fence rejected" D L Hs) as (r1 & Hr1 & D1 & L1);
    [by cbn; rewrite Hreal|done|done|].
  eexists r1, _. split; [exact Hr1|].
  set (s1 := commit s (without_current s (ended_lease o WorkerLeaseStatus.ABANDONED ts))) in *.
  assert (candidate s1 w) as Hw1.
  { apply candidate_without_current; [done|done|by apply (elem_of_ids o)|].
    intros Heq. cbn in Heq. destruct Hw as [Hww Hwst].
    rewrite <- Heq, Hwo in Hww. congruence. }
  destruct (claim_grants s1 (ld_valid _ _ _ L1) Hopen w ts ls Hw1 eq_refl Hls)
    as (c2 & t2 & es2 & Hs2 & Hh2).
  destruct (accepted_total _ _ _ _ _ _ _ "replacement claim rejected" D1 L1 Hs2)
    as (r2 & Hr2 & _); [by apply (times_real "")|done|done|].
  eexists r2, _. exact Hr2.
Qed.

Lemma publish_total :
  (∀ cur, ws_current_worker_id s = Some cur →
     ra_previous_worker_id a = Some cur ∧ ws_generation s = ra_previous_generation a) →
  ∃ r' s', publish_candidate a s ls ts r = (r', Ok s').
Proof using D L Hopen Hw Hid Hls Hreal Hsum.
  intros Hprev. unfold publish_candidate. rewrite Hid. cbv zeta.
  destruct (ws_current_worker_id s) as [cur|] eqn:Hcur.
  - destruct (Hprev _ eq_refl) as [-> <-].
    rewrite bool_decide_true, Z.eqb_refl by done. cbn [negb orb].
    destruct (eligibility_of_candidate s V Hopen w ts Hw) as (el & Hel & Hcase);
      [by rewrite Hcur|].
    rewrite prog_bind_run. unfold query. rewrite Hel.
    destruct Hcase as [He|[He Hreason]]; rewrite He.
    + destruct (takeover_grants s V Hopen w el ts ls Hw Hel He Hls) as (c & t & es & Hs & Hh).
      destruct (accepted_total _ _ _ _ _ _ _ "replacement takeover rejected" D L Hs)
        as (r1 & Hr1 & _); [by apply (times_real "")|done|done|].
      eexists r1, _. exact Hr1.
    + rewrite bool_decide_true by done.
      destruct (fence_then_claim cur Hcur) as (r1 & s1 & H1 & r2 & s2 & H2).
      rewrite prog_bind_run, H1. eauto.
  - destruct (claim_grants s V Hopen w ts ls Hw Hcur Hls) as (c & t & es & Hs & Hh).
    destruct (accepted_total _ _ _ _ _ _ _ "replacement claim rejected" D L Hs)
      as (r1 & Hr1 & _); [by apply (times_real "")|done|done|].
    eexists r1, _. exact Hr1.
Qed.

End Progress.

(** A replacement whose evidence is clean completes: when the attempt awaits its
    completion, no blocker is found, the task is open with the candidate still a candidate,
    and the protocol is the one the attempt was armed against, then the completion returns
    with the attempt COMPLETED, in each of the modes (claim, takeover, fence then claim). *)
Theorem clean_completion_succeeds r id run lsm ws ls ts age a s w :
  db_ok r → table_ok (rg_replacements r) →
  get_replacement_attempt r id = Ok a → awaiting a = true →
  _completion_blockers r a lsm ws run ts age = Ok [] →
  load_worker_protocol r (ra_task_id a) = Ok s → task_open s = true →
  worker_by_id s (ra_candidate_worker_id a) = Some w →
  wl_status w = WorkerLeaseStatus.CANDIDATE →
  ws_revision s = ra_expected_revision a →
  (∀ cur, ws_current_worker_id s = Some cur →
     ra_previous_worker_id a = Some cur ∧ ws_generation s = ra_previous_generation a) →
  fle ls (of_Z 0) = false → is_nan (fadd ts ls) = false →
  ∃ r' a', complete_replacement id run lsm ws ls ts age r = (r', Ok a') ∧
    ra_state a' = ReplacementAttemptState.COMPLETED.
Proof.
  intros D Hok Ha Haw Hbs HL Hopen Hw Hst Hrev Hprev Hls Hsum. pose proof HL as L%load_Ok.
  pose proof Ha as Ha0%fetch_Ok.
  destruct (completion_blockers_nil _ _ _ _ _ _ _ Hbs) as (_ & Hts & _).
  apply worker_by_id_key in Hw as [Hid Hww].
  destruct (publish_total r a s w ls ts D L Hopen (conj Hww Hst) Hid Hls Hts Hsum Hprev)
    as (r1 & s1 & Hp).
  destruct (publish_sound _ _ _ _ _ _ _ L Hp) as (_ & (_ & Hcur & _) & Hr1).
  destruct (complete_attempt_total r1 id a run ts) as (r2 & a2 & Hc);
    [by unfold replacements_ok; rewrite Hr1|by rewrite Hr1|done|done|].
  exists r2, a2. split.
  - unfold complete_replacement. rewrite prog_bind_run. unfold query at 1. rewrite Ha.
    unfold awaiting in Haw. rewrite <- negb_orb, Haw. cbn [negb].
    rewrite prog_bind_run. unfold query at 1. rewrite Hbs.
    rewrite prog_bind_run. unfold query at 1. rewrite HL. cbv zeta.
    rewrite Hid, Hww. unfold is_status. rewrite Hst.
    rewrite (bool_decide_false (_ = WorkerLeaseStatus.ACTIVE)), andb_false_r by done.
    rewrite <- Hrev, Z.eqb_refl. cbn [negb block_if app]. rewrite prog_bind_run, Hp.
    rewrite <- Hid, bool_decide_true by done. exact Hc.
  - eapply complete_attempt_Ok in Hc as [-> _]; [done|by unfold replacements_ok; rewrite Hr1
      |by rewrite Hr1|done].
Qed.

(** ** Witnesses: bob replaces alice, whose lease is still fresh *)

Lemma db_ok_attempts r m : db_ok r → db_ok (r <| rg_replacements := m |>).
Proof. intros []. by constructor. Qed.

Lemma db_ok_run r calls id s : db_ok r → loaded r id s → db_ok (protocol_run r calls).
Proof.
  revert r s. induction calls as [|c calls IH]; intros r s D L; [done|].
  destruct (protocol_or_stay_loaded _ c _ _ D L) as (D' & s1 & L1 & _). by eapply IH.
Qed.

Definition supervised_db : Registry :=
  fresh_db <| rg_tasks := {["t1" := (stored_task "t1") <| tr_lsm_session_id := Some "session" |>;
                            "t2" := stored_task "t2"]} |>
           <| rg_dispatches := {["d1" := mkChildDispatchRecord "d1" "t2" "t1" "k" "p" "h" None None
                                           None (of_Z 1) (of_Z 1) []]} |>.

Lemma supervised_db_ok : db_ok supervised_db.
Proof.
  destruct fresh_db_ok as [Hl Hr He _]. constructor; [exact Hl|exact Hr|exact He|]. cbn.
  intros k t [[<- <-]|[_ [<- <-]%lookup_singleton_Some]]%lookup_insert_Some; reflexivity.
Qed.

Definition alice_works : Registry := protocol_run supervised_db
  [PRegister "t1" "https://chat/c/1" 0 (Some "alice") "u" (of_Z 2);
   PClaim "t1" "alice" 1 (of_Z 60) (of_Z 3);
   PRegister "t1" "https://chat/c/2" 2 (Some "bob") "u" (of_Z 5)].

Lemma alice_works_ok : db_ok alice_works.
Proof.
  apply (db_ok_run _ _ "t1" (snapshot (load_worker_protocol supervised_db "t1")) supervised_db_ok).
  apply load_Ok. vm_compute. reflexivity.
Qed.

Definition observed_lsm (run : string) (t : float) : LsmObservation :=
  mkLsmObservation "t1" t (Some "session") None (Some run) None None None None 0 None 0 0 0
    None None None None [].

Definition observed_workspace (t : float) : WorkspaceObservation :=
  mkWorkspaceObservation "t1" t "/w" true (Some true) None (Some "head") None None (Some "clean")
    [] None [].

(** The attempt that [arm_replacement] builds, once submitted. *)
Definition bob_submitted : ReplacementAttempt :=
  match arm_replacement alice_works "t1" "bob" (Some (observed_lsm "run1" (of_Z 9)))
          (Some (observed_workspace (of_Z 9))) (of_Z 10) (of_Z 60) "0123456789abcdef" with
  | Ok (_, a) =>
      updated_attempt a ReplacementAttemptState.LSM_TAKEOVER_SUBMITTED None None (of_Z 11)
  | Err _ => mkReplacementAttempt "" "" "" ReplacementAttemptState.FAILED 0 None 0 "" None None
               None None "" "" (of_Z 0) (of_Z 0) None None []
  end.

Example bob_is_armed :
  ra_mode bob_submitted = "LSM_FENCE_THEN_CLAIM" ∧ ra_expected_revision bob_submitted = 3.
Proof. vm_compute. by split. Qed.

Definition takeover_pending : Registry :=
  alice_works <| rg_replacements := {["replace_0123456789abcdef" := bob_submitted]} |>.

Lemma single_table_ok id (a : ReplacementAttempt) : row_id a = id → table_ok {[id := a]}.
Proof.
  intros Hid. constructor.
  - intros k x Hk. apply lookup_singleton_Some in Hk as [<- <-]. done.
  - intros k1 k2 a1 a2 H1 H2 _ _ _. apply lookup_singleton_Some in H1 as [<- _], H2 as [<- _]. done.
Qed.

Lemma takeover_pending_table : table_ok (rg_replacements takeover_pending).
Proof. apply single_table_ok. vm_compute. reflexivity. Qed.

Lemma pending_is_bob id a : get_replacement_attempt takeover_pending id = Ok a → a = bob_submitted.
Proof.
  intros Ha%fetch_Ok. unfold takeover_pending in Ha. cbn [fset rg_replacements] in Ha.
  by apply lookup_singleton_Some in Ha as [_ <-].
Qed.

Definition complete_bob (run : string) : prog ReplacementAttempt :=
  complete_replacement "replace_0123456789abcdef" run (Some (observed_lsm "run2" (of_Z 20)))
    (Some (observed_workspace (of_Z 20))) (of_Z 60) (of_Z 21) (of_Z 60).

Definition bob_completed : ReplacementAttempt :=
  updated_attempt bob_submitted ReplacementAttemptState.COMPLETED (Some "run2") None (of_Z 21).

Lemma completion_publishes_candidate_witness :
  ∃ s', load_worker_protocol (complete_bob "run2" takeover_pending).1 "t1" = Ok s' ∧
    ws_current_worker_id s' = Some "bob" ∧ clean_evidence bob_submitted
      (Some (observed_lsm "run2" (of_Z 20))) (Some (observed_workspace (of_Z 20))) "run2".
Proof.
  destruct (completion_publishes_candidate takeover_pending "replace_0123456789abcdef" "run2"
    (Some (observed_lsm "run2" (of_Z 20))) (Some (observed_workspace (of_Z 20))) (of_Z 60) (of_Z 21)
    (of_Z 60) (complete_bob "run2" takeover_pending).1 bob_completed)
    as (a & s & s' & Ha & _ & Hce & _ & _ & _ & _ & _ & _ & Hl & _ & Hcur & _).
  - exact takeover_pending_table.
  - vm_compute. reflexivity.
  - apply pending_is_bob in Ha as ->.
    exists s'. split; [exact Hl|]. split; [exact Hcur|exact Hce].
Defined.

Lemma failed_completion_is_safe_witness :
  (complete_bob "run3" takeover_pending).1 = takeover_pending ∨
  ∃ a, get_replacement_attempt takeover_pending "replace_0123456789abcdef" = Ok a.
Proof.
  destruct (failed_completion_is_safe takeover_pending "replace_0123456789abcdef" "run3"
    (Some (observed_lsm "run2" (of_Z 20))) (Some (observed_workspace (of_Z 20))) (of_Z 60) (of_Z 21)
    (of_Z 60) (complete_bob "run3" takeover_pending).1
    (Exn ReplacementBlocked "observed LSM active run does not match the reported takeover result"))
    as [H|(a & Ha & _)].
  - exact takeover_pending_table.
  - vm_compute. reflexivity.
  - left. exact H.
  - right. exists a. exact Ha.
Defined.

Lemma clean_completion_succeeds_witness :
  ∃ r' a', complete_bob "run2" takeover_pending = (r', Ok a') ∧
    ra_state a' = ReplacementAttemptState.COMPLETED.
Proof.
  apply (clean_completion_succeeds takeover_pending "replace_0123456789abcdef" "run2"
    (Some (observed_lsm "run2" (of_Z 20))) (Some (observed_workspace (of_Z 20))) (of_Z 60) (of_Z 21)
    (of_Z 60) bob_submitted (snapshot (load_worker_protocol alice_works "t1"))
    (mkWorkerLease "bob" "t1" (Some "https://chat/c/2") WorkerLeaseStatus.CANDIDATE (of_Z 5)
       None None None None None None)).
  - exact (db_ok_attempts _ _ alice_works_ok).
  - exact takeover_pending_table.
  - vm_compute. reflexivity.
  - vm_compute. reflexivity.
  - vm_compute. reflexivity.
  - vm_compute. reflexivity.
  - vm_compute. reflexivity.
  - vm_compute. reflexivity.
  - reflexivity.
  - vm_compute. reflexivity.
  - intros cur Hcur. vm_compute in Hcur. injection Hcur as <-. split; vm_compute; reflexivity.
  - vm_compute. reflexivity.
  - vm_compute. reflexivity.
Defined.

Definition bob_id : string := "replace_0123456789abcdef".

Definition takeover_armed : Registry :=
  alice_works <| rg_replacements :=
    {[bob_id := bob_submitted <| ra_state := ReplacementAttemptState.ARMED |>]} |>.

Lemma takeover_armed_table : table_ok (rg_replacements takeover_armed).
Proof. apply single_table_ok. vm_compute. reflexivity. Qed.

(** Two submissions find the attempt ARMED, and both succeed: the second one finds it submitted
    and has nothing to write.  Later ones are refused. *)
Definition racing_submissions : list (Pool.move takeover_act) :=
  [Pool.Act (Submit bob_id); Pool.Act (Submit bob_id);
   Pool.Step 0 (of_Z 11); Pool.Step 0 (of_Z 11)].

Definition late_submission : list (Pool.move takeover_act) :=
  [Pool.Step 1 (of_Z 12); Pool.Act (Submit bob_id); Pool.Step 2 (of_Z 13);
   Pool.Act (Beside (RUpdate bob_id ReplacementAttemptState.ARMED None None (of_Z 22)))].

Definition first_answered := takeovers (nobody_takes_over takeover_armed) racing_submissions.
Definition both_answered := takeovers first_answered late_submission.

Example racing_submissions_both_succeed :
  takeover_successes bob_id (Pool.log first_answered) = 1%nat ∧
  takeovers_in_the_air bob_id (Pool.running first_answered) = 1%nat ∧
  takeover_successes bob_id (Pool.log both_answered) = 2%nat ∧
  ra_state <$> rg_replacements (Pool.store first_answered) !! bob_id =
    Some ReplacementAttemptState.LSM_TAKEOVER_SUBMITTED.
Proof. vm_compute. by split_and!. Qed.

(** A submission that has read the row twice writes it over what happened since: an attempt that
    was completed in between is submitted again. *)
Definition stale_submission : list (Pool.move takeover_act) :=
  [Pool.Act (Submit bob_id); Pool.Step 0 (of_Z 11);
   Pool.Act (Beside (RUpdate bob_id ReplacementAttemptState.LSM_TAKEOVER_SUBMITTED None None (of_Z 12)));
   Pool.Act (Beside (RUpdate bob_id ReplacementAttemptState.COMPLETED (Some "run2") None (of_Z 13)));
   Pool.Step 0 (of_Z 14)].

Example stale_submission_takes_back_a_completion :
  ra_state <$> rg_replacements (Pool.store
    (takeovers (nobody_takes_over takeover_armed) stale_submission)) !! bob_id =
  Some ReplacementAttemptState.LSM_TAKEOVER_SUBMITTED.
Proof. vm_compute. reflexivity. Qed.

Lemma takeover_submitted_once_witness :
  (takeover_successes bob_id (Pool.log both_answered) ≤ 2)%nat ∧
  submit_replacement (Pool.store both_answered) bob_id (of_Z 30) =
    raise RuntimeError "replacement is not ARMED".
Proof.
  destruct (takeover_submitted_once takeover_armed racing_submissions late_submission bob_id
    takeover_armed_table) as (_ & H & _).
  destruct (rg_replacements (Pool.store first_answered) !! bob_id) as [a|] eqn:E.
  - destruct H as (_ & Hle & Href).
    + exists a. split; [exact E|]. pose proof racing_submissions_both_succeed as (_ & _ & _ & Hs).
      rewrite E in Hs. injection Hs as Hs. rewrite Hs. discriminate.
    + split; [exact Hle|apply Href].
  - exfalso. pose proof racing_submissions_both_succeed as (_ & _ & _ & Hs).
    rewrite E in Hs. discriminate Hs.
Defined.
