(* ===== verification/ChildCompletion.v ===== *)
(** * Completing a child and adopting its worker

    A completion that returns has ended the current worker and completed the durable task
    along the lease protocol; asking again is answered with the same snapshot, and asking
    with another reference is refused.  It can be asked again after a crash between its
    transactions.  An adoption gives the conversation of the child the sole authority. *)

From S2P Require Import Prelude PyFloat PyStr PyJson Models.
From S2P Require Import WorkerProtocol WorkerProtocolFacts WorkerProtocolSteps WorkerProtocolReach.
From S2P Require Import WorkerProtocolSpec Registry Persistence PersistenceFacts PersistenceTheorems.
From S2P Require Import AttemptTables Actions Programs ProtocolCalls Spawns.
From S2P Require Import Replacement ReplacementCompletion ChildDispatch.

Open Scope string_scope.
Open Scope Z_scope.
Open Scope list_scope.

(** ** The legacy state of a completed task *)

Lemma loaded_task r id s :
  db_ok r → loaded r id s → ∃ task, rg_tasks r !! id = Some task ∧ task_matches s task.
Proof.
  intros D L. destruct (cs_task _ _ (ld_consistent _ _ _ L)) as (task & Ht & M).
  rewrite (loaded_id _ _ _ D L) in Ht. eauto.
Qed.

(** Writing a task row that keeps the worker, the state and a real time keeps every
    snapshot. *)
Definition retask (r : Registry) (id : string) (t : TaskRecord) : Registry :=
  r <| rg_tasks := <[id := t]> (rg_tasks r) |>.

Section Retask.
Context (r : Registry) (id : string) (t t' : TaskRecord) (Ht : rg_tasks r !! id = Some t).
Context (Hcur : tr_current_worker_id t' = tr_current_worker_id t).
Context (Hst : tr_state t' = tr_state t).

Lemma retask_exists k : is_Some (rg_tasks r !! k) → is_Some (rg_tasks (retask r id t') !! k).
Proof using Ht.
  cbn. destruct (decide (k = id)) as [->|]; [by rewrite lookup_insert_eq|by rewrite lookup_insert_ne].
Qed.

Lemma retask_loaded k s : loaded r k s → loaded (retask r id t') k s.
Proof using Ht Hcur Hst.
  intros [Hrow Hv [Hroot Hpar] [(task & Htask & [M1 M2 M3]) Hids Hlease]]. constructor.
  - exact Hrow.
  - exact Hv.
  - constructor; [by apply retask_exists|]. intros p Hp. destruct (Hpar p Hp) as [He Hr].
    split; [by apply retask_exists|exact Hr].
  - constructor; [|exact Hids|exact Hlease]. cbn.
    destruct (decide (ws_task_id s = id)) as [<-|]; [|rewrite lookup_insert_ne by done; by exists task].
    rewrite lookup_insert_eq. exists t'. split; [done|]. assert (task = t) as -> by congruence.
    constructor; rewrite ?Hcur, ?Hst; auto.
Qed.

Lemma retask_db_ok : is_nan (tr_updated_at t') = false → db_ok r → db_ok (retask r id t').
Proof using Type.
  intros Hn [Hl Hr He Hu]. constructor; [exact Hl|exact Hr|exact He|]. cbn.
  intros k u [[<- <-]|[_ Hk]]%lookup_insert_Some; [done|by eapply Hu].
Qed.
End Retask.

(** ** What a completion reads *)

(** No side effect of the child is unresolved. *)
Record child_free (r : Registry) (child : string) : Prop := {
  cf_dispatch : is_Ok (get_child_dispatch r child);
  cf_action : unresolved_action_attempt r child = Ok None;
  cf_replacement : unresolved_replacement_attempt r child = None;
  cf_spawn : unresolved_child_spawn_attempt r child = Ok (r, None);
}.

Lemma query_run {A B} (q : Registry → res A) (f : A → prog B) r a :
  q r = Ok a → (query q ≫= f) r = f a r.
Proof. intros H. rewrite prog_bind_run. unfold query. by rewrite H. Qed.

Lemma completion_runs child ref ts now r s :
  child_free r child → strip ref ≠ "" → loaded r child s →
  complete_child_dispatch child ref ts now r = finish_child child (strip ref) s ts now r.
Proof.
  intros [[d Hd] Ha Hr Hs] Href L%load_Ok. unfold complete_child_dispatch.
  rewrite (query_run _ _ _ _ Hd). cbv zeta. apply str_truthy_true in Href. rewrite Href. cbn [negb].
  rewrite (query_run _ _ _ _ Ha), prog_bind_run. cbn [require_resolved].
  rewrite prog_bind_run. cbn [query]. rewrite Hr, prog_bind_run. cbn [require_resolved].
  rewrite prog_bind_run. unfold txn at 1. rewrite Hs, prog_bind_run. cbn [require_resolved].
  by rewrite (query_run _ _ _ _ L).
Qed.

Lemma resolved_bind {A B} (o : option A) msg (f : unit → prog B) r r' x :
  (require_resolved o msg ≫= f) r = (r', Ok x) → o = None ∧ f tt r = (r', Ok x).
Proof. rewrite prog_bind_run. unfold require_resolved. by destruct o. Qed.

Lemma completion_inv child ref ts now r r' x :
  spawns_ok r → complete_child_dispatch child ref ts now r = (r', Ok x) →
  child_free r child ∧ strip ref ≠ "" ∧
  ∃ s, loaded r child s ∧ finish_child child (strip ref) s ts now r = (r', Ok x).
Proof.
  intros Hok H. unfold complete_child_dispatch in H.
  apply query_bind in H as [(d & Hd & H)|(? & _ & _ & [=])]. cbv zeta in H.
  destruct (str_truthy (strip ref)) eqn:Href; [|done]. cbn [negb] in H.
  apply query_bind in H as [(act & Ha & H)|(? & _ & _ & [=])].
  apply resolved_bind in H as [-> H].
  apply query_bind in H as [(rep & [= Hr] & H)|(? & _ & _ & [=])].
  apply resolved_bind in H as [-> H].
  apply txn_bind in H as [(r1 & o & Hs & H)|(? & _ & _ & [=])].
  apply resolved_bind in H as [-> H].
  assert (r1 = r) as -> by (rewrite (scan_reads _ _ Hok) in Hs; congruence).
  apply query_bind in H as [(s & L%load_Ok & H)|(? & _ & _ & [=])].
  split; [by constructor; [exists d|..]|]. split; [by apply str_truthy_true|]. by exists s.
Qed.

(** ** Ending the current worker *)

(** The stable part of a protocol run on one task. *)
Record protocol_ran (r : Registry) (child : string) (s : WorkerTaskState) (r1 : Registry)
    (s1 : WorkerTaskState) : Prop := {
  pr_db : db_ok r1;
  pr_loaded : loaded r1 child s1;
  pr_trans : rtc transition s s1;
  pr_other : other_tables r1 = other_tables r;
}.

Lemma ran_refl r child s : db_ok r → loaded r child s → protocol_ran r child s r s.
Proof. by constructor. Qed.

(** The transition that a committed call makes. *)
Lemma committed_transition r child s req e r1 d s1 :
  loaded r child s → pd_state d = s1 →
  apply_worker_protocol_transition r child e (λ s, handle s req e) = Ok (r1, d) →
  transition s s1.
Proof.
  intros L <- (s0 & L0 & Hf & _)%apply_Ok. rewrite <- load_Ok in L, L0.
  assert (s0 = s) as -> by congruence. by exists req, e, d.
Qed.

Lemma ran_call {B} r child s req e msg (f : WorkerTaskState → prog B) r' x :
  db_ok r → loaded r child s → (∀ id ref now, req ≠ Register id ref now) →
  (accepted_or (λ r, apply_worker_protocol_transition r child e (λ s, handle s req e)) msg ≫= f) r
    = (r', Ok x) →
  ∃ r1 c t es, step s req c t es ∧ protocol_ran r child s r1 (commit s t) ∧
    f (commit s t) r1 = (r', Ok x).
Proof.
  intros D L Hreq [(r1 & d & Hm & Hacc & H)|(? & [=])]%accepted_bind.
  destruct (protocol_step _ _ _ _ _ _ _ L Hm Hacc Hreq) as (c & t & es & Hs & _ & Hd & L1 & Ho).
  rewrite Hd in H. exists r1, c, t, es. split; [done|]. split; [|done].
  constructor; [by eapply apply_db_ok|done|by eapply rtc_once, committed_transition|done].
Qed.

Lemma end_worker_Ok r child s ts r1 s1 :
  db_ok r → loaded r child s → end_current_worker child s ts r = (r1, Ok s1) →
  protocol_ran r child s r1 s1 ∧ ws_current_worker_id s1 = None.
Proof.
  intros D L H. unfold end_current_worker in H.
  destruct (ws_current_worker_id s) as [cur|] eqn:Hcur.
  2: { injection H as <- <-. split; [by apply ran_refl|done]. }
  apply txn_bind in H as [(r2 & d & Hm & H)|(? & _ & _ & [=])].
  destruct (pd_accepted d) eqn:Hacc.
  - injection H as <- <-. pose proof Hm as Hp.
    eapply (protocol_step _ _ _ (CompleteWorker _ _ _)) in Hp; [|done..].
    destruct Hp as (c & t & es & Hs & _ & Hd & L1 & Ho). rewrite Hd. split.
    + constructor; [by eapply apply_db_ok|done| |done].
      by eapply rtc_once, (committed_transition _ _ _ (CompleteWorker _ _ _)).
    + by inversion Hs.
  - assert (r2 = r) as ->.
    { by eapply (refused_call _ _ _ (CompleteWorker _ _ _)) in Hm. }
    destruct (bool_decide _); [|done]. rewrite <- bind_mret in H.
    eapply (ran_call _ _ _ (AbandonWorker _ _ _)) in H as (r3 & c & t & es & Hs & Hr & [= <- <-]);
      [|done..].
    split; [done|]. by inversion Hs.
Qed.

Lemma ran_trans r child s r1 s1 r2 s2 :
  protocol_ran r child s r1 s1 → protocol_ran r1 child s1 r2 s2 → protocol_ran r child s r2 s2.
Proof. intros [_ _ H1 O1] [D2 L2 H2 O2]. constructor; [done..|by etrans|congruence]. Qed.

(** ** Updating the legacy state *)

Lemma update_completed r child s now r' :
  db_ok r → loaded r child s → ws_task_status s = DurableTaskStatus.COMPLETED →
  update_state r child SupervisorState.COMPLETED now = Ok (r', tt) →
  db_ok r' ∧ loaded r' child s ∧ other_tables r' = other_tables r.
Proof.
  intros D L Hc H. destruct (loaded_task r child s D L) as (task & Ht & [_ Hst _]).
  apply unit_bind_Ok in H as [_ H]. rewrite Ht in H.
  apply unit_bind_Ok in H as [Hn [= <-]].
  set (task' := task <| tr_state := SupervisorState.COMPLETED |> <| tr_updated_at := now |>).
  split_and!; [| |done].
  - apply (retask_db_ok r child task'); [|done]. by apply raise_if_Ok in Hn.
  - eapply (retask_loaded r child task task'); [done..|by cbn; rewrite Hst|done].
Qed.

Lemma update_completed_total r child s now :
  db_ok r → loaded r child s → ws_task_status s = DurableTaskStatus.COMPLETED →
  is_nan now = false → ∃ r', update_state r child SupervisorState.COMPLETED now = Ok (r', tt).
Proof.
  intros D L Hc Hn. destruct (loaded_task r child s D L) as (task & Ht & _).
  destruct (ld_row _ _ _ L) as (row & Hrow & _). pose proof L as HL%load_Ok.
  eexists. unfold update_state, protocol_state_exists. rewrite Hrow.
  rewrite bool_decide_eq_true_2 by eauto. unfold load_worker_protocol. rewrite HL, Ok_bind, Hc.
  rewrite !bool_decide_eq_true_2 by done. cbn. rewrite Ht. unfold real_not_null. by rewrite Hn.
Qed.

(** ** Finishing *)

Definition completed_with (s : WorkerTaskState) (ref : string) : Prop :=
  ws_task_status s = DurableTaskStatus.COMPLETED ∧ ws_completion_ref s = Some ref.

(** A completed child is answered from what is stored. *)
Lemma finish_completed child ref s ts now r :
  db_ok r → loaded r child s → ws_task_status s = DurableTaskStatus.COMPLETED →
  finish_child child ref s ts now r =
    if bool_decide (ws_completion_ref s = Some ref) then (r, Ok s)
    else (r, raise RuntimeError "child is already completed with a different completion_ref").
Proof.
  intros D L Hc. destruct (loaded_task r child s D L) as (task & Ht & [_ Hst _]).
  unfold finish_child. rewrite bool_decide_eq_true_2 by done.
  destruct (bool_decide (ws_completion_ref s = Some ref)); [|done]. cbn [negb].
  rewrite (query_run _ _ _ task) by by apply fetch_Ok.
  by rewrite bool_decide_eq_true_2 by auto.
Qed.

Lemma finish_Ok child ref s ts now r r' s' :
  db_ok r → loaded r child s → strip ref = ref → finish_child child ref s ts now r = (r', Ok s') →
  protocol_ran r child s r' s' ∧ completed_with s' ref.
Proof.
  intros D L Href H. destruct (decide (ws_task_status s = DurableTaskStatus.COMPLETED)) as [Hc|Hc].
  - rewrite (finish_completed _ _ _ _ _ _ D L Hc) in H. destruct (bool_decide _) eqn:E; [|done].
    injection H as <- <-. apply bool_decide_eq_true in E. split; [by apply ran_refl|done].
  - unfold finish_child in H. rewrite bool_decide_eq_false_2 in H by done.
    rewrite prog_bind_run in H. destruct (end_current_worker _ _ _ _) as [r1 [s1|]] eqn:E1; [|done].
    destruct (end_worker_Ok _ _ _ _ _ _ D L E1) as [R1 _].
    eapply (ran_call _ _ _ (CompleteTask _ _)) in H as (r2 & c & t & es & Hs & R2 & H);
      [|apply R1|apply R1|done].
    assert (completed_with (commit s1 t) ref) as Hd.
    { inversion Hs; subst. split; [done|]. cbn. by rewrite Href. }
    apply txn_bind in H as [(r3 & [] & Hu & [= <- <-])|(? & _ & _ & [=])].
    destruct (update_completed _ _ _ _ _ (pr_db _ _ _ _ _ R2) (pr_loaded _ _ _ _ _ R2) (proj1 Hd) Hu)
      as (D3 & L3 & O3).
    split; [|done]. pose proof (ran_trans _ _ _ _ _ _ _ R1 R2) as [_ _ Htr Ho].
    constructor; [done..|]. by rewrite O3.
Qed.

Lemma other_free r r' child s :
  other_tables r' = other_tables r → loaded r' child s → db_ok r' → child_free r child →
  child_free r' child.
Proof.
  intros Ho L D [Hd Ha Hr Hs]. injection Ho as Eact Edis Erep Espn _ _ _ _ _.
  destruct (loaded_task r' child s D L) as (task & Ht & _). constructor.
  - unfold get_child_dispatch in *. by rewrite Edis.
  - apply bind_Ok_inv in Ha as (task0 & _ & Ha). unfold unresolved_action_attempt.
    assert (get_task r' child = Ok task) as -> by by apply fetch_Ok. by rewrite Ok_bind, Eact.
  - unfold unresolved_replacement_attempt in *. by rewrite Erep.
  - unfold unresolved_child_spawn_attempt, spawn_rows in *. rewrite Espn.
    apply bind_Ok_inv in Hs as ([m o] & Hs & [= Hm ->]). rewrite Hs, Ok_bind. f_equal. f_equal.
    rewrite <- Hm in Espn. cbn in Espn. rewrite <- Espn. apply spawns_self.
Qed.

(** C21: A completion that returns is durable and final: the snapshot it returns was reached
    from the stored one by transitions of the lease protocol, is completed with the
    reference, and is what the database now holds; asking again with the same reference
    returns the same snapshot and writes nothing, and asking with any other reference is
    refused and writes nothing. *)
Theorem child_completion_is_durable r child ref ts now r' s' :
  db_ok r → spawns_ok r → complete_child_dispatch child ref ts now r = (r', Ok s') →
  ∃ s, load_worker_protocol r child = Ok s ∧ rtc transition s s' ∧
    load_worker_protocol r' child = Ok s' ∧ completed_with s' (strip ref) ∧
    (∃ task, rg_tasks r' !! child = Some task ∧ tr_state task = SupervisorState.COMPLETED) ∧
    (∀ ts2 now2, complete_child_dispatch child ref ts2 now2 r' = (r', Ok s')) ∧
    (∀ ref2 ts2 now2, strip ref2 ≠ strip ref →
       ∃ e, complete_child_dispatch child ref2 ts2 now2 r' = (r', Err e)).
Proof.
  intros D Hok H. destruct (completion_inv _ _ _ _ _ _ _ Hok H) as (Hfree & Href & s & L & Hf).
  destruct (finish_Ok _ _ _ _ _ _ _ _ D L (strip_idemp _) Hf) as [[D' L' Htr Ho] [Hc Hr]].
  pose proof (other_free r r' child s' Ho L' D' Hfree) as Hfree'.
  assert (∀ ref2 ts2 now2, strip ref2 ≠ "" →
    complete_child_dispatch child ref2 ts2 now2 r' =
    if bool_decide (ws_completion_ref s' = Some (strip ref2)) then (r', Ok s')
    else (r', raise RuntimeError "child is already completed with a different completion_ref"))
    as Hagain.
  { intros ref2 ts2 now2 Hne. rewrite (completion_runs _ _ _ _ _ s') by done.
    by apply finish_completed. }
  exists s. split; [by apply load_Ok|]. split; [done|]. split; [by apply load_Ok|].
  split; [done|]. split; [|split].
  - destruct (loaded_task r' child s' D' L') as (task & Ht & [_ Hst _]). eauto.
  - intros ts2 now2. rewrite Hagain by done. by rewrite bool_decide_eq_true_2.
  - intros ref2 ts2 now2 Hne. destruct (decide (strip ref2 = "")) as [E|E].
    + destruct (cf_dispatch _ _ Hfree') as [d Hd]. eexists. unfold complete_child_dispatch.
      rewrite (query_run _ _ _ _ Hd). cbv zeta. by rewrite E.
    + rewrite Hagain by done. rewrite bool_decide_eq_false_2 by congruence. eauto.
Qed.

(** ** Progress *)

Lemma ran_total r child s req c t es msg :
  db_ok r → loaded r child s → step s req c t es → real_times req = true →
  (∀ id ref now, req ≠ Register id ref now) →
  handle s req (ws_revision s) =
    Ok (mkProtocolDecision true c (ws_revision s) (commit s t) (stamp s es)) →
  ∃ r1, apply_worker_protocol_transition r child (ws_revision s)
      (λ s', handle s' req (ws_revision s)) =
      Ok (r1, mkProtocolDecision true c (ws_revision s) (commit s t) (stamp s es)) ∧
    accepted_or (λ r, apply_worker_protocol_transition r child (ws_revision s)
                        (λ s', handle s' req (ws_revision s))) msg r = (r1, Ok (commit s t)) ∧
    protocol_ran r child s r1 (commit s t).
Proof.
  intros D L Hs Hreal Hreq Hh.
  destruct (protocol_total _ _ _ _ _ _ _ D L Hs Hreal) as (r1 & Hr1 & D1 & L1 & O1); [|done|].
  { destruct req; try done. by destruct (Hreq worker_id conversation_ref now). }
  exists r1. split; [done|]. split.
  - unfold accepted_or. rewrite prog_bind_run. unfold txn. by rewrite Hr1.
  - constructor; [done..| |done]. eapply rtc_once, committed_transition; [done| |exact Hr1]; done.
Qed.

(** A decision that changes nothing is answered without a write. *)
Lemma refused_by_protocol r child s f d :
  db_ok r → loaded r child s → f s = Ok d → pd_state d = s → pd_expected_revision d = ws_revision s →
  apply_worker_protocol_transition r child (ws_revision s) f = Ok (r, d).
Proof.
  intros D L Hf Hd He. pose proof L as HL%load_Ok. unfold apply_worker_protocol_transition.
  rewrite HL, Ok_bind, Hf, Ok_bind, He, Z.eqb_refl. cbn [negb]. rewrite refuse_pass, Hd.
  rewrite (loaded_id _ _ _ D L), String.eqb_refl. cbn [negb]. rewrite refuse_pass.
  unfold pd_mutated. rewrite He, Hd. assert (ws_revision s =? ws_revision s + 1 = false) as -> by lia.
  by rewrite andb_false_r.
Qed.

Section EndWorker.
Context (r : Registry) (child : string) (s : WorkerTaskState) (ts : float).
Context (D : db_ok r) (L : loaded r child s) (Hopen : task_open s = true).
Context (Hts : is_nan ts = false).

Let V : valid_state s := ld_valid _ _ _ L.

(** The clock has not gone back behind the last activity of the current worker. *)
Definition clock_ok : Prop := ∀ w t,
  ws_current_worker_id s = Some (wl_worker_id w) → worker_by_id s (wl_worker_id w) = Some w →
  lease_timeline w = Some t → flt ts t = false.

Lemma owner_rejection w :
  clock_ok → ws_current_worker_id s = Some (wl_worker_id w) →
  worker_by_id s (wl_worker_id w) = Some w →
  _authority_rejection s (wl_worker_id w) (ws_generation s) ts = None ∨
  _authority_rejection s (wl_worker_id w) (ws_generation s) ts = Some DecisionCode.LEASE_EXPIRED.
Proof using V Hopen.
  intros Hclock Hcur Hw. destruct (owner_owned _ V _ Hw Hcur Hopen) as (_ & _ & _ & Hst & _ & Hg).
  unfold _authority_rejection, is_status.
  rewrite Hopen, Hw, Hcur, Hst, Hg, Z.eqb_refl, !bool_decide_eq_true_2 by done. cbn.
  destruct (lease_timeline w) as [t|] eqn:Et; [rewrite (Hclock w t Hcur Hw Et)|];
    destruct (negb _); auto.
Qed.

Lemma complete_worker_grants w :
  ws_current_worker_id s = Some (wl_worker_id w) → worker_by_id s (wl_worker_id w) = Some w →
  _authority_rejection s (wl_worker_id w) (ws_generation s) ts = None →
  ∃ c t es, step s (CompleteWorker (wl_worker_id w) (ws_generation s) ts) c t es ∧
    ws_current_worker_id t = None ∧ ws_task_status t = ws_task_status s ∧
    handle s (CompleteWorker (wl_worker_id w) (ws_generation s) ts) (ws_revision s) =
      Ok (mkProtocolDecision true c (ws_revision s) (commit s t) (stamp s es)).
Proof using V.
  intros Hcur Hw Hauth. destruct (authority_granted _ _ _ _ Hauth) as (w' & Hid & Ha).
  assert (w' = w) as -> by (destruct Ha as [(_ & Hw' & _) _]; rewrite <- Hid in Hw'; congruence).
  eexists _, _, _. split; [by apply step_complete_worker|]. split; [done|]. split; [done|].
  cbn [handle]. unfold complete_worker. rewrite preflight_valid, Z.eqb_refl, Hauth by done.
  rewrite (authorised_require _ _ _ _ Ha), Ok_bind. eapply accept_step; [done|].
  by apply step_complete_worker.
Qed.

Lemma end_worker_total :
  clock_ok →
  ∃ r1 s1, end_current_worker child s ts r = (r1, Ok s1) ∧ protocol_ran r child s r1 s1 ∧
    ws_current_worker_id s1 = None ∧ task_open s1 = true.
Proof using D L Hopen Hts V.
  intros Hclock. unfold end_current_worker.
  destruct (ws_current_worker_id s) as [cur|] eqn:Hcur.
  2: { exists r, s. split; [done|]. split; [by apply ran_refl|done]. }
  destruct (vs_current s V _ Hcur) as (w & Hin & <- & _).
  assert (worker_by_id s (wl_worker_id w) = Some w) as Hw.
  { by apply (worker_by_id_elem s _ w (vs_nodup s V)). }
  assert (real_times (CompleteWorker (wl_worker_id w) (ws_generation s) ts) = true) as HrC
    by (cbn; by rewrite Hts).
  assert (real_times (AbandonWorker (wl_worker_id w) (ws_generation s) ts) = true) as HrA
    by (cbn; by rewrite Hts).
  destruct (owner_rejection w Hclock Hcur Hw) as [Hauth|Hexp].
  - destruct (complete_worker_grants w Hcur Hw Hauth) as (c & t & es & Hs & Ht & Hst & Hh).
    edestruct (ran_total r child s _ c t es "" D L Hs HrC) as (r1 & Hr1 & _ & R1); [done..|].
    exists r1, (commit s t). rewrite prog_bind_run. unfold txn, protocol_complete_worker.
    cbn [handle] in Hr1. rewrite Hr1. split; [done|]. split; [done|]. split; [done|].
    unfold task_open in *. cbn. by rewrite Hst.
  - destruct (abandon_grants s V Hopen w ts Hw Hcur) as (c & es & Hs & Hh).
    edestruct (ran_total r child s _ c _ es "expired current child worker abandonment rejected"
      D L Hs HrA) as (r1 & _ & Hr1 & R1); [done..|].
    eexists r1, _. split; [|split; [exact R1|done]].
    rewrite prog_bind_run. unfold txn at 1, protocol_complete_worker.
    rewrite (refused_by_protocol r child s _ (_reject s DecisionCode.LEASE_EXPIRED)); [exact Hr1|..].
    + done.
    + done.
    + unfold complete_worker. by rewrite preflight_valid, Z.eqb_refl, Hexp.
    + done.
    + done.
Qed.
End EndWorker.

Lemma complete_task_grants s ref ts :
  valid_state s → task_open s = true → ws_current_worker_id s = None → strip ref ≠ "" →
  ∃ c t es, step s (CompleteTask ref ts) c t es ∧
    handle s (CompleteTask ref ts) (ws_revision s) =
      Ok (mkProtocolDecision true c (ws_revision s) (commit s t) (stamp s es)) ∧
    ws_task_status t = DurableTaskStatus.COMPLETED.
Proof.
  intros V Hopen Hcur Href. eexists _, _, _. split; [by apply step_complete_task|]. split; [|done].
  cbn [handle]. unfold complete_task. rewrite preflight_valid, Z.eqb_refl, Hopen, Hcur by done.
  rewrite bool_decide_eq_true_2 by done. cbn [negb]. cbv zeta.
  rewrite (proj2 (str_truthy_true _) Href). cbn [negb].
  eapply accept_step; [done|by apply step_complete_task].
Qed.

(** Completion always finishes: with no unresolved side effect of the child, real times and
    a clock that is not behind the current worker's last activity, a completion returns,
    whether the current worker's lease is fresh, expired, or already ended by an earlier
    completion that was interrupted. *)
Theorem child_completion_succeeds r child ref ts now s :
  db_ok r → child_free r child → strip ref ≠ "" → load_worker_protocol r child = Ok s →
  (ws_task_status s = DurableTaskStatus.COMPLETED → ws_completion_ref s = Some (strip ref)) →
  is_nan ts = false → is_nan now = false → clock_ok s ts →
  ∃ r' s', complete_child_dispatch child ref ts now r = (r', Ok s').
Proof.
  intros D Hfree Href L%load_Ok Hdone Hts Hnow Hclock.
  rewrite (completion_runs _ _ _ _ _ s) by done.
  destruct (task_open s) eqn:Hopen.
  2: { assert (ws_task_status s = DurableTaskStatus.COMPLETED) as Hc.
       { unfold task_open in Hopen. by destruct (ws_task_status s). }
       rewrite (finish_completed _ _ _ _ _ _ D L Hc), bool_decide_eq_true_2 by auto. eauto. }
  destruct (end_worker_total r child s ts D L Hopen Hts Hclock) as (r1 & s1 & E1 & [D1 L1 _ _] & Hc1 & Ho1).
  unfold finish_child. rewrite bool_decide_eq_false_2.
  2: { intros Hc. unfold task_open in Hopen. by rewrite Hc in Hopen. }
  rewrite prog_bind_run, E1, prog_bind_run.
  destruct (complete_task_grants s1 (strip ref) ts (ld_valid _ _ _ L1) Ho1 Hc1) as (c & t & es & Hs & Hh & Hst);
    [by rewrite strip_idemp|].
  edestruct (ran_total r1 child s1 _ c t es "child task completion rejected" D1 L1 Hs)
    as (r2 & _ & Hr2 & [D2 L2 _ _]); [cbn; by rewrite Hts|done..|].
  unfold protocol_complete_task. cbn [handle] in Hr2. rewrite Hr2, prog_bind_run.
  destruct (update_completed_total r2 child (commit s1 t) now D2 L2) as [r3 Hr3]; [done..|].
  unfold txn. rewrite Hr3. eauto.
Qed.

(** ** Adoption *)

Lemma workers_at_elem s url w :
  w ∈ workers_at s url ↔ w ∈ ws_workers s ∧ wl_conversation_ref w = Some url.
Proof.
  unfold workers_at. rewrite list_elem_of_In, List.filter_In, <- list_elem_of_In, bool_decide_eq_true.
  done.
Qed.

(** A worker of a conversation that holds the lease. *)
Definition sole_authority (s : WorkerTaskState) (url : string) : Prop :=
  ∃ w, w ∈ ws_workers s ∧ wl_conversation_ref w = Some url ∧
    wl_status w = WorkerLeaseStatus.ACTIVE ∧ ws_current_worker_id s = Some (wl_worker_id w) ∧
    ∀ v, v ∈ ws_workers s → wl_status v = WorkerLeaseStatus.ACTIVE → v = w.

Lemma owner_sole s w url :
  valid_state s → w ∈ ws_workers s → wl_conversation_ref w = Some url →
  ws_current_worker_id s = Some (wl_worker_id w) → sole_authority s url.
Proof.
  intros V Hw Hurl Hcur. destruct (vs_current s V _ Hcur) as (u & Hu & Hid & Hst & _).
  assert (u = w) as -> by (eapply NoDup_ids_inj; eauto; apply V).
  exists w. split_and!; try done. intros v Hv Hact.
  pose proof (vs_active s V v Hv Hact) as Hvc. eapply NoDup_ids_inj; eauto; [apply V|congruence].
Qed.

Lemma claim_sole s w id now ls c t es url :
  valid_state s → rtc transition s (commit s t) → step s (Claim id now ls) c t es → w ∈ ws_workers s →
  wl_worker_id w = id → wl_conversation_ref w = Some url → sole_authority (commit s t) url.
Proof.
  intros V Htr Hs Hin Hid Hurl. pose proof (transitions_valid _ _ V Htr) as V'.
  inversion Hs as [|w' now' ls' _ [Hw' _] _ Hid'| | | | | |]; subst.
  apply worker_by_id_Some in Hw' as [Hin' _].
  assert (w' = w) as -> by (eapply NoDup_ids_inj; eauto; apply V).
  eapply (owner_sole _ (claimed_lease w (ws_generation s + 1) now ls)); [done| |done|done].
  cbn. apply elem_of_replace_registered; [exact (elem_of_ids w _ Hin)|by left].
Qed.

(** A registration call that is accepted commits the registration, or finds the worker. *)
Lemma ran_register {B} r child s url e w uuid now msg (f : WorkerTaskState → prog B) r' x :
  db_ok r → loaded r child s → strip url ≠ "" →
  (accepted_or (λ r, protocol_register_worker r child url e w uuid now) msg ≫= f) r = (r', x) →
  (∃ err, r' = r ∧ x = Err err) ∨
  ∃ r1 s1, protocol_ran r child s r1 s1 ∧ f s1 r1 = (r', x) ∧
    ws_current_worker_id s1 = ws_current_worker_id s ∧ ws_generation s1 = ws_generation s.
Proof.
  intros D L Hurl H. apply str_truthy_true in Hurl.
  set (id := if opt_truthy w then default "" w else "worker_" +:+ str_take 12 uuid).
  assert (∀ r, protocol_register_worker r child url e w uuid now =
    apply_worker_protocol_transition r child e
      (λ s, handle s (Register id (Some (strip url)) now) e)) as Hreg.
  { intros r2. unfold protocol_register_worker. cbv zeta. by rewrite Hurl. }
  rewrite prog_bind_run in H.
  destruct (accepted_or _ _ _) as [r1 [s1|err]] eqn:E.
  - right. exists r1, s1. rewrite <- bind_mret in E.
    apply accepted_bind in E as [(r2 & d & Hm & Hacc & [= <- <-])|(? & [=])].
    rewrite Hreg in Hm. pose proof Hm as (s0 & L0 & Hf & _ & _ & Hcase)%apply_Ok.
    assert (s0 = s) as -> by (rewrite <- load_Ok in L, L0; congruence).
    assert (transition s (pd_state d)) as Htr by (by eexists _, _, _).
    destruct (handle_cases _ (ld_valid _ _ _ L) _ _ _ Hf)
      as [(c & -> & _)|[(-> & -> & _)|(-> & c & t & es & Hs & ->)]]; [done| |].
    + destruct Hcase as [[_ ->]|(Hmut & _)].
      * split_and!; [by apply ran_refl|done..].
      * unfold pd_mutated in Hmut. cbn in Hmut. lia.
    + destruct Hcase as [[Hmut _]|(_ & _ & P & L1 & _)].
      * unfold pd_mutated in Hmut. cbn in Hmut. lia.
      * split_and!; [|done|by inversion Hs..].
        constructor; [by eapply apply_db_ok|done|by apply rtc_once|by eapply ps_other].
  - left. exists err. injection H as <- <-. split; [|done].
    eapply (call_fails _ _ _ (Register id (Some (strip url)) now)); [exact L|].
    unfold accepted_or in *. rewrite prog_bind_run in *. unfold txn in *. by rewrite <- Hreg.
Qed.

(** The outcome of an adoption, seen from the snapshot [s] that it starts with. *)
Definition adopted (r : Registry) (child url : string) (s : WorkerTaskState) (r' : Registry)
    (x : res WorkerTaskState) : Prop :=
  ∃ s', protocol_ran r child s r' s' ∧
    match x with
    | Ok returned => returned = s' ∧ sole_authority s' url ∧
        ws_current_worker_id s = None ∧ ws_generation s' = ws_generation s + 1
    | Err _ => ws_current_worker_id s' = ws_current_worker_id s ∧
        ws_generation s' = ws_generation s
    end.

Lemma adopted_fails r child url s e : db_ok r → loaded r child s → adopted r child url s r (Err e).
Proof. intros D L. exists s. split; [by apply ran_refl|done]. Qed.

Lemma claim_adopts r child url s w e ls ts msg r' x :
  db_ok r → loaded r child s → w ∈ workers_at s url → ws_current_worker_id s = None →
  accepted_or (λ r, protocol_claim_worker r child (wl_worker_id w) e ls ts) msg r = (r', x) →
  adopted r child url s r' x.
Proof.
  intros D L [Hin Hurl]%workers_at_elem Hcur H. destruct x as [s'|err].
  - rewrite <- bind_mret in H.
    eapply (ran_call _ _ _ (Claim _ _ _)) in H as (r1 & c & t & es & Hs & R & [= <- <-]); [|done..].
    exists (commit s t). split; [done|]. split; [done|].
    destruct (claim_published _ _ _ _ _ _ _ Hs) as [_ Hg].
    split; [|done]. eapply (claim_sole s w); [apply L|apply R|done..].
  - assert (r' = r) as -> by by eapply (call_fails _ _ _ (Claim _ _ _)) in H.
    by apply adopted_fails.
Qed.

(** Adopting a conversation gives it the sole authority and never takes it from another
    worker: whatever the outcome, the stored snapshot moved only along the lease protocol
    and no other table changed; when the call returns, the one active worker is of that
    conversation, under the next generation, unless the conversation already had the
    authority, and then nothing is written; when it raises, no worker has gained or lost
    authority. *)
Theorem adoption_gives_sole_authority r child url ls w uuid ts r' x s :
  db_ok r → load_worker_protocol r child = Ok s →
  adopt_child_worker child url ls w uuid ts r = (r', x) →
  adopted r child (strip url) s r' x ∨
  r' = r ∧ x = Ok s ∧ sole_authority s (strip url).
Proof.
  intros D L%load_Ok H. unfold adopt_child_worker in H.
  pose proof (adopted_fails r child (strip url) s) as Hfail.
  apply query_bind in H as [(d & _ & H)|(e & _ & -> & ->)]; [|by left; eauto]. cbv zeta in H.
  destruct (str_truthy (strip url)) eqn:Hurl; cbn [negb] in H;
    [|injection H as <- <-; by left; eauto].
  destruct (fle ls (of_Z 0)); [injection H as <- <-; by left; eauto|].
  apply query_bind in H as [(s0 & L0%load_Ok & H)|(e & _ & -> & ->)]; [|by left; eauto].
  assert (s0 = s) as -> by (rewrite <- load_Ok in L, L0; congruence). clear L0.
  destruct (workers_at s (strip url)) as [|v [|]] eqn:Hat.
  - destruct (ws_current_worker_id s) as [cur|] eqn:Hcur; [injection H as <- <-; by left; eauto|].
    apply (ran_register _ _ _ _ _ _ _ _ _ _ _ _ D L) in H
      as [(e & -> & ->)|(r1 & s1 & R & H & Hc1 & Hg1)]; [by left; eauto| |].
    2: { apply str_truthy_true. by rewrite strip_idemp. }
    left. destruct (workers_at s1 (strip url)) as [|v l] eqn:Hat1.
    + injection H as <- <-. exists s1. split; [done|]. by rewrite Hc1.
    + eapply (claim_adopts _ _ _ _ v) in H as (s' & R' & Hx);
        [|apply R|apply R|rewrite Hat1; by left|congruence].
      exists s'. split; [by eapply ran_trans|]. rewrite Hcur in Hc1. rewrite Hc1, Hg1 in Hx.
      destruct x as [s2|]; [|by rewrite Hcur]. destruct Hx as (? & ? & _ & ?). by split_and!.
  - assert (v ∈ workers_at s (strip url)) as Hv by (rewrite Hat; by left).
    destruct (ws_current_worker_id s) as [cur|] eqn:Hcur.
    + destruct (String.eqb_spec (wl_worker_id v) cur) as [<-|]; injection H as <- <-;
        [right|left; by eauto]. split_and!; [done..|].
      apply workers_at_elem in Hv as [Hv Hu]. by eapply (owner_sole s v); [apply L|..].
    + left. destruct (is_status _ v); cbn [negb] in H; [|injection H as <- <-; by eauto].
      by eapply claim_adopts.
  - left. destruct (ws_current_worker_id s); injection H as <- <-; by eauto.
Qed.

(** ** Witnesses: the child t1 of t2, on which alice works *)

Lemma alice_spawns_ok : spawns_ok alice_works.
Proof. apply empty_spawns_ok. vm_compute. reflexivity. Qed.

Definition alice_finishes : prog WorkerTaskState :=
  complete_child_dispatch "t1" " commit-1 " (of_Z 40) (of_Z 41).

Lemma child_completion_is_durable_witness :
  ∃ s', alice_finishes alice_works = ((alice_finishes alice_works).1, Ok s') ∧
    completed_with s' "commit-1" ∧
    alice_finishes (alice_finishes alice_works).1 = ((alice_finishes alice_works).1, Ok s').
Proof.
  set (s' := snapshot (alice_finishes alice_works).2).
  assert (alice_finishes alice_works = ((alice_finishes alice_works).1, Ok s')) as E
    by (vm_compute; reflexivity).
  exists s'. split; [exact E|].
  destruct (child_completion_is_durable alice_works "t1" " commit-1 " (of_Z 40) (of_Z 41)
    (alice_finishes alice_works).1 s' alice_works_ok alice_spawns_ok E)
    as (_ & _ & _ & _ & Hc & _ & Hagain & _).
  split; [exact Hc|apply Hagain].
Defined.

Lemma alice_free : child_free alice_works "t1".
Proof.
  constructor.
  - eexists. vm_compute. reflexivity.
  - vm_compute. reflexivity.
  - vm_compute. reflexivity.
  - vm_compute. reflexivity.
Qed.

(** Alice's lease ended at 63; the completion at 100 abandons her. *)
Lemma child_completion_succeeds_witness :
  ∃ r' s', complete_child_dispatch "t1" "commit-1" (of_Z 100) (of_Z 101) alice_works = (r', Ok s').
Proof.
  apply (child_completion_succeeds alice_works "t1" "commit-1" (of_Z 100) (of_Z 101)
    (snapshot (load_worker_protocol alice_works "t1"))).
  - exact alice_works_ok.
  - exact alice_free.
  - by vm_compute.
  - vm_compute. reflexivity.
  - vm_compute. discriminate.
  - reflexivity.
  - reflexivity.
  - intros w t Hcur Hw Ht. 
    assert (wl_worker_id w = "alice") as E by (vm_compute in Hcur; by destruct w; injection Hcur as ->).
    rewrite E in Hw. vm_compute in Hw. injection Hw as <-. vm_compute in Ht. injection Ht as <-.
    vm_compute. reflexivity.
Defined.

Definition adopt_first : prog WorkerTaskState :=
  adopt_child_worker "t1" " https://chat/c/7 " (of_Z 60) None "0123456789abcdef" (of_Z 5).

Lemma adoption_gives_sole_authority_witness :
  adopted supervised_db "t1" "https://chat/c/7" (snapshot (load_worker_protocol supervised_db "t1"))
    (adopt_first supervised_db).1 (adopt_first supervised_db).2.
Proof.
  destruct (adoption_gives_sole_authority supervised_db "t1" " https://chat/c/7 " (of_Z 60) None
    "0123456789abcdef" (of_Z 5) (adopt_first supervised_db).1 (adopt_first supervised_db).2
    (snapshot (load_worker_protocol supervised_db "t1"))) as [H|(_ & H & _)].
  - exact supervised_db_ok.
  - vm_compute. reflexivity.
  - vm_compute. reflexivity.
  - exact H.
  - vm_compute in H. discriminate.
Defined.
