(* ===== verification/ChildDispatchTheorems.v ===== *)
(** * The contract between a parent and its children

    A dispatch, the lineage of its child and the child's session are written once: no later
    call changes them.  Creating a dispatch gives a child whose protocol snapshot is fresh,
    and asking again for the same named child returns the same dispatch and writes nothing,
    whatever has happened since. *)

From S2P Require Import Prelude PyFloat PyStr PyJson Models.
From S2P Require Import WorkerProtocol WorkerProtocolFacts WorkerProtocolSteps WorkerProtocolReach.
From S2P Require Import WorkerProtocolSpec Registry Persistence PersistenceFacts PersistenceTheorems.
From S2P Require Import AttemptTables Actions Reconcile Programs ProtocolCalls Spawns Replacement ChildDispatch.
From S2P Require Import ChildCalls.

Open Scope string_scope.
Open Scope Z_scope.
Open Scope list_scope.

(** ** The invariant *)

(** The child of a dispatch is a task, and its lineage names the parent and the parent's
    root. *)
Definition dispatch_lineage (r : Registry) (d : ChildDispatchRecord) : Prop :=
  ∃ row parent_row, rg_protocol_tasks r !! cd_child_task_id d = Some row ∧
    rg_protocol_tasks r !! cd_parent_task_id d = Some parent_row ∧
    pt_lineage row = mkTaskLineage (cd_child_task_id d) (Some (cd_parent_task_id d))
      (tl_root_task_id (pt_lineage parent_row)) (Some (cd_child_key d)).

Record dispatches_ok (r : Registry) : Prop := {
  do_keyed : ∀ k d, rg_dispatches r !! k = Some d → cd_dispatch_id d = k;
  do_child : ∀ k1 k2 d1 d2, rg_dispatches r !! k1 = Some d1 → rg_dispatches r !! k2 = Some d2 →
    cd_child_task_id d1 = cd_child_task_id d2 → k1 = k2;
  do_key : ∀ k1 k2 d1 d2, rg_dispatches r !! k1 = Some d1 → rg_dispatches r !! k2 = Some d2 →
    cd_parent_task_id d1 = cd_parent_task_id d2 → cd_child_key d1 = cd_child_key d2 → k1 = k2;
  do_task : ∀ k d, rg_dispatches r !! k = Some d → is_Some (rg_tasks r !! cd_child_task_id d);
  do_distinct : ∀ k d, rg_dispatches r !! k = Some d → cd_child_task_id d ≠ cd_parent_task_id d;
  do_lineage : ∀ k d, rg_dispatches r !! k = Some d → dispatch_lineage r d;
}.

Lemma empty_dispatches_ok r : rg_dispatches r = ∅ → dispatches_ok r.
Proof. intros E. by constructor; rewrite E. Qed.

Lemma get_dispatch_Ok r child d :
  dispatches_ok r →
  get_child_dispatch r child = Ok d ↔
  cd_child_task_id d = child ∧ rg_dispatches r !! cd_dispatch_id d = Some d.
Proof.
  intros D. set (p := λ d, String.eqb (cd_child_task_id d) child).
  assert (length (select p (rg_dispatches r)) ≤ 1)%nat as Hlen.
  { apply select_unique. intros k1 k2 d1 d2 H1 H2 <-%String.eqb_eq E%String.eqb_eq.
    by eapply (do_child r D). }
  assert (d ∈ select p (rg_dispatches r) ↔
    cd_child_task_id d = child ∧ rg_dispatches r !! cd_dispatch_id d = Some d) as <-.
  { rewrite elem_of_select. unfold p. rewrite String.eqb_eq. split.
    - intros (? & k & Hk). split; [done|]. by rewrite (do_keyed r D _ _ Hk).
    - intros []. eauto. }
  unfold get_child_dispatch. fold p. destruct (select p (rg_dispatches r)) as [|x [|]]; cbn in Hlen.
  - split; [done|by intros ?%not_elem_of_nil].
  - rewrite list_elem_of_singleton. naive_solver.
  - lia.
Qed.

Lemma dispatch_for_key_Some r parent key d :
  dispatches_ok r →
  dispatch_for_key r parent key = Some d ↔
  cd_parent_task_id d = parent ∧ cd_child_key d = key ∧
  rg_dispatches r !! cd_dispatch_id d = Some d.
Proof.
  intros D. unfold dispatch_for_key.
  set (p := λ d, String.eqb (cd_parent_task_id d) parent && String.eqb (cd_child_key d) key).
  assert (length (select p (rg_dispatches r)) ≤ 1)%nat as Hlen.
  { apply select_unique. intros k1 k2 d1 d2 H1 H2 Hp1 Hp2. unfold p in *. bool_to_prop.
    rewrite String.eqb_eq in *. eapply (do_key r D); eauto; intuition congruence. }
  assert (d ∈ select p (rg_dispatches r) ↔ cd_parent_task_id d = parent ∧ cd_child_key d = key ∧
    rg_dispatches r !! cd_dispatch_id d = Some d) as <-.
  { rewrite elem_of_select. unfold p. rewrite andb_true_iff, !String.eqb_eq. split.
    - intros ([? ?] & k & Hk). split_and!; [done..|]. by rewrite (do_keyed r D _ _ Hk).
    - intros (? & ? & ?). eauto. }
  destruct (select p (rg_dispatches r)) as [|x [|]]; cbn in *.
  - split; [done|by intros ?%not_elem_of_nil].
  - rewrite list_elem_of_singleton. naive_solver.
  - lia.
Qed.

(** ** What later calls keep *)

(** The part of a task that its dispatch fixes, and its session once bound. *)
Definition task_kept (t t' : TaskRecord) : Prop :=
  tr_project t' = tr_project t ∧ tr_objective t' = tr_objective t ∧ tr_cwd t' = tr_cwd t ∧
  (is_Some (tr_lsm_session_id t) → tr_lsm_session_id t' = tr_lsm_session_id t).

#[export] Instance task_kept_preorder : PreOrder task_kept.
Proof.
  split; [done|]. intros t1 t2 t3 (? & ? & ? & S1) (? & ? & ? & S2).
  split_and!; try congruence. intros Hs. rewrite S2; rewrite S1; done.
Qed.

Record contracts_kept (r r' : Registry) : Prop := {
  ck_dispatch : rg_dispatches r ⊆ rg_dispatches r';
  ck_lineage : ∀ k row, rg_protocol_tasks r !! k = Some row →
    ∃ row', rg_protocol_tasks r' !! k = Some row' ∧ pt_lineage row' = pt_lineage row;
  ck_task : ∀ k t, rg_tasks r !! k = Some t → ∃ t', rg_tasks r' !! k = Some t' ∧ task_kept t t';
}.

#[export] Instance contracts_kept_preorder : PreOrder contracts_kept.
Proof.
  split.
  - intros r. constructor; [done|by eexists..].
  - intros r1 r2 r3 [D1 L1 T1] [D2 L2 T2]. constructor; [by etrans| |].
    + intros k row (row2 & Hr2 & E2)%L1. apply L2 in Hr2 as (row3 & Hr3 & E3).
      exists row3. split; [done|congruence].
    + intros k t (t2 & Ht2 & K2)%T1. apply T2 in Ht2 as (t3 & Ht3 & K3).
      exists t3. split; [done|]. by trans t2.
Qed.

(** The invariant survives a call that keeps the contracts and adds no dispatch. *)
Lemma kept_ok r r' :
  contracts_kept r r' → rg_dispatches r' = rg_dispatches r → dispatches_ok r → dispatches_ok r'.
Proof.
  intros [_ HL HT] E [K C Y T N L]. constructor; rewrite E; [exact K|exact C|exact Y| |exact N|].
  - intros k d Hk. destruct (T k d Hk) as [t Ht]. destruct (HT _ _ Ht) as (t' & ? & _). by exists t'.
  - intros k d Hk. destruct (L k d Hk) as (row & prow & H1 & H2 & H3).
    destruct (HL _ _ H1) as (row' & H1' & E1). destruct (HL _ _ H2) as (prow' & H2' & E2).
    exists row', prow'. by rewrite E1, E2.
Qed.

Definition children_advance (r r' : Registry) : Prop :=
  contracts_kept r r' ∧ (dispatches_ok r → dispatches_ok r').

#[export] Instance children_advance_preorder : PreOrder children_advance.
Proof.
  split; [by split|]. intros r1 r2 r3 [K1 O1] [K2 O2]. split; [by trans r2|auto].
Qed.

Lemma kept_advance r r' :
  contracts_kept r r' → rg_dispatches r' = rg_dispatches r → children_advance r r'.
Proof. intros K E. split; [done|by apply kept_ok]. Qed.

(** A call that writes none of the three tables. *)
Lemma untouched_advance r r' :
  rg_dispatches r' = rg_dispatches r → rg_protocol_tasks r' = rg_protocol_tasks r →
  rg_tasks r' = rg_tasks r → children_advance r r'.
Proof.
  intros E1 E2 E3. apply kept_advance; [|done].
  constructor; rewrite ?E1, ?E2, ?E3; [done|by eexists..].
Qed.

(** Writing one task that keeps its contract. *)
Lemma retask_advance r id t t' :
  rg_tasks r !! id = Some t → task_kept t t' →
  children_advance r (r <| rg_tasks := <[id := t']> (rg_tasks r) |>).
Proof.
  intros Ht K. apply kept_advance; [|done]. constructor; [done|by eexists|]. cbn.
  intros k u Hu. destruct (decide (k = id)) as [->|].
  - rewrite lookup_insert_eq. exists t'. split; [done|]. congruence.
  - rewrite lookup_insert_ne by done. by eexists.
Qed.

Lemma apply_children r task_id e f r' d :
  apply_worker_protocol_transition r task_id e f = Ok (r', d) → children_advance r r'.
Proof.
  intros (s & L & _ & Hid & _ & [[_ ->]|(_ & _ & P & _)])%apply_Ok; [by apply reflexivity|].
  destruct (ps_task _ _ _ _ _ P) as (task & Ht & Et).
  destruct (ps_row _ _ _ _ _ P) as (row & Hrow & _ & Er).
  pose proof (ps_other _ _ _ _ _ P) as Ho. injection Ho as _ Hd _ _ _ _ _ _ _.
  apply kept_advance; [|done]. constructor; [by rewrite Hd| |].
  - intros k row' Hk. rewrite Er. destruct (decide (k = ws_task_id (pd_state d))) as [->|].
    + rewrite lookup_insert_eq. eexists. split; [done|]. cbn.
      rewrite <- (ps_lineage _ _ _ _ _ P). destruct (ld_row _ _ _ L) as (row0 & Hrow0 & ->).
      rewrite Hid in Hk. cbn. congruence.
    + rewrite lookup_insert_ne by done. by eexists.
  - intros k t Hk. rewrite Et. destruct (decide (k = ws_task_id (pd_state d))) as [->|].
    + rewrite lookup_insert_eq. eexists. split; [done|]. assert (task = t) as -> by congruence. done.
    + rewrite lookup_insert_ne by done. by eexists.
Qed.

(** ** Every call of the registry on children *)

Lemma bind_children r child sid now r' t :
  bind_child_lsm_session r child sid now = Ok (r', t) → children_advance r r'.
Proof.
  unfold bind_child_lsm_session. intros (d & _ & H)%bind_Ok_inv. cbv zeta in H.
  apply raise_if_then in H as [_ H]. apply bind_Ok_inv in H as (task & Ht%fetch_Ok & H).
  destruct (tr_lsm_session_id task) eqn:Hs.
  - apply raise_if_then in H as [_ [= <- _]]. by apply (reflexivity (R := children_advance)).
  - apply unit_bind_Ok in H as [_ [= <- _]]. apply (retask_advance _ _ task); [done|].
    split_and!; [done..|]. rewrite Hs. by intros [].
Qed.

Lemma update_state_children r id st now r' u :
  update_state r id st now = Ok (r', u) → children_advance r r'.
Proof.
  intros [_ H]%unit_bind_Ok. destruct (rg_tasks r !! id) as [task|] eqn:Ht.
  - apply unit_bind_Ok in H as [_ [= <- _]]. by apply (retask_advance _ _ task).
  - injection H as <- _. by apply (reflexivity (R := children_advance)).
Qed.

Lemma scan_children r child r' o :
  unresolved_child_spawn_attempt r child = Ok (r', o) → children_advance r r'.
Proof.
  intros ([m x] & _ & [= <- _])%bind_Ok_inv. by apply untouched_advance.
Qed.

(** ** Creating a dispatch *)

Lemma bootstrap_row r id r' s :
  protocol_state_exists r id = false → bootstrap_worker_protocol r id None None None = Ok (r', s) →
  rg_protocol_tasks r' = <[id := _task_values s]> (rg_protocol_tasks r) ∧
  rg_tasks r' = rg_tasks r ∧ rg_dispatches r' = rg_dispatches r.
Proof.
  unfold bootstrap_worker_protocol. intros ->. destruct (rg_tasks r !! id) as [task|]; [|done].
  unfold _resolve_lineage, _optional_nonempty. rewrite Ok_bind. cbn [refuse_if].
  intros (l & [_ [= <-]]%unit_bind_Ok & H)%bind_Ok_inv.
  apply bind_Ok_inv in H as (s' & Hs & H). apply bind_Ok_inv in H as (r1 & Hi & [= <- <-]).
  unfold _state_from_legacy in Hs. apply unit_bind_Ok in Hs as [_ Hs]. cbv zeta in Hs.
  apply unit_bind_Ok in Hs as [_ Hs]. apply unit_bind_Ok in Hs as [_ Hs].
  apply bind_Ok_inv in Hs as (leases & _ & Hs). apply unit_bind_Ok in Hs as [Hv [= Es]].
  assert (ws_task_id s' = id) as Hid by by rewrite <- Es.
  assert (valid_state s') as V.
  { rewrite <- Es. apply validate_state_iff. by destruct (validate_state _) as [[]|]. }
  unfold _insert_protocol_snapshot in Hi. apply upsert_effect in Hi as ((_ & _ & [Ht Hp _ Ho]) & _).
  - cbn in Ht, Hp. injection Ho as _ Hd _. by rewrite Ht, Hp, Hid.
  - apply V.
Qed.

Lemma bootstrap_children r id r' s :
  protocol_state_exists r id = false → bootstrap_worker_protocol r id None None None = Ok (r', s) →
  children_advance r r'.
Proof.
  intros He Hb. destruct (bootstrap_row r id r' s He Hb) as (Hr & Ht & Hd).
  apply bool_decide_eq_false in He. rewrite <- eq_None_not_Some in He.
  apply kept_advance; [|done]. constructor; [by rewrite Hd| |rewrite Ht; by eexists].
  intros k row Hk. exists row. split; [|done]. rewrite Hr, lookup_insert_ne; [done|congruence].
Qed.

Section Create.
Context {digests : Digests}.

Lemma normalized_Ok q uuid q' child :
  normalized_request q uuid = Ok (q', child) →
  child ≠ cr_parent_task_id q' ∧ child = strip child ∧
  (opt_truthy (cr_child_task_id q) = false → child = strip ("task_" +:+ str_take 12 uuid)).
Proof.
  unfold normalized_request. cbv zeta. intros [_ H]%raise_if_then.
  apply raise_if_then in H as [_ H]. apply raise_if_then in H as [_ H].
  apply raise_if_then in H as [Hc [= <- <-]]. bool_to_prop. rewrite String.eqb_neq in *.
  split_and!; [tauto|by rewrite strip_idemp|]. by intros ->.
Qed.

(** What the three inserts leave. *)
Record inserted (r : Registry) (q : ChildRequest) (child root id : string) (ts : float)
    (r' : Registry) : Prop := {
  in_tasks : rg_tasks r' = <[child := new_child_task q child ts]> (rg_tasks r);
  in_rows : rg_protocol_tasks r' = <[child := new_child_protocol q child root]> (rg_protocol_tasks r);
  in_dispatches : rg_dispatches r' = <[id := new_dispatch q child id ts]> (rg_dispatches r);
  in_workers : rg_workers r' = rg_workers r;
  in_windows : rg_window_bindings r' = rg_window_bindings r;
  in_leases : rg_protocol_leases r' = rg_protocol_leases r;
  in_new_task : rg_tasks r !! child = None;
  in_new_row : rg_protocol_tasks r !! child = None;
  in_new_id : rg_dispatches r !! id = None;
  in_new_child : ∀ k e, rg_dispatches r !! k = Some e → cd_child_task_id e ≠ child;
  in_new_key : ∀ k e, rg_dispatches r !! k = Some e →
    cd_parent_task_id e = cr_parent_task_id q → cd_child_key e ≠ cr_child_key q;
  in_time : is_nan ts = false;
}.

Lemma insert_child_inserted r q child root id ts r' :
  task_exists r child = false → insert_child r q child root id ts = Ok r' →
  inserted r q child root id ts r'.
Proof.
  intros Hnew H. unfold insert_child in H. apply unit_bind_Ok in H as [Hts%raise_if_Ok H].
  apply raise_if_then in H as [Hrow H]. cbv zeta in H. apply raise_if_then in H as [Hc [= <-]].
  apply bool_decide_eq_false in Hnew, Hrow. apply eq_None_not_Some in Hnew, Hrow.
  apply orb_false_iff in Hc as [Hid Hc]. apply bool_decide_eq_false in Hid.
  rewrite existsb_false in Hc.
  assert (∀ k e, rg_dispatches r !! k = Some e →
    String.eqb (cd_child_task_id e) child = false ∧
    String.eqb (cd_parent_task_id e) (cr_parent_task_id q) && String.eqb (cd_child_key e) (cr_child_key q) = false)
    as Hall.
  { intros k e He. apply orb_false_iff. apply (Hc e). apply elem_of_select. eauto. }
  constructor; cbn; try done.
  - by rewrite <- eq_None_not_Some in Hid.
  - intros k e He. by apply String.eqb_neq, (Hall k e He).
  - intros k e He Hp. destruct (Hall k e He) as [_ Hk]. rewrite Hp, String.eqb_refl in Hk.
    by apply String.eqb_neq.
Qed.

Lemma inserted_advance r q child prow id ts r' :
  inserted r q child (tl_root_task_id (pt_lineage prow)) id ts r' →
  rg_protocol_tasks r !! cr_parent_task_id q = Some prow → children_advance r r'.
Proof.
  intros I Hp. assert (contracts_kept r r') as K.
  { constructor.
    - rewrite (in_dispatches _ _ _ _ _ _ _ I). apply insert_subseteq, I.
    - intros k row Hk. exists row. split; [|done]. rewrite (in_rows _ _ _ _ _ _ _ I).
      rewrite lookup_insert_ne; [done|]. intros <-. by rewrite (in_new_row _ _ _ _ _ _ _ I) in Hk.
    - intros k t Hk. exists t. split; [|done]. rewrite (in_tasks _ _ _ _ _ _ _ I).
      rewrite lookup_insert_ne; [done|]. intros <-. by rewrite (in_new_task _ _ _ _ _ _ _ I) in Hk. }
  split; [done|]. intros [Kd C Y T N L].
  pose proof (in_new_child _ _ _ _ _ _ _ I) as NC. pose proof (in_new_key _ _ _ _ _ _ _ I) as NK.
  constructor; rewrite (in_dispatches _ _ _ _ _ _ _ I).
  - intros k d [[<- <-]|[_ Hk]]%lookup_insert_Some; [done|by apply Kd].
  - intros k1 k2 d1 d2 [[<- <-]|[_ H1]]%lookup_insert_Some [[<- <-]|[_ H2]]%lookup_insert_Some E;
      [done|by apply NC in H2|by apply NC in H1|by eapply C].
  - intros k1 k2 d1 d2 [[<- <-]|[_ H1]]%lookup_insert_Some [[<- <-]|[_ H2]]%lookup_insert_Some E1 E2;
      [done|exfalso; by eapply NK in H2|exfalso; by eapply NK in H1|by eapply Y].
  - intros k d [[<- <-]|[_ Hk]]%lookup_insert_Some; rewrite (in_tasks _ _ _ _ _ _ _ I).
    + by rewrite lookup_insert_eq.
    + apply lookup_insert_is_Some'. right. by eapply T.
  - intros k d [[<- <-]|[_ Hk]]%lookup_insert_Some; [|by eapply N].
    cbn. intros ->. by rewrite (in_new_row _ _ _ _ _ _ _ I) in Hp.
  - intros k d [[<- <-]|[_ Hk]]%lookup_insert_Some.
    + exists (new_child_protocol q child (tl_root_task_id (pt_lineage prow))), prow.
      cbn. rewrite (in_rows _ _ _ _ _ _ _ I), lookup_insert_eq. split; [done|]. split; [|done].
      rewrite lookup_insert_ne; [done|]. intros E. by rewrite <- E, (in_new_row _ _ _ _ _ _ _ I) in Hp.
    + destruct (L k d Hk) as (row & prow' & H1 & H2 & H3).
      destruct (ck_lineage _ _ K _ _ H1) as (row1 & H1' & E1).
      destruct (ck_lineage _ _ K _ _ H2) as (row2 & H2' & E2).
      exists row1, row2. by rewrite E1, E2.
Qed.

(** A create that returns found the dispatch of an equal request, or inserted it. *)
Lemma create_locked_Ok r q child uuid ts r' d :
  create_locked r q child uuid ts = Ok (r', d) →
  ∃ row, rg_protocol_tasks r !! cr_parent_task_id q = Some row ∧
    pt_task_status row = DurableTaskStatus.OPEN ∧ is_Some (rg_tasks r !! cr_parent_task_id q) ∧
    ((r' = r ∧ dispatch_for_key r (cr_parent_task_id q) (cr_child_key q) = Some d ∧
      same_contract r d q = true ∧ child = cd_child_task_id d) ∨
     (dispatch_for_key r (cr_parent_task_id q) (cr_child_key q) = None ∧
      get_child_dispatch r' child = Ok d ∧
      inserted r q child (tl_root_task_id (pt_lineage row)) ("dispatch_" +:+ str_take 16 uuid) ts r')).
Proof.
  unfold create_locked. cbv zeta. intros [Hp%negb_false_iff%task_exists_true H]%raise_if_then.
  destruct (rg_protocol_tasks r !! cr_parent_task_id q) as [row|] eqn:Hrow; [|done].
  apply raise_if_then in H as [Ho%negb_false_iff%bool_decide_eq_true H].
  exists row. split_and!; [done..|]. destruct (dispatch_for_key _ _ _) as [d0|] eqn:Hk.
  - apply raise_if_then in H as [[Hs Hc]%orb_false_iff [= <- <-]]. left.
    apply negb_false_iff in Hs, Hc. apply String.eqb_eq in Hc. done.
  - apply raise_if_then in H as [Hnew H]. apply bind_Ok_inv in H as (r1 & Hi & H).
    apply bind_Ok_inv in H as (d1 & Hd & [= <- <-]). right. split_and!; [done..|].
    by apply insert_child_inserted.
Qed.

Lemma create_locked_advance r q child uuid ts r' d :
  create_locked r q child uuid ts = Ok (r', d) → children_advance r r'.
Proof.
  intros (row & Hrow & _ & _ & [(-> & _)|(_ & _ & I)])%create_locked_Ok;
    [by apply (reflexivity (R := children_advance))|by eapply inserted_advance].
Qed.

Lemma calls_advance : calls_respect children_advance.
Proof.
  constructor.
  - intros r t e f r' d. by apply apply_children.
  - intros r c sid now r' t. apply bind_children.
  - intros r id st now r' u. apply update_state_children.
  - intros r c r' o. apply scan_children.
  - intros r id r' s. apply bootstrap_children.
  - intros r q c uuid ts r' d. apply create_locked_advance.
Qed.

Lemma child_run_advances calls r : children_advance r (child_run r calls).
Proof. by apply (child_run_respects _), calls_advance. Qed.

(** C20: The contract of a child is permanent: whatever calls follow, returned, refused or
    interrupted, the dispatch is read as it was written, no second dispatch takes its child
    or its key, the child's lineage still names the parent and the parent's root, its
    project, objective and directory are unchanged, and an LSM session once bound to it is
    never rebound. *)
Theorem child_contracts_are_permanent r calls child d :
  dispatches_ok r → get_child_dispatch r child = Ok d →
  let r' := child_run r calls in
  dispatches_ok r' ∧ get_child_dispatch r' child = Ok d ∧
  (∀ d', get_child_dispatch r' (cd_child_task_id d') = Ok d' →
     cd_parent_task_id d' = cd_parent_task_id d → cd_child_key d' = cd_child_key d → d' = d) ∧
  dispatch_lineage r' d ∧
  ∀ task, rg_tasks r !! child = Some task →
    ∃ task', rg_tasks r' !! child = Some task' ∧ task_kept task task'.
Proof.
  intros D Hd r'. destruct (child_run_advances calls r) as [[KD _ KT] HD]. fold r' in KD, KT, HD.
  pose proof (HD D) as D'. apply (get_dispatch_Ok _ _ _ D) in Hd as [<- Hd].
  pose proof (lookup_weaken _ _ _ _ Hd KD) as Hd'. split_and!.
  - done.
  - by apply get_dispatch_Ok.
  - intros d2 [_ H2]%(get_dispatch_Ok _ _ _ D') Ep Ek.
    pose proof (do_key r' D' _ _ _ _ H2 Hd' Ep Ek) as E. rewrite E in H2. congruence.
  - by eapply (do_lineage r' D').
  - intros task Ht. by apply KT.
Qed.

(** ** Asking again *)

(** The request with its child named. *)
Definition named (q : ChildRequest) (child : string) : ChildRequest :=
  mkChildRequest (cr_parent_task_id q) (cr_child_key q) (cr_project q) (cr_objective q) (cr_cwd q)
    (cr_prompt_text q) (Some child) (cr_expected_branch q) (cr_base_ref q) (cr_web_project_url q)
    (cr_metadata q).

Lemma normalized_named q uuid q' child uuid2 :
  normalized_request q uuid = Ok (q', child) →
  normalized_request (named q child) uuid2 = Ok (named q' child, child).
Proof.
  unfold normalized_request. cbv zeta.
  set (c := strip (if opt_truthy (cr_child_task_id q) then _ else _)).
  intros [H1 H]%raise_if_then. apply raise_if_then in H as [H2 H].
  apply raise_if_then in H as [H3 H]. apply raise_if_then in H as [H4 [= <- <-]].
  pose proof H4 as [Hne%negb_false_iff _]%orb_false_iff.
  assert (strip c = c) as Hc by apply strip_idemp.
  cbn [named cr_parent_task_id cr_child_key cr_project cr_objective cr_cwd cr_prompt_text
    cr_child_task_id cr_expected_branch cr_base_ref cr_web_project_url cr_metadata opt_truthy
    default] in *.
  rewrite !raise_if_then. split; [exact H1|]. split; [exact H2|]. split; [exact H3|].
  rewrite Hne. change (strip (id c)) with (strip c). by rewrite Hc.
Qed.

Lemma same_contract_kept r r' d q child :
  contracts_kept r r' → same_contract r d q = true → same_contract r' d (named q child) = true.
Proof.
  intros K. unfold same_contract. cbn [named cr_project cr_objective cr_cwd cr_prompt_text
    cr_expected_branch cr_base_ref cr_web_project_url cr_metadata].
  destruct (rg_tasks r !! cd_child_task_id d) as [t|] eqn:Ht; [|done].
  destruct (ck_task _ _ K _ _ Ht) as (t' & -> & E1 & E2 & E3 & _). by rewrite E1, E2, E3.
Qed.

(** What the database holds after a create that returned. *)
Record created (r : Registry) (q : ChildRequest) (child : string) (d : ChildDispatchRecord)
    : Prop := {
  cd_named : cd_child_task_id d = child;
  cd_found : dispatch_for_key r (cr_parent_task_id q) (cr_child_key q) = Some d;
  cd_same : same_contract r d q = true;
  cd_parent_exists : is_Some (rg_tasks r !! cr_parent_task_id q);
}.

Lemma create_Ok q uuid duuid ts r r' d :
  dispatches_ok r → json_eq (JObj (cr_metadata q)) (JObj (cr_metadata q)) = true →
  create_child_dispatch q uuid duuid ts r = (r', Ok d) →
  ∃ q' child, normalized_request q uuid = Ok (q', child) ∧ created r' q' child d.
Proof.
  intros D Hmeta H. pose proof (create_respects _ calls_advance q uuid duuid ts r r' _ H) as [_ HD].
  pose proof (HD D) as D'. unfold create_child_dispatch in H.
  apply query_bind in H as [([q' child] & Hn & H)|(e & _ & _ & [=])].
  exists q', child. split; [done|]. rewrite prog_bind_run in H.
  destruct (ensure_protocol _ r) as [r1 [[]|]] eqn:He; [|done].
  pose proof (ensure_respects _ calls_advance _ _ _ _ He) as [_ HD1]. pose proof (HD1 D) as D1.
  unfold txn in H. destruct (create_locked r1 q' child duuid ts) as [[r2 d2]|] eqn:Hc; [|done].
  injection H as -> ->. apply create_locked_Ok in Hc
    as (row & Hrow & _ & Hp & [(-> & Hk & Hs & ->)|(Hk & Hg & I)]).
  - by constructor.
  - apply (get_dispatch_Ok _ _ _ D') in Hg as [Hchild Hd].
    pose proof (in_dispatches _ _ _ _ _ _ _ I) as Ed.
    assert (d = new_dispatch q' child ("dispatch_" +:+ str_take 16 duuid) ts) as E.
    { rewrite Ed in Hd. apply lookup_insert_Some in Hd as [[_ <-]|[_ Hd]]; [done|].
      by destruct (in_new_child _ _ _ _ _ _ _ I _ _ Hd). }
    constructor; [done|..].
    + apply dispatch_for_key_Some; [done|]. by rewrite E in Hd |- *.
    + unfold same_contract. rewrite Hchild, (in_tasks _ _ _ _ _ _ _ I), lookup_insert_eq, E. cbn.
      rewrite !String.eqb_refl, !bool_decide_eq_true_2 by done. cbn.
      unfold normalized_request in Hn. cbv zeta in Hn. apply raise_if_then in Hn as [_ Hn].
      apply raise_if_then in Hn as [_ Hn]. apply raise_if_then in Hn as [_ Hn].
      by apply raise_if_then in Hn as [_ [= <- _]].
    + rewrite (in_tasks _ _ _ _ _ _ _ I). apply lookup_insert_is_Some'. by right.
Qed.

Definition parent_open (r : Registry) (parent : string) : Prop :=
  ∃ row, rg_protocol_tasks r !! parent = Some row ∧ pt_task_status row = DurableTaskStatus.OPEN.

Lemma create_found q child2 duuid ts r d :
  dispatch_for_key r (cr_parent_task_id q) (cr_child_key q) = Some d →
  is_Some (rg_tasks r !! cr_parent_task_id q) → parent_open r (cr_parent_task_id q) →
  create_locked r q child2 duuid ts =
    if same_contract r d q && String.eqb child2 (cd_child_task_id d) then Ok (r, d)
    else raise RuntimeError "child key already exists with a different dispatch contract".
Proof.
  intros Hk Hp (row & Hrow & Ho). unfold create_locked. cbv zeta.
  apply task_exists_true in Hp. rewrite Hp, Hrow, Ho, Hk. cbn.
  by destruct (same_contract r d q), (String.eqb child2 _).
Qed.

Lemma create_runs q uuid q' child duuid ts r :
  normalized_request q uuid = Ok (q', child) → parent_open r (cr_parent_task_id q') →
  create_child_dispatch q uuid duuid ts r = txn (λ r, create_locked r q' child duuid ts) r.
Proof.
  intros Hn (row & Hrow & _). unfold create_child_dispatch. rewrite prog_bind_run. unfold query.
  rewrite Hn, prog_bind_run. unfold ensure_protocol, protocol_state_exists.
  by rewrite Hrow, bool_decide_eq_true_2 by eauto.
Qed.

Lemma created_kept r r' q child d :
  dispatches_ok r → dispatches_ok r' → contracts_kept r r' → created r q child d →
  dispatch_for_key r' (cr_parent_task_id q) (cr_child_key q) = Some d ∧
  is_Some (rg_tasks r' !! cr_parent_task_id q) ∧ cd_parent_task_id d = cr_parent_task_id q.
Proof.
  intros D D' K [_ Hk _ [t Ht]]. apply (dispatch_for_key_Some _ _ _ _ D) in Hk as (Hp & Hkey & Hd).
  split_and!; [|destruct (ck_task _ _ K _ _ Ht) as (t' & ? & _); by exists t'|done].
  apply dispatch_for_key_Some; [done|]. split_and!; [done..|]. by eapply lookup_weaken, K.
Qed.

(** C29: Creating a child is idempotent for a named child: after a create that returned, and
    whatever calls came between, the same request under the same child, at any time and
    with any fresh ids, returns the same dispatch and writes nothing, as long as the parent
    is open. *)
Theorem child_creation_is_idempotent q uuid duuid ts r r1 d calls uuid2 duuid2 ts2 :
  dispatches_ok r → json_eq (JObj (cr_metadata q)) (JObj (cr_metadata q)) = true →
  create_child_dispatch q uuid duuid ts r = (r1, Ok d) →
  let r2 := child_run r1 calls in
  parent_open r2 (cd_parent_task_id d) →
  create_child_dispatch (named q (cd_child_task_id d)) uuid2 duuid2 ts2 r2 = (r2, Ok d).
Proof.
  intros D Hmeta H r2 Hopen. destruct (create_Ok _ _ _ _ _ _ _ D Hmeta H) as (q' & child & Hn & C).
  pose proof (create_respects _ calls_advance _ _ _ _ _ _ _ H) as [_ HD]. pose proof (HD D) as D1.
  destruct (child_run_advances calls r1) as [K HD2]. fold r2 in K, HD2. pose proof (HD2 D1) as D2.
  destruct (created_kept _ _ _ _ _ D1 D2 K C) as (Hk & Hp & Epar). rewrite Epar in Hopen.
  pose proof (cd_named _ _ _ _ C) as Hc. rewrite Hc.
  rewrite (create_runs _ _ _ _ _ _ _ (normalized_named _ _ _ _ uuid2 Hn) Hopen).
  unfold txn. rewrite (create_found (named q' child) child duuid2 ts2 r2 d Hk Hp Hopen).
  rewrite (same_contract_kept _ _ _ _ child K (cd_same _ _ _ _ C)), Hc, String.eqb_refl. done.
Qed.

(** The same request with the child left unnamed is refused: the second call invents
    another child id and compares it with the stored one, so an unnamed create is not
    idempotent. *)
Theorem unnamed_retry_is_refused q uuid duuid ts r r1 d calls uuid2 duuid2 ts2 :
  dispatches_ok r → json_eq (JObj (cr_metadata q)) (JObj (cr_metadata q)) = true →
  opt_truthy (cr_child_task_id q) = false →
  create_child_dispatch q uuid duuid ts r = (r1, Ok d) →
  let r2 := child_run r1 calls in
  parent_open r2 (cd_parent_task_id d) →
  strip ("task_" +:+ str_take 12 uuid2) ≠ cd_child_task_id d →
  ∃ e, create_child_dispatch q uuid2 duuid2 ts2 r2 = (r2, Err e).
Proof.
  intros D Hmeta Hunnamed H r2 Hopen Hne.
  destruct (create_Ok _ _ _ _ _ _ _ D Hmeta H) as (q' & child & Hn & C).
  pose proof (create_respects _ calls_advance _ _ _ _ _ _ _ H) as [_ HD]. pose proof (HD D) as D1.
  destruct (child_run_advances calls r1) as [K HD2]. fold r2 in K, HD2. pose proof (HD2 D1) as D2.
  destruct (created_kept _ _ _ _ _ D1 D2 K C) as (Hk & Hp & Epar). rewrite Epar in Hopen.
  destruct (normalized_request q uuid2) as [[q2 child2]|e] eqn:Hn2.
  2: { exists e. unfold create_child_dispatch. rewrite prog_bind_run. unfold query. by rewrite Hn2. }
  destruct (normalized_Ok _ _ _ _ Hn2) as (_ & _ & Hc2).
  assert (q2 = q') as ->.
  { unfold normalized_request in Hn, Hn2. cbv zeta in Hn, Hn2.
    do 3 apply raise_if_then in Hn as [_ Hn]. do 3 apply raise_if_then in Hn2 as [_ Hn2].
    apply raise_if_then in Hn as [_ [= <- _]]. by apply raise_if_then in Hn2 as [_ [= <- _]]. }
  eexists. rewrite (create_runs _ _ _ _ _ _ _ Hn2 Hopen). unfold txn.
  rewrite (create_found q' child2 duuid2 ts2 r2 d Hk Hp Hopen).
  rewrite (proj2 (String.eqb_neq child2 _)); [by rewrite andb_false_r|]. by rewrite Hc2.
Qed.

(** ** A fresh child *)

(** The foreign keys of the schema that a new task meets. *)
Record foreign_keys (r : Registry) : Prop := {
  fk_worker : ∀ k w, rg_workers r !! k = Some w → is_Some (rg_tasks r !! wr_task_id w);
  fk_lease : ∀ k l, rg_protocol_leases r !! k = Some l → is_Some (rg_tasks r !! wl_task_id l);
  fk_root : ∀ k row, rg_protocol_tasks r !! k = Some row →
    is_Some (rg_tasks r !! tl_root_task_id (pt_lineage row));
}.

Definition fresh_child (q : ChildRequest) (child root : string) : WorkerTaskState :=
  stored_state (new_child_protocol q child root) [].

Lemma inserted_loads r q child row id ts r' :
  foreign_keys r → rg_protocol_tasks r !! cr_parent_task_id q = Some row →
  is_Some (rg_tasks r !! cr_parent_task_id q) →
  inserted r q child (tl_root_task_id (pt_lineage row)) id ts r' →
  loaded r' child (fresh_child q child (tl_root_task_id (pt_lineage row))).
Proof.
  intros F Hrow Hp I. pose proof (in_new_task _ _ _ _ _ _ _ I) as Hnew.
  assert (leases_of r' child = []) as Hl.
  { apply select_nil. rewrite (in_leases _ _ _ _ _ _ _ I). intros k l Hk. apply String.eqb_neq.
    intros <-. destruct (fk_lease r F _ _ Hk) as [t Ht]. congruence. }
  assert (workers_of r' child = ∅) as Hw.
  { apply map_empty_filter_2. rewrite (in_workers _ _ _ _ _ _ _ I). intros k w Hk E. cbn in E.
    destruct (fk_worker r F _ _ Hk) as [t Ht]. congruence. }
  constructor.
  - eexists. by rewrite (in_rows _ _ _ _ _ _ _ I), lookup_insert_eq, Hl.
  - apply validate_state_iff. reflexivity.
  - constructor; cbn; rewrite (in_tasks _ _ _ _ _ _ _ I).
    + apply lookup_insert_is_Some'. right. by eapply (fk_root r F).
    + intros p [= <-]. split; [apply lookup_insert_is_Some'; by right|].
      intros root. unfold protocol_root. rewrite (in_rows _ _ _ _ _ _ _ I).
      rewrite lookup_insert_ne by (intros E; rewrite <- E, (in_new_row _ _ _ _ _ _ _ I) in Hrow; done).
      rewrite Hrow. by intros [= <-].
  - constructor; cbn.
    + exists (new_child_task q child ts). rewrite (in_tasks _ _ _ _ _ _ _ I), lookup_insert_eq.
      split; [done|]. by constructor.
    + by rewrite Hw, dom_empty_L.
    + by intros l ?%not_elem_of_nil.
Qed.

(** A new child starts with no authority: creating a dispatch under an unused key stores
    the request as it was normalised and a queued task, and the child's protocol loads as an open snapshot at revision and generation 0, with no
    worker, whose lineage names the parent and the parent's root. *)
Theorem new_child_starts_fresh q uuid duuid ts r r' d q' child :
  dispatches_ok r → foreign_keys r → normalized_request q uuid = Ok (q', child) →
  protocol_state_exists r (cr_parent_task_id q') = true →
  dispatch_for_key r (cr_parent_task_id q') (cr_child_key q') = None →
  create_child_dispatch q uuid duuid ts r = (r', Ok d) →
  ∃ root, protocol_root r (cr_parent_task_id q') = Some root ∧
    d = new_dispatch q' child ("dispatch_" +:+ str_take 16 duuid) ts ∧
    get_child_dispatch r' child = Ok d ∧
    rg_tasks r' !! child = Some (new_child_task q' child ts) ∧
    load_worker_protocol r' child = Ok (fresh_child q' child root).
Proof.
  intros D F Hn Hex Hnew H. pose proof (create_respects _ calls_advance _ _ _ _ _ _ _ H) as [_ HD].
  pose proof (HD D) as D'. unfold create_child_dispatch in H.
  rewrite prog_bind_run in H. unfold query in H. rewrite Hn, prog_bind_run in H.
  unfold ensure_protocol in H. rewrite Hex in H. unfold txn in H.
  destruct (create_locked r q' child duuid ts) as [[r2 d2]|] eqn:Hc; [|done].
  injection H as -> ->. apply create_locked_Ok in Hc
    as (row & Hrow & _ & Hp & [(_ & Hk & _)|(_ & Hg & I)]); [congruence|].
  exists (tl_root_task_id (pt_lineage row)). pose proof Hg as [Hchild Hd]%(get_dispatch_Ok _ _ _ D').
  split_and!.
  - unfold protocol_root. by rewrite Hrow.
  - rewrite (in_dispatches _ _ _ _ _ _ _ I) in Hd.
    apply lookup_insert_Some in Hd as [[_ <-]|[_ Hd]]; [done|].
    by destruct (in_new_child _ _ _ _ _ _ _ I _ _ Hd).
  - done.
  - by rewrite (in_tasks _ _ _ _ _ _ _ I), lookup_insert_eq.
  - apply load_Ok. by eapply inserted_loads.
Qed.
End Create.

(** ** Witnesses: t1 hands the work "k" to a child *)

#[local] Existing Instance text_digests.

Definition work_request (child : option string) : ChildRequest :=
  mkChildRequest " t1 " "k" "p" "write the parser" "/w" "Read, write, test." child (Some "b") None
    (Some " ") [("owner", JStr "parent")].

Definition normalized_work : ChildRequest :=
  mkChildRequest "t1" "k" "p" "write the parser" "/w" "Read, write, test." None (Some "b") None
    None [("owner", JStr "parent")].

Definition create_work (child : option string) : prog ChildDispatchRecord :=
  create_child_dispatch (work_request child) "0123456789abcdef" "d" (of_Z 5).

Definition work_db : Registry := (create_work None fresh_db).1.

Definition work_dispatch : ChildDispatchRecord :=
  new_dispatch normalized_work "task_0123456789ab" "dispatch_d" (of_Z 5).

Lemma work_created : create_work None fresh_db = (work_db, Ok work_dispatch).
Proof. vm_compute. reflexivity. Qed.

Lemma fresh_dispatches_ok : dispatches_ok fresh_db.
Proof. by apply empty_dispatches_ok. Qed.

Lemma work_db_ok : dispatches_ok work_db.
Proof.
  destruct (create_respects _ calls_advance (work_request None) "0123456789abcdef" "d" (of_Z 5) fresh_db work_db
    (Ok work_dispatch) work_created) as [_ H]. exact (H fresh_dispatches_ok).
Qed.

Definition work_calls : list child_call :=
  [CBind "task_0123456789ab" "session-1" (of_Z 6); CBind "task_0123456789ab" "session-2" (of_Z 7);
   CAdopt "task_0123456789ab" "https://chat/c/7" (of_Z 60) (Some "w") "u" (of_Z 8);
   CComplete "task_0123456789ab" "commit-1" (of_Z 9) (of_Z 10)].

Lemma child_contracts_are_permanent_witness :
  get_child_dispatch (child_run work_db work_calls) "task_0123456789ab" =
    Ok work_dispatch.
Proof.
  destruct (child_contracts_are_permanent work_db work_calls
    "task_0123456789ab" work_dispatch) as (_ & H & _).
  - exact work_db_ok.
  - vm_compute. reflexivity.
  - exact H.
Defined.

Lemma t1_open : parent_open (child_run work_db work_calls) "t1".
Proof. eexists. vm_compute. split; reflexivity. Qed.

Lemma child_creation_is_idempotent_witness :
  create_child_dispatch (named (work_request None) "task_0123456789ab")
    "fedcba9876543210" "e" (of_Z 20) (child_run work_db work_calls) =
  (child_run work_db work_calls, Ok work_dispatch).
Proof.
  apply (child_creation_is_idempotent (work_request None)
    "0123456789abcdef" "d" (of_Z 5) fresh_db work_db work_dispatch work_calls).
  - exact fresh_dispatches_ok.
  - vm_compute. reflexivity.
  - exact work_created.
  - exact t1_open.
Defined.

Lemma unnamed_retry_is_refused_witness :
  ∃ e, create_child_dispatch (work_request None) "fedcba9876543210" "e"
    (of_Z 20) (child_run work_db work_calls) =
    (child_run work_db work_calls, Err e).
Proof.
  apply (unnamed_retry_is_refused (work_request None)
    "0123456789abcdef" "d" (of_Z 5) fresh_db work_db work_dispatch work_calls).
  - exact fresh_dispatches_ok.
  - vm_compute. reflexivity.
  - reflexivity.
  - exact work_created.
  - exact t1_open.
  - vm_compute. discriminate.
Defined.

Lemma fresh_db_foreign_keys : foreign_keys fresh_db.
Proof.
  constructor; cbn.
  - intros k w Hk. by rewrite lookup_empty in Hk.
  - intros k l Hk. by rewrite lookup_empty in Hk.
  - intros k row [[<- <-]|[_ [<- <-]%lookup_singleton_Some]]%lookup_insert_Some; by eexists.
Qed.

Lemma new_child_starts_fresh_witness :
  ∃ root, protocol_root fresh_db "t1" = Some root ∧
    load_worker_protocol work_db "task_0123456789ab" =
      Ok (fresh_child normalized_work "task_0123456789ab" root).
Proof.
  destruct (new_child_starts_fresh (work_request None)
    "0123456789abcdef" "d" (of_Z 5) fresh_db work_db work_dispatch
    normalized_work "task_0123456789ab") as (root & Hroot & _ & _ & _ & Hl).
  - exact fresh_dispatches_ok.
  - exact fresh_db_foreign_keys.
  - vm_compute. reflexivity.
  - vm_compute. reflexivity.
  - vm_compute. reflexivity.
  - exact work_created.
  - exists root. split; [exact Hroot|exact Hl].
Defined.
