(* ===== verification/Workers.v ===== *)
(** * Tasks, workers and window leases of registry.py

    The bookkeeping of tasks that are not under the lease protocol, and the short-lived
    lease of an exact browser window to one active worker. *)

From S2P Require Import Prelude PyFloat PyStr PyUrl PyJson Models.
From S2P Require Import WorkerProtocol WorkerProtocolFacts WorkerProtocolSteps WorkerProtocolReach.
From S2P Require Import WorkerProtocolSpec Registry Persistence PersistenceFacts PersistenceTheorems.
From S2P Require Import AttemptTables Reconcile Watcher Dispatcher Actions Programs Spawns.
From S2P Require Import Replacement ChildDispatch ChildCalls ChildDispatchTheorems.

Open Scope string_scope.
Open Scope Z_scope.
Open Scope list_scope.

(** ** Workers *)

Definition put_worker (r : Registry) (worker_id : string) (w : WorkerRecord) : Registry :=
  r <| rg_workers := <[worker_id := w]> (rg_workers r) |>.

Definition drop_window (r : Registry) (worker_id : string) : Registry :=
  r <| rg_window_bindings := delete worker_id (rg_window_bindings r) |>.

(** [UPDATE workers SET status, ended_at] and the deletion of the window lease. *)
Definition supersede_worker (r : Registry) (worker_id : string) (now : float) : Registry :=
  drop_window
    match rg_workers r !! worker_id with
    | Some w => put_worker r worker_id (w <| wr_status := WorkerStatus.SUPERSEDED |>
                                          <| wr_ended_at := Some now |>)
    | None => r
    end worker_id.

(** [uuid] names the worker; [now] is the clock. *)
Definition add_worker (r : Registry) (task_id conversation_url : string)
    (conversation_id : option string) (make_current : bool) (uuid : string) (now : float)
    : res (Registry * WorkerRecord) :=
  task ← get_task r task_id;
  raise_if (protocol_state_exists r task_id) RuntimeError
    "use protocol_register_worker for a protocol-initialized durable task";;
  let worker_id := "worker_" +:+ str_take 12 uuid in
  raise_if (bool_decide (is_Some (rg_workers r !! worker_id))) IntegrityError
    "UNIQUE constraint failed: workers.worker_id";;
  real_not_null now;;
  let r := put_worker r worker_id
    (mkWorkerRecord worker_id task_id conversation_url conversation_id WorkerStatus.ACTIVE now
       None None) in
  let r :=
    if make_current then
      let r := if opt_truthy (tr_current_worker_id task)
               then supersede_worker r (default "" (tr_current_worker_id task)) now else r in
      r <| rg_tasks := <[task_id := task <| tr_current_worker_id := Some worker_id |>
                                         <| tr_updated_at := now |>]> (rg_tasks r) |>
    else r in
  worker ← get_worker r worker_id;
  Ok (r, worker).

Definition ends_worker (s : WorkerStatus.t) : bool :=
  match s with WorkerStatus.SUPERSEDED | WorkerStatus.DEAD => true | _ => false end.

Definition set_worker_status (r : Registry) (worker_id : string) (status : WorkerStatus.t)
    (now : float) : res (Registry * WorkerRecord) :=
  worker ← get_worker r worker_id;
  raise_if (protocol_state_exists r (wr_task_id worker)) RuntimeError
    "use worker-protocol transitions for a protocol-initialized durable task";;
  let ended_at := if ends_worker status then sql_real (Some now) else None in
  let r := put_worker r worker_id (worker <| wr_status := status |> <| wr_ended_at := ended_at |>) in
  let r := if bool_decide (status = WorkerStatus.ACTIVE) then r else drop_window r worker_id in
  worker ← get_worker r worker_id;
  Ok (r, worker).

(** [ORDER BY started_at DESC] *)
Definition workers_for_task (r : Registry) (task_id : string) : list WorkerRecord :=
  order_desc wr_started_at (select (λ w, String.eqb (wr_task_id w) task_id) (rg_workers r)).

(** ** Tasks *)

(** [uuid] names a task that the caller did not name; the worker is added in a second
    transaction. *)
Definition register_task (task_id : option string) (project objective cwd : string)
    (lsm_session_id conversation_url conversation_id : option string)
    (uuid : string) (now : float) (worker_uuid : string) (worker_now : float) : prog TaskRecord :=
  let id := if opt_truthy task_id then default "" task_id else "task_" +:+ str_take 12 uuid in
  task ← txn (λ r,
    raise_if (task_exists r id) IntegrityError "UNIQUE constraint failed: tasks.task_id";;
    real_not_null now;;
    let r := r <| rg_tasks := <[id := mkTaskRecord id project objective cwd SupervisorState.QUEUED
                                        lsm_session_id [] None 0 3 now now]> (rg_tasks r) |> in
    task ← get_task r id;
    Ok (r, task));
  if opt_truthy conversation_url then
    _ ← txn (λ r, add_worker r id (default "" conversation_url) conversation_id true worker_uuid
                    worker_now);
    query (λ r, get_task r id)
  else mret task.

(** [ORDER BY updated_at DESC] *)
Definition list_tasks (r : Registry) : list TaskRecord :=
  order_desc tr_updated_at (select (λ _, true) (rg_tasks r)).

(** An unknown task is left alone. *)
Definition set_checkpoint (r : Registry) (task_id : string) (checkpoint : dict) (now : float)
    : res (Registry * unit) :=
  match rg_tasks r !! task_id with
  | Some task =>
      real_not_null now;;
      Ok (r <| rg_tasks := <[task_id := task <| tr_checkpoint := checkpoint |>
                                             <| tr_updated_at := now |>]> (rg_tasks r) |>, tt)
  | None => Ok (r, tt)
  end.

(** [ORDER BY created_at DESC LIMIT ?] *)
Definition action_attempts (r : Registry) (task_id : string) (limit : Z)
    : res (list ActionAttempt) :=
  get_task r task_id ≫= λ _,
  Ok (take (Z.to_nat (Z.max 1 (Z.min limit 200)))
        (order_desc aa_created_at
           (select (λ a, String.eqb (aa_task_id a) task_id) (rg_actions r)))).

(** ** Window leases *)

Definition get_worker_window_binding (r : Registry) (worker_id : string) (now : float)
    (require_fresh : bool) : option WorkerWindowBinding :=
  match rg_window_bindings r !! worker_id with
  | Some b => if require_fresh && negb (window_is_fresh b now) then None else Some b
  | None => None
  end.

Definition bind_worker_window (r : Registry) (worker_id : string) (window_handle browser_pid : Z)
    (chrome_executable conversation_url source : string) (observed_at ttl_s : float)
    : res (Registry * WorkerWindowBinding) :=
  worker ← get_worker r worker_id;
  raise_if (negb (bool_decide (wr_status worker = WorkerStatus.ACTIVE))) ValueError
    "window binding requires an active worker";;
  raise_if ((window_handle <=? 0) || (browser_pid <=? 0)) ValueError
    "window binding requires positive HWND and browser PID";;
  raise_if (negb (str_truthy (strip chrome_executable))) ValueError
    "window binding requires a Chrome executable path";;
  raise_if (negb (str_truthy (strip conversation_url))) ValueError
    "window binding requires a conversation URL";;
  raise_if (negb (String.eqb (rstrip_slash conversation_url)
                    (rstrip_slash (wr_conversation_url worker)))) ValueError
    "window binding URL must exactly match the registered worker URL";;
  let bound_at := match rg_window_bindings r !! worker_id with
                  | Some existing => wb_bound_at existing
                  | None => observed_at
                  end in
  let expires_at := fadd observed_at (fmax (of_Z 1) ttl_s) in
  real_not_null bound_at;;
  real_not_null observed_at;;
  real_not_null expires_at;;
  let binding := mkWorkerWindowBinding worker_id window_handle browser_pid chrome_executable
                   conversation_url source bound_at observed_at expires_at in
  Ok (r <| rg_window_bindings := <[worker_id := binding]> (rg_window_bindings r) |>, binding).

(** Whether a row was deleted. *)
Definition clear_worker_window_binding (r : Registry) (worker_id : string) : Registry * bool :=
  (drop_window r worker_id, bool_decide (is_Some (rg_window_bindings r !! worker_id))).

(** ** The invariant *)

Record workers_ok (r : Registry) : Prop := {
  wk_keyed : ∀ k w, rg_workers r !! k = Some w → wr_worker_id w = k;
  wk_current : ∀ t task id, rg_tasks r !! t = Some task → tr_current_worker_id task = Some id →
    ∃ w, rg_workers r !! id = Some w ∧ wr_task_id w = t;
  wk_window : ∀ k b, rg_window_bindings r !! k = Some b →
    wb_worker_id b = k ∧ ∃ w, rg_workers r !! k = Some w ∧ wr_status w = WorkerStatus.ACTIVE ∧
      rstrip_slash (wb_conversation_url b) = rstrip_slash (wr_conversation_url w);
}.

Lemma empty_workers_ok : workers_ok empty_registry.
Proof. by constructor. Qed.

Lemma drop_window_ok r id : workers_ok r → workers_ok (drop_window r id).
Proof.
  intros [K C W]. constructor; [exact K|exact C|]. cbn. intros k b [_ Hb]%lookup_delete_Some. by apply W.
Qed.

(** A worker row that keeps its identity and its address. *)
Definition same_worker (w w' : WorkerRecord) : Prop :=
  wr_worker_id w' = wr_worker_id w ∧ wr_task_id w' = wr_task_id w ∧
  wr_conversation_url w' = wr_conversation_url w.

Lemma put_worker_ok r id w w' :
  workers_ok r → rg_workers r !! id = Some w → same_worker w w' →
  (wr_status w' = WorkerStatus.ACTIVE ∨ rg_window_bindings r !! id = None) →
  workers_ok (put_worker r id w').
Proof.
  intros [K C W] Hw (E1 & E2 & E3) Hst. constructor; cbn.
  - intros k v [[<- <-]|[_ Hv]]%lookup_insert_Some; [rewrite E1|]; by apply K.
  - intros t task cur Ht Hcur. destruct (C t task cur Ht Hcur) as (v & Hv & Et).
    destruct (decide (cur = id)) as [->|]; [|rewrite lookup_insert_ne by done; eauto].
    exists w'. rewrite lookup_insert_eq, E2. split; [done|]. congruence.
  - intros k b Hb. destruct (W k b Hb) as (Hid & v & Hv & Hact & Hurl). split; [done|].
    destruct (decide (k = id)) as [->|]; [|rewrite lookup_insert_ne by done; eauto].
    exists w'. rewrite lookup_insert_eq, E3. assert (v = w) as -> by congruence.
    destruct Hst as [Hst|Hst]; [done|congruence].
Qed.

Lemma new_worker_ok r id w :
  workers_ok r → rg_workers r !! id = None → wr_worker_id w = id → workers_ok (put_worker r id w).
Proof.
  intros [K C W] Hn Hid. constructor; cbn.
  - intros k v [[<- <-]|[_ Hv]]%lookup_insert_Some; [done|by apply K].
  - intros t task cur Ht Hcur. destruct (C t task cur Ht Hcur) as (v & Hv & Et).
    exists v. rewrite lookup_insert_ne; [done|congruence].
  - intros k b Hb. destruct (W k b Hb) as (Hk & v & Hv & ?). split; [done|]. exists v.
    rewrite lookup_insert_ne; [done|congruence].
Qed.

Lemma put_task_ok r id task :
  workers_ok r →
  (∀ cur, tr_current_worker_id task = Some cur →
     ∃ w, rg_workers r !! cur = Some w ∧ wr_task_id w = id) →
  workers_ok (r <| rg_tasks := <[id := task]> (rg_tasks r) |>).
Proof.
  intros [K C W] Hcur. constructor; [exact K| |exact W]. cbn.
  intros t u cur [[<- <-]|[_ Hu]]%lookup_insert_Some; [apply Hcur|by apply C].
Qed.

(** Changing a task without changing its current worker. *)
Lemma retask_workers_ok r id task task' :
  workers_ok r → rg_tasks r !! id = Some task →
  tr_current_worker_id task' = tr_current_worker_id task →
  workers_ok (r <| rg_tasks := <[id := task']> (rg_tasks r) |>).
Proof.
  intros Hok Ht E. apply put_task_ok; [done|]. intros cur. rewrite E. by apply (wk_current r Hok).
Qed.

Lemma supersede_ok r id now : workers_ok r → workers_ok (supersede_worker r id now).
Proof.
  intros Hok. unfold supersede_worker. destruct (rg_workers r !! id) as [w|] eqn:Hw; [|by apply drop_window_ok].
  change (workers_ok (put_worker (drop_window r id) id
    (w <| wr_status := WorkerStatus.SUPERSEDED |> <| wr_ended_at := Some now |>))).
  apply (put_worker_ok _ _ w); [by apply drop_window_ok|done|done|]. right. apply lookup_delete_eq.
Qed.

(** ** The calls *)

Lemma add_worker_ok r t url conv cur uuid now r' w :
  workers_ok r → add_worker r t url conv cur uuid now = Ok (r', w) → workers_ok r'.
Proof.
  intros Hok. unfold add_worker. intros (task & Ht%fetch_Ok & H)%bind_Ok_inv.
  apply raise_if_then in H as [_ H]. cbv zeta in H. apply raise_if_then in H as [Hnew H].
  apply unit_bind_Ok in H as [_ H]. apply bind_Ok_inv in H as (v & _ & [= <- _]).
  apply bool_decide_eq_false, eq_None_not_Some in Hnew.
  set (id := "worker_" +:+ str_take 12 uuid) in *.
  set (row := mkWorkerRecord id t url conv WorkerStatus.ACTIVE now None None).
  assert (workers_ok (put_worker r id row)) as H1 by by apply new_worker_ok.
  destruct cur; [|done]. set (r1 := if opt_truthy (tr_current_worker_id task) then _ else _).
  assert (workers_ok r1) as H2 by (unfold r1; case_match; [by apply supersede_ok|done]).
  change (workers_ok (r1 <| rg_tasks := <[t := task <| tr_current_worker_id := Some id |>
    <| tr_updated_at := now |>]> (rg_tasks r1) |>)).
  apply put_task_ok; [done|]. intros c [= <-].
  assert (∃ u, rg_workers r1 !! id = Some u ∧ wr_task_id u = t) as (u & Hu & Eu); [|by exists u].
  unfold r1, supersede_worker. repeat case_match; cbn; try (by exists row; rewrite lookup_insert_eq).
  destruct (decide (default "" (tr_current_worker_id task) = id)) as [E|E].
  - rewrite E, lookup_insert_eq. cbn in *. rewrite E, lookup_insert_eq in *. eexists. split; [done|].
    by simplify_eq.
  - rewrite lookup_insert_ne by done. exists row. by rewrite lookup_insert_eq.
Qed.

Lemma set_status_ok r id st now r' w :
  workers_ok r → set_worker_status r id st now = Ok (r', w) → workers_ok r'.
Proof.
  intros Hok. unfold set_worker_status. intros (v & Hv%fetch_Ok & H)%bind_Ok_inv.
  apply raise_if_then in H as [_ H]. cbv zeta in H. apply bind_Ok_inv in H as (u & _ & [= <- _]).
  case_bool_decide as Hst.
  - apply (put_worker_ok _ _ v); [done|done|done|]. by left.
  - set (row := v <| wr_status := st |>
      <| wr_ended_at := if ends_worker st then sql_real (Some now) else None |>).
    change (workers_ok (put_worker (drop_window r id) id row)).
    apply (put_worker_ok _ _ v); [by apply drop_window_ok|done|done|]. right. apply lookup_delete_eq.
Qed.

Lemma bind_window_ok r id hwnd pid exe url src at_ ttl r' b :
  workers_ok r → bind_worker_window r id hwnd pid exe url src at_ ttl = Ok (r', b) → workers_ok r'.
Proof.
  intros [K C W]. unfold bind_worker_window. intros (v & Hv%fetch_Ok & H)%bind_Ok_inv.
  apply raise_if_then in H as [Hst%negb_false_iff%bool_decide_eq_true H].
  do 3 apply raise_if_then in H as [_ H].
  apply raise_if_then in H as [Hurl%negb_false_iff%String.eqb_eq H]. cbv zeta in H.
  do 3 apply unit_bind_Ok in H as [_ H]. injection H as <- _.
  constructor; [exact K|exact C|]. cbn. intros k c [[<- <-]|[_ Hc]]%lookup_insert_Some; [|by apply W].
  split; [done|]. by exists v.
Qed.

(** *** The lease protocol *)

Lemma sync_worker_ok existing t r l r' :
  workers_ok r → sync_worker existing t r l = Ok r' → workers_ok r'.
Proof.
  intros Hok H. apply bind_Ok_inv in H as (r1 & H & [= <-]).
  (* the row is written first, then the lease of a worker that is not active is dropped *)
  assert (∀ w, (∃ v, rg_workers r !! wl_worker_id l = Some v ∧ same_worker v w) ∨
      (rg_workers r !! wl_worker_id l = None ∧ wr_worker_id w = wl_worker_id l) →
      wr_status w = _legacy_status (wl_status l) →
      workers_ok (if bool_decide (wl_status l = WorkerLeaseStatus.ACTIVE)
                  then put_worker r (wl_worker_id l) w
                  else drop_window (put_worker r (wl_worker_id l) w) (wl_worker_id l))) as Hput.
  { clear H. intros w [(v & Hv & Hs)|[Hn Hid]] Hst; case_bool_decide as Ha.
    - apply (put_worker_ok _ _ v); [done..|]. left. by rewrite Hst, Ha.
    - change (workers_ok (put_worker (drop_window r (wl_worker_id l)) (wl_worker_id l) w)).
      apply (put_worker_ok _ _ v); [by apply drop_window_ok|done|done|]. right. apply lookup_delete_eq.
    - by apply new_worker_ok.
    - by apply drop_window_ok, new_worker_ok. }
  cbv zeta in H. destruct (existing !! wl_worker_id l) as [row|].
  - apply raise_if_then in H as [_ H]. apply raise_if_then in H as [_ [= <-]].
    destruct (rg_workers r !! wl_worker_id l) as [cur|] eqn:Hcur.
    + destruct (String.eqb (wr_task_id cur) t); [|by case_match; [|apply drop_window_ok]].
      apply (Hput (synced_row l cur)); [left; by exists cur|done].
    + case_match; [done|by apply drop_window_ok].
  - apply raise_if_then in H as [_ H]. apply raise_if_then in H as [Hn H].
    apply unit_bind_Ok in H as [_ [= <-]]. apply bool_decide_eq_false, eq_None_not_Some in Hn.
    apply (Hput (new_worker_row l)); [by right|done].
Qed.

Lemma sync_workers_ok r s r' :
  workers_ok r → _sync_legacy_workers r s = Ok r' → workers_ok r'.
Proof.
  intros Hok (r1 & H & Hd)%bind_Ok_inv. apply raise_if_then in Hd as [_ [= <-]]. revert H.
  apply (fold_res_ind _ (λ _ r1, workers_ok r1)); [done|]. intros done l r2 r3 _ H2 H3.
  by eapply sync_worker_ok.
Qed.

Lemma upsert_windows r ws r' :
  fold_res _upsert_protocol_lease r ws = Ok r' →
  rg_workers r' = rg_workers r ∧ rg_window_bindings r' = rg_window_bindings r.
Proof.
  apply (fold_res_ind _ (λ _ r1, rg_workers r1 = rg_workers r ∧
    rg_window_bindings r1 = rg_window_bindings r)); [done|].
  by intros done l r2 r3 _ [? ?] [_ ->]%upsert_Ok.
Qed.

Lemma persist_windows r previous d e r' :
  _persist_decision_locked r previous d e = Ok r' →
  ∃ r1, _sync_legacy_workers r (pd_state d) = Ok r1 ∧ rg_workers r' = rg_workers r1 ∧
    rg_window_bindings r' = rg_window_bindings r1.
Proof.
  intros (r1 & Hs & H)%bind_Ok_inv. exists r1. split; [done|].
  apply bind_Ok_inv in H as (task & _ & H). cbv zeta in H. apply unit_bind_Ok in H as [_ H].
  apply raise_if_then in H as [_ H]. apply bind_Ok_inv in H as (r2 & Hu & H).
  apply bind_Ok_inv in H as (r3 & Hev & H). apply raise_if_then in H as [_ [= <-]].
  apply upsert_windows in Hu as [Hw Hb]. apply append_effect in Hev as ->. cbn in *. done.
Qed.

Lemma apply_workers_ok r t e f r' d :
  workers_ok r → apply_worker_protocol_transition r t e f = Ok (r', d) → workers_ok r'.
Proof.
  intros Hok H.
  pose proof H as (s & L & _ & Hid & _ & [[_ ->]|(Hm & V & P & L' & _)])%apply_Ok; [done|].
  assert (∃ r1, _sync_legacy_workers r (pd_state d) = Ok r1 ∧ rg_workers r' = rg_workers r1 ∧
    rg_window_bindings r' = rg_window_bindings r1) as (r1 & Hs & Ew & Eb).
  { apply bind_Ok_inv in H as (s0 & _ & H). apply bind_Ok_inv in H as (d0 & _ & H).
    do 2 apply raise_if_then in H as [_ H]. destruct (pd_mutated d0) eqn:Hm0; cbn [negb] in H.
    - do 4 apply raise_if_then in H as [_ H]. apply unit_bind_Ok in H as [_ H].
      apply bind_Ok_inv in H as (r2 & Hp & H). apply bind_Ok_inv in H as (s2 & _ & H).
      apply raise_if_then in H as [_ [= <- <-]]. by eapply persist_windows.
    - injection H as <- <-. congruence. }
  destruct (sync_workers_ok _ _ _ Hok Hs) as [K C W].
  pose proof (sync_effect _ _ _ (vs_nodup _ V) Hs) as ((_ & _ & [Ht1 _ _ _]) & _).
  destruct (ps_task _ _ _ _ _ P) as (task & Ht & Et).
  constructor; rewrite ?Ew, ?Eb; [done| |done].
  intros t' task' cur Ht' Hcur. rewrite Et in Ht'.
  apply lookup_insert_Some in Ht' as [[<- <-]|[_ Ht']]; [|apply (C _ task'); [by rewrite Ht1|done]].
  rewrite <- Ew. cbn in Hcur. destruct (vs_current _ V _ Hcur) as (w & Hin & <- & _).
  destruct (cs_lease _ _ (ld_consistent _ _ _ L') w Hin) as (row & Hrow & _).
  exists row. by apply lookup_workers_of in Hrow.
Qed.

(** *** Children *)

Definition keeps_workers (r r' : Registry) : Prop := workers_ok r → workers_ok r'.

#[export] Instance keeps_workers_preorder : PreOrder keeps_workers.
Proof. split; unfold keeps_workers; [by intros r|by intros r1 r2 r3 ???; auto]. Qed.

(** A call that writes none of the three tables. *)
Lemma untouched_workers r r' :
  rg_workers r' = rg_workers r → rg_tasks r' = rg_tasks r →
  rg_window_bindings r' = rg_window_bindings r → keeps_workers r r'.
Proof. intros E1 E2 E3 [K C W]. constructor; by rewrite ?E1, ?E2, ?E3. Qed.

Lemma bootstrap_workers r id p root key r' s :
  bootstrap_worker_protocol r id p root key = Ok (r', s) → keeps_workers r r'.
Proof.
  unfold bootstrap_worker_protocol. destruct (protocol_state_exists r id).
  - intros (s0 & _ & [_ [= <- _]]%unit_bind_Ok)%bind_Ok_inv. by apply untouched_workers.
  - destruct (rg_tasks r !! id) as [task|]; [|done]. intros (l & _ & H)%bind_Ok_inv.
    apply bind_Ok_inv in H as (s1 & _ & H). apply bind_Ok_inv in H as (r1 & Hi & [= <- _]).
    revert Hi. unfold _insert_protocol_snapshot.
    apply (fold_res_ind _ (λ _ r1, keeps_workers r r1)); [by apply untouched_workers|].
    intros done w r2 r3 _ H2 [_ ->]%upsert_Ok. etrans; [exact H2|by apply untouched_workers].
Qed.

Lemma session_workers r c sid now r' t :
  bind_child_lsm_session r c sid now = Ok (r', t) → keeps_workers r r'.
Proof.
  unfold bind_child_lsm_session. intros (d & _ & H)%bind_Ok_inv Hok. cbv zeta in H.
  apply raise_if_then in H as [_ H]. apply bind_Ok_inv in H as (task & Ht%fetch_Ok & H).
  destruct (tr_lsm_session_id task).
  - by apply raise_if_then in H as [_ [= <- _]].
  - apply unit_bind_Ok in H as [_ [= <- _]]. by eapply retask_workers_ok.
Qed.

Lemma update_state_workers r id st now r' u :
  update_state r id st now = Ok (r', u) → keeps_workers r r'.
Proof.
  intros [_ H]%unit_bind_Ok Hok. destruct (rg_tasks r !! id) as [task|] eqn:Ht.
  - apply unit_bind_Ok in H as [_ [= <- _]]. by eapply retask_workers_ok.
  - by injection H as <- _.
Qed.

Section Calls.
Context {digests : Digests}.

Lemma create_workers r q c uuid ts r' d :
  create_locked r q c uuid ts = Ok (r', d) → keeps_workers r r'.
Proof using Type.
  intros (row & _ & _ & _ & [(-> & _)|(_ & _ & I)])%create_locked_Ok Hok; [done|].
  assert (workers_ok (r <| rg_tasks := <[c := new_child_task q c ts]> (rg_tasks r) |>)) as [K C W]
    by by apply put_task_ok.
  destruct I as [Et _ _ Ew Eb _ _ _ _ _ _ _]. constructor; rewrite ?Ew, ?Eb, ?Et; done.
Qed.

Lemma calls_keep_workers : calls_respect keeps_workers.
Proof using Type.
  constructor.
  - intros r t e f r' d H Hok. by eapply apply_workers_ok.
  - apply session_workers.
  - apply update_state_workers.
  - intros r c r' o ([m x] & _ & [= <- _])%bind_Ok_inv. by apply untouched_workers.
  - intros r id r' s _. apply bootstrap_workers.
  - apply create_workers.
Qed.

(** ** Runs *)

Inductive worker_call :=
  | WRegister (task_id : option string) (project objective cwd : string)
      (lsm_session_id conversation_url conversation_id : option string)
      (uuid : string) (now : float) (worker_uuid : string) (worker_now : float)
  | WAdd (task url : string) (conversation_id : option string) (make_current : bool)
      (uuid : string) (now : float)
  | WStatus (worker : string) (status : WorkerStatus.t) (now : float)
  | WBind (worker : string) (window_handle browser_pid : Z)
      (chrome_executable conversation_url source : string) (observed_at ttl_s : float)
  | WClear (worker : string)
  | WCheckpoint (task : string) (checkpoint : dict) (now : float)
  | WBootstrap (task : string) (parent root child_key : option string)
  | WChild (c : child_call).

Definition worker_prog (c : worker_call) : prog unit :=
  match c with
  | WRegister id project objective cwd lsm url conv uuid now wuuid wnow =>
      _ ← register_task id project objective cwd lsm url conv uuid now wuuid wnow; mret tt
  | WAdd task url conv cur uuid now =>
      _ ← txn (λ r, add_worker r task url conv cur uuid now); mret tt
  | WStatus worker status now => _ ← txn (λ r, set_worker_status r worker status now); mret tt
  | WBind worker hwnd pid exe url src observed_at ttl =>
      _ ← txn (λ r, bind_worker_window r worker hwnd pid exe url src observed_at ttl); mret tt
  | WClear worker => txn (λ r, Ok ((clear_worker_window_binding r worker).1, tt))
  | WCheckpoint task checkpoint now => txn (λ r, set_checkpoint r task checkpoint now)
  | WBootstrap task p root key =>
      _ ← txn (λ r, bootstrap_worker_protocol r task p root key); mret tt
  | WChild c => child_prog c
  end.

Definition worker_run (r : Registry) (calls : list worker_call) : Registry :=
  foldl (λ r c, (worker_prog c r).1) r calls.

Lemma txn_workers {A} (m : Registry → res (Registry * A)) :
  (∀ r r' a, workers_ok r → m r = Ok (r', a) → workers_ok r') → respects keeps_workers (txn m).
Proof using Type. intros H. apply respects_txn; [apply _|]. intros r r' a E Hok. by eapply H. Qed.

Lemma register_workers id project objective cwd lsm url conv uuid now wuuid wnow :
  respects keeps_workers
    (register_task id project objective cwd lsm url conv uuid now wuuid wnow).
Proof using Type.
  unfold register_task. cbv zeta. apply respects_bind; [apply _| |].
  - apply txn_workers. intros r r' a Hok [_ H]%raise_if_then.
    apply unit_bind_Ok in H as [_ H]. apply bind_Ok_inv in H as (t & _ & [= <- _]).
    by apply put_task_ok.
  - intros t. destruct (opt_truthy url); [|apply (respects_stay _ (λ _, Ok _))].
    apply respects_bind; [apply _| |intros w; apply respects_stay, _].
    apply txn_workers. intros r r' w. apply add_worker_ok.
Qed.

Lemma worker_call_keeps c : respects keeps_workers (worker_prog c).
Proof using Type.
  destruct c; cbn;
    try (apply respects_bind; [apply _| |by intros _; apply (respects_stay _ (λ _, Ok tt))]).
  - apply register_workers.
  - apply txn_workers. intros r r' w. apply add_worker_ok.
  - apply txn_workers. intros r r' w. apply set_status_ok.
  - apply txn_workers. intros r r' b. apply bind_window_ok.
  - apply txn_workers. intros r r' [] Hok [= <-]. by apply drop_window_ok.
  - apply txn_workers. intros r r' [] Hok. unfold set_checkpoint.
    destruct (rg_tasks r !! task) as [t|] eqn:Ht; [|by intros [= <-]].
    intros [_ [= <-]]%unit_bind_Ok. by eapply retask_workers_ok.
  - apply txn_workers. intros r r' s Hok H. by eapply bootstrap_workers.
  - apply (call_respects _ calls_keep_workers).
Qed.

Lemma worker_run_ok calls r : workers_ok r → workers_ok (worker_run r calls).
Proof using Type.
  revert r. induction calls as [|c calls IH]; intros r Hok; [done|]. cbn. apply IH.
  destruct (worker_prog c r) as [r' x] eqn:E. by eapply worker_call_keeps.
Qed.

(** Whatever sequence of registry calls built the database, failing and interrupted ones
    included, a window lease that can be read names a registered worker that is active and
    whose conversation is the page of the window, and the current worker of a task is a
    worker of that task. *)
Theorem window_leases_are_safe calls worker_id now require_fresh b :
  let r := worker_run empty_registry calls in
  get_worker_window_binding r worker_id now require_fresh = Some b →
  wb_worker_id b = worker_id ∧
  (∃ w, get_worker r worker_id = Ok w ∧ wr_status w = WorkerStatus.ACTIVE ∧
     rstrip_slash (wb_conversation_url b) = rstrip_slash (wr_conversation_url w)) ∧
  (∀ task_id task id, get_task r task_id = Ok task → tr_current_worker_id task = Some id →
     ∃ w, get_worker r id = Ok w ∧ wr_task_id w = task_id).
Proof using Type.
  intros r. pose proof (worker_run_ok calls _ empty_workers_ok) as [K C W]. fold r in K, C, W.
  unfold get_worker_window_binding. destruct (rg_window_bindings r !! worker_id) as [b0|] eqn:Hb;
    [|done].
  case_match; [done|]. intros [= ->]. destruct (W _ _ Hb) as (Hid & w & Hw & Hst & Hurl).
  split_and!; [done|exists w; split; [by apply fetch_Ok|done]|].
  intros t task id Ht%fetch_Ok Hcur. destruct (C _ _ _ Ht Hcur) as (v & Hv & Et).
  exists v. split; [by apply fetch_Ok|done].
Qed.

End Calls.

#[local] Existing Instance text_digests.

(** A worker is added, bound to its window, and replaced by a second worker. *)
Definition lease_calls : list worker_call := [
  WRegister (Some "task") "p" "o" "c" None (Some "https://chatgpt.com/c/one") None "t" (of_Z 10)
    "aaaaaaaaaaaaaaaa" (of_Z 11);
  WBind "worker_aaaaaaaaaaaa" 77 88 "chrome.exe" "https://chatgpt.com/c/one/" "uia" (of_Z 12)
    (of_Z 60);
  WAdd "task" "https://chatgpt.com/c/two" None true "bbbbbbbbbbbbbbbb" (of_Z 13);
  WBind "worker_aaaaaaaaaaaa" 77 88 "chrome.exe" "https://chatgpt.com/c/one" "uia" (of_Z 14)
    (of_Z 60);
  WBind "worker_bbbbbbbbbbbb" 99 88 "chrome.exe" "https://chatgpt.com/c/two/" "uia" (of_Z 14)
    (of_Z 60)].

Lemma window_leases_are_safe_witness :
  let r := worker_run empty_registry lease_calls in
  get_worker_window_binding r "worker_aaaaaaaaaaaa" (of_Z 15) false = None ∧
  get_worker_window_binding r "worker_bbbbbbbbbbbb" (of_Z 75) true = None ∧
  ∃ b, get_worker_window_binding r "worker_bbbbbbbbbbbb" (of_Z 15) true = Some b ∧
    ∃ w, get_worker r "worker_bbbbbbbbbbbb" = Ok w ∧ wr_status w = WorkerStatus.ACTIVE.
Proof.
  cbv zeta. split; [vm_compute; reflexivity|]. split; [vm_compute; reflexivity|].
  eexists. split; [vm_compute; reflexivity|].
  destruct (window_leases_are_safe lease_calls "worker_bbbbbbbbbbbb" (of_Z 15) true
    (mkWorkerWindowBinding "worker_bbbbbbbbbbbb" 99 88 "chrome.exe" "https://chatgpt.com/c/two/"
       "uia" (of_Z 14) (of_Z 14) (of_Z 74))) as (_ & (w & Hw & Hst & _) & _);
    [vm_compute; reflexivity|].
  exists w. split; [exact Hw|exact Hst].
Defined.
