(* ===== verification/Capabilities.v ===== *)
(** * lifecycle.py and capabilities.py: when a conversation page may be closed

    A page-close experiment yields evidence.  [evaluate_page_close_evidence] decides
    whether it proves that a generating page, or a page with a live tool, survives a close
    and a reopen.  [build_page_close_capabilities] turns proven evidence into capability
    records that are bound to the browser and host of the experiment and that expire;
    [capability_matches_context] decides whether a record covers a running browser. *)

From Stdlib Require Import Ascii.
From stdpp Require Import pretty.
From S2P Require Import Prelude PyFloat PyStr PyUrl PyJson Models Registry Reconcile.

Open Scope string_scope.
Open Scope Z_scope.
Open Scope list_scope.

Module PageIsolationMode.

Inductive t :=
  | DEDICATED_PROFILE | EXISTING_PROFILE_DISPOSABLE_WINDOW | COPIED_AUTH_PROFILE.

#[global] Instance t_eq_dec : EqDecision t.
Proof. solve_decision. Defined.

Definition value (m : t) : string :=
  match m with
  | DEDICATED_PROFILE => "dedicated_profile"
  | EXISTING_PROFILE_DISPOSABLE_WINDOW => "existing_profile_disposable_window"
  | COPIED_AUTH_PROFILE => "copied_auth_profile"
  end.

(** [PageIsolationMode(s)], [None] for a [ValueError]. *)
Definition of_value (s : string) : option t :=
  next_where (λ m, String.eqb (value m) s)
    [DEDICATED_PROFILE; EXISTING_PROFILE_DISPOSABLE_WINDOW; COPIED_AUTH_PROFILE].

End PageIsolationMode.

Record PageCloseEvidence := mkPageCloseEvidence {
  ev_experiment_id : string;
  ev_disposable_profile : bool;
  ev_normally_authenticated : bool;
  ev_auth_material_copied : bool;
  ev_pre_close_url : string;
  ev_reopened_url : string;
  ev_pre_close_generating : bool;
  ev_close_while_live_confirmed : bool;
  ev_background_progress_observed : bool;
  ev_completion_evidence_after_reopen : bool;
  ev_same_conversation_after_reopen : bool;
  ev_duplicate_turn_observed : bool;
  ev_auth_still_valid_after_reopen : bool;
  ev_pre_close_signature : option string;
  ev_post_reopen_signature : option string;
  ev_notes : list string;
  ev_isolation_mode : string;
  ev_exact_window_binding_confirmed : bool;
  ev_current_user_conversation_excluded : bool;
  ev_tool_execution_observed : bool;
  ev_tool_job_identity_confirmed : bool;
  ev_tool_running_at_close : bool;
  ev_tool_completed_after_close : bool;
  ev_tool_final_response_after_reopen : bool;
  ev_observed_at : option float;
  ev_scope_host : option string;
  ev_browser_family : option string;
  ev_browser_major : option Z;
  ev_platform : option string;
  ev_surface : option string;
}.

Record PageCloseEvaluation := mkPageCloseEvaluation {
  pe_experiment_id : string;
  pe_parking_safe : bool;
  pe_generation_parking_safe : bool;
  pe_tool_execution_parking_safe : bool;
  pe_checks : list (string * bool);
  pe_blockers : list string;
  pe_tool_checks : list (string * bool);
  pe_tool_blockers : list string;
  pe_conclusion : string;
}.

(** [[name for name, passed in checks.items() if not passed]] *)
Definition failed_names (checks : list (string * bool)) : list string :=
  fst <$> List.filter (λ c, negb c.2) checks.

Definition no_failures (checks : list (string * bool)) : bool :=
  match failed_names checks with [] => true | _ => false end.

(** Supported mode, dedicated profile, disposable window. *)
Definition _isolation_checks (e : PageCloseEvidence) : bool * bool * bool :=
  match PageIsolationMode.of_value (ev_isolation_mode e) with
  | None => (false, false, false)
  | Some mode =>
      let dedicated := bool_decide (mode = PageIsolationMode.DEDICATED_PROFILE) in
      let window := bool_decide (mode = PageIsolationMode.EXISTING_PROFILE_DISPOSABLE_WINDOW) in
      (dedicated || window, dedicated && ev_disposable_profile e,
       window && ev_exact_window_binding_confirmed e && ev_current_user_conversation_excluded e)
  end.

Record CapabilityContext := mkCapabilityContext {
  cc_scope_host : string;
  cc_browser_family : string;
  cc_browser_major : Z;
  cc_platform : string;
  cc_surface : string;
}.

Definition PAGE_CLOSE_EVALUATOR_VERSION : string := "page-close-v2".
Definition PAGE_CAPABILITY_SURFACE : string := "normal_chrome_uia".
Definition PAGE_CAPABILITY_PLATFORM : string := "windows".
Definition PAGE_CAPABILITY_BROWSER : string := "chrome".
Definition DEFAULT_CAPABILITY_TTL_S : Z := 24 * 60 * 60.
Definition MAX_CAPABILITY_TTL_S : Z := 7 * 24 * 60 * 60.

(** [asdict(evidence)] *)
Definition evidence_dict (e : PageCloseEvidence) : dict :=
  [("experiment_id", JStr (ev_experiment_id e));
   ("disposable_profile", JBool (ev_disposable_profile e));
   ("normally_authenticated", JBool (ev_normally_authenticated e));
   ("auth_material_copied", JBool (ev_auth_material_copied e));
   ("pre_close_url", JStr (ev_pre_close_url e));
   ("reopened_url", JStr (ev_reopened_url e));
   ("pre_close_generating", JBool (ev_pre_close_generating e));
   ("close_while_live_confirmed", JBool (ev_close_while_live_confirmed e));
   ("background_progress_observed", JBool (ev_background_progress_observed e));
   ("completion_evidence_after_reopen", JBool (ev_completion_evidence_after_reopen e));
   ("same_conversation_after_reopen", JBool (ev_same_conversation_after_reopen e));
   ("duplicate_turn_observed", JBool (ev_duplicate_turn_observed e));
   ("auth_still_valid_after_reopen", JBool (ev_auth_still_valid_after_reopen e));
   ("pre_close_signature", j_of_opt_str (ev_pre_close_signature e));
   ("post_reopen_signature", j_of_opt_str (ev_post_reopen_signature e));
   ("notes", JList (JStr <$> ev_notes e));
   ("isolation_mode", JStr (ev_isolation_mode e));
   ("exact_window_binding_confirmed", JBool (ev_exact_window_binding_confirmed e));
   ("current_user_conversation_excluded", JBool (ev_current_user_conversation_excluded e));
   ("tool_execution_observed", JBool (ev_tool_execution_observed e));
   ("tool_job_identity_confirmed", JBool (ev_tool_job_identity_confirmed e));
   ("tool_running_at_close", JBool (ev_tool_running_at_close e));
   ("tool_completed_after_close", JBool (ev_tool_completed_after_close e));
   ("tool_final_response_after_reopen", JBool (ev_tool_final_response_after_reopen e));
   ("observed_at", j_of_opt_float (ev_observed_at e));
   ("scope_host", j_of_opt_str (ev_scope_host e));
   ("browser_family", j_of_opt_str (ev_browser_family e));
   ("browser_major", j_of_opt_int (ev_browser_major e));
   ("platform", j_of_opt_str (ev_platform e));
   ("surface", j_of_opt_str (ev_surface e))].

Section Capabilities.
Context {tables : UnicodeTables} {check : NetlocCheck} {digests : Digests}.

(** The checks on the evidence of a generating page. *)
Definition generation_checks (e : PageCloseEvidence) : res (list (string * bool)) :=
  let '(supported, dedicated, window) := _isolation_checks e in
  pre ← _normalize_url (ev_pre_close_url e);
  reopened ← _normalize_url (ev_reopened_url e);
  Ok [("supported_isolation_mode", supported);
      ("isolated_execution_context", dedicated || window);
      ("normally_authenticated", ev_normally_authenticated e);
      ("no_auth_material_copy", negb (ev_auth_material_copied e));
      ("pre_close_conversation_url", str_contains "/c/" pre);
      ("same_url_after_reopen",
        String.eqb pre reopened && ev_same_conversation_after_reopen e);
      ("closed_while_live", ev_pre_close_generating e && ev_close_while_live_confirmed e);
      ("background_progress_observed", ev_background_progress_observed e);
      ("completion_after_reopen", ev_completion_evidence_after_reopen e);
      ("signature_advanced",
        opt_truthy (ev_pre_close_signature e) && opt_truthy (ev_post_reopen_signature e) &&
        negb (bool_decide (ev_pre_close_signature e = ev_post_reopen_signature e)));
      ("no_duplicate_turn", negb (ev_duplicate_turn_observed e));
      ("auth_survived_reopen", ev_auth_still_valid_after_reopen e)].

Definition tool_checks (e : PageCloseEvidence) (generation_safe : bool)
    : list (string * bool) :=
  [("generation_parking_safe", generation_safe);
   ("tool_execution_observed", ev_tool_execution_observed e);
   ("tool_job_identity_confirmed", ev_tool_job_identity_confirmed e);
   ("tool_running_at_close", ev_tool_running_at_close e);
   ("tool_completed_after_close", ev_tool_completed_after_close e);
   ("tool_final_response_after_reopen", ev_tool_final_response_after_reopen e)].

Definition evaluate_page_close_evidence (e : PageCloseEvidence) : res PageCloseEvaluation :=
  checks ← generation_checks e;
  let generation_safe := no_failures checks in
  let tools := tool_checks e generation_safe in
  let tool_safe := no_failures tools in
  Ok (mkPageCloseEvaluation (ev_experiment_id e) generation_safe generation_safe tool_safe
        checks (failed_names checks) tools (failed_names tools)
        (if tool_safe then
           "isolated authenticated evidence satisfies both generation and live-tool close/reopen parking gates"
         else if generation_safe then
           "generation/page parking is proven, but live-tool parking remains unproven for this evidence"
         else
           "page-close parking remains unproven for this evidence; keep live/ambiguous workers DO_NOT_CLOSE")).

Definition provenance_error {A} (msg : string) : res A := raise CapabilityProvenanceError msg.

Definition _normalized_context (scope_host browser_family : string) (browser_major : Z)
    (platform surface : string) : res CapabilityContext :=
  let host := lower (strip scope_host) in
  let family := lower (strip browser_family) in
  let platform_name := lower (strip platform) in
  let platform_name :=
    if existsb (String.eqb platform_name) ["win32"; "win64"; "nt"] then "windows"
    else platform_name in
  let surface_name := lower (strip surface) in
  raise_if (negb (str_truthy host) || negb (str_contains "." host)) CapabilityProvenanceError
    "capability scope host is missing or invalid";;
  raise_if (negb (String.eqb family PAGE_CAPABILITY_BROWSER)) CapabilityProvenanceError
    "page-close capability currently requires Chrome provenance";;
  raise_if (browser_major <=? 0) CapabilityProvenanceError
    "page-close capability requires a positive Chrome major version";;
  raise_if (negb (String.eqb platform_name PAGE_CAPABILITY_PLATFORM)) CapabilityProvenanceError
    "page-close capability currently requires Windows provenance";;
  raise_if (negb (String.eqb surface_name PAGE_CAPABILITY_SURFACE)) CapabilityProvenanceError
    "page-close capability requires the normal-Chrome UIA observation surface";;
  Ok (mkCapabilityContext host family browser_major platform_name surface_name).

(** A field of the evidence that must be present. *)
Definition required {A} (x : option A) (what : string) : res A :=
  match x with
  | Some a => Ok a
  | None => provenance_error ("evidence is missing " +:+ what +:+ " provenance")
  end.

Definition context_from_evidence (e : PageCloseEvidence) : res CapabilityContext :=
  pre ← urlsplit (ev_pre_close_url e);
  reopened ← urlsplit (ev_reopened_url e);
  let pre_host := lower (u_netloc pre) in
  raise_if (negb (str_truthy pre_host) ||
            negb (String.eqb pre_host (lower (u_netloc reopened)))) CapabilityProvenanceError
    "page-close evidence hosts are missing or inconsistent";;
  let scope_host :=
    lower (strip (if opt_truthy (ev_scope_host e) then default "" (ev_scope_host e)
                  else pre_host)) in
  raise_if (negb (String.eqb scope_host pre_host)) CapabilityProvenanceError
    "declared capability scope does not match evidence host";;
  family ← required (ev_browser_family e) "browser_family";
  major ← required (ev_browser_major e) "browser_major";
  platform ← required (ev_platform e) "platform";
  surface ← required (ev_surface e) "observation surface";
  _normalized_context scope_host family major platform surface.

Definition canonical_evidence_digest (e : PageCloseEvidence) : string :=
  sha256_json (JObj (evidence_dict e)).

Definition _capability_id (kind : PageCapabilityKind.t) (evidence_digest : string)
    (context : CapabilityContext) (isolation_mode : string) : string :=
  "cap_" +:+ str_take 20 (sha256_text (join "|"
    [PageCapabilityKind.value kind; evidence_digest; cc_scope_host context;
     cc_browser_family context; pretty (cc_browser_major context); cc_platform context;
     cc_surface context; isolation_mode; PAGE_CLOSE_EVALUATOR_VERSION])).

(** [min(MAX_CAPABILITY_TTL_S, max(60.0, ttl))] *)
Definition clamp_ttl (ttl_s : float) : float :=
  fmin (of_Z MAX_CAPABILITY_TTL_S) (fmax (of_Z 60) ttl_s).

Definition checks_json (checks : list (string * bool)) : json :=
  JObj ((λ c, (c.1, JBool c.2)) <$> checks).

Definition capability_record (e : PageCloseEvidence) (evaluation : PageCloseEvaluation)
    (context : CapabilityContext) (observed_at recorded_at ttl_s : float)
    (kind : PageCapabilityKind.t) : PageCapabilityRecord :=
  let digest := canonical_evidence_digest e in
  mkPageCapabilityRecord (_capability_id kind digest context (ev_isolation_mode e)) kind
    (cc_scope_host context) (cc_browser_family context) (cc_browser_major context)
    (cc_platform context) (cc_surface context) (ev_isolation_mode e)
    PAGE_CLOSE_EVALUATOR_VERSION digest (ev_experiment_id e) observed_at recorded_at
    (fadd observed_at ttl_s)
    [("generation_checks", checks_json (pe_checks evaluation));
     ("tool_checks", checks_json (pe_tool_checks evaluation));
     ("generation_safe", JBool (pe_generation_parking_safe evaluation));
     ("tool_execution_safe", JBool (pe_tool_execution_parking_safe evaluation))].

Definition build_page_close_capabilities (e : PageCloseEvidence) (ttl_s recorded_at : float)
    : res (list PageCapabilityRecord) :=
  evaluation ← evaluate_page_close_evidence e;
  raise_if (negb (pe_generation_parking_safe evaluation)) CapabilityProvenanceError
    ("generation page-close gate failed: " +:+ join ", " (pe_blockers evaluation));;
  observed_at ←
    match ev_observed_at e with
    | Some t => raise_if (fle t (of_Z 0)) CapabilityProvenanceError
                  "durable capability import requires the experiment's actual observed_at timestamp";;
                Ok t
    | None => provenance_error
                "durable capability import requires the experiment's actual observed_at timestamp"
    end;
  context ← context_from_evidence e;
  raise_if (flt (fadd recorded_at (of_Z 30)) observed_at) CapabilityProvenanceError
    "capability evidence timestamp is implausibly in the future";;
  let kinds := PageCapabilityKind.GENERATION ::
    (if pe_tool_execution_parking_safe evaluation then [PageCapabilityKind.TOOL_EXECUTION]
     else []) in
  Ok (capability_record e evaluation context observed_at recorded_at (clamp_ttl ttl_s) <$> kinds).

Definition context_checks (c : PageCapabilityRecord) (context : CapabilityContext)
    (expected_kind : PageCapabilityKind.t) (now : float) : list (string * bool) :=
  [("kind", bool_decide (pc_kind c = expected_kind));
   ("evaluator_version", String.eqb (pc_evaluator_version c) PAGE_CLOSE_EVALUATOR_VERSION);
   ("scope_host", String.eqb (lower (pc_scope_host c)) (lower (cc_scope_host context)));
   ("browser_family",
     String.eqb (lower (pc_browser_family c)) (lower (cc_browser_family context)));
   ("browser_major", pc_browser_major c =? cc_browser_major context);
   ("platform", String.eqb (lower (pc_platform c)) (lower (cc_platform context)));
   ("surface", String.eqb (lower (pc_surface c)) (lower (cc_surface context)));
   ("fresh", capability_is_fresh c now)].

Definition capability_matches_context (c : PageCapabilityRecord) (context : CapabilityContext)
    (expected_kind : PageCapabilityKind.t) (now : float) : bool * list string :=
  let checks := context_checks c context expected_kind now in
  (no_failures checks, failed_names checks).

Definition runtime_context (browser_major : Z) (scope_host : string) : res CapabilityContext :=
  _normalized_context scope_host PAGE_CAPABILITY_BROWSER browser_major
    PAGE_CAPABILITY_PLATFORM PAGE_CAPABILITY_SURFACE.

End Capabilities.

(** ** The capability table of registry.py *)

Definition get_page_capability (r : Registry) (capability_id : string)
    : res PageCapabilityRecord :=
  fetch "page capability" (rg_capabilities r) capability_id.

(** An existing row keeps its provenance columns; only [recorded_at], [expires_at] and the
    payload are replaced. *)
Definition record_page_capability (r : Registry) (c : PageCapabilityRecord)
    : res (Registry * PageCapabilityRecord) :=
  raise_if (negb (str_truthy (strip (pc_capability_id c))) ||
            negb (str_truthy (strip (pc_evidence_digest c)))) ValueError
    "page capability requires id and evidence digest";;
  real_not_null (pc_observed_at c);;
  real_not_null (pc_recorded_at c);;
  real_not_null (pc_expires_at c);;
  let row := match rg_capabilities r !! pc_capability_id c with
             | None => c
             | Some old => old <| pc_recorded_at := pc_recorded_at c |>
                               <| pc_expires_at := pc_expires_at c |>
                               <| pc_metadata := pc_metadata c |>
             end in
  let r' := r <| rg_capabilities := <[pc_capability_id c := row]> (rg_capabilities r) |> in
  c' ← get_page_capability r' (pc_capability_id c);
  Ok (r', c').

(** [ORDER BY observed_at DESC, capability_id LIMIT ?] *)
Definition page_capabilities (r : Registry) (kind : option PageCapabilityKind.t) (limit : Z)
    : list PageCapabilityRecord :=
  take (Z.to_nat (Z.max 1 limit))
    (order_desc pc_observed_at
       (select (λ c, match kind with Some k => bool_decide (pc_kind c = k) | None => true end)
          (rg_capabilities r))).

(** * The guarantees of page-close capabilities

    A capability record exists only for evidence that passed every check of its kind; it
    covers exactly the browsers whose host, browser, version, platform and surface are
    those of the experiment, from the experiment until its expiry. *)

Lemma no_failures_iff checks : no_failures checks = forallb snd checks.
Proof.
  unfold no_failures, failed_names. induction checks as [|[s b] cs IH]; [done|].
  cbn. by destruct b.
Qed.

(** What the evidence says of the experiment when every generation check holds. *)
Record proven_close (e : PageCloseEvidence) : Prop := {
  pr_isolated :
    (ev_isolation_mode e = "dedicated_profile" ∧ ev_disposable_profile e = true) ∨
    (ev_isolation_mode e = "existing_profile_disposable_window" ∧
     ev_exact_window_binding_confirmed e = true ∧
     ev_current_user_conversation_excluded e = true);
  pr_auth : ev_normally_authenticated e = true ∧ ev_auth_material_copied e = false ∧
            ev_auth_still_valid_after_reopen e = true;
  pr_live : ev_pre_close_generating e = true ∧ ev_close_while_live_confirmed e = true;
  pr_completed : ev_background_progress_observed e = true ∧
                 ev_completion_evidence_after_reopen e = true;
  pr_same_page : ev_same_conversation_after_reopen e = true ∧
                 ev_duplicate_turn_observed e = false;
  pr_advanced : ∃ s1 s2, ev_pre_close_signature e = Some s1 ∧
                 ev_post_reopen_signature e = Some s2 ∧ s1 ≠ s2;
}.

(** What it says of the tool that was running. *)
Definition proven_tool (e : PageCloseEvidence) : Prop :=
  ev_tool_execution_observed e = true ∧ ev_tool_job_identity_confirmed e = true ∧
  ev_tool_running_at_close e = true ∧ ev_tool_completed_after_close e = true ∧
  ev_tool_final_response_after_reopen e = true.

(** The longest a record may last, whatever was asked for. *)
Definition ttl_bounded (ttl : float) : Prop :=
  fle (of_Z 60) ttl = true ∧ fle ttl (of_Z MAX_CAPABILITY_TTL_S) = true.

Lemma clamp_ttl_bounded ttl : ttl_bounded (clamp_ttl ttl).
Proof.
  unfold ttl_bounded, clamp_ttl, fmin, fmax. destruct (flt (of_Z 60) ttl) eqn:E.
  - destruct (flt ttl (of_Z MAX_CAPABILITY_TTL_S)) eqn:F; [by auto with lws|by split; vm_compute].
  - by split; vm_compute.
Qed.

Lemma isolation_of_value e s d w :
  _isolation_checks e = (s, d, w) → d || w = true →
  (ev_isolation_mode e = "dedicated_profile" ∧ ev_disposable_profile e = true) ∨
  (ev_isolation_mode e = "existing_profile_disposable_window" ∧
   ev_exact_window_binding_confirmed e = true ∧
   ev_current_user_conversation_excluded e = true).
Proof.
  unfold _isolation_checks. destruct (PageIsolationMode.of_value _) as [m|] eqn:Em; intros [= <- <- <-];
    [|done].
  apply next_where_Some in Em as [_ Em%String.eqb_eq]. rewrite <- Em.
  intros [H|H]%orb_true_iff; bool_to_prop; subst m; auto.
Qed.

(** ** The version of the browser *)

(** Whether a path is a file, and what reading its product version gives: the exit code and
    the text, or the error of the call. *)
Class ChromeFile := {
  chrome_is_file : string → bool;
  product_version : string → res (Z * string);
}.

Definition is_digit (a : ascii) : bool :=
  let n := nat_of_ascii a in Nat.leb 48 n && Nat.leb n 57.

(** The digits at the start of a text, and their value; versions are ASCII. *)
Fixpoint leading_digits (s : string) : string :=
  match s with
  | String a s' => if is_digit a then String a (leading_digits s') else EmptyString
  | EmptyString => EmptyString
  end.

Fixpoint digits_value (acc : Z) (s : string) : Z :=
  match s with
  | String a s' => digits_value (acc * 10 + (Z.of_nat (nat_of_ascii a) - 48)) s'
  | EmptyString => acc
  end.

Definition detect_chrome_major `{ChromeFile} (chrome_executable : string) : res Z :=
  raise_if (negb (str_truthy chrome_executable) || negb (chrome_is_file chrome_executable))
    CapabilityProvenanceError "Chrome executable is unavailable for version provenance";;
  '(returncode, stdout) ← product_version chrome_executable;
  raise_if (negb (returncode =? 0)) CapabilityProvenanceError
    "could not read local Chrome file version";;
  let digits := leading_digits (lstrip stdout) in
  raise_if (negb (str_truthy digits)) CapabilityProvenanceError
    "local Chrome file version is not parseable";;
  Ok (digits_value 0 digits).

Example chrome_major :
  detect_chrome_major (H := {| chrome_is_file _ := true; product_version _ := Ok (0, " 137.0.7151.69") |})
    "chrome.exe" = Ok 137.
Proof. reflexivity. Qed.

Section Theorems.
Context {tables : UnicodeTables} {check : NetlocCheck} {digests : Digests}.

Lemma generation_checks_proven e checks :
  generation_checks e = Ok checks → forallb snd checks = true → proven_close e.
Proof.
  unfold generation_checks. destruct (_isolation_checks e) as [[s d] w] eqn:Ei. intros H.
  apply bind_Ok_inv in H as (pre & _ & H). apply bind_Ok_inv in H as (post & _ & [= <-]).
  cbn [forallb snd]. intros H. rewrite !andb_true_r in H. repeat (apply andb_true_iff in H as [? H]).
  bool_to_prop. constructor; auto.
  - by eapply isolation_of_value.
  - destruct (ev_pre_close_signature e) as [s1|], (ev_post_reopen_signature e) as [s2|]; try done.
    exists s1, s2. split_and!; congruence.
Qed.

(** The steps of an import. *)
Lemma build_inv e ttl rec caps :
  build_page_close_capabilities e ttl rec = Ok caps →
  ∃ evaluation t context,
    evaluate_page_close_evidence e = Ok evaluation ∧
    pe_generation_parking_safe evaluation = true ∧
    ev_observed_at e = Some t ∧ fle t (of_Z 0) = false ∧
    context_from_evidence e = Ok context ∧ flt (fadd rec (of_Z 30)) t = false ∧
    caps = capability_record e evaluation context t rec (clamp_ttl ttl) <$>
      PageCapabilityKind.GENERATION ::
      (if pe_tool_execution_parking_safe evaluation then [PageCapabilityKind.TOOL_EXECUTION] else []).
Proof.
  unfold build_page_close_capabilities. intros H.
  apply bind_Ok_inv in H as (ev & Hev & H). apply raise_if_then in H as [Hg%negb_false_iff H].
  apply bind_Ok_inv in H as (t & Ht & H). destruct (ev_observed_at e) as [t'|]; [|done].
  apply raise_if_then in Ht as [Hpos [= ->]].
  apply bind_Ok_inv in H as (ctx & Hctx & H). apply raise_if_then in H as [Hfut [= <-]].
  by exists ev, t, ctx.
Qed.

Lemma evaluation_proven e evaluation :
  evaluate_page_close_evidence e = Ok evaluation → pe_generation_parking_safe evaluation = true →
  proven_close e ∧ (pe_tool_execution_parking_safe evaluation = true → proven_tool e).
Proof.
  unfold evaluate_page_close_evidence. intros H. apply bind_Ok_inv in H as (cs & Hcs & [= <-]).
  cbn. rewrite !no_failures_iff. intros Hg. split; [by eapply generation_checks_proven|].
  intros Ht. unfold tool_checks in Ht. cbn in Ht. rewrite andb_true_r in Ht.
  bool_to_prop. by split_and!.
Qed.

Lemma built_record e ttl rec caps c :
  build_page_close_capabilities e ttl rec = Ok caps → c ∈ caps →
  ∃ t context, ev_observed_at e = Some t ∧ context_from_evidence e = Ok context ∧
    fle t (of_Z 0) = false ∧ flt (fadd rec (of_Z 30)) t = false ∧
    proven_close e ∧ (pc_kind c = PageCapabilityKind.TOOL_EXECUTION → proven_tool e) ∧
    pc_evaluator_version c = PAGE_CLOSE_EVALUATOR_VERSION ∧
    mkCapabilityContext (pc_scope_host c) (pc_browser_family c) (pc_browser_major c)
      (pc_platform c) (pc_surface c) = context ∧
    pc_observed_at c = t ∧ pc_expires_at c = fadd t (clamp_ttl ttl).
Proof.
  intros (ev & t & ctx & Hev & Hg & Ht & Hpos & Hctx & Hfut & ->)%build_inv Hc.
  destruct (evaluation_proven e ev Hev Hg) as [Hp Hpt].
  apply list_elem_of_fmap in Hc as (kind & -> & Hk). exists t, ctx. split_and!; try done.
  - cbn. intros ->. apply Hpt. apply elem_of_cons in Hk as [?|Hk]; [done|].
    destruct (pe_tool_execution_parking_safe ev); [done|by apply not_elem_of_nil in Hk].
  - by destruct ctx.
Qed.

(** A capability that covers a running browser is proven and current: the experiment it
    comes from closed a generating page in an isolated, normally authenticated browser and
    saw it complete without a duplicate turn (and, for a tool capability, saw the tool
    finish); the browser has the version of the experiment, whose host and surface it
    shares; and the time is between the experiment and an expiry at most seven days after. *)
Theorem covering_capability_is_proven e ttl rec caps c context kind now blockers :
  build_page_close_capabilities e ttl rec = Ok caps → c ∈ caps →
  capability_matches_context c context kind now = (true, blockers) →
  blockers = [] ∧ proven_close e ∧ (kind = PageCapabilityKind.TOOL_EXECUTION → proven_tool e) ∧
  ∃ t own d, ev_observed_at e = Some t ∧ context_from_evidence e = Ok own ∧ ttl_bounded d ∧
    lower (cc_scope_host own) = lower (cc_scope_host context) ∧
    cc_browser_major own = cc_browser_major context ∧
    lower (cc_surface own) = lower (cc_surface context) ∧
    fle t now = true ∧ flt now (fadd t d) = true.
Proof.
  intros Hb Hc Hm.
  destruct (built_record e ttl rec caps c Hb Hc)
    as (t & own & Ht & Hown & _ & _ & Hp & Hpt & _ & <- & Hobs & Hexp).
  unfold capability_matches_context in Hm. injection Hm as Hok <-.
  pose proof Hok as Hall. rewrite no_failures_iff in Hall. cbn in Hall.
  unfold capability_is_fresh in Hall. rewrite Hobs, Hexp in Hall.
  bool_to_prop. split_and!; try done.
  - unfold no_failures in Hok. by destruct (failed_names _).
  - intros ->. auto.
  - eexists t, _, (clamp_ttl ttl). split; [done|]. split; [exact Hown|].
    split; [apply clamp_ttl_bounded|]. split_and!; try done; by apply String.eqb_eq.
Qed.

(** An import that succeeds yields a generation record, and each of its records covers
    the browser of the experiment exactly during its lifetime. *)
Theorem imported_capability_covers_its_browser e ttl rec caps :
  build_page_close_capabilities e ttl rec = Ok caps →
  (∃ c, c ∈ caps ∧ pc_kind c = PageCapabilityKind.GENERATION) ∧
  ∃ own, context_from_evidence e = Ok own ∧
    ∀ c now, c ∈ caps →
      (capability_matches_context c own (pc_kind c) now).1 =
      fle (pc_observed_at c) now && flt now (pc_expires_at c).
Proof.
  intros Hb. pose proof Hb as (ev & t & own & _ & _ & _ & _ & Hown & _ & ->)%build_inv.
  split.
  { eexists. split; [apply list_elem_of_fmap_2, list_elem_of_here|done]. }
  exists own. split; [done|]. intros c now Hc.
  destruct (built_record e ttl rec _ c Hb Hc) as (t' & own' & _ & Hown' & _ & _ & _ & _ & Hv & Hctx & _).
  assert (own' = own) as -> by congruence. unfold capability_matches_context. cbn [fst].
  rewrite no_failures_iff. rewrite <- Hctx. cbn [context_checks forallb snd cc_scope_host
    cc_browser_family cc_browser_major cc_platform cc_surface].
  rewrite Hv, !String.eqb_refl, Z.eqb_refl, bool_decide_eq_true_2 by done.
  cbn. by rewrite andb_true_r.
Qed.

End Theorems.

(** ** Witnesses *)

#[local] Existing Instance AsciiTables.
#[local] Existing Instance any_netloc.
#[local] Existing Instance text_digests.

(** An experiment on a dedicated profile, without a tool. *)
Definition demo_evidence : PageCloseEvidence :=
  mkPageCloseEvidence "exp1" true true false "https://Chat.example/c/1" "https://chat.example/c/1/"
    true true true true true false true (Some "sig1") (Some "sig2") [] "dedicated_profile"
    false false false false false false false (Some (of_Z 1000)) None (Some "Chrome") (Some 126)
    (Some "Win32") (Some "normal_chrome_uia").

Definition demo_capabilities : list PageCapabilityRecord :=
  match build_page_close_capabilities demo_evidence (of_Z 10) (of_Z 1005) with
  | Ok caps => caps
  | Err _ => []
  end.

Example demo_capabilities_kinds :
  pc_kind <$> demo_capabilities = [PageCapabilityKind.GENERATION] ∧
  pc_expires_at <$> demo_capabilities = [of_Z 1060].
Proof. by vm_compute. Qed.

Definition demo_capability : PageCapabilityRecord :=
  nth 0 demo_capabilities (capability_record demo_evidence
    (mkPageCloseEvaluation "" false false false [] [] [] [] "")
    (mkCapabilityContext "" "" 0 "" "") (of_Z 0) (of_Z 0) (of_Z 0) PageCapabilityKind.GENERATION).

Lemma demo_capabilities_one : demo_capability ∈ demo_capabilities.
Proof.
  assert (demo_capabilities = [demo_capability]) as -> by (vm_compute; reflexivity).
  apply list_elem_of_here.
Qed.

Definition demo_context : CapabilityContext :=
  mkCapabilityContext "chat.example" "chrome" 126 "windows" "normal_chrome_uia".

Lemma covering_capability_is_proven_witness : proven_close demo_evidence.
Proof.
  destruct (covering_capability_is_proven demo_evidence (of_Z 10) (of_Z 1005) demo_capabilities
    demo_capability demo_context PageCapabilityKind.GENERATION (of_Z 1059) []) as (_ & H & _).
  - vm_compute. reflexivity.
  - exact demo_capabilities_one.
  - vm_compute. reflexivity.
  - exact H.
Defined.

Lemma imported_capability_covers_its_browser_witness :
  ∃ own, context_from_evidence demo_evidence = Ok own ∧
    (capability_matches_context demo_capability own PageCapabilityKind.GENERATION (of_Z 1060)).1
      = false.
Proof.
  destruct (imported_capability_covers_its_browser demo_evidence (of_Z 10) (of_Z 1005)
    demo_capabilities) as (_ & own & Hown & H).
  - vm_compute. reflexivity.
  - exists own. split; [exact Hown|].
    assert (pc_kind demo_capability = PageCapabilityKind.GENERATION) as <-
      by (vm_compute; reflexivity).
    rewrite (H demo_capability (of_Z 1060) demo_capabilities_one). vm_compute. reflexivity.
Defined.
