(* ===== verification/Orchestration.v ===== *)
(** * orchestration.py: the advisory scheduling policy

    [evaluate_task] passes a task through the recovery gates in order: each gate records a
    named check and may return a decision, so the checks of a decision are those of the
    gates up to the one that returned.  [plan_orchestration] evaluates a batch and selects
    a bounded number of tasks by fairness. *)

From S2P Require Import Prelude PyFloat PyStr PyJson Models ProbeOps Reconcile Actions.
From S2P Require Import Registry Dispatcher Capabilities.

Open Scope string_scope.
Open Scope Z_scope.
Open Scope list_scope.

Module OrchestrationDecisionKind.

Inductive t := OBSERVE | RECONCILE | RECOMMEND_ACTION | WAIT_COOLDOWN | BLOCKED_HUMAN.

#[global] Instance t_eq_dec : EqDecision t.
Proof. solve_decision. Defined.

Definition value (k : t) : string :=
  match k with
  | OBSERVE => "observe"
  | RECONCILE => "reconcile"
  | RECOMMEND_ACTION => "recommend-action"
  | WAIT_COOLDOWN => "wait/cooldown"
  | BLOCKED_HUMAN => "blocked/human"
  end.

End OrchestrationDecisionKind.

Record OrchestrationPolicy := mkOrchestrationPolicy {
  op_max_lsm_observation_age_s : float;
  op_max_workspace_observation_age_s : float;
  op_max_reconciliation_age_s : float;
  op_min_reconciliation_separation_s : float;
  op_recovery_cooldown_s : float;
  op_base_backoff_s : float;
  op_max_backoff_s : float;
  op_max_selected_tasks : Z;
}.

Definition default_orchestration_policy : OrchestrationPolicy :=
  mkOrchestrationPolicy (of_Z 30) (of_Z 30) (of_Z 120) (of_Z 3) (of_Z 60) (of_Z 5) (of_Z 60) 1.

Record TaskOrchestrationInput := mkTaskOrchestrationInput {
  oi_task : TaskRecord;
  oi_assessment : Assessment;
  oi_worker : option WorkerRecord;
  oi_lsm : option LsmObservation;
  oi_workspace : option WorkspaceObservation;
  oi_previous_reconciliation : option ReconciliationRecord;
  oi_current_reconciliation : option ReconciliationRecord;
  oi_unresolved_action : option ActionAttempt;
  oi_unresolved_probe_mutation : option ProbeMutationOperation;
  oi_worker_lease_expires_at : option float;
  oi_last_recovery_at : option float;
  oi_last_scheduled_at : option float;
  oi_consecutive_waits : Z;
  oi_requires_exact_window_binding : bool;
  oi_window_binding : option WorkerWindowBinding;
  oi_page_continuity_relevant : bool;
  oi_page_capability : option PageCapabilityRecord;
  oi_capability_context : option CapabilityContext;
  oi_page_capability_kind : PageCapabilityKind.t;
  oi_reconcile_blockers : list string;
  oi_human_blockers : list string;
  oi_scheduling_history_known : bool;
}.

Record OrchestrationDecision := mkOrchestrationDecision {
  od_task_id : string;
  od_kind : OrchestrationDecisionKind.t;
  od_reason : string;
  od_selected : bool;
  od_retry_after_s : option float;
  od_checks : list (string * bool);
  od_blockers : list string;
  od_deferred_kind : option OrchestrationDecisionKind.t;
  od_mutation_allowed : bool;
}.

#[export] Instance eta_OrchestrationDecision : Eta OrchestrationDecision := λ r,
  mkOrchestrationDecision (od_task_id r) (od_kind r) (od_reason r) (od_selected r)
    (od_retry_after_s r) (od_checks r) (od_blockers r) (od_deferred_kind r)
    (od_mutation_allowed r).

Definition oi_id (item : TaskOrchestrationInput) : string := tr_task_id (oi_task item).

(** [_RECOVERY_STATES] *)
Definition recovery_state (s : SupervisorState.t) : bool :=
  bool_decide (s ∈ [SupervisorState.SUSPECT; SupervisorState.RECONCILING;
                    SupervisorState.RECOVERING]).

(** [state in {s.value for s in _RECOVERY_STATES}] *)
Definition recovery_value (s : string) : bool :=
  existsb (String.eqb s) (SupervisorState.value <$>
    [SupervisorState.SUSPECT; SupervisorState.RECONCILING; SupervisorState.RECOVERING]).

Definition _age_is_fresh (observed_at now max_age_s : float) : bool :=
  fle (of_Z 0) (fsub now observed_at) &&
  fle (fsub now observed_at) (fmax (of_Z 1) max_age_s).

Definition backoff_floor : float := of_dec 1 1.

Definition _bounded_backoff (policy : OrchestrationPolicy) (consecutive_waits : Z) : float :=
  let base := fmax backoff_floor (op_base_backoff_s policy) in
  let maximum := fmax base (op_max_backoff_s policy) in
  let exponent := Z.min 16 (Z.max 0 consecutive_waits) in
  fmin maximum (fmul base (of_Z (2 ^ exponent))).

Definition _decision (item : TaskOrchestrationInput) (kind : OrchestrationDecisionKind.t)
    (reason : string) (checks : list (string * bool)) (blockers : list string)
    (retry_after_s : option float) : OrchestrationDecision :=
  mkOrchestrationDecision (oi_id item) kind reason false retry_after_s checks blockers None false.

(** ** Gates *)

(** What a gate returns: the checks it records, then its decision or nothing. *)
Record verdict := mkVerdict {
  v_kind : OrchestrationDecisionKind.t;
  v_reason : string;
  v_blockers : list string;
  v_retry : option float;
}.

Definition gate : Type := list (string * bool) * option verdict.

(** [if b: return _decision(...)], no check. *)
Definition return_if (b : bool) (v : verdict) : gate := ([], if b then Some v else None).

(** Record the checks, and return unless they all hold. *)
Definition require (checks : list (string * bool)) (v : verdict) : gate :=
  (checks, if forallb snd checks then None else Some v).

(** Run the gates in order, accumulating the checks. *)
Fixpoint run_gates (checks : list (string * bool)) (gates : list gate)
    : list (string * bool) * option verdict :=
  match gates with
  | [] => (checks, None)
  | (cs, Some v) :: _ => (checks ++ cs, Some v)
  | (cs, None) :: gates' => run_gates (checks ++ cs) gates'
  end.

Section Evaluate.
Context {tables : UnicodeTables} {fmt : Formatting}.
Context (item : TaskOrchestrationInput) (now : float) (policy : OrchestrationPolicy).

Let task := oi_task item.
Let assessment := oi_assessment item.
Let backoff : option float := Some (_bounded_backoff policy (oi_consecutive_waits item)).

Definition task_in (states : list SupervisorState.t) : bool :=
  bool_decide (tr_state task ∈ states).

Definition assessed_in (states : list SupervisorState.t) : bool :=
  bool_decide (as_state assessment ∈ states).

Definition observe (reason : string) (retry : option float) : verdict :=
  mkVerdict OrchestrationDecisionKind.OBSERVE reason [] retry.
Definition reconcile (reason : string) : verdict :=
  mkVerdict OrchestrationDecisionKind.RECONCILE reason [] backoff.
Definition blocked_human (reason : string) (blockers : list string) : verdict :=
  mkVerdict OrchestrationDecisionKind.BLOCKED_HUMAN reason blockers None.

(** The durable state and the assessment. *)
Definition state_gates : list gate :=
  [return_if (task_in [SupervisorState.BLOCKED; SupervisorState.NEEDS_HUMAN])
     (blocked_human ("durable task state " +:+ SupervisorState.value (tr_state task) +:+
                     " requires explicit human resolution") []);
   return_if (assessed_in [SupervisorState.BLOCKED; SupervisorState.NEEDS_HUMAN])
     (blocked_human ("current assessment " +:+ SupervisorState.value (as_state assessment) +:+
                     " requires explicit human resolution") []);
   return_if (task_in [SupervisorState.COMPLETED; SupervisorState.ABANDONED] ||
              assessed_in [SupervisorState.COMPLETED; SupervisorState.ABANDONED])
     (observe "task is terminal; no recovery scheduling is appropriate" None);
   return_if (assessed_in [SupervisorState.RUNNING; SupervisorState.STARTING;
                           SupervisorState.QUEUED])
     (observe "current assessment still indicates live or not-yet-stalled work" backoff);
   return_if (negb (recovery_state (tr_state task)) &&
              negb (recovery_state (as_state assessment)))
     (observe "task is not in a recovery-eligible state" backoff)].

(** Unresolved side effects, the budget and the blockers of the caller. *)
Definition effect_gates : list gate :=
  [match oi_unresolved_probe_mutation item with
   | Some o =>
       require [("no_unresolved_probe_mutation", negb (unresolved_state (po_state o)))]
         (blocked_human "a global probe-window mutation outcome is unresolved; do not overlap recovery mutation"
            ["unresolved probe mutation " +:+ po_operation_id o +:+ " is " +:+
             ProbeMutationState.value (po_state o)])
   | None => ([("no_unresolved_probe_mutation", true)], None)
   end;
   match oi_unresolved_action item with
   | Some a =>
       require [("no_unresolved_action_attempt", negb (action_unresolved a))]
         (blocked_human "a prior external action outcome is unresolved; never replay an ambiguous action"
            ["unresolved action attempt " +:+ aa_attempt_id a +:+ " is " +:+
             ActionAttemptState.value (aa_state a)])
   | None => ([("no_unresolved_action_attempt", true)], None)
   end;
   require [("recovery_budget_available",
              tr_recovery_attempts task <? tr_max_recovery_attempts task)]
     (blocked_human "recovery budget is exhausted" ["recovery-attempt budget exhausted"]);
   require [("no_external_human_blockers", bool_decide (oi_human_blockers item = []))]
     (blocked_human "external durable evidence requires explicit human resolution"
        (oi_human_blockers item));
   require [("no_external_reconcile_blockers", bool_decide (oi_reconcile_blockers item = []))]
     (mkVerdict OrchestrationDecisionKind.RECONCILE
        "external durable evidence must be reconciled before recovery"
        (oi_reconcile_blockers item) backoff)].

(** The durable LSM session. *)
Definition session_gates : list gate :=
  match oi_lsm item with
  | Some l =>
      let quiet := (lo_in_flight_calls l =? 0) && (lo_active_jobs l =? 0) in
      let pending := default false (lo_continuation_pending l) in
      [require [("lsm_present", String.eqb (lo_task_id l) (tr_task_id task) &&
                                bool_decide (lo_session_id l = tr_lsm_session_id task))]
         (reconcile "durable LSM session evidence is missing or belongs to another session");
       require [("lsm_fresh",
                  _age_is_fresh (lo_observed_at l) now (op_max_lsm_observation_age_s policy))]
         (reconcile "LSM evidence is stale; refresh durable runtime state before recovery");
       return_if (bool_decide (lo_session_status l = Some "completed") ||
                  bool_decide (lo_session_status l = Some "cancelled"))
         (observe ("durable LSM session is already " +:+ default "" (lo_session_status l)) None);
       return_if (bool_decide (lo_plan_status l = Some "blocked"))
         (blocked_human "durable Goal plan is blocked" []);
       ([("lsm_no_inflight_calls", lo_in_flight_calls l =? 0);
         ("lsm_no_active_jobs", lo_active_jobs l =? 0);
         ("lsm_no_continuation_pending", negb pending)],
        if negb quiet then
          Some (observe "durable Local Shell work is still active; do not compete with it" backoff)
        else if pending then
          Some (observe "LSM continuation is already pending; supervisor must not race it" backoff)
        else None)]
  | None =>
      [require [("lsm_present", false)]
         (reconcile "durable LSM session evidence is missing or belongs to another session")]
  end.

Definition folder (path : string) : string := casefold (rstrip_slash (slashes path)).

Definition checkpoint_head_matches (w : WorkspaceObservation) : bool :=
  let head := dget "git_head" (tr_checkpoint task) in
  negb (jtruthy head) || bool_decide (wo_git_head w = Some (json_str head)).

Definition workspace_gates : list gate :=
  match oi_workspace item with
  | None => [require [("workspace_present", false)] (reconcile "workspace/Git evidence is missing")]
  | Some w =>
      [([("workspace_present", true)], None);
       require [("workspace_task_matches", String.eqb (wo_task_id w) (tr_task_id task));
                ("workspace_cwd_matches",
                  String.eqb (folder (wo_cwd w)) (folder (tr_cwd task)))]
         (reconcile "workspace evidence belongs to a different task or working directory");
       require [("workspace_fresh",
                  _age_is_fresh (wo_observed_at w) now (op_max_workspace_observation_age_s policy))]
         (reconcile "workspace/Git evidence is stale");
       require [("workspace_exists", wo_cwd_exists w)]
         (blocked_human "registered workspace no longer exists" []);
       require [("workspace_probe_clean", bool_decide (wo_error w = None))]
         (reconcile "workspace/Git probe reported an error");
       require [("checkpoint_git_head_matches", checkpoint_head_matches w)]
         (reconcile "Git HEAD changed relative to the durable task checkpoint")]
  end.

Definition lease_gate : gate :=
  let worker_is p := match oi_worker item with Some w => p w | None => false end in
  require
    [("worker_present", bool_decide (is_Some (oi_worker item)));
     ("worker_is_current", worker_is (λ w,
        opt_truthy (tr_current_worker_id task) &&
        bool_decide (tr_current_worker_id task = Some (wr_worker_id w)) &&
        String.eqb (wr_task_id w) (tr_task_id task)));
     ("worker_active", worker_is (λ w, bool_decide (wr_status w = WorkerStatus.ACTIVE)));
     ("worker_lease_fresh",
       match oi_worker_lease_expires_at item with Some t => flt now t | None => false end)]
    (reconcile "current worker lease is missing, stale, or no longer owns the task").

Definition cooldown_gate : gate :=
  match oi_last_recovery_at item with
  | None => ([("recovery_cooldown_elapsed", true)], None)
  | Some last =>
      let elapsed := fsub now last in
      if flt elapsed (of_Z 0)
      then ([], Some (reconcile "recorded recovery timestamp is in the future"))
      else
        let remaining := fmax (of_Z 0) (fsub (op_recovery_cooldown_s policy) elapsed) in
        ([("recovery_cooldown_elapsed", fle remaining (of_Z 0))],
         if flt (of_Z 0) remaining then
           Some (mkVerdict OrchestrationDecisionKind.WAIT_COOLDOWN
                   "recovery cooldown has not elapsed" []
                   (Some (fmin remaining (fmax backoff_floor (op_max_backoff_s policy)))))
         else None)
  end.

Definition sample_gates : list gate :=
  let previous := oi_previous_reconciliation item in
  let current := oi_current_reconciliation item in
  [require [("previous_reconciliation_present", bool_decide (is_Some previous));
            ("current_reconciliation_present", bool_decide (is_Some current))]
     (reconcile "two semantic reconciliation samples are required before recovery")] ++
  match previous, current with
  | Some p, Some c =>
      [require
         [("distinct_reconciliation_samples",
            negb (String.eqb (rc_reconcile_id p) (rc_reconcile_id c)));
          ("previous_reconciliation_fresh",
            _age_is_fresh (rc_created_at p) now (op_max_reconciliation_age_s policy));
          ("current_reconciliation_fresh",
            _age_is_fresh (rc_created_at c) now (op_max_reconciliation_age_s policy));
          ("reconciliation_separation_sufficient",
            fle (fmax (of_Z 0) (op_min_reconciliation_separation_s policy))
                (fsub (rc_created_at c) (rc_created_at p)));
          ("reconciliation_fence_stable", fence_matches p c);
          ("reconciliation_task_matches",
            String.eqb (rc_task_id p) (tr_task_id task) &&
            String.eqb (rc_task_id c) (tr_task_id task));
          ("reconciliation_worker_matches",
            bool_decide (rc_current_worker_id c = tr_current_worker_id task) &&
            bool_decide (rc_current_worker_id p = tr_current_worker_id task));
          ("reconciliation_state_recovery_eligible",
            recovery_value (rc_state p) && recovery_value (rc_state c) &&
            rc_requires_reconcile p && rc_requires_reconcile c)]
         (reconcile "semantic reconciliation is not yet stable and fresh across two samples")]
  | _, _ => []
  end.

Definition window_gate : gate :=
  let bound p := match oi_window_binding item, oi_worker item with
                 | Some b, Some w => p b w
                 | _, _ => false
                 end in
  if oi_requires_exact_window_binding item then
    require
      [("window_binding_present", bool_decide (is_Some (oi_window_binding item)));
       ("window_binding_current_worker", bound (λ b w,
          String.eqb (wb_worker_id b) (wr_worker_id w)));
       ("window_binding_fresh",
         match oi_window_binding item with Some b => window_is_fresh b now | None => false end);
       ("window_binding_url_matches", bound (λ b w,
          String.eqb (wb_conversation_url b) (wr_conversation_url w)))]
      (reconcile "exact-window binding is missing or stale for the current worker")
  else ([], None).

Definition capability_gate : gate :=
  if oi_page_continuity_relevant item then
    match oi_page_capability item, oi_capability_context item with
    | Some c, Some context =>
        let '(ok, blockers) :=
          capability_matches_context c context (oi_page_capability_kind item) now in
        ([("page_capability_present", true); ("page_capability_matches_runtime", ok)],
         if ok then None
         else Some (blocked_human "page-continuity capability provenance is stale or mismatched"
                      ((λ name, "page capability check failed: " +:+ name) <$> blockers)))
    | _, _ =>
        require [("page_capability_present", false)]
          (blocked_human "page-continuity behavior lacks durable capability provenance"
             ["a dedicated accepted page-close/reopen experiment is required"])
    end
  else ([], None).

(** Every gate of [evaluate_task], in the order of the code. *)
Definition all_gates : list gate :=
  state_gates ++ effect_gates ++ session_gates ++ workspace_gates ++ [lease_gate; cooldown_gate] ++
  sample_gates ++ [window_gate; capability_gate].

Definition evaluate_task : OrchestrationDecision :=
  match run_gates [] all_gates with
  | (checks, Some v) => _decision item (v_kind v) (v_reason v) checks (v_blockers v) (v_retry v)
  | (checks, None) =>
      _decision item OrchestrationDecisionKind.RECOMMEND_ACTION
        "all deterministic recovery gates are satisfied; surface an explicit action recommendation only"
        checks [] None
  end.

End Evaluate.

(** ** The batch *)

(** [_FAIRNESS_STATE_RANK.get(state, 99)] *)
Definition fairness_rank (s : SupervisorState.t) : Z :=
  match s with
  | SupervisorState.RECOVERING => 0
  | SupervisorState.RECONCILING => 1
  | SupervisorState.SUSPECT => 2
  | _ => 99
  end.

Definition _fairness_key (item : TaskOrchestrationInput) : float * Z * string :=
  (default (tr_created_at (oi_task item)) (oi_last_scheduled_at item),
   fairness_rank (tr_state (oi_task item)), oi_id item).

(** [a < b] on the tuples: the first components that differ decide. *)
Definition fairness_lt (a b : float * Z * string) : bool :=
  let '(t1, r1, s1) := a in
  let '(t2, r2, s2) := b in
  if feq t1 t2 then
    if r1 =? r2 then
      if String.eqb s1 s2 then false else String.leb s1 s2
    else r1 <? r2
  else flt t1 t2.

Definition actionable_kind (k : OrchestrationDecisionKind.t) : bool :=
  match k with
  | OrchestrationDecisionKind.RECONCILE | OrchestrationDecisionKind.RECOMMEND_ACTION => true
  | _ => false
  end.

(** [unique_items] keeps the first input of a task; [duplicate_ids] are the others' tasks. *)
Definition collect (acc : gmap string TaskOrchestrationInput * gset string)
    (item : TaskOrchestrationInput) : gmap string TaskOrchestrationInput * gset string :=
  let '(unique, duplicates) := acc in
  match unique !! oi_id item with
  | Some _ => (unique, {[oi_id item]} ∪ duplicates)
  | None => (<[oi_id item := item]> unique, duplicates)
  end.

(** One input per task, in the order of the task ids. *)
Definition canonical_items (unique : gmap string TaskOrchestrationInput)
    : list TaskOrchestrationInput := select (λ _, true) unique.

Definition duplicate_decision (d : OrchestrationDecision) : OrchestrationDecision :=
  d <| od_kind := OrchestrationDecisionKind.RECONCILE |>
    <| od_reason := "duplicate orchestration inputs exist for one durable task; reconcile caller state" |>
    <| od_selected := false |>
    <| od_blockers := od_blockers d ++ ["duplicate durable task input"] |>
    <| od_mutation_allowed := false |>.

Definition unknown_history_decision (policy : OrchestrationPolicy) (d : OrchestrationDecision)
    : OrchestrationDecision :=
  d <| od_kind := OrchestrationDecisionKind.WAIT_COOLDOWN |>
    <| od_reason := "scheduler selection withheld because durable scheduling history is unavailable; supply it explicitly to the adapter" |>
    <| od_selected := false |>
    <| od_retry_after_s := Some (fmax backoff_floor (op_max_backoff_s policy)) |>
    <| od_deferred_kind := Some (od_kind d) |>
    <| od_blockers := od_blockers d ++ ["durable scheduling history unavailable"] |>.

Definition deferred_decision (policy : OrchestrationPolicy) (item : TaskOrchestrationInput)
    (d : OrchestrationDecision) : OrchestrationDecision :=
  d <| od_kind := OrchestrationDecisionKind.WAIT_COOLDOWN |>
    <| od_reason := "fairness slot deferred " +:+ OrchestrationDecisionKind.value (od_kind d) +:+
                    "; another recovery task has older scheduler service" |>
    <| od_selected := false |>
    <| od_retry_after_s := Some (_bounded_backoff policy (oi_consecutive_waits item)) |>
    <| od_deferred_kind := Some (od_kind d) |>.

Section Plan.
Context {tables : UnicodeTables} {fmt : Formatting}.
Context (now : float) (policy : OrchestrationPolicy).

(** The decision of a task before selection, with its input. *)
Definition evaluated (duplicates : gset string) (item : TaskOrchestrationInput)
    : TaskOrchestrationInput * OrchestrationDecision :=
  let d := evaluate_task item now policy in
  (item, if bool_decide (od_task_id d ∈ duplicates) then duplicate_decision d else d).

Definition is_actionable (x : TaskOrchestrationInput * OrchestrationDecision) : bool :=
  actionable_kind (od_kind x.2) && oi_scheduling_history_known x.1.

Definition history_unknown (x : TaskOrchestrationInput * OrchestrationDecision) : bool :=
  actionable_kind (od_kind x.2) && negb (oi_scheduling_history_known x.1).

(** The actionable inputs by fairness: [sort] is stable and orders by the key. *)
Definition fair_order (l : list (TaskOrchestrationInput * OrchestrationDecision))
    : list (TaskOrchestrationInput * OrchestrationDecision) :=
  py_sorted (λ x y, negb (fairness_lt (_fairness_key y.1) (_fairness_key x.1))) l.

Definition selected_ids (l : list (TaskOrchestrationInput * OrchestrationDecision))
    : list string :=
  (λ x, od_task_id x.2) <$>
    take (Z.to_nat (Z.max 0 (op_max_selected_tasks policy)))
      (fair_order (List.filter is_actionable l)).

(** The final decision of a task. *)
Definition settle (selected : list string)
    (x : TaskOrchestrationInput * OrchestrationDecision) : OrchestrationDecision :=
  let '(item, d) := x in
  if history_unknown x then unknown_history_decision policy d
  else if existsb (String.eqb (od_task_id d)) selected then d <| od_selected := true |>
  else if is_actionable x then deferred_decision policy item d
  else d.

Definition plan_orchestration (items : list TaskOrchestrationInput)
    : list OrchestrationDecision :=
  let '(unique, duplicates) := foldl collect (∅, ∅) items in
  let decisions := evaluated duplicates <$> canonical_items unique in
  settle (selected_ids decisions) <$> decisions.

End Plan.
