(* ===== verification/OrchestrationTheorems.v ===== *)
(** * The guarantees of the advisory scheduler

    A recommendation needs every gate; a plan has one decision per task, never enables a
    mutation, selects a bounded number of actionable tasks by fairness, and does not depend
    on the order of its inputs. *)

From S2P Require Import Prelude PyFloat PyStr PyUrl PyJson Models ProbeOps Reconcile Actions.
From S2P Require Import Registry Dispatcher Capabilities Orchestration.

Open Scope string_scope.
Open Scope Z_scope.
Open Scope list_scope.

(** ** Gates *)

Definition passes (g : gate) : Prop := g.2 = None.

Definition never_recommends (g : gate) : Prop :=
  ∀ v, g.2 = Some v → v_kind v ≠ OrchestrationDecisionKind.RECOMMEND_ACTION.

Lemma run_gates_None cs gates out :
  run_gates cs gates = (out, None) ↔
  Forall passes gates ∧ out = cs ++ concat (fst <$> gates).
Proof.
  revert cs. induction gates as [|[gs [v|]] gates IH]; intros cs; cbn.
  - rewrite app_nil_r. naive_solver.
  - split; [done|]. intros [H _]. by apply Forall_cons in H as [? _].
  - rewrite IH, Forall_cons, app_assoc. unfold passes. cbn. naive_solver.
Qed.

Lemma run_gates_Some cs gates out v :
  run_gates cs gates = (out, Some v) → ∃ g, g ∈ gates ∧ g.2 = Some v.
Proof.
  revert cs. induction gates as [|[gs [w|]] gates IH]; intros cs; cbn; [done|..].
  - intros [= _ ->]. eexists (gs, Some v). split; [by left|done].
  - intros (g & Hg & Hv)%IH. exists g. split; [by right|done].
Qed.

Lemma require_passes cs v : passes (require cs v) ↔ forallb snd cs = true.
Proof. unfold passes, require. cbn. by destruct (forallb snd cs). Qed.

Lemma return_if_passes b v : passes (return_if b v) ↔ b = false.
Proof. unfold passes, return_if. cbn. by destruct b. Qed.

Lemma never_require cs v :
  v_kind v ≠ OrchestrationDecisionKind.RECOMMEND_ACTION → never_recommends (require cs v).
Proof. intros H w. cbn. destruct (forallb snd cs); [done|]. by intros [= <-]. Qed.

Lemma never_return b v :
  v_kind v ≠ OrchestrationDecisionKind.RECOMMEND_ACTION → never_recommends (return_if b v).
Proof. intros H w. cbn. destruct b; [by intros [= <-]|done]. Qed.

Lemma never_pass cs : never_recommends (cs, None).
Proof. by intros v. Qed.

#[local] Hint Resolve never_require never_return never_pass : lws.
#[local] Hint Extern 1 (v_kind _ ≠ _) => discriminate : lws.

(** [max(0.0, x)] is zero when it is not positive. *)
Lemma clamped_zero x : flt (of_Z 0) (fmax (of_Z 0) x) = false → fle (fmax (of_Z 0) x) (of_Z 0) = true.
Proof. unfold fmax. destruct (flt (of_Z 0) x) eqn:E; [congruence|done]. Qed.

(** A passing gate has only true checks. *)
Definition honest (g : gate) : Prop := passes g → forallb snd g.1 = true.

Lemma honest_require cs v : honest (require cs v).
Proof. by intros H%require_passes. Qed.

Lemma honest_return b v : honest (return_if b v).
Proof. done. Qed.

#[local] Hint Resolve honest_require honest_return : lws.

Section Evaluate.
Context {tables : UnicodeTables} {fmt : Formatting}.
Context (item : TaskOrchestrationInput) (now : float) (policy : OrchestrationPolicy).

Ltac each_gate := repeat (apply Forall_cons; split); try apply Forall_nil; eauto with lws.

Lemma gates_never_recommend : Forall never_recommends (all_gates item now policy).
Proof.
  unfold all_gates. rewrite !Forall_app. split_and!.
  - unfold state_gates. each_gate.
  - unfold effect_gates. each_gate; case_match; eauto with lws.
  - unfold session_gates. case_match; each_gate. intros v. cbn. repeat case_match; naive_solver.
  - unfold workspace_gates. case_match; each_gate.
  - each_gate. intros v. unfold cooldown_gate. repeat case_match; cbn; naive_solver.
  - unfold sample_gates. rewrite Forall_app. split; [each_gate|]. repeat case_match; each_gate.
  - unfold window_gate, capability_gate. each_gate; repeat case_match; eauto with lws.
    intros v. cbn. naive_solver.
Qed.

Lemma gates_honest : Forall honest (all_gates item now policy).
Proof.
  unfold all_gates. rewrite !Forall_app. split_and!.
  - unfold state_gates. each_gate.
  - unfold effect_gates. each_gate; case_match; eauto with lws; done.
  - unfold session_gates. case_match; each_gate. unfold honest, passes. cbn.
    destruct (_ && _) eqn:E; [|done]. cbn. apply andb_true_iff in E as [-> ->].
    by destruct (lo_continuation_pending l) as [[]|].
  - unfold workspace_gates. case_match; each_gate. done.
  - each_gate. unfold honest, passes, cooldown_gate. case_match; [|done]. cbv zeta.
    destruct (flt (fsub now f) (of_Z 0)); [done|].
    destruct (flt (of_Z 0) (fmax _ _)) eqn:E; [done|]. intros _.
    cbn [fst forallb snd]. rewrite andb_true_r. by apply clamped_zero.
  - unfold sample_gates. rewrite Forall_app. split; [each_gate|]. repeat case_match; each_gate.
  - unfold window_gate, capability_gate. each_gate; repeat case_match; eauto with lws; try done.
Qed.

(** A recommendation is the passing of every gate. *)
Lemma recommend_iff :
  od_kind (evaluate_task item now policy) = OrchestrationDecisionKind.RECOMMEND_ACTION ↔
  Forall passes (all_gates item now policy).
Proof.
  unfold evaluate_task. destruct (run_gates [] _) as [cs [v|]] eqn:E.
  - cbn. split.
    + intros Hk. apply run_gates_Some in E as (g & Hg & Hv).
      by destruct (proj1 (Forall_forall _ _) gates_never_recommend g Hg v Hv).
    + intros H. assert (run_gates [] (all_gates item now policy) =
        (concat (fst <$> all_gates item now policy), None)) as E2 by by apply run_gates_None.
      congruence.
  - apply run_gates_None in E as [H _]. by split.
Qed.

End Evaluate.

(** ** What a recommendation rests on *)

Section Recommendation.
Context {tables : UnicodeTables} {fmt : Formatting}.
Context (item : TaskOrchestrationInput) (now : float) (policy : OrchestrationPolicy).

(** The facts of the world behind a recommendation. *)
Record recommendable : Prop := {
  ro_budget : tr_recovery_attempts (oi_task item) < tr_max_recovery_attempts (oi_task item);
  ro_action : ∀ a, oi_unresolved_action item = Some a → action_unresolved a = false;
  ro_probe : ∀ o, oi_unresolved_probe_mutation item = Some o → unresolved_state (po_state o) = false;
  ro_lsm : ∃ l, oi_lsm item = Some l ∧ lo_session_id l = tr_lsm_session_id (oi_task item) ∧
    lo_in_flight_calls l = 0 ∧ lo_active_jobs l = 0 ∧ lo_continuation_pending l ≠ Some true ∧
    _age_is_fresh (lo_observed_at l) now (op_max_lsm_observation_age_s policy) = true;
  ro_workspace : ∃ w, oi_workspace item = Some w ∧ wo_task_id w = oi_id item ∧
    wo_cwd_exists w = true ∧ wo_error w = None ∧
    _age_is_fresh (wo_observed_at w) now (op_max_workspace_observation_age_s policy) = true;
  ro_worker : ∃ w t, oi_worker item = Some w ∧ wr_status w = WorkerStatus.ACTIVE ∧
    tr_current_worker_id (oi_task item) = Some (wr_worker_id w) ∧
    oi_worker_lease_expires_at item = Some t ∧ flt now t = true;
  ro_cooldown : ∀ t, oi_last_recovery_at item = Some t →
    flt (of_Z 0) (fsub (op_recovery_cooldown_s policy) (fsub now t)) = false;
  ro_samples : ∃ p c, oi_previous_reconciliation item = Some p ∧
    oi_current_reconciliation item = Some c ∧ rc_reconcile_id p ≠ rc_reconcile_id c ∧
    fence_matches p c = true ∧ rc_task_id c = oi_id item ∧
    rc_current_worker_id c = tr_current_worker_id (oi_task item) ∧
    fle (fmax (of_Z 0) (op_min_reconciliation_separation_s policy))
        (fsub (rc_created_at c) (rc_created_at p)) = true;
}.

Ltac gates_pass H :=
  repeat match type of H with
  | Forall _ (_ :: _) => let H1 := fresh "G" in apply Forall_cons in H as [H1 H]
  end.

Lemma effects_pass :
  Forall passes (effect_gates item policy) →
  tr_recovery_attempts (oi_task item) < tr_max_recovery_attempts (oi_task item) ∧
  (∀ a, oi_unresolved_action item = Some a → action_unresolved a = false) ∧
  ∀ o, oi_unresolved_probe_mutation item = Some o → unresolved_state (po_state o) = false.
Proof.
  unfold effect_gates. intros H. gates_pass H. apply require_passes in G1. cbn in G1. bool_to_prop.
  split_and!; [lia|..].
  - intros a Ha. rewrite Ha in G0. apply require_passes in G0. cbn in G0. by bool_to_prop.
  - intros o Ho. rewrite Ho in G. apply require_passes in G. cbn in G. by bool_to_prop.
Qed.

Lemma session_pass :
  Forall passes (session_gates item now policy) →
  ∃ l, oi_lsm item = Some l ∧ lo_session_id l = tr_lsm_session_id (oi_task item) ∧
    lo_in_flight_calls l = 0 ∧ lo_active_jobs l = 0 ∧ lo_continuation_pending l ≠ Some true ∧
    _age_is_fresh (lo_observed_at l) now (op_max_lsm_observation_age_s policy) = true.
Proof.
  unfold session_gates. destruct (oi_lsm item) as [l|]; intros H; gates_pass H;
    [|by apply require_passes in G].
  apply require_passes in G, G0. cbn in G, G0. unfold passes in G3. cbn in G3.
  destruct (_ && _) eqn:Hq in G3; [|done]. cbn in G3.
  exists l. bool_to_prop. split_and!; try done.
  intros Hp. by rewrite Hp in G3.
Qed.

Lemma workspace_pass :
  Forall passes (workspace_gates item now policy) →
  ∃ w, oi_workspace item = Some w ∧ wo_task_id w = oi_id item ∧
    wo_cwd_exists w = true ∧ wo_error w = None ∧
    _age_is_fresh (wo_observed_at w) now (op_max_workspace_observation_age_s policy) = true.
Proof.
  unfold workspace_gates. destruct (oi_workspace item) as [w|]; intros H; gates_pass H;
    [|by apply require_passes in G].
  apply require_passes in G0, G1, G2, G3. cbn in G0, G1, G2, G3. exists w. bool_to_prop.
  rewrite String.eqb_eq in *. by split_and!.
Qed.

Lemma lease_pass :
  passes (lease_gate item now policy) →
  ∃ w t, oi_worker item = Some w ∧ wr_status w = WorkerStatus.ACTIVE ∧
    tr_current_worker_id (oi_task item) = Some (wr_worker_id w) ∧
    oi_worker_lease_expires_at item = Some t ∧ flt now t = true.
Proof.
  intros G%require_passes. cbn in G. destruct (oi_worker item) as [w|]; [|by bool_to_prop].
  destruct (oi_worker_lease_expires_at item) as [t|]; bool_to_prop; [|done].
  exists w, t. by split_and!.
Qed.

Lemma cooldown_pass :
  passes (cooldown_gate item now policy) → ∀ t, oi_last_recovery_at item = Some t →
  flt (of_Z 0) (fsub (op_recovery_cooldown_s policy) (fsub now t)) = false.
Proof.
  unfold passes, cooldown_gate. intros H t Ht. rewrite Ht in H. cbv zeta in H.
  destruct (flt (fsub now t) (of_Z 0)); [done|].
  unfold fmax in H. destruct (flt (of_Z 0) (fsub _ _)) eqn:E; [|done]. by rewrite E in H.
Qed.

Lemma samples_pass :
  Forall passes (sample_gates item now policy) →
  ∃ p c, oi_previous_reconciliation item = Some p ∧
    oi_current_reconciliation item = Some c ∧ rc_reconcile_id p ≠ rc_reconcile_id c ∧
    fence_matches p c = true ∧ rc_task_id c = oi_id item ∧
    rc_current_worker_id c = tr_current_worker_id (oi_task item) ∧
    fle (fmax (of_Z 0) (op_min_reconciliation_separation_s policy))
        (fsub (rc_created_at c) (rc_created_at p)) = true.
Proof.
  unfold sample_gates. cbv zeta. intros [H1 H2]%Forall_app. gates_pass H1.
  apply require_passes in G. cbn in G. bool_to_prop.
  destruct (oi_previous_reconciliation item) as [p|]; [|by destruct H as [? ?]].
  destruct (oi_current_reconciliation item) as [c|];
    [|by match goal with H : is_Some None |- _ => destruct H end].
  gates_pass H2. apply require_passes in G. cbn [forallb snd] in G. exists p, c. bool_to_prop.
  rewrite String.eqb_eq, String.eqb_neq in *. by split_and!.
Qed.

(** C37: A task is recommended for action only on two stable, separate samples of the world,
    with a fresh idle LSM session of the task, a fresh existing workspace, an active
    current worker inside its lease, recovery budget left, the cooldown elapsed, and no
    unresolved browser action or probe mutation; every check that the decision reports
    holds, and the decision enables nothing. *)
Theorem recommendation_is_safe :
  od_kind (evaluate_task item now policy) = OrchestrationDecisionKind.RECOMMEND_ACTION →
  recommendable ∧ forallb snd (od_checks (evaluate_task item now policy)) = true ∧
  od_selected (evaluate_task item now policy) = false ∧
  od_mutation_allowed (evaluate_task item now policy) = false.
Proof.
  intros H%recommend_iff. pose proof H as Hall.
  unfold all_gates in H. rewrite !Forall_app in H.
  destruct H as (_ & He & Hs & Hw & Hl & Hr & _).
  apply Forall_cons in Hl as [Hlease Hl]. apply Forall_cons in Hl as [Hcool _].
  destruct (effects_pass He) as (Hb & Ha & Hp). split.
  - constructor; auto using session_pass, workspace_pass, lease_pass, samples_pass.
    by apply cooldown_pass.
  - unfold evaluate_task.
    assert (run_gates [] (all_gates item now policy) =
      (concat (fst <$> all_gates item now policy), None)) as -> by by apply run_gates_None.
    split; [|done]. cbn [_decision od_checks].
    assert (Forall honest (all_gates item now policy)) as Hh by apply gates_honest.
    clear -Hall Hh. induction (all_gates item now policy) as [|g gs IH]; [done|].
    apply Forall_cons in Hall as [Hg Hall]. apply Forall_cons in Hh as [Hgh Hh].
    cbn. by rewrite forallb_app, (Hgh Hg), IH.
Qed.

End Recommendation.

(** ** The fairness order *)

Definition stamp_real (i : TaskOrchestrationInput) : Prop :=
  is_nan (default (tr_created_at (oi_task i)) (oi_last_scheduled_at i)) = false.

Lemma fairness_lt_spec t1 r1 s1 t2 r2 s2 k1 k2 :
  fkey t1 = Some k1 → fkey t2 = Some k2 →
  fairness_lt (t1, r1, s1) (t2, r2, s2) = true ↔
  key_lt k1 k2 ∨ (k1 = k2 ∧ (r1 < r2 ∨ (r1 = r2 ∧ s1 ≠ s2 ∧ String.leb s1 s2 = true))).
Proof.
  intros E1 E2. cbn. destruct (feq t1 t2) eqn:Ef.
  - apply feq_key in Ef as (k & ? & ?). simplify_eq.
    destruct (Z.eqb_spec r1 r2) as [->|Hr].
    + destruct (String.eqb_spec s1 s2) as [->|Hs].
      * split; [done|]. intros [?%key_lt_irrefl|(_ & [?|(_ & [] & _)])]; [done|lia|done].
      * split; [by auto 10|]. intros [?%key_lt_irrefl|(_ & [?|(_ & _ & ?)])]; [done|lia|done].
    + rewrite Z.ltb_lt. split; [by auto 10|]. intros [?%key_lt_irrefl|(_ & [?|(? & _)])]; done.
  - rewrite flt_key. split; [naive_solver|]. intros [?|(-> & _)]; [by eauto|].
    assert (feq t1 t2 = true) by (apply feq_key; eauto). congruence.
Qed.

(** Two inputs are never both before each other. *)
Lemma fairness_asym a b : fairness_lt a b = true → fairness_lt b a = false.
Proof.
  destruct a as [[t1 r1] s1], b as [[t2 r2] s2]. cbn. rewrite (feq_sym t2 t1).
  destruct (feq t1 t2) eqn:Ef.
  - rewrite (Z.eqb_sym r2 r1). destruct (Z.eqb_spec r1 r2).
    + rewrite (String.eqb_sym s2 s1). destruct (String.eqb_spec s1 s2); [done|].
      intros Hl. destruct (String.leb s2 s1) eqn:E; [|done]. by assert (s1 = s2) by by apply String.leb_antisym.
    + rewrite Z.ltb_lt, Z.ltb_ge. lia.
  - intros H. by apply fle_not_flt, flt_fle.
Qed.

Lemma fairness_cotrans i j k :
  stamp_real i → stamp_real j → stamp_real k →
  fairness_lt (_fairness_key i) (_fairness_key k) = true →
  fairness_lt (_fairness_key i) (_fairness_key j) = true ∨
  fairness_lt (_fairness_key j) (_fairness_key k) = true.
Proof.
  unfold stamp_real, _fairness_key.
  intros (ki & Ei)%real_key (kj & Ej)%real_key (kk & Ek)%real_key.
  rewrite !(fairness_lt_spec _ _ _ _ _ _ _ _ Ei Ek), !(fairness_lt_spec _ _ _ _ _ _ _ _ Ei Ej),
    !(fairness_lt_spec _ _ _ _ _ _ _ _ Ej Ek).
  set (ri := fairness_rank (tr_state (oi_task i))).
  set (rj := fairness_rank (tr_state (oi_task j))).
  set (rk := fairness_rank (tr_state (oi_task k))).
  intros [Hlt|(-> & Hr)].
  { destruct (key_lt_cotrans _ kj _ Hlt); auto. }
  destruct (key_lt_total kk kj) as [?|[->|?]]; [auto| |auto].
  destruct (Z.lt_trichotomy ri rj) as [?|[Hij|?]]; [auto| |].
  - destruct Hr as [Hr|(Hr & Hne & Hle)]; [right; right; split; [done|left; lia]|].
    destruct (decide (oi_id i = oi_id j)) as [Hid|Hid].
    + right. right. split; [done|]. right. rewrite <- Hid. split; [lia|done].
    + destruct (String.leb (oi_id i) (oi_id j)) eqn:E; [left; right; auto|].
      right. right. split; [done|]. right. split; [lia|].
      destruct (String.leb_total (oi_id i) (oi_id j)) as [?|Hji]; [congruence|].
      split; [|by eapply string_leb_trans]. intros Heq. rewrite Heq in *. congruence.
  - right. right. split; [done|]. left. destruct Hr as [?|(? & _)]; lia.
Qed.

(** ** The inputs of a batch *)

Definition first_input (items : list TaskOrchestrationInput) (id : string)
    : option TaskOrchestrationInput := next_where (λ i, String.eqb (oi_id i) id) items.

Definition inputs_of (items : list TaskOrchestrationInput) (id : string)
    : list TaskOrchestrationInput := List.filter (λ i, String.eqb (oi_id i) id) items.

Lemma collect_lookup items u d k :
  (foldl collect (u, d) items).1 !! k =
  match u !! k with Some i => Some i | None => first_input items k end.
Proof.
  revert u d. induction items as [|i items IH]; intros u d; cbn; [by destruct (u !! k)|].
  destruct (u !! oi_id i) as [x|] eqn:Hu; rewrite IH.
  - destruct (u !! k) eqn:Hk; [done|]. destruct (String.eqb_spec (oi_id i) k); [congruence|done].
  - destruct (String.eqb_spec (oi_id i) k) as [E|E].
    + by rewrite <- E, lookup_insert_eq, Hu.
    + by rewrite lookup_insert_ne.
Qed.

Lemma collect_duplicates items u d k :
  k ∈ (foldl collect (u, d) items).2 ↔
  k ∈ d ∨ (match u !! k with Some _ => 1 | None => 2 end ≤ length (inputs_of items k))%nat.
Proof.
  revert u d. induction items as [|i items IH]; intros u d; cbn; unfold inputs_of in *.
  - destruct (u !! k); split; intros; [by left|naive_solver lia|by left|naive_solver lia].
  - destruct (u !! oi_id i) as [x|] eqn:Hu; rewrite IH; cbn.
    + destruct (String.eqb_spec (oi_id i) k) as [E|E]; cbn.
      * rewrite E in *. rewrite Hu, elem_of_union, elem_of_singleton.
        split; intros; [right; lia|left; by left].
      * rewrite elem_of_union, elem_of_singleton. naive_solver.
    + destruct (String.eqb_spec (oi_id i) k) as [E|E]; cbn.
      * subst k. rewrite lookup_insert_eq, Hu. split; (intros [?|?]; [by left|right; lia]).
      * by rewrite lookup_insert_ne.
Qed.

Definition batch (items : list TaskOrchestrationInput)
    : gmap string TaskOrchestrationInput * gset string := foldl collect (∅, ∅) items.

Lemma batch_lookup items k : (batch items).1 !! k = first_input items k.
Proof. unfold batch. by rewrite collect_lookup, lookup_empty. Qed.

Lemma batch_keyed items k i : (batch items).1 !! k = Some i → oi_id i = k.
Proof. rewrite batch_lookup. by intros [_ H%String.eqb_eq]%next_where_Some. Qed.

Lemma batch_duplicates items k :
  k ∈ (batch items).2 ↔ (2 ≤ length (inputs_of items k))%nat.
Proof.
  unfold batch. rewrite collect_duplicates, lookup_empty. split; [|by right].
  intros [H|H]; [by apply not_elem_of_empty in H|done].
Qed.

Lemma elem_of_canonical items i :
  i ∈ canonical_items (batch items).1 ↔ first_input items (oi_id i) = Some i.
Proof.
  unfold canonical_items. rewrite elem_of_select. split.
  - intros (_ & k & Hk). pose proof (batch_keyed _ _ _ Hk) as <-. by rewrite <- batch_lookup.
  - intros H. split; [done|]. exists (oi_id i). by rewrite batch_lookup.
Qed.

Lemma canonical_ids items :
  Sorted (λ a b, leb_key oi_id a b = true) (canonical_items (batch items).1) ∧
  NoDup (oi_id <$> canonical_items (batch items).1).
Proof. apply select_sorted. intros k i. apply batch_keyed. Qed.

Lemma first_input_elem items id i : first_input items id = Some i → i ∈ items ∧ oi_id i = id.
Proof. intros [H1 H2%String.eqb_eq]%next_where_Some. done. Qed.

Lemma canonical_id_in items id :
  id ∈ oi_id <$> canonical_items (batch items).1 ↔ id ∈ oi_id <$> items.
Proof.
  rewrite !list_elem_of_fmap. split.
  - intros (i & -> & [H _]%elem_of_canonical%first_input_elem). eauto.
  - intros (i & -> & Hi).
    destruct (next_where_is_Some (λ j, String.eqb (oi_id j) (oi_id i)) items i Hi) as [j Hj];
      [apply String.eqb_refl|].
    destruct (first_input_elem items _ _ Hj) as [_ Hid]. exists j. split; [done|].
    apply elem_of_canonical. by rewrite Hid.
Qed.

(** Distinct inputs: the batch is a set. *)
Lemma first_input_distinct items i :
  NoDup (oi_id <$> items) → i ∈ items → first_input items (oi_id i) = Some i.
Proof.
  intros Hnd Hi.
  destruct (next_where_is_Some (λ j, String.eqb (oi_id j) (oi_id i)) items i Hi) as [j Hj];
    [apply String.eqb_refl|].
  destruct (first_input_elem items _ _ Hj) as [Hjin Hid]. unfold first_input. rewrite Hj. f_equal.
  clear Hj. induction items as [|x items IH]; [by apply not_elem_of_nil in Hi|].
  cbn in Hnd. apply NoDup_cons in Hnd as [Hni Hnd].
  apply elem_of_cons in Hi as [->|Hi], Hjin as [->|Hjin]; [done|..|by apply IH].
  - destruct Hni. rewrite <- Hid. by apply list_elem_of_fmap_2.
  - destruct Hni. rewrite Hid. by apply list_elem_of_fmap_2.
Qed.

Lemma distinct_batch items items' :
  NoDup (oi_id <$> items) → items ≡ₚ items' → batch items = batch items'.
Proof.
  intros Hnd Hp. assert (NoDup (oi_id <$> items')) as Hnd' by by rewrite <- Hp.
  assert (∀ its id, NoDup (oi_id <$> its) → (length (inputs_of its id) ≤ 1)%nat) as Hone.
  { clear. intros its id. induction its as [|i its IH]; cbn; [lia|].
    intros [Hni Hnd]%NoDup_cons. destruct (String.eqb_spec (oi_id i) id) as [<-|]; [|auto].
    cbn. destruct (inputs_of its (oi_id i)) as [|j l] eqn:E; [cbn; unfold inputs_of in E; rewrite E; cbn; lia|].
    exfalso. assert (j ∈ inputs_of its (oi_id i)) as Hj by (rewrite E; by left).
    unfold inputs_of in Hj. rewrite list_elem_of_In, List.filter_In, <- list_elem_of_In in Hj.
    destruct Hj as [Hj Hid%String.eqb_eq]. apply Hni. rewrite <- Hid. by apply list_elem_of_fmap_2. }
  apply injective_projections.
  - apply map_eq. intros k. rewrite !batch_lookup. apply option_eq. intros i. split.
    + intros [Hi Hid]%first_input_elem. rewrite <- Hid. apply first_input_distinct; [done|by rewrite <- Hp].
    + intros [Hi Hid]%first_input_elem. rewrite <- Hid. apply first_input_distinct; [done|by rewrite Hp].
  - apply set_eq. intros k. rewrite !batch_duplicates. pose proof (Hone _ k Hnd).
    pose proof (Hone _ k Hnd'). lia.
Qed.

(** ** Plans *)

Lemma length_filter_fmap {A B} (f : A → B) (p : B → bool) l :
  length (List.filter p (f <$> l)) = length (List.filter (λ x, p (f x)) l).
Proof. induction l as [|x l IH]; [done|]. cbn. destruct (p (f x)); cbn; auto. Qed.

Lemma Sorted_fmap_key {A B} (f : A → B) (R : A → A → Prop) (S : B → B → Prop) l :
  (∀ x y, R x y → S (f x) (f y)) → Sorted R l → Sorted S (f <$> l).
Proof.
  intros HRS. induction 1 as [|x l Hl IH Hhd]; [constructor|]. cbn. constructor; [done|].
  destruct Hhd; constructor; auto.
Qed.

(** In a sorted list whose order is transitive on the elements, earlier elements are below
    later ones. *)
Lemma Sorted_strong_in {A} (R : A → A → Prop) l :
  (∀ x y z, x ∈ l → y ∈ l → z ∈ l → R x y → R y z → R x z) → Sorted R l → StronglySorted R l.
Proof.
  induction l as [|x l IH]; intros Htr Hs; [constructor|].
  apply Sorted_inv in Hs as [Hs Hhd].
  assert (StronglySorted R l) as Hl.
  { apply IH; [|done]. intros a b c Ha Hb Hc. apply Htr; by right. }
  constructor; [done|]. destruct l as [|y l]; [constructor|].
  apply HdRel_inv in Hhd. constructor; [done|]. apply Forall_forall. intros z Hz.
  apply StronglySorted_inv in Hl as [_ Hy]. rewrite Forall_forall in Hy.
  eapply (Htr x y z); [by left|right; by left|right; by right|done|by apply Hy].
Qed.

Section Plan.
Context {tables : UnicodeTables} {fmt : Formatting}.
Context (now : float) (policy : OrchestrationPolicy) (items : list TaskOrchestrationInput).

Let unique := (batch items).1.
Let duplicates := (batch items).2.
Let decisions := evaluated now policy duplicates <$> canonical_items unique.
Let selected := selected_ids policy decisions.
Let slots := Z.to_nat (Z.max 0 (op_max_selected_tasks policy)).

Lemma plan_is :
  plan_orchestration now policy items = settle policy selected <$> decisions.
Proof.
  unfold plan_orchestration, selected, decisions, unique, duplicates, batch.
  by destruct (foldl collect (∅, ∅) items).
Qed.

Lemma evaluated_id d i : od_task_id (evaluated now policy d i).2 = oi_id i.
Proof.
  unfold evaluated. cbv zeta. cbn [snd].
  destruct (bool_decide _); unfold evaluate_task;
    destruct (run_gates [] (all_gates i now policy)) as [? [v|]]; done.
Qed.

Lemma evaluated_quiet d i :
  od_selected (evaluated now policy d i).2 = false ∧
  od_mutation_allowed (evaluated now policy d i).2 = false ∧
  od_deferred_kind (evaluated now policy d i).2 = None.
Proof.
  unfold evaluated. cbv zeta. cbn [snd].
  destruct (bool_decide _); unfold evaluate_task;
    destruct (run_gates [] (all_gates i now policy)) as [? [v|]]; by split_and!.
Qed.

Lemma elem_of_decisions x :
  x ∈ decisions ↔ ∃ i, first_input items (oi_id i) = Some i ∧
                        x = evaluated now policy duplicates i.
Proof.
  unfold decisions, unique. rewrite list_elem_of_fmap. setoid_rewrite elem_of_canonical.
  naive_solver.
Qed.

Lemma decision_ids : (λ x, od_task_id x.2) <$> decisions = oi_id <$> canonical_items unique.
Proof.
  unfold decisions. rewrite <- list_fmap_compose. apply list_fmap_ext. intros _ i _. cbn [compose].
  apply evaluated_id.
Qed.

Lemma settled_id x : od_task_id (settle policy selected x) = od_task_id x.2.
Proof. destruct x as [i d]. cbn. by repeat case_match. Qed.

Lemma settle_keeps x :
  od_mutation_allowed (settle policy selected x) = od_mutation_allowed x.2 ∧
  (od_kind (settle policy selected x) = OrchestrationDecisionKind.RECOMMEND_ACTION →
   od_kind x.2 = OrchestrationDecisionKind.RECOMMEND_ACTION).
Proof.
  destruct x as [i d]. unfold settle. destruct (history_unknown _); [done|].
  destruct (existsb _ _); [done|]. by destruct (is_actionable _).
Qed.

Lemma NoDup_decision_ids l :
  l ⊆+ decisions → NoDup ((λ x : TaskOrchestrationInput * OrchestrationDecision, od_task_id x.2) <$> l).
Proof.
  intros [k Hk]%submseteq_Permutation.
  assert (NoDup ((λ x : TaskOrchestrationInput * OrchestrationDecision, od_task_id x.2) <$> decisions))
    as Hnd by (rewrite decision_ids; apply canonical_ids).
  rewrite Hk, fmap_app in Hnd. by apply NoDup_app in Hnd as [? _].
Qed.

Lemma filter_submseteq {A} (p : A → bool) (l : list A) : List.filter p l ⊆+ l.
Proof.
  induction l as [|x l IH]; cbn; [done|]. destruct (p x);
    [by apply submseteq_skip|by apply submseteq_cons].
Qed.

Lemma take_fair_submseteq :
  take slots (fair_order (List.filter is_actionable decisions)) ⊆+ decisions.
Proof.
  etrans; [apply sublist_submseteq, sublist_take|]. unfold fair_order.
  rewrite py_sorted_perm. apply filter_submseteq.
Qed.

(** The decision with the id of a selected one is itself actionable and selected. *)
Lemma elem_of_selected x :
  x ∈ decisions → od_task_id x.2 ∈ selected ↔
  x ∈ take slots (fair_order (List.filter is_actionable decisions)).
Proof.
  intros Hx. unfold selected, selected_ids. fold slots. rewrite list_elem_of_fmap. split; [|by eauto].
  intros (y & Hid & Hy). replace x with y; [done|].
  assert (y ∈ decisions) as Hy' by (eapply elem_of_submseteq; [done|apply take_fair_submseteq]).
  apply elem_of_decisions in Hx as (i & Hi & ->), Hy' as (j & Hj & ->).
  rewrite !evaluated_id in Hid. rewrite Hid in Hi. congruence.
Qed.

Lemma selected_actionable x :
  x ∈ decisions → od_task_id x.2 ∈ selected → is_actionable x = true.
Proof.
  intros Hx Hy. apply elem_of_selected in Hy; [|done].
  assert (x ∈ fair_order (List.filter is_actionable decisions)) as H.
  { eapply elem_of_submseteq; [exact Hy|]. apply sublist_submseteq, sublist_take. }
  unfold fair_order in H. rewrite py_sorted_perm in H.
  rewrite list_elem_of_In, List.filter_In in H. by destruct H.
Qed.

(** What [settle] does to a decision. *)
Lemma settle_cases x :
  x ∈ decisions →
  let d := settle policy selected x in
  (od_task_id x.2 ∈ selected ∧ d = (x.2 <| od_selected := true |>) ∧ is_actionable x = true) ∨
  (od_task_id x.2 ∉ selected ∧ od_selected d = false ∧
   ((is_actionable x = true ∧ d = deferred_decision policy x.1 x.2) ∨
    (history_unknown x = true ∧ d = unknown_history_decision policy x.2) ∨
    (actionable_kind (od_kind x.2) = false ∧ d = x.2))).
Proof.
  intros Hx d. assert (existsb (String.eqb (od_task_id x.2)) selected = true ↔
    od_task_id x.2 ∈ selected) as Hex.
  { rewrite List.existsb_exists. setoid_rewrite <- list_elem_of_In.
    setoid_rewrite String.eqb_eq. naive_solver. }
  pose proof (selected_actionable x Hx) as Hact.
  destruct (evaluated_quiet duplicates x.1) as (Hq & _).
  assert (od_selected x.2 = false) as Hsel.
  { apply elem_of_decisions in Hx as (i & _ & ->). apply evaluated_quiet. }
  unfold d. destruct x as [i e]. unfold settle, is_actionable, history_unknown in *. cbn in *.
  destruct (actionable_kind (od_kind e)) eqn:Hk, (oi_scheduling_history_known i) eqn:Hh; cbn in *;
    destruct (existsb (String.eqb (od_task_id e)) selected) eqn:E;
    (assert (od_task_id e ∈ selected) as Hin by by apply Hex) || (assert (od_task_id e ∉ selected)
      as Hin by (intros ?%Hex; congruence));
    try (specialize (Hact Hin); done); naive_solver.
Qed.

Lemma plan_ids : od_task_id <$> plan_orchestration now policy items = oi_id <$> canonical_items unique.
Proof.
  rewrite plan_is, <- list_fmap_compose, <- decision_ids. apply list_fmap_ext. intros _ x _.
  apply settled_id.
Qed.

(** A plan holds exactly one decision per task of the batch, in the order of the task ids,
    enables no mutation, and never recommends an action on a task with several inputs. *)
Theorem plan_covers_each_task_once :
  let plan := plan_orchestration now policy items in
  Sorted (λ a b, String.leb a b = true) (od_task_id <$> plan) ∧ NoDup (od_task_id <$> plan) ∧
  (∀ id, id ∈ od_task_id <$> plan ↔ id ∈ oi_id <$> items) ∧
  Forall (λ d, od_mutation_allowed d = false ∧
    (od_kind d = OrchestrationDecisionKind.RECOMMEND_ACTION →
     length (inputs_of items (od_task_id d)) = 1%nat)) plan.
Proof.
  cbv zeta. rewrite plan_ids. destruct (canonical_ids items) as [Hs Hnd]. split_and!.
  - eapply Sorted_fmap_key; [|exact Hs]. done.
  - done.
  - apply canonical_id_in.
  - rewrite plan_is. apply Forall_fmap, Forall_forall. intros x Hx. cbn [compose].
    rewrite settled_id. destruct (settle_keeps x) as [-> Hkind].
    apply elem_of_decisions in Hx as (i & Hi & ->).
    destruct (evaluated_quiet duplicates i) as (_ & Hm & _).
    split; [done|]. intros Hke%Hkind.
    rewrite evaluated_id. pose proof (batch_duplicates items (oi_id i)) as Hdup.
    assert (1 ≤ length (inputs_of items (oi_id i)))%nat as H1.
    { apply next_where_Some in Hi as [Hin Hid]. unfold inputs_of.
      destruct (List.filter _ _) as [|y l] eqn:E; [|cbn; lia].
      exfalso. apply (not_elem_of_nil i). rewrite <- E.
      by rewrite list_elem_of_In, List.filter_In, <- list_elem_of_In. }
    destruct (decide (oi_id i ∈ duplicates)) as [Hd|Hd]; [|unfold duplicates in Hd; rewrite Hdup in Hd; lia].
    exfalso. unfold evaluated in Hke. cbv zeta in Hke. cbn [snd] in Hke.
    assert (od_task_id (evaluate_task i now policy) = oi_id i) as Hid.
    { pose proof (evaluated_id ∅ i) as H. unfold evaluated in H. cbv zeta in H. cbn [snd] in H.
      by rewrite bool_decide_eq_false_2 in H by apply not_elem_of_empty. }
    rewrite Hid, bool_decide_eq_true_2 in Hke by done. done.
Qed.

(** A recommendation of the plan is one of the evaluation of an input. *)
Lemma plan_recommends d :
  d ∈ plan_orchestration now policy items →
  od_kind d = OrchestrationDecisionKind.RECOMMEND_ACTION →
  ∃ i, i ∈ items ∧ oi_id i = od_task_id d ∧
    od_kind (evaluate_task i now policy) = OrchestrationDecisionKind.RECOMMEND_ACTION.
Proof.
  rewrite plan_is, list_elem_of_fmap. intros (x & -> & Hx) Hk.
  apply elem_of_decisions in Hx as (i & [Hi Hid]%first_input_elem & ->). exists i.
  rewrite settled_id, evaluated_id. split_and!; [done|done|]. apply settle_keeps in Hk.
  revert Hk. unfold evaluated. cbv zeta. cbn [snd]. by destruct (bool_decide _).
Qed.

Lemma settle_selected x :
  x ∈ decisions → od_selected (settle policy selected x) = true ↔
  x ∈ take slots (fair_order (List.filter is_actionable decisions)).
Proof.
  intros Hx. rewrite <- (elem_of_selected x Hx).
  destruct (settle_cases x Hx) as [(? & -> & _)|(? & -> & _)]; done.
Qed.

(** The selected decisions are those of the fairness slots. *)
Lemma selected_perm :
  List.filter (λ x, od_selected (settle policy selected x)) decisions ≡ₚ
  take slots (fair_order (List.filter is_actionable decisions)).
Proof.
  assert (∀ l, l ⊆+ decisions → NoDup l) as Hnd.
  { intros l Hl. eapply NoDup_fmap_1, NoDup_decision_ids, Hl. }
  apply NoDup_Permutation.
  - apply Hnd, filter_submseteq.
  - apply Hnd, take_fair_submseteq.
  - intros x. rewrite list_elem_of_In, List.filter_In, <- list_elem_of_In. split.
    + intros [Hx Hsel]. by apply settle_selected.
    + intros Hx. assert (x ∈ decisions) as Hin.
      { eapply elem_of_submseteq; [exact Hx|apply take_fair_submseteq]. }
      split; [done|]. by apply settle_selected.
Qed.

Lemma fair_order_sorted :
  (∀ i, i ∈ items → stamp_real i) →
  StronglySorted (λ x y, fairness_lt (_fairness_key y.1) (_fairness_key x.1) = false)
    (fair_order (List.filter is_actionable decisions)).
Proof.
  intros Hreal. set (l := List.filter is_actionable decisions).
  assert (∀ x, x ∈ fair_order l → stamp_real x.1) as Hl.
  { intros x Hx. unfold fair_order in Hx. rewrite py_sorted_perm in Hx.
    eapply elem_of_submseteq in Hx; [|apply filter_submseteq].
    apply elem_of_decisions in Hx as (i & [Hi _]%first_input_elem & ->). by apply Hreal. }
  apply Sorted_strong_in.
  - intros x y z Hx Hy Hz Hxy Hyz.
    destruct (fairness_lt (_fairness_key z.1) (_fairness_key x.1)) eqn:E; [|done].
    destruct (fairness_cotrans z.1 y.1 x.1) as [?|?]; auto; congruence.
  - rewrite <- (list_fmap_id (fair_order l)). eapply Sorted_fmap_key; [|apply py_sorted_Sorted].
    + intros x y H. by apply negb_true_iff in H.
    + intros x y. rewrite !negb_true_iff.
      destruct (fairness_lt (_fairness_key y.1) (_fairness_key x.1)) eqn:E; [|by left].
      right. by apply fairness_asym.
Qed.

(** A decision of the plan, with the input it settles. *)
Lemma plan_decision d i :
  d ∈ plan_orchestration now policy items → first_input items (od_task_id d) = Some i →
  evaluated now policy duplicates i ∈ decisions ∧
  d = settle policy selected (evaluated now policy duplicates i).
Proof.
  rewrite plan_is, list_elem_of_fmap. intros (x & -> & Hx). pose proof Hx as Hin.
  apply elem_of_decisions in Hx as (j & Hj & ->). rewrite settled_id, evaluated_id, Hj.
  by intros [= ->].
Qed.

Lemma selected_count :
  length (List.filter od_selected (plan_orchestration now policy items)) =
  length (take slots (fair_order (List.filter is_actionable decisions))).
Proof. by rewrite plan_is, length_filter_fmap, selected_perm. Qed.

(** A deferral for fairness is an actionable decision past the last slot. *)
Lemma deferred_in_drop x :
  x ∈ decisions → od_deferred_kind (settle policy selected x) ≠ None →
  oi_scheduling_history_known x.1 = true →
  x ∈ drop slots (fair_order (List.filter is_actionable decisions)).
Proof.
  intros Hx Hd Hh. assert (od_deferred_kind x.2 = None) as Hq.
  { apply elem_of_decisions in Hx as (i & _ & ->). apply evaluated_quiet. }
  destruct (settle_cases x Hx) as [(_ & E & _)|(Hns & Hsel & [[Ha _]|[[Hu _]|[_ E]]])].
  - by rewrite E in Hd.
  - assert (x ∈ fair_order (List.filter is_actionable decisions)) as Hin.
    { unfold fair_order. rewrite py_sorted_perm.
      by rewrite list_elem_of_In, List.filter_In, <- list_elem_of_In. }
    rewrite <- (take_drop slots (fair_order _)) in Hin. apply elem_of_app in Hin as [Hin|Hin]; [|done].
    apply settle_selected in Hin; [congruence|done].
  - unfold history_unknown in Hu. by rewrite Hh, andb_false_r in Hu.
  - by rewrite E in Hd.
Qed.

(** Selection is bounded by the policy, selects only tasks to reconcile or recommend whose
    scheduling history is known, and is fair and work-conserving: when a task with known
    history is deferred, every slot is used, and no selected task is later than it in the
    order of last service, recovery rank and id. *)
Theorem plan_selects_fairly :
  (∀ i, i ∈ items → stamp_real i) →
  let plan := plan_orchestration now policy items in
  Z.of_nat (length (List.filter od_selected plan)) ≤ Z.max 0 (op_max_selected_tasks policy) ∧
  (∀ i di, di ∈ plan → first_input items (od_task_id di) = Some i → od_selected di = true →
     actionable_kind (od_kind di) = true ∧ oi_scheduling_history_known i = true) ∧
  ∀ i j di dj, di ∈ plan → dj ∈ plan →
    first_input items (od_task_id di) = Some i → first_input items (od_task_id dj) = Some j →
    od_deferred_kind dj ≠ None → oi_scheduling_history_known j = true →
    Z.of_nat (length (List.filter od_selected plan)) = Z.max 0 (op_max_selected_tasks policy) ∧
    (od_selected di = true → fairness_lt (_fairness_key j) (_fairness_key i) = false).
Proof.
  intros Hreal. cbv zeta. rewrite selected_count, length_take. split_and!.
  - unfold slots. lia.
  - intros i di Hd Hi Hsel. destruct (plan_decision di i Hd Hi) as [Hx ->].
    pose proof Hsel as Hin. apply settle_selected in Hin; [|done].
    destruct (settle_cases _ Hx) as [(_ & -> & Ha)|(_ & ? & _)]; [|congruence].
    by apply andb_true_iff in Ha.
  - intros i j di dj Hdi Hdj Hi Hj Hdef Hh.
    destruct (plan_decision di i Hdi Hi) as [Hx ->], (plan_decision dj j Hdj Hj) as [Hy ->].
    pose proof (deferred_in_drop _ Hy Hdef Hh) as Hdrop. split.
    + assert (slots < length (fair_order (List.filter is_actionable decisions)))%nat.
      { apply list_elem_of_lookup in Hdrop as [n Hn%lookup_lt_Some]. rewrite length_drop in Hn. lia. }
      unfold slots in *. lia.
    + intros Hsel%settle_selected; [|done].
      pose proof (fair_order_sorted Hreal) as Hs.
      rewrite <- (take_drop slots (fair_order _)) in Hs.
      exact (StronglySorted_app_1_elem_of _ _ _ _ _ Hs Hsel Hdrop).
Qed.

End Plan.

(** The plan of a batch of distinct tasks does not depend on the order in which the tasks
    are given. *)
Theorem plan_ignores_order {tables : UnicodeTables} {fmt : Formatting} now policy items items' :
  NoDup (oi_id <$> items) → items ≡ₚ items' →
  plan_orchestration now policy items = plan_orchestration now policy items'.
Proof.
  intros Hnd Hp. pose proof (distinct_batch items items' Hnd Hp) as Hb.
  rewrite !plan_is. by rewrite Hb.
Qed.

(** ** Witnesses *)

#[local] Existing Instance AsciiTables.
#[local] Existing Instance plan_formatting.
#[local] Existing Instance text_digests.
#[local] Existing Instance any_netloc.

#[local] Existing Instance demo_numbers.

(** A quiet task with two stable samples. *)
Definition quiet_input : TaskOrchestrationInput :=
  mkTaskOrchestrationInput (w_task quiet_world) demo_assessment (w_worker quiet_world)
    (Some (mkLsmObservation "task" (of_Z 990) (Some "lsm") (Some "active") None (Some "active")
       None (Some true) (Some false) 0 None 0 0 0 None None None None []))
    (w_workspace quiet_world) (Some first_record) (Some second_record)
    None None (Some (of_Z 1100)) (Some (of_Z 900)) (Some (of_Z 5)) 0 false None false None None
    PageCapabilityKind.GENERATION [] [] true.

(** The same for another task, which was never scheduled and has no evidence. *)
Definition blind_input : TaskOrchestrationInput :=
  mkTaskOrchestrationInput ((w_task quiet_world) <| tr_task_id := "task2" |>) demo_assessment None
    None None None None None None None None None 0 false None false None None
    PageCapabilityKind.GENERATION [] [] true.

Definition quiet_batch : list TaskOrchestrationInput := [quiet_input; blind_input].

Definition quiet_plan : list OrchestrationDecision :=
  plan_orchestration (of_Z 1000) default_orchestration_policy quiet_batch.

Lemma quiet_stamps i : i ∈ quiet_batch → stamp_real i.
Proof.
  intros Hi. apply elem_of_cons in Hi as [->|Hi]; [vm_compute; reflexivity|].
  apply list_elem_of_singleton in Hi as ->. vm_compute. reflexivity.
Qed.

Lemma recommendation_is_safe_witness :
  recommendable quiet_input (of_Z 1000) default_orchestration_policy.
Proof.
  destruct (recommendation_is_safe quiet_input (of_Z 1000) default_orchestration_policy) as [H _].
  - vm_compute. reflexivity.
  - exact H.
Defined.

(** One slot: the task that was never scheduled has it, the other is deferred. *)
Lemma plan_selects_fairly_witness :
  length (List.filter od_selected quiet_plan) = 1%nat ∧
  ∃ di dj, di ∈ quiet_plan ∧ dj ∈ quiet_plan ∧ od_selected di = true ∧
    od_deferred_kind dj = Some OrchestrationDecisionKind.RECOMMEND_ACTION ∧
    fairness_lt (_fairness_key quiet_input) (_fairness_key blind_input) = false.
Proof.
  destruct (plan_selects_fairly (of_Z 1000) default_orchestration_policy quiet_batch quiet_stamps)
    as (_ & _ & H).
  set (plan := plan_orchestration (of_Z 1000) default_orchestration_policy quiet_batch) in H.
  assert (quiet_plan !! 0%nat = Some (nth 0 quiet_plan (evaluate_task quiet_input (of_Z 0) default_orchestration_policy)))
    as H0 by (vm_compute; reflexivity).
  assert (quiet_plan !! 1%nat = Some (nth 1 quiet_plan (evaluate_task quiet_input (of_Z 0) default_orchestration_policy)))
    as H1 by (vm_compute; reflexivity).
  apply list_elem_of_lookup_2 in H0, H1.
  destruct (H blind_input quiet_input _ _ H1 H0) as [Hn Hf].
  - vm_compute. reflexivity.
  - vm_compute. reflexivity.
  - vm_compute. discriminate.
  - reflexivity.
  - split; [vm_compute; reflexivity|].
    eexists _, _. split; [exact H1|]. split; [exact H0|].
    split; [vm_compute; reflexivity|]. split; [vm_compute; reflexivity|].
    apply Hf. vm_compute. reflexivity.
Defined.

Lemma plan_ignores_order_witness :
  quiet_plan = plan_orchestration (of_Z 1000) default_orchestration_policy (reverse quiet_batch).
Proof.
  apply plan_ignores_order.
  - apply (bool_decide_unpack _). vm_compute. exact I.
  - by rewrite reverse_Permutation.
Defined.
