(* ===== verification/Advisory.v ===== *)
(** * orchestration_adapter.py: the advisory adapter

    The adapter reads the registry and the observations, refreshes the evidence of the local
    shell and of the workspace through two providers, and hands everything to the policy of
    Orchestration.v.  A fact that is missing or contradicts another becomes a blocker.  It
    writes nothing: every operation is a function of the two stores. *)

From S2P Require Import Prelude PyFloat Runs PyStr PyUrl PyJson Models ProjectUrl.
From S2P Require Import WorkerProtocol Registry ObsTable Observations ProbeOps AttemptTables.
From S2P Require Import Reconcile Watcher Dispatcher Actions Replacement.
From S2P Require Import ReplacementCompletion Workers Capabilities Orchestration.
From S2P Require Import OrchestrationTheorems.

Open Scope string_scope.
Open Scope Z_scope.
Open Scope list_scope.

Record PageContinuityRequest := mkPageContinuityRequest {
  pq_context : option CapabilityContext;
  pq_kind : PageCapabilityKind.t;
}.

Record TaskRuntimeHints := mkTaskRuntimeHints {
  rh_worker_lease_expires_at : option float;
  rh_last_recovery_at : option float;
  rh_requires_exact_window_binding : bool;
  rh_page_continuity : option PageContinuityRequest;
}.

(** [TaskRuntimeHints()] *)
Definition no_hints : TaskRuntimeHints := mkTaskRuntimeHints None None true None.

Record TaskSchedulingHistory := mkTaskSchedulingHistory {
  sh_last_scheduled_at : option float;
  sh_consecutive_waits : Z;
}.

(** The two providers; what they raise is caught. *)
Class EvidenceProviders := {
  lsm_observe (task_id session_id : string) (tracked_job_ids : list string) : res LsmObservation;
  workspace_observe (task_id cwd : string) : res WorkspaceObservation;
}.

Section Adapter.
Context {tables : UnicodeTables} {fmt : Formatting} {ties : TieOrder} {digests : Digests}.
Context {providers : EvidenceProviders}.
Context (r : Registry) (o : Observations) (watch : WatchPolicy).

Definition _current_worker (task : TaskRecord) : option WorkerRecord :=
  if negb (opt_truthy (tr_current_worker_id task)) then None
  else match get_worker r (default "" (tr_current_worker_id task)) with
       | Ok worker => Some worker
       | Err _ => None
       end.

(** A refreshed observation and the blockers of its refresh. *)
Definition _refresh_lsm (task : TaskRecord) : option LsmObservation * list string :=
  if negb (opt_truthy (tr_lsm_session_id task)) then (None, [])
  else match lsm_observe (tr_task_id task) (default "" (tr_lsm_session_id task))
               (tracked_jobs o (tr_task_id task)) with
       | Ok lsm => (Some lsm, [])
       | Err e => (None, ["Local Shell telemetry refresh failed (" +:+ exn_name (exn_type e) +:+ ")"])
       end.

Definition _refresh_workspace (task : TaskRecord) : option WorkspaceObservation * list string :=
  match workspace_observe (tr_task_id task) (tr_cwd task) with
  | Ok workspace => (Some workspace, [])
  | Err e => (None, ["workspace/Git refresh failed (" +:+ exn_name (exn_type e) +:+ ")"])
  end.

Definition _last_recovery_at (task : TaskRecord) (runtime : TaskRuntimeHints)
    : res (option float * list string) :=
  recent ← action_attempts r (tr_task_id task) 1;
  let candidates := omap id [aa_created_at <$> head recent; rh_last_recovery_at runtime] in
  Ok (match candidates with
      | [] => (None,
          if 0 <? tr_recovery_attempts task
          then ["recovery budget records prior attempts but cooldown timestamp is unavailable"]
          else [])
      | t :: ts => (Some (fmax_list t ts), [])
      end).

(** The first capability that matches the context, or else the newest one. *)
Definition _page_capability (request : option PageContinuityRequest) (now : float)
    : option PageCapabilityRecord :=
  q ← request;
  context ← pq_context q;
  let candidates := page_capabilities r (Some (pq_kind q)) 100 in
  match next_where (λ c, (capability_matches_context c context (pq_kind q) now).1) candidates with
  | Some c => Some c
  | None => head candidates
  end.

Definition future (label : string) (at_ : option float) (now : float) : list string :=
  match at_ with
  | Some t => block_if (flt now t) (label +:+ " timestamp is in the future")
  | None => []
  end.

Definition _validate_runtime_timestamps (now : float) (worker : option WorkerRecord)
    (browser : option BrowserObservation) (network : option NetworkObservation)
    (lsm : option LsmObservation) (workspace : option WorkspaceObservation)
    (window_binding : option WorkerWindowBinding) : list string :=
  future "worker last-seen" (worker ≫= wr_last_seen_at) now ++
  future "browser observation" (bo_observed_at <$> browser) now ++
  future "network observation" (no_observed_at <$> network) now ++
  future "Local Shell observation" (lo_observed_at <$> lsm) now ++
  future "workspace observation" (wo_observed_at <$> workspace) now ++
  match window_binding with
  | Some b =>
      block_if (negb (fle (wb_bound_at b) (wb_observed_at b) && fle (wb_observed_at b) now &&
                      fle (wb_observed_at b) (wb_expires_at b)))
        "exact-window binding timestamps are inconsistent"
  | None => []
  end.

(** The scheduler history: its last service, its waits, whether it is known, its blockers. *)
Definition scheduling_facts (scheduling : option TaskSchedulingHistory) (now : float)
    : option float * Z * bool * list string :=
  match scheduling with
  | None => (None, 0, false, [])
  | Some h =>
      let bad_time := match sh_last_scheduled_at h with
                      | Some t => flt t (of_Z 0) || flt now t
                      | None => false
                      end in
      let bad_waits := sh_consecutive_waits h <? 0 in
      (sh_last_scheduled_at h, sh_consecutive_waits h, negb bad_time && negb bad_waits,
       block_if bad_time "scheduler history timestamp is invalid or in the future" ++
       block_if bad_waits "scheduler wait count is negative")
  end.

(** The live evidence contradicts the latest reconciliation. *)
Definition fence_blockers (current : option ReconciliationRecord) (uuid : string)
    (task : TaskRecord) (a : Assessment) (worker : option WorkerRecord)
    (browser : option BrowserObservation) (network : option NetworkObservation)
    (lsm : option LsmObservation) (workspace : option WorkspaceObservation) (now : float)
    : list string :=
  match current, lsm, workspace with
  | Some c, Some _, Some _ =>
      block_if (negb (fence_matches c
                  (build_reconciliation_record uuid task a worker browser network lsm workspace now)))
        "live durable evidence no longer matches the latest reconciliation fence"
  | _, _, _ => []
  end.

Definition dirty_blockers (workspace : option WorkspaceObservation) : list string :=
  match workspace with
  | Some w =>
      block_if (bool_decide (wo_git_dirty w = Some true))
        "workspace/Git is dirty; reconcile durable side effects before recovery"
  | None => []
  end.

Definition probe_blockers (request : option PageContinuityRequest)
    (probe : option ProbeMutationOperation) : list string :=
  match request, probe with
  | Some _, Some p =>
      ["page continuity is fenced by unresolved probe mutation " +:+ po_operation_id p +:+
       " in state " +:+ ProbeMutationState.value (po_state p)]
  | _, _ => []
  end.

(** [unresolved_probe] is absent when the caller has not read it. *)
Definition build_candidate (task_id uuid : string) (runtime : TaskRuntimeHints)
    (scheduling : option TaskSchedulingHistory) (now : float)
    (unresolved_probe : option (option ProbeMutationOperation)) : res TaskOrchestrationInput :=
  task ← get_task r task_id;
  let worker := _current_worker task in
  let browser := latest_browser_observation o (tr_current_worker_id task) in
  let network := latest_network_observation o (tr_current_worker_id task) in
  let '(lsm, lsm_blockers) := _refresh_lsm task in
  let '(workspace, workspace_blockers) := _refresh_workspace task in
  let current_assessment := assess task browser lsm workspace network now watch in
  history ← reconciliation_history o r (tr_task_id task) 2;
  let current := history !! 0%nat in
  unresolved_action ← unresolved_action_attempt r (tr_task_id task);
  let window_binding :=
    w ← worker; get_worker_window_binding r (wr_worker_id w) now false in
  '(last_recovery_at, recovery_blockers) ← _last_recovery_at task runtime;
  let request := rh_page_continuity runtime in
  let probe := default (unresolved_probe_mutation_operation r) unresolved_probe in
  let '(last_scheduled_at, waits, known, scheduling_blockers) :=
    scheduling_facts scheduling now in
  Ok (mkTaskOrchestrationInput task current_assessment worker lsm workspace (history !! 1%nat)
        current unresolved_action probe (rh_worker_lease_expires_at runtime) last_recovery_at
        last_scheduled_at waits (rh_requires_exact_window_binding runtime) window_binding
        (bool_decide (is_Some request)) (_page_capability request now) (request ≫= pq_context)
        (match request with Some q => pq_kind q | None => PageCapabilityKind.GENERATION end)
        (dedup []
           (lsm_blockers ++ workspace_blockers ++ recovery_blockers ++
            _validate_runtime_timestamps now worker browser network lsm workspace window_binding ++
            dirty_blockers workspace ++
            fence_blockers current uuid task current_assessment worker browser network lsm
              workspace now ++
            scheduling_blockers))
        (dedup [] (probe_blockers request probe)) known).

Definition evaluate (task_id uuid : string) (runtime : TaskRuntimeHints)
    (scheduling : option TaskSchedulingHistory) (now : float) (policy : OrchestrationPolicy)
    : res OrchestrationDecision :=
  candidate ← build_candidate task_id uuid runtime scheduling now None;
  Ok ((evaluate_task candidate now policy) <| od_mutation_allowed := false |>
                                           <| od_selected := false |>).

(** [sorted({...})] *)
Definition sorted_ids (ids : list string) : list string := py_sorted (leb_key id) (dedup [] ids).

(** The candidates in the order of the ids; the first failure is raised. *)
Fixpoint candidates_of (ids : list string) (uuid : string → string)
    (hints : string → option TaskRuntimeHints)
    (histories : string → option TaskSchedulingHistory) (now : float)
    (probe : option ProbeMutationOperation) : res (list TaskOrchestrationInput) :=
  match ids with
  | [] => Ok []
  | id :: ids' =>
      candidate ← build_candidate id (uuid id) (default no_hints (hints id)) (histories id) now
                    (Some probe);
      rest ← candidates_of ids' uuid hints histories now probe;
      Ok (candidate :: rest)
  end.

Definition plan (task_ids : option (list string)) (uuid : string → string)
    (hints : string → option TaskRuntimeHints)
    (histories : string → option TaskSchedulingHistory) (now : float)
    (policy : OrchestrationPolicy) : res (list OrchestrationDecision) :=
  let ids := sorted_ids (default (tr_task_id <$> list_tasks r) task_ids) in
  candidates ← candidates_of ids uuid hints histories now (unresolved_probe_mutation_operation r);
  Ok (py_sorted (leb_key od_task_id)
        ((λ d, d <| od_mutation_allowed := false |>) <$> plan_orchestration now policy candidates)).

End Adapter.

(** * The advice rests on live evidence

    A recommendation of the adapter was refreshed by both providers at the call, agrees with
    the latest reconciliation, and meets no unresolved effect; a plan holds one decision for
    each requested task, whatever the order of the request. *)

(** ** Lists without duplicates *)

Lemma dedup_nil seen l : dedup seen l = [] → ∀ x, x ∈ l → x ∈ seen.
Proof.
  revert seen. induction l as [|y l IH]; intros seen; cbn; [by intros _ x ?%not_elem_of_nil|].
  destruct (existsb _ _) eqn:E; [|done]. intros H x [->|Hx]%elem_of_cons; [|by apply IH].
  apply List.existsb_exists in E as (z & Hz & ->%String.eqb_eq). by apply list_elem_of_In.
Qed.

Lemma elem_of_dedup seen l x : x ∈ dedup seen l ↔ x ∈ l ∧ x ∉ seen.
Proof.
  revert seen. induction l as [|y l IH]; intros seen; cbn; [set_solver|].
  destruct (existsb _ _) eqn:E.
  - apply List.existsb_exists in E as (z & Hz%list_elem_of_In & ->%String.eqb_eq).
    rewrite IH. set_solver.
  - assert (y ∉ seen) as Hy.
    { intros Hin. apply not_true_iff_false in E. apply E, List.existsb_exists. exists y.
      split; [by apply list_elem_of_In|apply String.eqb_refl]. }
    rewrite !elem_of_cons, IH, elem_of_app, list_elem_of_singleton.
    destruct (decide (x = y)) as [->|]; naive_solver.
Qed.

Lemma NoDup_dedup seen l : NoDup (dedup seen l).
Proof.
  revert seen. induction l as [|y l IH]; intros seen; cbn; [constructor|].
  destruct (existsb _ _); [done|]. constructor; [|done]. rewrite elem_of_dedup. set_solver.
Qed.

Lemma block_if_false b msg : block_if b msg = [] → b = false.
Proof. by destruct b. Qed.

Lemma Sorted_fmap_inv {A B} (f : A → B) (S : B → B → Prop) l :
  Sorted S (f <$> l) → Sorted (λ x y, S (f x) (f y)) l.
Proof.
  induction l as [|x l IH]; cbn; intros H; [constructor|]. apply Sorted_inv in H as [H Hhd].
  constructor; [by apply IH|]. destruct l as [|y l]; [constructor|].
  constructor. by apply HdRel_inv in Hhd.
Qed.

Section Advisory.
Context {tables : UnicodeTables} {fmt : Formatting} {ties : TieOrder} {digests : Digests}.
Context {providers : EvidenceProviders}.
Context (r : Registry) (o : Observations) (watch : WatchPolicy).

(** ** The facts behind a recommendation *)

Record live_evidence (task_id uuid : string) (runtime : TaskRuntimeHints) (now : float)
    (policy : OrchestrationPolicy) : Prop := mkLiveEvidence {
  le_facts : ∃ task worker lsm workspace current previous rest,
    get_task r task_id = Ok task ∧
    tr_recovery_attempts task < tr_max_recovery_attempts task ∧
    (* the current worker, inside the lease that the caller supplies *)
    tr_current_worker_id task = Some (wr_worker_id worker) ∧
    wr_status worker = WorkerStatus.ACTIVE ∧
    (∃ t, rh_worker_lease_expires_at runtime = Some t ∧ flt now t = true) ∧
    (* the evidence that the providers gave at this call *)
    lsm_observe (tr_task_id task) (default "" (tr_lsm_session_id task))
      (tracked_jobs o (tr_task_id task)) = Ok lsm ∧
    workspace_observe (tr_task_id task) (tr_cwd task) = Ok workspace ∧
    lo_in_flight_calls lsm = 0 ∧ lo_active_jobs lsm = 0 ∧
    wo_cwd_exists workspace = true ∧ wo_git_dirty workspace ≠ Some true ∧
    flt now (lo_observed_at lsm) = false ∧ flt now (wo_observed_at workspace) = false ∧
    (* it agrees with the latest reconciliation, and that with the one before *)
    reconciliation_history o r (tr_task_id task) 2 = Ok (current :: previous :: rest) ∧
    fence_matches previous current = true ∧
    (let browser := latest_browser_observation o (tr_current_worker_id task) in
     let network := latest_network_observation o (tr_current_worker_id task) in
     fence_matches current
       (build_reconciliation_record uuid task
          (assess task browser (Some lsm) (Some workspace) network now watch)
          (_current_worker r task) browser network (Some lsm) (Some workspace) now) = true) ∧
    unresolved_action_attempt r (tr_task_id task) = Ok None;
  le_probe : unresolved_probe_mutation_operation r = None;
}.

Lemma no_unresolved_probe :
  (∀ p, unresolved_probe_mutation_operation r = Some p → unresolved_state (po_state p) = false) →
  unresolved_probe_mutation_operation r = None.
Proof.
  unfold unresolved_probe_mutation_operation. intros H. destruct (head _) as [p|] eqn:E; [|done].
  specialize (H p eq_refl). apply head_Some_elem_of in E. unfold order_desc in E.
  apply elem_of_py_sorted in E. unfold unresolved_ops in E.
  apply elem_of_select in E as [E _]. unfold probe_unresolved in E. congruence.
Qed.

Lemma no_unresolved_action id a :
  unresolved_action_attempt r id = Ok a →
  (∀ b, a = Some b → action_unresolved b = false) → a = None.
Proof.
  unfold unresolved_action_attempt. intros (task & _ & [= <-])%bind_Ok H.
  destruct (head _) as [b|] eqn:E; [|done]. specialize (H b eq_refl).
  apply head_Some_elem_of in E. unfold order_desc in E. apply elem_of_py_sorted in E.
  unfold open_rows in E. apply elem_of_select in E as [E _]. unfold open_of in E.
  apply andb_true_iff in E as [_ E]. cbn in E. congruence.
Qed.

(** The blockers of a candidate without any. *)
Lemma unblocked (l : list string) : dedup [] l = [] → l = [].
Proof.
  intros H. destruct l as [|x l]; [done|]. exfalso.
  apply (not_elem_of_nil x). eapply dedup_nil; [exact H|by left].
Qed.

Lemma blockers_pass item policy :
  Forall passes (effect_gates item policy) → oi_reconcile_blockers item = [].
Proof.
  unfold effect_gates. intros H.
  repeat match type of H with
  | Forall _ (_ :: _) => let H1 := fresh "G" in apply Forall_cons in H as [H1 H]
  end.
  match goal with
  | G : passes (require [("no_external_reconcile_blockers", _)] _) |- _ =>
      apply require_passes in G; cbn in G; rewrite andb_true_r in G; by bool_to_prop
  end.
Qed.

Lemma refreshed_lsm task l :
  _refresh_lsm o task = (Some l, []) →
  lsm_observe (tr_task_id task) (default "" (tr_lsm_session_id task))
    (tracked_jobs o (tr_task_id task)) = Ok l.
Proof.
  unfold _refresh_lsm. destruct (negb _); [done|]. destruct (lsm_observe _ _ _); [|done].
  by intros [= ->].
Qed.

Lemma refreshed_workspace task w :
  _refresh_workspace task = (Some w, []) → workspace_observe (tr_task_id task) (tr_cwd task) = Ok w.
Proof. unfold _refresh_workspace. destruct (workspace_observe _ _); [|done]. by intros [= ->]. Qed.

(** A candidate that is recommended was built from live evidence. *)
Lemma recommended_live task_id uuid runtime scheduling now policy probe c :
  build_candidate r o watch task_id uuid runtime scheduling now probe = Ok c →
  default (unresolved_probe_mutation_operation r) probe = unresolved_probe_mutation_operation r →
  od_kind (evaluate_task c now policy) = OrchestrationDecisionKind.RECOMMEND_ACTION →
  live_evidence task_id uuid runtime now policy.
Proof.
  intros H Hprobe Hk. destruct (recommendation_is_safe _ _ _ Hk) as [[] _].
  apply recommend_iff in Hk. unfold all_gates in Hk. rewrite !Forall_app in Hk.
  destruct Hk as (_ & He & _). apply blockers_pass in He.
  unfold build_candidate in H. apply bind_Ok in H as (task & Ht & H). cbv zeta in H.
  destruct (_refresh_lsm o task) as [lsm lb] eqn:El.
  destruct (_refresh_workspace task) as [workspace wb] eqn:Ew.
  apply bind_Ok in H as (history & Hh & H). apply bind_Ok in H as (action & Ha & H).
  apply bind_Ok in H as ([recovery rb] & _ & H).
  destruct (scheduling_facts scheduling now) as [[[last waits] known] sb].
  injection H as <-. cbn in *. rewrite Hprobe in ro_probe.
  apply unblocked in He. rewrite !app_nil in He.
  destruct He as (-> & -> & _ & Htime & Hdirty & Hfence & _).
  destruct ro_lsm as (l & -> & _ & Hin & Hjobs & _).
  destruct ro_workspace as (w & -> & _ & Hcwd & _).
  destruct ro_worker as (worker & t & Hw & Hst & Hcur & Hlease & Hfresh).
  destruct ro_samples as (p & k & Hp & Hk & _ & Hsame & _).
  destruct history as [|k' [|p' rest]]; [done|done|]. injection Hk as ->. injection Hp as ->.
  apply refreshed_lsm in El. apply refreshed_workspace in Ew. cbn in Hfence.
  apply block_if_false, negb_false_iff in Hfence.
  unfold _validate_runtime_timestamps in Htime. rewrite !app_nil in Htime.
  destruct Htime as (_ & _ & _ & Hlt & Hwt & _). cbn in Hlt, Hwt.
  apply block_if_false in Hlt, Hwt, Hdirty. bool_to_prop.
  constructor; [|by apply no_unresolved_probe].
  exists task, worker, l, w, k, p, rest. split_and!; try done; [by exists t|].
  rewrite Ha. f_equal. by eapply no_unresolved_action.
Qed.

(** C38: Advice rests on live evidence.  When the adapter recommends an action on a task, then at
    that call the local shell and the workspace answered, the session is idle, the workspace
    exists and is not dirty, no observation is from the future, the current worker is active
    inside its lease, no external action and no probe operation is unresolved, and what was
    just observed has the fence of the latest reconciliation, which has the fence of the one
    before it.  The advice allows no mutation and selects nothing. *)
Theorem advisory_recommendation_is_live task_id uuid runtime scheduling now policy d :
  evaluate r o watch task_id uuid runtime scheduling now policy = Ok d →
  od_kind d = OrchestrationDecisionKind.RECOMMEND_ACTION →
  live_evidence task_id uuid runtime now policy ∧
  od_mutation_allowed d = false ∧ od_selected d = false.
Proof.
  unfold evaluate. intros (c & Hc & [= <-])%bind_Ok Hk. split; [|done].
  by eapply recommended_live.
Qed.

(** ** The plan *)

Lemma elem_of_sorted_ids ids x : x ∈ sorted_ids ids ↔ x ∈ ids.
Proof. unfold sorted_ids. rewrite elem_of_py_sorted, elem_of_dedup. set_solver. Qed.

Lemma NoDup_sorted_ids ids : NoDup (sorted_ids ids).
Proof. unfold sorted_ids. rewrite py_sorted_perm. apply NoDup_dedup. Qed.

(** The order and the repetitions of the request do not matter. *)
Lemma sorted_ids_ext ids ids' : (∀ x, x ∈ ids ↔ x ∈ ids') → sorted_ids ids = sorted_ids ids'.
Proof.
  intros H. apply py_sorted_by_key_perm; [by intros x y _ _|].
  apply NoDup_Permutation; [apply NoDup_dedup..|]. intros x. rewrite !elem_of_dedup, H. done.
Qed.

Lemma candidates_ids ids uuid hints histories now probe cs :
  candidates_of r o watch ids uuid hints histories now probe = Ok cs →
  length cs = length ids ∧
  ∀ c, c ∈ cs → ∃ id, id ∈ ids ∧
    build_candidate r o watch id (uuid id) (default no_hints (hints id)) (histories id) now
      (Some probe) = Ok c.
Proof.
  revert cs. induction ids as [|id ids IH]; intros cs; cbn.
  - intros [= <-]. split; [done|]. by intros c ?%not_elem_of_nil.
  - intros (c & Hc & (rest & Hrest & [= <-])%bind_Ok)%bind_Ok.
    destruct (IH _ Hrest) as [Hl Hin]. split; [cbn; by rewrite Hl|].
    intros c' [->|Hc']%elem_of_cons; [exists id; split; [by left|done]|].
    destruct (Hin _ Hc') as (id' & ? & ?). exists id'. split; [by right|done].
Qed.

Lemma candidate_id id uuid runtime scheduling now probe c :
  (∀ k t, rg_tasks r !! k = Some t → tr_task_id t = k) →
  build_candidate r o watch id uuid runtime scheduling now probe = Ok c → oi_id c = id.
Proof.
  intros Hkey H. unfold build_candidate in H. apply bind_Ok in H as (task & Ht & H). cbv zeta in H.
  destruct (_refresh_lsm o task). destruct (_refresh_workspace task).
  apply bind_Ok in H as (history & _ & H). apply bind_Ok in H as (action & _ & H).
  apply bind_Ok in H as ([recovery rb] & _ & H).
  destruct (scheduling_facts scheduling now) as [[[? ?] ?] ?]. injection H as <-.
  unfold oi_id. cbn. apply fetch_Ok in Ht. by apply Hkey.
Qed.

Lemma candidates_oi ids uuid hints histories now probe cs :
  (∀ k t, rg_tasks r !! k = Some t → tr_task_id t = k) →
  candidates_of r o watch ids uuid hints histories now probe = Ok cs → oi_id <$> cs = ids.
Proof.
  intros Hkey. revert cs. induction ids as [|id ids IH]; intros cs; cbn; [by intros [= <-]|].
  intros (c & Hc & (rest & Hrest & [= <-])%bind_Ok)%bind_Ok. cbn.
  by rewrite (candidate_id _ _ _ _ _ _ _ Hkey Hc), (IH _ Hrest).
Qed.

(** An advisory plan is canonical, bounded and live.  It holds exactly one decision for each
    requested task, in the order of the ids and whatever the order and the repetitions of the
    request; it allows no mutation and selects no more tasks than the policy does; and what it
    recommends rests on live evidence. *)
Theorem advisory_plan_is_canonical ids uuid hints histories now policy ds :
  (∀ k t, rg_tasks r !! k = Some t → tr_task_id t = k) →
  plan r o watch (Some ids) uuid hints histories now policy = Ok ds →
  od_task_id <$> ds = sorted_ids ids ∧
  (∀ ids', (∀ id, id ∈ ids ↔ id ∈ ids') →
     plan r o watch (Some ids') uuid hints histories now policy = Ok ds) ∧
  Forall (λ d, od_mutation_allowed d = false) ds ∧
  Z.of_nat (length (List.filter od_selected ds)) ≤ Z.max 0 (op_max_selected_tasks policy) ∧
  Forall (λ d, od_kind d = OrchestrationDecisionKind.RECOMMEND_ACTION →
    live_evidence (od_task_id d) (uuid (od_task_id d)) (default no_hints (hints (od_task_id d)))
      now policy) ds.
Proof.
  intros Hkey H. assert (∀ ids', (∀ id, id ∈ ids ↔ id ∈ ids') →
     plan r o watch (Some ids') uuid hints histories now policy = Ok ds) as Hext.
  { intros ids' Hids. rewrite <- H. unfold plan. cbv zeta. cbn [from_option id].
    by rewrite (sorted_ids_ext _ _ Hids). }
  unfold plan in H. cbv zeta in H. cbn [from_option id] in H.
  apply bind_Ok in H as (cs & Hcs & Hds). injection Hds as Hds.
  pose proof (candidates_oi _ _ _ _ _ _ _ Hkey Hcs) as Hoi.
  apply candidates_ids in Hcs as [_ Hin].
  set (p := plan_orchestration now policy cs).
  destruct (plan_covers_each_task_once now policy cs) as (Hsorted & Hnd & Hcover & _).
  fold p in Hsorted, Hnd, Hcover.
  set (closed := λ d : OrchestrationDecision, d <| od_mutation_allowed := false |>).
  assert (ds = closed <$> p) as ->.
  { rewrite <- Hds. apply py_sorted_id.
    apply (Sorted_fmap_inv od_task_id (λ x y, String.leb x y = true)). by rewrite <- list_fmap_compose. }
  assert (od_task_id <$> (closed <$> p) = od_task_id <$> p) as Hids
    by by rewrite <- list_fmap_compose.
  split_and!.
  - rewrite Hids. apply (sorted_by_key_unique id); [done|by apply py_sorted_Sorted, leb_key_total
      |by intros x y _ _|].
    apply NoDup_Permutation; [done|apply NoDup_sorted_ids|]. intros x. by rewrite Hcover, Hoi.
  - exact Hext.
  - apply Forall_fmap, Forall_forall. done.
  - rewrite length_filter_fmap. change (List.filter _ p) with (List.filter od_selected p).
    unfold p. rewrite selected_count, length_take. lia.
  - apply Forall_fmap, Forall_forall. intros d Hd Hk. cbn in Hk |- *.
    destruct (plan_recommends _ _ _ _ Hd Hk) as (c & Hc & Hid & Hkc).
    destruct (Hin c Hc) as (id & _ & Hb).
    pose proof (candidate_id _ _ _ _ _ _ _ Hkey Hb) as E. rewrite <- Hid, E.
    by eapply recommended_live.
Qed.

End Advisory.

(** ** Witnesses *)

#[local] Existing Instance AsciiTables.
#[local] Existing Instance plan_formatting.
#[local] Existing Instance text_digests.
#[local] Existing Instance newest_tie.

#[local] Instance demo_providers : EvidenceProviders := {|
  lsm_observe := λ task session _,
    Ok (mkLsmObservation task (of_Z 990) (Some session) (Some "active") None (Some "active")
          None (Some true) (Some false) 0 None 0 0 0 None None None None []);
  workspace_observe := λ task cwd,
    Ok (mkWorkspaceObservation task (of_Z 990) cwd true (Some true) None (Some "abc") None
          (Some false) None [] None []);
|}.

(** The quiet task of the dispatcher, stored. *)
Definition advisory_db : Registry :=
  empty_registry <| rg_tasks := {["task" := w_task quiet_world]} |>
    <| rg_workers := {["w1" := mkWorkerRecord "w1" "task" "https://chat/c/1/" None
                                 WorkerStatus.ACTIVE (of_Z 1) None None]} |>.

Definition advisory_observations : Observations :=
  no_observations <| ob_reconciliations := mkTable 3 [(1, first_record); (2, second_record)] |>.

Definition advisory_hints : TaskRuntimeHints :=
  mkTaskRuntimeHints (Some (of_Z 1100)) (Some (of_Z 900)) false None.

Definition advisory_history : TaskSchedulingHistory := mkTaskSchedulingHistory (Some (of_Z 5)) 0.

Definition advisory_decision : res OrchestrationDecision :=
  evaluate advisory_db advisory_observations default_watch_policy "task" "uuid3" advisory_hints
    (Some advisory_history) (of_Z 1000) default_orchestration_policy.

Lemma advisory_recommendation_is_live_witness :
  live_evidence advisory_db advisory_observations default_watch_policy "task" "uuid3"
    advisory_hints (of_Z 1000) default_orchestration_policy.
Proof.
  destruct advisory_decision as [d|e] eqn:E; [|by vm_compute in E].
  destruct (advisory_recommendation_is_live advisory_db advisory_observations
    default_watch_policy "task" "uuid3" advisory_hints (Some advisory_history) (of_Z 1000)
    default_orchestration_policy d) as [H _].
  - exact E.
  - vm_compute in E. injection E as <-. reflexivity.
  - exact H.
Defined.

Definition advisory_plan (ids : list string) : res (list OrchestrationDecision) :=
  plan advisory_db advisory_observations default_watch_policy (Some ids) (λ id, id)
    (λ _, Some advisory_hints) (λ _, Some advisory_history) (of_Z 1000)
    default_orchestration_policy.

(** A request that repeats a task. *)
Lemma advisory_plan_is_canonical_witness :
  ∃ ds, advisory_plan ["task"; "task"] = Ok ds ∧ od_task_id <$> ds = ["task"] ∧
    advisory_plan ["task"] = Ok ds.
Proof.
  destruct (advisory_plan ["task"; "task"]) as [ds|e] eqn:E; [|by vm_compute in E].
  destruct (advisory_plan_is_canonical advisory_db advisory_observations default_watch_policy
    ["task"; "task"] (λ id, id) (λ _, Some advisory_hints) (λ _, Some advisory_history)
    (of_Z 1000) default_orchestration_policy ds) as (Hids & Hext & _).
  - intros k t H. cbn in H. apply lookup_singleton_Some in H as [<- <-]. reflexivity.
  - exact E.
  - exists ds. split; [reflexivity|]. split; [exact Hids|].
    apply Hext. intros id. rewrite !elem_of_cons. tauto.
Defined.
