(* ===== verification/TimeoutRecovery.v ===== *)
(** * timeout_recovery.py: the resident recovery of delivery errors

    A gate on top of a dispatch plan: an explicit recoverable error is on the page, it is
    not stale, it was not already answered, and the last action is some time ago. *)

From S2P Require Import Prelude PyFloat PyStr PyJson Models Registry ObsTable Observations.
From S2P Require Import AttemptTables Reconcile Dispatcher Actions Workers.

Open Scope string_scope.
Open Scope Z_scope.
Open Scope list_scope.

Definition RECOVERABLE_DELIVERY_ERRORS : list string :=
  ["message delivery timed out"; "error in message stream";
   "there was an error generating a response"; "something went wrong"].

Record TimeoutRecoveryPolicy := mkTimeoutRecoveryPolicy {
  tp_enabled : bool;
  tp_cooldown_s : float;
}.

Definition default_timeout_policy : TimeoutRecoveryPolicy :=
  mkTimeoutRecoveryPolicy false (of_Z 60).

Section Timeout.
Context {tables : UnicodeTables} {fmt : Formatting}.

Definition normalized_visible_error (browser : option BrowserObservation) : option string :=
  b ← browser;
  error ← bo_visible_error b;
  if str_truthy error then Some (join " " (py_split (lower (strip error)))) else None.

Definition is_recoverable_delivery_error (browser : option BrowserObservation) : bool :=
  match normalized_visible_error browser with
  | None => false
  | Some marker => existsb (λ known, str_contains known marker) RECOVERABLE_DELIVERY_ERRORS
  end.

(** The loop over the history, newest first: a different error ends the episode, a
    generation inside it shadows the error. *)
Fixpoint scan_episode (marker : string) (history : list BrowserObservation) : option bool :=
  match history with
  | [] => None
  | observed :: history =>
      if negb (bool_decide (normalized_visible_error (Some observed) = Some marker))
      then Some false
      else if bool_decide (bo_generating observed = Some true) then Some true
      else scan_episode marker history
  end.

Definition error_shadowed_by_active_generation (o : Observations) (r : Registry)
    (task_id : string) (browser : option BrowserObservation) : res bool :=
  match browser, normalized_visible_error browser with
  | Some b, Some marker =>
      task ← get_task r task_id;
      let worker_id := tr_current_worker_id task in
      if negb (opt_truthy worker_id) ||
         negb (bool_decide (Some (bo_worker_id b) = worker_id))
      then Ok true else
      let history := browser_observation_history o worker_id OBSERVATION_RETENTION_PER_ENTITY in
      Ok (default (OBSERVATION_RETENTION_PER_ENTITY <=? Z.of_nat (length history))
            (scan_episode marker history))
  | _, _ => Ok false
  end.

(** [str(metadata.get("ack_browser_signature") or "")] *)
Definition ack_signature (a : ActionAttempt) : string :=
  let j := dget "ack_browser_signature" (aa_metadata a) in if jtruthy j then json_str j else "".

Definition acknowledged_state_is_unchanged (r : Registry) (task_id : string)
    (browser : option BrowserObservation) : res bool :=
  match b ← browser; bo_message_signature b with
  | Some signature =>
      if negb (str_truthy signature) then Ok false else
      attempts ← action_attempts r task_id 20;
      match next_where (action_state ActionAttemptState.ACKNOWLEDGED) attempts with
      | Some a => Ok (str_truthy (ack_signature a) && String.eqb (ack_signature a) signature)
      | None => Ok false
      end
  | None => Ok false
  end.

(** [now] is the clock. *)
Definition gate_timeout_dispatch_plan (o : Observations) (r : Registry) (plan : DispatchPlan)
    (browser : option BrowserObservation) (policy : TimeoutRecoveryPolicy) (now : float)
    : res DispatchPlan :=
  unchanged ← acknowledged_state_is_unchanged r (pl_task_id plan) browser;
  shadowed ← error_shadowed_by_active_generation o r (pl_task_id plan) browser;
  recent_attempts ← action_attempts r (pl_task_id plan) 1;
  let elapsed := (λ a, fsub now (aa_created_at a)) <$> head recent_attempts in
  let cooled := match elapsed with
                | None => true
                | Some e => fle (fmax (of_Z 0) (tp_cooldown_s policy)) e && fle (of_Z 0) e
                end in
  let gates := [
    mkGate "timeout_autorecovery_enabled" (tp_enabled policy)
      "resident timeout autorecovery is not explicitly enabled";
    mkGate "explicit_recoverable_delivery_error" (is_recoverable_delivery_error browser)
      "no explicit recoverable web chat delivery error is present";
    mkGate "timeout_state_not_already_acknowledged" (negb unchanged)
      "current UI signature already has a positive recovery acknowledgement";
    mkGate "timeout_error_not_shadowed_by_newer_generation" (negb shadowed)
      "visible delivery error coexisted with a newer active generation; wait for the stale banner to clear";
    mkGate "timeout_recovery_cooldown_elapsed" cooled
      "resident timeout recovery cooldown has not elapsed"] in
  let blockers := pl_blockers plan ++ gates_blockers gates in
  let allowed := pl_candidate_ready plan && match blockers with [] => true | _ => false end in
  Ok (plan <| pl_candidate_ready := allowed |>
           <| pl_would_dispatch := allowed && pl_transport_enabled plan |>
           <| pl_checks := foldl (λ cs g, set_check (g_name g) (g_pass g) false cs)
                             (pl_checks plan) gates |>
           <| pl_blockers := blockers |>
           <| pl_reason := if allowed
                then "explicit delivery timeout is stable across all recovery fences"
                else "resident timeout recovery is blocked by deterministic safety gates" |>).

(** ** The episode of an error *)

(** The newest observations that all show the error. *)
Fixpoint episode (marker : string) (history : list BrowserObservation) : list BrowserObservation :=
  match history with
  | [] => []
  | observed :: history =>
      if bool_decide (normalized_visible_error (Some observed) = Some marker)
      then observed :: episode marker history else []
  end.

Definition no_generation (history : list BrowserObservation) : Prop :=
  ∀ obs, obs ∈ history → bo_generating obs ≠ Some true.

Lemma scan_episode_clear marker seen n :
  default (Nat.leb n (length (take n seen))) (scan_episode marker (take n seen)) = false →
  no_generation (episode marker seen).
Proof using Type.
  intros H. assert (∀ l, scan_episode marker l = None → no_generation (episode marker l)) as Hnone.
  { induction l as [|x l IH]; cbn; [by intros _ obs ?%not_elem_of_nil|].
    case_bool_decide; cbn; [|done]. case_bool_decide as Hg; [done|]. intros E obs.
    intros [->|Hin]%elem_of_cons; [done|by apply IH]. }
  assert (∀ l1 l2, scan_episode marker l1 = Some false → no_generation (episode marker (l1 ++ l2)))
    as Hsome.
  { induction l1 as [|x l1 IH]; intros l2; cbn; [done|].
    case_bool_decide; cbn; [|by intros _ obs ?%not_elem_of_nil].
    case_bool_decide as Hg; [done|]. intros E obs [->|Hin]%elem_of_cons; [done|by eapply IH]. }
  destruct (scan_episode marker (take n seen)) as [b|] eqn:E; cbn in H.
  - subst b. rewrite <- (take_drop n seen). by apply Hsome.
  - apply Nat.leb_gt in H. rewrite length_take in H. rewrite take_ge in E by lia. by apply Hnone.
Qed.

Definition has_ack_signature (a : ActionAttempt) (signature : string) : Prop :=
  str_truthy signature = true ∧ ack_signature a = signature.

(** What a plan rests on that the gate lets through, given everything that was ever
    accepted for its worker. *)
Record timeout_fenced (r : Registry) (plan : DispatchPlan) (b : BrowserObservation)
    (seen : list BrowserObservation) (policy : TimeoutRecoveryPolicy) (now : float) : Prop := {
  tf_plan : pl_candidate_ready plan = true ∧ pl_blockers plan = [];
  tf_enabled : tp_enabled policy = true;
  tf_worker : ∃ task, get_task r (pl_task_id plan) = Ok task ∧
    tr_current_worker_id task = Some (bo_worker_id b);
  tf_error : ∃ marker known, normalized_visible_error (Some b) = Some marker ∧
    known ∈ RECOVERABLE_DELIVERY_ERRORS ∧ str_contains known marker = true ∧
    no_generation (episode marker seen);
  tf_not_answered : ∀ attempts a signature, action_attempts r (pl_task_id plan) 20 = Ok attempts →
    next_where (action_state ActionAttemptState.ACKNOWLEDGED) attempts = Some a →
    bo_message_signature b = Some signature → ¬ has_ack_signature a signature;
  tf_cooled : ∀ a rest, action_attempts r (pl_task_id plan) 1 = Ok (a :: rest) →
    fle (fmax (of_Z 0) (tp_cooldown_s policy)) (fsub now (aa_created_at a)) = true;
}.

(** What a passed check on the shadow says about everything that was ever accepted. *)
Lemma unshadowed calls r task_id b marker :
  normalized_visible_error (Some b) = Some marker →
  error_shadowed_by_active_generation (observe_run no_observations calls) r task_id (Some b) =
    Ok false →
  (∃ task, get_task r task_id = Ok task ∧ tr_current_worker_id task = Some (bo_worker_id b)) ∧
  no_generation (episode marker
    (newest_first bo_observed_at (rows_of bo_worker_id (bo_worker_id b) (accepted_log calls))).*2).
Proof using Type.
  intros Hm. unfold error_shadowed_by_active_generation. rewrite Hm.
  intros (task & Ht & H)%bind_Ok_inv. cbv zeta in H.
  destruct (opt_truthy (tr_current_worker_id task)) eqn:Hw; [|done]. cbn [negb orb] in H.
  case_bool_decide as Hb; [|done]. cbn [negb] in H. injection H as H. symmetry in Hb.
  split; [by exists task|]. rewrite Hb in H, Hw.
  unfold browser_observation_history, history in H. rewrite Hw in H.
  change (default "" (Some (bo_worker_id b))) with (bo_worker_id b) in H.
  rewrite (re_newest _ _ _ _ _ (observe_run_retained calls)) in H. cbn [tb_rows] in H.
  rewrite Z.min_id, Z.max_r in H by (unfold OBSERVATION_RETENTION_PER_ENTITY; lia).
  fold retention in H. rewrite take_take, Nat.min_id, fmap_take in H.
  apply (scan_episode_clear _ _ retention). rewrite <- H. f_equal.
  apply eq_true_iff_eq. rewrite Nat.leb_le, Z.leb_le. unfold retention, OBSERVATION_RETENTION_PER_ENTITY.
  lia.
Qed.

(** C16: Resident recovery never answers a stale error and never widens a plan: whatever was
    observed before, a plan that passes the gate was ready without blockers, its browser
    shows a known delivery error of the task's current worker, in everything ever accepted
    for that worker no sample of the current run of this error was generating, the page is
    not the one of the last acknowledged recovery, and the last action is a cooldown ago.
    The gate changes neither the task, the action nor the fence of the plan. *)
Theorem timeout_recovery_is_fenced calls r plan browser policy now plan' :
  gate_timeout_dispatch_plan (observe_run no_observations calls) r plan browser policy now
    = Ok plan' →
  (pl_task_id plan', pl_action plan', pl_fence_token plan', pl_current_reconcile_id plan',
   pl_transport_enabled plan') =
  (pl_task_id plan, pl_action plan, pl_fence_token plan, pl_current_reconcile_id plan,
   pl_transport_enabled plan) ∧
  pl_would_dispatch plan' = pl_candidate_ready plan' && pl_transport_enabled plan ∧
  (pl_candidate_ready plan' = true →
   pl_blockers plan' = [] ∧
   ∃ b, browser = Some b ∧
     timeout_fenced r plan b
       (newest_first bo_observed_at
          (rows_of bo_worker_id (bo_worker_id b) (accepted_log calls))).*2 policy now).
Proof using Type.
  unfold gate_timeout_dispatch_plan. intros (unchanged & Hu & H)%bind_Ok_inv.
  apply bind_Ok_inv in H as (shadowed & Hs & H). apply bind_Ok_inv in H as (attempts & Ha & H).
  cbv zeta in H. injection H as <-. split; [done|]. split; [done|]. cbn [pl_candidate_ready pl_blockers].
  destruct (pl_candidate_ready plan) eqn:Hready; [cbn [andb]|done]. intros Hall.
  match type of Hall with match ?bs with [] => _ | _ => _ end = _ => destruct bs eqn:Hb; [|done] end.
  split; [done|]. apply app_eq_nil in Hb as [Hplan Hgates].
  apply gates_pass in Hgates. rewrite !Forall_cons in Hgates.
  destruct Hgates as (H1 & H2 & H3 & H4 & H5 & _).
  cbn [g_pass] in H1, H2, H3, H4, H5. apply negb_true_iff in H3, H4. subst unchanged shadowed.
  unfold is_recoverable_delivery_error in H2.
  destruct (normalized_visible_error browser) as [marker|] eqn:Hm; [|done].
  destruct browser as [b|]; [|done]. exists b. split; [done|].
  destruct (unshadowed _ _ _ _ _ Hm Hs) as [Hw Hep].
  apply existsb_exists in H2 as (known & Hk%list_elem_of_In & Hc).
  constructor; [done|done|done|by exists marker, known| |].
  - intros l a sg Hl Hn Hsg [Ht He]. unfold acknowledged_state_is_unchanged in Hu. cbn in Hu.
    rewrite Hsg, Ht in Hu. cbn [negb] in Hu. rewrite Hl, Ok_bind, Hn in Hu.
    injection Hu as Hu. by rewrite He, Ht, String.eqb_refl in Hu.
  - intros a rest Hl. rewrite Ha in Hl. injection Hl as ->. cbn in H5.
    by apply andb_true_iff in H5 as [? _].
Qed.

End Timeout.

#[local] Existing Instance AsciiTables.
#[local] Existing Instance plan_formatting.

Definition failed_delivery (at_ : float) : BrowserObservation :=
  mkBrowserObservation "w" at_ None (Some false) None None
    (Some " Message  delivery TIMED out. ") None (Some "page") [].

Definition stalled_task : TaskRecord :=
  mkTaskRecord "t" "p" "o" "c" SupervisorState.SUSPECT None [] (Some "w") 0 3 (of_Z 0) (of_Z 0).

Definition stalled_registry : Registry := one_worker <| rg_tasks := {["t" := stalled_task]} |>.

Definition stalled_plan : DispatchPlan :=
  mkDispatchPlan "t" (of_Z 50) DispatchAction.CONTINUE_CURRENT_WORKER true true true "ready"
    (Some "r1") (Some "r2") (Some "fence") [] [].

(** A page that generated before the error appeared. *)
Definition stalled_calls : list (Registry * BrowserObservation) :=
  [(one_worker, seen_at "w" (of_Z 10) true); (one_worker, failed_delivery (of_Z 20));
   (one_worker, failed_delivery (of_Z 30))].

Lemma timeout_recovery_is_fenced_witness :
  ∃ plan', gate_timeout_dispatch_plan (observe_run no_observations stalled_calls) stalled_registry
      stalled_plan (Some (failed_delivery (of_Z 30))) (mkTimeoutRecoveryPolicy true (of_Z 60))
      (of_Z 50) = Ok plan' ∧
    pl_candidate_ready plan' = true ∧ pl_blockers plan' = [].
Proof.
  eexists. split; [vm_compute; reflexivity|]. split; [reflexivity|].
  edestruct (timeout_recovery_is_fenced stalled_calls stalled_registry stalled_plan
    (Some (failed_delivery (of_Z 30))) (mkTimeoutRecoveryPolicy true (of_Z 60)) (of_Z 50))
    as (_ & _ & H); [vm_compute; reflexivity|].
  by apply H.
Defined.
