(* ===== verification/OverrunContinuation.v ===== *)
(** * overrun_continuation.py: the hard wall-clock nudge

    A turn of a worker that has run longer than the threshold is answered with a plain
    continuation.  The clock of the turn starts at the worker, at its last effective
    continuation or at the last generation seen, whichever is latest. *)

From S2P Require Import Prelude PyFloat PyStr PyJson Models Registry ObsTable Observations.
From S2P Require Import AttemptTables Reconcile Dispatcher Actions Workers.

Open Scope string_scope.
Open Scope Z_scope.
Open Scope list_scope.

Definition OVERRUN_CONTINUE_PROMPT : string := "continue".

(** [_EFFECTIVE_CONTINUE_STATES] *)
Definition effective_continue (a : ActionAttempt) : bool :=
  match aa_state a with
  | ActionAttemptState.SUBMITTED | ActionAttemptState.RECONCILE_REQUIRED
  | ActionAttemptState.ACKNOWLEDGED => true
  | _ => false
  end.

(** [_BLOCKED_ASSESSMENT_STATES] *)
Definition blocked_assessment (state : string) : bool :=
  existsb (String.eqb state) (SupervisorState.value <$>
    [SupervisorState.COMPLETED; SupervisorState.ABANDONED; SupervisorState.BLOCKED;
     SupervisorState.NEEDS_HUMAN]).

Record OverrunContinuationPolicy := mkOverrunContinuationPolicy {
  op_enabled : bool;
  op_overrun_after_s : float;
  op_sample_lead_s : float;
  op_retry_cooldown_s : float;
  op_max_reconciliation_age_s : float;
  op_min_reconciliation_separation_s : float;
  op_max_browser_observation_age_s : float;
  op_min_dom_quiet_s : float;
  op_auto_discover_visible_conversations : bool;
}.

Definition default_overrun_policy : OverrunContinuationPolicy :=
  mkOverrunContinuationPolicy false (of_Z (25 * 60 + 20)) (of_Z 60) (of_Z 120) (of_Z 120) (of_Z 3)
    (of_Z 30) (of_Z 2) false.

#[export] Instance eta_OverrunContinuationPolicy : Eta OverrunContinuationPolicy := λ p,
  mkOverrunContinuationPolicy (op_enabled p) (op_overrun_after_s p) (op_sample_lead_s p)
    (op_retry_cooldown_s p) (op_max_reconciliation_age_s p)
    (op_min_reconciliation_separation_s p) (op_max_browser_observation_age_s p)
    (op_min_dom_quiet_s p) (op_auto_discover_visible_conversations p).

Record OverrunClock := mkOverrunClock {
  ck_task_id : string;
  ck_worker_id : string;
  ck_anchor_at : float;
  ck_elapsed_s : float;
  ck_due_at : float;
  ck_due : bool;
  ck_sample_due : bool;
}.

(** ** The clock *)

Definition generating (b : BrowserObservation) : bool :=
  bool_decide (bo_generating b = Some true).

(** The loop over the history, newest first, once a generation was found at [earliest]. *)
Fixpoint run_start (earliest : float) (history : list BrowserObservation) : float :=
  match history with
  | observed :: history =>
      if generating observed then run_start (bo_observed_at observed) history else earliest
  | [] => earliest
  end.

Fixpoint last_run_start (history : list BrowserObservation) : option float :=
  match history with
  | observed :: history =>
      if generating observed then Some (run_start (bo_observed_at observed) history)
      else last_run_start history
  | [] => None
  end.

Definition latest_observed_generation_started_at (o : Observations) (worker_id : string)
    : option float :=
  last_run_start (browser_observation_history o (Some worker_id) 2000).

(** [attempt.updated_at or attempt.created_at] *)
Definition touched_at (a : ActionAttempt) : float :=
  if feq (aa_updated_at a) (of_Z 0) then aa_created_at a else aa_updated_at a.

Definition _effective_continue_at (r : Registry) (task_id worker_id : string)
    : res (option float) :=
  attempts ← action_attempts r task_id 200;
  Ok (a ← next_where (λ a, String.eqb (aa_worker_id a) worker_id &&
            String.eqb (aa_action a)
              (DispatchAction.value DispatchAction.CONTINUE_CURRENT_WORKER) &&
            effective_continue a) attempts;
      Some (default (touched_at a) (aa_submitted_at a))).

(** [now] is the clock. *)
Definition overrun_clock (o : Observations) (r : Registry) (task_id : string)
    (policy : OverrunContinuationPolicy) (now : float) : res (option OverrunClock) :=
  task ← get_task r task_id;
  if task_terminal task || negb (opt_truthy (tr_current_worker_id task)) then Ok None else
  worker ← get_worker r (default "" (tr_current_worker_id task));
  if negb (bool_decide (wr_status worker = WorkerStatus.ACTIVE)) then Ok None else
  continued ← _effective_continue_at r task_id (wr_worker_id worker);
  let at_least anchor (t : option float) :=
    match t with Some t => fmax anchor t | None => anchor end in
  let anchor := at_least (at_least (wr_started_at worker) continued)
                  (latest_observed_generation_started_at o (wr_worker_id worker)) in
  let threshold := fmax (of_Z 1) (op_overrun_after_s policy) in
  let elapsed := fsub now anchor in
  let lead := fmax (of_Z 0) (fmin (op_sample_lead_s policy) threshold) in
  Ok (Some (mkOverrunClock task_id (wr_worker_id worker) anchor elapsed (fadd anchor threshold)
    (fle threshold elapsed && fle (of_Z 0) elapsed)
    (fle (fsub threshold lead) elapsed && fle (of_Z 0) elapsed))).

(** The loop over the attempts: one that may have been sent ends the search. *)
Fixpoint last_failure (worker_id : string) (attempts : list ActionAttempt) : option float :=
  match attempts with
  | [] => None
  | a :: attempts =>
      if negb (String.eqb (aa_worker_id a) worker_id) then last_failure worker_id attempts
      else if action_state ActionAttemptState.FAILED a then Some (touched_at a)
      else if effective_continue a then None
      else last_failure worker_id attempts
  end.

Definition _latest_failed_action_at (r : Registry) (task_id worker_id : string)
    : res (option float) :=
  attempts ← action_attempts r task_id 50;
  Ok (last_failure worker_id attempts).

(** ** The plan *)

Definition present {A} (x : option A) : bool := match x with Some _ => true | None => false end.

Definition clock_gates (task : TaskRecord) (clock : OverrunClock)
    (policy : OverrunContinuationPolicy) : list gate :=
  [mkGate "overrun_autocontinue_enabled" (op_enabled policy)
     "hard-overrun auto-continue is not explicitly enabled";
   mkGate "hard_overrun_due" (ck_due clock)
     "current work turn has not exceeded the hard-overrun threshold";
   mkGate "task_not_terminal" (negb (task_terminal task)) "task is terminal";
   mkGate "current_worker_matches_clock"
     (bool_decide (tr_current_worker_id task = Some (ck_worker_id clock)))
     "current worker changed after the overrun clock was evaluated"].

Definition sample_gates (task : TaskRecord) (previous current : option ReconciliationRecord)
    (policy : OverrunContinuationPolicy) (now : float) : list gate :=
  [mkGate "current_reconciliation_present" (present current) "no current reconciliation record";
   mkGate "previous_reconciliation_present" (present previous)
     "two-phase overrun continuation requires a previous reconciliation sample"] ++
  match current with
  | None => []
  | Some c =>
      [mkGate "current_reconciliation_fresh"
         (recent now (rc_created_at c) (op_max_reconciliation_age_s policy))
         "current reconciliation record is stale or from the future";
       mkGate "current_worker_matches_task"
         (bool_decide (rc_current_worker_id c = tr_current_worker_id task))
         "current worker changed during reconciliation";
       mkGate "assessment_allows_overrun_nudge" (negb (blocked_assessment (rc_state c)))
         ("current assessment state " +:+ rc_state c +:+ " forbids automatic continuation")]
  end ++
  [mkGate "distinct_reconciliation_samples"
     (match previous, current with
      | Some p, Some c => negb (String.eqb (rc_reconcile_id p) (rc_reconcile_id c))
      | _, _ => false
      end) "overrun continuation requires two distinct reconciliation samples";
   mkGate "previous_reconciliation_fresh"
     (match previous with
      | Some p => recent now (rc_created_at p) (op_max_reconciliation_age_s policy)
      | None => false
      end) "previous reconciliation record is stale or from the future";
   mkGate "reconciliation_separation_sufficient"
     (match previous, current with
      | Some p, Some c => fle (fmax (of_Z 0) (op_min_reconciliation_separation_s policy))
                            (fsub (rc_created_at c) (rc_created_at p))
      | _, _ => false
      end) "reconciliation samples are too close together";
   mkGate "fence_stable"
     (match previous, current with
      | Some p, Some c => fence_matches p c
      | _, _ => false
      end) "reconciliation fence changed between overrun samples"].

Definition page_gates (worker : WorkerRecord) (clock : OverrunClock)
    (browser : option BrowserObservation) (policy : OverrunContinuationPolicy) (now : float)
    : list gate :=
  [mkGate "registered_worker_active" (bool_decide (wr_status worker = WorkerStatus.ACTIVE))
     "registered current worker is not active";
   mkGate "browser_observed"
     (match browser with
      | Some b => String.eqb (bo_worker_id b) (ck_worker_id clock)
      | None => false
      end) "current worker has no positive browser observation"] ++
  match browser with
  | None => []
  | Some b =>
      [mkGate "browser_url_matches_registered"
         (opt_truthy (bo_url b) &&
          String.eqb (normalize_url (default "" (bo_url b)))
            (normalize_url (wr_conversation_url worker)))
         "browser URL does not exactly match the registered worker URL";
       mkGate "browser_observation_fresh"
         (recent now (bo_observed_at b) (op_max_browser_observation_age_s policy))
         "browser observation is too stale for overrun continuation";
       mkGate "browser_not_generating" (negb (generating b))
         "browser still reports active generation; wait for the composer";
       mkGate "composer_available"
         (jis_true (dget "composer_present" (bo_raw b)) ||
          bool_decide (bo_send_button_ready b = Some true))
         "no positive composer-presence evidence";
       mkGate "dom_quiet_enough"
         (match bo_last_dom_change_at b with
          | Some t => quiet now t (op_min_dom_quiet_s policy)
          | None => false
          end) "DOM/UI has not been stably quiet long enough"]
  end.

Definition retry_gate (failed_at : option float) (policy : OverrunContinuationPolicy)
    (now : float) : gate :=
  mkGate "overrun_retry_cooldown_elapsed"
    (match failed_at with
     | None => true
     | Some t => quiet now t (op_retry_cooldown_s policy) && fle (of_Z 0) (fsub now t)
     end) "hard-overrun continuation retry cooldown has not elapsed".

Definition build_overrun_dispatch_plan (r : Registry) (task : TaskRecord) (clock : OverrunClock)
    (previous current : option ReconciliationRecord) (browser : option BrowserObservation)
    (policy : OverrunContinuationPolicy) (transport_enabled : bool) (now : float)
    : res DispatchPlan :=
  worker ← get_worker r (ck_worker_id clock);
  failed_at ← _latest_failed_action_at r (tr_task_id task) (ck_worker_id clock);
  let gates := clock_gates task clock policy ++ sample_gates task previous current policy now ++
               page_gates worker clock browser policy now ++ [retry_gate failed_at policy now] in
  let blockers := gates_blockers gates in
  let ready := match blockers with [] => true | _ => false end in
  Ok (mkDispatchPlan (tr_task_id task) now DispatchAction.CONTINUE_CURRENT_WORKER ready
        transport_enabled (ready && transport_enabled)
        (if ready then "hard-overrun threshold exceeded and exact current-worker fences are stable"
         else "hard-overrun continuation is blocked by deterministic safety gates")
        (rc_reconcile_id <$> previous) (rc_reconcile_id <$> current) (rc_fence_token <$> current)
        (gates_checks gates) blockers).

(** ** The start of the last generation *)

(** The newest observations are idle, then come those of one generation, up to its start. *)
Definition last_generation (history : list BrowserObservation) (start : float) : Prop :=
  ∃ idle run first rest, history = idle ++ run ++ first :: rest ∧
    Forall (λ b, generating b = false) idle ∧ Forall (λ b, generating b = true) (run ++ [first]) ∧
    (∀ b, head rest = Some b → generating b = false) ∧ bo_observed_at first = start.

Lemma run_start_spec first history :
  generating first = true →
  ∃ run last rest, first :: history = run ++ last :: rest ∧
    Forall (λ b, generating b = true) (run ++ [last]) ∧
    (∀ b, head rest = Some b → generating b = false) ∧
    bo_observed_at last = run_start (bo_observed_at first) history.
Proof.
  revert first. induction history as [|x history IH]; intros first Hf; cbn.
  - exists [], first, []. split_and!; [done|by repeat constructor|done|done].
  - destruct (generating x) eqn:Hx.
    + destruct (IH x Hx) as (run & last & rest & E & Hall & Hr & Hl).
      exists (first :: run), last, rest. rewrite E. split_and!; [done|by constructor|done|done].
    + exists [], first, (x :: history).
      split_and!; [done|by repeat constructor|by intros b [= <-]|done].
Qed.

Lemma last_run_start_spec history start :
  last_run_start history = Some start → last_generation history start.
Proof.
  induction history as [|x history IH]; cbn; [done|]. destruct (generating x) eqn:Hx.
  - intros [= <-]. destruct (run_start_spec x history Hx) as (run & last & rest & E & Hall & Hr & Hl).
    exists [], run, last, rest. split_and!; [done|constructor|done|done|done].
  - intros (idle & run & first & rest & -> & Hi & Hg & Hr & Hs)%IH.
    exists (x :: idle), run, first, rest. split_and!; [done|by constructor|done|done|done].
Qed.

(** ** The nudge is fenced *)

Lemma fmax_not_below x y t : flt x t = false → flt (fmax x y) t = false.
Proof.
  intros H. unfold fmax. destruct (flt x y) eqn:E; [|done]. destruct (flt y t) eqn:E2; [|done].
  by rewrite (flt_trans _ _ _ E E2) in H.
Qed.

Lemma fmax_not_below_r x y : flt (fmax x y) y = false.
Proof. unfold fmax. destruct (flt x y) eqn:E; [apply flt_irrefl|done]. Qed.

(** The clock of a turn: due only a whole threshold after the worker started, after its last
    effective continuation and after the start of the last generation seen. *)
Record overrun_due (o : Observations) (r : Registry) (task_id : string)
    (policy : OverrunContinuationPolicy) (now : float) (clock : OverrunClock) : Prop := {
  od_elapsed : fle (fmax (of_Z 1) (op_overrun_after_s policy)) (fsub now (ck_anchor_at clock)) = true;
  od_started : ∃ worker, get_worker r (ck_worker_id clock) = Ok worker ∧
    wr_status worker = WorkerStatus.ACTIVE ∧
    flt (ck_anchor_at clock) (wr_started_at worker) = false;
  od_continued : ∀ t, _effective_continue_at r task_id (ck_worker_id clock) = Ok (Some t) →
    flt (ck_anchor_at clock) t = false;
  od_generated : ∀ start,
    latest_observed_generation_started_at o (ck_worker_id clock) = Some start →
    last_generation (browser_observation_history o (Some (ck_worker_id clock)) 2000) start ∧
    flt (ck_anchor_at clock) start = false;
}.

Lemma overrun_clock_due o r task_id policy now clock :
  (∀ k w, rg_workers r !! k = Some w → wr_worker_id w = k) →
  overrun_clock o r task_id policy now = Ok (Some clock) → ck_due clock = true →
  overrun_due o r task_id policy now clock.
Proof.
  intros Hkey. unfold overrun_clock. intros (task & _ & H)%bind_Ok_inv Hdue.
  destruct (task_terminal task || _); [done|].
  apply bind_Ok_inv in H as (worker & Hw%fetch_Ok & H).
  destruct (bool_decide (wr_status worker = WorkerStatus.ACTIVE)) eqn:Hst; [|done]. cbn [negb] in H.
  apply bool_decide_eq_true in Hst. apply bind_Ok_inv in H as (continued & Hc & H).
  cbv zeta in H. injection H as <-. cbn in Hdue. apply andb_true_iff in Hdue as [Hdue _].
  assert (wr_worker_id worker = default "" (tr_current_worker_id task)) as Hid by by apply Hkey.
  set (anchor := match latest_observed_generation_started_at o (wr_worker_id worker) with
                 | Some t => _ | None => _ end) in *.
  constructor; cbn [ck_anchor_at ck_worker_id]; [done| | |].
  - exists worker. split_and!; [apply fetch_Ok; by rewrite Hid|done|].
    unfold anchor. repeat case_match; repeat apply fmax_not_below; apply flt_irrefl.
  - intros t Ht. rewrite Hc in Ht. injection Ht as ->. unfold anchor.
    case_match; [apply fmax_not_below|]; apply fmax_not_below_r.
  - intros start Hs. split; [by apply last_run_start_spec|]. unfold anchor. rewrite Hs.
    apply fmax_not_below_r.
Qed.

Record page_ready (worker : WorkerRecord) (b : BrowserObservation)
    (policy : OverrunContinuationPolicy) (now : float) : Prop := {
  pr_worker : bo_worker_id b = wr_worker_id worker;
  pr_url : ∃ url, bo_url b = Some url ∧
    normalize_url url = normalize_url (wr_conversation_url worker);
  pr_fresh : recent now (bo_observed_at b) (op_max_browser_observation_age_s policy) = true;
  pr_idle : bo_generating b ≠ Some true;
  pr_composer : dget "composer_present" (bo_raw b) = JBool true ∨ bo_send_button_ready b = Some true;
  pr_quiet : ∃ t, bo_last_dom_change_at b = Some t ∧ quiet now t (op_min_dom_quiet_s policy) = true;
}.

(** Two samples that agree, close enough to now and far enough from each other. *)
Record stable_samples (task : TaskRecord) (p c : ReconciliationRecord)
    (policy : OverrunContinuationPolicy) (now : float) : Prop := {
  ss_distinct : rc_reconcile_id p ≠ rc_reconcile_id c;
  ss_recent : recent now (rc_created_at p) (op_max_reconciliation_age_s policy) = true ∧
              recent now (rc_created_at c) (op_max_reconciliation_age_s policy) = true;
  ss_apart : fle (fmax (of_Z 0) (op_min_reconciliation_separation_s policy))
               (fsub (rc_created_at c) (rc_created_at p)) = true;
  ss_fence : fence_matches p c = true;
  ss_worker : rc_current_worker_id c = tr_current_worker_id task;
  ss_state : blocked_assessment (rc_state c) = false;
}.

Lemma sample_gates_pass task previous current policy now :
  Forall (λ g, g_pass g = true) (sample_gates task previous current policy now) →
  ∃ p c, previous = Some p ∧ current = Some c ∧ stable_samples task p c policy now.
Proof.
  unfold sample_gates. intros Hg. rewrite !Forall_app, !Forall_cons in Hg. cbn [g_pass] in Hg.
  destruct Hg as ((Hc & Hp & _) & Hcur & Hd & Hf & Ha & Hs & _).
  destruct current as [c|]; [|done]. destruct previous as [p|]; [|done]. exists p, c.
  rewrite !Forall_cons in Hcur. cbn [g_pass] in Hcur. destruct Hcur as (H1 & H2 & H3 & _).
  split; [done|]. split; [done|]. apply bool_decide_eq_true in H2.
  apply negb_true_iff in H3, Hd. apply String.eqb_neq in Hd. by constructor.
Qed.

Lemma page_gates_pass worker clock browser policy now :
  wr_worker_id worker = ck_worker_id clock →
  Forall (λ g, g_pass g = true) (page_gates worker clock browser policy now) →
  wr_status worker = WorkerStatus.ACTIVE ∧ ∃ b, browser = Some b ∧ page_ready worker b policy now.
Proof.
  intros Hid. unfold page_gates. intros Hg. rewrite !Forall_app, !Forall_cons in Hg.
  cbn [g_pass] in Hg. destruct Hg as ((Ha%bool_decide_eq_true & Hb & _) & Hg). split; [done|].
  destruct browser as [b|]; [|done]. exists b. split; [done|].
  rewrite !Forall_cons in Hg. cbn [g_pass] in Hg. destruct Hg as (Hu & Hf & Hn & Hc & Hq & _).
  apply String.eqb_eq in Hb. apply andb_true_iff in Hu as [Hut Hu%String.eqb_eq].
  constructor.
  - by rewrite Hb, Hid.
  - destruct (bo_url b) as [url|]; [|done]. by exists url.
  - done.
  - by apply negb_true_iff, bool_decide_eq_false in Hn.
  - apply orb_true_iff in Hc as [Hc|Hc%bool_decide_eq_true]; [left|by right].
    by destruct (dget "composer_present" (bo_raw b)) as [|[]| | | | |].
  - destruct (bo_last_dom_change_at b) as [t|]; [|done]. by exists t.
Qed.

(** A hard-overrun nudge is ready only for an enabled policy on an open task, a whole
    threshold after the current worker started, after its last continuation that may have
    been sent and after the start of the last generation seen; with two stable samples of
    the task's current worker, a fresh quiet idle page at exactly its conversation with a
    composer, and no failed attempt within the cooldown. *)
Theorem overrun_nudge_is_fenced o r task policy now clock previous current browser transport plan :
  (∀ k w, rg_workers r !! k = Some w → wr_worker_id w = k) →
  overrun_clock o r (tr_task_id task) policy now = Ok (Some clock) →
  build_overrun_dispatch_plan r task clock previous current browser policy transport now = Ok plan →
  pl_would_dispatch plan = pl_candidate_ready plan && transport ∧
  (pl_candidate_ready plan = true →
    op_enabled policy = true ∧ task_terminal task = false ∧
    overrun_due o r (tr_task_id task) policy now clock ∧
    (∃ p c, previous = Some p ∧ current = Some c ∧ stable_samples task p c policy now ∧
       pl_fence_token plan = Some (rc_fence_token c)) ∧
    (∃ worker b, get_worker r (ck_worker_id clock) = Ok worker ∧ browser = Some b ∧
       wr_status worker = WorkerStatus.ACTIVE ∧
       tr_current_worker_id task = Some (wr_worker_id worker) ∧ page_ready worker b policy now) ∧
    (∀ t, _latest_failed_action_at r (tr_task_id task) (ck_worker_id clock) = Ok (Some t) →
       quiet now t (op_retry_cooldown_s policy) = true)).
Proof.
  intros Hkey Hclock. unfold build_overrun_dispatch_plan.
  intros (worker & Hw & H)%bind_Ok_inv. apply bind_Ok_inv in H as (failed_at & Hf & H).
  cbv zeta in H. set (gs := clock_gates task clock policy ++ _) in H.
  injection H as <-. split; [done|]. cbn [pl_candidate_ready pl_fence_token].
  destruct (gates_blockers gs) eqn:Hg; [|done]. intros _. apply gates_pass in Hg.
  apply Forall_app in Hg as [Hclk Hg]. apply Forall_app in Hg as [Hsam Hg].
  apply Forall_app in Hg as [Hpage Hretry].
  assert (wr_worker_id worker = ck_worker_id clock) as Hid by (apply fetch_Ok in Hw; by apply Hkey).
  unfold clock_gates in Hclk. rewrite !Forall_cons in Hclk.
  destruct Hclk as (Hen & Hdue & Hterm & Hcur & _). cbn [g_pass] in Hen, Hdue, Hterm, Hcur.
  apply negb_true_iff in Hterm. apply bool_decide_eq_true in Hcur.
  apply sample_gates_pass in Hsam as (p & c & -> & -> & Hst).
  apply page_gates_pass in Hpage as (Hact & b & -> & Hready); [|done].
  split; [done|]. split; [done|]. split; [by eapply overrun_clock_due|]. split; [by exists p, c|].
  split; [exists worker, b; split_and!; [done|done|done|by rewrite Hid|done]|].
  intros t Ht. rewrite Hf in Ht. injection Ht as ->. rewrite Forall_singleton in Hretry.
  cbn in Hretry. by apply andb_true_iff in Hretry as [? _].
Qed.

Definition long_turn_task : TaskRecord :=
  mkTaskRecord "t" "p" "o" "c" SupervisorState.RUNNING None [] (Some "w") 0 3 (of_Z 0) (of_Z 0).

Definition long_turn : Registry := one_worker <| rg_tasks := {["t" := long_turn_task]} |>.

Definition idle_page : BrowserObservation :=
  mkBrowserObservation "w" (of_Z 1990) (Some "https://u/") (Some false) (Some true) None None
    (Some (of_Z 1900)) (Some "sig") [].

Definition turn_sample (id : string) (at_ : float) : ReconciliationRecord :=
  mkReconciliationRecord id "t" at_ "RUNNING" "high" "r" false (Some "w") "fence" 1 [] [].

(** The worker started at 0, generated from 100 to 200, and is idle at 1990. *)
Definition long_turn_calls : list (Registry * BrowserObservation) :=
  [(one_worker, seen_at "w" (of_Z 100) true); (one_worker, seen_at "w" (of_Z 200) true);
   (one_worker, idle_page)].

Definition nudging : OverrunContinuationPolicy := default_overrun_policy <| op_enabled := true |>.

Definition long_turn_clock : OverrunClock :=
  mkOverrunClock "t" "w" (of_Z 100) (of_Z 1900) (of_Z 1620) true true.

Lemma overrun_nudge_is_fenced_witness :
  overrun_clock (observe_run no_observations long_turn_calls) long_turn "t" nudging (of_Z 2000) =
    Ok (Some long_turn_clock) ∧
  ∃ plan, build_overrun_dispatch_plan long_turn long_turn_task long_turn_clock
      (Some (turn_sample "r1" (of_Z 1980))) (Some (turn_sample "r2" (of_Z 1990))) (Some idle_page)
      nudging true (of_Z 2000) = Ok plan ∧ pl_would_dispatch plan = true ∧
    overrun_due (observe_run no_observations long_turn_calls) long_turn "t" nudging (of_Z 2000)
      long_turn_clock.
Proof.
  assert (overrun_clock (observe_run no_observations long_turn_calls) long_turn "t" nudging
    (of_Z 2000) = Ok (Some long_turn_clock)) as Hc by (vm_compute; reflexivity).
  split; [exact Hc|].
  destruct (build_overrun_dispatch_plan long_turn long_turn_task long_turn_clock
      (Some (turn_sample "r1" (of_Z 1980))) (Some (turn_sample "r2" (of_Z 1990))) (Some idle_page)
      nudging true (of_Z 2000)) as [plan|e] eqn:Hp; [|by vm_compute in Hp].
  exists plan. split; [reflexivity|].
  assert (pl_would_dispatch plan = true ∧ pl_candidate_ready plan = true) as [Hw Hr].
  { vm_compute in Hp. injection Hp as <-. split; reflexivity. }
  split; [exact Hw|].
  destruct (overrun_nudge_is_fenced (observe_run no_observations long_turn_calls) long_turn
    long_turn_task nudging (of_Z 2000) long_turn_clock (Some (turn_sample "r1" (of_Z 1980)))
    (Some (turn_sample "r2" (of_Z 1990))) (Some idle_page) true plan) as [_ H].
  - intros k w Hk. cbn in Hk. by apply lookup_singleton_Some in Hk as [<- <-].
  - exact Hc.
  - exact Hp.
  - destruct (H Hr) as (_ & _ & Hd & _). exact Hd.
Defined.
