(* ===== verification/DispatchRuntime.v ===== *)
(** * dispatch_runtime.py: executing one continuation and acknowledging it

    The executor rechecks everything a plan was built on, writes the attempt ahead, and only
    then lets the transport act; the reconciler closes an attempt from positive evidence of
    the exact window.  The transport and the window observer are parameters. *)

From stdpp Require Import pretty.
From S2P Require Import Prelude PyFloat PyStr PyJson Models Registry ObsTable Observations.
From S2P Require Import AttemptTables Reconcile Watcher Dispatcher Actions ActionTheorems.
From S2P Require Import Programs Workers.

Open Scope string_scope.
Open Scope Z_scope.
Open Scope list_scope.

Record DispatchExecutionPolicy := mkDispatchExecutionPolicy {
  xp_enabled : bool;
  xp_confirmed_task_id : option string;
  xp_consume_recovery_budget : bool;
  xp_attempt_metadata : dict;
}.

Record DispatchExecutionResult := mkDispatchExecutionResult {
  xr_task_id : string;
  xr_attempt_id : string;
  xr_state : string;
  xr_submitted : bool;
  xr_side_effect_possible : bool;
  xr_detail : string;
}.

(** [d.update(e)] *)
Definition dict_update (d e : dict) : dict := foldl (λ d kv, dset kv.1 kv.2 d) d e.

Section Runtime.
Context {digests : Digests} {fmt : Formatting} {ties : TieOrder}.

(** The checks before anything is written, up to the attempt and its transport; [factory]
    makes a transport for a window, or raises. *)
Definition recovery_attempt (o : Observations) (r : Registry) (plan : DispatchPlan)
    (recommendation : RecoveryRecommendation) (policy : DispatchExecutionPolicy)
    (factory : WorkerWindowBinding → res ActionTransport) (now : float) (uuid1 uuid2 : string)
    : res (ActionAttempt * ActionTransport) :=
  raise_if (negb (xp_enabled policy)) DispatchDisabled
    "recovery execution is disabled; explicit opt-in is required";;
  raise_if (negb (bool_decide (xp_confirmed_task_id policy = Some (pl_task_id plan))))
    DispatchDisabled "explicit task confirmation does not match the dispatch plan";;
  raise_if (negb (bool_decide (pl_action plan = DispatchAction.CONTINUE_CURRENT_WORKER)))
    ActionBlocked "only current-worker continuation is supported by the explicit executor";;
  raise_if (negb (pl_candidate_ready plan) || negb (pl_transport_enabled plan) ||
            negb (pl_would_dispatch plan)) ActionBlocked "dispatch plan is not execution-ready";;
  raise_if (negb (opt_truthy (rr_prompt recommendation)) ||
            negb (String.eqb (rr_action recommendation) "reconcile_then_continue")) ActionBlocked
    "recovery recommendation does not contain the canonical continuation prompt";;
  let prompt := default "" (rr_prompt recommendation) in
  task ← get_task r (pl_task_id plan);
  raise_if (negb (opt_truthy (tr_current_worker_id task))) ActionBlocked
    "task has no current worker";;
  worker ← get_worker r (default "" (tr_current_worker_id task));
  raise_if (negb (bool_decide (wr_status worker = WorkerStatus.ACTIVE))) ActionBlocked
    "current worker is not active";;
  require_no_unresolved_action r (tr_task_id task);;
  latest ← latest_reconciliation o r (tr_task_id task);
  match latest with
  | None => raise ActionBlocked "latest reconciliation disappeared before execution"
  | Some current =>
      raise_if (negb (bool_decide (Some (rc_reconcile_id current) = pl_current_reconcile_id plan)))
        ActionBlocked "a newer reconciliation exists; rebuild the dispatch plan";;
      raise_if (negb (bool_decide (Some (rc_fence_token current) = pl_fence_token plan)))
        ActionBlocked "reconciliation fence changed before execution";;
      match get_worker_window_binding r (wr_worker_id worker) now true with
      | None =>
          raise ActionBlocked "fresh exact-window lease is required before recovery execution"
      | Some binding =>
          raise_if (negb (String.eqb (rstrip_slash (wb_conversation_url binding))
                            (rstrip_slash (wr_conversation_url worker)))) ActionBlocked
            "fresh window lease no longer matches the current worker URL";;
          match latest_browser_observation o (Some (wr_worker_id worker)) with
          | None => raise ActionBlocked
              "fresh browser signature is required before write-ahead arming"
          | Some browser =>
              raise_if (negb (opt_truthy (bo_message_signature browser))) ActionBlocked
                "fresh browser signature is required before write-ahead arming";;
              raise_if (flt (fadd now (of_Z 1)) (bo_observed_at browser)) ActionBlocked
                "browser observation timestamp is from the future";;
              transport ← factory binding;
              attempt ← build_action_attempt plan task worker prompt (rc_fence_version current)
                          (bo_message_signature browser) now uuid1 uuid2;
              Ok (attempt <| aa_metadata :=
                    dict_update (aa_metadata attempt) (xp_attempt_metadata policy) |>, transport)
          end
      end
  end.

(** The write-ahead record. *)
Definition arm_attempt (policy : DispatchExecutionPolicy) (a : ActionAttempt) : prog unit :=
  txn (λ r, r' ← (if xp_consume_recovery_budget policy
                  then record_recovery_action_attempt r a
                  else record_current_worker_action_attempt r a);
            Ok (r', tt)).

(** [later] is the clock when the outcome of the transport is recorded. *)
Definition execute_current_worker_recovery (o : Observations) (plan : DispatchPlan)
    (recommendation : RecoveryRecommendation) (policy : DispatchExecutionPolicy)
    (factory : WorkerWindowBinding → res ActionTransport) (now later : float)
    (uuid1 uuid2 : string) : prog DispatchExecutionResult :=
  armed ← query (λ r, recovery_attempt o r plan recommendation policy factory now uuid1 uuid2);
  let '(attempt, transport) := armed in
  _ ← arm_attempt policy attempt;
  outcome ← txn (λ r, submit_armed_action r (aa_attempt_id attempt)
                        (default "" (rr_prompt recommendation)) transport later);
  mret (mkDispatchExecutionResult (aa_task_id attempt) (aa_attempt_id attempt)
    (so_state outcome) (so_submitted outcome) (so_side_effect_possible outcome)
    (so_detail outcome)).

(** ** Acknowledgement *)

Record UiaAckObservation := mkUiaAckObservation {
  uo_worker_id : string;
  uo_observed_at : float;
  uo_url : string;
  uo_window_handle : Z;
  uo_browser_pid : Z;
  uo_generating : option bool;
  uo_send_button_ready : option bool;
  uo_composer_present : bool;
  uo_signed_in_likely : bool;
  uo_nonce_occurrences : Z;
  uo_text_element_count : Z;
  uo_text_signature : string;
}.

(** [f"{x}"] of an optional boolean *)
Definition str_opt_bool (x : option bool) : string :=
  match x with Some b => str_bool b | None => "None" end.

(** The text that is hashed as the evidence. *)
Definition ack_evidence (u : UiaAckObservation) : string :=
  join "|" [normalize_url (uo_url u); "hwnd=" +:+ pretty (uo_window_handle u);
    "nonce_count=" +:+ pretty (uo_nonce_occurrences u);
    "generating=" +:+ str_opt_bool (uo_generating u);
    "text_count=" +:+ pretty (uo_text_element_count u);
    "text_sha256=" +:+ uo_text_signature u].

Definition acknowledgement_from_uia_observation (a : ActionAttempt) (u : UiaAckObservation)
    (min_nonce_occurrences : Z) (max_nonce_occurrences : option Z)
    (require_generation_complete : bool) : option ActionAcknowledgement :=
  if negb (String.eqb (uo_worker_id u) (aa_worker_id a)) then None else
  if negb (uo_signed_in_likely u) then None else
  if uo_nonce_occurrences u <? Z.max 1 min_nonce_occurrences then None else
  if match max_nonce_occurrences with Some n => n <? uo_nonce_occurrences u | None => false end
  then None else
  if require_generation_complete && negb (bool_decide (uo_generating u = Some false)) then None else
  if negb (str_truthy (uo_text_signature u)) then None else
  Some (mkActionAcknowledgement (aa_attempt_id a) (aa_worker_id a) (uo_observed_at u) true
          "uia_nonce_hash" (sha256_text (ack_evidence u))
          "positive exact-window nonce/hash UIA evidence" (Some (uo_text_signature u))).

Record ActionReconcileResult := mkActionReconcileResult {
  nr_attempt_id : string;
  nr_state : string;
  nr_acknowledged : bool;
  nr_detail : string;
  nr_observation : option UiaAckObservation;
}.

(** What the observer is asked for. *)
Record AckQuery := mkAckQuery {
  aq_chrome_executable : string;
  aq_worker_id : string;
  aq_conversation_url : string;
  aq_expected_nonce : string;
  aq_expected_hwnd : Z;
  aq_expected_browser_pid : Z;
}.

(** The window of the attempt's worker, which is still the task's active current worker. *)
Definition ack_query (r : Registry) (a : ActionAttempt) (now : float) : res AckQuery :=
  task ← get_task r (aa_task_id a);
  raise_if (negb (bool_decide (tr_current_worker_id task = Some (aa_worker_id a)))) ActionBlocked
    "action attempt no longer belongs to the task's current worker";;
  worker ← get_worker r (aa_worker_id a);
  raise_if (negb (bool_decide (wr_status worker = WorkerStatus.ACTIVE))) ActionBlocked
    "action acknowledgement requires an active current worker";;
  match get_worker_window_binding r (wr_worker_id worker) now true with
  | None => raise ActionBlocked "fresh exact-window lease is required for action acknowledgement"
  | Some binding =>
      Ok (mkAckQuery (wb_chrome_executable binding) (wr_worker_id worker)
            (wr_conversation_url worker) ("LWS-ACTION-" +:+ aa_nonce a)
            (wb_window_handle binding) (wb_browser_pid binding))
  end.

Definition reconcile_action_with_uia (attempt_id : string)
    (observe : AckQuery → res UiaAckObservation) (now : float) : prog ActionReconcileResult :=
  attempt ← query (λ r, get_action_attempt r attempt_id);
  if negb (action_unresolved attempt) then
    mret (mkActionReconcileResult (aa_attempt_id attempt)
      (ActionAttemptState.value (aa_state attempt))
      (action_state ActionAttemptState.ACKNOWLEDGED attempt)
      "action attempt is already terminal" None)
  else
    asked ← query (λ r, ack_query r attempt now);
    observation ← query (λ _, observe asked);
    match acknowledgement_from_uia_observation attempt observation 1 (Some 1) true with
    | None =>
        mret (mkActionReconcileResult (aa_attempt_id attempt)
          (ActionAttemptState.value (aa_state attempt)) false
          "positive single-turn completion acknowledgement is not yet available"
          (Some observation))
    | Some ack =>
        updated ← txn (λ r, acknowledge_action r ack);
        mret (mkActionReconcileResult (aa_attempt_id updated)
          (ActionAttemptState.value (aa_state updated)) true
          "action acknowledged from exact-window nonce/hash evidence" (Some observation))
    end.

End Runtime.

(** ** What an execution rests on *)

Section Theorems.
Context {digests : Digests} {fmt : Formatting} {ties : TieOrder}.

(** Every fence that was rechecked when the attempt [a] was built. *)
Record execution_fenced (o : Observations) (r : Registry) (plan : DispatchPlan)
    (policy : DispatchExecutionPolicy) (now : float) (a : ActionAttempt) : Prop := {
  xf_opt_in : xp_enabled policy = true ∧ xp_confirmed_task_id policy = Some (pl_task_id plan);
  xf_plan : pl_action plan = DispatchAction.CONTINUE_CURRENT_WORKER ∧
    pl_candidate_ready plan = true ∧ pl_would_dispatch plan = true;
  xf_worker : ∃ task worker, get_task r (pl_task_id plan) = Ok task ∧
    tr_task_id task = aa_task_id a ∧ tr_current_worker_id task = Some (wr_worker_id worker) ∧
    get_worker r (wr_worker_id worker) = Ok worker ∧ aa_worker_id a = wr_worker_id worker ∧
    wr_status worker = WorkerStatus.ACTIVE ∧
    ∃ window, get_worker_window_binding r (wr_worker_id worker) now true = Some window ∧
      rstrip_slash (wb_conversation_url window) = rstrip_slash (wr_conversation_url worker);
  xf_alone : require_no_unresolved_action r (aa_task_id a) = Ok tt;
  xf_fence : ∃ current, latest_reconciliation o r (aa_task_id a) = Ok (Some current) ∧
    pl_current_reconcile_id plan = Some (rc_reconcile_id current) ∧
    pl_fence_token plan = Some (rc_fence_token current) ∧
    aa_fence_token a = rc_fence_token current ∧ aa_fence_version a = rc_fence_version current;
  xf_page : ∃ browser, latest_browser_observation o (Some (aa_worker_id a)) = Some browser ∧
    opt_truthy (bo_message_signature browser) = true ∧
    aa_pre_action_signature a = bo_message_signature browser ∧
    flt (fadd now (of_Z 1)) (bo_observed_at browser) = false;
  xf_armed : aa_state a = ActionAttemptState.ARMED ∧ aa_created_at a = now;
}.

Lemma recovery_attempt_Ok o r plan rec policy factory now u1 u2 a t :
  recovery_attempt o r plan rec policy factory now u1 u2 = Ok (a, t) →
  execution_fenced o r plan policy now a ∧
  ∃ window, get_worker_window_binding r (aa_worker_id a) now true = Some window ∧
    factory window = Ok t.
Proof using Type.
  unfold recovery_attempt.
  intros [Hen%negb_false_iff H]%raise_if_then. apply raise_if_then in H as [Hcf H].
  apply raise_if_then in H as [Hact H]. apply raise_if_then in H as [Hplan H].
  apply raise_if_then in H as [Hrec H]. cbv zeta in H. apply bind_Ok_inv in H as (task & Ht & H).
  apply raise_if_then in H as [_ H]. apply bind_Ok_inv in H as (worker & Hw & H).
  apply raise_if_then in H as [_ H]. apply unit_bind_Ok in H as [Halone H].
  apply bind_Ok_inv in H as ([current|] & Hrc & H); [|done].
  apply raise_if_then in H as [Hid H]. apply raise_if_then in H as [Hfence H].
  destruct (get_worker_window_binding r (wr_worker_id worker) now true) as [window|] eqn:Hb; [|done].
  apply raise_if_then in H as [Hurl H].
  destruct (latest_browser_observation o (Some (wr_worker_id worker))) as [browser|] eqn:Hbr; [|done].
  apply raise_if_then in H as [Hsig H]. apply raise_if_then in H as [Hfut H].
  apply bind_Ok_inv in H as (transport & Htr & H). apply bind_Ok_inv in H as (b & Hbuilt & [= <- <-]).
  unfold build_action_attempt in Hbuilt. do 3 apply raise_if_then in Hbuilt as [_ Hbuilt].
  apply raise_if_then in Hbuilt as [Hcur Hbuilt]. apply raise_if_then in Hbuilt as [Hst Hbuilt].
  apply raise_if_then in Hbuilt as [_ Hbuilt]. apply bind_Ok_inv in Hbuilt as (wire & _ & [= <-]).
  bool_to_prop. rewrite Hcur in Hw. cbn [default] in Hw.
  split; [|by exists window].
  constructor; cbn; try done.
  - exists task, worker. split_and!; try done. exists window.
    apply String.eqb_eq in Hurl. done.
  - exists current. rewrite <- Hfence. done.
  - exists browser. done.
Qed.

Definition tasks_keyed (r : Registry) : Prop :=
  ∀ k t, rg_tasks r !! k = Some t → tr_task_id t = k.

(** The write-ahead record puts exactly the attempt into the table. *)
Lemma arm_attempt_Ok policy a r r1 :
  acts_ok r → tasks_keyed r → arm_attempt policy a r = (r1, Ok tt) →
  rg_actions r1 !! aa_attempt_id a = Some a ∧ acts_ok r1 ∧ tasks_keyed r1 ∧
  (∃ task, rg_tasks r !! aa_task_id a = Some task ∧ task_terminal task = false ∧
     (xp_consume_recovery_budget policy = true →
      tr_recovery_attempts task < tr_max_recovery_attempts task ∧
      tr_recovery_attempts <$> rg_tasks r1 !! aa_task_id a = Some (tr_recovery_attempts task + 1))).
Proof using Type.
  intros Hok HK H. unfold arm_attempt in H. apply txn_Ok, bind_Ok_inv in H as (r3 & E & [= ->]).
  destruct (xp_consume_recovery_budget policy).
  - apply unit_bind_Ok in E as [_ E]. apply bind_Ok_inv in E as (task & Ht%fetch_Ok & E).
    apply raise_if_then in E as [Hterm E]. apply raise_if_then in E as [Hb E].
    apply unit_bind_Ok in E as [_ E]. apply bind_Ok_inv in E as (r4 & Hi & [= <-]).
    pose proof Hi as [[Hk' _] _]%insert_kept; [|done].
    apply raise_if_then in Hi as [_ Hi]. apply unit_bind_Ok in Hi as [_ Hi].
    apply store_action_Ok in Hi as [_ ->]. cbn. split; [by rewrite lookup_insert_eq|].
    split; [exact Hk'|]. split.
    + intros k t. cbn. intros [[<- <-]|[_ Hk]]%lookup_insert_Some; cbn; by apply HK.
    + exists task. split_and!; [done|done|]. intros _. bool_to_prop. split; [done|].
      by rewrite lookup_insert_eq.
  - apply unit_bind_Ok in E as [_ E]. apply bind_Ok_inv in E as (task & Ht%fetch_Ok & E).
    apply raise_if_then in E as [Hterm E]. apply unit_bind_Ok in E as [_ E].
    pose proof E as [[Hk' _] _]%insert_kept; [|done].
    apply raise_if_then in E as [_ E]. apply unit_bind_Ok in E as [_ E].
    apply store_action_Ok in E as [_ ->]. cbn. split; [by rewrite lookup_insert_eq|].
    split; [exact Hk'|]. split; [exact HK|]. by exists task.
Qed.

(** While an attempt of the task is unresolved every execution is refused and writes
    nothing. *)
Lemma execution_blocked o r plan rec policy factory now later u1 u2 id a :
  tasks_keyed r → rg_actions r !! id = Some a → action_unresolved a = true →
  aa_task_id a = pl_task_id plan →
  ∃ e, execute_current_worker_recovery o plan rec policy factory now later u1 u2 r = (r, Err e).
Proof using Type.
  intros HK Ha Hu Ht. unfold execute_current_worker_recovery. rewrite prog_bind_run. unfold query.
  destruct (recovery_attempt _ _ _ _ _ _ _ _ _) as [[b t]|e] eqn:E; [|by exists e].
  exfalso. apply recovery_attempt_Ok in E as [F _].
  destruct (xf_worker _ _ _ _ _ _ F) as (task & w & Htask%fetch_Ok & Hid & _).
  pose proof (xf_alone _ _ _ _ _ _ F) as Halone. rewrite <- Hid, (HK _ _ Htask), <- Ht in Halone.
  by apply (unresolved_blocks _ _ _ _ Ha Hu) in Halone.
Qed.

Lemma execution_acts_ok o plan rec policy factory now later u1 u2 r :
  acts_ok r →
  acts_ok (execute_current_worker_recovery o plan rec policy factory now later u1 u2 r).1.
Proof using Type.
  intros Hok. unfold execute_current_worker_recovery.
  destruct ((query _ ≫= _) r) as [r' x] eqn:H. cbn.
  apply query_bind in H as [([a t] & _ & H)|(e & _ & -> & ->)]; [|done].
  apply txn_bind in H as [(r1 & [] & Harm & H)|(e & _ & -> & ->)]; [|done].
  assert (acts_ok r1) as Hok1.
  { apply bind_Ok_inv in Harm as (r2 & Harm & [= ->]). destruct (xp_consume_recovery_budget policy).
    - by apply recovery_Ok in Harm as [[? _] _].
    - by apply current_kept in Harm as [[? _] _]. }
  apply txn_bind in H as [(r2 & oc & Hs & H)|(e & _ & -> & ->)]; [|done].
  injection H as <- <-. apply submit_Ok in Hs as (? & ? & ? & _ & _ & _ & [? _] & _); done.
Qed.

(** C11: An execution that wrote anything was armed under every fence: explicit opt-in, a
    ready plan for the latest reconciliation and its fence, the active current worker at
    the page of a fresh window lease, a known page, an open task within its budget and no
    other unresolved attempt.  The attempt is durable before the transport runs; when the
    execution returns, the attempt is in the state it reports and unresolved exactly when
    a side effect is possible, and when it raises the attempt is still armed.  As long as
    the attempt stays unresolved, every further execution for the task is refused without
    writing.  This is the execution without an interruption; ResidentTheorems interleaves and
    kills its steps. *)
Theorem execution_is_fenced o plan rec policy factory now later u1 u2 r r' x :
  acts_ok r → tasks_keyed r →
  execute_current_worker_recovery o plan rec policy factory now later u1 u2 r = (r', x) →
  (r' = r ∧ ∃ e, x = Err e) ∨
  ∃ a a', execution_fenced o r plan policy now a ∧
    (∃ task, rg_tasks r !! aa_task_id a = Some task ∧ task_terminal task = false ∧
       (xp_consume_recovery_budget policy = true →
        tr_recovery_attempts task < tr_max_recovery_attempts task ∧
        tr_recovery_attempts <$> rg_tasks r' !! aa_task_id a =
          Some (tr_recovery_attempts task + 1))) ∧
    rg_actions r' !! aa_attempt_id a = Some a' ∧ ages a a' ∧
    match x with
    | Ok result => xr_attempt_id result = aa_attempt_id a ∧
        xr_state result = ActionAttemptState.value (aa_state a') ∧
        xr_side_effect_possible result = action_unresolved a'
    | Err _ => a' = a
    end ∧
    (action_unresolved a' = true →
     ∀ o2 plan2 rec2 policy2 factory2 now2 later2 u3 u4, pl_task_id plan2 = pl_task_id plan →
       ∃ e, execute_current_worker_recovery o2 plan2 rec2 policy2 factory2 now2 later2 u3 u4 r' =
              (r', Err e)).
Proof using Type.
  intros Hok HK. unfold execute_current_worker_recovery.
  intros [([a t] & Ha & H)|(e & _ & -> & ->)]%query_bind; [|left; by eauto].
  apply recovery_attempt_Ok in Ha as [F _]. rewrite prog_bind_run in H.
  destruct (arm_attempt policy a r) as [r1 [[]|e]] eqn:Harm.
  2: { injection H as <- <-. left. split; [|by eauto]. unfold arm_attempt, txn in Harm.
       by destruct (_ ≫= _) as [[? ?]|] in Harm; injection Harm. }
  destruct (arm_attempt_Ok _ _ _ _ Hok HK Harm) as (Ha & Hok1 & HK1 & Htask).
  right. exists a. rewrite prog_bind_run in H. unfold txn at 1 in H.
  assert (∀ a' r2, tasks_keyed r2 → rg_actions r2 !! aa_attempt_id a = Some a' → ages a a' →
    action_unresolved a' = true →
    ∀ o2 plan2 rec2 policy2 factory2 now2 later2 u3 u4, pl_task_id plan2 = pl_task_id plan →
      ∃ e, execute_current_worker_recovery o2 plan2 rec2 policy2 factory2 now2 later2 u3 u4 r2 =
             (r2, Err e)) as Hagain.
  { intros a' r2 HK2 Ha' Hag Hu o2 plan2 rec2 policy2 factory2 now2 later2 u3 u4 Ep.
    eapply execution_blocked; [done|exact Ha'|done|]. rewrite (ag_task _ _ Hag), Ep.
    destruct (xf_worker _ _ _ _ _ _ F) as (task & w & Ht%fetch_Ok & Hid & _).
    by rewrite <- Hid, (HK _ _ Ht). }
  destruct (submit_armed_action r1 (aa_attempt_id a) _ t later) as [[r2 oc]|e] eqn:Hs.
  - injection H as <- <-.
    pose proof Hs as (b & i & a' & Hb & _ & _ & [_ Hk] & Et & Ha' & _)%submit_Ok; [|done].
    cbn in Hk, Et, Ha'. exists a'. destruct (Hk _ _ Ha) as (a2 & Ha2 & Hag).
    assert (a2 = a') as -> by congruence.
    destruct (submit_reports _ _ _ _ _ _ _ Hok1 Hs Ha') as [Hst Hse]. cbn in Hst, Hse.
    rewrite Et. split; [done|]. split; [done|]. split; [done|]. split; [done|].
    split; [by split|]. apply Hagain; [by intros k task; rewrite Et; apply HK1|done..].
  - injection H as <- <-. exists a. split; [done|]. split; [done|]. split; [done|].
    split; [reflexivity|]. split; [done|]. by apply Hagain.
Qed.

(** The evidence that closes an attempt: the observed window is the one asked for, its worker
    is signed in, the nonce of the attempt occurs exactly once, the generation is over and
    the text has a signature. *)
Record positive_evidence (a : ActionAttempt) (u : UiaAckObservation) : Prop := {
  pv_worker : uo_worker_id u = aa_worker_id a;
  pv_signed_in : uo_signed_in_likely u = true;
  pv_once : uo_nonce_occurrences u = 1;
  pv_finished : uo_generating u = Some false;
  pv_text : str_truthy (uo_text_signature u) = true;
  pv_later : flt (uo_observed_at u) (aa_created_at a) = false;
}.

Lemma acknowledgement_iff a u ack :
  acknowledgement_from_uia_observation a u 1 (Some 1) true = Some ack ↔
  uo_worker_id u = aa_worker_id a ∧ uo_signed_in_likely u = true ∧ uo_nonce_occurrences u = 1 ∧
  uo_generating u = Some false ∧ str_truthy (uo_text_signature u) = true ∧
  ack = mkActionAcknowledgement (aa_attempt_id a) (aa_worker_id a) (uo_observed_at u) true
          "uia_nonce_hash" (sha256_text (ack_evidence u))
          "positive exact-window nonce/hash UIA evidence" (Some (uo_text_signature u)).
Proof using Type.
  unfold acknowledgement_from_uia_observation.
  destruct (String.eqb_spec (uo_worker_id u) (aa_worker_id a)); cbn [negb]; [|naive_solver].
  destruct (uo_signed_in_likely u); cbn [negb]; [|naive_solver].
  destruct (Z.ltb_spec (uo_nonce_occurrences u) (Z.max 1 1)); [split; [done|lia]|].
  destruct (Z.ltb_spec 1 (uo_nonce_occurrences u)); [split; [done|lia]|].
  case_bool_decide; cbn [negb andb]; [|naive_solver].
  destruct (str_truthy (uo_text_signature u)); cbn [negb]; [|naive_solver].
  assert (uo_nonce_occurrences u = 1) by lia. naive_solver.
Qed.

(** An attempt is closed from the window only by positive evidence: a reconciliation
    that writes observed the exact window of a fresh lease of the attempt's worker, which
    is still the task's active current worker, with the nonce exactly once, no generation
    and not before the attempt was armed; it stores the acknowledgement with the digest of
    that evidence.  Every other outcome, exceptions included, leaves the database as it
    was, and an attempt that is already terminal is reported as it is. *)
Theorem acknowledgement_is_positive attempt_id observe now r r' x :
  acts_ok r → reconcile_action_with_uia attempt_id observe now r = (r', x) →
  (r' = r ∧
   ∀ result, x = Ok result → nr_acknowledged result = true →
     ∃ a, get_action_attempt r attempt_id = Ok a ∧ aa_state a = ActionAttemptState.ACKNOWLEDGED) ∨
  ∃ a asked u a' result, get_action_attempt r attempt_id = Ok a ∧ action_unresolved a = true ∧
    ack_query r a now = Ok asked ∧ observe asked = Ok u ∧ positive_evidence a u ∧
    x = Ok result ∧ nr_acknowledged result = true ∧
    get_action_attempt r' attempt_id = Ok a' ∧ ages a a' ∧
    aa_state a' = ActionAttemptState.ACKNOWLEDGED ∧
    aa_acknowledgement_hash a' = Some (sha256_text (ack_evidence u)) ∧
    rg_tasks r' = rg_tasks r.
Proof using Type.
  intros Hok. unfold reconcile_action_with_uia.
  intros [(a & Ha & H)|(e & _ & -> & ->)]%query_bind; [|left; split; [done|by intros result]].
  destruct (action_unresolved a) eqn:Hu; cbn [negb] in H.
  2: { injection H as <- <-. left. split; [done|]. intros result [= <-]. cbn. intros Hst.
       exists a. split; [done|]. by apply bool_decide_eq_true in Hst. }
  apply query_bind in H as [(asked & Hq & H)|(e & _ & -> & ->)];
    [|left; split; [done|by intros result]].
  apply query_bind in H as [(u & Hobs & H)|(e & _ & -> & ->)];
    [|left; split; [done|by intros result]].
  destruct (acknowledgement_from_uia_observation a u 1 (Some 1) true) as [ack|] eqn:Hack.
  2: { injection H as <- <-. left. split; [done|]. by intros result [= <-]. }
  apply txn_bind in H as [(r1 & a' & Hupd & H)|(e & _ & -> & ->)];
    [|left; split; [done|by intros result]].
  injection H as <- <-. right.
  apply acknowledgement_iff in Hack as (Hw & Hsi & Hn & Hg & Ht & Eack).
  pose proof Hupd as [_ Htasks]%acknowledge_kept; [|done].
  assert (aa_attempt_id a = attempt_id) as Hid by (apply fetch_Ok in Ha; by apply (tb_keyed _ Hok)).
  apply bind_Ok_inv in Hupd as (b & Hb & Hupd).
  assert (b = a) as -> by (rewrite Eack in Hb; cbn in Hb; rewrite Hid in Hb; congruence).
  apply unit_bind_Ok in Hupd as [Hv Hupd]. cbv zeta in Hupd.
  assert (flt (uo_observed_at u) (aa_created_at a) = false) as Hlate.
  { unfold validate_acknowledgement in Hv. do 4 apply raise_if_then in Hv as [_ Hv].
    apply raise_if_then in Hv as [Hv _]. by rewrite Eack in Hv. }
  rewrite Eack in Hupd. cbn [ak_text_signature] in Hupd. unfold truthy_text in Hupd.
  apply fetch_Ok in Ha as Ha'.
  eapply replace_kept in Hupd as ([_ Hk] & _ & Hx & Hrow); [|done|exact Ha'|].
  2: { destruct (str_truthy _); constructor; cbn; try done; intros; congruence. }
  cbn [fst snd] in Hk, Hx, Hrow. destruct (Hk _ _ Ha') as (a2 & Ha2 & Hag).
  assert (a2 = a') as -> by congruence.
  exists a, asked, u, a'. eexists.
  split; [done|]. split; [done|]. split; [done|]. split; [done|]. split; [by constructor|].
  split; [done|]. split; [done|]. split; [by apply fetch_Ok|]. split; [done|].
  rewrite Hx. by destruct (str_truthy _).
Qed.

End Theorems.


(** ** A sent continuation *)

#[local] Existing Instance text_digests.
#[local] Existing Instance plan_formatting.
#[local] Existing Instance newest_tie.

Definition sending_worker : WorkerRecord :=
  mkWorkerRecord "w" "t" "https://chat/c/1" None WorkerStatus.ACTIVE (of_Z 0) None None.

Definition sending_task : TaskRecord :=
  mkTaskRecord "t" "p" "o" "c" SupervisorState.SUSPECT None [] (Some "w") 1 3 (of_Z 0) (of_Z 0).

Definition sending_registry : Registry :=
  empty_registry <| rg_tasks := {["t" := sending_task]} |>
                 <| rg_workers := {["w" := sending_worker]} |>
                 <| rg_window_bindings := {["w" := mkWorkerWindowBinding "w" 7 8 "chrome.exe"
                      "https://chat/c/1/" "uia" (of_Z 90) (of_Z 90) (of_Z 150)]} |>.

Definition sending_record : ReconciliationRecord :=
  mkReconciliationRecord "r2" "t" (of_Z 95) "SUSPECT" "high" "r" false (Some "w") "fence" 1 [] [].

Definition sending_page : BrowserObservation :=
  mkBrowserObservation "w" (of_Z 98) None (Some false) None None None None (Some "page") [].

Definition sending_observations : Observations :=
  no_observations
    <| ob_reconciliations := mkTable 2 [(1, sending_record)] |>
    <| ob_browser := mkTable 2 [(1, sending_page)] |>.

Definition sending_plan : DispatchPlan :=
  mkDispatchPlan "t" (of_Z 99) DispatchAction.CONTINUE_CURRENT_WORKER true true true "ready"
    (Some "r1") (Some "r2") (Some "fence") [] [].

Definition sending_advice : RecoveryRecommendation :=
  mkRecoveryRecommendation "t" "reconcile_then_continue" true "stalled" (Some "go on") [].

Definition sending : prog DispatchExecutionResult :=
  execute_current_worker_recovery sending_observations sending_plan sending_advice
    (mkDispatchExecutionPolicy true (Some "t") true [])
    (λ w, Ok (mkActionTransport "uia" (λ i, Returned (mkTransportSubmission true true "uia" "sent"))))
    (of_Z 100) (of_Z 101) "nonce" "attempt".

Lemma execution_is_fenced_witness :
  ∃ result a', (sending sending_registry).2 = Ok result ∧
    rg_actions (sending sending_registry).1 !! "act_attempt" = Some a' ∧
    aa_state a' = ActionAttemptState.SUBMITTED ∧
    ∃ e, sending (sending sending_registry).1 = ((sending sending_registry).1, Err e).
Proof.
  assert (∀ st, "SUBMITTED" = ActionAttemptState.value st → st = ActionAttemptState.SUBMITTED)
    as Hinj by (by intros []).
  destruct (execution_is_fenced sending_observations sending_plan sending_advice
    (mkDispatchExecutionPolicy true (Some "t") true [])
    (λ w, Ok (mkActionTransport "uia" (λ i, Returned (mkTransportSubmission true true "uia" "sent"))))
    (of_Z 100) (of_Z 101) "nonce" "attempt" sending_registry (sending sending_registry).1
    (sending sending_registry).2)
    as [[_ (e & He)]|(a & a' & F & _ & Ha' & Hag & Hres & Hagain)].
  - apply empty_acts_ok. reflexivity.
  - intros k t Ht. cbn in Ht. by apply lookup_singleton_Some in Ht as [<- <-].
  - apply surjective_pairing.
  - vm_compute in He. discriminate He.
  - assert ((sending sending_registry).2 = Ok (mkDispatchExecutionResult "t" "act_attempt"
      "SUBMITTED" true true "sent")) as E by (vm_compute; reflexivity).
    rewrite E in Hres. destruct Hres as (Hid & Hst & Hu). cbn in Hid, Hst, Hu.
    rewrite <- Hid in Ha'. exists (mkDispatchExecutionResult "t" "act_attempt"
      "SUBMITTED" true true "sent"), a'.
    split; [exact E|]. split; [exact Ha'|]. split; [exact (Hinj _ Hst)|].
    apply Hagain; [symmetry; exact Hu|reflexivity].
Defined.

Definition answered (q : AckQuery) : res UiaAckObservation :=
  Ok (mkUiaAckObservation (aq_worker_id q) (of_Z 110) (aq_conversation_url q) (aq_expected_hwnd q)
        (aq_expected_browser_pid q) (Some false) (Some true) true true 1 40 "text").

Definition closing : Registry * res ActionReconcileResult :=
  reconcile_action_with_uia "act_attempt" answered (of_Z 109) (sending sending_registry).1.

Lemma acknowledgement_is_positive_witness :
  res_ok closing.2 = true ∧ rg_actions closing.1 ≠ rg_actions (sending sending_registry).1 ∧
  ∃ a', get_action_attempt closing.1 "act_attempt" = Ok a' ∧
    aa_state a' = ActionAttemptState.ACKNOWLEDGED.
Proof.
  split; [vm_compute; reflexivity|].
  assert (aa_state <$> rg_actions (sending sending_registry).1 !! "act_attempt" =
    Some ActionAttemptState.SUBMITTED) as H1 by (vm_compute; reflexivity).
  assert (aa_state <$> rg_actions closing.1 !! "act_attempt" =
    Some ActionAttemptState.ACKNOWLEDGED) as H2 by (vm_compute; reflexivity).
  split; [intros E; rewrite E, H1 in H2; discriminate H2|].
  destruct (acknowledgement_is_positive "act_attempt" answered (of_Z 109)
    (sending sending_registry).1 closing.1 closing.2)
    as [[Hsame _]|(a & asked & u & a' & result & _ & _ & _ & _ & _ & _ & _ & Ha' & _ & Hst & _)].
  - apply execution_acts_ok, empty_acts_ok. reflexivity.
  - apply surjective_pairing.
  - rewrite Hsame, H1 in H2. discriminate H2.
  - exists a'. split; [exact Ha'|exact Hst].
Defined.
