(* ===== verification/Resident.v ===== *)
(** * cli.py: the steps of the resident supervisor

    The resident supervisor watches all tasks, and sends a continuation to a worker whose
    delivery failed or whose turn runs too long.  Its store is the database: the registry and
    the observation tables.  Each call of the registry is one step; between two steps the other
    processes act, and the process may be killed (Runs.v).  The log holds the heartbeats, the
    rounds and the stages of every send, each with the store it found. *)

From S2P Require Import Prelude PyFloat PyStr PyUrl PyJson Models WorkerProtocol Registry.
From S2P Require Import ObsTable Observations Persistence AttemptTables Reconcile Watcher Attention.
From S2P Require Import Dispatcher Actions Leases Programs ChildDispatch Workers.
From S2P Require Import TimeoutRecovery OverrunContinuation DispatchRuntime Runs.

Open Scope string_scope.
Open Scope Z_scope.
Open Scope list_scope.

Record Resident := mkResident {
  rs_registry : Registry;
  rs_observations : Observations;
}.

#[export] Instance eta_Resident : Eta Resident := λ s,
  mkResident (rs_registry s) (rs_observations s).

(** Why a plan may be executed: it follows the advice for two samples of a task, or such a
    plan passed the gate of delivery errors, or the clock of a turn is over. *)
Inductive trigger :=
  | Advised (task : TaskRecord) (recommendation : RecoveryRecommendation)
      (previous current : option ReconciliationRecord) (policy : DispatchPolicy)
  | DeliveryError (plan : DispatchPlan) (browser : option BrowserObservation)
      (policy : TimeoutRecoveryPolicy)
  | Overrun (task : TaskRecord) (clock : OverrunClock)
      (previous current : option ReconciliationRecord) (browser : option BrowserObservation)
      (policy : OverrunContinuationPolicy).

Inductive event :=
  | Heartbeat (renewed : bool)
  | Round
  | Emitted (queue : list AttentionItem)
  | Clocked (task_id : string) (policy : OverrunContinuationPolicy) (now : float)
      (clock : OverrunClock) (s : Resident)
  | Planned (why : trigger) (now : float) (plan : DispatchPlan) (s : Resident)
  | Fenced (why : trigger) (plan : DispatchPlan) (policy : DispatchExecutionPolicy) (now : float)
      (a : ActionAttempt) (s : Resident)
  | Armed (a : ActionAttempt) (s : Resident)
  | Sent (a : ActionAttempt) (i : ActionIntent) (answer : transport_outcome) (s : Resident).

Notation World := (Runs.World Resident event).
Notation run := (eff World).

(** What the supervisor reads from outside: the exact window through UI Automation, the local
    shell ([None] without a state directory), the workspace; and what sends. *)
Class Desktop := {
  uia_observe : nat → WorkerRecord → option BrowserObservation → option Z → res BrowserObservation;
  uia_discover : nat → res (list dict);
  uia_chrome : option string;
  uia_timeout_s : float;
  lsm_telemetry : option (nat → string → string → list string → res LsmObservation);
  workspace_probe : nat → string → string → res WorkspaceObservation;
  uia_transport : nat → WorkerWindowBinding → res ActionTransport;
  uia_ack : nat → AckQuery → res UiaAckObservation;
  fresh_uuid : nat → string;
  current_directory : string;
}.

Section Steps.
Context {env : RunEnv Resident}.

Definition commit_logged {A} (m : nat → Resident → res (Resident * A))
    (log : Resident → A → list event) : run A := λ w,
  match m (w_tick w) (w_store w) with
  | Ok (s', a) => (Runs.mkWorld s' (w_tick w) (w_log w ++ log (w_store w) a), Done a)
  | Err e => (w, Raised e)
  end.

(** One transaction at the clock [now] and the step [n], and what it logs. *)
Definition transact {A} (m : float → nat → Resident → res (Resident * A))
    (log : Resident → A → list event) : run A :=
  now ← step; commit_logged (m now) log.

Definition quietly {A} (s : Resident) (a : A) : list event := [].

(** A read that is logged with what it gave. *)
Definition read_logged {A} (m : float → nat → Resident → res A)
    (log : Resident → A → list event) : run A :=
  transact (λ now n s, a ← m now n s; Ok (s, a)) log.

Definition read {A} (m : Resident → res A) : run A :=
  transact (λ _ _ s, a ← m s; Ok (s, a)) quietly.

Definition read_registry {A} (m : Registry → res A) : run A := read (λ s, m (rs_registry s)).

Definition write_registry {A} (m : float → nat → Registry → res (Registry * A)) : run A :=
  transact (λ now n s, '(r', a) ← m now n (rs_registry s); Ok (s <| rs_registry := r' |>, a)) quietly.

Definition write_observations (m : float → nat → Observations → Registry → res Observations)
    : run unit :=
  transact (λ now n s, o' ← m now n (rs_observations s) (rs_registry s);
                       Ok (s <| rs_observations := o' |>, tt)) quietly.

(** A program of several registry transactions, run in one step. *)
Definition run_prog {A} (m : float → nat → prog A) : run A :=
  now ← step;
  n ← tick;
  apply_part (λ s, let '(r', x) := m now n (rs_registry s) in (s <| rs_registry := r' |>, x)).

(** A ghost entry of the log. *)
Definition note (e : event) : run unit := λ w, (w <| w_log := w_log w ++ [e] |>, Done tt).

Definition consult {A} (answer : nat → res A) : run A := ask answer unlogged.

(** [now], or the clock *)
Definition clock_or (now : option float) : run float :=
  match now with Some t => mret t | None => clock end.

(** [try: m except c: h] of the classes [caught]; the others pass. *)
Definition catching {A} (caught : exn_class → bool) (m : run A) (h : exn → run A) : run A :=
  try_except m (λ e, if caught (exn_type e) then h e else lift (Err e)).

(** [try: m except ...] as a value. *)
Definition attempt {A} (caught : exn_class → bool) (m : run A) : run (exn + A) :=
  catching caught (inr <$> m) (λ e, mret (inl e)).

Definition is_class (c c' : exn_class) : bool := bool_decide (c' = c).

End Steps.

Section Supervisor.
Context {tables : UnicodeTables} {digests : Digests} {fmt : Formatting} {ties : TieOrder}.
Context {nums : Numbers} {texts : PromptTexts} {env : RunEnv Resident} {desk : Desktop}.

(** ** Refreshing the evidence *)

(** [json.dumps] of [asdict(obs)] without [observed_at] *)
Definition _lsm_semantic_signature (l : LsmObservation) : string :=
  json_text (JObj (("task_id", JStr (lo_task_id l)) ::
                   dpop "observed_at" (lsm_snapshot l) ++ [("raw", JObj (lo_raw l))])).

Definition _workspace_semantic_signature (w : WorkspaceObservation) : string :=
  json_text (JObj (("task_id", JStr (wo_task_id w)) ::
    dpop "observed_at" (workspace_snapshot w) ++
    [("git_branch", j_of_opt_str (wo_git_branch w));
     ("git_status_entries", JList (JStr <$> wo_git_status_entries w));
     ("raw", JObj (wo_raw w))])).

(** The previous signature differs, or there is none. *)
Definition changed {A} (signature : A → string) (previous : option A) (obs : A) : bool :=
  match previous with
  | None => true
  | Some p => negb (String.eqb (signature p) (signature obs))
  end.

Definition _refresh_lsm (task_id : string) : run (option LsmObservation) :=
  task ← read_registry (λ r, get_task r task_id);
  match lsm_telemetry with
  | Some telemetry =>
      if opt_truthy (tr_lsm_session_id task) then
        previous ← read (λ s, Ok (latest_lsm_observation (rs_observations s) task_id));
        answer ← attempt (λ c, is_class OSError c || is_value_error c)
          (jobs ← read (λ s, Ok (tracked_jobs (rs_observations s) task_id));
           consult (λ n, telemetry n task_id (default "" (tr_lsm_session_id task)) jobs));
        match answer with
        | inl _ => mret previous
        | inr obs =>
            (if changed _lsm_semantic_signature previous obs
             then write_observations (λ _ _ o r, record_lsm_observation o r obs) else mret tt);;
            mret (Some obs)
        end
      else read (λ s, Ok (latest_lsm_observation (rs_observations s) task_id))
  | None => read (λ s, Ok (latest_lsm_observation (rs_observations s) task_id))
  end.

Definition _refresh_workspace (task_id : string) : run WorkspaceObservation :=
  task ← read_registry (λ r, get_task r task_id);
  previous ← read (λ s, Ok (latest_workspace_observation (rs_observations s) task_id));
  obs ← consult (λ n, workspace_probe n task_id (tr_cwd task));
  (if changed _workspace_semantic_signature previous obs
   then write_observations (λ _ _ o r, record_workspace_observation o r obs) else mret tt);;
  mret obs.

(** [v is not None] *)
Definition jpresent (j : json) : bool := match j with JNull => false | _ => true end.

(** The window that the probe saw is leased to the worker. *)
Definition bind_seen (worker_id : string) (obs : BrowserObservation) : run unit :=
  let raw := bo_raw obs in
  if opt_truthy uia_chrome && opt_truthy (bo_url obs) &&
     jpresent (dget "window_handle" raw) &&
     jpresent (dget "browser_pid" raw)
  then
    handle ← lift (json_int (dget "window_handle" raw));
    pid ← lift (json_int (dget "browser_pid" raw));
    let source := if jtruthy (dget "source" raw) then json_str (dget "source" raw)
                  else "windows_uia_chrome" in
    _ ← write_registry (λ _ _ r,
      bind_worker_window r worker_id handle pid (default "" uia_chrome) (default "" (bo_url obs))
        source (bo_observed_at obs) (fmax (of_Z 15) (fmul uia_timeout_s (of_Z 4))));
    mret tt
  else mret tt.

Definition _refresh_uia (task_id : string) : run BrowserObservation :=
  task ← read_registry (λ r, get_task r task_id);
  if negb (opt_truthy (tr_current_worker_id task))
  then lift (raise UiaProbeUnavailable "task has no current conversation worker")
  else
    worker ← read_registry (λ r, get_worker r (default "" (tr_current_worker_id task)));
    previous ← read (λ s, Ok (latest_browser_observation (rs_observations s)
                                (Some (wr_worker_id worker))));
    now ← clock;
    binding ← read_registry (λ r, Ok (get_worker_window_binding r (wr_worker_id worker) now true));
    obs ← consult (λ n, uia_observe n worker previous (wb_window_handle <$> binding));
    _ ← transact (λ _ _ s,
      '(o', r') ← record_browser_observation (rs_observations s) (rs_registry s) obs;
      Ok (mkResident r' o', tt)) quietly;
    bind_seen (wr_worker_id worker) obs;;
    mret obs.

(** ** Assessing a task *)

Record Assessed := mkAssessed {
  sd_task : TaskRecord;
  sd_browser : option BrowserObservation;
  sd_lsm : option LsmObservation;
  sd_workspace : option WorkspaceObservation;
  sd_assessment : Assessment;
}.

Definition latest_browser (task : TaskRecord) : run (option BrowserObservation) :=
  read (λ s, Ok (latest_browser_observation (rs_observations s) (tr_current_worker_id task))).

Definition latest_network (task : TaskRecord) : run (option NetworkObservation) :=
  read (λ s, Ok (latest_network_observation (rs_observations s) (tr_current_worker_id task))).

Definition set_state (task_id : string) (st : SupervisorState.t) : run TaskRecord :=
  _ ← write_registry (λ now _ r, update_state r task_id st now);
  read_registry (λ r, get_task r task_id).

Definition completed_assessment : Assessment :=
  assessment SupervisorState.COMPLETED "durable worker-protocol task is already completed"
    "high" ["worker_protocol.task_status=completed"] false.

Definition firm (a : Assessment) : bool :=
  String.eqb (as_confidence a) "high" || String.eqb (as_confidence a) "medium".

(** [worker_protocol_exists] and then [load_worker_protocol] *)
Definition protocol_of (task_id : string) : run (option WorkerTaskState) :=
  exists_ ← read_registry (λ r, get_task r task_id;; Ok (protocol_state_exists r task_id));
  if (exists_ : bool) then Some <$> read_registry (λ r, load_worker_protocol r task_id)
  else mret None.

Definition _assessment (task_id : string) (policy : WatchPolicy)
    (reconcile_workspace refresh_uia : bool) : run Assessed :=
  task ← read_registry (λ r, get_task r task_id);
  protocol ← protocol_of task_id;
  if match protocol with
     | Some p => bool_decide (ws_task_status p = DurableTaskStatus.COMPLETED)
     | None => false
     end
  then
    task ← (if bool_decide (tr_state task = SupervisorState.COMPLETED) then mret task
            else set_state task_id SupervisorState.COMPLETED);
    browser ← latest_browser task;
    mret (mkAssessed task browser None None completed_assessment)
  else
    lsm ← _refresh_lsm task_id;
    (if refresh_uia
     then _ ← attempt (is_class UiaProbeUnavailable) (_refresh_uia task_id); mret tt
     else mret tt);;
    browser ← latest_browser task;
    network ← latest_network task;
    now ← clock;
    let result := assess task browser lsm None network now policy in
    seen ← (if reconcile_workspace || as_requires_reconcile result then
              workspace ← _refresh_workspace task_id;
              now ← clock;
              mret (Some workspace, assess task browser lsm (Some workspace) network now policy)
            else mret (None, result));
    let '(workspace, result) := (seen : option WorkspaceObservation * Assessment) in
    task ← (if negb (present protocol) &&
               negb (bool_decide (as_state result = tr_state task)) && firm result
            then set_state task_id (as_state result) else mret task);
    mret (mkAssessed task browser lsm workspace result).

Definition _record_current_reconciliation (a : Assessed) : run ReconciliationRecord :=
  let task := sd_task a in
  network ← latest_network task;
  worker ← (if opt_truthy (tr_current_worker_id task)
            then Some <$> read_registry (λ r, get_worker r (default "" (tr_current_worker_id task)))
            else mret None);
  now ← clock;
  n ← tick;
  let record := build_reconciliation_record (fresh_uuid n) task (sd_assessment a) worker
                  (sd_browser a) network (sd_lsm a) (sd_workspace a) now in
  write_observations (λ _ _ o r, record_reconciliation o r record);;
  mret record.

Definition record_event (task_id action : string) (safe : bool) (reason : string)
    (payload : dict) : run unit :=
  write_observations (λ now _ o r, record_recovery_event o r task_id action safe reason payload now).

(** ** The scan of all tasks *)

Definition human (reason evidence : string) : Assessment :=
  assessment SupervisorState.NEEDS_HUMAN reason "high" [evidence] false.

(** The assessment of one task: what it raises becomes a task that needs a human. *)
Definition scan_task (policy : WatchPolicy) (refresh_uia : bool) (task : TaskRecord)
    : run (TaskRecord * Assessment) :=
  let pair (a : Assessed) := (sd_task a, sd_assessment a) in
  try_except (pair <$> _assessment (tr_task_id task) policy false refresh_uia) (λ e,
    match exn_type e with
    | UiaProbeUnavailable => pair <$> _assessment (tr_task_id task) policy false false
    | WorkerProtocolPersistenceError =>
        mret (task, human ("worker protocol persistence error: " +:+ exn_msg e)
                      "worker_protocol.persistence_inconsistent=true")
    | UnsupportedLsmState => lift (Err e)
    | _ =>
        let reason := "watchdog task observation failed: " +:+ exn_text e in
        record_event (tr_task_id task) "watchdog_scan_error" false reason
          [("error_type", JStr (exn_name (exn_type e)))];;
        mret (task, human reason "watchdog.task_observation_error=true")
    end).

Definition _scan_attention (policy : WatchPolicy) (refresh_uia : bool) (keepalive : run unit)
    : run (list AttentionItem) :=
  tasks ← read_registry (λ r, Ok (list_tasks r));
  assessed ← fold_run (λ assessed task,
    keepalive;;
    x ← scan_task policy refresh_uia task;
    keepalive;;
    mret (assessed ++ [x])) [] tasks;
  mret (attention_queue assessed).

Definition _attention_signature (queue : list AttentionItem)
    : list (string * SupervisorState.t * Z * string) :=
  (λ x, (ai_task_id x, ai_state x, ai_priority x, ai_reason x)) <$> queue.

(** ** One send *)

(** [execute_current_worker_recovery] of DispatchRuntime.v with its steps apart: the checks,
    the write-ahead record, the intent, the transport, the record of its outcome.  [why] is for
    the log. *)
Definition execute_recovery (why : trigger) (plan : DispatchPlan) (recommendation : RecoveryRecommendation)
    (policy : DispatchExecutionPolicy) (given : option float) : run DispatchExecutionResult :=
  now ← clock_or given;
  armed ← read_logged (λ _ n s,
      recovery_attempt (rs_observations s) (rs_registry s) plan recommendation policy
        (uia_transport n) now (fresh_uuid n) (fresh_uuid (S n)))
    (λ s x, [Fenced why plan policy now x.1 s]);
  let '(a, transport) := (armed : ActionAttempt * ActionTransport) in
  transact (λ _ _ s,
      r' ← (if xp_consume_recovery_budget policy
            then record_recovery_action_attempt (rs_registry s) a
            else record_current_worker_action_attempt (rs_registry s) a);
      Ok (s <| rs_registry := r' |>, tt))
    (λ s _, [Armed a s]);;
  stored ← read_registry (λ r, get_action_attempt r (aa_attempt_id a));
  intent ← lift (intent_from_attempt stored (default "" (rr_prompt recommendation)));
  answer ← ask (λ _, Ok (tp_submit transport intent))
             (λ s x, match x with Ok out => [Sent a intent out s] | Err _ => [] end);
  outcome ← write_registry (λ later _ r,
    record_submission r (aa_attempt_id a) (tp_name transport) answer later);
  mret (mkDispatchExecutionResult (aa_task_id a) (aa_attempt_id a) (so_state outcome)
          (so_submitted outcome) (so_side_effect_possible outcome) (so_detail outcome)).

(** ** One acknowledgement *)

(** The reconciliation of an attempt and the signature of the page that acknowledged it. *)
Definition acknowledge_task (task_id : string) (attempt_id : string) (given : option float)
    : run ActionReconcileResult :=
  now ← clock_or given;
  reconciled ← run_prog (λ _ n, reconcile_action_with_uia attempt_id (uia_ack n) now);
  (if nr_acknowledged reconciled then
     task ← read_registry (λ r, get_task r task_id);
     browser ← latest_browser task;
     match b ← browser; truthy_text (bo_message_signature b) with
     | Some signature =>
         _ ← write_registry (λ _ _ r, record_action_ack_browser_signature r attempt_id signature);
         mret tt
     | None => mret tt
     end
   else mret tt);;
  mret reconciled.

End Supervisor.
