(* ===== verification/ResidentCycles.v ===== *)
(** * cli.py: the recovery cycles and the watch loop

    One round scans all tasks, then sends at most one continuation: first for a turn that
    runs too long, else for a delivery error.  The loop runs under the watchdog lease and ends
    when the lease cannot be renewed. *)

From S2P Require Import Prelude PyFloat PyStr PyUrl PyJson Models ProjectUrl WorkerProtocol Registry.
From S2P Require Import ObsTable Observations Persistence AttemptTables Reconcile Watcher Attention.
From S2P Require Import Dispatcher Actions Leases Programs ChildDispatch Workers.
From S2P Require Import TimeoutRecovery OverrunContinuation DispatchRuntime Runs Resident.

Open Scope string_scope.
Open Scope Z_scope.
Open Scope list_scope.

Definition OVERRUN_TRIGGER_KIND : string := "hard_overrun_25m20".
Definition AUTO_WATCH_TASK_PREFIX : string := "watch-chat-".

(** One entry of the list that a cycle returns; a field that the entry lacks is absent. *)
Record CycleReport := mkCycleReport {
  cy_task_id : string;
  cy_kind : string;
  cy_attempt_id : option string;
  cy_state : option string;
  cy_acknowledged : option bool;
  cy_submitted : option bool;
  cy_side_effect_possible : option bool;
  cy_elapsed_s : option float;
  cy_anchor_at : option float;
  cy_blockers : option (list string);
  cy_detail : string;
}.

(** [bool(item.get("submitted")) or bool(item.get("side_effect_possible"))] *)
Definition effective_report (c : CycleReport) : bool :=
  opt_true (cy_submitted c) || opt_true (cy_side_effect_possible c).

Definition ack_report (task_id kind attempt_id state : string) (acknowledged : bool)
    (detail : string) : CycleReport :=
  mkCycleReport task_id kind (Some attempt_id) (Some state) (Some acknowledged) None None None None
    None detail.

(** A task that was not sent to. *)
Definition unsent (task_id kind detail : string) (clock : option OverrunClock)
    (blockers : option (list string)) : CycleReport :=
  mkCycleReport task_id kind None None None (Some false) None (ck_elapsed_s <$> clock)
    (ck_anchor_at <$> clock) blockers detail.

Definition sent_report (task_id kind : string) (x : DispatchExecutionResult)
    (clock : option OverrunClock) : CycleReport :=
  mkCycleReport task_id kind (Some (xr_attempt_id x)) (Some (xr_state x)) None
    (Some (xr_submitted x)) (Some (xr_side_effect_possible x)) (ck_elapsed_s <$> clock)
    (ck_anchor_at <$> clock) None (xr_detail x).

(** [asdict(plan)] *)
Definition plan_payload (p : DispatchPlan) : json :=
  JObj [("task_id", JStr (pl_task_id p)); ("created_at", JFloat (pl_created_at p));
        ("action", JStr (DispatchAction.value (pl_action p)));
        ("candidate_ready", JBool (pl_candidate_ready p));
        ("transport_enabled", JBool (pl_transport_enabled p));
        ("would_dispatch", JBool (pl_would_dispatch p)); ("reason", JStr (pl_reason p));
        ("previous_reconcile_id", j_of_opt_str (pl_previous_reconcile_id p));
        ("current_reconcile_id", j_of_opt_str (pl_current_reconcile_id p));
        ("fence_token", j_of_opt_str (pl_fence_token p));
        ("checks", JObj ((λ c, (c.1, JBool c.2)) <$> pl_checks p));
        ("blockers", JList (JStr <$> pl_blockers p))].

(** [asdict(assessment)] *)
Definition assessment_payload (a : Assessment) : json :=
  JObj [("state", JStr (SupervisorState.value (as_state a))); ("reason", JStr (as_reason a));
        ("confidence", JStr (as_confidence a)); ("evidence", JList (JStr <$> as_evidence a));
        ("requires_reconcile", JBool (as_requires_reconcile a));
        ("may_auto_continue", JBool (as_may_auto_continue a))].

(** [list(dict.fromkeys(xs))] *)
Definition distinct (xs : list string) : list string := dedup [] xs.

(** The errors of an execution that a cycle reports and goes on. *)
Definition send_blocked (c : exn_class) : bool :=
  match c with ActionBlocked | DispatchDisabled | UiaActionUnavailable => true | _ => false end.

(** ** One task for each conversation *)

Section Canonical.
Context {tables : UnicodeTables}.

(** The active current worker of an open task, with a conversation. *)
Definition watched_worker (r : Registry) (task : TaskRecord) : option WorkerRecord :=
  if task_terminal task || negb (opt_truthy (tr_current_worker_id task)) then None else
  match get_worker r (default "" (tr_current_worker_id task)) with
  | Ok worker =>
      if bool_decide (wr_status worker = WorkerStatus.ACTIVE) &&
         str_truthy (wr_conversation_url worker) then Some worker else None
  | Err _ => None
  end.

Definition conversation_key (worker : WorkerRecord) : string :=
  match conversation_id_from_url (wr_conversation_url worker) with
  | Some id => "conversation:" +:+ lower id
  | None => normalize_url (wr_conversation_url worker)
  end.

(** [groups.setdefault(key, []).append(task)] *)
Fixpoint group_add (key : string) (task : TaskRecord) (groups : list (string * list TaskRecord))
    : list (string * list TaskRecord) :=
  match groups with
  | [] => [(key, [task])]
  | (k, ts) :: groups' =>
      if String.eqb k key then (k, ts ++ [task]) :: groups'
      else (k, ts) :: group_add key task groups'
  end.

Definition group_task (r : Registry) (groups : list (string * list TaskRecord)) (task : TaskRecord)
    : list (string * list TaskRecord) :=
  match watched_worker r task with
  | Some worker => group_add (conversation_key worker) task groups
  | None => groups
  end.

(** [(x.updated_at, x.task_id) > (y.updated_at, y.task_id)] *)
Definition newer_task (x y : TaskRecord) : bool :=
  if feq (tr_updated_at x) (tr_updated_at y) then str_lt (tr_task_id y) (tr_task_id x)
  else flt (tr_updated_at y) (tr_updated_at x).

Definition newest_task (t : TaskRecord) (ts : list TaskRecord) : TaskRecord :=
  foldl (λ best x, if newer_task x best then x else best) t ts.

Definition auto_watch (t : TaskRecord) : bool := startswith AUTO_WATCH_TASK_PREFIX (tr_task_id t).

Definition select_task (candidates : list TaskRecord) : option TaskRecord :=
  match List.filter auto_watch candidates, candidates with
  | t :: ts, _ => Some (newest_task t ts)
  | [], t :: ts => Some (newest_task t ts)
  | [], [] => None
  end.

Definition _canonical_overrun_tasks (r : Registry) : list TaskRecord :=
  omap (λ g, select_task g.2) (foldl (group_task r) [] (list_tasks r)).

End Canonical.

Section Cycles.
Context {tables : UnicodeTables} {check : NetlocCheck} {digests : Digests} {fmt : Formatting}.
Context {ties : TieOrder}.
Context {nums : Numbers} {texts : PromptTexts} {env : RunEnv Resident} {desk : Desktop}.

(** ** The visible conversations *)

(** [row[key]] *)
Definition row_item (key : string) (row : dict) : res json :=
  match dfind key row with Some v => Ok v | None => raise KeyError key end.

(** The task of a visible conversation, registered when it is new. *)
Definition watch_task (task_id url conversation_id : string) : run TaskRecord :=
  found ← attempt (is_class KeyError) (read_registry (λ r, get_task r task_id));
  match found with
  | inr task => mret task
  | inl _ =>
      task ← run_prog (λ now n,
        register_task (Some task_id) "chatgpt-autowatch" "automatic 25m20 visible-conversation watchdog"
          current_directory None (Some url) (Some conversation_id) (fresh_uuid n) now
          (fresh_uuid (S n)) now);
      _ ← write_registry (λ now _ r, set_checkpoint r task_id
        [("auto_watch", JBool true); ("conversation_id", JStr conversation_id)] now);
      mret task
  end.

(** The worker at the page of the conversation, added when the task has none there. *)
Definition watch_worker (task : TaskRecord) (url conversation_id : string) : run WorkerRecord :=
  let new_worker := write_registry (λ now n r,
    add_worker r (tr_task_id task) url (Some conversation_id) true (fresh_uuid n) now) in
  if negb (opt_truthy (tr_current_worker_id task))
  then
    worker ← new_worker;
    _ ← read_registry (λ r, get_task r (tr_task_id task));
    mret worker
  else
    worker ← read_registry (λ r, get_worker r (default "" (tr_current_worker_id task)));
    if String.eqb (normalize_url (wr_conversation_url worker)) (normalize_url url)
    then mret worker else new_worker.

Definition sync_row (policy : OverrunContinuationPolicy) (row : dict) : run (option string) :=
  let url := strip (if jtruthy (dget "url" row) then json_str (dget "url" row) else "") in
  match conversation_id_from_url url with
  | None => mret None
  | Some conversation_id =>
      let task_id := AUTO_WATCH_TASK_PREFIX +:+ lower conversation_id in
      task ← watch_task task_id url conversation_id;
      worker ← watch_worker task url conversation_id;
      handle ← lift (row_item "window_handle" row ≫= json_int);
      pid ← lift (row_item "browser_pid" row ≫= json_int);
      observed_at ← (if jtruthy (dget "observed_at" row)
                     then lift (json_float (dget "observed_at" row)) else clock);
      _ ← write_registry (λ _ _ r,
        bind_worker_window r (wr_worker_id worker) handle pid (default "" uia_chrome) url
          "windows_uia_autodiscovery" observed_at
          (fmax (of_Z 60) (fadd (op_max_browser_observation_age_s policy) (of_Z 30))));
      mret (Some task_id)
  end.

Definition _sync_visible_conversation_watchers (policy : OverrunContinuationPolicy)
    : run (list string) :=
  rows ← attempt (is_class UiaProbeUnavailable) (consult uia_discover);
  match rows with
  | inl _ => mret []
  | inr rows => fold_run (λ discovered row,
                  id ← sync_row policy row;
                  mret (discovered ++ match id with Some id => [id] | None => [] end)) [] rows
  end.

(** ** Acknowledgements *)

(** The reports of one attempt; [caught] are the errors that end in a report. *)
Definition acknowledge_reports (caught : exn_class → bool) (kind prefix blocked task_id : string)
    (a : ActionAttempt) (given : option float) : run (list CycleReport) :=
  let refused (e : exn) := ack_report task_id kind (aa_attempt_id a)
    (ActionAttemptState.value (aa_state a)) false (blocked +:+ exn_msg e) in
  answer ← attempt caught (_ ← _refresh_uia task_id; acknowledge_task task_id (aa_attempt_id a) given);
  match answer with
  | inl e => mret [refused e]
  | inr x =>
      let report := ack_report task_id kind (aa_attempt_id a) (nr_state x) (nr_acknowledged x)
                      (nr_detail x) in
      recorded ← attempt caught
        (record_event task_id (prefix +:+ nr_state x) false (nr_detail x)
           [("attempt_id", JStr (aa_attempt_id a))]);
      mret match recorded with inl e => [report; refused e] | inr _ => [report] end
  end.

Definition timeout_ack_caught (c : exn_class) : bool := is_runtime_error c || is_value_error c.

Definition overrun_ack_caught (c : exn_class) : bool :=
  match c with ActionBlocked | UiaActionUnavailable | UiaProbeUnavailable => true | _ => false end.

(** ** Delivery errors *)

(** The execution of a plan, with its recovery events and its report; the boolean says that
    the cycle is over. *)
Definition send_reports (why : trigger) (kind blocked done : string) (plan : DispatchPlan)
    (recommendation : RecoveryRecommendation) (policy : DispatchExecutionPolicy)
    (task_id : string) (clock : option OverrunClock) (given : option float)
    : run (CycleReport * bool) :=
  answer ← attempt send_blocked (execute_recovery why plan recommendation policy given);
  match answer with
  | inl e =>
      record_event task_id blocked false (exn_msg e) [("dispatch_plan", plan_payload plan)];;
      mret (unsent task_id kind (exn_msg e) None None, false)
  | inr x =>
      record_event task_id (done +:+ xr_state x) (xr_submitted x) (xr_detail x)
        ([("attempt_id", JStr (xr_attempt_id x));
          ("side_effect_possible", JBool (xr_side_effect_possible x))] ++
         match clock with
         | Some k => [("elapsed_s", JFloat (ck_elapsed_s k)); ("anchor_at", JFloat (ck_anchor_at k))]
         | None => []
         end ++ [("dispatch_plan", plan_payload plan)]);;
      mret (sent_report task_id kind x clock, xr_submitted x || xr_side_effect_possible x)
  end.

(** The plan of the advice for two samples, and its refusal while an action is open. *)
Definition advised_plan (a : Assessed) (previous : option ReconciliationRecord)
    (current : ReconciliationRecord) (policy : DispatchPolicy)
    : run (DispatchPlan * RecoveryRecommendation) :=
  let task := sd_task a in
  let recommendation := recommend task (sd_assessment a) (sd_lsm a) (sd_workspace a) in
  built ← read_logged (λ now _ _,
      p ← build_dispatch_plan task recommendation previous (Some current) policy now; Ok (now, p))
    (λ s x, [Planned (Advised task recommendation previous (Some current) policy) x.1 x.2 s]);
  unresolved ← read_registry (λ r, unresolved_action_attempt r (tr_task_id task));
  mret (apply_unresolved_action_gate (built.2) unresolved, recommendation).

Definition sending_policy : DispatchPolicy :=
  mkDispatchPolicy (of_Z 120) (of_Z 3) (of_Z 30) (of_Z 30) (of_Z 5) (of_Z 5) true.

(** The second pass over the queue: one task; an early return ends the cycle. *)
Definition recover_task (policy : TimeoutRecoveryPolicy) (keepalive : run unit)
    (results : list CycleReport) (task_id : string)
    : run (list CycleReport + list CycleReport) :=
  keepalive;;
  unresolved ← read_registry (λ r, unresolved_action_attempt r task_id);
  if present unresolved then mret (inr results) else
  fresh ← attempt (is_class UiaProbeUnavailable) (_refresh_uia task_id);
  match fresh with
  | inl e => mret (inr (results ++ [unsent task_id "dispatch"
      ("fresh exact-window observation unavailable: " +:+ exn_msg e) None None]))
  | inr _ =>
      previous ← read (λ s, latest_reconciliation (rs_observations s) (rs_registry s) task_id);
      a ← _assessment task_id default_watch_policy true false;
      if negb (is_recoverable_delivery_error (sd_browser a)) then mret (inr results) else
      current ← _record_current_reconciliation a;
      advised ← advised_plan a previous current sending_policy;
      let '(plan, recommendation) := (advised : DispatchPlan * RecoveryRecommendation) in
      gated ← read_logged (λ now _ s,
          p ← gate_timeout_dispatch_plan (rs_observations s) (rs_registry s) plan (sd_browser a)
                policy now;
          Ok (now, p))
        (λ s x, [Planned (DeliveryError plan (sd_browser a) policy) x.1 x.2 s]);
      let p := gated.2 in
      if negb (pl_would_dispatch p)
      then mret (inr (results ++ [unsent task_id "dispatch" (pl_reason p) None
                                    (Some (pl_blockers p))]))
      else
        sent ← send_reports (DeliveryError plan (sd_browser a) policy) "dispatch"
          "watchdog_timeout_blocked" "watchdog_timeout:" p recommendation
          (mkDispatchExecutionPolicy true (Some (tr_task_id (sd_task a))) true [])
          (tr_task_id (sd_task a)) None None;
        mret (if (sent : CycleReport * bool).2 then inl (results ++ [sent.1])
              else inr (results ++ [sent.1]))
  end.

Definition from_loop {A} (x : A + A) : A := match x with inl a | inr a => a end.

Definition _auto_recover_timeout_cycle (queue : list AttentionItem)
    (policy : TimeoutRecoveryPolicy) (keepalive : run unit) : run (list CycleReport) :=
  if negb (tp_enabled policy) then mret [] else
  let task_ids := distinct (ai_task_id <$> queue) in
  acks ← fold_run (λ results task_id,
    keepalive;;
    unresolved ← read_registry (λ r, unresolved_action_attempt r task_id);
    match unresolved with
    | None => mret results
    | Some a =>
        reports ← acknowledge_reports timeout_ack_caught "ack" "watchdog_ack:"
          "ack reconciliation blocked: " task_id a None;
        mret (results ++ reports)
    end) [] task_ids;
  from_loop <$> loop (recover_task policy keepalive) acks task_ids.

(** ** Turns that run too long *)

(** The clock of a turn, logged when there is one. *)
Definition turn_clock (task_id : string) (policy : OverrunContinuationPolicy) (now : float)
    : run (option OverrunClock) :=
  read_logged (λ _ _ s, overrun_clock (rs_observations s) (rs_registry s) task_id policy now)
    (λ s c, match c with Some c => [Clocked task_id policy now c s] | None => [] end).

(** The nudge of a due turn, from two samples. *)
Definition nudge_task (policy : OverrunContinuationPolicy) (given : option float) (a : Assessed)
    (previous : option ReconciliationRecord) (current : ReconciliationRecord) (clock : OverrunClock)
    (action_now : float) (results : list CycleReport) : run (list CycleReport + list CycleReport) :=
  let task := sd_task a in
  let why := Overrun task clock previous (Some current) (sd_browser a) policy in
  plan ← read_logged (λ _ _ s,
      build_overrun_dispatch_plan (rs_registry s) task clock previous (Some current)
        (sd_browser a) policy true action_now)
    (λ s p, [Planned why action_now p s]);
  unresolved ← read_registry (λ r, unresolved_action_attempt r (tr_task_id task));
  let p := apply_unresolved_action_gate plan unresolved in
  if negb (pl_would_dispatch p)
  then mret (inr (results ++ [unsent (tr_task_id task) "overrun_dispatch" (pl_reason p)
                                (Some clock) (Some (pl_blockers p))]))
  else
    sent ← send_reports why "overrun_dispatch" "watchdog_overrun_blocked" "watchdog_overrun:" p
      (mkRecoveryRecommendation (tr_task_id task) "reconcile_then_continue" false
         "hard-overrun wall clock exceeded; continue the same durable task"
         (Some OVERRUN_CONTINUE_PROMPT) (as_evidence (sd_assessment a)))
      (mkDispatchExecutionPolicy true (Some (tr_task_id task)) false
         [("trigger_kind", JStr OVERRUN_TRIGGER_KIND);
          ("overrun_after_s", JFloat (op_overrun_after_s policy));
          ("overrun_anchor_at", JFloat (ck_anchor_at clock));
          ("overrun_due_at", JFloat (ck_due_at clock))])
      (tr_task_id task) (Some clock) (Some action_now);
    mret (if (sent : CycleReport * bool).2 then inl (results ++ [sent.1])
          else inr (results ++ [sent.1])).

Definition continue_task (policy : OverrunContinuationPolicy) (given : option float) (ts : float)
    (keepalive : run unit) (results : list CycleReport) (original : TaskRecord)
    : run (list CycleReport + list CycleReport) :=
  let task_id := tr_task_id original in
  keepalive;;
  sampled ← turn_clock task_id policy ts;
  if match sampled with Some c => negb (ck_sample_due c) | None => true end
  then mret (inr results) else
  unresolved ← read_registry (λ r, unresolved_action_attempt r task_id);
  if present unresolved then mret (inr results) else
  fresh ← attempt (is_class UiaProbeUnavailable) (_refresh_uia task_id);
  match fresh with
  | inl e =>
      mret (inr (results ++
        if match sampled with Some c => ck_due c | None => false end
        then [unsent task_id "overrun_dispatch"
                ("fresh exact-window observation unavailable: " +:+ exn_msg e) None None]
        else []))
  | inr _ =>
      previous ← read (λ s, latest_reconciliation (rs_observations s) (rs_registry s) task_id);
      assessed ← attempt (λ c, negb (is_class UnsupportedLsmState c))
        (_assessment task_id default_watch_policy true false);
      match assessed with
      | inl e =>
          let detail := "overrun task reconciliation failed: " +:+ exn_text e in
          record_event task_id "watchdog_overrun_error" false detail
            [("error_type", JStr (exn_name (exn_type e)))];;
          mret (inr (results ++ [unsent task_id "overrun_dispatch" detail None None]))
      | inr a =>
          current ← _record_current_reconciliation a;
          t ← (match given with Some _ => mret ts | None => clock end);
          let action_now := fmax_list t [rc_created_at current;
                              match sd_browser a with Some b => bo_observed_at b | None => t end] in
          due ← turn_clock (tr_task_id (sd_task a)) policy action_now;
          match due with
          | Some clock =>
              if ck_due clock
              then nudge_task policy given a previous current clock action_now results
              else mret (inr results)
          | None => mret (inr results)
          end
      end
  end.

Definition overrun_attempt (a : ActionAttempt) : bool :=
  jeq_str (dget "trigger_kind" (aa_metadata a)) OVERRUN_TRIGGER_KIND.

Definition _auto_continue_overrun_cycle (policy : OverrunContinuationPolicy)
    (given : option float) (keepalive : run unit) : run (list CycleReport) :=
  if negb (op_enabled policy) then mret [] else
  ts ← clock_or given;
  (if op_auto_discover_visible_conversations policy
   then _ ← _sync_visible_conversation_watchers policy; keepalive else mret tt);;
  tasks ← read_registry (λ r, Ok (_canonical_overrun_tasks r));
  acks ← fold_run (λ results task,
    keepalive;;
    unresolved ← read_registry (λ r, unresolved_action_attempt r (tr_task_id task));
    match unresolved with
    | Some a =>
        if overrun_attempt a then
          reports ← acknowledge_reports overrun_ack_caught "overrun_ack" "watchdog_overrun_ack:"
            "overrun acknowledgement blocked: " (tr_task_id task) a given;
          mret (results ++ reports)
        else mret results
    | None => mret results
    end) [] tasks;
  from_loop <$> loop (continue_task policy given ts keepalive) acks tasks.

(** ** The watch loop *)

(** The options of [lws watch]. *)
Record WatchArgs := mkWatchArgs {
  wa_once : bool;
  wa_uia : bool;
  wa_auto_recover_timeouts : bool;
  wa_auto_continue_overruns : bool;
  wa_interval : float;
  wa_overrun_after : float;
  wa_policy : WatchPolicy;
  wa_lease_owner : option string;
  wa_pid : Z;
  wa_host : string;
}.

Definition lease_name : string := "default".

(** [_keepalive]: without a lease it does nothing. *)
Definition _keepalive (leased : bool) (owner : string) (ttl : float) : run unit :=
  if leased then
    renewed ← transact (λ now _ s,
        '(r', x) ← heartbeat_watchdog_lease (rs_registry s) lease_name owner ttl now;
        Ok (s <| rs_registry := r' |>, x))
      (λ _ x, [Heartbeat x]);
    if (renewed : bool) then mret tt
    else lift (raise WatchdogLeaseLost "singleton watchdog lease can no longer be renewed")
  else mret tt.

Definition resident_overrun_policy (args : WatchArgs) : OverrunContinuationPolicy :=
  default_overrun_policy <| op_enabled := true |>
    <| op_overrun_after_s := fmax (of_Z 1) (wa_overrun_after args) |>
    <| op_auto_discover_visible_conversations := true |>.

(** One round; the new signature of the queue. *)
Definition watch_round (args : WatchArgs) (keepalive : run unit)
    (last : option (list (string * SupervisorState.t * Z * string)))
    : run (option (list (string * SupervisorState.t * Z * string))) :=
  note Round;;
  keepalive;;
  queue ← _scan_attention (wa_policy args) (wa_uia args) keepalive;
  let signature := Some (_attention_signature queue) in
  let emit := wa_once args || negb (bool_decide (signature = last)) in
  (if emit then note (Emitted queue) else mret tt);;
  overruns ← (if wa_auto_continue_overruns args
              then _auto_continue_overrun_cycle (resident_overrun_policy args) None keepalive
              else mret []);
  (if wa_auto_recover_timeouts args && negb (existsb effective_report overruns)
   then _ ← _auto_recover_timeout_cycle queue
              (mkTimeoutRecoveryPolicy true (tp_cooldown_s default_timeout_policy)) keepalive;
        mret tt
   else mret tt);;
  mret (if emit then signature else last).

(** [fuel] bounds the rounds; a process that is still alive then has no exit code. *)
Fixpoint watch_loop (args : WatchArgs) (keepalive : run unit) (fuel : nat)
    (last : option (list (string * SupervisorState.t * Z * string))) : run (option Z) :=
  match fuel with
  | O => mret None
  | S fuel' =>
      last' ← watch_round args keepalive last;
      if wa_once args then mret (Some 0)
      else
        keepalive;;
        _ ← clock;
        watch_loop args keepalive fuel' last'
  end.

(** [lws watch]; the exit code. *)
Definition watch (args : WatchArgs) (fuel : nat) : run (option Z) :=
  if wa_auto_recover_timeouts args && negb (wa_uia args)
  then lift (raise DispatchDisabled "--auto-recover-timeouts requires --uia exact-window observation")
  else if wa_auto_continue_overruns args && negb (wa_uia args)
  then lift (raise DispatchDisabled "--auto-continue-overruns requires --uia exact-window observation")
  else
    n ← tick;
    let owner := if opt_truthy (wa_lease_owner args) then default "" (wa_lease_owner args)
                 else fresh_uuid n in
    let ttl := fmax (of_Z 60) (fmul (fmax (of_Z 1) (wa_interval args)) (of_Z 3)) in
    leased ← (if wa_once args then mret (Some false)
              else
                x ← write_registry (λ now _ r,
                  acquire_watchdog_lease r lease_name owner (wa_pid args) (wa_host args) ttl now);
                mret (if (x : bool * WatchdogLease).1 then Some true else None));
    match leased with
    | None => mret (Some 4)
    | Some leased =>
        try_finally
          (catching (is_class WatchdogLeaseLost)
             (watch_loop args (_keepalive leased owner ttl) fuel None) (λ _, mret (Some 5)))
          (if (leased : bool)
           then _ ← write_registry (λ _ _ r, release_watchdog_lease r lease_name owner); mret tt
           else mret tt)
    end.

(** The exit code for what a command raises; the others escape [main]. *)
Definition exit_code (c : exn_class) : option Z :=
  match c with
  | KeyError => Some 2
  | UnsupportedLsmState => Some 3
  | UiaProbeUnavailable => Some 6
  | ChildSpawnBlocked => Some 14
  | ReplacementBlocked => Some 13
  | DispatchDisabled | ActionBlocked | UiaActionUnavailable => Some 12
  | ValueError | CapabilityProvenanceError | ProbeOperatorEvidenceError => Some 2
  | _ => None
  end.

Definition main_of (command : run (option Z)) : run (option Z) :=
  try_except command (λ e,
    match exit_code (exn_type e) with Some n => mret (Some n) | None => lift (Err e) end).

(** ** The operator's commands *)

Record FenceArgs := mkFenceArgs {
  fa_max_fence_age : float;
  fa_min_fence_separation : float;
  fa_min_dom_quiet : float;
  fa_min_network_quiet : float;
}.

Definition fence_policy (f : FenceArgs) (transport_enabled : bool) : DispatchPolicy :=
  mkDispatchPolicy (fmax (of_Z 1) (fa_max_fence_age f)) (fmax (of_Z 0) (fa_min_fence_separation f))
    (of_Z 30) (of_Z 30) (fmax (of_Z 0) (fa_min_dom_quiet f)) (fmax (of_Z 0) (fa_min_network_quiet f))
    transport_enabled.

(** The samples, the advice and its plan that [dispatch-plan] and [dispatch-execute] share. *)
Definition operator_plan (task_id : string) (uia : bool) (f : FenceArgs) (transport_enabled : bool)
    : run (Assessed * ReconciliationRecord * DispatchPlan * RecoveryRecommendation *
           option ReconciliationRecord) :=
  previous ← read (λ s, latest_reconciliation (rs_observations s) (rs_registry s) task_id);
  a ← _assessment task_id default_watch_policy true uia;
  current ← _record_current_reconciliation a;
  advised ← advised_plan a previous current (fence_policy f transport_enabled);
  mret (a, current, (advised : DispatchPlan * RecoveryRecommendation).1, advised.2, previous).

(** [lws dispatch-plan] *)
Definition dispatch_plan (task_id : string) (uia : bool) (f : FenceArgs) : run DispatchPlan :=
  x ← operator_plan task_id uia f false;
  let '(a, _, plan, _, _) := (x : Assessed * ReconciliationRecord * DispatchPlan *
                                RecoveryRecommendation * option ReconciliationRecord) in
  record_event (tr_task_id (sd_task a))
    ("dispatch_plan:" +:+ DispatchAction.value (pl_action plan)) false (pl_reason plan)
    [("dispatch_plan", plan_payload plan)];;
  mret plan.

(** [lws dispatch-execute]; the exit code. *)
Definition dispatch_execute (task_id confirm_task : string) (enable_experimental_uia : bool)
    (f : FenceArgs) : run Z :=
  if negb enable_experimental_uia
  then lift (raise DispatchDisabled
    "dispatch execution remains disabled unless --enable-experimental-uia is explicit")
  else if negb (String.eqb confirm_task task_id)
  then lift (raise DispatchDisabled "--confirm-task must exactly match task_id")
  else
    x ← operator_plan task_id true f true;
    let '(a, current, plan, recommendation, previous) :=
      (x : Assessed * ReconciliationRecord * DispatchPlan * RecoveryRecommendation *
           option ReconciliationRecord) in
    execution ← execute_recovery
      (Advised (sd_task a) recommendation previous (Some current) (fence_policy f true))
      plan recommendation (mkDispatchExecutionPolicy true (Some confirm_task) true []) None;
    record_event (tr_task_id (sd_task a)) ("dispatch_execute:" +:+ xr_state execution)
      (xr_submitted execution) (xr_detail execution)
      [("attempt_id", JStr (xr_attempt_id execution)); ("dispatch_plan", plan_payload plan);
       ("side_effect_possible", JBool (xr_side_effect_possible execution))];;
    mret (if xr_submitted execution || xr_side_effect_possible execution then 0 else 12).

(** [lws action-reconcile-uia]; the exit code. *)
Definition action_reconcile_uia (attempt_id : string) : run Z :=
  attempt ← read_registry (λ r, get_action_attempt r attempt_id);
  task ← read_registry (λ r, get_task r (aa_task_id attempt));
  _ ← _refresh_uia (tr_task_id task);
  now ← clock;
  reconciled ← run_prog (λ _ n, reconcile_action_with_uia (aa_attempt_id attempt) (uia_ack n) now);
  (if nr_acknowledged reconciled then
     browser ← latest_browser task;
     match b ← browser; truthy_text (bo_message_signature b) with
     | Some signature =>
         _ ← write_registry (λ _ _ r,
           record_action_ack_browser_signature r (aa_attempt_id attempt) signature);
         mret tt
     | None => mret tt
     end
   else mret tt);;
  mret (if nr_acknowledged reconciled then 0 else 9).

(** [lws recommend] *)
Definition recommend_task (task_id : string) (uia : bool) : run RecoveryRecommendation :=
  a ← _assessment task_id default_watch_policy true uia;
  current ← _record_current_reconciliation a;
  let rec := recommend (sd_task a) (sd_assessment a) (sd_lsm a) (sd_workspace a) in
  record_event (tr_task_id (sd_task a)) (rr_action rec) (rr_safe_to_dispatch rec) (rr_reason rec)
    [("assessment", assessment_payload (sd_assessment a)); ("prompt", j_of_opt_str (rr_prompt rec));
     ("reconcile_id", JStr (rc_reconcile_id current));
     ("fence_token", JStr (rc_fence_token current))];;
  mret rec.

End Cycles.
