(* ===== verification/ResidentSteps.v ===== *)
(** * What the steps of the resident supervisor keep

    The log of a run is justified entry by entry; the attempts of the store only age, whatever
    the other processes do that keeps them so. *)

From S2P Require Import Prelude PyFloat PyStr PyUrl PyJson Models ProjectUrl.
From S2P Require Import WorkerProtocol Registry ObsTable Observations Persistence AttemptTables.
From S2P Require Import Reconcile Watcher Attention Dispatcher Actions.
From S2P Require Import ActionTheorems Leases Programs ChildDispatch Workers TimeoutRecovery.
From S2P Require Import OverrunContinuation DispatchRuntime Runs Resident ResidentCycles.

Open Scope string_scope.
Open Scope Z_scope.
Open Scope list_scope.

(** ** What the others may do *)

Definition store_ok (s : Resident) : Prop :=
  acts_ok (rs_registry s) ∧ tasks_keyed (rs_registry s).

(** Attempts stay in the table and only age; tasks stay under their ids. *)
Definition frame (s s' : Resident) : Prop :=
  store_ok s → store_ok s' ∧ kept (rs_registry s) (rs_registry s').

#[export] Instance frame_preorder : PreOrder frame.
Proof.
  split.
  - intros s Hs. split; [done|]. apply untouched_kept; [apply Hs|done].
  - intros s1 s2 s3 H12 H23 H1. destruct (H12 H1) as [H2 Hk]. destruct (H23 H2) as [H3 Hk'].
    split; [done|]. by trans (rs_registry s2).
Qed.

Class Bystanders (env : RunEnv Resident) := others_frame : ∀ n s, frame s (run_others n s).

(** ** The log *)

Definition effective (out : transport_outcome) : bool :=
  match out with
  | Returned x => ts_submitted x || ts_side_effect_possible x
  | TransportRaised _ _ => true
  | TransportDisabled _ => false
  end.

(** The plan [p] that is executed is the planned one, or its refusal. *)
Definition executes (p plan : DispatchPlan) : Prop :=
  pl_task_id p = pl_task_id plan ∧ pl_action p = pl_action plan ∧
  pl_fence_token p = pl_fence_token plan ∧
  pl_current_reconcile_id p = pl_current_reconcile_id plan ∧
  (pl_candidate_ready p = true → pl_candidate_ready plan = true) ∧
  (pl_would_dispatch p = true → pl_would_dispatch plan = true).

(** No effective send since the last round began. *)
Definition quiet_round (past : list event) : Prop :=
  ∀ l1 a i out s l2, past = l1 ++ Sent a i out s :: l2 → effective out = true → Round ∈ l2.

(** Every heartbeat renewed the lease. *)
Definition alive (past : list event) : Prop := Heartbeat false ∉ past.

Section Facts.
Context {tables : UnicodeTables} {check : NetlocCheck} {digests : Digests} {fmt : Formatting}.
Context {ties : TieOrder} {nums : Numbers} {texts : PromptTexts}.

(** The reasons for which the program at hand sends. *)
Context (who : trigger → Prop).

(** Why an entry of the log is there, given the ones before it. *)
Definition justified (past : list event) (e : event) : Prop :=
  match e with
  | Clocked task_id policy now clock s =>
      overrun_clock (rs_observations s) (rs_registry s) task_id policy now = Ok (Some clock)
  | Planned (Advised task rec previous current policy) now p s =>
      build_dispatch_plan task rec previous current policy now = Ok p
  | Planned (DeliveryError p0 browser policy) now p s =>
      gate_timeout_dispatch_plan (rs_observations s) (rs_registry s) p0 browser policy now = Ok p ∧
      ∃ task rec previous current dispatch now0 plan s0,
        Planned (Advised task rec previous current dispatch) now0 plan s0 ∈ past ∧ executes p0 plan
  | Planned (Overrun task clock previous current browser policy) now p s =>
      build_overrun_dispatch_plan (rs_registry s) task clock previous current browser policy true
        now = Ok p ∧ ck_due clock = true ∧
      ∃ s0, Clocked (tr_task_id task) policy now clock s0 ∈ past
  | Fenced why p policy now a s =>
      who why ∧
      execution_fenced (rs_observations s) (rs_registry s) p policy now a ∧
      ∃ now0 plan s0, Planned why now0 plan s0 ∈ past ∧ executes p plan
  | Armed a s =>
      (∃ why p policy now s0, Fenced why p policy now a s0 ∈ past) ∧
      rg_actions (rs_registry s) !! aa_attempt_id a = None ∧
      ∃ task, rg_tasks (rs_registry s) !! aa_task_id a = Some task ∧ task_terminal task = false
  | Sent a i out s =>
      (∃ s0, Armed a s0 ∈ past) ∧
      (∀ a' i' out' s', Sent a' i' out' s' ∈ past → aa_attempt_id a' ≠ aa_attempt_id a) ∧
      in_attempt_id i = aa_attempt_id a ∧ in_task_id i = aa_task_id a ∧
      in_worker_id i = aa_worker_id a ∧ prompt_digest (in_prompt i) = aa_prompt_hash a ∧
      (∃ a', rg_actions (rs_registry s) !! aa_attempt_id a = Some a' ∧ ages a a') ∧
      quiet_round past ∧ alive past
  | Heartbeat _ | Round | Emitted _ => True
  end.

Definition good_log (l : list event) : Prop :=
  ∀ l1 e l2, l = l1 ++ e :: l2 → justified l1 e.

Lemma good_log_nil : good_log [].
Proof. by intros [|x l1] e l2. Qed.

Lemma good_log_snoc l e : good_log l → justified l e → good_log (l ++ [e]).
Proof.
  intros Hl He l1 x l2 E. induction l2 as [|e2 l2 _] using rev_ind.
  - apply app_inj_tail in E as [<- <-]. done.
  - rewrite app_comm_cons, app_assoc in E. apply app_inj_tail in E as [-> _]. by eapply Hl.
Qed.

Lemma quiet_round_snoc l e :
  quiet_round l → (∀ a i out s, e = Sent a i out s → effective out = false) →
  quiet_round (l ++ [e]).
Proof.
  intros Hl He l1 a i out s l2 E Hf. induction l2 as [|e2 l2 _] using rev_ind.
  - apply app_inj_tail in E as [_ ->]. by rewrite (He _ _ _ _ eq_refl) in Hf.
  - rewrite app_comm_cons, app_assoc in E. apply app_inj_tail in E as [-> _].
    apply elem_of_app. left. by eapply Hl.
Qed.

Lemma quiet_round_starts l : quiet_round (l ++ [Round]).
Proof.
  intros l1 a i out s l2 E _. induction l2 as [|e2 l2 _] using rev_ind.
  - by apply app_inj_tail in E as [_ ?].
  - rewrite app_comm_cons, app_assoc in E. apply app_inj_tail in E as [_ <-].
    apply elem_of_app. right. by left.
Qed.

Lemma alive_snoc l e : alive l → e ≠ Heartbeat false → alive (l ++ [e]).
Proof. unfold alive. intros Hl He. rewrite elem_of_app, list_elem_of_singleton. naive_solver. Qed.

(** ** Refusing a plan *)

Lemma executes_refl p : executes p p.
Proof. by split_and!. Qed.

Lemma gate_executes plan a : executes (apply_unresolved_action_gate plan a) plan.
Proof.
  unfold apply_unresolved_action_gate. destruct a as [a|]; [|by split_and!].
  destruct (action_unresolved a); by split_and!.
Qed.

Lemma intent_of a prompt i :
  intent_from_attempt a prompt = Ok i →
  in_attempt_id i = aa_attempt_id a ∧ in_task_id i = aa_task_id a ∧
  in_worker_id i = aa_worker_id a ∧ prompt_digest (in_prompt i) = aa_prompt_hash a.
Proof.
  unfold intent_from_attempt. intros [_ H]%raise_if_then. cbv zeta in H.
  apply bind_Ok in H as (wire & _ & H). apply raise_if_then in H as [Hd H].
  injection H as <-. cbn. bool_to_prop. apply String.eqb_eq in Hd. done.
Qed.

(** ** The effects of the operations on the attempts and the tasks *)

Definition reg_frame (r r' : Registry) : Prop :=
  acts_ok r → tasks_keyed r → kept r r' ∧ tasks_keyed r'.

Lemma reg_frame_same r r' :
  rg_actions r' = rg_actions r → rg_tasks r' = rg_tasks r → reg_frame r r'.
Proof.
  intros Ha Ht Hok Hk. split; [by apply untouched_kept|]. intros k t. rewrite Ht. apply Hk.
Qed.

Lemma reg_frame_task r r' k t :
  rg_actions r' = rg_actions r → rg_tasks r' = <[k := t]> (rg_tasks r) → tr_task_id t = k →
  reg_frame r r'.
Proof.
  intros Ha Ht Hid Hok Hk. split; [by apply untouched_kept|]. intros k' t'. rewrite Ht.
  intros [[<- <-]|[_ H]]%lookup_insert_Some; [done|by apply Hk].
Qed.

Lemma reg_frame_kept r r' : kept r r' → rg_tasks r' = rg_tasks r → reg_frame r r'.
Proof. intros Hk Ht Hok Hkey. split; [done|]. intros k t. rewrite Ht. apply Hkey. Qed.

#[export] Instance reg_frame_preorder : PreOrder reg_frame.
Proof.
  split.
  - intros r. by apply reg_frame_same.
  - intros r1 r2 r3 H12 H23 Hok Hk. destruct (H12 Hok Hk) as [K12 Hk2].
    destruct (H23 (proj1 K12) Hk2) as [K23 Hk3]. split; [by trans r2|done].
Qed.

Lemma frame_registry s r' : reg_frame (rs_registry s) r' → frame s (s <| rs_registry := r' |>).
Proof. intros H [Hok Hk]. destruct (H Hok Hk) as [K ?]. split; [split; [apply K|done]|done]. Qed.

Lemma frame_observations s o' : frame s (s <| rs_observations := o' |>).
Proof. intros Hs. split; [exact Hs|]. by apply untouched_kept; [apply Hs|]. Qed.

End Facts.

(** * What the programs of the resident supervisor keep

    Every program other than a send keeps the invariant and writes nothing to the log, so it
    keeps whatever is said of the log. *)

(** ** Registry operations *)

Lemma bind_window_frame r id h p exe url src at_ ttl x :
  bind_worker_window r id h p exe url src at_ ttl = Ok x → reg_frame r x.1.
Proof.
  unfold bind_worker_window. intros H. inv_bind H.
  repeat (apply unit_bind_Ok in H as [_ H]). cbv zeta in H.
  repeat (apply unit_bind_Ok in H as [_ H]). injection H as <-. by apply reg_frame_same.
Qed.

Lemma record_browser_frame o r obs x :
  record_browser_observation o r obs = Ok x → reg_frame r x.2.
Proof.
  unfold record_browser_observation. intros H. inv_bind H.
  destruct (rg_workers r !! bo_worker_id obs); [|done]. injection H as <-. by apply reg_frame_same.
Qed.

Lemma update_state_frame r id st now x : update_state r id st now = Ok x → reg_frame r x.1.
Proof.
  unfold update_state. intros [_ H]%unit_bind_Ok.
  destruct (rg_tasks r !! id) as [task|] eqn:Ht; [|by injection H as <-; apply reg_frame_same].
  apply unit_bind_Ok in H as [_ H]. injection H as <-. intros Hok Hk. revert Hok Hk.
  intros Hok Hk. eapply reg_frame_task; [done|done|cbn; by apply Hk|done|done].
Qed.

Lemma set_checkpoint_frame r id d now x : set_checkpoint r id d now = Ok x → reg_frame r x.1.
Proof.
  unfold set_checkpoint. intros H Hok Hk.
  destruct (rg_tasks r !! id) as [task|] eqn:Ht; [|by injection H as <-; apply reg_frame_same].
  apply unit_bind_Ok in H as [_ H]. injection H as <-.
  eapply reg_frame_task; [done|done|cbn; by apply Hk|done|done].
Qed.

Lemma supersede_frame r id now :
  rg_actions (supersede_worker r id now) = rg_actions r ∧
  rg_tasks (supersede_worker r id now) = rg_tasks r.
Proof. unfold supersede_worker. by destruct (rg_workers r !! id). Qed.

#[local] Opaque supersede_worker.

Lemma add_worker_frame r id url conv current uuid now x :
  add_worker r id url conv current uuid now = Ok x → reg_frame r x.1.
Proof.
  unfold add_worker. intros H Hok Hk. apply bind_Ok in H as (task & Ht%fetch_Ok & H).
  do 2 apply unit_bind_Ok in H as [_ H]. apply unit_bind_Ok in H as [_ H].
  cbv zeta in H. apply bind_Ok in H as (w & _ & [= <-]). cbn [fst].
  destruct current; [|by apply reg_frame_same].
  apply (reg_frame_task _ _ id (task <| tr_current_worker_id := Some ("worker_" +:+ str_take 12 uuid) |>
    <| tr_updated_at := now |>)); [| |cbn; by apply Hk|done|done].
  - destruct (opt_truthy _); cbn; [|done]. by rewrite (proj1 (supersede_frame _ _ _)).
  - destruct (opt_truthy _); cbn; [|done]. by rewrite (proj2 (supersede_frame _ _ _)).
Qed.

#[local] Transparent supersede_worker.

Lemma register_task_frame id p ob c lsm url conv u1 n1 u2 n2 r r' x :
  register_task id p ob c lsm url conv u1 n1 u2 n2 r = (r', x) → reg_frame r r'.
Proof.
  unfold register_task. cbv zeta.
  intros [(r1 & task & H1 & H)|(e & _ & -> & _)]%txn_bind; [|by apply reg_frame_same].
  assert (reg_frame r r1) as F1.
  { intros Hok Hk. do 2 apply unit_bind_Ok in H1 as [_ H1]. cbv zeta in H1.
    apply bind_Ok in H1 as (t & _ & [= <- _]).
    eapply reg_frame_task; [done|done|done|done|done]. }
  destruct (opt_truthy url); [|by injection H as <- _].
  apply txn_bind in H as [(r2 & w & H2%add_worker_frame & H)|(e & _ & -> & _)]; [|done].
  injection H as <- _. by trans r1.
Qed.

Lemma acknowledge_frame r ack x : acknowledge_action r ack = Ok x → reg_frame r x.1.
Proof.
  intros H Hok Hk. apply acknowledge_kept in H as [K T]; [|done]. by apply reg_frame_kept.
Qed.

Lemma signature_frame r id s x :
  record_action_ack_browser_signature r id s = Ok x → reg_frame r x.1.
Proof. intros H Hok Hk. apply signature_kept in H as [K T]; [|done]. by apply reg_frame_kept. Qed.

Lemma heartbeat_frame r name owner ttl now x :
  heartbeat_watchdog_lease r name owner ttl now = Ok x → reg_frame r x.1.
Proof.
  unfold heartbeat_watchdog_lease, put_lease. intros H. destruct (rg_watchdogs r !! name) as [l|];
    [destruct (String.eqb _ _)|]; try (injection H as <-; by apply reg_frame_same).
  apply bind_Ok in H as (r1 & H1 & [= <-]). repeat (apply unit_bind_Ok in H1 as [_ H1]).
  injection H1 as <-. by apply reg_frame_same.
Qed.

Lemma release_frame r name owner x :
  release_watchdog_lease r name owner = Ok x → reg_frame r x.1.
Proof.
  unfold release_watchdog_lease. intros H. destruct (rg_watchdogs r !! name) as [l|];
    [destruct (String.eqb _ _)|]; injection H as <-; by apply reg_frame_same.
Qed.

Lemma acquire_frame r name owner pid host ttl now x :
  acquire_watchdog_lease r name owner pid host ttl now = Ok x → reg_frame r x.1.
Proof.
  unfold acquire_watchdog_lease, put_lease. cbv zeta. intros H.
  assert (∀ l, (real_not_null (wd_started_at l);; real_not_null (wd_heartbeat_at l);;
    real_not_null (wd_expires_at l);; Ok (r <| rg_watchdogs := <[name := l]> (rg_watchdogs r) |>))
      ≫= (λ r', Ok (r', (true, l))) = Ok x → reg_frame r x.1) as Hw.
  { intros l Hl. apply bind_Ok in Hl as (r1 & H1 & [= <-]).
    repeat (apply unit_bind_Ok in H1 as [_ H1]). injection H1 as <-. by apply reg_frame_same. }
  destruct (rg_watchdogs r !! name) as [l|]; [|by eapply Hw].
  destruct (String.eqb _ _); [by eapply Hw|]. destruct (flt _ _); [|by eapply Hw].
  injection H as <-. by apply reg_frame_same.
Qed.

Section Ack.
Context {digests : Digests} {fmt : Formatting}.

Lemma reconcile_frame id observe now r r' x :
  reconcile_action_with_uia id observe now r = (r', x) → reg_frame r r'.
Proof.
  unfold reconcile_action_with_uia.
  intros [(a & _ & H)|(e & _ & -> & _)]%query_bind; [|by apply reg_frame_same].
  destruct (negb _); [by injection H as <- _|].
  apply query_bind in H as [(q & _ & H)|(e & _ & -> & _)]; [|by apply reg_frame_same].
  apply query_bind in H as [(u & _ & H)|(e & _ & -> & _)]; [|by apply reg_frame_same].
  destruct (acknowledgement_from_uia_observation _ _ _ _ _); [|by injection H as <- _].
  apply txn_bind in H as [(r1 & a' & H1%acknowledge_frame & H)|(e & _ & -> & _)];
    [|by apply reg_frame_same].
  by injection H as <- _.
Qed.

End Ack.

(** ** Steps *)

Section Steps.
Context {tables : UnicodeTables} {check : NetlocCheck} {digests : Digests} {fmt : Formatting}.
Context {ties : TieOrder} {nums : Numbers} {texts : PromptTexts}.
Context {env : RunEnv Resident} {alone : Bystanders env} (who : trigger → Prop).

#[export] Program Instance resident_calm : Calm Resident event := {|
  calms := λ w w', frame (w_store w) (w_store w') ∧ w_log w' = w_log w;
|}.
Next Obligation.
  intros w w' o. unfold step. destruct (run_killed _); intros [= <- _]; cbn; split; try done;
    apply others_frame.
Qed.

(** The store is in order, the log is justified, and what was sent is in the table. *)
Record inv (w : World) : Prop := mkInv {
  in_store : store_ok (w_store w);
  in_log : good_log who (w_log w);
  in_sent : ∀ a i out s, Sent a i out s ∈ w_log w →
    is_Some (rg_actions (rs_registry (w_store w)) !! aa_attempt_id a);
}.

Definition holding (F : list event → Prop) (w : World) : Prop := inv w ∧ F (w_log w).

Lemma inv_moves w s' :
  inv w → frame (w_store w) s' → inv (w <| w_store := s' |>).
Proof.
  intros [Hs Hl Hk] Hf. destruct (Hf Hs) as [Hs' [_ K]]. constructor; [done|done|].
  cbn. intros a i out s Hin. destruct (Hk _ _ _ _ Hin) as [a' Ha].
  destruct (K _ _ Ha) as (a2 & -> & _). by eexists.
Qed.

Lemma holding_moves F w s' :
  holding F w → frame (w_store w) s' → holding F (w <| w_store := s' |>).
Proof. intros [Hi HF] Hf. split; [by apply inv_moves|exact HF]. Qed.

Lemma holding_stable F : stable (holding F).
Proof.
  intros w w' [Hf Hl] [Hi HF]. split; [|by rewrite Hl].
  pose proof (inv_moves w (w_store w') Hi Hf) as [H1 H2 H3]. cbn in *.
  constructor; [done|by rewrite Hl|by rewrite Hl].
Qed.

(** A transaction with what it logs. *)
Lemma triple_transact {A} P (m : float → nat → Resident → res (Resident * A)) log
    (Qd : A → World → Prop) (Qx : World → Prop) :
  stable P →
  (∀ now n w s' a, P w → m now n (w_store w) = Ok (s', a) →
     Qd a (w <| w_store := s' |> <| w_log := w_log w ++ log (w_store w) a |>)) →
  (∀ w, P w → Qx w) → triple P (transact m log) Qd Qx.
Proof.
  intros HP Hd Hx. unfold transact. eapply triple_bind.
  - eapply triple_weaken; [by apply (holds_step P)|done| |exact Hx]. intros now w Hw. exact Hw.
  - intros now w w' o Hw. unfold commit_logged.
    destruct (m now (w_tick w) (w_store w)) as [[s' a]|e] eqn:E; intros [= <- <-];
      [by eapply Hd in E|by apply Hx].
Qed.

Lemma holds_transact {A} F (m : float → nat → Resident → res (Resident * A)) :
  (∀ now n s x, m now n s = Ok x → frame s x.1) → holds (holding F) (transact m quietly).
Proof.
  intros Hm. apply triple_transact; [apply holding_stable| |done].
  intros now n w s' a Hw E. apply Hm in E. cbn in E. unfold quietly.
  pose proof (holding_moves _ _ _ Hw E) as H. rewrite app_nil_r. exact H.
Qed.

Lemma holds_read {A} F (m : Resident → res A) : holds (holding F) (read m).
Proof. apply holds_transact. intros now n s x (a & _ & [= <-])%bind_Ok. reflexivity. Qed.

Lemma holds_read_registry {A} F (m : Registry → res A) : holds (holding F) (read_registry m).
Proof. apply holds_read. Qed.

Lemma holds_write_registry {A} F (m : float → nat → Registry → res (Registry * A)) :
  (∀ now n r x, m now n r = Ok x → reg_frame r x.1) → holds (holding F) (write_registry m).
Proof.
  intros Hm. apply holds_transact. intros now n s x ([r' a] & H & [= <-])%bind_Ok.
  apply Hm in H. by apply frame_registry.
Qed.

Lemma holds_write_observations F m : holds (holding F) (write_observations m).
Proof.
  apply holds_transact. intros now n s x (o' & _ & [= <-])%bind_Ok. apply frame_observations.
Qed.

Lemma holds_run_prog {A} F (m : float → nat → prog A) :
  (∀ now n r r' x, m now n r = (r', x) → reg_frame r r') → holds (holding F) (run_prog m).
Proof.
  intros Hm. unfold run_prog. apply holds_bind; [apply holds_step, holding_stable|intros now].
  apply holds_bind; [by intros w w' o Hw [= <- <-]|intros n].
  intros w w' o Hw. unfold apply_part.
  destruct (m now n (rs_registry (w_store w))) as [r' x] eqn:E. apply Hm in E.
  pose proof (holding_moves F w _ Hw (frame_registry _ _ E)) as H.
  destruct x; intros [= <- <-]; exact H.
Qed.

Lemma holds_clock F : holds (holding F) clock.
Proof. apply holds_step, holding_stable. Qed.

Lemma holds_clock_or F given : holds (holding F) (clock_or given).
Proof. destruct given; [apply holds_ret|apply holds_clock]. Qed.

Lemma holds_tick F : holds (holding F) tick.
Proof. by intros w w' o Hw [= <- <-]. Qed.

Lemma holds_consult {A} F (answer : nat → res A) : holds (holding F) (consult answer).
Proof.
  apply triple_ask; [apply holding_stable| |done]. intros w a Hw. cbv zeta. unfold unlogged.
  rewrite app_nil_r. assert (w <| w_log := w_log w |> = w) as -> by by destruct w. by destruct a.
Qed.

Lemma holds_catching {A} F caught (m : run A) h :
  holds (holding F) m → (∀ e, holds (holding F) (h e)) → holds (holding F) (catching caught m h).
Proof.
  intros Hm Hh. apply holds_try; [done|]. intros e. destruct (caught _); [apply Hh|apply holds_lift].
Qed.

Lemma holds_attempt {A} F caught (m : run A) :
  holds (holding F) m → holds (holding F) (attempt caught m).
Proof.
  intros Hm. apply holds_catching; [|intros e; apply holds_ret].
  apply holds_bind; [done|intros a; apply holds_ret].
Qed.

End Steps.

Arguments in_store {_ _ _ _ _ _ _ _}.
Arguments in_log {_ _ _ _ _ _ _ _}.
Arguments in_sent {_ _ _ _ _ _ _ _}.

(** The leaves of a program that does not send. *)
Ltac quiet_leaf :=
  first
    [ apply holds_read_registry | apply holds_read | apply holds_write_observations
    | apply holds_clock | apply holds_clock_or | apply holds_tick | apply holds_consult
    | assumption ].

Ltac quiet_run :=
  walk_holds ltac:(first [quiet_leaf | apply holds_attempt; quiet_leaf]).
