(* ===== verification/ResidentPrograms.v ===== *)
(** * The programs of the resident supervisor, one by one

    What does not send keeps every statement about the log; a send adds its stages; the
    cycles and the loop are composed of both. *)

From S2P Require Import Prelude PyFloat PyStr PyUrl PyJson Models ProjectUrl WorkerProtocol Registry.
From S2P Require Import ObsTable Observations Persistence AttemptTables Reconcile Watcher Attention.
From S2P Require Import Dispatcher Actions ActionTheorems Leases Programs.
From S2P Require Import ChildDispatch Workers TimeoutRecovery OverrunContinuation DispatchRuntime.
From S2P Require Import Runs Resident ResidentCycles ResidentSteps.

Open Scope string_scope.
Open Scope Z_scope.
Open Scope list_scope.

Section Programs.
Context {tables : UnicodeTables} {check : NetlocCheck} {digests : Digests} {fmt : Formatting}.
Context {ties : TieOrder} {nums : Numbers} {texts : PromptTexts}.
Context {env : RunEnv Resident} {alone : Bystanders env} {desk : Desktop}.
Context (who : trigger → Prop).
Implicit Types (F : list event → Prop).

(** ** Programs that do not send *)

Lemma holds_refresh_lsm F id : holds (holding who F) (_refresh_lsm id).
Proof.
  unfold _refresh_lsm. apply holds_bind; [quiet_leaf|intros task].
  destruct lsm_telemetry as [telemetry|]; [|quiet_leaf].
  destruct (opt_truthy _); [|quiet_leaf]. apply holds_bind; [quiet_leaf|intros previous].
  apply holds_bind; [|intros answer; quiet_run].
  apply holds_attempt. quiet_run.
Qed.

Lemma holds_refresh_workspace F id : holds (holding who F) (_refresh_workspace id).
Proof. unfold _refresh_workspace. quiet_run. Qed.

Lemma holds_bind_seen F id obs : holds (holding who F) (bind_seen id obs).
Proof.
  unfold bind_seen. cbv zeta. destruct (_ && _); [|apply holds_ret].
  apply holds_bind; [apply holds_lift|intros h]. apply holds_bind; [apply holds_lift|intros p].
  apply holds_bind; [|intros; apply holds_ret]. apply holds_write_registry.
  intros now n r x. apply bind_window_frame.
Qed.

Lemma holds_refresh_uia F id : holds (holding who F) (_refresh_uia id).
Proof.
  unfold _refresh_uia. apply holds_bind; [quiet_leaf|intros task].
  destruct (negb _); [apply holds_lift|]. do 5 (apply holds_bind; [quiet_leaf|intros ?]).
  apply holds_bind.
  - apply holds_transact. intros now n s x ([o' r'] & H & [= <-])%bind_Ok.
    apply record_browser_frame in H. cbn in H |- *. intros Hs.
    destruct (frame_registry s r' H Hs) as [Hs' Hk]. by split.
  - intros []. apply holds_bind; [apply holds_bind_seen|intros; apply holds_ret].
Qed.

Lemma holds_latest_browser F task : holds (holding who F) (latest_browser task).
Proof. apply holds_read. Qed.

Lemma holds_set_state F id st : holds (holding who F) (set_state id st).
Proof.
  unfold set_state. apply holds_bind; [|intros; quiet_leaf].
  apply holds_write_registry. intros now n r x. apply update_state_frame.
Qed.

Lemma holds_protocol F id : holds (holding who F) (protocol_of id).
Proof. unfold protocol_of. quiet_run. Qed.

Lemma holds_assessment F id policy b1 b2 : holds (holding who F) (_assessment id policy b1 b2).
Proof.
  unfold _assessment, latest_network.
  walk_holds ltac:(first [quiet_leaf | apply holds_set_state | apply holds_latest_browser
    | apply holds_protocol | apply holds_refresh_lsm | apply holds_refresh_workspace
    | apply holds_attempt, holds_refresh_uia]).
Qed.

Lemma holds_reconciliation F a : holds (holding who F) (_record_current_reconciliation a).
Proof. unfold _record_current_reconciliation, latest_network. quiet_run. Qed.

Lemma holds_event F id action safe reason payload :
  holds (holding who F) (record_event id action safe reason payload).
Proof. apply holds_write_observations. Qed.

Lemma holds_scan_task F policy b task : holds (holding who F) (scan_task policy b task).
Proof.
  unfold scan_task. cbv zeta.
  walk_holds ltac:(first [apply holds_assessment | apply holds_event]).
Qed.

Lemma holds_acknowledge F id aid given : holds (holding who F) (acknowledge_task id aid given).
Proof.
  unfold acknowledge_task. apply holds_bind; [quiet_leaf|intros now]. apply holds_bind.
  - apply holds_run_prog. intros t n r r' x. apply reconcile_frame.
  - intros x. apply holds_bind; [|intros; apply holds_ret]. destruct (nr_acknowledged x);
      [|apply holds_ret]. do 2 (apply holds_bind; [first [quiet_leaf|apply holds_latest_browser]|intros ?]).
    destruct (_ ≫= _); [|apply holds_ret]. apply holds_bind; [|intros; apply holds_ret].
    apply holds_write_registry. intros t n r y. apply signature_frame.
Qed.

Lemma holds_acknowledge_reports F caught kind prefix blocked id a given :
  holds (holding who F) (acknowledge_reports caught kind prefix blocked id a given).
Proof.
  unfold acknowledge_reports. cbv zeta. apply holds_bind.
  - apply holds_attempt. apply holds_bind; [apply holds_refresh_uia|intros; apply holds_acknowledge].
  - intros [e|x]; [apply holds_ret|]. apply holds_bind; [|intros; apply holds_ret].
    apply holds_attempt, holds_event.
Qed.

Lemma holds_watch_task F id url conv : holds (holding who F) (watch_task id url conv).
Proof.
  unfold watch_task. apply holds_bind; [apply holds_attempt; quiet_leaf|].
  intros [e|task]; [|apply holds_ret]. apply holds_bind.
  - apply holds_run_prog. intros now n r r' x. apply register_task_frame.
  - intros task. apply holds_bind; [|intros; apply holds_ret].
    apply holds_write_registry. intros now n r x. apply set_checkpoint_frame.
Qed.

Lemma holds_watch_worker F task url conv : holds (holding who F) (watch_worker task url conv).
Proof.
  unfold watch_worker. cbv zeta.
  walk_holds ltac:(first [quiet_leaf
    | apply holds_write_registry; intros ? ? ? ?; apply add_worker_frame]).
Qed.

Lemma holds_sync F policy : holds (holding who F) (_sync_visible_conversation_watchers policy).
Proof.
  unfold _sync_visible_conversation_watchers, sync_row. cbv zeta.
  walk_holds ltac:(first [quiet_leaf | apply holds_attempt; quiet_leaf | apply holds_watch_task
    | apply holds_watch_worker
    | apply holds_write_registry; intros ? ? ? ?; apply bind_window_frame]).
Qed.

(** ** Adding to the log *)

Lemma inv_logs w e :
  inv who w → justified who (w_log w) e → (∀ a i out s, e ≠ Sent a i out s) →
  inv who (w <| w_log := w_log w ++ [e] |>).
Proof.
  intros [Hs Hl Hk] He Hne. constructor; cbn; [done|by apply good_log_snoc|].
  intros a i out s [Hin|Hin%list_elem_of_singleton]%elem_of_app; [by eapply Hk|].
  by destruct (Hne a i out s).
Qed.

(** What is said of the log survives an entry that is not a send. *)
Definition lasting (F : list event → Prop) : Prop :=
  ∀ l e, F l → (∀ a i out s, e ≠ Sent a i out s) → e ≠ Heartbeat false → F (l ++ [e]).

Lemma lasting_member e0 : lasting (λ l, e0 ∈ l).
Proof. intros l e H _ _. apply elem_of_app. by left. Qed.

Lemma lasting_and F G : lasting F → lasting G → lasting (λ l, F l ∧ G l).
Proof. intros HF HG l e [? ?] H1 H2. split; [by apply HF|by apply HG]. Qed.

Lemma lasting_quiet : lasting quiet_round.
Proof. intros l e Hl He _. apply quiet_round_snoc; [done|]. intros a i out s E. by destruct (He a i out s). Qed.

Lemma lasting_alive : lasting alive.
Proof. intros l e Hl _ He. by apply alive_snoc. Qed.

(** A transaction that changes nothing and logs one entry for its result. *)
Lemma triple_observed {A} F (G : A → list event → Prop) (m : float → nat → Resident → res A)
    (log : Resident → A → list event) (l : Resident → A → option event) :
  (∀ s a, log s a = option_list (l s a)) → lasting F →
  (∀ now n s a past, store_ok s → m now n s = Ok a → F past →
     match l s a with
     | Some e => justified who past e ∧ (∀ a' i out s', e ≠ Sent a' i out s') ∧ e ≠ Heartbeat false ∧
                 G a (past ++ [e])
     | None => G a past
     end) →
  triple (holding who F)
    (read_logged m log) (λ a, holding who (λ l, F l ∧ G a l)) (holding who F).
Proof.
  intros El HF Hm. apply triple_transact; [apply holding_stable| |done].
  intros now n w s' a [Hi HFw] (a' & E & [= <- <-])%bind_Ok. rewrite El.
  specialize (Hm now n _ _ (w_log w) (in_store Hi) E HFw).
  assert (w <| w_store := w_store w |> = w) as -> by by destruct w.
  destruct (l (w_store w) a') as [e|]; cbn [option_list].
  - destruct Hm as (Hj & Hne & Hh & HG). split; [by apply inv_logs|]. cbn. split; [by apply HF|done].
  - rewrite app_nil_r. assert (w <| w_log := w_log w |> = w) as -> by by destruct w.
    split; [done|]. by split.
Qed.

(** ** One send *)

Definition ready (l : list event) : Prop := quiet_round l ∧ alive l.

Lemma lasting_ready : lasting ready.
Proof. apply lasting_and; [apply lasting_quiet|apply lasting_alive]. Qed.

Lemma xtriple_transact {A} P (m : float → nat → Resident → res (Resident * A)) log
    (Qd : A → World → Prop) (Qx : option exn → World → Prop) :
  stable P →
  (∀ now n w s' a, P w → m now n (w_store w) = Ok (s', a) →
     Qd a (w <| w_store := s' |> <| w_log := w_log w ++ log (w_store w) a |>)) →
  (∀ now n w e, P w → m now n (w_store w) = Err e → Qx (Some e) w) →
  (∀ w, P w → Qx None w) → xtriple P (transact m log) Qd Qx.
Proof.
  intros HP Hd He Hx. unfold transact. eapply (xtriple_bind _ _ _ (λ _, P)).
  - intros w w' o Hw E. pose proof (HP _ _ (step_calms _ _ _ E) Hw) as H.
    unfold step in E. destruct (run_killed _); injection E as _ <-; [by apply Hx|done].
  - intros now w w' o Hw. unfold commit_logged.
    destruct (m now (w_tick w) (w_store w)) as [[s' a]|e] eqn:E; intros [= <- <-];
      [by eapply Hd in E|by eapply He].
Qed.

(** The attempt [a] is in the table, possibly older. *)
Definition aged (a : ActionAttempt) (w : World) : Prop :=
  ∃ a', rg_actions (rs_registry (w_store w)) !! aa_attempt_id a = Some a' ∧ ages a a'.

Lemma aged_stable F a : stable (λ w, holding who F w ∧ aged a w).
Proof.
  intros w w' Hc [Hw (a' & Ha & Hag)]. split; [by eapply holding_stable|].
  destruct Hc as [Hf _]. destruct Hw as [Hi _]. destruct (Hf (in_store Hi)) as [_ [_ K]].
  destruct (K _ _ Ha) as (a2 & Ha2 & Hag2). exists a2. split; [done|]. by trans a'.
Qed.

(** The write-ahead record of an execution. *)
Lemma armed_Ok (consume : bool) r a r' :
  acts_ok r → tasks_keyed r →
  (if consume then record_recovery_action_attempt r a
   else record_current_worker_action_attempt r a) = Ok r' →
  rg_actions r !! aa_attempt_id a = None ∧ rg_actions r' !! aa_attempt_id a = Some a ∧
  reg_frame r r' ∧
  ∃ task, rg_tasks r !! aa_task_id a = Some task ∧ task_terminal task = false.
Proof.
  intros Hok Hk H. assert (∀ r1, insert_action r a = Ok r1 →
    rg_actions r !! aa_attempt_id a = None ∧ rg_actions r1 !! aa_attempt_id a = Some a ∧
    reg_frame r r1) as Hins.
  { intros r1 Hi. pose proof Hi as (K & T & N)%insert_kept; [|done].
    split; [done|]. split; [|by apply reg_frame_kept].
    apply raise_if_then in Hi as [_ Hi]. apply unit_bind_Ok in Hi as [_ Hi].
    apply store_action_Ok in Hi as [_ ->]. cbn. by rewrite lookup_insert_eq. }
  destruct consume; apply unit_bind_Ok in H as [_ H];
    apply bind_Ok in H as (task & Ht%fetch_Ok & H); apply raise_if_then in H as [Hterm H].
  - apply raise_if_then in H as [_ H]. apply unit_bind_Ok in H as [_ H].
    apply bind_Ok in H as (r1 & (N & S & Fr)%Hins & [= <-]).
    split; [done|]. split; [done|]. split; [|by exists task].
    intros _ _. destruct (Fr Hok Hk) as [K Hk1]. split; [exact K|].
    intros k t. cbn. intros [[<- <-]|[_ H]]%lookup_insert_Some; [cbn; by apply Hk|by apply Hk1].
  - apply unit_bind_Ok in H as [_ (N & S & Fr)%Hins].
    split; [done|]. split; [done|]. split; [done|by exists task].
Qed.

(** A computation whose errors a cycle does not go on with. *)
Definition escapes {A} (m : res A) : Prop := ∀ e, m = Err e → send_blocked (exn_type e) = false.

Lemma escapes_Ok {A} (a : A) : escapes (Ok a).
Proof. by intros e. Qed.

Lemma escapes_bind {A B} (m : res A) (f : A → res B) :
  escapes m → (∀ a, escapes (f a)) → escapes (m ≫= f).
Proof. intros Hm Hf e. destruct m as [a|e1]; [apply Hf|]. intros [= <-]. by apply Hm. Qed.

Lemma escapes_raise_if b c msg : send_blocked c = false → escapes (raise_if b c msg).
Proof. intros Hc e. unfold raise_if. destruct b; [|done]. by intros [= <-]. Qed.

Lemma escapes_fetch {A} what (m : gmap string A) k : escapes (fetch what m k).
Proof. intros e. unfold fetch. destruct (m !! k); [done|]. by intros [= <-]. Qed.

Lemma escapes_attempt r id : escapes (get_action_attempt r id).
Proof. apply escapes_fetch. Qed.

Lemma escapes_real x : escapes (real_not_null x).
Proof. by apply escapes_raise_if. Qed.

Create HintDb escapes.

#[local] Hint Resolve escapes_Ok escapes_raise_if escapes_attempt escapes_real : escapes.

Lemma escapes_replace r a : escapes (_replace_action_attempt r a).
Proof.
  unfold _replace_action_attempt, store_action, put_row.
  repeat (apply escapes_bind; [|intros ?]); auto with escapes.
Qed.

Lemma escapes_resolve s r id e t ts : escapes (resolve_action s r id e t ts).
Proof.
  unfold resolve_action. repeat (apply escapes_bind; [|intros ?]);
    auto with escapes.
Qed.

Lemma escapes_submitted r id t now : escapes (mark_action_submitted r id t now).
Proof.
  unfold mark_action_submitted. repeat (apply escapes_bind; [|intros ?]);
    auto with escapes.
Qed.

(** Recording the outcome of an effective send raises nothing that a cycle goes on with. *)
Lemma escapes_recorded r id name out now :
  effective out = true → escapes (record_submission r id name out now).
Proof.
  intros Hf. unfold record_submission. destruct out as [x|m|c m]; [|done|].
  - cbn in Hf. destruct (ts_submitted x).
    + apply escapes_bind; [apply escapes_submitted|]. intros []. apply escapes_Ok.
    + cbn in Hf. rewrite Hf. apply escapes_bind; [apply escapes_resolve|]. intros []. apply escapes_Ok.
  - apply escapes_bind; [apply escapes_resolve|]. intros []. apply escapes_Ok.
Qed.

End Programs.
