(* ===== verification/ResidentRounds.v ===== *)
(** * The sends of the resident supervisor

    An execution logs its stages in order and sends once; the cycles and the loop send at most
    once in a round, and not at all once the lease is lost. *)

From S2P Require Import Prelude PyFloat PyStr PyUrl PyJson Models ProjectUrl.
From S2P Require Import WorkerProtocol Registry ObsTable Observations Persistence AttemptTables.
From S2P Require Import Reconcile Watcher Attention Dispatcher Actions.
From S2P Require Import ActionTheorems Leases Programs ChildDispatch Workers TimeoutRecovery.
From S2P Require Import OverrunContinuation DispatchRuntime Runs Resident ResidentCycles.
From S2P Require Import ResidentSteps ResidentPrograms.

Open Scope string_scope.
Open Scope Z_scope.
Open Scope list_scope.

Section Send.
Context {tables : UnicodeTables} {check : NetlocCheck} {digests : Digests} {fmt : Formatting}.
Context {ties : TieOrder} {nums : Numbers} {texts : PromptTexts}.
Context {env : RunEnv Resident} {alone : Bystanders env} {desk : Desktop}.
Context (who : trigger → Prop).
Implicit Types (F : list event → Prop).

(** [p] may be executed for the reason [why]. *)
Definition planned (why : trigger) (p : DispatchPlan) (l : list event) : Prop :=
  ∃ now plan s, Planned why now plan s ∈ l ∧ executes p plan.

Lemma lasting_planned why p : lasting (planned why p).
Proof.
  intros l e (now & plan & s & Hin & He) _ _. exists now, plan, s.
  split; [|done]. apply elem_of_app. by left.
Qed.

Definition unsent_id (id : string) (l : list event) : Prop :=
  ∀ a i out s, Sent a i out s ∈ l → aa_attempt_id a ≠ id.

(** After the sends: quiet, or the result says so. *)
Definition spent (b : bool) (l : list event) : Prop := alive l ∧ (quiet_round l ∨ b = true).

Lemma ready_spent b l : ready l → spent b l.
Proof. intros [? ?]. split; [done|by left]. Qed.

Lemma holding_weaken F G w : holding who F w → (∀ l, F l → G l) → holding who G w.
Proof. intros [Hi HF] H. split; [done|by apply H]. Qed.

(** The errors that a cycle goes on with leave it ready. *)
Definition blocked_ready (e : option exn) (w : World) : Prop :=
  match e with
  | Some e => if send_blocked (exn_type e) then holding who ready w else inv who w
  | None => inv who w
  end.

Lemma ready_blocked e w : holding who ready w → blocked_ready e w.
Proof. intros H. destruct e as [e|]; cbn; [destruct (send_blocked _)|]; try done; apply H. Qed.

(** The attempt that was armed is about to be sent. *)
Definition poised (a : ActionAttempt) (w : World) : Prop :=
  holding who (λ l, ready l ∧ (∃ s, Armed a s ∈ l) ∧ unsent_id (aa_attempt_id a) l) w ∧ aged a w.

Lemma poised_ready a w : poised a w → holding who ready w.
Proof. intros [H _]. eapply holding_weaken; [exact H|]. by intros l [? _]. Qed.

Lemma poised_stable a : stable (poised a).
Proof. apply aged_stable. Qed.

(** What is not a send, on the way to one, leaves the cycle ready. *)
Lemma xtriple_ready {A} P (m : run A) Qd :
  triple P m Qd (holding who ready) → xtriple P m Qd blocked_ready.
Proof.
  intros H. eapply xtriple_weaken; [exact (proj1 (triple_x _ _ _ _) H)|done|done|].
  intros e w. apply ready_blocked.
Qed.

Lemma triple_fenced why p rec policy now :
  who why →
  triple (holding who (λ l, ready l ∧ planned why p l))
    (read_logged (λ _ n s,
        recovery_attempt (rs_observations s) (rs_registry s) p rec policy
          (uia_transport n) now (fresh_uuid n) (fresh_uuid (S n))) (λ s x, [Fenced why p policy now x.1 s]))
    (λ x, holding who (λ l, ready l ∧ ∃ s, Fenced why p policy now x.1 s ∈ l)) (holding who ready).
Proof.
  intros Hwho. eapply triple_weaken.
  - apply (triple_observed who (λ l, ready l ∧ planned why p l)
      (λ x l, ∃ s, Fenced why p policy now x.1 s ∈ l)
      (λ _ n s, recovery_attempt (rs_observations s) (rs_registry s) p rec policy
              (uia_transport n) now (fresh_uuid n) (fresh_uuid (S n)))
      _ (λ s x, Some (Fenced why p policy now x.1 s))); [done| |].
    + apply lasting_and; [apply lasting_ready|apply lasting_planned].
    + intros t n s [a tr] past _ H [_ Hp]. cbn [fst].
      apply recovery_attempt_Ok in H as [Hx _]. split; [by split_and!|].
      split; [done|]. split; [done|]. exists s. apply elem_of_app. right. by left.
  - done.
  - intros x w H. eapply holding_weaken; [exact H|]. by intros l [[? _] ?].
  - intros w H. eapply holding_weaken; [exact H|]. by intros l [? _].
Qed.

Lemma triple_arm why p policy now a (consume : bool) :
  triple (holding who (λ l, ready l ∧ ∃ s, Fenced why p policy now a s ∈ l))
    (transact (λ _ _ s,
        r' ← (if consume then record_recovery_action_attempt (rs_registry s) a
              else record_current_worker_action_attempt (rs_registry s) a);
        Ok (s <| rs_registry := r' |>, tt)) (λ s _, [Armed a s]))
    (λ _, poised a) (holding who ready).
Proof.
  apply triple_transact; [apply holding_stable| |].
  2: { intros w H. eapply holding_weaken; [exact H|]. by intros l [? _]. }
  intros t n w s' [] [Hi [Hr [s0 Hf]]] (r' & H & [= <-])%bind_Ok.
  pose proof (in_store Hi) as [Hok Hk].
  destruct (armed_Ok _ _ _ _ Hok Hk H) as (Hnone & Hsome & Hfr & Htask).
  assert (unsent_id (aa_attempt_id a) (w_log w)) as Hun.
  { intros a' i out s Hin E. destruct (in_sent Hi _ _ _ _ Hin) as [x Hx].
    rewrite E, Hnone in Hx. done. }
  split; [split|].
  - pose proof (inv_moves who w _ Hi (frame_registry _ _ Hfr)) as H1.
    eapply inv_logs in H1; [exact H1| |done].
    cbn. split; [by exists why, p, policy, now, s0|]. by split.
  - cbn. split; [by apply lasting_ready|]. split.
    + exists (w_store w). apply elem_of_app. right. by left.
    + intros a' i out s [Hin|Hin%list_elem_of_singleton]%elem_of_app; [by eapply Hun|done].
  - exists a. by split.
Qed.

(** Sending: the answer is logged, and nothing is raised. *)
Lemma xtriple_send a stored prompt i (out : transport_outcome) :
  ages a stored → intent_from_attempt stored prompt = Ok i →
  xtriple (poised a)
    (ask (λ _, Ok out) (λ s x, match x with Ok out => [Sent a i out s] | Err _ => [] end))
    (λ x, holding who (spent (effective x))) blocked_ready.
Proof.
  intros Hag Hint. unfold ask. eapply (xtriple_bind _ _ _ (λ _, poised a)).
  { apply xtriple_ready. eapply triple_weaken; [apply (holds_step _ (poised_stable a))|done|done|].
    apply poised_ready. }
  intros _ w w' o [[Hi (Hr & [s Harm] & Hun)] (a' & Ha' & Hag')] [= <- <-].
  destruct (intent_of _ _ _ Hint) as (Hid & Htask & Hworker & Hhash).
  rewrite (ag_id _ _ Hag) in Hid. rewrite (ag_task _ _ Hag) in Htask.
  rewrite (ag_worker _ _ Hag) in Hworker. rewrite (ag_hash _ _ Hag) in Hhash.
  destruct Hr as [Hq Hal]. split; [constructor; cbn|cbn; split].
  - apply Hi.
  - apply good_log_snoc; [apply Hi|]. split; [by exists s|]. split_and!; try done. by exists a'.
  - intros b j out' s' [Hin|Hin%list_elem_of_singleton]%elem_of_app; [by eapply (in_sent Hi)|].
    injection Hin as -> _ _ _. by exists a'.
  - by apply alive_snoc.
  - destruct (effective out) eqn:E; [by right|left]. apply quiet_round_snoc; [done|].
    intros b j out' s' [= _ _ <- _]. done.
Qed.

Lemma xtriple_record a name out :
  xtriple (holding who (spent (effective out)))
    (write_registry (λ later _ r, record_submission r (aa_attempt_id a) name out later))
    (λ x, holding who (spent (so_side_effect_possible x))) blocked_ready.
Proof.
  apply xtriple_transact; [apply holding_stable| | |by intros w [? _]].
  - intros now n w s' x [Hi [Hal Hq]] ([r' y] & H & [= <- <-])%bind_Ok. unfold quietly.
    rewrite app_nil_r. pose proof (in_store Hi) as [Hok Hk].
    apply recorded_Ok in H as (_ & K & T & a' & _ & _ & _ & Hs); [|done]. cbn in K, T, Hs.
    apply (holding_moves who _ w); [|by apply frame_registry, reg_frame_kept].
    split; [done|]. split; [done|]. destruct Hq as [Hq|Hq]; [by left|right].
    rewrite Hs. by destruct out.
  - intros now n w e [Hi [Hal Hq]] H. destruct (record_submission _ _ _ _ _) as [[r' y]|e1] eqn:E;
      [done|]. cbn in H. injection H as <-. cbn.
    destruct (send_blocked (exn_type e1)) eqn:Hb; [|done]. split; [done|]. split; [|done].
    destruct Hq as [Hq|Hf]; [done|]. by rewrite (escapes_recorded _ _ _ _ _ Hf _ E) in Hb.
Qed.

Lemma xtriple_execute why p rec policy given :
  who why →
  xtriple (holding who (λ l, ready l ∧ planned why p l)) (execute_recovery why p rec policy given)
    (λ x, holding who (spent (xr_side_effect_possible x))) blocked_ready.
Proof.
  intros Hwho. unfold execute_recovery. eapply xtriple_bind.
  { apply xtriple_ready. eapply triple_weaken; [apply holds_clock_or|done..|].
    intros w H. eapply holding_weaken; [exact H|]. by intros l [? _]. }
  intros now. eapply xtriple_bind; [by apply xtriple_ready, triple_fenced|].
  intros [a transport]. cbn [fst]. eapply xtriple_bind.
  { apply xtriple_ready. apply (triple_arm why p policy now). }
  intros []. eapply (xtriple_bind _ _ _ (λ stored w, poised a w ∧ ages a stored)).
  { apply xtriple_ready, triple_transact; [apply poised_stable| |apply poised_ready].
    intros t n w s' b Hw (b' & Hb & [= <- <-])%bind_Ok. unfold quietly. rewrite app_nil_r.
    assert (w <| w_store := w_store w |> <| w_log := w_log w |> = w) as -> by by destruct w.
    split; [done|]. destruct Hw as [_ (a' & Ha' & Hag)]. apply fetch_Ok in Hb. congruence. }
  intros stored. destruct (intent_from_attempt stored _) as [i|e] eqn:Hint.
  2: { intros w w' o [Hw _] [= <- <-]. by apply ready_blocked, (poised_ready a). }
  eapply (xtriple_bind _ _ _ (λ j w, j = i ∧ poised a w ∧ ages a stored)).
  { intros w w' o [Hw Ha] [= <- <-]. done. }
  intros j w w' o (-> & Hw & Hag). revert w w' o Hw.
  eapply xtriple_bind; [by eapply xtriple_send|]. intros x.
  eapply xtriple_bind; [apply xtriple_record|]. intros y w w' o Hw [= <- <-]. exact Hw.
Qed.

End Send.

(** * The cycles and the loop of the resident supervisor

    A cycle starts in a round without an effective send and under a lease that was renewed
    each time; it sends at most once with an effect, and its reports tell. *)

(** The reasons of the resident itself. *)
Definition resident_trigger (why : trigger) : Prop :=
  match why with Advised _ _ _ _ _ => False | _ => True end.

Section Rounds.
Context {tables : UnicodeTables} {check : NetlocCheck} {digests : Digests} {fmt : Formatting}.
Context {ties : TieOrder} {nums : Numbers} {texts : PromptTexts}.
Context {env : RunEnv Resident} {alone : Bystanders env} {desk : Desktop}.
Context (who : trigger → Prop).
Implicit Types (F : list event → Prop).

Lemma holding_inv F w : holding who F w → inv who w.
Proof. by intros [? _]. Qed.

(** A part that does not send, before the rest of a cycle. *)
Lemma cycle_seq {A B} F (m : run A) (f : A → run B) Qd :
  holds (holding who F) m → (∀ a, triple (holding who F) (f a) Qd (inv who)) →
  triple (holding who F) (m ≫= f) Qd (inv who).
Proof. intros Hm Hf. apply triple_seq; [done|apply holding_inv|done]. Qed.

Lemma triple_execute why p rec policy given :
  who why →
  triple (holding who (λ l, ready l ∧ planned why p l))
    (attempt send_blocked (execute_recovery why p rec policy given))
    (λ y, match y with
          | inl _ => holding who ready
          | inr x => holding who (spent (xr_side_effect_possible x))
          end) (inv who).
Proof.
  intros Hwho. unfold attempt, catching. eapply (xtriple_try _ _ _ _ (blocked_ready who)).
  - unfold fmap, eff_fmap. eapply xtriple_bind; [by apply xtriple_execute|].
    intros x w w' o Hw [= <- <-]. exact Hw.
  - intros e w w' o. cbn. destruct (send_blocked (exn_type e)); intros Hw [= <- <-]; [exact Hw|done].
  - done.
Qed.

Lemma effective_sent id kind x clock :
  effective_report (sent_report id kind x clock) = xr_submitted x || xr_side_effect_possible x.
Proof. done. Qed.

(** The report of a send tells whether it may have had an effect. *)
Lemma triple_send_reports why kind blocked done_ p rec policy id clock given :
  who why →
  triple (holding who (λ l, ready l ∧ planned why p l))
    (send_reports why kind blocked done_ p rec policy id clock given)
    (λ x, holding who (λ l, if x.2 then spent (effective_report x.1) l else ready l)) (inv who).
Proof.
  intros Hwho. unfold send_reports. eapply triple_bind; [by apply triple_execute|].
  intros [e|x].
  - apply cycle_seq; [apply holds_event|]. intros []. by apply triple_mret.
  - apply cycle_seq; [apply holds_event|]. intros []. apply triple_mret. intros w Hw. cbn [fst snd].
    rewrite effective_sent. eapply holding_weaken; [exact Hw|]. intros l [Hal Hq].
    destruct (xr_side_effect_possible x); [rewrite orb_true_r|rewrite orb_false_r].
    + split; [done|by right].
    + destruct Hq as [Hq|]; [|done]. destruct (xr_submitted x); [split; [done|by left]|done].
Qed.

(** ** Plans *)

Definition advised (p : DispatchPlan) (l : list event) : Prop :=
  ∃ task rec previous current policy, planned (Advised task rec previous current policy) p l.

Lemma lasting_advised p : lasting (advised p).
Proof.
  intros l e (task & rec & pr & cu & po & H) H1 H2. exists task, rec, pr, cu, po.
  by apply lasting_planned.
Qed.

Lemma planned_here why now p s past : planned why p (past ++ [Planned why now p s]).
Proof.
  exists now, p, s. split; [|apply executes_refl]. apply elem_of_app. right. by left.
Qed.

Lemma gated_planned why p a l : planned why p l → planned why (apply_unresolved_action_gate p a) l.
Proof.
  intros (now & plan & s & Hin & He). exists now, plan, s. split; [done|].
  destruct (gate_executes p a) as (A1 & A2 & A3 & A4 & A5 & A6).
  destruct He as (B1 & B2 & B3 & B4 & B5 & B6). split_and!; try congruence; auto.
Qed.

Lemma triple_advised_plan a previous current policy :
  triple (holding who ready) (advised_plan a previous current policy)
    (λ x, holding who (λ l, ready l ∧
       planned (Advised (sd_task a) x.2 previous (Some current) policy) x.1 l)) (inv who).
Proof.
  unfold advised_plan. cbv zeta.
  set (rec := recommend _ _ _ _). set (why := Advised _ rec _ _ _).
  eapply (triple_bind _ _ _ (λ x, holding who (λ l, ready l ∧ planned why x.2 l))).
  - eapply triple_weaken; [|done| |apply holding_inv].
    + apply (triple_observed who ready (λ x l, planned why x.2 l) _ _
        (λ s x, Some (Planned why x.1 x.2 s))); [done|apply lasting_ready|].
      intros now n s x past _ (p & Hp & [= <-])%bind_Ok _. split; [exact Hp|].
      split; [done|]. split; [done|]. apply planned_here.
    + done.
  - intros x. apply cycle_seq; [apply holds_read_registry|]. intros u. apply triple_mret.
    intros w Hw. eapply holding_weaken; [exact Hw|]. intros l [Hr Hp]. split; [done|].
    by apply gated_planned.
Qed.

(** ** Delivery errors *)

Section Cycle.
Context (keepalive : run unit).
Hypothesis Hkeep : triple (holding who ready) keepalive (λ _, holding who ready) (inv who).
Hypothesis Hwho : ∀ why, resident_trigger why → who why.

Definition reported (results : list CycleReport) : World → Prop :=
  holding who (spent (existsb effective_report results)).

(** What one element of a cycle gives: the end, or the next. *)
Definition next_or_end (y : list CycleReport + list CycleReport) : World → Prop :=
  match y with inl results => reported results | inr _ => holding who ready end.

(** The end of an element, given its report. *)
Lemma triple_sent_end (x : CycleReport * bool) results :
  triple (holding who (λ l, if x.2 then spent (effective_report x.1) l else ready l))
    (mret (if x.2 then inl (results ++ [x.1]) else inr (results ++ [x.1]))) next_or_end (inv who).
Proof using alone.
  apply triple_mret. intros w Hw. destruct x as [report []]; cbn in *; [|done].
  unfold reported. rewrite existsb_app. cbn. rewrite orb_false_r.
  eapply holding_weaken; [exact Hw|]. intros l [Hal [Hq| ->]]; split; try done; [by left|].
  right. apply orb_true_r.
Qed.

Lemma triple_recover_task policy results id :
  triple (holding who ready) (recover_task policy keepalive results id) next_or_end (inv who).
Proof using All.
  unfold recover_task. eapply triple_bind; [exact Hkeep|intros []].
  apply cycle_seq; [apply holds_read_registry|intros u].
  destruct (present u); [by apply triple_mret|].
  apply cycle_seq; [apply holds_attempt, holds_refresh_uia|intros [e|obs]]; [by apply triple_mret|].
  apply cycle_seq; [apply holds_read|intros previous].
  apply cycle_seq; [apply holds_assessment|intros a].
  destruct (negb _); [by apply triple_mret|].
  apply cycle_seq; [apply holds_reconciliation|intros current].
  eapply triple_bind; [apply triple_advised_plan|intros [plan rec]]. cbn [fst snd].
  set (why := DeliveryError plan (sd_browser a) policy).
  eapply (triple_bind _ _ _ (λ x, holding who (λ l, ready l ∧ planned why x.2 l))).
  - eapply triple_weaken; [|done| |apply holding_inv].
    + apply (triple_observed who (λ l, ready l ∧
          planned (Advised (sd_task a) rec previous (Some current) sending_policy) plan l)
        (λ x l, planned why x.2 l) _ _ (λ s x, Some (Planned why x.1 x.2 s))); [done| |].
      * apply lasting_and; [apply lasting_ready|apply lasting_planned].
      * intros now n s x past _ (p & Hp & [= <-])%bind_Ok [_ (now0 & pb & s0 & Hin & He)].
        split; [|split; [done|split; [done|apply planned_here]]].
        split; [exact Hp|]. by exists (sd_task a), rec, previous, (Some current), sending_policy, now0, pb, s0.
    + intros x w Hw. eapply holding_weaken; [exact Hw|]. by intros l [[? _] ?].
  - intros gated. destruct (negb _).
    + apply triple_mret. intros w Hw. eapply holding_weaken; [exact Hw|]. by intros l [? _].
    + eapply triple_bind; [apply triple_send_reports; by apply Hwho|]. intros x.
      apply triple_sent_end.
Qed.

Lemma triple_cycle {A} (f : list CycleReport → A → run (list CycleReport + list CycleReport)) acks xs :
  (∀ results x, triple (holding who ready) (f results x) next_or_end (inv who)) →
  triple (holding who ready) (from_loop <$> loop f acks xs) reported (inv who).
Proof using alone.
  intros Hf. unfold fmap, eff_fmap. eapply triple_bind.
  - apply (triple_loop (λ _ (_ : list CycleReport), holding who ready) reported). intros d x s.
    eapply triple_post; [apply Hf|]. by intros [r|s'] w.
  - intros y. apply triple_mret. intros w Hw. destruct y as [r|r]; [exact Hw|].
    eapply holding_weaken; [exact Hw|]. intros l. apply ready_spent.
Qed.

Lemma triple_acks {A} (f : list CycleReport → A → run (list CycleReport)) (xs : list A) :
  (∀ s x, triple (holding who ready) (f s x) (λ _, holding who ready) (inv who)) →
  triple (holding who ready) (fold_run f [] xs) (λ _, holding who ready) (inv who).
Proof using alone.
  intros Hf. eapply triple_post; [apply (triple_fold_in (λ _ _, holding who ready))|done].
  intros d x s _. apply Hf.
Qed.

Lemma reported_nil w : holding who ready w → reported [] w.
Proof using alone. intros Hw. eapply holding_weaken; [exact Hw|]. intros l. apply ready_spent. Qed.

Lemma triple_timeout_cycle queue policy :
  triple (holding who ready) (_auto_recover_timeout_cycle queue policy keepalive) reported (inv who).
Proof using All.
  unfold _auto_recover_timeout_cycle. destruct (negb _); [apply triple_mret, reported_nil|].
  cbv zeta. eapply triple_bind; [apply triple_acks|intros acks; apply triple_cycle].
  - intros results id. eapply triple_bind; [exact Hkeep|intros []].
    apply cycle_seq; [apply holds_read_registry|intros [a|]]; [|by apply triple_mret].
    apply cycle_seq; [apply holds_acknowledge_reports|intros r; by apply triple_mret].
  - intros results id. apply triple_recover_task.
Qed.

(** ** Turns that run too long *)

Definition clocked (id : string) (policy : OverrunContinuationPolicy) (now : float)
    (clock : OverrunClock) (l : list event) : Prop := ∃ s, Clocked id policy now clock s ∈ l.

Lemma triple_turn_clock id policy now :
  triple (holding who ready) (turn_clock id policy now)
    (λ c, holding who (λ l, ready l ∧ match c with Some c => clocked id policy now c l | None => True end))
    (inv who).
Proof using alone.
  eapply triple_weaken; [| | |apply holding_inv].
  - apply (triple_observed who ready
      (λ c l, match c with Some c => clocked id policy now c l | None => True end) _ _
      (λ s c, (λ c, Clocked id policy now c s) <$> c)); [by intros s [c|]|apply lasting_ready|].
    intros t n s [c|] past _ H _; [|done]. cbn. split; [exact H|]. split; [done|]. split; [done|].
    exists s. apply elem_of_app. right. by left.
  - done.
  - done.
Qed.

Lemma triple_nudge policy given a previous current clock now results :
  ck_due clock = true →
  triple (holding who (λ l, ready l ∧ clocked (tr_task_id (sd_task a)) policy now clock l))
    (nudge_task policy given a previous current clock now results) next_or_end (inv who).
Proof using alone Hwho.
  intros Hdue. unfold nudge_task. cbv zeta. set (why := Overrun _ _ _ _ _ _).
  eapply (triple_bind _ _ _ (λ p, holding who (λ l, ready l ∧ planned why p l))).
  - eapply triple_weaken; [|done| |apply holding_inv].
    + apply (triple_observed who (λ l, ready l ∧ clocked (tr_task_id (sd_task a)) policy now clock l)
        (λ p l, planned why p l) _ _ (λ s p, Some (Planned why now p s))); [done| |].
      * apply lasting_and; [apply lasting_ready|]. intros l e [s Hin] _ _. exists s.
        apply elem_of_app. by left.
      * intros t n s p past _ H [_ [s0 Hc]]. split; [|split; [done|split; [done|apply planned_here]]].
        split; [exact H|]. split; [done|]. by exists s0.
    + intros p w Hw. eapply holding_weaken; [exact Hw|]. by intros l [[? _] ?].
  - intros plan. apply cycle_seq; [apply holds_read_registry|intros u]. destruct (negb _).
    + apply triple_mret. intros w Hw. eapply holding_weaken; [exact Hw|]. by intros l [? _].
    + eapply triple_bind.
      * eapply triple_pre; [apply triple_send_reports; by apply Hwho|]. intros w Hw.
        eapply holding_weaken; [exact Hw|]. intros l [Hr Hp]. split; [done|]. by apply gated_planned.
      * intros x. apply triple_sent_end.
Qed.

Lemma triple_continue_task policy given ts results task :
  triple (holding who ready) (continue_task policy given ts keepalive results task) next_or_end
    (inv who).
Proof using All.
  unfold continue_task. cbv zeta. eapply triple_bind; [exact Hkeep|intros []].
  eapply triple_bind.
  { eapply triple_post; [apply triple_turn_clock|]. intros c w Hw.
    eapply holding_weaken; [exact Hw|]. intros l [Hr _]. exact Hr. }
  intros sampled. match goal with |- context [if ?b then _ else _] => destruct b end;
    [by apply triple_mret|].
  apply cycle_seq; [apply holds_read_registry|intros u].
  destruct (present u); [by apply triple_mret|].
  apply cycle_seq; [apply holds_attempt, holds_refresh_uia|intros [e|obs]]; [by apply triple_mret|].
  apply cycle_seq; [apply holds_read|intros previous].
  apply cycle_seq; [apply holds_attempt, holds_assessment|intros [e|a]].
  { apply cycle_seq; [apply holds_event|intros []]. by apply triple_mret. }
  apply cycle_seq; [apply holds_reconciliation|intros current].
  apply cycle_seq; [destruct given; [apply holds_ret|apply holds_clock]|intros t].
  eapply triple_bind; [apply triple_turn_clock|]. intros [clock|].
  - destruct (ck_due clock) eqn:Hd; [by apply triple_nudge|]. apply triple_mret. intros w Hw.
    eapply holding_weaken; [exact Hw|]. by intros l [? _].
  - apply triple_mret. intros w Hw. eapply holding_weaken; [exact Hw|]. by intros l [? _].
Qed.

Lemma triple_overrun_cycle policy given :
  triple (holding who ready) (_auto_continue_overrun_cycle policy given keepalive) reported (inv who).
Proof using All.
  unfold _auto_continue_overrun_cycle. destruct (negb _); [apply triple_mret, reported_nil|].
  apply cycle_seq; [apply holds_clock_or|intros ts]. eapply (triple_bind _ _ _ (λ _, holding who ready)).
  { destruct (op_auto_discover_visible_conversations policy); [|by apply triple_mret].
    apply cycle_seq; [apply holds_sync|intros _; exact Hkeep]. }
  intros []. apply cycle_seq; [apply holds_read_registry|intros tasks].
  eapply triple_bind; [apply triple_acks|intros acks; apply triple_cycle].
  - intros results task. eapply triple_bind; [exact Hkeep|intros []].
    apply cycle_seq; [apply holds_read_registry|intros [a|]]; [|by apply triple_mret].
    destruct (overrun_attempt a); [|by apply triple_mret].
    apply cycle_seq; [apply holds_acknowledge_reports|intros r; by apply triple_mret].
  - intros results task. apply triple_continue_task.
Qed.

(** ** A round *)

Lemma triple_scan policy b :
  triple (holding who ready) (_scan_attention policy b keepalive) (λ _, holding who ready) (inv who).
Proof using alone Hkeep.
  unfold _scan_attention. apply cycle_seq; [apply holds_read_registry|intros tasks].
  eapply (triple_bind _ _ _ (λ _, holding who ready)); [|intros x; by apply triple_mret].
  eapply triple_post; [apply (triple_fold_in (λ _ _, holding who ready))|done].
  intros d task s _. eapply triple_bind; [exact Hkeep|intros []].
  apply cycle_seq; [apply holds_scan_task|intros x].
  eapply triple_bind; [exact Hkeep|intros []]. by apply triple_mret.
Qed.

Lemma triple_note F e :
  lasting F → (∀ a i out s, e ≠ Sent a i out s) → e ≠ Heartbeat false →
  (∀ past, justified who past e) → holds (holding who F) (note e).
Proof using alone.
  intros HF Hne Hh Hj w w' o [Hi HFw] [= <- <-]. split; [by apply inv_logs|]. by apply HF.
Qed.

Lemma triple_round args last :
  triple (holding who alive) (watch_round args keepalive last) (λ _, holding who alive) (inv who).
Proof using All.
  unfold watch_round. eapply (triple_bind _ _ _ (λ _, holding who ready)).
  { intros w w' o [Hi Hal] [= <- <-]. split; [by apply inv_logs|].
    split; [apply quiet_round_starts|by apply alive_snoc]. }
  intros []. eapply triple_bind; [exact Hkeep|intros []].
  eapply triple_bind; [apply triple_scan|intros queue]. cbv zeta.
  apply cycle_seq; [destruct (_ || _); [by apply triple_note; [apply lasting_ready|..]|apply holds_ret]|].
  intros []. eapply (triple_bind _ _ _ reported).
  { destruct (wa_auto_continue_overruns args); [apply triple_overrun_cycle|].
    apply triple_mret, reported_nil. }
  intros overruns. eapply (triple_bind _ _ _ (λ _, holding who alive)); [|by intros []; apply triple_mret].
  destruct (wa_auto_recover_timeouts args && negb (existsb effective_report overruns)) eqn:E.
  - apply andb_true_iff in E as [_ E%negb_true_iff].
    eapply (triple_bind _ _ _ (λ _, holding who alive)); [|by intros; apply triple_mret].
    eapply triple_weaken; [apply triple_timeout_cycle| | |done].
    + intros w Hw. eapply holding_weaken; [exact Hw|]. intros l [Hal [Hq|Hq]]; [done|congruence].
    + intros r w Hw. eapply holding_weaken; [exact Hw|]. by intros l [? _].
  - apply triple_mret. intros w Hw. eapply holding_weaken; [exact Hw|]. by intros l [? _].
Qed.

End Cycle.

End Rounds.
