(* ===== verification/ResidentCanonical.v ===== *)
(** * One nudged task for each conversation

    Several durable tasks may name the same web conversation; the overrun cycle looks at one of
    them, the owner that the watchdog registered if there is one, else the newest. *)

From S2P Require Import Prelude PyFloat PyStr PyUrl PyJson Models ProjectUrl WorkerProtocol Registry.
From S2P Require Import ObsTable Observations Persistence AttemptTables Reconcile Watcher Attention.
From S2P Require Import Dispatcher Actions Leases Programs ChildDispatch Workers.
From S2P Require Import TimeoutRecovery OverrunContinuation DispatchRuntime Runs Resident ResidentCycles.

Open Scope string_scope.
Open Scope Z_scope.
Open Scope list_scope.

(** ** The newest task *)

Definition real_update (t : TaskRecord) : Prop := is_nan (tr_updated_at t) = false.

Lemma newer_task_spec x y :
  real_update x → real_update y →
  ∃ a b, fkey (tr_updated_at x) = Some a ∧ fkey (tr_updated_at y) = Some b ∧
    (newer_task x y = true ↔ key_lt b a ∨ (a = b ∧ String.leb (tr_task_id x) (tr_task_id y) = false)).
Proof.
  intros [a Ha]%real_key [b Hb]%real_key. exists a, b. split; [done|]. split; [done|].
  unfold newer_task, str_lt. destruct (feq _ _) eqn:E.
  - apply feq_key in E as (c & Hc & Hc'). simplify_eq. rewrite negb_true_iff.
    split; [by right|]. intros [H|[_ H]]; [by edestruct key_lt_irrefl|done].
  - rewrite flt_key. split.
    + intros (b' & a' & Hb' & Ha' & H). simplify_eq. by left.
    + intros [H|[<- _]]; [by exists b, a|]. exfalso.
      assert (feq (tr_updated_at x) (tr_updated_at y) = true) by (apply feq_key; by exists a).
      congruence.
Qed.

Lemma newer_task_irrefl x : real_update x → newer_task x x = false.
Proof.
  intros Hx. destruct (newer_task_spec x x Hx Hx) as (a & b & Ha & Hb & H). simplify_eq.
  destruct (newer_task x x); [|done]. destruct (proj1 H eq_refl) as [Hl|[_ Hl]].
  - by edestruct key_lt_irrefl.
  - by destruct (String.leb_total (tr_task_id x) (tr_task_id x)) as [E|E]; rewrite E in Hl.
Qed.

Lemma not_newer_trans x y z :
  real_update x → real_update y → real_update z →
  newer_task x y = false → newer_task y z = false → newer_task x z = false.
Proof.
  intros Hx Hy Hz Hxy Hyz. destruct (newer_task x z) eqn:E; [|done]. exfalso.
  destruct (newer_task_spec x y Hx Hy) as (a & b & Ha & Hb & Hs1).
  destruct (newer_task_spec y z Hy Hz) as (b' & c & Hb' & Hc & Hs2).
  destruct (newer_task_spec x z Hx Hz) as (a' & c' & Ha' & Hc' & Hs3). simplify_eq.
  assert (¬ (key_lt b a ∨ (a = b ∧ String.leb (tr_task_id x) (tr_task_id y) = false))) as N1
    by (rewrite <- Hs1; congruence).
  assert (¬ (key_lt c b ∨ (b = c ∧ String.leb (tr_task_id y) (tr_task_id z) = false))) as N2
    by (rewrite <- Hs2; congruence).
  destruct (proj1 Hs3 E) as [Hlt|[E0 Hle]].
  - destruct (key_lt_cotrans _ b _ Hlt); tauto.
  - subst. destruct (key_lt_total b c) as [?|[<-|?]]; [tauto| |tauto].
    destruct (String.leb (tr_task_id x) (tr_task_id y)) eqn:L1; [|tauto].
    destruct (String.leb (tr_task_id y) (tr_task_id z)) eqn:L2; [|tauto].
    by rewrite (string_leb_trans _ _ _ L1 L2) in Hle.
Qed.

Lemma newer_task_asym x y :
  real_update x → real_update y → newer_task x y = true → newer_task y x = false.
Proof.
  intros Hx Hy E. destruct (newer_task y x) eqn:E'; [|done]. exfalso.
  destruct (newer_task_spec x y Hx Hy) as (a & b & Ha & Hb & Hs1).
  destruct (newer_task_spec y x Hy Hx) as (b' & a' & Hb' & Ha' & Hs2). simplify_eq.
  destruct (proj1 Hs1 E) as [L|[E0 L]], (proj1 Hs2 E') as [L'|[E1 L']].
  - by apply (key_lt_irrefl a), (key_lt_trans _ b).
  - subst. by apply key_lt_irrefl in L.
  - subst. by apply key_lt_irrefl in L'.
  - by destruct (String.leb_total (tr_task_id x) (tr_task_id y)); congruence.
Qed.

Lemma newest_task_spec t ts :
  Forall real_update (t :: ts) →
  newest_task t ts ∈ t :: ts ∧ Forall (λ x, newer_task x (newest_task t ts) = false) (t :: ts).
Proof.
  unfold newest_task. revert t. induction ts as [|x ts IH]; intros t Hr; cbn [foldl].
  - split; [by left|]. apply Forall_cons in Hr as [Hr _]. constructor; [by apply newer_task_irrefl|done].
  - apply Forall_cons in Hr as [Ht Hr]. apply Forall_cons in Hr as [Hx Hr].
    set (b := if newer_task x t then x else t).
    assert (real_update b ∧ (b = x ∨ b = t) ∧ newer_task t b = false ∧ newer_task x b = false)
      as (Hb & Hor & Htb & Hxb).
    { unfold b. destruct (newer_task x t) eqn:E.
      - split_and!; [done|by left|by apply newer_task_asym|by apply newer_task_irrefl].
      - split_and!; [done|by right|by apply newer_task_irrefl|done]. }
    destruct (IH b) as [Hin Hall]; [by constructor|]. set (n := foldl _ b ts) in *.
    apply Forall_cons in Hall as [Hbn Hall].
    assert (real_update n) as Hn.
    { apply elem_of_cons in Hin as [->|Hin]; [done|]. by eapply Forall_forall in Hr. }
    split.
    + apply elem_of_cons in Hin as [->|Hin]; [destruct Hor as [->| ->]; set_solver|set_solver].
    + constructor; [by eapply (not_newer_trans _ b)|].
      constructor; [by eapply (not_newer_trans _ b)|done].
Qed.

Section Canonical.
Context {tables : UnicodeTables} (r : Registry).

(** ** The groups *)

Definition member (k : string) (t : TaskRecord) (gs : list (string * list TaskRecord)) : Prop :=
  ∃ ts, (k, ts) ∈ gs ∧ t ∈ ts.

Lemma member_cons k t g gs : member k t (g :: gs) ↔ (g.1 = k ∧ t ∈ g.2) ∨ member k t gs.
Proof.
  destruct g as [k' ts]. unfold member. cbn. split.
  - intros (ts' & [[= -> ->]|Hin]%elem_of_cons & Ht); [by left|right; eauto].
  - intros [[-> Ht]|(ts' & Hin & Ht)]; [exists ts|exists ts']; split; try done; [by left|by right].
Qed.

Lemma member_add key x k t gs :
  member k t (group_add key x gs) ↔ member k t gs ∨ (k = key ∧ t = x).
Proof.
  induction gs as [|[k' ts] gs IH]; cbn [group_add].
  - rewrite member_cons. cbn. rewrite list_elem_of_singleton.
    assert (¬ member k t []) as Hno by (intros (l & Hl & _); by apply not_elem_of_nil in Hl).
    naive_solver.
  - destruct (String.eqb_spec k' key) as [->|Hne]; rewrite !member_cons; cbn.
    + rewrite elem_of_app, list_elem_of_singleton. naive_solver.
    + rewrite IH. naive_solver.
Qed.

Lemma keys_add key x gs k : k ∈ (group_add key x gs).*1 ↔ k ∈ gs.*1 ∨ k = key.
Proof.
  induction gs as [|[k' ts] gs IH]; cbn [group_add].
  - cbn. rewrite list_elem_of_singleton, elem_of_nil. tauto.
  - destruct (String.eqb_spec k' key) as [->|Hne]; cbn; rewrite !elem_of_cons; [|rewrite IH]; tauto.
Qed.

Lemma nodup_add key x gs : NoDup gs.*1 → NoDup (group_add key x gs).*1.
Proof.
  induction gs as [|[k' ts] gs IH]; cbn [group_add]; cbn.
  - intros _. apply NoDup_singleton.
  - intros [Hn Hd]%NoDup_cons. destruct (String.eqb_spec k' key) as [->|Hne]; cbn; [by constructor|].
    constructor; [|by apply IH]. rewrite keys_add. tauto.
Qed.

(** The task [t] belongs to the conversation [k]. *)
Definition watches (t : TaskRecord) (k : string) : Prop :=
  ∃ w, watched_worker r t = Some w ∧ conversation_key w = k.

Lemma groups_spec tasks gs :
  NoDup gs.*1 →
  NoDup (foldl (group_task r) gs tasks).*1 ∧
  ∀ k t, member k t (foldl (group_task r) gs tasks) ↔
    member k t gs ∨ (t ∈ tasks ∧ watches t k).
Proof.
  revert gs. induction tasks as [|x tasks IH]; intros gs Hd; cbn [foldl].
  - split; [done|]. intros k t. rewrite elem_of_nil. tauto.
  - unfold group_task at 2 4. destruct (watched_worker r x) as [w|] eqn:E.
    + destruct (IH (group_add (conversation_key w) x gs)) as [Hd' Hm]; [by apply nodup_add|].
      split; [done|]. intros k t. rewrite Hm, member_add, elem_of_cons. unfold watches.
      naive_solver.
    + destruct (IH gs Hd) as [Hd' Hm]. split; [done|]. intros k t. rewrite Hm, elem_of_cons.
      unfold watches. naive_solver.
Qed.

Lemma select_task_spec ts t :
  Forall real_update ts → select_task ts = Some t →
  t ∈ ts ∧ ∀ x, x ∈ ts → (auto_watch x = true → auto_watch t = true) ∧
    (auto_watch x = auto_watch t → newer_task x t = false).
Proof.
  intros Hr. unfold select_task.
  destruct (List.filter auto_watch ts) as [|a l] eqn:Ef.
  - destruct ts as [|y l]; [done|]. intros [= <-].
    destruct (newest_task_spec y l Hr) as [Hin Hall]. split; [done|]. intros x Hx.
    assert (auto_watch x = false) as Hax.
    { destruct (auto_watch x) eqn:E; [|done]. exfalso. apply (not_elem_of_nil x).
      rewrite <- Ef. apply list_elem_of_In, List.filter_In. by split; [apply list_elem_of_In|]. }
    split; [congruence|]. intros _. by eapply Forall_forall in Hall.
  - intros [= <-]. assert (∀ x, x ∈ a :: l ↔ x ∈ ts ∧ auto_watch x = true) as Hf.
    { intros x. rewrite <- Ef. by rewrite !list_elem_of_In, List.filter_In. }
    destruct (newest_task_spec a l) as [Hin Hall].
    { apply Forall_forall. intros x [Hx _]%Hf. by eapply Forall_forall in Hr. }
    apply Hf in Hin as [Hin Hauto]. split; [done|]. intros x Hx. split; [done|].
    rewrite Hauto. intros Hax. assert (x ∈ a :: l) as Hxl by by apply Hf.
    by eapply Forall_forall in Hall.
Qed.

Lemma select_task_some ts x : x ∈ ts → ∃ t, select_task ts = Some t.
Proof.
  intros Hx. unfold select_task. destruct (List.filter auto_watch ts); [|by eexists].
  destruct ts; [by apply not_elem_of_nil in Hx|by eexists].
Qed.

(** The keys of the selected tasks are those of their groups. *)
Lemma selected_keys gs :
  (∀ k ts, (k, ts) ∈ gs → Forall real_update ts ∧ ∀ t, t ∈ ts → watches t k) →
  NoDup gs.*1 →
  NoDup (omap (λ t, conversation_key <$> watched_worker r t) (omap (λ g, select_task g.2) gs)) ∧
  ∀ k, k ∈ omap (λ t, conversation_key <$> watched_worker r t) (omap (λ g, select_task g.2) gs) →
    k ∈ gs.*1.
Proof.
  induction gs as [|[k ts] gs IH]; intros Hg Hd; cbn.
  { split; [constructor|]. by intros k ?%not_elem_of_nil. }
  apply NoDup_cons in Hd as [Hn Hd]. destruct IH as [IHd IHk]; [|done|].
  { intros k' ts' Hin. apply Hg. by right. }
  destruct (select_task ts) as [t|] eqn:Es; cbn.
  - destruct (Hg k ts) as [Hr Hw]; [by left|].
    destruct (select_task_spec ts t Hr Es) as [Hin _]. destruct (Hw t Hin) as (w & Hww & Hk).
    rewrite Hww. cbn. rewrite Hk. split.
    + constructor; [|done]. intros Hin'. by apply Hn, IHk.
    + intros k' [->|Hk']%elem_of_cons; [by left|]. right. by apply IHk.
  - split; [done|]. intros k' Hk'. right. by apply IHk.
Qed.

Lemma elem_of_list_tasks t : t ∈ list_tasks r ↔ ∃ k, rg_tasks r !! k = Some t.
Proof.
  unfold list_tasks, order_desc. rewrite elem_of_py_sorted, elem_of_select. naive_solver.
Qed.

(** C33: The overrun cycle looks at one task for each conversation.  Every task it looks at is
    open with an active current worker that has a conversation, and no two of them have the
    same; and for every such task of the registry the conversation is looked at, through an
    owner that the watchdog registered when there is one, and through the newest of them. *)
Theorem overrun_tasks_are_canonical :
  (∀ k t, rg_tasks r !! k = Some t → real_update t) →
  let ts := _canonical_overrun_tasks r in
  (∀ t, t ∈ ts → t ∈ list_tasks r ∧ is_Some (watched_worker r t)) ∧
  NoDup (omap (λ t, conversation_key <$> watched_worker r t) ts) ∧
  ∀ t k, t ∈ list_tasks r → watches t k →
    ∃ t', t' ∈ ts ∧ watches t' k ∧ (auto_watch t = true → auto_watch t' = true) ∧
      (auto_watch t = auto_watch t' → newer_task t t' = false).
Proof.
  intros Hreal. cbv zeta. unfold _canonical_overrun_tasks.
  destruct (groups_spec (list_tasks r) []) as [Hd Hm]; [constructor|].
  set (gs := foldl (group_task r) [] (list_tasks r)) in *.
  assert (∀ k t, member k t gs ↔ t ∈ list_tasks r ∧ watches t k) as Hmem.
  { intros k t. rewrite Hm. assert (¬ member k t []) as Hno by (intros (l & Hl & _); by apply not_elem_of_nil in Hl).
    tauto. }
  assert (∀ k ts, (k, ts) ∈ gs → Forall real_update ts ∧ ∀ t, t ∈ ts → watches t k) as Hg.
  { intros k ts Hin. split.
    - apply Forall_forall. intros t Ht.
      assert (member k t gs) as [Hl _]%Hmem by by exists ts.
      apply elem_of_list_tasks in Hl as [k' Hl]. by eapply Hreal.
    - intros t Ht. by apply (Hmem k t); exists ts. }
  split_and!.
  - intros t Ht. apply list_elem_of_omap in Ht as ([k ts] & Hin & Hs). cbn in Hs.
    destruct (Hg k ts Hin) as [Hr _]. destruct (select_task_spec ts t Hr Hs) as [Ht _].
    assert (member k t gs) as [Hl (w & Hw & _)]%Hmem by by exists ts.
    split; [done|by exists w].
  - by apply selected_keys.
  - intros t k Hl Hw. assert (member k t gs) as (ts & Hin & Ht) by by apply Hmem.
    destruct (select_task_some ts t Ht) as [t' Hs]. destruct (Hg k ts Hin) as [Hr Hws].
    destruct (select_task_spec ts t' Hr Hs) as [Ht' Hbest]. exists t'.
    split; [|split; [by apply Hws|by apply Hbest]].
    apply list_elem_of_omap. by exists (k, ts).
Qed.

End Canonical.

(** ** Two tasks of one conversation *)

#[local] Existing Instance AsciiTables.

Definition watched_url : string := "https://chatgpt.com/c/0123456789abcdef".

Definition watched_task (id worker : string) (updated : Z) : TaskRecord :=
  mkTaskRecord id "p" "o" "c" SupervisorState.RUNNING None [] (Some worker) 0 3 (of_Z 0)
    (of_Z updated).

Definition watched_by (id task url : string) : WorkerRecord :=
  mkWorkerRecord id task url None WorkerStatus.ACTIVE (of_Z 0) None None.

(** The operator's task is newer, the watchdog's own one has the prefix. *)
Definition watched_registry : Registry :=
  empty_registry
    <| rg_tasks := <["t" := watched_task "t" "w1" 9]>
                   {["watch-chat-0" := watched_task "watch-chat-0" "w2" 5]} |>
    <| rg_workers := <["w1" := watched_by "w1" "t" watched_url]>
                     {["w2" := watched_by "w2" "watch-chat-0" (watched_url +:+ "/")]} |>.

Lemma overrun_tasks_are_canonical_witness :
  tr_task_id <$> _canonical_overrun_tasks watched_registry = ["watch-chat-0"] ∧
  ∃ t', t' ∈ _canonical_overrun_tasks watched_registry ∧ auto_watch t' = true.
Proof.
  split; [vm_compute; reflexivity|].
  destruct (overrun_tasks_are_canonical watched_registry) as (_ & _ & H).
  - intros k t Ht. cbn in Ht.
    apply lookup_insert_Some in Ht as [[<- <-]|[_ Ht]]; [reflexivity|].
    apply lookup_singleton_Some in Ht as [<- <-]. reflexivity.
  - destruct (H (watched_task "watch-chat-0" "w2" 5) "conversation:0123456789abcdef")
      as (t' & Ht & _ & Hw & _).
    + apply elem_of_list_tasks. exists "watch-chat-0". reflexivity.
    + exists (watched_by "w2" "watch-chat-0" (watched_url +:+ "/")). split; vm_compute; reflexivity.
    + exists t'. split; [exact Ht|apply Hw; reflexivity].
Defined.
