(* ===== verification/ResidentTheorems.v ===== *)
(** * What a watch process sends

    Over any run of [lws watch], with other processes acting between any two of its steps and a
    kill anywhere: each send is fenced and has a reason, a round has at most one effective
    send, and there is none after the lease was lost. *)

From stdpp Require Import pretty.
From S2P Require Import Prelude PyFloat PyStr PyUrl PyJson Models ProjectUrl.
From S2P Require Import WorkerProtocol Registry ObsTable Observations Persistence AttemptTables.
From S2P Require Import Reconcile Watcher Attention Dispatcher Actions.
From S2P Require Import ActionTheorems Leases Programs ChildDispatch Workers TimeoutRecovery.
From S2P Require Import OverrunContinuation DispatchRuntime Runs Resident ResidentCycles.
From S2P Require Import ResidentSteps ResidentPrograms ResidentRounds ResidentCanonical.

Open Scope string_scope.
Open Scope Z_scope.
Open Scope list_scope.

Section Theorems.
Context {tables : UnicodeTables} {check : NetlocCheck} {digests : Digests} {fmt : Formatting}.
Context {ties : TieOrder} {nums : Numbers} {texts : PromptTexts}.
Context {env : RunEnv Resident} {alone : Bystanders env} {desk : Desktop}.

(** ** The loop *)

Section Loop.
Context (who : trigger → Prop) (Hwho : ∀ why, resident_trigger why → who why).

Lemma triple_keepalive F leased owner ttl :
  lasting F → triple (holding who F) (_keepalive leased owner ttl) (λ _, holding who F) (inv who).
Proof using alone.
  intros HF. unfold _keepalive. destruct leased; [|by apply triple_mret].
  eapply (triple_bind _ _ _ (λ x w, if x : bool then holding who F w else inv who w)).
  - apply triple_transact; [apply holding_stable| |apply holding_inv].
    intros now n w s' x [Hi HFw] ([r' y] & H & [= <- <-])%bind_Ok.
    apply heartbeat_frame in H. cbn in H.
    pose proof (inv_moves who w _ Hi (frame_registry _ _ H)) as H1.
    eapply (inv_logs who _ (Heartbeat y)) in H1; [|exact I|done].
    destruct y; [|exact H1]. split; [exact H1|]. cbn. by apply HF.
  - intros []; [by apply triple_mret|]. by intros w w' o Hw [= <- <-].
Qed.

Lemma triple_watch_loop args leased owner ttl fuel last :
  triple (holding who alive) (watch_loop args (_keepalive leased owner ttl) fuel last)
    (λ _, inv who) (inv who).
Proof using All.
  revert last. induction fuel as [|fuel IH]; intros last; cbn [watch_loop].
  { apply triple_mret. apply holding_inv. }
  eapply triple_bind.
  { apply triple_round; [apply triple_keepalive, lasting_ready|done]. }
  intros last'. destruct (wa_once args); [apply triple_mret, holding_inv|].
  eapply triple_bind; [apply triple_keepalive, lasting_alive|intros []].
  apply cycle_seq; [apply holds_clock|intros _; apply IH].
Qed.

Lemma triple_release leased owner :
  holds (inv who) (if leased : bool
    then _ ← write_registry (λ _ _ r, release_watchdog_lease r lease_name owner); mret tt
    else mret tt).
Proof using alone.
  assert (∀ w, holding who (λ _, True) w ↔ inv who w) as E by (intros w; split; [by intros []|done]).
  apply (triple_weaken (holding who (λ _, True)) _ _ (λ _, holding who (λ _, True))
    (holding who (λ _, True))); [|intros w; apply (E w)|intros _ w; apply (E w)|intros w; apply (E w)].
  destruct leased; [|apply holds_ret]. apply holds_bind; [|intros; apply holds_ret].
  apply holds_write_registry. intros now n r x. apply release_frame.
Qed.

(** The loop under its lease, which is released at the end. *)
Lemma triple_leased args (leased : bool) owner ttl fuel :
  triple (holding who alive)
    (try_finally
       (catching (is_class WatchdogLeaseLost)
          (watch_loop args (_keepalive leased owner ttl) fuel None) (λ _, mret (Some 5)))
       (if leased then _ ← write_registry (λ _ _ r, release_watchdog_lease r lease_name owner); mret tt
        else mret tt))
    (λ _, inv who) (inv who).
Proof using All.
  assert (triple (holding who alive) (catching (is_class WatchdogLeaseLost)
    (watch_loop args (_keepalive leased owner ttl) fuel None) (λ _, mret (Some 5)))
    (λ _, inv who) (inv who)) as Hbody.
  { apply (triple_try _ _ _ _ (inv who)); [apply triple_watch_loop|done|].
    intros e w w' o Hw. destruct (is_class _ _); by intros [= <- <-]. }
  pose proof (triple_release leased owner) as Hrel.
  intros w w' o Hw. unfold try_finally. specialize (Hbody w).
  destruct (catching _ _ _ w) as [w1 x]. specialize (Hbody _ _ Hw eq_refl).
  assert (inv who w1) as H1 by by destruct x. specialize (Hrel w1).
  destruct (_ w1) as [w2 y]. specialize (Hrel _ _ H1 eq_refl).
  destruct x, y; by intros [= <- <-].
Qed.

Lemma triple_watch args fuel :
  triple (holding who alive) (watch args fuel) (λ _, inv who) (inv who).
Proof using All.
  unfold watch. destruct (wa_auto_recover_timeouts args && _).
  { intros w w' o [Hi _] [= <- <-]. exact Hi. }
  destruct (wa_auto_continue_overruns args && _).
  { intros w w' o [Hi _] [= <- <-]. exact Hi. }
  apply cycle_seq; [apply holds_tick|intros n]. cbv zeta.
  apply cycle_seq.
  { destruct (wa_once args); [apply holds_ret|]. apply holds_bind; [|intros; apply holds_ret].
    apply holds_write_registry. intros now k r x. apply acquire_frame. }
  intros [leased|]; [|apply triple_mret, holding_inv].
  apply triple_leased.
Qed.

End Loop.

(** The log of a run from a store in order. *)
Lemma watch_good args fuel s n w o :
  store_ok s → watch args fuel (Runs.mkWorld s n []) = (w, o) → good_log resident_trigger (w_log w).
Proof using alone.
  intros Hs H. assert (inv resident_trigger w) as Hw; [|apply Hw].
  pose proof (triple_watch resident_trigger (λ _ H, H) args fuel (Runs.mkWorld s n []) w o) as Ht.
  destruct o; apply Ht; try done; (split; [constructor|]); cbn; try done.
  all: try apply good_log_nil. all: try by intros a0 i out s0 ?%not_elem_of_nil.
  all: by unfold alive; intros ?%not_elem_of_nil.
Qed.

(** ** Why a plan is executed *)

(** What the gate of delivery errors saw, in the store [s] at [now], for a plan on the two
    samples [previous] and [current]. *)
Record error_gated (s : Resident) (now : float) (plan : DispatchPlan)
    (browser : option BrowserObservation) (policy : TimeoutRecoveryPolicy) : Prop := {
  eg_enabled : tp_enabled policy = true;
  eg_error : is_recoverable_delivery_error browser = true;
  eg_current : error_shadowed_by_active_generation (rs_observations s) (rs_registry s)
                 (pl_task_id plan) browser = Ok false;
  eg_new : acknowledged_state_is_unchanged (rs_registry s) (pl_task_id plan) browser = Ok false;
}.

Definition reason (past : list event) (why : trigger) (p : DispatchPlan) : Prop :=
  match why with
  | Advised _ _ _ _ _ => False
  | DeliveryError plan browser policy =>
      ∃ s now task previous current dispatch now0,
        error_gated s now plan browser policy ∧ pl_task_id p = pl_task_id plan ∧
        two_phase previous current dispatch now0 ∧
        tr_recovery_attempts task < tr_max_recovery_attempts task
  | Overrun task clock previous current browser policy =>
      ∃ s now p0 c0 worker b,
        overrun_clock (rs_observations s) (rs_registry s) (tr_task_id task) policy now =
          Ok (Some clock) ∧ ck_due clock = true ∧
        previous = Some p0 ∧ current = Some c0 ∧ stable_samples task p0 c0 policy now ∧
        browser = Some b ∧ wr_status worker = WorkerStatus.ACTIVE ∧
        bo_worker_id b = ck_worker_id clock ∧ bo_generating b ≠ Some true
  end.

Lemma gate_ready o r plan browser policy now p :
  gate_timeout_dispatch_plan o r plan browser policy now = Ok p → pl_candidate_ready p = true →
  pl_candidate_ready plan = true ∧ tp_enabled policy = true ∧
  is_recoverable_delivery_error browser = true ∧
  error_shadowed_by_active_generation o r (pl_task_id plan) browser = Ok false ∧
  acknowledged_state_is_unchanged r (pl_task_id plan) browser = Ok false.
Proof using Type.
  unfold gate_timeout_dispatch_plan. intros (unchanged & Hu & H)%bind_Ok_inv.
  apply bind_Ok_inv in H as (shadowed & Hs & H). apply bind_Ok_inv in H as (attempts & Ha & H).
  cbv zeta in H. injection H as <-. cbn [pl_candidate_ready]. intros [Hr Hall]%andb_true_iff.
  split; [done|].
  match type of Hall with match ?bs with [] => _ | _ => _ end = _ => destruct bs eqn:Hb; [|done] end.
  apply app_eq_nil in Hb as [_ Hg%gates_pass]. rewrite !Forall_cons in Hg. cbn [g_pass] in Hg.
  destruct Hg as (H1 & H2 & H3%negb_true_iff & H4%negb_true_iff & _). by subst.
Qed.

Lemma overrun_ready r task clock previous current browser policy now p :
  build_overrun_dispatch_plan r task clock previous current browser policy true now = Ok p →
  pl_candidate_ready p = true →
  ∃ p0 c0 worker b, previous = Some p0 ∧ current = Some c0 ∧ stable_samples task p0 c0 policy now ∧
    browser = Some b ∧ wr_status worker = WorkerStatus.ACTIVE ∧
    bo_worker_id b = ck_worker_id clock ∧ bo_generating b ≠ Some true.
Proof using Type.
  unfold build_overrun_dispatch_plan. intros (worker & Hw & H)%bind_Ok_inv.
  apply bind_Ok_inv in H as (failed_at & Hf & H). cbv zeta in H.
  set (gs := clock_gates task clock policy ++ _) in H. injection H as <-.
  cbn [pl_candidate_ready]. destruct (gates_blockers gs) eqn:Hg; [|done]. intros _.
  apply gates_pass in Hg. apply Forall_app in Hg as [_ Hg]. apply Forall_app in Hg as [Hs Hg].
  apply Forall_app in Hg as [Hp _]. apply sample_gates_pass in Hs as (p0 & c0 & -> & -> & Hs).
  unfold page_gates in Hp. rewrite !Forall_app, !Forall_cons in Hp. cbn [g_pass] in Hp.
  destruct Hp as ((Ha%bool_decide_eq_true & Hb & _) & Hp). destruct browser as [b|]; [|done].
  rewrite !Forall_cons in Hp. cbn [g_pass] in Hp. destruct Hp as (_ & _ & Hn & _).
  exists p0, c0, worker, b. split_and!; try done; [by apply String.eqb_eq|].
  apply negb_true_iff in Hn. unfold generating in Hn. by apply bool_decide_eq_false in Hn.
Qed.

Lemma good_member who l e : good_log who l → e ∈ l → ∃ past, justified who past e ∧ ∀ x, x ∈ past → x ∈ l.
Proof using Type.
  intros Hl (l1 & l2 & ->)%list_elem_of_split. exists l1. split; [by eapply Hl|].
  intros x Hx. apply elem_of_app. by left.
Qed.

(** The reason of an execution, from its place in a justified log. *)
Lemma fenced_reason past why p policy now a s :
  good_log resident_trigger past → Fenced why p policy now a s ∈ past → reason past why p.
Proof using Type.
  intros Hl Hf.
  destruct (good_member _ _ _ Hl Hf) as (past1 & (Hwho & Hx & now0 & plan & s0 & Hin & He) & Hsub).
  destruct (xf_plan _ _ _ _ _ _ Hx) as (_ & Hready & _).
  destruct He as (Eid & _ & _ & _ & Hr & _). specialize (Hr Hready).
  destruct (good_member _ _ _ Hl (Hsub _ Hin)) as (past2 & Hj & Hsub2).
  destruct why as [| p0 browser tp | task clock previous current browser op]; [done| |].
  - destruct Hj as [Hg (task & rec & pr & cu & dp & now1 & pb & s1 & Hin2 & He)].
    pose proof (gate_ready _ _ _ _ _ _ _ Hg Hr) as (Hr0 & G1 & G2 & G3 & G4).
    destruct He as (_ & _ & _ & _ & Hb & _). specialize (Hb Hr0).
    destruct (good_member _ _ _ Hl (Hsub2 _ Hin2)) as (past3 & Hj & _).
    destruct (ready_plan_is_two_phase _ _ _ _ _ _ _ Hj Hb) as (p1 & c1 & -> & -> & H2 & Hb2 & _).
    exists s0, now0, task, p1, c1, dp, now1. split; [by constructor|]. split; [|done].
    apply bind_Ok in Hg as (? & _ & Hg). apply bind_Ok in Hg as (? & _ & Hg).
    apply bind_Ok in Hg as (? & _ & Hg). injection Hg as <-. by rewrite Eid.
  - destruct Hj as (Hb & Hdue & s1 & Hin2).
    destruct (good_member _ _ _ Hl (Hsub2 _ Hin2)) as (past3 & Hc & _).
    destruct (overrun_ready _ _ _ _ _ _ _ _ _ Hb Hr) as (p1 & c1 & worker & b & H).
    exists s1, now0, p1, c1, worker, b. split; [exact Hc|]. by split.
Qed.

(** C8: A resident supervisor sends only under every fence, for a reason, and once.  In any run
    of a watch process, with other processes acting between its steps and a kill anywhere, a
    prompt is handed to the transport only for an attempt that this process armed after
    checking every fence of an execution, as a new row of the table, for an open task; the
    prompt is the one of the digest that was armed; the attempt is then still in the table and
    was never sent before; and its plan was ready for a delivery error on the page that no
    generation shadows, on two stable samples, or for a turn whose clock is over. *)
Theorem resident_sends_are_fenced args fuel s n w o l1 a i out s1 l2 :
  store_ok s → watch args fuel (Runs.mkWorld s n []) = (w, o) →
  w_log w = l1 ++ Sent a i out s1 :: l2 →
  (∃ why p policy now s2 s3, Fenced why p policy now a s2 ∈ l1 ∧
     execution_fenced (rs_observations s2) (rs_registry s2) p policy now a ∧ reason l1 why p ∧
     Armed a s3 ∈ l1 ∧ rg_actions (rs_registry s3) !! aa_attempt_id a = None ∧
     ∃ task, rg_tasks (rs_registry s3) !! aa_task_id a = Some task ∧ task_terminal task = false) ∧
  (in_attempt_id i, in_task_id i, in_worker_id i, prompt_digest (in_prompt i)) =
    (aa_attempt_id a, aa_task_id a, aa_worker_id a, aa_prompt_hash a) ∧
  (∃ a', rg_actions (rs_registry s1) !! aa_attempt_id a = Some a' ∧ ages a a') ∧
  ∀ a' i' out' s', Sent a' i' out' s' ∈ l1 → aa_attempt_id a' ≠ aa_attempt_id a.
Proof using alone.
  intros Hs H El. pose proof (watch_good _ _ _ _ _ _ Hs H) as Hl. rewrite El in Hl.
  destruct (Hl _ _ _ eq_refl) as ([s3 Harm] & Hun & E1 & E2 & E3 & E4 & Hag & _).
  assert (good_log resident_trigger l1) as Hl1.
  { intros k1 e k2 ->. apply (Hl k1 e (k2 ++ Sent a i out s1 :: l2)). by rewrite <- app_assoc. }
  split; [|split; [congruence|by split]].
  pose proof (good_member _ _ _ Hl1 Harm) as (past & ((why & p & policy & now & s2 & Hf) & Hnone & Htask) & Hsub).
  apply Hsub in Hf. exists why, p, policy, now, s2, s3. split; [done|].
  pose proof (good_member _ _ _ Hl1 Hf) as (past2 & (_ & Hx & _) & _). split; [done|].
  split; [by eapply fenced_reason|]. by split_and!.
Qed.

(** C32: One send in a round.  In any run of a watch process a new round begins after every send
    that may have had an effect and before the next send; and nothing is sent after a
    heartbeat that did not renew the lease. *)
Theorem one_send_per_round args fuel s n w o :
  store_ok s → watch args fuel (Runs.mkWorld s n []) = (w, o) →
  (∀ l1 a i out s1 l2 a' i' out' s2 l3,
     w_log w = l1 ++ Sent a i out s1 :: l2 ++ Sent a' i' out' s2 :: l3 →
     effective out = true → Round ∈ l2) ∧
  (∀ l1 l2 a i out s1, w_log w = l1 ++ Heartbeat false :: l2 → Sent a i out s1 ∉ l2).
Proof using alone.
  intros Hs H. pose proof (watch_good _ _ _ _ _ _ Hs H) as Hl. split.
  - intros l1 a i out s1 l2 a' i' out' s2 l3 E Hf. rewrite E in Hl.
    rewrite app_comm_cons, app_assoc in Hl.
    destruct (Hl _ _ _ eq_refl) as (_ & _ & _ & _ & _ & _ & _ & Hq & _).
    by eapply Hq.
  - intros l1 l2 a i out s1 E (k1 & k2 & ->)%list_elem_of_split. rewrite E in Hl.
    rewrite app_comm_cons, app_assoc in Hl.
    destruct (Hl _ _ _ eq_refl) as (_ & _ & _ & _ & _ & _ & _ & _ & Ha). apply Ha.
    apply elem_of_app. right. by left.
Qed.

End Theorems.

(** * The resident supervisor on concrete runs

    One task whose worker sits idle after a long turn, and a desktop that answers.  The
    witnesses apply the theorems to a watch process that nudges it; the last example shows
    that a stale window ends a cycle, and with it the process. *)

Section Demo.
Existing Instance AsciiTables.
Existing Instance any_netloc.
Existing Instance text_digests.
Existing Instance plan_formatting.
Existing Instance newest_tie.
Existing Instance demo_numbers.

#[local] Instance resident_texts : PromptTexts := {|
  safety_preamble := "Be careful. "; recovery_instructions := " Resume. ";
|}.

(** The clock moves with the steps and jumps once; nobody else is at work. *)
#[local] Instance resident_env : RunEnv Resident := {|
  run_now := λ n, of_Z ((if Nat.ltb n 220 then 2000 else 5000) + Z.of_nat n);
  run_others := λ _ s, s;
  run_killed := λ _, false;
|}.

#[local] Instance resident_quiet : Bystanders resident_env.
Proof. by intros n s. Qed.

(** The page of the worker, as the probe sees it at [url]. *)
Definition resident_page (n : nat) (worker : WorkerRecord) (url : string) : BrowserObservation :=
  mkBrowserObservation (wr_worker_id worker) (run_now n) (Some url) (Some false) (Some true) None
    None (Some (of_Z 1900)) (Some "page")
    [("window_handle", JInt 7); ("browser_pid", JInt 8)].

(** A window that is sent to and shows what was sent. *)
#[local] Instance resident_desktop : Desktop := {|
  uia_observe := λ n worker _ _, Ok (resident_page n worker "https://chat/c/1");
  uia_discover := λ _, Ok [];
  uia_chrome := Some "chrome.exe";
  uia_timeout_s := of_Z 10;
  lsm_telemetry := None;
  workspace_probe := λ n task_id cwd, Ok (mkWorkspaceObservation task_id (run_now n) cwd true
    (Some true) None (Some "abc") (Some "b") (Some false) (Some "h") [] None []);
  uia_transport := λ _ _, Ok (mkActionTransport "uia"
    (λ i, Returned (mkTransportSubmission true true "uia" "sent")));
  uia_ack := λ n q, Ok (mkUiaAckObservation (aq_worker_id q) (run_now n) (aq_conversation_url q)
    (aq_expected_hwnd q) (aq_expected_browser_pid q) (Some false) (Some true) true true 1 40 "text");
  fresh_uuid := λ n, pretty (1000000000000000 + Z.of_nat n);
  current_directory := "/w";
|}.

Definition resident_registry : Registry :=
  empty_registry <| rg_tasks := {["t" := sending_task]} |>
                 <| rg_workers := {["w" := sending_worker]} |>.

Definition resident_start : Resident := mkResident resident_registry no_observations.

(** A loop that starts a round each hour or more often. *)
Definition resident_args : WatchArgs :=
  mkWatchArgs false true true true (of_Z 3600) (of_Z 1520) default_watch_policy (Some "owner") 1
    "host".

Definition resident_run (s : Resident) : Runs.World Resident event * out (option Z) :=
  watch resident_args 6 (Runs.mkWorld s 0 []).

Definition resident_log : list event := w_log (resident_run resident_start).1.

Lemma resident_start_ok : store_ok resident_start.
Proof.
  split; [by apply empty_acts_ok|].
  intros k t Ht. cbn in Ht. by apply lookup_singleton_Some in Ht as [<- <-].
Qed.

Definition is_sent (e : event) : bool := match e with Sent _ _ _ _ => true | _ => false end.

(** The run sends twice, for two attempts, and the first send may have had an effect. *)
Definition sends_twice : bool :=
  match split_where is_sent resident_log with
  | Some (_, Sent a _ out _, rest) =>
      match split_where is_sent rest with
      | Some (_, Sent a' _ _ _, _) =>
          effective out && negb (String.eqb (aa_attempt_id a) (aa_attempt_id a'))
      | _ => false
      end
  | _ => false
  end.

Example resident_sends_twice : sends_twice = true.
Proof. vm_compute. reflexivity. Qed.

Lemma resident_sends_are_fenced_witness :
  match split_where is_sent resident_log with
  | Some (past, Sent a i out s, _) =>
      (∃ why p policy now s2, Fenced why p policy now a s2 ∈ past ∧ reason past why p) ∧
      prompt_digest (in_prompt i) = aa_prompt_hash a ∧
      ∃ a', rg_actions (rs_registry s) !! aa_attempt_id a = Some a' ∧ ages a a'
  | _ => False
  end.
Proof.
  pose proof resident_sends_twice as Hb. unfold sends_twice in Hb.
  destruct (split_where is_sent resident_log) as [[[past e] later]|] eqn:E; [|discriminate Hb].
  pose proof (split_where_eq _ _ _ _ _ E) as El.
  pose proof (split_where_holds _ _ _ _ _ E) as He.
  destruct e as [| | | | | | |a i out s]; try discriminate He. clear Hb.
  destruct (resident_sends_are_fenced resident_args 6 resident_start 0
    (resident_run resident_start).1 (resident_run resident_start).2 past a i out s later
    resident_start_ok (surjective_pairing _) El)
    as ((why & p & policy & now & s2 & s3 & Hf & _ & Hr & _) & Hi & Ha & _).
  split; [exists why, p, policy, now, s2; by split|]. split; [congruence|exact Ha].
Defined.

Lemma one_send_per_round_witness :
  match split_where is_sent resident_log with
  | Some (l1, Sent a _ _ _, rest) =>
      match split_where is_sent rest with
      | Some (l2, Sent a' _ _ _, l3) => Round ∈ l2 ∧ aa_attempt_id a ≠ aa_attempt_id a'
      | _ => False
      end
  | _ => False
  end.
Proof.
  pose proof resident_sends_twice as Hb. unfold sends_twice in Hb.
  destruct (split_where is_sent resident_log) as [[[l1 e] rest]|] eqn:E; [|discriminate Hb].
  pose proof (split_where_eq _ _ _ _ _ E) as El.
  pose proof (split_where_holds _ _ _ _ _ E) as He.
  destruct e as [| | | | | | |a i out s]; try discriminate He.
  destruct (split_where is_sent rest) as [[[l2 e2] l3]|] eqn:E2; [|discriminate Hb].
  pose proof (split_where_eq _ _ _ _ _ E2) as El2.
  pose proof (split_where_holds _ _ _ _ _ E2) as He2.
  destruct e2 as [| | | | | | |a' i' out' s']; try discriminate He2.
  apply andb_true_iff in Hb as [Hf Hne%negb_true_iff%String.eqb_neq]. split; [|exact Hne].
  destruct (one_send_per_round resident_args 6 resident_start 0
    (resident_run resident_start).1 (resident_run resident_start).2 resident_start_ok
    (surjective_pairing _)) as [H _].
  apply (H l1 a i out s l2 a' i' out' s' l3); [rewrite <- El2; exact El|exact Hf].
Defined.

(** ** A window whose address is not spelled as the worker's *)

(** The worker is registered at the same page without TLS; the probe compares the addresses
    without their schemes, the lease of the window compares them as they are. *)
Definition stale_start : Resident :=
  mkResident (resident_registry <| rg_workers := {["w" := mkWorkerRecord "w" "t"
    "http://chat/c/1" None WorkerStatus.ACTIVE (of_Z 0) None None]} |>) no_observations.

Definition stale_run (continue : bool) : out (option Z) :=
  (main_of (watch (mkWatchArgs true true false continue (of_Z 3600) (of_Z 1520)
     default_watch_policy (Some "owner") 1 "host") 1) (Runs.mkWorld stale_start 0 [])).2.

(** The scan survives the refused lease; the cycle of the overruns does not, and the process
    ends with the exit code of a [ValueError]. *)
Example stale_window_ends_the_watch :
  stale_run false = Done (Some 0) ∧ stale_run true = Done (Some 2).
Proof. split; vm_compute; reflexivity. Qed.

End Demo.
