(* ===== verification/ChildSpawn.v ===== *)
(** * child_spawn.py: opening a conversation for a child

    The programs that take a spawn attempt from its arming over the opening of an owned window
    and the sending of the persisted prompt to the adoption of the new conversation, and the
    reconciliation of an attempt whose outcome is unknown.  Every external effect is preceded
    by a durable state of the attempt.  The transport that drives the browser is a record of
    operations whose answers may be anything; the log keeps its calls with the registry they
    found. *)

From S2P Require Import Prelude PyFloat PyStr PyUrl PyJson Models ProjectUrl.
From S2P Require Import WorkerProtocol Registry AttemptTables Persistence ProbeOps Reconcile Actions.
From S2P Require Import Leases Programs Spawns Replacement ChildDispatch Workers Runs.

Open Scope string_scope.
Open Scope Z_scope.
Open Scope list_scope.

(** ** What the transport answers *)

Record ChildSpawnExecution := mkChildSpawnExecution {
  ce_changed : bool;
  ce_side_effect_possible : bool;
  ce_detail : string;
  ce_window_handle : option Z;
  ce_browser_pid : option Z;
  ce_url : option string;
  ce_rate_limited : bool;
  ce_modal_dismissed : bool;
}.

(** [ChildSpawnExecution.submitted] *)
Definition ce_submitted (x : ChildSpawnExecution) : bool := ce_changed x.

Record ChildSpawnDeliveryObservation := mkChildSpawnDeliveryObservation {
  co_url : string;
  co_generating : bool;
  co_composer_value : string;
  co_send_button_ready : bool;
  co_prompt_matches_draft : bool;
  co_detail : string;
}.

(** [ChildSpawnDeliveryObservation.delivered] *)
Definition co_delivered (o : ChildSpawnDeliveryObservation) : bool :=
  str_truthy (co_url o) &&
  (co_generating o || (negb (co_prompt_matches_draft o) && negb (co_send_button_ready o))).

(** The transport; the first argument of an operation counts the steps of the run.  A
    transport written before the delivery check has no [wait_for_delivery]. *)
Record ChildSpawnTransport := {
  open_authorized : nat → ChildSpawnAttempt → res ChildSpawnExecution;
  reuse_authorized :
    nat → ChildSpawnAttempt → WorkerRecord → WorkerWindowBinding → res ChildSpawnExecution;
  reuse_completed_spawn_authorized :
    nat → ChildSpawnAttempt → ChildSpawnAttempt → res ChildSpawnExecution;
  send_authorized : nat → ChildSpawnAttempt → string → res ChildSpawnExecution;
  wait_for_conversation : nat → ChildSpawnAttempt → res ChildSpawnExecution;
  wait_for_delivery :
    option (nat → ChildSpawnAttempt → string → res ChildSpawnDeliveryObservation);
  invoke_existing_draft_authorized :
    nat → ChildSpawnAttempt → string → string → res ChildSpawnExecution;
  observe_owned_project : nat → ChildSpawnAttempt → res ChildSpawnExecution;
  _observe_bound_url : nat → ChildSpawnAttempt → res ChildSpawnExecution;
  close_worker_binding_authorized :
    nat → WorkerRecord → WorkerWindowBinding → res ChildSpawnExecution;
  close_completed_spawn_authorized : nat → ChildSpawnAttempt → res ChildSpawnExecution;
}.

(** Where the window of an attempt comes from. *)
Inductive window_source :=
  | NewWindow
  | WorkerWindow (worker : WorkerRecord) (binding : WorkerWindowBinding)
  | SpawnWindow (source : ChildSpawnAttempt).

(** The calls of the transport, with the registry at the call. *)
Inductive spawn_event :=
  | WindowRequested (r : Registry) (a : ChildSpawnAttempt) (source : window_source)
      (answer : res ChildSpawnExecution)
  | PromptSent (r : Registry) (a : ChildSpawnAttempt) (prompt : string)
      (answer : res ChildSpawnExecution)
  | DraftInvoked (r : Registry) (a : ChildSpawnAttempt) (prompt url : string)
      (answer : res ChildSpawnExecution)
  | RouteObserved (r : Registry) (a : ChildSpawnAttempt) (answer : res ChildSpawnExecution)
  | DeliveryObserved (r : Registry) (a : ChildSpawnAttempt)
      (answer : res ChildSpawnDeliveryObservation)
  | WindowClosed (r : Registry) (child : string) (answer : res ChildSpawnExecution).

Notation SpawnWorld := (Runs.World Registry spawn_event).
Notation srun := (eff SpawnWorld).

(** Fresh texts of [uuid.uuid4().hex]. *)
Class Uuids := { uuid_at : nat → string }.

(** The text of the optional column [x], when it is not empty. *)
Definition present_text (x : option string) : option string :=
  match x with Some s => if str_truthy s then Some s else None | None => None end.

(** The number of the optional column [x], when it is not zero. *)
Definition nonzero (x : option Z) : option Z :=
  match x with Some z => if z =? 0 then None else Some z | None => None end.

Definition spawn_blocked {A} (blockers : list string) : res A :=
  raise ChildSpawnBlocked (join "; " blockers).

(** [_fresh_workspace] *)
Definition _fresh_workspace (dispatch : ChildDispatchRecord)
    (workspace : option WorkspaceObservation) (now max_age_s : float) : list string :=
  match workspace with
  | None => ["fresh workspace reconciliation is required before opening a child conversation"]
  | Some w =>
      let age := fsub now (wo_observed_at w) in
      block_if (flt age (of_Z 0) || flt max_age_s age)
        "workspace observation is stale or from the future" ++
      block_if (negb (wo_cwd_exists w)) "child working directory does not exist" ++
      block_if (opt_truthy (wo_error w))
        ("workspace reconciliation failed: " +:+ default "" (wo_error w)) ++
      if opt_truthy (cd_expected_branch dispatch) then
        if negb (bool_decide (wo_is_git_repo w = Some true)) then
          ["dispatch expects a Git branch but workspace is not a verified Git repository"]
        else
          block_if (negb (bool_decide (wo_git_branch w = cd_expected_branch dispatch)))
            ("workspace branch changed: expected " +:+ default "" (cd_expected_branch dispatch) +:+
             ", observed " +:+ default "<detached>" (present_text (wo_git_branch w)))
      else []
  end.

Section ChildSpawn.
Context {tables : UnicodeTables} {check : NetlocCheck} {digests : Digests}.
Context {formatting : Formatting} {env : RunEnv Registry} {uuids : Uuids}.

(** [time.time() if now is None else float(now)] *)
Definition time_or (now : option float) : srun float :=
  match now with Some ts => mret ts | None => clock end.

Definition fetch_row {A} (m : Registry → res A) : srun A :=
  txn (λ _ r, a ← m r; Ok (r, a)).

(** A registry call of several transactions, as one step. *)
Definition call {A} (m : prog A) : srun A := atomically m.

Definition uuid4 : srun string := _ ← step; n ← tick; mret (uuid_at n).

(** [registry.update_child_spawn_attempt] *)
Definition update_spawn (id : string) (st : ChildSpawnAttemptState.t) (u : SpawnUpdate)
    (now : option float) : srun ChildSpawnAttempt :=
  txn (λ t r, update_child_spawn_attempt r id st u (default t now)).

Definition with_error (error : string) : SpawnUpdate :=
  mkSpawnUpdate None None None None (Some error) [].

(** ** Arming *)

Definition arm_child_spawn (child_task_id chrome_executable : string)
    (workspace : option WorkspaceObservation) (now : option float) (max_evidence_age_s : float)
    : srun ChildSpawnAttempt :=
  ts ← time_or now;
  dispatch ← fetch_row (λ r, get_child_dispatch r child_task_id);
  protocol ← fetch_row (λ r, load_worker_protocol r child_task_id);
  let project_url := default "" (cd_web_project_url dispatch) in
  let '(project_id, project_blockers) :=
    match present_text (cd_web_project_url dispatch) with
    | None => ("", ["child dispatch has no explicit web project URL"])
    | Some url =>
        match web_project_id url with Ok id => (id, []) | Err e => ("", [exn_msg e]) end
    end in
  let chrome_executable := strip chrome_executable in
  action ← fetch_row (λ r, unresolved_action_attempt r child_task_id);
  probe ← query unresolved_probe_mutation_operation;
  replacement ← query (λ r, unresolved_replacement_attempt r child_task_id);
  spawn ← txn (λ _ r, unresolved_child_spawn_attempt r child_task_id);
  let blockers :=
    project_blockers ++
    block_if (negb (str_truthy chrome_executable)) "Google Chrome executable is required" ++
    block_if (bool_decide (is_Some (ws_current_worker_id protocol)) ||
              negb (ws_generation protocol =? 0) || negb (bool_decide (ws_workers protocol = [])))
      "automatic child-spawn is initial-worker only; task already has worker history" ++
    block_if (bool_decide (is_Some action)) "child has an unresolved external browser action" ++
    block_if (bool_decide (is_Some probe)) "a global probe-window mutation is unresolved" ++
    block_if (bool_decide (is_Some replacement)) "child has an unresolved replacement attempt" ++
    block_if (bool_decide (is_Some spawn)) "child already has an unresolved spawn attempt" ++
    _fresh_workspace dispatch workspace ts max_evidence_age_s in
  match blockers with
  | _ :: _ => lift (spawn_blocked blockers)
  | [] =>
      uuid1 ← uuid4;
      uuid2 ← uuid4;
      let attempt_id := "spawn_" +:+ str_take 16 uuid1 in
      let owner_token := attempt_id +:+ ":" +:+ str_take 16 uuid2 in
      tagged ← lift (tagged_project_url project_url owner_token);
      call (record_child_spawn_attempt
        (mkChildSpawnAttempt attempt_id child_task_id ChildSpawnAttemptState.ARMED owner_token
           project_url project_id tagged (cd_prompt_sha256 dispatch) chrome_executable ts ts
           None None None None None
           [("workspace_git_head", j_of_opt_str (workspace ≫= wo_git_head));
            ("workspace_status_hash", j_of_opt_str (workspace ≫= wo_git_status_hash));
            ("workspace_git_branch", j_of_opt_str (workspace ≫= wo_git_branch))]))
  end.

(** ** The steps of an attempt *)

Definition submit_child_spawn_open (attempt_id : string) (now : option float)
    : srun ChildSpawnAttempt :=
  attempt ← fetch_row (λ r, get_child_spawn_attempt r attempt_id);
  if negb (spawn_in ChildSpawnAttemptState.ARMED attempt)
  then lift (raise RuntimeError ("child spawn " +:+ attempt_id +:+ " is not ARMED"))
  else update_spawn attempt_id ChildSpawnAttemptState.WINDOW_OPEN_SUBMITTED no_update now.

Definition bind_child_spawn_window (attempt_id : string) (window_handle browser_pid : Z)
    (observed_url : string) (now : option float) : srun ChildSpawnAttempt :=
  attempt ← fetch_row (λ r, get_child_spawn_attempt r attempt_id);
  if negb (spawn_in ChildSpawnAttemptState.WINDOW_OPEN_SUBMITTED attempt ||
           spawn_in ChildSpawnAttemptState.RECONCILE_REQUIRED attempt)
  then lift (raise RuntimeError "child spawn is not waiting for its owned project window")
  else if (window_handle <=? 0) || (browser_pid <=? 0)
  then lift (raise ValueError "spawn window binding requires positive HWND and Chrome PID")
  else if negb (owned_project_root_matches observed_url attempt)
  then lift (spawn_blocked
    ["observed project window URL does not match the LWS ownership tag/project id"])
  else
    update_spawn attempt_id ChildSpawnAttemptState.WINDOW_BOUND
      (mkSpawnUpdate (Some window_handle) (Some browser_pid) None None None []) now.

Definition submit_child_spawn_prompt (attempt_id : string) (now : option float)
    : srun (ChildSpawnAttempt * string) :=
  attempt ← fetch_row (λ r, get_child_spawn_attempt r attempt_id);
  if negb (spawn_in ChildSpawnAttemptState.WINDOW_BOUND attempt)
  then lift (raise RuntimeError "child spawn project window is not durably bound")
  else
    dispatch ← fetch_row (λ r, get_child_dispatch r (sa_child_task_id attempt));
    if negb (String.eqb (cd_prompt_sha256 dispatch) (sa_prompt_sha256 attempt))
    then lift (spawn_blocked ["persisted child prompt changed after spawn was armed"])
    else
      submitted ← update_spawn attempt_id ChildSpawnAttemptState.PROMPT_SUBMITTED no_update now;
      mret (submitted, cd_prompt_text dispatch).

(** The conversation shown by the bound window becomes the worker of the child. *)
Definition _complete_from_bound_conversation (attempt : ChildSpawnAttempt)
    (conversation_url : string) (now lease_seconds : float) : srun ChildSpawnAttempt :=
  if negb (bool_decide (web_conversation_project_id conversation_url =
                        Some (sa_project_id attempt)))
  then lift (spawn_blocked
    ["bound window did not transition to a conversation in the expected project"])
  else
    uuid ← uuid4;
    state ← call (adopt_child_worker (sa_child_task_id attempt) conversation_url lease_seconds
                    (sa_worker_id attempt) uuid now);
    match present_text (ws_current_worker_id state) with
    | None => lift (raise RuntimeError
        "child-spawn conversation adoption did not publish a current worker")
    | Some worker_id =>
        txn (λ _ r, bind_worker_window r worker_id (default 0 (sa_window_handle attempt))
                      (default 0 (sa_browser_pid attempt)) (sa_chrome_executable attempt)
                      conversation_url "windows_uia_chrome" now (of_Z 60));;
        update_spawn (sa_attempt_id attempt) ChildSpawnAttemptState.COMPLETED
          (mkSpawnUpdate None None (Some conversation_url) (Some worker_id) None []) (Some now)
    end.

(** ** Opening the window *)

(** The call of the transport that opens or reuses a window. *)
Definition request_window (transport : ChildSpawnTransport) (submitted : ChildSpawnAttempt)
    (source : window_source) : srun ChildSpawnExecution :=
  ask (λ n,
    match source with
    | NewWindow => open_authorized transport n submitted
    | WorkerWindow worker binding => reuse_authorized transport n submitted worker binding
    | SpawnWindow old => reuse_completed_spawn_authorized transport n submitted old
    end) (λ r a, [WindowRequested r submitted source a]).

Definition recycled_to (attempt_id : string) : dict := [("window_recycled_to", JStr attempt_id)].

(** [_spawn_page_unconsumed] of child_batch.py, inlined in the loop below. *)
Definition _spawn_page_unconsumed (a : ChildSpawnAttempt) : bool :=
  negb (jtruthy (dget "window_recycled_to" (sa_metadata a)) ||
        jtruthy (dget "window_closed_at" (sa_metadata a))).

(** The completed attempt through which the worker got its window. *)
Definition window_of_worker (worker : WorkerRecord) (binding : WorkerWindowBinding)
    (a : ChildSpawnAttempt) : bool :=
  spawn_in ChildSpawnAttemptState.COMPLETED a &&
  bool_decide (sa_worker_id a = Some (wr_worker_id worker)) &&
  bool_decide (sa_window_handle a = Some (wb_window_handle binding)) &&
  bool_decide (sa_browser_pid a = Some (wb_browser_pid binding)) &&
  _spawn_page_unconsumed a.

(** The record of the window that was reused. *)
Definition mark_recycled (source : window_source) (attempt_id : string) (ts : float) : srun unit :=
  match source with
  | NewWindow => mret tt
  | SpawnWindow old =>
      try_except
        (txn (λ _ r, annotate_child_spawn_attempt r (sa_attempt_id old) (recycled_to attempt_id) ts);;
         mret tt)
        (λ e, if bool_decide (exn_type e = KeyError) then mret tt else lift (Err e))
  | WorkerWindow worker binding =>
      attempts ← query (λ r, child_spawn_attempts r (wr_task_id worker) 50);
      match next_where (window_of_worker worker binding) attempts with
      | Some a =>
          txn (λ _ r, annotate_child_spawn_attempt r (sa_attempt_id a) (recycled_to attempt_id) ts);;
          mret tt
      | None => mret tt
      end;;
      txn (λ _ r, Ok (clear_worker_window_binding r (wr_worker_id worker)));;
      mret tt
  end.

(** The arguments [source_worker], [source_binding] and [source_spawn] as a source. *)
Definition source_of (source_worker : option WorkerRecord)
    (source_binding : option WorkerWindowBinding) (source_spawn : option ChildSpawnAttempt)
    : res window_source :=
  match source_worker, source_binding, source_spawn with
  | Some _, None, _ => spawn_blocked ["reused worker requires its exact window binding"]
  | None, Some _, _ => spawn_blocked ["reused window binding requires its worker identity"]
  | Some _, Some _, Some _ =>
      spawn_blocked ["choose either a current worker source or a completed-spawn source"]
  | Some worker, Some binding, None => Ok (WorkerWindow worker binding)
  | None, None, Some old => Ok (SpawnWindow old)
  | None, None, None => Ok NewWindow
  end.

(** The window that an answer identifies. *)
Definition found_window (x : ChildSpawnExecution) : option (Z * Z * string) :=
  match nonzero (ce_window_handle x), nonzero (ce_browser_pid x), present_text (ce_url x) with
  | Some handle, Some pid, Some url => Some (handle, pid, url)
  | _, _, _ => None
  end.

Definition execute_child_spawn_open (attempt_id : string) (transport : ChildSpawnTransport)
    (source_worker : option WorkerRecord) (source_binding : option WorkerWindowBinding)
    (source_spawn : option ChildSpawnAttempt) (now : option float) : srun ChildSpawnAttempt :=
  source ← lift (source_of source_worker source_binding source_spawn);
  submitted ← submit_child_spawn_open attempt_id now;
  result ← request_window transport submitted source;
  ts ← time_or now;
  match found_window result with
  | Some (handle, pid, url) =>
      bound ← bind_child_spawn_window attempt_id handle pid url (Some ts);
      mark_recycled source attempt_id ts;;
      mret bound
  | None =>
      if ce_side_effect_possible result
      then update_spawn attempt_id ChildSpawnAttemptState.RECONCILE_REQUIRED
             (with_error (ce_detail result)) (Some ts)
      else update_spawn attempt_id ChildSpawnAttemptState.FAILED
             (with_error (ce_detail result)) (Some ts)
  end.

(** ** Sending the prompt *)

Definition _WEB_CHILD_DISPATCH_COOLDOWN : string := "web_child_dispatch".

Definition in_project (a : ChildSpawnAttempt) (url : option string) : option string :=
  match present_text url with
  | Some u =>
      if bool_decide (web_conversation_project_id u = Some (sa_project_id a)) then Some u else None
  | None => None
  end.

Definition send_prompt (transport : ChildSpawnTransport) (submitted : ChildSpawnAttempt)
    (prompt : string) : srun ChildSpawnExecution :=
  ask (λ n, send_authorized transport n submitted prompt)
      (λ r a, [PromptSent r submitted prompt a]).

Definition invoke_draft (transport : ChildSpawnTransport) (submitted : ChildSpawnAttempt)
    (prompt url : string) : srun ChildSpawnExecution :=
  ask (λ n, invoke_existing_draft_authorized transport n submitted prompt url)
      (λ r a, [DraftInvoked r submitted prompt url a]).

Definition observe_delivery
    (wait : nat → ChildSpawnAttempt → string → res ChildSpawnDeliveryObservation)
    (submitted : ChildSpawnAttempt) (prompt : string) : srun ChildSpawnDeliveryObservation :=
  ask (λ n, wait n submitted prompt) (λ r a, [DeliveryObserved r submitted a]).

(** The address at which a prompt was seen delivered. *)
Definition delivered_at (a : ChildSpawnAttempt) (o : ChildSpawnDeliveryObservation)
    : option string :=
  if co_delivered o then in_project a (Some (co_url o)) else None.

Definition to_reconcile (attempt_id detail : string) (ts : float) : srun ChildSpawnAttempt :=
  update_spawn attempt_id ChildSpawnAttemptState.RECONCILE_REQUIRED (with_error detail) (Some ts).

Definition undelivered (attempt_id : string) (o : ChildSpawnDeliveryObservation) (ts : float)
    : srun ChildSpawnAttempt :=
  to_reconcile attempt_id
    (or_text (co_detail o)
       "conversation route exists but prompt delivery was not positively observed") ts.

(** The one second-stage click on a draft that the first one left in place. *)
Definition second_send (attempt_id : string) (transport : ChildSpawnTransport)
    (wait : nat → ChildSpawnAttempt → string → res ChildSpawnDeliveryObservation)
    (prompt url : string) (ts lease_seconds : float) : srun ChildSpawnAttempt :=
  submitted ← update_spawn attempt_id ChildSpawnAttemptState.PROMPT_SUBMITTED
    (mkSpawnUpdate None None None None None
       [("delivery_second_send_used", JBool true); ("delivery_second_send_url", JStr url)])
    (Some ts);
  second ← invoke_draft transport submitted prompt url;
  if negb (ce_submitted second) then to_reconcile attempt_id (ce_detail second) ts
  else
    delivery ← observe_delivery wait submitted prompt;
    match delivered_at submitted delivery with
    | Some url => _complete_from_bound_conversation submitted url ts lease_seconds
    | None => undelivered attempt_id delivery ts
    end.

(** The draft that may be invoked once more: it is still there, ready to be sent, and was not
    invoked before. *)
Definition second_send_url (a : ChildSpawnAttempt) (o : ChildSpawnDeliveryObservation)
    : option string :=
  if co_prompt_matches_draft o && co_send_button_ready o &&
     negb (jtruthy (dget "delivery_second_send_used" (sa_metadata a)))
  then in_project a (Some (co_url o)) else None.

(** What follows a send that was submitted. *)
Definition confirm_delivery (attempt_id : string) (transport : ChildSpawnTransport)
    (submitted : ChildSpawnAttempt) (prompt : string) (ts lease_seconds : float)
    : srun ChildSpawnAttempt :=
  transition ← ask (λ n, wait_for_conversation transport n submitted)
                   (λ r a, [RouteObserved r submitted a]);
  match in_project submitted (ce_url transition) with
  | None => to_reconcile attempt_id (ce_detail transition) ts
  | Some url =>
      match wait_for_delivery transport with
      | None => _complete_from_bound_conversation submitted url ts lease_seconds
      | Some wait =>
          delivery ← observe_delivery wait submitted prompt;
          match delivered_at submitted delivery, second_send_url submitted delivery with
          | Some url, _ => _complete_from_bound_conversation submitted url ts lease_seconds
          | None, Some url =>
              second_send attempt_id transport wait prompt url ts lease_seconds
          | None, None => undelivered attempt_id delivery ts
          end
      end
  end.

(** The global pause after a rate limit. *)
Definition pause_dispatch (attempt_id : string) (modal_dismissed : bool)
    (ts rate_limit_cooldown_s : float) : srun ChildSpawnAttempt :=
  let cooldown_s := fmax (of_Z 5) (fmin rate_limit_cooldown_s (of_Z 900)) in
  let until_at := fadd ts cooldown_s in
  txn (λ _ r, set_runtime_cooldown r _WEB_CHILD_DISPATCH_COOLDOWN until_at
                "ChatGPT Too many requests modal"
                (Some [("modal_dismissed", JBool modal_dismissed)]) ts);;
  update_spawn attempt_id ChildSpawnAttemptState.WINDOW_BOUND
    (mkSpawnUpdate None None None None
       (Some ("rate-limit modal " +:+ (if modal_dismissed then "dismissed" else "observed") +:+
              "; global child dispatch cooldown for " +:+ format_f0 cooldown_s +:+ "s"))
       [("cooldown_until", JFloat until_at);
        ("rate_limit_modal_dismissed", JBool modal_dismissed)])
    (Some ts).

(** The send under the write-ahead state PROMPT_SUBMITTED, and what its answer means. *)
Definition send_submitted (attempt_id : string) (transport : ChildSpawnTransport)
    (submitted : ChildSpawnAttempt) (prompt : string)
    (lease_seconds rate_limit_cooldown_s ts : float) : srun ChildSpawnAttempt :=
  result ← send_prompt transport submitted prompt;
  if ce_rate_limited result
  then pause_dispatch attempt_id (ce_modal_dismissed result) ts rate_limit_cooldown_s
  else if negb (ce_submitted result) then
    if ce_side_effect_possible result then to_reconcile attempt_id (ce_detail result) ts
    else update_spawn attempt_id ChildSpawnAttemptState.WINDOW_BOUND
           (with_error (ce_detail result)) (Some ts)
  else confirm_delivery attempt_id transport submitted prompt ts lease_seconds.

(** No child is sent while the global pause lasts. *)
Definition execute_child_spawn_prompt (attempt_id : string) (transport : ChildSpawnTransport)
    (lease_seconds rate_limit_cooldown_s : float) (now : option float) : srun ChildSpawnAttempt :=
  ts ← time_or now;
  attempt ← fetch_row (λ r, get_child_spawn_attempt r attempt_id);
  cooldown ← fetch_row (λ r, get_runtime_cooldown r _WEB_CHILD_DISPATCH_COOLDOWN);
  match cooldown ≫= λ c, if flt ts (cl_until_at c) then Some c else None with
  | Some c =>
      let remaining := fmax (of_Z 0) (fsub (cl_until_at c) ts) in
      update_spawn attempt_id (sa_state attempt)
        (mkSpawnUpdate None None None None
           (Some ("global web child-dispatch cooldown active for " +:+ format_f1 remaining +:+
                  "s: " +:+ cl_reason c))
           [("cooldown_until", JFloat (cl_until_at c))])
        (Some ts)
  | None =>
      sent ← submit_child_spawn_prompt attempt_id (Some ts);
      send_submitted attempt_id transport sent.1 sent.2 lease_seconds rate_limit_cooldown_s ts
  end.

(** ** Reconciliation *)

Definition reconcile_child_spawn (attempt_id : string) (transport : ChildSpawnTransport)
    (lease_seconds : float) (now : option float) : srun ChildSpawnAttempt :=
  attempt ← fetch_row (λ r, get_child_spawn_attempt r attempt_id);
  ts ← time_or now;
  let ambiguous :=
    to_reconcile attempt_id "child-spawn outcome remains ambiguous; do not open/send again" ts in
  if spawn_in ChildSpawnAttemptState.COMPLETED attempt then mret attempt
  else if spawn_in ChildSpawnAttemptState.WINDOW_OPEN_SUBMITTED attempt ||
          (spawn_in ChildSpawnAttemptState.RECONCILE_REQUIRED attempt &&
           negb (bool_decide (is_Some (nonzero (sa_window_handle attempt)))))
  then
    observed ← ask (λ n, observe_owned_project transport n attempt) unlogged;
    match found_window observed with
    | Some (handle, pid, url) => bind_child_spawn_window attempt_id handle pid url (Some ts)
    | None =>
        if spawn_in ChildSpawnAttemptState.RECONCILE_REQUIRED attempt then mret attempt
        else to_reconcile attempt_id (ce_detail observed) ts
    end
  else
    match nonzero (sa_window_handle attempt), nonzero (sa_browser_pid attempt) with
    | Some _, Some _ =>
        observed ← ask (λ n, _observe_bound_url transport n attempt)
                       (λ r a, [RouteObserved r attempt a]);
        match in_project attempt (ce_url observed), present_text (ce_url observed) with
        | Some url, _ => _complete_from_bound_conversation attempt url ts lease_seconds
        | None, Some url => if owned_project_root_matches url attempt then mret attempt else ambiguous
        | None, None => ambiguous
        end
    | _, _ => ambiguous
    end.

End ChildSpawn.
