(* ===== verification/ChildBatch.v ===== *)
(** * child_batch.py: advancing the children of a parent

    One call takes every persisted child of a parent as far as it can go: it stops before any
    external effect when one outcome is unresolved, opens at most [max_windows] windows, and
    reuses a window only after its child is durably bound or finished.  The report is threaded
    through the program; a [_stop] returns it early. *)

From stdpp Require Import pretty.
From S2P Require Import Prelude PyFloat PyStr PyUrl PyJson Models ProjectUrl.
From S2P Require Import WorkerProtocol Registry AttemptTables Persistence ProbeOps Reconcile Actions.
From S2P Require Import Leases Programs Spawns Replacement ChildDispatch Workers Runs ChildSpawn.

Open Scope string_scope.
Open Scope Z_scope.
Open Scope list_scope.

Record ChildBatchEvent := mkChildBatchEvent {
  be_child_task_id : string;
  be_action : string;
  be_detail : string;
  be_attempt_id : option string;
  be_source_child_task_id : option string;
  be_window_handle : option Z;
}.

Record ChildBatchReport := mkChildBatchReport {
  br_parent_task_id : string;
  br_max_windows : Z;
  br_total_children : nat;
  br_dispatched_children : nat;
  br_bound_session_children : nat;
  br_pending_children : nat;
  br_pool_windows : nat;
  br_waiting_for_binding : list string;
  br_stopped : bool;
  br_stop_reason : option string;
  br_events : list ChildBatchEvent;
}.

#[export] Instance eta_ChildBatchReport : Eta ChildBatchReport := λ r,
  mkChildBatchReport (br_parent_task_id r) (br_max_windows r) (br_total_children r)
    (br_dispatched_children r) (br_bound_session_children r) (br_pending_children r)
    (br_pool_windows r) (br_waiting_for_binding r) (br_stopped r) (br_stop_reason r)
    (br_events r).

(** A window whose child no longer needs it. *)
Record _ReusableWindow := mkReusableWindow {
  rw_child_task_id : string;
  rw_terminal : bool;
  rw_worker : option WorkerRecord;
  rw_binding : option WorkerWindowBinding;
  rw_source_spawn : option ChildSpawnAttempt;
}.

(** [_AMBIGUOUS_STATES] *)
Definition ambiguous_state (s : ChildSpawnAttemptState.t) : bool :=
  match s with
  | ChildSpawnAttemptState.WINDOW_OPEN_SUBMITTED | ChildSpawnAttemptState.PROMPT_SUBMITTED
  | ChildSpawnAttemptState.RECONCILE_REQUIRED => true
  | _ => false
  end.

Definition _window_key (window_handle browser_pid : option Z) : option (Z * Z) :=
  match nonzero window_handle, nonzero browser_pid with
  | Some handle, Some pid => Some (handle, pid)
  | _, _ => None
  end.

(** ** The pool of windows *)

Record pool := mkPool {
  pl_windows : gset (Z * Z);
  pl_reusable : list _ReusableWindow;
  pl_waiting : list string;
}.

#[export] Instance eta_pool : Eta pool := λ p,
  mkPool (pl_windows p) (pl_reusable p) (pl_waiting p).

Definition add_window (key : Z * Z) (p : pool) : pool :=
  p <| pl_windows := {[key]} ∪ pl_windows p |>.

Definition task_completed (t : TaskRecord) : bool :=
  bool_decide (tr_state t = SupervisorState.COMPLETED).

(** The page of the current worker of a child. *)
Definition pool_binding (p : pool) (child : string) (task : TaskRecord) (worker : WorkerRecord)
    (binding : WorkerWindowBinding) : pool :=
  let p := add_window (wb_window_handle binding, wb_browser_pid binding) p in
  if task_completed task || opt_truthy (tr_lsm_session_id task)
  then p <| pl_reusable := pl_reusable p ++
              [mkReusableWindow child (task_completed task) (Some worker) (Some binding) None] |>
  else p <| pl_waiting := pl_waiting p ++ [child] |>.

(** The order of two completed attempts that used one window. *)
Definition attempt_newer (a b : ChildSpawnAttempt) : bool :=
  if negb (feq (sa_updated_at a) (sa_updated_at b)) then flt (sa_updated_at b) (sa_updated_at a)
  else if negb (feq (sa_created_at a) (sa_created_at b))
  then flt (sa_created_at b) (sa_created_at a)
  else negb (String.leb (sa_attempt_id a) (sa_attempt_id b)).

Definition latest := list ((Z * Z) * ChildSpawnAttempt).

(** [d[key] = attempt] when it is newer; a dict keeps the place of a key. *)
Fixpoint put_latest (key : Z * Z) (a : ChildSpawnAttempt) (d : latest) : latest :=
  match d with
  | [] => [(key, a)]
  | (k, b) :: d' =>
      if bool_decide (k = key) then (if attempt_newer a b then (k, a) else (k, b)) :: d'
      else (k, b) :: put_latest key a d'
  end.

(** The window of a completed attempt whose page nobody took over. *)
Definition completed_window (a : ChildSpawnAttempt) : option (Z * Z) :=
  if negb (spawn_in ChildSpawnAttemptState.COMPLETED a) || negb (_spawn_page_unconsumed a)
  then None
  else key ← _window_key (sa_window_handle a) (sa_browser_pid a);
       if opt_truthy (sa_conversation_url a) then Some key else None.

Definition note_completed (d : latest) (a : ChildSpawnAttempt) : latest :=
  match completed_window a with Some key => put_latest key a d | None => d end.

(** [{child: index for index, child in enumerate(ids)}[child]] *)
Definition child_index (ids : list string) (child : string) : nat :=
  List.fold_left (λ found ix, if String.eqb ix.2 child then ix.1 else found)
    (imap pair ids) O.

(** [(not item.terminal, order[item.child_task_id])] *)
Definition reusable_leb (ids : list string) (x y : _ReusableWindow) : bool :=
  if eqb (rw_terminal x) (rw_terminal y)
  then Nat.leb (child_index ids (rw_child_task_id x)) (child_index ids (rw_child_task_id y))
  else rw_terminal x.

Section Pool.
Context {env : RunEnv Registry}.

Definition survey_child (p : pool) (child : string) : srun pool :=
  task ← fetch_row (λ r, get_task r child);
  p ← match present_text (tr_current_worker_id task) with
      | None => mret p
      | Some id =>
          worker ← fetch_row (λ r, get_worker r id);
          binding ← txn (λ now r,
            Ok (r, get_worker_window_binding r (wr_worker_id worker) now false));
          mret (match binding with
                | None => p
                | Some b => pool_binding p child task worker b
                end)
      end;
  unresolved ← txn (λ _ r, unresolved_child_spawn_attempt r child);
  mret (match unresolved ≫= λ a, _window_key (sa_window_handle a) (sa_browser_pid a) with
        | Some key => add_window key p
        | None => p
        end).

(** A completed attempt is the last durable identity of the page of a finished child. *)
Definition survey_completed (p : pool) (entry : (Z * Z) * ChildSpawnAttempt) : srun pool :=
  let '(key, a) := entry in
  if bool_decide (key ∈ pl_windows p) then mret p
  else
    task ← fetch_row (λ r, get_task r (sa_child_task_id a));
    mret (if negb (task_completed task) then p
          else let p := add_window key p in
               p <| pl_reusable := pl_reusable p ++
                      [mkReusableWindow (sa_child_task_id a) true None None (Some a)] |>).

Definition _pool_snapshot (ids : list string) : srun pool :=
  p ← fold_run survey_child (mkPool ∅ [] []) ids;
  d ← fold_run (λ d child,
         attempts ← query (λ r, child_spawn_attempts r child 50);
         mret (foldl note_completed d attempts)) ([] : latest) ids;
  p ← fold_run survey_completed p d;
  mret (p <| pl_reusable := py_sorted (reusable_leb ids) (pl_reusable p) |>).

End Pool.

(** ** The report *)

Definition say (report : ChildBatchReport) (e : ChildBatchEvent) : ChildBatchReport :=
  report <| br_events := br_events report ++ [e] |>.

Definition _stop (report : ChildBatchReport) (child reason action : string)
    (attempt : option ChildSpawnAttempt) : ChildBatchReport :=
  say (report <| br_stopped := true |> <| br_stop_reason := Some reason |>)
    (mkChildBatchEvent child action reason (sa_attempt_id <$> attempt) None
       (attempt ≫= sa_window_handle)).

(** [if child not in report.waiting_for_binding: report.waiting_for_binding.append(child)] *)
Definition add_waiting (report : ChildBatchReport) (child : string) : ChildBatchReport :=
  if existsb (String.eqb child) (br_waiting_for_binding report) then report
  else report <| br_waiting_for_binding := br_waiting_for_binding report ++ [child] |>.

(** [ids.index(child)] of a child of the batch *)
Fixpoint first_index (ids : list string) (child : string) : nat :=
  match ids with
  | [] => O
  | id :: ids' => if String.eqb id child then O else S (first_index ids' child)
  end.

Section Report.
Context {env : RunEnv Registry}.

(** [sum(1 for child in ids if p(child))] *)
Definition count_children (p : string → srun bool) (ids : list string) : srun nat :=
  fold_run (λ n child, b ← p child; mret (if (b : bool) then S n else n)) O ids.

Definition dispatched_child (child : string) : srun bool :=
  task ← fetch_row (λ r, get_task r child);
  if task_completed task then mret true
  else
    protocol ← fetch_row (λ r, load_worker_protocol r child);
    mret (0 <? ws_generation protocol).

Definition bound_child (child : string) : srun bool :=
  task ← fetch_row (λ r, get_task r child);
  mret (opt_truthy (tr_lsm_session_id task)).

Definition pending_child (child : string) : srun bool :=
  task ← fetch_row (λ r, get_task r child);
  if task_completed task then mret false
  else
    task ← fetch_row (λ r, get_task r child);
    mret (negb (bool_decide (is_Some (tr_current_worker_id task)))).

Definition _refresh_counts (ids : list string) (report : ChildBatchReport)
    : srun ChildBatchReport :=
  p ← _pool_snapshot ids;
  let report := foldl add_waiting (report <| br_pool_windows := size (pl_windows p) |>)
                  (pl_waiting p) in
  let report := report <| br_waiting_for_binding :=
    py_sorted (λ x y, Nat.leb (first_index ids x) (first_index ids y))
      (br_waiting_for_binding report) |> in
  dispatched ← count_children dispatched_child ids;
  bound ← count_children bound_child ids;
  pending ← count_children pending_child ids;
  mret (report <| br_dispatched_children := dispatched |>
               <| br_bound_session_children := bound |>
               <| br_pending_children := pending |>).

End Report.

(** ** Advancing the batch *)

Section Batch.
Context {tables : UnicodeTables} {check : NetlocCheck} {digests : Digests}.
Context {formatting : Formatting} {env : RunEnv Registry} {uuids : Uuids}.

(** [workspace_loader] and [transport_factory] *)
Context (workspace_loader : nat → string → res WorkspaceObservation).
Context (transport_factory : string → ChildSpawnTransport).

Definition unresolved_reason (what id state : string) : string :=
  "child has unresolved " +:+ what +:+ " " +:+ id +:+ " in " +:+ state +:+
  "; reconcile before batch dispatch".

(** The check of one child before any external effect. *)
Definition preflight_child (report : ChildBatchReport) (child : string)
    : srun (ChildBatchReport + ChildBatchReport) :=
  let stop reason attempt := mret (inl (_stop report child reason "ambiguous_stop" attempt)) in
  action ← fetch_row (λ r, unresolved_action_attempt r child);
  match action with
  | Some a =>
      stop (unresolved_reason "external action" (aa_attempt_id a)
              (ActionAttemptState.value (aa_state a))) None
  | None =>
      replacement ← query (λ r, unresolved_replacement_attempt r child);
      match replacement with
      | Some a =>
          stop (unresolved_reason "replacement" (ra_attempt_id a)
                  (ReplacementAttemptState.value (ra_state a))) None
      | None =>
          unresolved ← txn (λ _ r, unresolved_child_spawn_attempt r child);
          match unresolved with
          | Some a =>
              if ambiguous_state (sa_state a)
              then stop (unresolved_reason "spawn" (sa_attempt_id a)
                           (ChildSpawnAttemptState.value (sa_state a))) (Some a)
              else mret (inr report)
          | None => mret (inr report)
          end
      end
  end.

(** [except ChildSpawnBlocked as exc: return _stop(...)]; any other exception is raised. *)
Definition stop_blocked {A} (report : ChildBatchReport) (child action : string)
    (attempt : option ChildSpawnAttempt) (m : srun A) : srun (ChildBatchReport + A) :=
  try_except (inr <$> m) (λ e,
    if bool_decide (exn_type e = ChildSpawnBlocked)
    then mret (inl (_stop report child (exn_msg e) action attempt))
    else lift (Err e)).

Definition or_state (prefix : string) (a : ChildSpawnAttempt) : string :=
  match present_text (sa_last_error a) with
  | Some error => error
  | None => prefix +:+ ChildSpawnAttemptState.value (sa_state a)
  end.

(** Where the next window comes from, and how the report names it; [None] when the pool is
    full. *)
Definition choose_source (p : pool) (max_windows : Z) (child : string)
    : option (window_source * option (string * string)) :=
  let open_new :=
    if Z.of_nat (size (pl_windows p)) <? max_windows then Some (NewWindow, None) else None in
  match next_where (λ w, negb (String.eqb (rw_child_task_id w) child)) (pl_reusable p) with
  | None => open_new
  | Some w =>
      match rw_worker w, rw_binding w, rw_source_spawn w with
      | Some worker, Some binding, _ =>
          Some (WorkerWindow worker binding,
                Some (rw_child_task_id w,
                      if rw_terminal w then "terminal completion" else "durable LSM binding"))
      | _, _, Some old =>
          Some (SpawnWindow old, Some (rw_child_task_id w, "terminal completed-spawn record"))
      | _, _, None => open_new
      end
  end.

Definition open_event (child : string) (from : option (string * string))
    (opened : ChildSpawnAttempt) : ChildBatchEvent :=
  match from with
  | None =>
      mkChildBatchEvent child "opened_window"
        "opened one new dispatcher window within the configured pool bound"
        (Some (sa_attempt_id opened)) None (sa_window_handle opened)
  | Some (source, kind) =>
      mkChildBatchEvent child "reused_window"
        ("reused exact HWND from " +:+ source +:+ " after " +:+ kind)
        (Some (sa_attempt_id opened)) (Some source) (sa_window_handle opened)
  end.

Definition execute_open (attempt : ChildSpawnAttempt) (source : window_source)
    : srun ChildSpawnAttempt :=
  let transport := transport_factory (sa_chrome_executable attempt) in
  let id := sa_attempt_id attempt in
  match source with
  | NewWindow => execute_child_spawn_open id transport None None None None
  | WorkerWindow worker binding =>
      execute_child_spawn_open id transport (Some worker) (Some binding) None None
  | SpawnWindow old => execute_child_spawn_open id transport None None (Some old) None
  end.

(** The part of an ARMED attempt: open or reuse a window. *)
Definition open_child (ids : list string) (max_windows : Z) (report : ChildBatchReport)
    (child : string) (attempt : ChildSpawnAttempt)
    : srun (ChildBatchReport + (ChildBatchReport * ChildSpawnAttempt)) :=
  p ← _pool_snapshot ids;
  let report := foldl add_waiting (report <| br_pool_windows := size (pl_windows p) |>)
                  (pl_waiting p) in
  match choose_source p max_windows child with
  | None =>
      let n := Z.of_nat (size (pl_windows p)) in
      report ← _refresh_counts ids (say report
        (mkChildBatchEvent child "pool_wait"
           ("dispatcher pool is full (" +:+ pretty n +:+ "/" +:+ pretty max_windows +:+
            "); waiting for an existing child to bind a durable LSM session")
           (Some (sa_attempt_id attempt)) None None));
      mret (inl report)
  | Some (source, from) =>
      opened ← stop_blocked report child "open_blocked" (Some attempt)
                 (execute_open attempt source);
      match opened with
      | inl report => mret (inl report)
      | inr opened =>
          let report := say report (open_event child from opened) in
          let stop action :=
            mret (inl (_stop report child (or_state "open ended in " opened) action
                         (Some opened))) in
          if ambiguous_state (sa_state opened) then stop "ambiguous_stop"
          else if negb (spawn_in ChildSpawnAttemptState.WINDOW_BOUND opened)
          then stop "open_failed"
          else mret (inr (report, opened))
      end
  end.

(** The part of a WINDOW_BOUND attempt: send the prompt. *)
Definition send_child (lease_seconds : float) (report : ChildBatchReport) (child : string)
    (attempt : ChildSpawnAttempt) : srun (ChildBatchReport + ChildBatchReport) :=
  sent ← stop_blocked report child "send_blocked" (Some attempt)
    (execute_child_spawn_prompt (sa_attempt_id attempt)
       (transport_factory (sa_chrome_executable attempt)) lease_seconds (of_Z 120) None);
  match sent with
  | inl report => mret (inl report)
  | inr sent =>
      let completed := spawn_in ChildSpawnAttemptState.COMPLETED sent in
      let report := say report
        (mkChildBatchEvent child (if completed then "sent" else "send_incomplete")
           (default "persisted child prompt delivered to the exact bound conversation"
              (present_text (sa_last_error sent)))
           (Some (sa_attempt_id sent)) None (sa_window_handle sent)) in
      let stop action :=
        mret (inl (_stop report child (or_state "send ended in " sent) action (Some sent))) in
      if ambiguous_state (sa_state sent) then stop "ambiguous_stop"
      else if negb completed then stop "send_paused"
      else
        task ← fetch_row (λ r, get_task r child);
        mret (inr (if opt_truthy (tr_lsm_session_id task) then report
                   else report <| br_waiting_for_binding :=
                          br_waiting_for_binding report ++ [child] |>))
  end.

(** The attempt of a child: the unresolved one, or a new one. *)
Definition arm_child (chrome_executable : string) (max_evidence_age_s : float)
    (report : ChildBatchReport) (child : string)
    : srun (ChildBatchReport + (ChildBatchReport * ChildSpawnAttempt)) :=
  unresolved ← txn (λ _ r, unresolved_child_spawn_attempt r child);
  match unresolved with
  | Some attempt => mret (inr (report, attempt))
  | None =>
      armed ← stop_blocked report child "arm_blocked" None
        (workspace ← ask (λ n, workspace_loader n child) unlogged;
         arm_child_spawn child chrome_executable (Some workspace) None max_evidence_age_s);
      mret (match armed with
            | inl report => inl report
            | inr attempt =>
                inr (say report
                  (mkChildBatchEvent child "armed"
                     "spawn authority persisted; no browser mutation yet"
                     (Some (sa_attempt_id attempt)) None None), attempt)
            end)
  end.

Definition advance_child (ids : list string) (max_windows : Z) (chrome_executable : string)
    (lease_seconds max_evidence_age_s : float) (report : ChildBatchReport) (child : string)
    : srun (ChildBatchReport + ChildBatchReport) :=
  let note report action detail :=
    say report (mkChildBatchEvent child action detail None None None) in
  task ← fetch_row (λ r, get_task r child);
  if task_completed task
  then mret (inr (note report "terminal" "child is already durably completed"))
  else if opt_truthy (tr_current_worker_id task) then
    mret (inr
      (if opt_truthy (tr_lsm_session_id task)
       then note report "session_bound" "child worker is durable; its exact page may be recycled"
       else note (add_waiting report child) "awaiting_lsm_binding"
              "child keeps its page until a durable LSM session is bound"))
  else
    armed ← arm_child chrome_executable max_evidence_age_s report child;
    match armed with
    | inl report => mret (inl report)
    | inr (report, attempt) =>
        opened ←
          (if spawn_in ChildSpawnAttemptState.ARMED attempt
           then open_child ids max_windows report child attempt
           else mret (inr (report, attempt)));
        match opened with
        | inl report => mret (inl report)
        | inr (report, attempt) =>
            if spawn_in ChildSpawnAttemptState.WINDOW_BOUND attempt
            then send_child lease_seconds report child attempt
            else mret (inr report)
        end
    end.

(** ** Closing the pages of finished children *)

(** [result.changed or (not result.side_effect_possible and "already absent" in detail)] *)
Definition page_gone (x : ChildSpawnExecution) : bool :=
  ce_changed x ||
  (negb (ce_side_effect_possible x) && str_contains "already absent" (ce_detail x)).

Definition close_window (w : _ReusableWindow) (close : nat → res ChildSpawnExecution)
    (forget : srun unit) (window_handle : option Z) (report : ChildBatchReport)
    : srun (ChildBatchReport + ChildBatchReport) :=
  let child := rw_child_task_id w in
  result ← ask close (λ r a, [WindowClosed r child a]);
  if negb (page_gone result) then
    mret (inl (_stop report child
      (or_text (ce_detail result) "terminal page close could not be proven safe")
      "terminal_close_stop" None))
  else
    forget;;
    mret (inr (say report
      (mkChildBatchEvent child "closed_terminal_window"
         (or_text (ce_detail result) "closed exact terminal child window") None None
         window_handle))).

Definition close_terminal (report : ChildBatchReport) (w : _ReusableWindow)
    : srun (ChildBatchReport + ChildBatchReport) :=
  match rw_worker w, rw_binding w, rw_source_spawn w with
  | Some worker, Some binding, _ =>
      close_window w
        (λ n, close_worker_binding_authorized
                (transport_factory (wb_chrome_executable binding)) n worker binding)
        (txn (λ _ r, Ok (clear_worker_window_binding r (wr_worker_id worker)));; mret tt)
        (Some (wb_window_handle binding)) report
  | _, _, Some old =>
      close_window w
        (λ n, close_completed_spawn_authorized
                (transport_factory (sa_chrome_executable old)) n old)
        (closed_at ← clock;
         txn (λ now r, annotate_child_spawn_attempt r (sa_attempt_id old)
                         [("window_closed_at", JFloat closed_at)] now);; mret tt)
        (sa_window_handle old) report
  | _, _, None => mret (inr report)
  end.

Definition empty_report (parent : string) (max_windows : Z) (total : nat) : ChildBatchReport :=
  mkChildBatchReport parent max_windows total 0 0 0 0 [] false None [].

Definition from_either {A} (x : A + A) : A := match x with inl a => a | inr a => a end.

(** The children after the preflight, and then the pages of the finished ones. *)
Definition advance_children (ids : list string) (max_windows : Z) (chrome_executable : string)
    (lease_seconds max_evidence_age_s : float) (close_terminal_pages : bool)
    (report : ChildBatchReport) : srun ChildBatchReport :=
  advanced ← loop (advance_child ids max_windows chrome_executable lease_seconds
                     max_evidence_age_s) report ids;
  match advanced with
  | inl report => mret report
  | inr report =>
      report ← _refresh_counts ids report;
      if negb (close_terminal_pages && Nat.eqb (br_pending_children report) 0) then mret report
      else
        p ← _pool_snapshot ids;
        closed ← loop close_terminal report (List.filter rw_terminal (pl_reusable p));
        match closed with
        | inl report => mret report
        | inr report => _refresh_counts ids report
        end
  end.

Definition advance_child_dispatch_batch (parent_task_id : string) (max_windows : Z)
    (chrome_executable : string) (lease_seconds max_evidence_age_s : float)
    (close_terminal_pages : bool) : srun ChildBatchReport :=
  if (max_windows <=? 0) || (16 <? max_windows)
  then lift (raise ValueError "max_windows must be between 1 and 16")
  else if fle lease_seconds (of_Z 0)
  then lift (raise ValueError "lease_seconds must be positive")
  else
    dispatches ← query (λ r, child_dispatches_for_parent r parent_task_id);
    let ids := cd_child_task_id <$> dispatches in
    let report := empty_report parent_task_id max_windows (length dispatches) in
    probe ← query unresolved_probe_mutation_operation;
    match probe with
    | Some o =>
        mret (_stop report parent_task_id
          ("global probe mutation " +:+ po_operation_id o +:+
           " is unresolved; reconcile before batch dispatch") "ambiguous_stop" None)
    | None =>
        checked ← loop preflight_child report ids;
        match checked with
        | inl report => mret report
        | inr report =>
            advance_children ids max_windows chrome_executable lease_seconds
              max_evidence_age_s close_terminal_pages report
        end
    end.

End Batch.
