(* ===== verification/SpawnSteps.v ===== *)
(** * The invariant of the child spawns

    What the log of the spawn programs and the rows of their attempts have to do with each
    other: which state of a row allows which call, and which calls a state is the record of.
    Every program keeps the invariant, whatever the transport answers, wherever it is killed,
    and whatever the other processes do to the rest of the database. *)

From S2P Require Import Prelude PyFloat PyStr PyUrl PyJson Models ProjectUrl.
From S2P Require Import WorkerProtocol WorkerProtocolFacts WorkerProtocolSteps.
From S2P Require Import WorkerProtocolReach Registry Persistence PersistenceFacts.
From S2P Require Import PersistenceTheorems ProbeOps AttemptTables Reconcile Actions Leases.
From S2P Require Import Programs Spawns Replacement ChildDispatch Workers Runs ChildSpawn.

Open Scope string_scope.
Open Scope Z_scope.
Open Scope list_scope.

(** ** The calls of an attempt *)

(** An answer after which the prompt may be sent once more: the transport was rate limited, or
    says that nothing was sent. *)
Definition resendable (answer : res ChildSpawnExecution) : bool :=
  match answer with
  | Ok x => ce_rate_limited x || (negb (ce_submitted x) && negb (ce_side_effect_possible x))
  | Err _ => false
  end.

Definition requests (id : string) (e : spawn_event) : Prop :=
  match e with WindowRequested _ a _ _ => sa_attempt_id a = id | _ => False end.

Definition invokes (id : string) (e : spawn_event) : Prop :=
  match e with DraftInvoked _ a _ _ _ => sa_attempt_id a = id | _ => False end.

(** A call after which the prompt must not be sent again. *)
Definition spends (id : string) (e : spawn_event) : Prop :=
  match e with
  | PromptSent _ a _ answer => sa_attempt_id a = id ∧ resendable answer = false
  | DraftInvoked _ a _ _ _ => sa_attempt_id a = id
  | _ => False
  end.

(** An observation of the window of the attempt [id] at a conversation: its route, or the
    delivery of the prompt. *)
Definition observes (id url : string) (e : spawn_event) : Prop :=
  match e with
  | RouteObserved _ b (Ok x) => sa_attempt_id b = id ∧ ce_url x = Some url
  | DeliveryObserved _ b (Ok o) => sa_attempt_id b = id ∧ co_url o = url ∧ co_delivered o = true
  | _ => False
  end.

(** The evidence for the conversation that was adopted. *)
Definition proves `{UnicodeTables, NetlocCheck} (a : ChildSpawnAttempt) (e : spawn_event) : Prop :=
  ∃ url, web_conversation_project_id url = Some (sa_project_id a) ∧
    sa_conversation_url a = strip_or_none url ∧ observes (sa_attempt_id a) url e.

(** The attempt that a call is about. *)
Definition event_attempt (e : spawn_event) : option ChildSpawnAttempt :=
  match e with
  | WindowRequested _ a _ _ | PromptSent _ a _ _ | DraftInvoked _ a _ _ _
  | RouteObserved _ a _ | DeliveryObserved _ a _ => Some a
  | WindowClosed _ _ _ => None
  end.

Definition concerns (id : string) (e : spawn_event) : Prop :=
  sa_attempt_id <$> event_attempt e = Some id.

(** A call for the child after which its prompt must not be sent again. *)
Definition spends_child (child : string) (e : spawn_event) : Prop :=
  ∃ a, event_attempt e = Some a ∧ sa_child_task_id a = child ∧ spends (sa_attempt_id a) e.

Definition invokes_child (child : string) (e : spawn_event) : Prop :=
  ∃ a, event_attempt e = Some a ∧ sa_child_task_id a = child ∧ invokes (sa_attempt_id a) e.

Definition never (p : spawn_event → Prop) (log : list spawn_event) : Prop :=
  Forall (λ e, ¬ p e) log.

Lemma never_snoc p log e : never p (log ++ [e]) ↔ never p log ∧ ¬ p e.
Proof. unfold never. rewrite Forall_app, Forall_singleton. done. Qed.

Lemma never_impl (p q : spawn_event → Prop) log :
  (∀ e, q e → p e) → never p log → never q log.
Proof. intros H Hn. eapply Forall_impl; [exact Hn|]. eauto. Qed.

Lemma spends_invokes id log : never (spends id) log → never (invokes id) log.
Proof. apply never_impl. by intros []. Qed.

Lemma requests_concern id e : requests id e → concerns id e.
Proof. unfold concerns. destruct e; cbn; congruence || done. Qed.

Lemma spends_concern id e : spends id e → concerns id e.
Proof. unfold concerns. destruct e; cbn; naive_solver. Qed.

(** ** Rows *)

Definition spawns (r : Registry) : gmap string ChildSpawnAttempt :=
  csr_payload <$> rg_child_spawns r.

Lemma spawns_keyed r k a :
  spawns_ok r → spawns r !! k = Some a → sa_attempt_id a = k.
Proof.
  intros [[Hk _] _]. unfold spawns. rewrite lookup_fmap, fmap_Some.
  intros (row & Hrow & ->). by apply Hk.
Qed.

(** The child has had an authoritative worker. *)
Definition worked (r : Registry) (child : string) : Prop :=
  ∃ row, rg_protocol_tasks r !! child = Some row ∧ 0 < pt_generation row.

(** What happens besides the spawn attempts: they stay, and so does the history of the
    workers. *)
Definition spawn_frame (r r' : Registry) : Prop :=
  rg_child_spawns r' = rg_child_spawns r ∧ ∀ child, worked r child → worked r' child.

#[export] Instance spawn_frame_preorder : PreOrder spawn_frame.
Proof.
  split; [done|]. intros r1 r2 r3 [E1 H1] [E2 H2]. split; [congruence|auto].
Qed.

(** The states before the prompt goes out. *)
Definition before_prompt (s : ChildSpawnAttemptState.t) : bool :=
  match s with
  | ChildSpawnAttemptState.ARMED | ChildSpawnAttemptState.WINDOW_OPEN_SUBMITTED
  | ChildSpawnAttemptState.WINDOW_BOUND => true
  | _ => false
  end.

(** The states of an attempt whose window is known. *)
Definition window_known (s : ChildSpawnAttemptState.t) : bool :=
  match s with
  | ChildSpawnAttemptState.WINDOW_BOUND | ChildSpawnAttemptState.PROMPT_SUBMITTED => true
  | _ => false
  end.

Section Rows.
Context {tables : UnicodeTables} {check : NetlocCheck}.

Record row_ok (log : list spawn_event) (a : ChildSpawnAttempt) : Prop := {
  ro_armed : sa_state a = ChildSpawnAttemptState.ARMED → never (requests (sa_attempt_id a)) log;
  ro_before : before_prompt (sa_state a) = true → never (spends (sa_attempt_id a)) log;
  ro_failed : sa_state a = ChildSpawnAttemptState.FAILED → never (spends (sa_attempt_id a)) log;
  ro_handle : nonzero (sa_window_handle a) = None → never (spends (sa_attempt_id a)) log;
  ro_known : window_known (sa_state a) = true → nonzero (sa_window_handle a) ≠ None;
  ro_done : sa_state a = ChildSpawnAttemptState.COMPLETED → Exists (proves a) log;
}.

(** What a call needs, and what it finds. *)
Definition event_ok (before : list spawn_event) (e : spawn_event) : Prop :=
  match e with
  | WindowRequested r a _ _ =>
      spawns r !! sa_attempt_id a = Some a ∧
      sa_state a = ChildSpawnAttemptState.WINDOW_OPEN_SUBMITTED ∧
      never (requests (sa_attempt_id a)) before
  | PromptSent r a prompt _ =>
      spawns r !! sa_attempt_id a = Some a ∧
      sa_state a = ChildSpawnAttemptState.PROMPT_SUBMITTED ∧
      never (spends_child (sa_child_task_id a)) before ∧
      ∃ d, cd_child_task_id d = sa_child_task_id a ∧ cd_prompt_text d = prompt ∧
        cd_prompt_sha256 d = sa_prompt_sha256 a
  | DraftInvoked r a _ _ _ =>
      spawns r !! sa_attempt_id a = Some a ∧
      sa_state a = ChildSpawnAttemptState.PROMPT_SUBMITTED ∧
      jtruthy (dget "delivery_second_send_used" (sa_metadata a)) = true ∧
      never (invokes_child (sa_child_task_id a)) before
  | _ => True
  end.

Definition log_ok (log : list spawn_event) : Prop :=
  ∀ before e after, log = before ++ e :: after → event_ok before e.

Record spawn_inv (w : SpawnWorld) : Prop := {
  si_ok : spawns_ok (w_store w);
  si_rows : ∀ k a, spawns (w_store w) !! k = Some a → row_ok (w_log w) a;
  si_known : ∀ e a, e ∈ w_log w → event_attempt e = Some a →
    ∃ b, spawns (w_store w) !! sa_attempt_id a = Some b ∧ sa_child_task_id b = sa_child_task_id a;
  si_single : ∀ k1 k2 a1 a2,
    spawns (w_store w) !! k1 = Some a1 → spawns (w_store w) !! k2 = Some a2 →
    sa_child_task_id a1 = sa_child_task_id a2 → k1 ≠ k2 →
    sa_state a1 = ChildSpawnAttemptState.FAILED ∨ sa_state a2 = ChildSpawnAttemptState.FAILED;
  si_adopted : ∀ k a, spawns (w_store w) !! k = Some a →
    sa_state a = ChildSpawnAttemptState.COMPLETED → worked (w_store w) (sa_child_task_id a);
  si_log : log_ok (w_log w);
}.

Lemma new_unconcerned w k :
  spawn_inv w → spawns (w_store w) !! k = None → never (concerns k) (w_log w).
Proof.
  intros Hi Hk. apply Forall_forall. intros e He. unfold concerns.
  rewrite fmap_Some. intros (a & Ha & ->).
  destruct (si_known _ Hi e a He Ha) as (b & Hb & _). congruence.
Qed.

(** What a child spends, its one attempt that did not fail has spent. *)
Lemma spender_is_alone w a b e :
  spawn_inv w → spawns (w_store w) !! sa_attempt_id a = Some a →
  sa_state a ≠ ChildSpawnAttemptState.FAILED →
  e ∈ w_log w → event_attempt e = Some b → sa_child_task_id b = sa_child_task_id a →
  spends (sa_attempt_id b) e → sa_attempt_id b = sa_attempt_id a.
Proof.
  intros Hi Ha Hst He Hb Hc Hs. destruct (decide (sa_attempt_id b = sa_attempt_id a)) as [|Hne];
    [done|exfalso].
  destruct (si_known _ Hi e b He Hb) as (c & Hc' & Hchild).
  destruct (si_single _ Hi _ _ _ _ Hc' Ha) as [Hf|]; [congruence|done| |done].
  pose proof (spawns_keyed _ _ _ (si_ok _ Hi) Hc') as Hid.
  pose proof (ro_failed _ _ (si_rows _ Hi _ _ Hc') Hf) as Hn. rewrite Hid in Hn.
  by apply (proj1 (Forall_forall _ _) Hn e).
Qed.

Lemma unspent_child w a :
  spawn_inv w → spawns (w_store w) !! sa_attempt_id a = Some a →
  sa_state a ≠ ChildSpawnAttemptState.FAILED →
  never (spends (sa_attempt_id a)) (w_log w) →
  never (spends_child (sa_child_task_id a)) (w_log w).
Proof.
  intros Hi Ha Hst Hn. apply Forall_forall. intros e He (b & Hb & Hc & Hs).
  assert (sa_attempt_id b = sa_attempt_id a) as Hid by by eapply spender_is_alone.
  rewrite Hid in Hs. by apply (proj1 (Forall_forall _ _) Hn e).
Qed.

Lemma uninvoked_child w a :
  spawn_inv w → spawns (w_store w) !! sa_attempt_id a = Some a →
  sa_state a ≠ ChildSpawnAttemptState.FAILED →
  never (invokes (sa_attempt_id a)) (w_log w) →
  never (invokes_child (sa_child_task_id a)) (w_log w).
Proof.
  intros Hi Ha Hst Hn. apply Forall_forall. intros e He (b & Hb & Hc & Hs).
  assert (sa_attempt_id b = sa_attempt_id a) as Hid.
  { eapply spender_is_alone; try done. by destruct e. }
  rewrite Hid in Hs. by apply (proj1 (Forall_forall _ _) Hn e).
Qed.

Lemma spawn_log_snoc log e : log_ok log → event_ok log e → log_ok (log ++ [e]).
Proof.
  intros Hl He before e' after H. destruct after as [|x after _] using rev_ind.
  - by apply app_inj_tail in H as [-> ->].
  - rewrite app_comm_cons, app_assoc in H. apply app_inj_tail in H as [H _]. by eapply Hl.
Qed.

(** A later call does not hurt a row whose state it respects. *)
Lemma row_ok_snoc log a e :
  row_ok log a →
  (requests (sa_attempt_id a) e → sa_state a ≠ ChildSpawnAttemptState.ARMED) →
  (spends (sa_attempt_id a) e →
     sa_state a = ChildSpawnAttemptState.PROMPT_SUBMITTED) →
  row_ok (log ++ [e]) a.
Proof.
  intros [Ra Rb Rf Rh Rk Rd] Hr Hs. constructor; try done.
  - intros E. rewrite never_snoc. split; [auto|]. intros H. by apply (Hr H).
  - intros E. rewrite never_snoc. split; [auto|]. intros H. by rewrite (Hs H) in E.
  - intros E. rewrite never_snoc. split; [auto|]. intros H. by rewrite (Hs H) in E.
  - intros E. rewrite never_snoc. split; [auto|]. intros H. apply Rk in E; [done|].
    by rewrite (Hs H).
  - intros E. apply Exists_app. left. auto.
Qed.

(** The attempt with the changes of an update, in a new state. *)
Lemma row_ok_update log a st u t :
  row_ok log a → su_window_handle u = None → su_conversation_url u = None →
  (st = ChildSpawnAttemptState.ARMED → sa_state a = ChildSpawnAttemptState.ARMED) →
  (before_prompt st = true → before_prompt (sa_state a) = true ∨
                             never (spends (sa_attempt_id a)) log) →
  (st = ChildSpawnAttemptState.FAILED → sa_state a = ChildSpawnAttemptState.FAILED ∨
                             never (spends (sa_attempt_id a)) log) →
  (window_known st = true → nonzero (sa_window_handle a) ≠ None) →
  (st = ChildSpawnAttemptState.COMPLETED → sa_state a = ChildSpawnAttemptState.COMPLETED) →
  row_ok log (updated_spawn a st u t).
Proof.
  intros [Ra Rb Rf Rh Rk Rd] Eh Ec Ha Hb Hf Hk Hd.
  constructor; cbn; rewrite ?Eh, ?Ec; cbn; try done.
  - intros E. apply Ra. auto.
  - intros E. destruct (Hb E) as [?|?]; auto.
  - intros E. destruct (Hf E) as [?|?]; auto.
  - intros E. destruct (Rd (Hd E)) as [e l He|e l He]; [left|right].
    + destruct He as (url & Hw & Hu & He). exists url. cbn. rewrite Ec. by split_and!.
    + eapply Exists_impl; [exact He|]. intros x (url & Hw & Hu & Hx). exists url. cbn.
      rewrite Ec. by split_and!.
Qed.

(** The window of an attempt becomes known. *)
Lemma row_ok_bind log a u t z :
  never (spends (sa_attempt_id a)) log → su_window_handle u = Some z → 0 < z →
  row_ok log (updated_spawn a ChildSpawnAttemptState.WINDOW_BOUND u t).
Proof.
  intros Hs Eh Hz. assert (nonzero (Some z) = Some z) as E.
  { unfold nonzero. destruct (Z.eqb_spec z 0); [lia|done]. }
  constructor; cbn; rewrite ?Eh; cbn [assign]; rewrite ?E; done.
Qed.

(** The conversation of an attempt is adopted. *)
Lemma row_ok_complete log a url w t :
  row_ok log a → web_conversation_project_id url = Some (sa_project_id a) →
  Exists (observes (sa_attempt_id a) url) log →
  row_ok log (updated_spawn a ChildSpawnAttemptState.COMPLETED
                (mkSpawnUpdate None None (Some url) w None []) t).
Proof.
  intros [Ra Rb Rf Rh Rk Rd] Hp He. constructor; cbn; try done.
  intros _. eapply Exists_impl; [exact He|]. intros e H. exists url. by split_and!.
Qed.

End Rows.

(** * The spawn programs keep the invariant

    Arming, opening, sending, and reconciling, one program after the other.  Between any two
    steps the other processes may change everything but the spawn attempts. *)

(** The other processes leave the spawn attempts alone, and do not take back the history of a
    worker. *)
Class SpawnsAlone (env : RunEnv Registry) :=
  others_frame : ∀ n r, spawn_frame r (run_others n r).

Section Steps.
Context {tables : UnicodeTables} {check : NetlocCheck} {digests : Digests}.
Context {formatting : Formatting} {env : RunEnv Registry} {uuids : Uuids}.
Context {alone : SpawnsAlone env}.

Lemma step_spawns w w' o :
  step (Ev := spawn_event) w = (w', o) →
  spawn_frame (w_store w) (w_store w') ∧ w_log w' = w_log w.
Proof.
  unfold step. cbv zeta. destruct (run_killed _); intros [= <- _];
    (split; [apply others_frame|done]).
Qed.

#[export] Instance spawns_calm : Calm Registry spawn_event := {| step_calms := step_spawns |}.

(** [a] is the row of its attempt, and the log satisfies [Φ]. *)
Definition on (a : ChildSpawnAttempt) (Φ : list spawn_event → Prop) (w : SpawnWorld) : Prop :=
  spawn_inv w ∧ spawns (w_store w) !! sa_attempt_id a = Some a ∧ Φ (w_log w).

Lemma same_spawns_ok r r' :
  rg_child_spawns r' = rg_child_spawns r → spawns_ok r → spawns_ok r'.
Proof. intros E []. constructor; by rewrite E. Qed.

Lemma spawn_inv_ext w w' :
  spawn_frame (w_store w) (w_store w') → w_log w' = w_log w → spawn_inv w → spawn_inv w'.
Proof.
  intros [Es Hw] El [Hk Hr Hn Hs Ha Hl]. constructor; unfold spawns; rewrite ?Es, ?El; try done.
  - by eapply same_spawns_ok.
  - eauto.
Qed.

Lemma spawn_inv_stable : stable spawn_inv.
Proof. intros w w' [Hf El]. by apply spawn_inv_ext. Qed.

Lemma on_stable a Φ : stable (on a Φ).
Proof.
  intros w w' [Hf El] (Hi & Ha & HΦ). split; [by eapply spawn_inv_ext|].
  unfold spawns. destruct Hf as [-> _]. by rewrite El.
Qed.

Lemma on_inv a Φ w : on a Φ w → spawn_inv w.
Proof. by intros []. Qed.

Lemma on_impl a (Φ Ψ : list spawn_event → Prop) w :
  (∀ log, row_ok log a → Φ log → Ψ log) → on a Φ w → on a Ψ w.
Proof. intros H (Hi & Ha & HΦ). split_and!; [done|done|]. apply H; [|done]. by eapply si_rows. Qed.

(** ** Transactions that do not touch the attempts *)

Lemma triple_fetch {A} P (m : Registry → res A) :
  stable P →
  triple P (fetch_row m) (λ x w, P w ∧ m (w_store w) = Ok x) P.
Proof.
  intros HP. unfold fetch_row. apply triple_txn; [done| |done].
  intros now w r' x Hw (y & Hy & [= <- <-])%bind_Ok. by destruct w.
Qed.

Definition frames {A} (m : Registry → res (Registry * A)) : Prop :=
  ∀ r r' x, spawns_ok r → m r = Ok (r', x) → spawn_frame r r'.

(** What a transaction leaves alone. *)
Lemma untouched r r' :
  rg_child_spawns r' = rg_child_spawns r → rg_protocol_tasks r' = rg_protocol_tasks r →
  spawn_frame r r'.
Proof. intros Es Ep. split; [done|]. unfold worked. by rewrite Ep. Qed.

Lemma holds_frame {A} P (m : float → Registry → res (Registry * A)) :
  stable P → (∀ w, P w → spawn_inv w) → (∀ now, frames (m now)) → holds P (txn m).
Proof.
  intros HP Hi Hm. apply triple_txn; [done| |done]. intros now w r' x Hw E.
  apply (HP w); [|done]. split; [|done]. cbn. apply (Hm now) with (x := x); [|done].
  by apply si_ok, Hi.
Qed.

Lemma scan_frames child : frames (λ r, unresolved_child_spawn_attempt r child).
Proof. intros r r' x Hok. rewrite (scan_reads _ _ Hok). by intros [= <- _]. Qed.

Definition ok_frame (r r' : Registry) : Prop := spawns_ok r → spawn_frame r r'.

#[local] Instance ok_frame_preorder : PreOrder ok_frame.
Proof.
  split; [by intros r _|]. intros r1 r2 r3 H1 H2 Hk. etrans; [by apply H1|]. apply H2.
  by eapply same_spawns_ok; [apply H1|].
Qed.

Notation keeps := (respects ok_frame).

(** A program that touches no attempt, as one step; [Qd] is what its result says of the
    registry. *)
Lemma triple_frame {A} P (m : prog A) (Qd : A → Registry → Prop) :
  stable P → (∀ w, P w → spawn_inv w) → keeps m →
  (∀ r r' x, m r = (r', Ok x) → Qd x r') →
  triple P (call m) (λ x w, P w ∧ Qd x (w_store w)) P.
Proof.
  intros HP Hi Hm HQ. unfold call, atomically.
  eapply triple_bind; [by apply holds_step|]. intros now w w' o Hw. cbn in Hw. unfold apply_part.
  destruct (m (w_store w)) as [r' x] eqn:E.
  pose proof (Hm _ _ _ E (si_ok _ (Hi _ Hw))) as Hf.
  assert (P (w <| w_store := r' |>)) as Hw' by by apply (HP w).
  destruct x; intros [= <- <-]; [|done]. split; [done|]. by eapply HQ.
Qed.

(** ** The calls of the lease protocol *)

(** The generation of a task never falls. *)
Lemma handle_worked r r' t e req d :
  apply_worker_protocol_transition r t e (λ s, handle s req e) = Ok (r', d) → spawn_frame r r'.
Proof.
  intros H. apply apply_Ok in H as (s & L & Hd & <- & _ & [[_ ->]|(Hm & _ & Hp & _)]); [done|].
  destruct Hp as [_ _ _ (row & Hrow & _ & Hrows) _ _ Ho _].
  split; [unfold other_tables in *; congruence|]. intros child (row' & Hrow' & Hg).
  unfold worked. rewrite Hrows.
  destruct (decide (child = ws_task_id (pd_state d))) as [->|Hne];
    [|rewrite lookup_insert_ne by done; by exists row'].
  rewrite lookup_insert_eq. eexists. split; [done|]. cbn.
  assert (row' = row) as -> by congruence.
  assert (ws_generation s = pt_generation row) as Hs.
  { destruct (ld_row _ _ _ L) as (row2 & Hrow2 & ->). cbn. congruence. }
  apply (handle_cases _ (ld_valid _ _ _ L)) in Hd
    as [(c & -> & _)|[(_ & -> & _)|(_ & c & s' & es & Hstep & ->)]];
    [cbn; lia..|].
  cbn. destruct (step_generation _ _ _ _ _ Hstep) as [[-> _]| ->]; lia.
Qed.

Lemma accepted_keeps m msg c : (∀ r, m r = perform_protocol r c) → keeps (accepted_or m msg).
Proof.
  intros Hm r r' x. unfold accepted_or. rewrite prog_bind_run. unfold Programs.txn.
  rewrite Hm. destruct (perform_protocol r c) as [[r1 d]|e] eqn:E.
  - intros H Hk. apply performs_request in E as (t & e & q & E%handle_worked).
    revert H. by destruct (pd_accepted d); intros [= <- _].
  - by intros [= <- _].
Qed.

Lemma adopt_keeps child url ls w uuid ts : keeps (adopt_child_worker child url ls w uuid ts).
Proof.
  assert (∀ A (g : Registry → res A), keeps (λ r, (r, g r))) as Hstay.
  { intros A g r r' x [= <- _]. done. }
  unfold adopt_child_worker. cbv zeta.
  repeat match goal with
  | |- keeps (_ ≫= _) => apply respects_bind; [apply _| |intros]
  | |- keeps (accepted_or _ _) => eapply accepted_keeps
  | |- keeps (if ?b then _ else _) => destruct b
  | |- keeps (match ?x with _ => _ end) => destruct x
  | |- keeps (mret _) => apply (Hstay _ (λ _, Ok _))
  | |- keeps (fails _ _) => apply (Hstay _ (λ _, raise _ _))
  | |- keeps (Programs.query _) => apply Hstay
  end.
  - intros r. instantiate (1 := PRegister _ _ _ _ _ _). done.
  - intros r. instantiate (1 := PClaim _ _ _ _ _). done.
  - intros r. instantiate (1 := PClaim _ _ _ _ _). done.
Qed.

(** A stored snapshot with a current worker has a worker history. *)
Lemma loaded_worked r child s :
  loaded r child s → is_Some (ws_current_worker_id s) → worked r child.
Proof.
  intros L [cur Hc]. destruct (ld_row _ _ _ L) as (row & Hrow & Hs).
  destruct (vs_current _ (ld_valid _ _ _ L) _ Hc) as (_ & _ & _ & _ & _ & Hg & _).
  exists row. split; [done|]. by rewrite Hs in Hg.
Qed.

Lemma claim_worked r child w rev ls ts msg r' s :
  accepted_or (λ r, protocol_claim_worker r child w rev ls ts) msg r = (r', Ok s) →
  is_Some (ws_current_worker_id s) → worked r' child.
Proof.
  intros H Hc. unfold accepted_or in H. rewrite prog_bind_run in H. unfold Programs.txn in H.
  destruct (protocol_claim_worker r child w rev ls ts) as [[r1 d]|e] eqn:E; [|done].
  destruct (pd_accepted d) eqn:Ha; [|done]. injection H as <- <-.
  eapply loaded_worked; [|exact Hc].
  apply apply_Ok in E as (s & L & Hd & _ & _ & [[Hm ->]|(_ & _ & _ & L' & _)]); [|done].
  change (handle s (Claim w ts ls) rev = Ok d) in Hd.
  apply (handle_cases _ (ld_valid _ _ _ L)) in Hd
    as [(c & -> & _)|[(_ & -> & _)|(-> & c & s' & es & _ & ->)]]; [done..|].
  unfold pd_mutated in Hm. cbn in Hm. by rewrite Z.eqb_refl in Hm.
Qed.

(** ** Adopting the worker of a child *)

Lemma adopt_worked child url ls w uuid ts r r' s :
  adopt_child_worker child url ls w uuid ts r = (r', Ok s) →
  is_Some (ws_current_worker_id s) → worked r' child.
Proof.
  unfold adopt_child_worker. cbv zeta. intros H.
  apply query_case in H as [(d & _ & H)|(e & _ & [=])].
  destruct (negb _); [done|]. destruct (fle _ _); [done|].
  apply query_case in H as [(s0 & L%load_Ok & H)|(e & _ & [=])].
  destruct (workers_at s0 (strip url)) as [|v [|]], (ws_current_worker_id s0) as [cur|] eqn:Ec;
    try done.
  - rewrite prog_bind_run in H. destruct (accepted_or _ _ r) as [r1 [s1|e]]; [|done].
    destruct (workers_at s1 _); [done|]. by eapply claim_worked.
  - destruct (String.eqb _ _); [|done]. injection H as <- <-. by apply loaded_worked.
  - destruct (negb _); [done|]. by eapply claim_worked.
Qed.

(** ** Writing an attempt *)

Lemma inv_put w r' a b :
  spawn_inv w → spawns (w_store w) !! sa_attempt_id a = Some b →
  sa_child_task_id a = sa_child_task_id b →
  (sa_state b = ChildSpawnAttemptState.FAILED → sa_state a = ChildSpawnAttemptState.FAILED) →
  (sa_state a = ChildSpawnAttemptState.COMPLETED → worked (w_store w) (sa_child_task_id a)) →
  row_ok (w_log w) a → spawns_ok r' → rg_protocol_tasks r' = rg_protocol_tasks (w_store w) →
  spawns r' = <[sa_attempt_id a := a]> (spawns (w_store w)) →
  spawn_inv (w <| w_store := r' |>).
Proof.
  intros [Hk Hr Hn Hs Hc Hl] Hb Echild Hf Hw Ha Hok Ep E. constructor; cbn; [done| | | | |done].
  - intros k v. rewrite E. intros [[<- <-]|[_ Hv]]%lookup_insert_Some; [done|by eapply Hr].
  - intros e v He Hv. destruct (Hn e v He Hv) as (c & Hc1 & Hc2). rewrite E.
    destruct (decide (sa_attempt_id v = sa_attempt_id a)) as [Heq|Hne].
    + rewrite Heq, lookup_insert_eq. exists a. split; [done|]. rewrite Heq in Hc1. congruence.
    + rewrite lookup_insert_ne by done. by exists c.
  - intros k1 k2 a1 a2. rewrite E.
    intros [[<- <-]|[H1 Ha1]]%lookup_insert_Some [[<- <-]|[H2 Ha2]]%lookup_insert_Some Hsame Hne;
      [done| | |by eapply Hs].
    + destruct (Hs _ _ _ _ Hb Ha2) as [?|?]; auto. congruence.
    + destruct (Hs _ _ _ _ Ha1 Hb) as [?|?]; auto. congruence.
  - intros k v. rewrite E. unfold worked. rewrite Ep.
    intros [[<- <-]|[_ Hv]]%lookup_insert_Some; [done|by eapply Hc].
Qed.

Lemma spawns_lookup r id a :
  spawns r !! id = Some a ↔ ∃ row, rg_child_spawns r !! id = Some row ∧ csr_payload row = a.
Proof.
  unfold spawns. rewrite lookup_fmap, fmap_Some. split; intros (row & ? & ?); eauto.
Qed.

Lemma get_spawn_Ok r id a : get_child_spawn_attempt r id = Ok a ↔ spawns r !! id = Some a.
Proof.
  unfold get_child_spawn_attempt. rewrite bind_Ok, spawns_lookup. setoid_rewrite fetch_Ok.
  naive_solver.
Qed.

Lemma spawns_insert r k row :
  spawns (r <| rg_child_spawns := <[k := row]> (rg_child_spawns r) |>) =
  <[k := csr_payload row]> (spawns r).
Proof. apply fmap_insert. Qed.

Lemma update_spawn_Ok r a st u now r' a' :
  spawns_ok r → spawns r !! sa_attempt_id a = Some a →
  update_child_spawn_attempt r (sa_attempt_id a) st u now = Ok (r', a') →
  (st = sa_state a ∨ st ∈ spawn_allowed (sa_state a)) ∧ a' = updated_spawn a st u now ∧
  spawns r' = <[sa_attempt_id a := a']> (spawns r) ∧
  rg_protocol_tasks r' = rg_protocol_tasks r.
Proof.
  intros Hok Ha H. unfold update_child_spawn_attempt in H.
  apply bind_Ok in H as (a0 & Ha0%get_spawn_Ok & H).
  assert (a0 = a) as -> by congruence.
  apply raise_if_then in H as [Hs H]. cbv zeta in H. apply unit_bind_Ok in H as [_ H].
  apply bind_Ok in H as (m & Hm & H). apply bind_Ok in H as (a1 & Ha1%get_spawn_Ok & H).
  injection H as <- <-. apply put_row_Ok in Hm as [_ ->].
  pose proof (spawns_insert r (sa_attempt_id a) (row_of_attempt (updated_spawn a st u now))) as E.
  cbn in E, Ha1 |- *. rewrite E, lookup_insert_eq in Ha1. injection Ha1 as <-.
  split_and!; [|done|exact E|done].
  apply andb_false_iff in Hs as [Hs|Hs]; bool_to_prop; auto.
Qed.

(** An update writes a row that is [row_ok]; a new completion needs a worker history. *)
Lemma triple_written a st u now Φ (P : SpawnWorld → Prop) :
  stable P → (∀ w, P w → on a Φ w) →
  (∀ log t, Φ log → row_ok log a → st = sa_state a ∨ st ∈ spawn_allowed (sa_state a) →
     row_ok log (updated_spawn a st u t)) →
  (∀ w, P w → st = ChildSpawnAttemptState.COMPLETED → worked (w_store w) (sa_child_task_id a)) →
  triple P (update_spawn (sa_attempt_id a) st u now)
    (λ a' w, on a' Φ w ∧ ∃ t, a' = updated_spawn a st u t) spawn_inv.
Proof.
  intros HP Hon Hrow Hw. unfold update_spawn.
  apply triple_txn; [done| |intros w Hp; by eapply on_inv, Hon].
  intros t w r' a' Hp H. destruct (Hon _ Hp) as (Hi & Ha & HΦ).
  destruct (update_spawn_Ok _ _ _ _ _ _ _ (si_ok _ Hi) Ha H) as (Hst & -> & E & Ep).
  assert (row_ok (w_log w) (updated_spawn a st u (default t now))) as Hok.
  { apply Hrow; [done| |done]. by eapply si_rows. }
  split; [|by eexists]. split_and!; [|cbn|done].
  - apply (inv_put w r' (updated_spawn a st u (default t now)) a); try done; [|auto|].
    + cbn. intros Hf. rewrite Hf in Hst. destruct Hst as [|Hst]; [done|].
      by apply not_elem_of_nil in Hst.
    + by apply (update_spawn_advances _ _ _ _ _ _ _ H (si_ok _ Hi)).
  - rewrite E. apply lookup_insert_eq.
Qed.

Lemma triple_update a st u now Φ :
  (∀ log t, Φ log → row_ok log a → st = sa_state a ∨ st ∈ spawn_allowed (sa_state a) →
     row_ok log (updated_spawn a st u t)) →
  (st = ChildSpawnAttemptState.COMPLETED → sa_state a = ChildSpawnAttemptState.COMPLETED) →
  triple (on a Φ) (update_spawn (sa_attempt_id a) st u now)
    (λ a' w, on a' Φ w ∧ ∃ t, a' = updated_spawn a st u t) spawn_inv.
Proof.
  intros Hrow Hc. apply triple_written; [apply on_stable|done|done|].
  intros w (Hi & Ha & _) E. eapply si_adopted; eauto.
Qed.

(** ** Calls of the transport *)

Lemma triple_call {A} a (answer : nat → res A) mk (Φ : list spawn_event → Prop) :
  (∀ r x, event_attempt (mk r x) = Some a) →
  (∀ w x, on a Φ w → row_ok (w_log w) a →
     event_ok (w_log w) (mk (w_store w) x) ∧
     (requests (sa_attempt_id a) (mk (w_store w) x) →
        sa_state a ≠ ChildSpawnAttemptState.ARMED) ∧
     (spends (sa_attempt_id a) (mk (w_store w) x) →
        sa_state a = ChildSpawnAttemptState.PROMPT_SUBMITTED)) →
  triple (on a Φ) (ask answer (λ r x, [mk r x]))
    (λ x, on a (λ log, ∃ before r, log = before ++ [mk r (Ok x)] ∧ Φ before)) spawn_inv.
Proof.
  intros Hmk He. apply triple_ask; [apply on_stable| |apply on_inv].
  intros w x Hon. pose proof Hon as (Hi & Ha & HΦ). cbv zeta.
  specialize (Hmk (w_store w) x). pose proof (si_rows _ Hi _ _ Ha) as Hrow.
  specialize (He w x Hon Hrow) as (Hok & Hr & Hs). set (e := mk (w_store w) x) in *.
  assert (∀ k, concerns k e → k = sa_attempt_id a) as Hk.
  { intros k. unfold concerns. rewrite Hmk. by intros [= <-]. }
  assert (spawn_inv (w <| w_log := w_log w ++ [e] |>)) as Hi'.
  { destruct Hi as [Ik Ir In Is Ic Il]. constructor; cbn; try done; [| |by apply spawn_log_snoc].
    - intros k b Hb. pose proof (spawns_keyed _ _ _ Ik Hb) as Hid.
      destruct (decide (k = sa_attempt_id a)) as [->|Hne].
      + assert (b = a) as -> by congruence. by apply row_ok_snoc.
      + apply row_ok_snoc; [by eapply Ir| |]; rewrite Hid; intros H; destruct Hne; apply Hk;
          eauto using requests_concern, spends_concern.
    - intros e' b [He| ->%list_elem_of_singleton]%elem_of_app Hb; [by eapply In|].
      exists a. by replace b with a by congruence. }
  destruct x as [x|err]; cbn; [|done]. split_and!; [done|done|]. by eexists _, _.
Qed.

Lemma triple_unlogged {A} a (answer : nat → res A) Φ :
  triple (on a Φ) (ask answer unlogged) (λ _, on a Φ) spawn_inv.
Proof.
  apply triple_ask; [apply on_stable| |apply on_inv]. intros w x Hw. cbv zeta.
  assert (on a Φ (w <| w_log := w_log w ++ unlogged (w_store w) x |>)) as H.
  { unfold unlogged. rewrite app_nil_r. by destruct w. }
  destruct x; [done|by eapply on_inv].
Qed.

End Steps.
