(* ===== verification/SpawnPrograms.v ===== *)
(** * The programs of a spawn attempt, one by one

    Each program of child_spawn.py keeps the invariant of the spawns.  The assertions between
    the steps say what the row of the attempt is and which calls its log may not hold yet. *)

From S2P Require Import Prelude PyFloat PyStr PyUrl PyJson Models ProjectUrl.
From S2P Require Import WorkerProtocol Registry AttemptTables Persistence PersistenceFacts.
From S2P Require Import PersistenceTheorems ProbeOps Reconcile Actions Leases Programs Spawns.
From S2P Require Import Replacement ChildDispatch Workers Runs ChildSpawn.
From S2P Require Import SpawnSteps.

Open Scope string_scope.
Open Scope Z_scope.
Open Scope list_scope.

Section Programs.
Context {tables : UnicodeTables} {check : NetlocCheck} {digests : Digests}.
Context {formatting : Formatting} {env : RunEnv Registry} {uuids : Uuids}.
Context {alone : SpawnsAlone env}.

Notation kept P m := (triple P m (λ _, spawn_inv) spawn_inv).

Lemma kept_lift {A} P (m : res A) : (∀ w, P w → spawn_inv w) → kept P (lift m).
Proof.
  intros HP. eapply triple_weaken; [apply (holds_lift P m)|done|intros ? w Hw; by apply HP|done].
Qed.

Lemma kept_mret {A} P (a : A) : (∀ w, P w → spawn_inv w) → kept P (mret a).
Proof. intros HP. by apply triple_mret. Qed.

Lemma kept_holds {A} P (m : srun A) : (∀ w, P w → spawn_inv w) → holds P m → kept P m.
Proof.
  intros HP Hm. eapply triple_weaken; [exact Hm|done|intros ? w Hw; by apply HP|done].
Qed.

Lemma holds_time P now : stable P → holds P (time_or now).
Proof.
  intros HP. destruct now; [apply holds_ret|]. by eapply moves_holds; [intros ???; apply step_spawns|].
Qed.

Lemma holds_uuid P : stable P → holds P uuid4.
Proof.
  intros HP. unfold uuid4. apply holds_bind; [by apply holds_step|intros _].
  apply holds_bind; [|intros n; apply holds_ret]. by intros w w' o Hw [= <- <-].
Qed.

Lemma bind_window_frames wid h p exe url src t ttl :
  frames (λ r, bind_worker_window r wid h p exe url src t ttl).
Proof.
  intros r r' x _ H. unfold bind_worker_window in H. apply bind_Ok in H as (wk & _ & H).
  repeat apply raise_if_then in H as [_ H]. cbv zeta in H.
  repeat apply unit_bind_Ok in H as [_ H]. injection H as <- _. by apply untouched.
Qed.

(** ** Adopting the conversation *)

(** The child of [a] has its worker. *)
Definition adopted_on (a : ChildSpawnAttempt) (Φ : list spawn_event → Prop) (w : SpawnWorld)
    : Prop :=
  on a Φ w ∧ worked (w_store w) (sa_child_task_id a).

Lemma adopted_stable a Φ : stable (adopted_on a Φ).
Proof.
  intros w w' Hc [Ho Hw]. split; [by eapply on_stable|]. destruct Hc as [[_ H] _]. auto.
Qed.

Lemma present_Some x s : present_text x = Some s → is_Some x.
Proof. destruct x; [done|by intros [=]]. Qed.

Lemma complete_kept a url now ls Φ :
  (∀ log, Φ log → Exists (observes (sa_attempt_id a) url) log) →
  kept (on a Φ) (_complete_from_bound_conversation a url now ls).
Proof.
  intros HΦ. unfold _complete_from_bound_conversation.
  destruct (bool_decide _) eqn:Hp; cbn; [|apply kept_lift, on_inv]. bool_to_prop.
  eapply triple_seq; [apply holds_uuid, on_stable|apply on_inv|intros uuid].
  eapply triple_bind.
  { eapply triple_weaken; [|done| |apply on_inv].
    - apply (triple_frame (on a Φ) _ (λ s r, is_Some (ws_current_worker_id s) →
        worked r (sa_child_task_id a))); [apply on_stable|apply on_inv|apply adopt_keeps|].
      intros r r' s. apply adopt_worked.
    - intros s w H. exact H. }
  intros state. destruct (present_text _) as [wid|] eqn:Hwid; [|apply kept_lift; by intros w [[]]].
  apply (triple_pre (adopted_on a Φ)); last first.
  { intros w [Hw Hh]. split; [done|]. apply Hh. by eapply present_Some. }
  eapply triple_seq; [apply holds_frame; [apply adopted_stable|by intros w [[]]|]
                     |by intros w [[]]|intros _].
  { intros t. apply bind_window_frames. }
  eapply triple_post; [apply (triple_written a _ _ _ Φ)|].
  - apply adopted_stable.
  - by intros w [].
  - intros log t Hl Hrow _. by apply row_ok_complete; [| |apply HΦ].
  - by intros w [].
  - intros a' w [H _]. by eapply on_inv.
Qed.

(** ** Updates without a new window *)

Lemma update_kept a st u now Φ :
  su_window_handle u = None → su_conversation_url u = None →
  (st = ChildSpawnAttemptState.ARMED → sa_state a = ChildSpawnAttemptState.ARMED) →
  (before_prompt st = true → before_prompt (sa_state a) = true ∨
     ∀ log, Φ log → never (spends (sa_attempt_id a)) log) →
  (st = ChildSpawnAttemptState.FAILED → sa_state a = ChildSpawnAttemptState.FAILED ∨
     ∀ log, Φ log → never (spends (sa_attempt_id a)) log) →
  (window_known st = true → window_known (sa_state a) = true) →
  (st = ChildSpawnAttemptState.COMPLETED → sa_state a = ChildSpawnAttemptState.COMPLETED) →
  triple (on a Φ) (update_spawn (sa_attempt_id a) st u now)
    (λ a' w, on a' Φ w ∧ ∃ t, a' = updated_spawn a st u t) spawn_inv.
Proof.
  intros Eh Ec Ha Hb Hf Hk Hd. apply triple_update; [|done]. intros log t Hl Hrow _.
  apply row_ok_update; try done.
  - intros E. destruct (Hb E) as [?|H]; auto.
  - intros E. destruct (Hf E) as [?|H]; auto.
  - intros E. apply (ro_known _ _ Hrow). auto.
Qed.

Lemma to_reconcile_kept a detail ts Φ : kept (on a Φ) (to_reconcile (sa_attempt_id a) detail ts).
Proof.
  eapply triple_post; [by apply update_kept|]. intros a' w [H _]. by eapply on_inv.
Qed.

(** ** Delivery *)

Definition unsent (a : ChildSpawnAttempt) : list spawn_event → Prop :=
  never (spends (sa_attempt_id a)).

Lemma failed_kept a detail ts :
  kept (on a (unsent a)) (update_spawn (sa_attempt_id a) ChildSpawnAttemptState.FAILED
                            (with_error detail) (Some ts)).
Proof.
  eapply triple_post; [apply update_kept; try done; by right|].
  intros a' w [H _]. by eapply on_inv.
Qed.

Definition uninvoked (a : ChildSpawnAttempt) : list spawn_event → Prop :=
  never (invokes (sa_attempt_id a)).

Lemma observe_kept wait a prompt Φ :
  triple (on a Φ) (observe_delivery wait a prompt)
    (λ o, on a (λ log, ∃ before r, log = before ++ [DeliveryObserved r a (Ok o)] ∧ Φ before))
    spawn_inv.
Proof.
  apply (triple_call a _ (λ r x, DeliveryObserved r a x)); [done|]. intros w x _ _. by split_and!.
Qed.

Lemma in_project_Some a url u :
  in_project a url = Some u →
  url = Some u ∧ web_conversation_project_id u = Some (sa_project_id a).
Proof.
  unfold in_project, present_text. destruct url as [v|]; [|done].
  destruct (str_truthy v); [|done]. destruct (bool_decide _) eqn:E; [|done].
  intros [= <-]. by bool_to_prop.
Qed.

(** The conversation at which the delivery was observed. *)
Lemma delivered_kept a o u ts ls Φ :
  delivered_at a o = Some u →
  kept (on a (λ log, ∃ before r, log = before ++ [DeliveryObserved r a (Ok o)] ∧ Φ before))
    (_complete_from_bound_conversation a u ts ls).
Proof.
  unfold delivered_at. destruct (co_delivered o) eqn:Hd; [|done].
  intros [[= E] _]%in_project_Some. apply complete_kept.
  intros log (before & r & -> & _). apply Exists_app. right. constructor. by cbn.
Qed.

Lemma undelivered_kept a o ts Φ : kept (on a Φ) (undelivered (sa_attempt_id a) o ts).
Proof. apply to_reconcile_kept. Qed.

Lemma second_used a st u t url :
  su_metadata_updates u =
    [("delivery_second_send_used", JBool true); ("delivery_second_send_url", JStr url)] →
  jtruthy (dget "delivery_second_send_used" (sa_metadata (updated_spawn a st u t))) = true.
Proof.
  intros E. cbn. rewrite E. unfold dupdate. cbn. rewrite dget_dset_ne by done.
  by rewrite dget_dset_eq.
Qed.

Lemma second_send_kept a transport wait prompt url ts ls :
  sa_state a = ChildSpawnAttemptState.PROMPT_SUBMITTED →
  kept (on a (uninvoked a))
    (second_send (sa_attempt_id a) transport wait prompt url ts ls).
Proof.
  intros Hst. unfold second_send.
  eapply triple_bind; [apply update_kept; try done; by rewrite Hst|].
  intros a'. apply triple_pure. intros [t Ea].
  assert (sa_state a' = ChildSpawnAttemptState.PROMPT_SUBMITTED ∧
          sa_attempt_id a' = sa_attempt_id a ∧
          jtruthy (dget "delivery_second_send_used" (sa_metadata a')) = true)
    as (Hst' & Hid & Hused).
  { rewrite Ea. split_and!; [done|done|by eapply second_used]. }
  rewrite <- Hid. clear t Ea.
  eapply triple_bind.
  { apply (triple_call a' _ (λ r x, DraftInvoked r a' prompt url x)).
    { done. }
    intros w x (Hi & Ha & Hl) _. split_and!; try done. cbn. split_and!; try done.
    apply uninvoked_child; try done; [by rewrite Hst'|]. unfold uninvoked in Hl. by rewrite Hid. }
  intros second. destruct (negb _); [apply to_reconcile_kept|].
  eapply triple_bind; [apply observe_kept|]. intros o.
  destruct (delivered_at a' o) as [u|] eqn:E; [by eapply delivered_kept|apply undelivered_kept].
Qed.

Lemma confirm_kept a transport prompt ts ls :
  sa_state a = ChildSpawnAttemptState.PROMPT_SUBMITTED →
  kept (on a (uninvoked a))
    (confirm_delivery (sa_attempt_id a) transport a prompt ts ls).
Proof.
  intros Hst. unfold confirm_delivery. eapply triple_bind.
  { apply (triple_call a _ (λ r x, RouteObserved r a x)); [done|]. intros w x _ _.
    by split_and!. }
  intros transition. destruct (in_project a (ce_url transition)) as [url|] eqn:Hu;
    [|apply to_reconcile_kept].
  apply in_project_Some in Hu as [Hu _].
  destruct (wait_for_delivery transport) as [wait|].
  - eapply triple_bind; [apply observe_kept|]. intros o.
    destruct (delivered_at a o) as [u|] eqn:E; [by eapply delivered_kept|].
    destruct (second_send_url a o) as [u|]; [|apply undelivered_kept].
    eapply triple_pre; [by apply second_send_kept|]. intros w. apply on_impl.
    intros log _ (b1 & r1 & -> & b2 & r2 & -> & H). unfold uninvoked in *.
    rewrite !never_snoc. cbn. tauto.
  - apply complete_kept. intros log (before & r & -> & _). apply Exists_app. right.
    constructor. by cbn.
Qed.

(** ** Sending *)

Lemma rebound_kept a u now Φ :
  sa_state a = ChildSpawnAttemptState.PROMPT_SUBMITTED →
  su_window_handle u = None → su_conversation_url u = None → (∀ log, Φ log → unsent a log) →
  kept (on a Φ) (update_spawn (sa_attempt_id a) ChildSpawnAttemptState.WINDOW_BOUND u now).
Proof.
  intros Hst Eh Ec HΦ. eapply triple_post; [apply update_kept; try done|].
  - by right.
  - by rewrite Hst.
  - intros a' w [H _]. by eapply on_inv.
Qed.

Lemma cooldown_frames name until reason meta t :
  frames (λ r, set_runtime_cooldown r name until reason meta t).
Proof.
  intros r r' x _ H. unfold set_runtime_cooldown in H. cbv zeta in H.
  repeat apply raise_if_then in H as [_ H]. repeat apply unit_bind_Ok in H as [_ H].
  apply bind_Ok in H as (d & _ & [= <- _]). by apply untouched.
Qed.

Lemma send_kept a transport prompt d ls cool ts :
  sa_state a = ChildSpawnAttemptState.PROMPT_SUBMITTED →
  cd_child_task_id d = sa_child_task_id a → cd_prompt_text d = prompt →
  cd_prompt_sha256 d = sa_prompt_sha256 a →
  kept (on a (unsent a))
    (send_submitted (sa_attempt_id a) transport a prompt ls cool ts).
Proof.
  intros Hst Hc Hp Hh. unfold send_submitted. eapply triple_bind.
  { apply (triple_call a _ (λ r x, PromptSent r a prompt x)).
    { done. }
    intros w x (Hi & Ha & Hl) _. split_and!; try done. cbn. split_and!; try done; [|by exists d].
    apply unspent_child; try done. by rewrite Hst. }
  intros result.
  assert (ce_rate_limited result || (negb (ce_submitted result) &&
            negb (ce_side_effect_possible result)) = true →
          ∀ log, (∃ before r, log = before ++ [PromptSent r a prompt (Ok result)] ∧
                    unsent a before) → unsent a log) as Hagain.
  { intros E log (before & r & -> & H). unfold unsent. rewrite never_snoc. split; [done|].
    cbn. intros [_ Hn]. congruence. }
  destruct (ce_rate_limited result) eqn:Er.
  - unfold pause_dispatch. eapply triple_seq; [|apply on_inv|intros _].
    + apply holds_frame; [apply on_stable|apply on_inv|]. intros t. apply cooldown_frames.
    + by apply rebound_kept; [| | |apply Hagain].
  - destruct (ce_submitted result) eqn:Es; cbn.
    + eapply triple_pre; [by apply confirm_kept|]. intros w. apply on_impl.
      intros log _ (before & r & -> & H). unfold uninvoked. rewrite never_snoc.
      split; [by apply spends_invokes|by intros []].
    + destruct (ce_side_effect_possible result) eqn:Ep; [apply to_reconcile_kept|].
      by apply rebound_kept; [| | |apply Hagain].
Qed.

(** The attempt that a read returns. *)
Lemma fetch_attempt (P : SpawnWorld → Prop) id :
  stable P → (∀ w, P w → spawn_inv w) →
  triple P (fetch_row (λ r, get_child_spawn_attempt r id))
    (λ a w, (P w ∧ on a (λ _, True) w) ∧ sa_attempt_id a = id) spawn_inv.
Proof.
  intros HP Hi. eapply triple_weaken; [by apply triple_fetch|done| |done].
  intros a w [Hw Ha%get_spawn_Ok]. pose proof (spawns_keyed _ _ _ (si_ok _ (Hi _ Hw)) Ha) as Hid.
  split; [|done]. split; [done|]. split_and!; [auto| |done]. by rewrite Hid.
Qed.

Lemma dispatch_child r child d :
  get_child_dispatch r child = Ok d → cd_child_task_id d = child.
Proof.
  unfold get_child_dispatch. destruct (select _ _) as [|x l] eqn:E; [done|]. intros [= <-].
  assert (x ∈ select (λ d, String.eqb (cd_child_task_id d) child) (rg_dispatches r)) as Hx
    by (rewrite E; by left).
  apply elem_of_select in Hx as [Hx _]. by apply String.eqb_eq.
Qed.

Lemma submit_prompt_kept id now :
  triple spawn_inv (submit_child_spawn_prompt id now)
    (λ x w, on x.1 (unsent x.1) w ∧
       (sa_attempt_id x.1 = id ∧ sa_state x.1 = ChildSpawnAttemptState.PROMPT_SUBMITTED ∧
        ∃ d, cd_child_task_id d = sa_child_task_id x.1 ∧ cd_prompt_text d = x.2 ∧
          cd_prompt_sha256 d = sa_prompt_sha256 x.1)) spawn_inv.
Proof.
  unfold submit_child_spawn_prompt.
  eapply triple_bind; [apply fetch_attempt; [apply spawn_inv_stable|done]|]. intros a.
  apply triple_pure. intros <-. eapply triple_pre; [|intros w [_ H]; exact H].
  destruct (spawn_in _ a) eqn:Hst; cbn; [|intros w w' o Hw [= <- <-]; by eapply on_inv].
  apply bool_decide_eq_true in Hst.
  eapply triple_bind.
  { eapply triple_weaken; [apply triple_fetch, on_stable|done| |apply on_inv].
    intros d w H. exact H. }
  intros d. cbn. apply (triple_pre (λ w, on a (unsent a) w ∧
    cd_child_task_id d = sa_child_task_id a)); last first.
  { intros w [Hw Hd]. split; [|by eapply dispatch_child].
    revert Hw. apply on_impl. intros log Hrow _. apply (ro_before _ _ Hrow). by rewrite Hst. }
  apply triple_pure. intros Hc.
  destruct (String.eqb _ _) eqn:Hh; cbn; [|intros w w' o Hw [= <- <-]; by eapply on_inv].
  apply String.eqb_eq in Hh. eapply triple_bind.
  { apply update_kept; try done. by rewrite Hst. }
  intros a'. apply triple_mret. intros w [Hw [t ->]]. split; [exact Hw|].
  split_and!; [done|done|]. by exists d.
Qed.

Lemma prompt_kept id transport ls cool now :
  holds spawn_inv (execute_child_spawn_prompt id transport ls cool now).
Proof.
  unfold execute_child_spawn_prompt.
  eapply triple_seq; [apply holds_time, spawn_inv_stable|done|intros ts].
  eapply triple_bind; [apply fetch_attempt; [apply spawn_inv_stable|done]|]. intros a.
  apply triple_pure. intros <-. eapply triple_pre; [|intros w [_ H]; exact H].
  eapply triple_bind.
  { eapply triple_weaken; [apply triple_fetch, on_stable|done| |apply on_inv].
    intros c w [Hw _]. exact Hw. }
  intros cooldown. destruct (cooldown ≫= _) as [c|].
  - eapply triple_post; [apply update_kept; try done; by left|].
    intros a' w [H _]. by eapply on_inv.
  - eapply triple_pre; [|intros w Hw; by eapply on_inv].
    eapply triple_bind; [apply submit_prompt_kept|]. intros [b prompt]. cbn.
    apply triple_pure. intros (Hid & Hst & d & Hc & Hp & Hh). rewrite <- Hid.
    by eapply send_kept.
Qed.

(** ** Opening and binding the window *)

(** The attempt [id] has not sent its prompt yet. *)
Definition unspent (id : string) (w : SpawnWorld) : Prop :=
  spawn_inv w ∧ never (spends id) (w_log w).

Lemma unspent_stable id : stable (unspent id).
Proof.
  intros w w' [Es El] [Hi Hn]. split; [by eapply spawn_inv_ext|]. by rewrite El.
Qed.

Lemma bind_kept id handle pid url now :
  kept (unspent id) (bind_child_spawn_window id handle pid url now).
Proof.
  unfold bind_child_spawn_window.
  eapply triple_bind; [apply fetch_attempt; [apply unspent_stable|by intros w []]|].
  intros a. apply triple_pure. intros <-.
  apply (triple_pre (on a (unsent a))); last first.
  { intros w [[_ Hn] (Hi & Ha & _)]. done. }
  destruct (negb _); [apply kept_lift, on_inv|].
  destruct ((handle <=? 0) || (pid <=? 0)) eqn:Hz; [apply kept_lift, on_inv|].
  destruct (negb _); [apply kept_lift, on_inv|]. bool_to_prop.
  eapply triple_post; [apply triple_update; [|done]|intros a' w [Hw _]; by eapply on_inv].
  intros log t Hl Hrow _. by eapply row_ok_bind.
Qed.

(** Notes in the metadata of an attempt. *)
Lemma row_ok_annotate log a meta t : row_ok log a → row_ok log (annotated_spawn a meta t).
Proof.
  by intros [].
Qed.

Lemma annotate_holds id meta now :
  holds spawn_inv (txn (λ t r, annotate_child_spawn_attempt r id meta (now t))).
Proof.
  apply triple_txn; [apply spawn_inv_stable| |done]. intros t w r' a Hi H.
  pose proof (proj1 (annotate_advances _ _ _ _ _ _ H (si_ok _ Hi))) as Hok.
  unfold annotate_child_spawn_attempt in H. apply bind_Ok in H as (row & Hrow%fetch_Ok & H).
  cbv zeta in H. apply unit_bind_Ok in H as [_ H]. apply bind_Ok in H as (a' & _ & [= <- <-]).
  assert (spawns (w_store w) !! id = Some (csr_payload row)) as Ha.
  { apply spawns_lookup. by exists row. }
  pose proof (spawns_keyed _ _ _ (si_ok _ Hi) Ha) as Hid.
  apply (inv_put w _ (annotated_spawn (csr_payload row) meta (now t)) (csr_payload row));
    try done; [cbn; by rewrite Hid| | |].
  - intros Hc. exact (si_adopted _ Hi _ _ Ha Hc).
  - apply row_ok_annotate. by eapply si_rows.
  - change (sa_attempt_id (annotated_spawn (csr_payload row) meta (now t)))
      with (sa_attempt_id (csr_payload row)).
    rewrite Hid. apply (spawns_insert (w_store w) id (mkChildSpawnRow (csr_state row) _)).
Qed.

Lemma recycled_holds source id ts : holds spawn_inv (mark_recycled source id ts).
Proof.
  pose proof (λ i meta, annotate_holds i meta (λ _, ts)) as Hann.
  destruct source as [|worker binding|old]; cbn [mark_recycled].
  - apply holds_ret.
  - apply holds_bind; [apply triple_query; [apply spawn_inv_stable|done|done]|intros attempts].
    apply holds_bind.
    + destruct (next_where _ _); [|apply holds_ret].
      apply holds_bind; [apply Hann|intros _; apply holds_ret].
    + intros _. apply holds_bind; [|intros _; apply holds_ret].
      apply holds_frame; [apply spawn_inv_stable|done|]. by intros t r r' x _ [= <- _].
  - apply holds_try.
    + apply holds_bind; [apply Hann|intros _; apply holds_ret].
    + intros e. destruct (bool_decide _); [apply holds_ret|apply holds_lift].
Qed.

Lemma submit_open_kept id now :
  triple spawn_inv (submit_child_spawn_open id now)
    (λ a w, on a (λ log, never (requests id) log) w ∧
       (sa_attempt_id a = id ∧ sa_state a = ChildSpawnAttemptState.WINDOW_OPEN_SUBMITTED))
    spawn_inv.
Proof.
  unfold submit_child_spawn_open.
  eapply triple_bind; [apply fetch_attempt; [apply spawn_inv_stable|done]|]. intros a.
  apply triple_pure. intros <-.
  apply (triple_pre (on a (λ _, True))); [|by intros w []].
  destruct (spawn_in _ a) eqn:Hst; cbn; [|intros w w' o Hw [= <- <-]; by eapply on_inv].
  apply bool_decide_eq_true in Hst.
  apply (triple_pre (on a (λ log, never (requests (sa_attempt_id a)) log))); last first.
  { intros w. apply on_impl. intros log Hrow _. by apply (ro_armed _ _ Hrow). }
  eapply triple_post.
  { apply update_kept; try done. intros _. left. by rewrite Hst. }
  intros a' w [Hw [t ->]]. split; [exact Hw|done].
Qed.

Lemma request_kept a transport source :
  sa_state a = ChildSpawnAttemptState.WINDOW_OPEN_SUBMITTED →
  triple (on a (never (requests (sa_attempt_id a)))) (request_window transport a source)
    (λ _, on a (unsent a)) spawn_inv.
Proof.
  intros Hst. unfold request_window. eapply triple_post.
  { apply (triple_call a _ (λ r x, WindowRequested r a source x)).
    { done. }
    intros w x (Hi & Ha & Hl) _. split_and!; try done; intros _; by rewrite Hst. }
  intros x w. apply on_impl. intros log Hrow _. apply (ro_before _ _ Hrow). by rewrite Hst.
Qed.

Lemma open_kept id transport worker binding old now :
  holds spawn_inv (execute_child_spawn_open id transport worker binding old now).
Proof.
  unfold execute_child_spawn_open. apply holds_bind; [apply holds_lift|intros source].
  eapply triple_bind; [apply submit_open_kept|]. intros a. apply triple_pure. intros [<- Hst].
  eapply triple_bind; [by apply request_kept|]. intros result.
  eapply triple_seq; [apply holds_time, on_stable|apply on_inv|intros ts].
  destruct (found_window result) as [[[handle pid] url]|].
  - eapply triple_bind.
    { eapply triple_pre; [apply bind_kept|]. intros w (Hi & _ & Hn). done. }
    intros bound. apply holds_bind; [apply recycled_holds|intros _; apply holds_ret].
  - destruct (ce_side_effect_possible result); [apply to_reconcile_kept|apply failed_kept].
Qed.

(** ** Reconciliation *)

Lemma reconcile_kept id transport ls now :
  holds spawn_inv (reconcile_child_spawn id transport ls now).
Proof.
  unfold reconcile_child_spawn.
  eapply triple_bind; [apply fetch_attempt; [apply spawn_inv_stable|done]|]. intros a.
  apply triple_pure. intros <-. apply (triple_pre (on a (λ _, True))); [|by intros w []].
  eapply triple_seq; [apply holds_time, on_stable|apply on_inv|intros ts]. cbv zeta.
  destruct (spawn_in ChildSpawnAttemptState.COMPLETED a); [apply kept_mret, on_inv|].
  destruct (spawn_in ChildSpawnAttemptState.WINDOW_OPEN_SUBMITTED a || _) eqn:Hwait.
  - assert (∀ w, on a (λ _, True) w → on a (unsent a) w) as Hunsent.
    { intros w. apply on_impl. intros log Hrow _.
      apply orb_true_iff in Hwait as [Hst|Hn].
      - apply bool_decide_eq_true in Hst. apply (ro_before _ _ Hrow). by rewrite Hst.
      - apply (ro_handle _ _ Hrow). bool_to_prop. by apply eq_None_not_Some. }
    eapply triple_pre; [|exact Hunsent].
    eapply triple_bind; [apply triple_unlogged|]. intros observed.
    destruct (found_window observed) as [[[handle pid] url]|].
    + eapply triple_pre; [apply bind_kept|]. intros w (Hi & _ & Hn). done.
    + destruct (spawn_in ChildSpawnAttemptState.RECONCILE_REQUIRED a); [apply kept_mret, on_inv|apply to_reconcile_kept].
  - destruct (nonzero (sa_window_handle a)), (nonzero (sa_browser_pid a));
      try apply to_reconcile_kept.
    eapply triple_bind.
    { apply (triple_call a _ (λ r x, RouteObserved r a x)); [done|]. intros w x _ _.
      by split_and!. }
    intros observed. destruct (in_project a (ce_url observed)) as [url|] eqn:Hu.
    + apply complete_kept. apply in_project_Some in Hu as [Hu _].
      intros log (before & r & -> & _). apply Exists_app. right. constructor. by cbn.
    + destruct (present_text _); [|apply to_reconcile_kept].
      destruct (owned_project_root_matches _ _); [apply kept_mret, on_inv|].
      apply to_reconcile_kept.
Qed.

(** ** Arming *)

(** No attempt of the child has completed. *)
Definition uncompleted (child : string) (r : Registry) : Prop :=
  ∀ k a, spawns r !! k = Some a → sa_child_task_id a = child →
    sa_state a ≠ ChildSpawnAttemptState.COMPLETED.

Lemma record_run a r r' x :
  spawns_ok r → record_child_spawn_attempt a r = (r', x) →
  spawn_frame r r' ∨
  (sa_state a = ChildSpawnAttemptState.ARMED ∧ spawns r !! sa_attempt_id a = None ∧
   spawns r' = <[sa_attempt_id a := a]> (spawns r) ∧
   rg_protocol_tasks r' = rg_protocol_tasks r ∧
   ∀ k b, spawns r !! k = Some b → sa_child_task_id b = sa_child_task_id a →
     spawn_unresolved (sa_state b) = false).
Proof.
  intros Hk. unfold record_child_spawn_attempt. intros H.
  apply query_bind in H as [(d & _ & H)|(e & _ & -> & _)]; [|by left].
  destruct (spawn_in _ a) eqn:Hst; cbn in H; [|injection H as <- _; by left].
  apply bool_decide_eq_true in Hst.
  apply txn_bind in H as [(r1 & o & Ho & H)|(e & _ & -> & _)]; [|by left].
  rewrite (scan_reads _ _ Hk) in Ho. injection Ho as <- Ho.
  destruct o as [b|]; [injection H as <- _; by left|].
  unfold Programs.txn in H. destruct (insert_spawn r a) as [[r2 y]|e] eqn:Hi;
    injection H as <- _; [|by left].
  right. unfold insert_spawn in Hi.
  apply unit_bind_Ok in Hi as [_ Hi]. apply unit_bind_Ok in Hi as [_ Hi].
  apply bind_Ok in Hi as (m & [Hnew [_ ->]%put_row_Ok]%insert_row_Ok & Hi). cbv zeta in Hi.
  apply bind_Ok in Hi as (z & _ & [= <- _]). split_and!; [done| | |done|].
  - unfold spawns. rewrite lookup_fmap. cbn in Hnew. by rewrite Hnew.
  - exact (spawns_insert r (sa_attempt_id a) (row_of_attempt a)).
  - intros k b (row & Hrow & <-)%spawns_lookup Hchild.
    apply (next_where_None _ _ Ho).
    apply list_elem_of_fmap. exists row. split; [done|]. rewrite <- Hchild.
    destruct Hk as [[Hkey _] _]. apply elem_of_spawn_rows; [done|]. split; [done|].
    by rewrite (Hkey _ _ Hrow).
Qed.

(** A new attempt of a child all of whose attempts failed. *)
Lemma inv_arm w r' a :
  spawn_inv w → sa_state a = ChildSpawnAttemptState.ARMED → sa_window_handle a = None →
  spawns (w_store w) !! sa_attempt_id a = None →
  (∀ k b, spawns (w_store w) !! k = Some b → sa_child_task_id b = sa_child_task_id a →
     sa_state b = ChildSpawnAttemptState.FAILED) →
  spawns_ok r' → rg_protocol_tasks r' = rg_protocol_tasks (w_store w) →
  spawns r' = <[sa_attempt_id a := a]> (spawns (w_store w)) →
  spawn_inv (w <| w_store := r' |>).
Proof.
  intros Hi Hst Hh Hnew Hfail Hok Ep E. pose proof (new_unconcerned _ _ Hi Hnew) as Hnone.
  destruct Hi as [Hk Hr Hn Hs Hc Hl].
  constructor; cbn; [done| | | | |done].
  - intros k b. rewrite E. intros [[<- <-]|[_ Hb]]%lookup_insert_Some; [|by eapply Hr].
    constructor; rewrite ?Hst, ?Hh; try done; intros _; eapply never_impl; try exact Hnone;
      eauto using requests_concern, spends_concern.
  - intros e v He Hv. destruct (Hn e v He Hv) as (c & Hc1 & Hc2). exists c. split; [|done].
    rewrite E, lookup_insert_ne; [done|]. congruence.
  - intros k1 k2 a1 a2. rewrite E.
    intros [[<- <-]|[H1 Ha1]]%lookup_insert_Some [[<- <-]|[H2 Ha2]]%lookup_insert_Some Hsame Hne;
      [done| | |by eapply Hs].
    + right. by eapply Hfail.
    + left. by eapply Hfail.
  - intros k v. rewrite E. unfold worked. rewrite Ep.
    intros [[<- <-]|[_ Hv]]%lookup_insert_Some; [congruence|by eapply Hc].
Qed.

(** Under [φ] the child has no completed attempt. *)
Definition armable (φ : Prop) (child : string) (w : SpawnWorld) : Prop :=
  spawn_inv w ∧ (φ → uncompleted child (w_store w)).

Lemma armable_stable φ child : stable (armable φ child).
Proof.
  intros w w' Hc [Hi Hu]. split; [by eapply spawn_inv_stable|]. unfold uncompleted, spawns in *.
  by destruct Hc as [[-> _] _].
Qed.

Lemma armable_inv φ child w : armable φ child w → spawn_inv w.
Proof. by intros []. Qed.

Lemma record_spawn_kept φ a :
  φ → sa_window_handle a = None →
  kept (armable φ (sa_child_task_id a)) (call (record_child_spawn_attempt a)).
Proof.
  intros Hφ Hh. unfold call, atomically.
  eapply triple_seq; [apply holds_step, armable_stable|apply armable_inv|].
  intros now w w' o [Hi Hu]. unfold apply_part.
  destruct (record_child_spawn_attempt a (w_store w)) as [r' x] eqn:E.
  assert (spawn_inv (w <| w_store := r' |>)) as Hi'.
  { pose proof (proj1 (record_spawn_advances a _ _ _ E (si_ok _ Hi))) as Hok.
    apply record_run in E as [Hf|(Hst & Hnew & E & Ep & Hres)];
      [by eapply spawn_inv_ext| |by apply Hi].
    eapply inv_arm; try done. intros k b Hb Hchild. specialize (Hu Hφ _ _ Hb Hchild).
    specialize (Hres _ _ Hb Hchild). by destruct (sa_state b). }
  destruct x; by intros [= <- <-].
Qed.

Lemma fetch_holds {A} (m : Registry → res A) : holds spawn_inv (fetch_row m).
Proof.
  eapply triple_post; [apply triple_fetch, spawn_inv_stable|]. by intros a w [].
Qed.

Lemma query_holds {A} (f : Registry → A) : holds spawn_inv (query f).
Proof. by apply triple_query; [apply spawn_inv_stable| |]. Qed.

Lemma scan_holds child :
  holds spawn_inv (txn (λ _ r, unresolved_child_spawn_attempt r child)).
Proof. apply holds_frame; [apply spawn_inv_stable|done|]. intros _. apply scan_frames. Qed.

Section Armable.
Context (φ : Prop) (child : string).
Notation P := (armable φ child).

Lemma fetch_kept {A} (m : Registry → res A) : holds P (fetch_row m).
Proof.
  eapply triple_post; [apply triple_fetch, armable_stable|]. by intros a w [].
Qed.

Lemma query_kept {A} (f : Registry → A) : holds P (query f).
Proof. by apply triple_query; [apply armable_stable| |]. Qed.

Lemma scan_kept c : holds P (txn (λ _ r, unresolved_child_spawn_attempt r c)).
Proof.
  apply holds_frame; [apply armable_stable|apply armable_inv|]. intros _. apply scan_frames.
Qed.
End Armable.

(** A child without a worker history has no completed attempt. *)
Lemma unworked_uncompleted w child s :
  spawn_inv w → load_worker_protocol (w_store w) child = Ok s → ws_generation s = 0 →
  uncompleted child (w_store w).
Proof.
  intros Hi L%load_Ok Hg k a Ha <- Hst.
  destruct (si_adopted _ Hi _ _ Ha Hst) as (row & Hrow & Hpos).
  destruct (ld_row _ _ _ L) as (row' & Hrow' & Hs). subst s. cbn in Hg.
  assert (row' = row) as -> by congruence. lia.
Qed.

Ltac seq l := eapply triple_seq; [apply l|apply armable_inv|intros ?].

Lemma arm_spawn_kept child chrome workspace now age :
  holds spawn_inv (arm_child_spawn child chrome workspace now age).
Proof.
  unfold arm_child_spawn. apply holds_bind; [apply holds_time, spawn_inv_stable|intros ts].
  apply holds_bind; [apply fetch_holds|intros d].
  eapply triple_bind; [apply triple_fetch, spawn_inv_stable|]. intros protocol. cbv zeta.
  match goal with |- context [let '(_, _) := ?x in _] => destruct x as [project_id blockers] end.
  apply (triple_pre (armable (ws_generation protocol = 0) child)); last first.
  { intros w [Hi L]. split; [done|]. by apply unworked_uncompleted. }
  seq fetch_kept. seq query_kept. seq query_kept. seq scan_kept.
  match goal with |- kept _ (match ?x with _ => _ end) => destruct x eqn:Hx end;
    [|apply kept_lift, armable_inv].
  apply app_nil in Hx as [_ Hx]. apply app_nil in Hx as [_ Hx]. apply app_nil in Hx as [Hx _].
  assert (ws_generation protocol = 0) as Hg.
  { destruct (ws_generation protocol =? 0) eqn:Hg; [by apply Z.eqb_eq|].
    by rewrite orb_true_r in Hx. }
  do 2 (eapply triple_seq; [apply holds_uuid, armable_stable|apply armable_inv|intros ?]).
  eapply triple_seq; [apply holds_lift|apply armable_inv|intros tagged].
  match goal with
  | |- triple _ (call (record_child_spawn_attempt ?a)) _ _ => by apply (record_spawn_kept _ a Hg)
  end.
Qed.

End Programs.
