(* ===== verification/SpawnHistory.v ===== *)
(** * The guarantees of the child spawns

    Over any history of spawn programs and batches, each of which may be killed anywhere: a
    window is requested once per attempt, the prompt of a child is sent again only when the
    transport had said that it was not sent, the second-stage click is used once, and an
    attempt completes only on the observation of the conversation it adopts. *)

From S2P Require Import Prelude PyFloat PyStr PyUrl PyJson Models ProjectUrl.
From S2P Require Import WorkerProtocol Registry AttemptTables Persistence PersistenceFacts.
From S2P Require Import PersistenceTheorems ProbeOps Reconcile Actions Leases Programs Spawns.
From S2P Require Import Replacement ChildDispatch Workers Runs ChildSpawn ChildBatch.
From S2P Require Import SpawnSteps SpawnPrograms.

Open Scope string_scope.
Open Scope Z_scope.
Open Scope list_scope.

(** ** The batch *)

Create HintDb spawn_kept discriminated.
#[export] Hint Constants Opaque : spawn_kept.
#[export] Hint Resolve fetch_holds query_holds scan_holds arm_spawn_kept open_kept prompt_kept
  annotate_holds : spawn_kept.

Ltac keep := walk_holds ltac:(eauto with spawn_kept).

Section Batch.
Context {tables : UnicodeTables} {check : NetlocCheck} {digests : Digests}.
Context {formatting : Formatting} {env : RunEnv Registry} {uuids : Uuids}.
Context {alone : SpawnsAlone env}.
Context (loader : nat → string → res WorkspaceObservation).
Context (factory : string → ChildSpawnTransport).

Lemma snapshot_kept ids : holds spawn_inv (_pool_snapshot ids).
Proof.
  unfold _pool_snapshot, survey_child, survey_completed. keep.
  apply holds_frame; [apply spawn_inv_stable|done|]. intros ? ? ? ? _ [= <- _]. done.
Qed.

Lemma refresh_kept ids report : holds spawn_inv (_refresh_counts ids report).
Proof.
  unfold _refresh_counts, count_children, dispatched_child, bound_child, pending_child.
  apply holds_bind; [apply snapshot_kept|intros p]. cbv zeta. keep.
Qed.

Lemma clear_kept worker :
  holds spawn_inv (txn (λ _ r, Ok (clear_worker_window_binding r worker))).
Proof.
  apply holds_frame; [apply spawn_inv_stable|done|]. intros ? ? ? ? _ [= <- _]. done.
Qed.

Lemma closed_kept answer child :
  holds spawn_inv (ask answer (λ r a, [WindowClosed r child a])).
Proof.
  apply triple_ask; [apply spawn_inv_stable| |done]. intros w x [Hk Hr Hn Hs Hc Hl]. cbv zeta.
  assert (spawn_inv (w <| w_log := w_log w ++ [WindowClosed (w_store w) child x] |>)) as H.
  { constructor; cbn; try done; [| |by apply spawn_log_snoc].
    - intros k a Ha. apply row_ok_snoc; [by eapply Hr|done|done].
    - intros e a [He| ->%list_elem_of_singleton]%elem_of_app Ha; [by eapply Hn|done]. }
  by destruct x.
Qed.

Lemma unlogged_kept {A} (answer : nat → res A) : holds spawn_inv (ask answer unlogged).
Proof.
  apply triple_ask; [apply spawn_inv_stable| |done]. intros w x Hw. cbv zeta.
  assert (spawn_inv (w <| w_log := w_log w ++ unlogged (w_store w) x |>)) as H.
  { unfold unlogged. rewrite app_nil_r. by destruct w. }
  by destruct x.
Qed.

Lemma close_kept report w : holds spawn_inv (close_terminal factory report w).
Proof.
  unfold close_terminal, close_window.
  repeat first [ apply closed_kept | apply clear_kept | progress keep
               | apply (holds_step spawn_inv), spawn_inv_stable ].
Qed.

Lemma advance_kept ids windows chrome ls age report child :
  holds spawn_inv (advance_child loader factory ids windows chrome ls age report child).
Proof.
  unfold advance_child, arm_child, open_child, send_child, execute_open, stop_blocked.
  repeat first [ apply snapshot_kept | apply refresh_kept | apply unlogged_kept | progress keep ].
Qed.

Lemma preflight_kept report child : holds spawn_inv (preflight_child report child).
Proof. unfold preflight_child. keep. Qed.

Lemma batch_kept parent windows chrome ls age close :
  holds spawn_inv (advance_child_dispatch_batch loader factory parent windows chrome ls age close).
Proof.
  unfold advance_child_dispatch_batch, preflight_child, advance_children.
  repeat first [ apply snapshot_kept | apply refresh_kept | apply close_kept
               | apply advance_kept | progress keep ].
Qed.

End Batch.

(** ** Histories *)

(** One program from its start to its end; each may be killed between any two of its steps,
    and the other processes run between them. *)
Inductive spawn_step :=
  | Arm (child chrome : string) (workspace : option WorkspaceObservation) (now : option float)
      (max_evidence_age_s : float)
  | Open (id : string) (transport : ChildSpawnTransport) (worker : option WorkerRecord)
      (binding : option WorkerWindowBinding) (old : option ChildSpawnAttempt)
      (now : option float)
  | Send (id : string) (transport : ChildSpawnTransport) (lease_seconds cooldown_s : float)
      (now : option float)
  | Reconcile (id : string) (transport : ChildSpawnTransport) (lease_seconds : float)
      (now : option float)
  | Batch (loader : nat → string → res WorkspaceObservation)
      (factory : string → ChildSpawnTransport) (parent : string) (max_windows : Z)
      (chrome : string) (lease_seconds max_evidence_age_s : float) (close_terminal : bool).

Section History.
Context {tables : UnicodeTables} {check : NetlocCheck} {digests : Digests}.
Context {formatting : Formatting} {env : RunEnv Registry} {uuids : Uuids}.

Definition spawn_do (w : SpawnWorld) (s : spawn_step) : SpawnWorld :=
  match s with
  | Arm child chrome workspace now age => (arm_child_spawn child chrome workspace now age w).1
  | Open id transport worker binding old now =>
      (execute_child_spawn_open id transport worker binding old now w).1
  | Send id transport ls cool now => (execute_child_spawn_prompt id transport ls cool now w).1
  | Reconcile id transport ls now => (reconcile_child_spawn id transport ls now w).1
  | Batch loader factory parent windows chrome ls age close =>
      (advance_child_dispatch_batch loader factory parent windows chrome ls age close w).1
  end.

Definition spawn_run (w : SpawnWorld) (steps : list spawn_step) : SpawnWorld :=
  foldl spawn_do w steps.

(** A registry before its first spawn attempt. *)
Definition spawn_start (r : Registry) : SpawnWorld := Runs.mkWorld r 0 [].

Lemma start_inv r : rg_child_spawns r = ∅ → spawn_inv (spawn_start r).
Proof.
  intros E. assert (spawns r = ∅) as Es by (unfold spawns; by rewrite E, fmap_empty).
  constructor; cbn; rewrite ?Es.
  - by apply empty_spawns_ok.
  - by intros k a.
  - by intros e a ?%not_elem_of_nil.
  - by intros k1 k2 a1 a2.
  - by intros k a.
  - by intros [] e after.
Qed.

Lemma ran {A} P (m : srun A) w : holds P m → P w → P (m w).1.
Proof.
  intros H Hw. pose proof (H w) as Hm. destruct (m w) as [w' []];
    by specialize (Hm _ _ Hw eq_refl).
Qed.

Context {alone : SpawnsAlone env}.

Lemma do_inv w s : spawn_inv w → spawn_inv (spawn_do w s).
Proof.
  intros Hw. destruct s; cbn; apply ran; try done;
    eauto using arm_spawn_kept, open_kept, prompt_kept, reconcile_kept, batch_kept.
Qed.

Lemma history_inv r steps :
  rg_child_spawns r = ∅ → spawn_inv (spawn_run (spawn_start r) steps).
Proof.
  intros E. unfold spawn_run. generalize (start_inv r E). generalize (spawn_start r).
  induction steps as [|s steps IH]; intros w Hw; cbn; [done|]. by apply IH, do_inv.
Qed.

(** ** The guarantees *)

(** The row of the attempt [a], as a call finds it, is in state [st]. *)
Definition written_ahead (s : Registry) (a : ChildSpawnAttempt) (st : ChildSpawnAttemptState.t)
    : Prop :=
  spawns s !! sa_attempt_id a = Some a ∧ sa_state a = st.

Lemma never_elem (p : spawn_event → Prop) log e : never p log → e ∈ log → ¬ p e.
Proof. intros H He. by apply (proj1 (Forall_forall _ _) H). Qed.

(** C2: Every external effect of a spawn is preceded by its durable state, and a child gets its
    prompt at most once.  Over any history of programs and batches, killed anywhere and under
    any answers of the browser: a window is requested only for an attempt whose row says
    WINDOW_OPEN_SUBMITTED, and once per attempt.  A prompt is sent only for a row in
    PROMPT_SUBMITTED; it is the persisted prompt whose hash the attempt recorded; every earlier
    send for that child, in whichever attempt, was answered with a rate limit or with the
    statement that nothing was sent; and no draft was invoked for the child.  A draft is invoked
    once per child, and only after the row says so. *)
Theorem spawn_effects_are_fenced r steps before e after :
  rg_child_spawns r = ∅ →
  w_log (spawn_run (spawn_start r) steps) = before ++ e :: after →
  match e with
  | WindowRequested s a _ _ =>
      written_ahead s a ChildSpawnAttemptState.WINDOW_OPEN_SUBMITTED ∧
      ∀ s' a' source answer, WindowRequested s' a' source answer ∈ before →
        sa_attempt_id a' ≠ sa_attempt_id a
  | PromptSent s a prompt _ =>
      written_ahead s a ChildSpawnAttemptState.PROMPT_SUBMITTED ∧
      (∃ d, cd_child_task_id d = sa_child_task_id a ∧ cd_prompt_text d = prompt ∧
         cd_prompt_sha256 d = sa_prompt_sha256 a) ∧
      (∀ s' a' prompt' answer, PromptSent s' a' prompt' answer ∈ before →
         sa_child_task_id a' = sa_child_task_id a → resendable answer = true) ∧
      (∀ s' a' prompt' url answer, DraftInvoked s' a' prompt' url answer ∈ before →
         sa_child_task_id a' ≠ sa_child_task_id a)
  | DraftInvoked s a _ _ _ =>
      written_ahead s a ChildSpawnAttemptState.PROMPT_SUBMITTED ∧
      jtruthy (dget "delivery_second_send_used" (sa_metadata a)) = true ∧
      ∀ s' a' prompt' url answer, DraftInvoked s' a' prompt' url answer ∈ before →
        sa_child_task_id a' ≠ sa_child_task_id a
  | _ => True
  end.
Proof.
  intros E H. pose proof (si_log _ (history_inv r steps E) _ _ _ H) as He.
  destruct e as [s a src ans|s a p ans|s a p u ans|s a ans|s a ans|s c ans]; cbn in He; try done.
  - destruct He as (Ha & Hst & Hn). split; [by split|]. intros s' a' src' ans' Hin Hid.
    exact (never_elem _ _ _ Hn Hin Hid).
  - destruct He as (Ha & Hst & Hn & Hd). split_and!; [by split|done| |].
    + intros s' a' p' ans' Hin Hid. destruct (resendable ans') eqn:Hr; [done|].
      destruct (never_elem _ _ _ Hn Hin). by exists a'.
    + intros s' a' p' u ans' Hin Hid. destruct (never_elem _ _ _ Hn Hin). by exists a'.
  - destruct He as (Ha & Hst & Hu & Hn). split_and!; [by split|done|].
    intros s' a' p' u' ans' Hin Hid. destruct (never_elem _ _ _ Hn Hin). by exists a'.
Qed.

(** C22: An attempt completes only on evidence.  A stored attempt that is COMPLETED has in the
    history an observation of its own window, either of the route or of the delivery of the
    prompt, and the conversation that it stored is the observed one, in its own project. *)
Theorem spawn_completion_is_observed r steps a :
  rg_child_spawns r = ∅ →
  spawns (w_store (spawn_run (spawn_start r) steps)) !! sa_attempt_id a = Some a →
  sa_state a = ChildSpawnAttemptState.COMPLETED →
  ∃ url, sa_conversation_url a = strip_or_none url ∧
    web_conversation_project_id url = Some (sa_project_id a) ∧
    ∃ s b, sa_attempt_id b = sa_attempt_id a ∧
      ((∃ x, RouteObserved s b (Ok x) ∈ w_log (spawn_run (spawn_start r) steps) ∧
             ce_url x = Some url) ∨
       (∃ o, DeliveryObserved s b (Ok o) ∈ w_log (spawn_run (spawn_start r) steps) ∧
             co_url o = url ∧ co_delivered o = true)).
Proof.
  intros E Ha Hst. pose proof (history_inv r steps E) as Hi.
  pose proof (ro_done _ _ (si_rows _ Hi _ _ Ha) Hst) as He.
  apply Exists_exists in He as (e & Hin & url & Hp & Hu & He). exists url.
  split_and!; [done|done|].
  destruct e as [?|?|?|s b [x|]|s b [o|]|?]; cbn in He; try done; exists s, b.
  - destruct He as [Hid Hx]. eauto 6.
  - destruct He as (Hid & Hx & Hd). eauto 7.
Qed.

End History.
