(* ===== verification/BatchTheorems.v ===== *)
(** * The batch: failing closed, and the windows it may use

    A batch whose children have an unresolved effect changes nothing, and the window of every
    opening in a batch is one that its child no longer needs, or a new one within the bound.
    Here the batch is the only process at work: what it reads is what it finds when it acts.
    It may still be killed anywhere, and the browser may answer anything. *)

From S2P Require Import Prelude PyFloat PyStr PyUrl PyJson Models ProjectUrl.
From S2P Require Import WorkerProtocol Registry Persistence PersistenceFacts.
From S2P Require Import PersistenceTheorems ProbeOps AttemptTables Reconcile Actions Leases.
From S2P Require Import Programs Spawns Replacement ChildDispatch Workers Runs ChildSpawn ChildBatch.
From S2P Require Import SpawnSteps SpawnPrograms SpawnHistory.

Open Scope string_scope.
Open Scope Z_scope.
Open Scope list_scope.

(** No other process writes. *)
Class Alone (env : RunEnv Registry) := others_idle : ∀ n r, run_others n r = r.

Section Quiet.
Context {tables : UnicodeTables} {check : NetlocCheck} {digests : Digests}.
Context {formatting : Formatting} {env : RunEnv Registry} {uuids : Uuids}.
Context {quiet : Alone env}.

Lemma step_idle w w' o :
  step (Ev := spawn_event) w = (w', o) → w_store w' = w_store w ∧ w_log w' = w_log w.
Proof.
  unfold step. cbv zeta. rewrite others_idle. by destruct (run_killed _); intros [= <- _].
Qed.

#[local] Instance quiet_calm : Calm Registry spawn_event := {| step_calms := step_idle |}.

(** The registry is [r] and the log is [l]. *)
Definition at_rest (r : Registry) (l : list spawn_event) (w : SpawnWorld) : Prop :=
  w_store w = r ∧ w_log w = l.

Lemma at_rest_stable r l : stable (at_rest r l).
Proof. intros w w' [Es El] [<- <-]. done. Qed.

Section Reads.
Context (r : Registry) (l : list spawn_event).
Notation rest := (at_rest r l).

(** A transaction that reads. *)
Lemma reads_txn {A} (m : float → Registry → res (Registry * A)) (Φ : A → Prop) :
  (∀ now r' a, m now r = Ok (r', a) → r' = r ∧ Φ a) →
  triple rest (txn m) (λ a w, rest w ∧ Φ a) rest.
Proof.
  intros Hm. apply triple_txn; [apply at_rest_stable| |done].
  intros now w r' a [<- <-] [-> Ha]%Hm. split; [|done]. by split.
Qed.

Lemma reads_row {A} (m : Registry → res A) :
  triple rest (fetch_row m) (λ a w, rest w ∧ m r = Ok a) rest.
Proof.
  apply (reads_txn _ (λ a, m r = Ok a)). by intros now r' a (x & Hx & [= <- <-])%bind_Ok.
Qed.

Lemma reads_query {A} (m : Registry → A) :
  triple rest (query m) (λ a w, rest w ∧ a = m r) rest.
Proof. apply (reads_txn _ (λ a, a = m r)). by intros now r' a [= <- <-]. Qed.

Lemma reads_scan child :
  spawns_ok r →
  triple rest (txn (λ _ r, unresolved_child_spawn_attempt r child))
    (λ o w, rest w ∧ o = next_where (λ a, spawn_unresolved (sa_state a))
                           (csr_payload <$> spawn_rows r child)) rest.
Proof.
  intros Hok. apply reads_txn. intros now r' a. rewrite (scan_reads _ _ Hok).
  by intros [= <- <-].
Qed.

Lemma rest_ret {A} (a : A) (Φ : A → Prop) :
  Φ a → triple rest (mret a) (λ x w, rest w ∧ Φ x) rest.
Proof. intros Ha. by apply triple_mret. Qed.

(** ** The preflight *)

(** The child has an effect whose outcome is unknown. *)
Definition unsettled (child : string) : Prop :=
  (∃ a, unresolved_action_attempt r child = Ok (Some a)) ∨
  is_Some (unresolved_replacement_attempt r child) ∨
  (∃ a, spawns r !! sa_attempt_id a = Some a ∧ sa_child_task_id a = child ∧
     ambiguous_state (sa_state a) = true).

Lemma stop_stops report child reason action attempt :
  br_stopped (_stop report child reason action attempt) = true.
Proof. done. Qed.

Lemma ambiguous_unresolved s : ambiguous_state s = true → spawn_unresolved s = true.
Proof. by destruct s. Qed.

Lemma preflight_reads report child :
  spawns_ok r →
  triple rest (preflight_child report child)
    (λ y w, rest w ∧ match y with
                     | inl stopped => br_stopped stopped = true
                     | inr _ => ¬ unsettled child
                     end) rest.
Proof.
  intros Hok. unfold preflight_child. cbv zeta.
  eapply triple_bind; [apply reads_row|]. intros action. apply triple_pure. intros Ha.
  destruct action as [a|]; [by apply rest_ret|].
  eapply triple_bind; [apply reads_query|]. intros replacement. apply triple_pure. intros ->.
  destruct (unresolved_replacement_attempt r child) as [b|] eqn:Hb; [by apply rest_ret|].
  eapply triple_bind; [by apply reads_scan|]. intros o. apply triple_pure. intros Ho.
  assert (∀ y : ChildBatchReport,
    (∀ a, o = Some a → ambiguous_state (sa_state a) = false) → ¬ unsettled child) as Hfree.
  { intros _ Hno [[x Hx]|[Hx|(x & Hx & Hc & Hs)]].
    - congruence.
    - rewrite Hb in Hx. by destruct Hx.
    - apply spawns_lookup in Hx as (row & Hrow & <-).
      pose proof (proj2 (scan_finds r child (csr_payload row) Hok)) as Hf.
      rewrite <- Ho in Hf. rewrite Hno in Hs; [done|]. apply Hf.
      split_and!; [done|by apply ambiguous_unresolved|]. by rewrite <- (so_agree _ Hok _ _ Hrow). }
  destruct o as [a|]; [|apply rest_ret; by apply Hfree].
  destruct (ambiguous_state (sa_state a)) eqn:Hs; [by apply rest_ret|].
  apply rest_ret. apply Hfree; [done|]. by intros ? [= <-].
Qed.

End Reads.

(** C24: A batch fails closed.  When a probe window operation is unresolved, or one of the
    children of the parent has an unresolved action, an unresolved replacement, or a spawn in a
    state that does not say what happened, then the batch changes neither the registry nor the
    browser, and its report is stopped; it is only ended earlier by an exception or a kill. *)
Theorem batch_fails_closed loader factory parent windows chrome ls age close w w' o :
  spawns_ok (w_store w) →
  is_Some (unresolved_probe_mutation_operation (w_store w)) ∨
  (∃ d, d ∈ child_dispatches_for_parent (w_store w) parent ∧
     unsettled (w_store w) (cd_child_task_id d)) →
  advance_child_dispatch_batch loader factory parent windows chrome ls age close w = (w', o) →
  w_store w' = w_store w ∧ w_log w' = w_log w ∧
  ∀ report, o = Done report → br_stopped report = true.
Proof.
  intros Hok Hb. set (r := w_store w) in *. set (l := w_log w).
  assert (triple (at_rest r l)
    (advance_child_dispatch_batch loader factory parent windows chrome ls age close)
    (λ report w, at_rest r l w ∧ br_stopped report = true) (at_rest r l)) as Ht.
  { unfold advance_child_dispatch_batch.
    destruct (_ || _); [by intros v v' x Hv [= <- <-]|].
    destruct (fle _ _); [by intros v v' x Hv [= <- <-]|].
    eapply triple_bind; [apply reads_query|]. intros ds. apply triple_pure. intros ->.
    cbv zeta. eapply triple_bind; [apply reads_query|]. intros probe. apply triple_pure.
    intros ->. destruct (unresolved_probe_mutation_operation r) as [op|] eqn:Hp;
      [by apply rest_ret|].
    destruct Hb as [[]|(d & Hd & Hblocked)]; [done|].
    eapply triple_bind.
    { eapply triple_weaken;
        [apply (triple_loop (λ done _ w, at_rest r l w ∧ ∀ c, c ∈ done → ¬ unsettled r c)
                  (λ rep w, at_rest r l w ∧ br_stopped rep = true))| |done|].
      - intros done c s. apply triple_pure. intros Hdone.
        eapply triple_post; [by apply preflight_reads|]. intros [rep|s'] v [Hv Hy]; [done|].
        split; [done|]. intros c' [?| ->%list_elem_of_singleton]%elem_of_app; auto.
      - intros v Hv. split; [done|]. by intros c ?%not_elem_of_nil.
      - done. }
    intros [rep|rep]; [by apply triple_mret|]. apply triple_pure. intros Hfree.
    destruct (Hfree (cd_child_task_id d)); [by apply list_elem_of_fmap_2|done]. }
  intros H. specialize (Ht w w' o). destruct o as [rep|e|]; cbn in Ht.
  - destruct Ht as [[-> ->] Hs]; [done|done|]. split_and!; [done|done|]. by intros ? [= <-].
  - destruct Ht as [-> ->]; [done|done|]. done.
  - destruct Ht as [-> ->]; [done|done|]. done.
Qed.

End Quiet.

(** * The window pool of a batch

    What the survey of the pool finds, which windows an opening may take, and that every
    opening in a batch takes such a window. *)

(** ** Windows in use *)

Section Pages.
Context (r : Registry) (ids : list string).

(** The page of the current worker of a child. *)
Definition worker_page (child : string) (task : TaskRecord) (worker : WorkerRecord)
    (b : WorkerWindowBinding) : Prop :=
  get_task r child = Ok task ∧
  (∃ id, present_text (tr_current_worker_id task) = Some id ∧ get_worker r id = Ok worker) ∧
  rg_window_bindings r !! wr_worker_id worker = Some b.

(** The window of a worker or of an open attempt of one of the children. *)
Definition in_use (key : Z * Z) : Prop :=
  (∃ child task worker b, child ∈ ids ∧ worker_page child task worker b ∧
     key = (wb_window_handle b, wb_browser_pid b)) ∨
  (∃ a, sa_child_task_id a ∈ ids ∧ spawns r !! sa_attempt_id a = Some a ∧
     spawn_unresolved (sa_state a) = true ∧
     _window_key (sa_window_handle a) (sa_browser_pid a) = Some key).

(** A page that its child does not need any more: the child is completed, or its worker has a
    durable session. *)
Definition released_page (child : string) (task : TaskRecord) : Prop :=
  child ∈ ids ∧ get_task r child = Ok task ∧
  (task_completed task = true ∨ opt_truthy (tr_lsm_session_id task) = true).

Definition kept_page (old : ChildSpawnAttempt) (key : Z * Z) : Prop :=
  sa_child_task_id old ∈ ids ∧ sa_state old = ChildSpawnAttemptState.COMPLETED ∧
  _spawn_page_unconsumed old = true ∧
  _window_key (sa_window_handle old) (sa_browser_pid old) = Some key ∧
  (∃ task, get_task r (sa_child_task_id old) = Ok task ∧ task_completed task = true).

Definition reusable_ok (x : _ReusableWindow) : Prop :=
  (∃ task worker b, released_page (rw_child_task_id x) task ∧
     worker_page (rw_child_task_id x) task worker b ∧
     rw_worker x = Some worker ∧ rw_binding x = Some b) ∨
  (∃ old key, rw_worker x = None ∧ rw_source_spawn x = Some old ∧
     rw_child_task_id x = sa_child_task_id old ∧ kept_page old key ∧ ¬ in_use key).

Record pool_ok (p : pool) : Prop := {
  po_covers : ∀ key, in_use key → key ∈ pl_windows p;
  po_reusable : ∀ x, x ∈ pl_reusable p → reusable_ok x;
}.

End Pages.

(** What an opening for the child may take. *)
Definition may_take (r : Registry) (ids : list string) (max_windows : Z) (child : string)
    (source : window_source) : Prop :=
  match source with
  | NewWindow =>
      ∃ X : gset (Z * Z), (∀ key, in_use r ids key → key ∈ X) ∧ Z.of_nat (size X) < max_windows
  | WorkerWindow worker b =>
      ∃ other task, other ≠ child ∧ released_page r ids other task ∧
        worker_page r other task worker b
  | SpawnWindow old =>
      sa_child_task_id old ≠ child ∧ ∃ key, kept_page r ids old key ∧ ¬ in_use r ids key
  end.

Lemma chosen_source r ids p windows child source from :
  pool_ok r ids p → choose_source p windows child = Some (source, from) →
  may_take r ids windows child source.
Proof.
  intros [Hc Hr]. unfold choose_source. cbv zeta.
  assert (∀ f : option (string * string),
    (if Z.of_nat (size (pl_windows p)) <? windows then Some (NewWindow, None) else None) =
    Some (source, f) → may_take r ids windows child source) as Hnew.
  { intros f. destruct (_ <? _) eqn:E; [|done]. intros [= <- _]. bool_to_prop.
    by exists (pl_windows p). }
  destruct (next_where _ _) as [x|] eqn:Hx; [|apply Hnew].
  apply next_where_Some in Hx as [Hx Hne]. apply negb_true_iff, String.eqb_neq in Hne.
  destruct (Hr x Hx) as [(task & worker & b & Hrel & Hpage & -> & ->)|
                         (old & key & -> & -> & Hchild & Hkept & Hfree)].
  - intros [= <- _]. by exists (rw_child_task_id x), task.
  - intros [= <- _]. split; [congruence|]. by exists key.
Qed.

(** ** The survey *)

Section Survey.
Context {env : RunEnv Registry} {quiet : Alone env}.
Context (r : Registry) (l : list spawn_event) (ids : list string) (Hok : spawns_ok r).
Notation rest := (at_rest r l).

#[local] Existing Instance quiet_calm.

(** The pool after the children [done]. *)
Definition surveyed (done : list string) (p : pool) : Prop :=
  (∀ key, in_use r done key → key ∈ pl_windows p) ∧
  (∀ x, x ∈ pl_reusable p → ∃ task worker b, released_page r ids (rw_child_task_id x) task ∧
     worker_page r (rw_child_task_id x) task worker b ∧
     rw_worker x = Some worker ∧ rw_binding x = Some b).

Lemma survey_child_reads done p child :
  child ∈ ids → surveyed done p →
  triple rest (survey_child p child)
    (λ p' w, rest w ∧ surveyed (done ++ [child]) p') rest.
Proof.
  intros Hin [Hu Hr]. unfold survey_child.
  eapply triple_bind; [apply reads_row|]. intros task. apply triple_pure. intros Ht.
  set (ok := λ p' : pool, surveyed done p' ∧ ∀ worker b, worker_page r child task worker b →
    (wb_window_handle b, wb_browser_pid b) ∈ pl_windows p').
  assert (surveyed done p) as Hp by done.
  apply (triple_bind _ _ _ (λ p' w, rest w ∧ ok p')).
  - destruct (present_text _) as [id|] eqn:Hid; last first.
    { apply rest_ret. split; [done|]. intros worker b (_ & (id & Hid' & _) & _). congruence. }
    eapply triple_bind; [apply reads_row|]. intros worker. apply triple_pure. intros Hw.
    eapply triple_bind.
    { apply (reads_txn _ _ _ (λ b, b = rg_window_bindings r !! wr_worker_id worker)).
      intros now r' a [= <- <-]. split; [done|]. unfold get_worker_window_binding.
      by destruct (_ !! _). }
    intros b. apply triple_pure. intros Hb. apply rest_ret.
    assert (∀ v c, worker_page r child task v c → v = worker ∧ Some c = b) as Huniq.
    { intros v c (_ & (id' & Hid' & Hv) & Hc). assert (v = worker) as -> by congruence.
      split; congruence. }
    destruct b as [b|]; last first.
    { split; [done|]. by intros v c [_ [=]]%Huniq. }
    assert (worker_page r child task worker b) as Hpage.
    { split_and!; [done|by exists id|done]. }
    unfold pool_binding, ok, surveyed. cbv zeta.
    destruct (_ || _) eqn:Hrel; cbn; split.
    + split; [set_solver|]. intros x [Hx| ->%list_elem_of_singleton]%elem_of_app; [by apply Hr|].
      exists task, worker, b. apply orb_true_iff in Hrel. done.
    + intros v c [-> [= ->]]%Huniq. set_solver.
    + split; [set_solver|done].
    + intros v c [-> [= ->]]%Huniq. set_solver.
  - intros p1. apply triple_pure. intros [[Hu1 Hr1] Hpage].
    eapply triple_bind; [by apply reads_scan|]. intros o. apply triple_pure. intros Ho.
    apply rest_ret. set (p' := match _ with Some _ => _ | None => _ end).
    assert (pl_windows p1 ⊆ pl_windows p' ∧ pl_reusable p' = pl_reusable p1) as [Hsub Hsame].
    { unfold p'. destruct (o ≫= _); cbn; set_solver. }
    split; [|by rewrite Hsame]. intros key [(c & t & v & b & Hc & Hp1 & ->)|(a & Hc & Ha & Hun & Hk)].
    + apply Hsub. apply elem_of_app in Hc as [Hc| ->%list_elem_of_singleton].
      * apply Hu1. left. by exists c, t, v, b.
      * assert (t = task) as -> by (destruct Hp1; congruence). by eapply Hpage.
    + apply elem_of_app in Hc as [Hc|Hc%list_elem_of_singleton].
      * apply Hsub, Hu1. right. by exists a.
      * assert (o = Some a) as ->.
        { rewrite Ho. apply scan_finds; [done|]. split_and!; [done|done|].
          apply spawns_lookup in Ha as (row & Hrow & <-). by rewrite <- (so_agree _ Hok _ _ Hrow). }
        unfold p'. cbn [mbind option_bind]. rewrite Hk. cbn. set_solver.
Qed.

(** ** The completed attempts *)

(** The entries of the dict of the latest attempts. *)
Definition latest_ok (d : latest) : Prop :=
  ∀ key a, (key, a) ∈ d → completed_window a = Some key ∧ sa_child_task_id a ∈ ids.

Lemma put_latest_elem key a d k b :
  (k, b) ∈ put_latest key a d → (k, b) = (key, a) ∨ (k, b) ∈ d.
Proof.
  induction d as [|[k' b'] d IH]; cbn.
  - intros ->%list_elem_of_singleton. by left.
  - destruct (bool_decide (k' = key)) eqn:E.
    + bool_to_prop. subst k'. destruct (attempt_newer a b'); intros [H|H]%elem_of_cons;
        rewrite ?elem_of_cons; auto.
    + intros [H|H]%elem_of_cons; rewrite elem_of_cons; [auto|]. destruct (IH H); auto.
Qed.

Lemma note_completed_ok d a :
  latest_ok d → sa_child_task_id a ∈ ids → latest_ok (note_completed d a).
Proof.
  intros Hd Ha. unfold note_completed. destruct (completed_window a) as [key|] eqn:E; [|done].
  intros k b [[= -> ->]|H]%put_latest_elem; [done|by apply Hd].
Qed.

Lemma note_all_ok d attempts :
  latest_ok d → (∀ a, a ∈ attempts → sa_child_task_id a ∈ ids) →
  latest_ok (foldl note_completed d attempts).
Proof.
  revert d. induction attempts as [|a attempts IH]; intros d Hd Ha; cbn; [done|].
  apply IH; [|intros b Hb; apply Ha; by right]. apply note_completed_ok; [done|].
  apply Ha. by left.
Qed.

Lemma attempts_child child limit a :
  a ∈ child_spawn_attempts r child limit → sa_child_task_id a = child.
Proof.
  unfold child_spawn_attempts. intros H%elem_of_take. destruct H as (i & Hi & _).
  apply list_elem_of_lookup_2 in Hi.
  apply list_elem_of_fmap in Hi as (row & -> & Hrow).
  apply elem_of_py_sorted, elem_of_select in Hrow as [Hc _]. by apply String.eqb_eq.
Qed.

Lemma completed_window_Some a key :
  completed_window a = Some key →
  sa_state a = ChildSpawnAttemptState.COMPLETED ∧ _spawn_page_unconsumed a = true ∧
  _window_key (sa_window_handle a) (sa_browser_pid a) = Some key.
Proof.
  unfold completed_window. destruct (_ || _) eqn:E; [done|]. intros H.
  apply orb_false_iff in E as [E1%negb_false_iff%bool_decide_eq_true E2%negb_false_iff].
  destruct (_window_key _ _) as [k|]; [|done]. cbn in H. destruct (opt_truthy _); [|done].
  by injection H as ->.
Qed.

Lemma survey_completed_reads p entry :
  pool_ok r ids p → completed_window entry.2 = Some entry.1 → sa_child_task_id entry.2 ∈ ids →
  triple rest (survey_completed p entry) (λ p' w, rest w ∧ pool_ok r ids p') rest.
Proof.
  intros Hp Hw Hin. destruct entry as [key a]. cbn in Hw, Hin. unfold survey_completed.
  destruct (bool_decide _) eqn:E; [by apply rest_ret|]. bool_to_prop.
  eapply triple_bind; [apply reads_row|]. intros task. apply triple_pure. intros Ht.
  destruct (negb _) eqn:Hc; [by apply rest_ret|]. apply negb_false_iff in Hc.
  apply rest_ret. destruct Hp as [Hcov Hre]. constructor; cbn.
  - intros k Hk. apply elem_of_union. right. by apply Hcov.
  - intros x [Hx| ->%list_elem_of_singleton]%elem_of_app; [by apply Hre|].
    right. exists a, key. apply completed_window_Some in Hw as (Hst & Hun & Hkey).
    split_and!; [done|done|done| |by intros ?%Hcov]. split_and!; try done. by exists task.
Qed.

Lemma snapshot_reads :
  triple rest (_pool_snapshot ids) (λ p w, rest w ∧ pool_ok r ids p) rest.
Proof.
  unfold _pool_snapshot.
  eapply triple_bind.
  { eapply triple_weaken; [apply (triple_fold_in (λ done p w, rest w ∧ surveyed done p))| | |done].
    - intros done x p Hx. apply triple_pure. by apply survey_child_reads.
    - intros w Hw. split; [done|]. split; cbn; [|by intros x ?%not_elem_of_nil].
      intros key [(c & t & v & b & Hc%not_elem_of_nil & _)|(a & Hc%not_elem_of_nil & _)]; done.
    - intros p w H. exact H. }
  intros p. apply triple_pure. intros [Hu Hr]. cbn beta.
  eapply triple_bind.
  { eapply triple_weaken; [apply (triple_fold_in (λ _ d w, rest w ∧ latest_ok d))| | |done].
    - intros done x d Hx. apply triple_pure. intros Hd.
      eapply triple_bind; [apply reads_query|]. intros attempts. apply triple_pure. intros ->.
      apply rest_ret. apply note_all_ok; [done|]. by intros a ->%attempts_child.
    - intros w Hw. split; [done|]. by intros k a ?%not_elem_of_nil.
    - intros d w H. exact H. }
  intros d. apply triple_pure. intros Hd. eapply triple_bind.
  { eapply triple_weaken; [apply (triple_fold_in (λ _ p w, rest w ∧ pool_ok r ids p))| | |done].
    - intros done [k a] p' Hx. apply triple_pure. intros Hp.
      destruct (Hd k a Hx). by apply survey_completed_reads.
    - intros w Hw. split; [exact Hw|]. constructor; [done|]. intros x Hx. by left; apply Hr.
    - intros q w H. exact H. }
  intros q. apply triple_pure. intros [Hcov Hre]. apply rest_ret. constructor; cbn; [done|].
  intros x Hx%elem_of_py_sorted. by apply Hre.
Qed.

End Survey.
