(* ===== verification/BatchWindows.v ===== *)
(** * The openings of a batch

    Every window that a batch asks for is new within the bound of the pool, or the page of
    another child that does not need it any more. *)

From S2P Require Import Prelude PyFloat PyStr PyUrl PyJson Models ProjectUrl.
From S2P Require Import WorkerProtocol Registry AttemptTables Persistence PersistenceFacts.
From S2P Require Import PersistenceTheorems ProbeOps Reconcile Actions Leases Programs Spawns.
From S2P Require Import Replacement ChildDispatch Workers Runs ChildSpawn ChildBatch.
From S2P Require Import SpawnSteps SpawnPrograms SpawnHistory BatchTheorems.

Open Scope string_scope.
Open Scope Z_scope.
Open Scope list_scope.

#[export] Instance alone_spawns env : Alone env → SpawnsAlone env.
Proof. intros H n r. by rewrite H. Qed.

Section Windows.
Context {tables : UnicodeTables} {check : NetlocCheck} {digests : Digests}.
Context {formatting : Formatting} {env : RunEnv Registry} {uuids : Uuids}.
Context {quiet : Alone env}.
Context (ids : list string) (max_windows : Z).

#[local] Existing Instance quiet_calm.

(** The window of a request may be taken, in the registry that the request finds. *)
Definition released (e : spawn_event) : Prop :=
  match e with
  | WindowRequested r a source _ => may_take r ids max_windows (sa_child_task_id a) source
  | _ => True
  end.

Context (l0 : list spawn_event).

(** The log after [l0] holds only such requests. *)
Definition logs (w : SpawnWorld) : Prop := ∃ new, w_log w = l0 ++ new ∧ Forall released new.

Lemma logs_same w w' : w_log w' = w_log w → logs w → logs w'.
Proof. unfold logs. by intros ->. Qed.

Lemma logs_stable : stable logs.
Proof. intros w w' [_ El]. by apply logs_same. Qed.

Lemma logs_step : holds logs step.
Proof. apply holds_step, logs_stable. Qed.

Lemma logs_commit {A} (m : Registry → res (Registry * A)) : holds logs (commit m).
Proof. apply triple_commit; [|done]. intros w r' a Hw _. exact Hw. Qed.

Lemma logs_txn {A} (m : float → Registry → res (Registry * A)) : holds logs (txn m).
Proof. apply triple_txn; [apply logs_stable| |done]. intros now w r' a Hw _. exact Hw. Qed.

Lemma logs_call {A} (m : prog A) : holds logs (call m).
Proof.
  unfold call, atomically. apply holds_bind; [apply logs_step|]. intros now w w' o Hw.
  unfold apply_part. destruct (m (w_store w)) as [r' [a|e]]; intros [= <- <-]; exact Hw.
Qed.

Lemma logs_tick : holds logs tick.
Proof. by intros w w' o Hw [= <- <-]. Qed.

Lemma logs_ask {A} (f : nat → res A) mk :
  (∀ r x, Forall released (mk r x)) → holds logs (ask f mk).
Proof.
  intros Hmk. apply triple_ask; [apply logs_stable| |done]. intros w x (new & El & Hn). cbv zeta.
  assert (logs (w <| w_log := w_log w ++ mk (w_store w) x |>)) as H.
  { exists (new ++ mk (w_store w) x). cbn. rewrite El, app_assoc. split; [done|].
    by apply Forall_app. }
  by destruct x.
Qed.

Lemma logs_time now : holds logs (time_or now).
Proof. destruct now; [apply holds_ret|apply logs_step]. Qed.

Ltac quietly :=
  walk_holds ltac:(first
    [ apply logs_time | apply logs_txn | apply logs_call | apply logs_tick | apply logs_step
    | apply logs_ask; intros; repeat constructor ]).

Lemma arm_logs child chrome workspace now age :
  holds logs (arm_child_spawn child chrome workspace now age).
Proof.
  unfold arm_child_spawn, fetch_row, query, uuid4. quietly.
Qed.

Lemma prompt_logs id transport ls cool now :
  holds logs (execute_child_spawn_prompt id transport ls cool now).
Proof.
  unfold execute_child_spawn_prompt, submit_child_spawn_prompt, send_submitted, send_prompt,
    confirm_delivery, second_send, invoke_draft, observe_delivery, undelivered, pause_dispatch,
    to_reconcile, update_spawn, _complete_from_bound_conversation, fetch_row, uuid4.
  quietly.
Qed.

Lemma recycled_logs source id ts : holds logs (mark_recycled source id ts).
Proof. destruct source; unfold mark_recycled, query; quietly. Qed.

Lemma bind_logs id handle pid url now : holds logs (bind_child_spawn_window id handle pid url now).
Proof. unfold bind_child_spawn_window, update_spawn, fetch_row. quietly. Qed.

Lemma snapshot_logs cs : holds logs (_pool_snapshot cs).
Proof. unfold _pool_snapshot, survey_child, survey_completed, fetch_row, query. quietly. Qed.

Lemma refresh_logs cs report : holds logs (_refresh_counts cs report).
Proof.
  unfold _refresh_counts, count_children, dispatched_child, bound_child, pending_child, fetch_row.
  apply holds_bind; [apply snapshot_logs|intros p]. cbv zeta. quietly.
Qed.

Lemma at_logs r l w w' : at_rest r l w → at_rest r l w' → logs w → logs w'.
Proof. intros [_ El] [_ El']. apply logs_same. congruence. Qed.

(** ** The opening of one window *)

Lemma update_spawn_only r id st u t r' a :
  update_child_spawn_attempt r id st u t = Ok (r', a) →
  rg_tasks r' = rg_tasks r ∧ rg_workers r' = rg_workers r ∧
  rg_window_bindings r' = rg_window_bindings r.
Proof.
  intros H. unfold update_child_spawn_attempt in H. apply bind_Ok in H as (b & _ & H).
  apply raise_if_then in H as [_ H]. cbv zeta in H. apply unit_bind_Ok in H as [_ H].
  apply bind_Ok in H as (m & _ & H). by apply bind_Ok in H as (c & _ & [= <- _]).
Qed.

(** The submission of an opening takes no window into use. *)
Lemma may_take_submitted r r' a t child source :
  spawns_ok r → spawns r !! sa_attempt_id a = Some a →
  sa_state a = ChildSpawnAttemptState.ARMED →
  rg_tasks r' = rg_tasks r → rg_workers r' = rg_workers r →
  rg_window_bindings r' = rg_window_bindings r →
  spawns r' = <[sa_attempt_id a :=
    updated_spawn a ChildSpawnAttemptState.WINDOW_OPEN_SUBMITTED no_update t]> (spawns r) →
  may_take r ids max_windows child source → may_take r' ids max_windows child source.
Proof.
  intros Hok Ha Hst Et Ew Eb Es.
  assert (∀ c task worker b, worker_page r' c task worker b ↔ worker_page r c task worker b)
    as Hpage.
  { intros c task worker b. unfold worker_page, get_task, get_worker. by rewrite Et, Ew, Eb. }
  assert (∀ c, get_task r' c = get_task r c) as Htask.
  { intros c. unfold get_task. by rewrite Et. }
  assert (∀ key, in_use r' ids key → in_use r ids key) as Huse.
  { intros key [(c & task & worker & b & Hc & Hp%Hpage & ->)|(b & Hc & Hb & Hun & Hk)].
    - left. by exists c, task, worker, b.
    - right. rewrite Es in Hb. apply lookup_insert_Some in Hb as [[Hid <-]|[_ Hb]].
      + exists a. cbn in *. split_and!; try done. by rewrite Hst.
      + by exists b. }
  destruct source as [|worker b|old]; cbn.
  - intros (X & HX & Hlt). exists X. split; [|done]. intros key Hk. by apply HX, Huse.
  - intros (other & task & Hne & (Hin & Ht & Hrel) & Hp). exists other, task.
    split_and!; [done| |by apply Hpage]. split_and!; [done|by rewrite Htask|done].
  - intros (Hne & key & (Hin & Hs & Hun & Hk & task & Ht & Hc) & Hfree). split; [done|].
    exists key. split; [|by intros ?%Huse]. split_and!; try done. exists task. by rewrite Htask.
Qed.

(** The request of the submitted attempt [a] may take the window. *)
Definition takes (source : window_source) (a : ChildSpawnAttempt) (w : SpawnWorld) : Prop :=
  logs w ∧ may_take (w_store w) ids max_windows (sa_child_task_id a) source.

Lemma open_takes r l b transport worker binding old now source :
  spawns_ok r → logs (Runs.mkWorld r 0 l) → spawns r !! sa_attempt_id b = Some b →
  source_of worker binding old = Ok source →
  may_take r ids max_windows (sa_child_task_id b) source →
  triple (at_rest r l)
    (execute_child_spawn_open (sa_attempt_id b) transport worker binding old now)
    (λ _, logs) logs.
Proof.
  intros Hok Hl Hb Hs Hmay. unfold execute_child_spawn_open. rewrite Hs. cbn [lift].
  assert (∀ w, at_rest r l w → logs w) as Hrest.
  { intros w [_ El]. by apply (logs_same (Runs.mkWorld r 0 l)). }
  apply (triple_bind _ _ _ (λ s w, at_rest r l w ∧ s = source)).
  { by intros w w' o Hw [= <- <-]. }
  intros s. apply triple_pure. intros ->. eapply triple_bind.
  { unfold submit_child_spawn_open. eapply triple_bind.
    { eapply triple_weaken; [apply reads_row|done|intros a w H; exact H|exact Hrest]. }
    intros a. apply triple_pure. intros Ha%get_spawn_Ok. assert (a = b) as -> by congruence.
    destruct (spawn_in _ b) eqn:Hst; cbn; [|intros w w' o Hw [= <- <-]; by apply Hrest].
    apply bool_decide_eq_true in Hst.
    apply (triple_txn _ _ (takes source)); [apply at_rest_stable| |exact Hrest].
    intros t w r' a [<- <-] H. pose proof (update_spawn_only _ _ _ _ _ _ _ H) as (Et & Ew & Eb).
    destruct (update_spawn_Ok _ _ _ _ _ _ _ Hok Hb H) as (_ & -> & Es & _).
    split; [exact Hl|]. cbn. by eapply may_take_submitted. }
  intros a. apply (triple_bind _ _ _ (λ _, logs)).
  { apply triple_ask; [|intros w x [(new & El & Hn) Ht]; cbv zeta|by intros w []].
    - intros w w' [E El] [Hw Ht]. split; [by eapply logs_same|]. by rewrite E.
    - assert (logs (w <| w_log := w_log w ++ [WindowRequested (w_store w) a source x] |>)) as Hw.
      { exists (new ++ [WindowRequested (w_store w) a source x]). cbn.
        rewrite El, app_assoc. split; [done|]. apply Forall_app. split; [done|].
        by apply Forall_singleton. }
      destruct x; exact Hw. }
  intros result. unfold to_reconcile, update_spawn.
  match goal with |- triple logs ?m _ _ => change (holds logs m) end.
  repeat first [apply bind_logs | apply recycled_logs | progress quietly].
Qed.

(** ** One child *)

(** The invariant, and the log so far. *)
Definition good (w : SpawnWorld) : Prop := spawn_inv w ∧ logs w.

(** The attempt is one of the child. *)
Definition attempt_of (child : string) (a : ChildSpawnAttempt) (w : SpawnWorld) : Prop :=
  ∃ b, spawns (w_store w) !! sa_attempt_id a = Some b ∧ sa_child_task_id b = child ∧
    sa_attempt_id b = sa_attempt_id a.

Lemma good_and {A} (m : srun A) : holds spawn_inv m → holds logs m → holds good m.
Proof. apply holds_and. Qed.

Lemma scan_attempt child :
  triple good (txn (λ _ r, unresolved_child_spawn_attempt r child))
    (λ o w, good w ∧ match o with Some a => attempt_of child a w | None => True end) good.
Proof.
  apply triple_txn; [| |done].
  { intros w w' [Es El] [Hi Hl]. split; [|by eapply logs_same]. eapply spawn_inv_ext; [|done|done].
    by rewrite Es. }
  intros now w r' o [Hi Hl] H. pose proof (si_ok _ Hi) as Hok.
  rewrite (scan_reads _ _ Hok) in H. injection H as <- <-.
  destruct (next_where _ _) as [a|] eqn:Ha; (split; [by destruct w|]); [|done].
  apply (scan_finds _ _ _ Hok) in Ha as (Hc & _ & Hrow). exists a. split_and!; [|done|done].
  apply spawns_lookup. by exists (row_of_attempt a).
Qed.

Lemma record_returns a :
  returns (call (record_child_spawn_attempt a))
    (λ x w, attempt_of (sa_child_task_id a) x w).
Proof.
  unfold call, atomically. apply returns_bind. intros now w w' x. unfold apply_part.
  destruct (record_child_spawn_attempt a (w_store w)) as [r' [y|e]] eqn:E; [|done].
  intros [= <- <-]. unfold record_child_spawn_attempt in E.
  apply query_bind in E as [(d & _ & E)|(e & _ & _ & [=])]. destruct (negb _); [done|].
  apply txn_bind in E as [(r1 & o & _ & E)|(e & _ & _ & [=])]. destruct o; [done|].
  apply txn_Ok in E. unfold insert_spawn in E.
  apply unit_bind_Ok in E as [_ E]. apply unit_bind_Ok in E as [_ E].
  apply bind_Ok in E as (m & [_ [_ ->]%put_row_Ok]%insert_row_Ok & E). cbv zeta in E.
  apply bind_Ok in E as (z & Hz%get_spawn_Ok & [= <- <-]).
  pose proof (spawns_insert r1 (sa_attempt_id a) (row_of_attempt a)) as Es.
  unfold attempt_of. cbn in Es, Hz |- *. rewrite Es, lookup_insert_eq in Hz. injection Hz as <-.
  exists a. rewrite Es, lookup_insert_eq. done.
Qed.

Lemma arm_returns child chrome workspace now age :
  returns (arm_child_spawn child chrome workspace now age) (attempt_of child).
Proof.
  unfold arm_child_spawn. do 3 (apply returns_bind; intros ?). cbv zeta.
  match goal with |- context [let '(_, _) := ?x in _] => destruct x as [project_id blockers] end.
  do 4 (apply returns_bind; intros ?).
  match goal with |- returns (match ?x with _ => _ end) _ => destruct x end; [|by intros w w' x].
  do 3 (apply returns_bind; intros ?).
  match goal with
  | |- returns (call (record_child_spawn_attempt ?a)) _ => exact (record_returns a)
  end.
Qed.

Section Child.
Context (loader : nat → string → res WorkspaceObservation).
Context (factory : string → ChildSpawnTransport).

Lemma stop_blocked_triple {A} P report child action attempt (m : srun A)
    (Φ : A → SpawnWorld → Prop) :
  triple P m Φ good →
  triple P (stop_blocked report child action attempt m)
    (λ y w, match y with inl _ => good w | inr a => Φ a w end) good.
Proof.
  intros Hm. unfold stop_blocked. eapply triple_try.
  - unfold fmap, eff_fmap. eapply triple_bind; [exact Hm|]. intros a. by apply triple_mret.
  - done.
  - intros e. destruct (bool_decide _); [by apply triple_mret|].
    by intros w w' o Hw [= <- <-].
Qed.

Lemma arm_good chrome age report child :
  triple good (arm_child loader chrome age report child)
    (λ y w, match y with
            | inl _ => good w
            | inr (_, a) => good w ∧ attempt_of child a w
            end) good.
Proof.
  unfold arm_child. eapply triple_bind; [apply scan_attempt|]. intros [a|].
  { by apply triple_mret. }
  eapply triple_bind.
  { eapply triple_weaken; [apply (stop_blocked_triple good _ _ _ _ _ (λ a w, good w ∧ attempt_of child a w))
                          |by intros w []|intros a w H; exact H|done].
    eapply triple_seq; [|done|intros workspace].
    - apply good_and; [apply unlogged_kept|]. apply logs_ask. intros. by constructor.
    - apply triple_returns; [|apply arm_returns]. apply good_and; [apply arm_spawn_kept|apply arm_logs]. }
  intros [r|a]; by apply triple_mret.
Qed.

Lemma send_good ls report child a : holds good (send_child factory ls report child a).
Proof.
  unfold send_child, stop_blocked. pose proof (alone_spawns env quiet) as Hothers. apply good_and.
  - keep.
  - walk_holds ltac:(first [apply prompt_logs | apply logs_txn]).
Qed.

(** The opening from a registry at rest. *)
Lemma opens r l b a source :
  good (Runs.mkWorld r 0 l) → spawns r !! sa_attempt_id a = Some b →
  sa_attempt_id b = sa_attempt_id a →
  may_take r ids max_windows (sa_child_task_id b) source →
  triple (at_rest r l) (execute_open factory a source) (λ _, good) good.
Proof.
  intros [Hi Hl] Hb Hid Hmay. rewrite <- Hid in Hb.
  assert (∀ w, at_rest r l w → spawn_inv w) as Hrest.
  { intros w [Es El]. eapply spawn_inv_ext; [| |exact Hi]; cbn; [by rewrite Es|done]. }
  unfold execute_open. rewrite <- Hid.
  destruct source as [|worker binding|old]; apply triple_and;
    try (by eapply (open_takes r l b); [apply (si_ok _ Hi)|exact Hl|exact Hb|reflexivity|]);
    (eapply triple_pre; [apply open_kept|exact Hrest]).
Qed.

Lemma open_at r l b report child a :
  good (Runs.mkWorld r 0 l) → spawns r !! sa_attempt_id a = Some b →
  sa_child_task_id b = child → sa_attempt_id b = sa_attempt_id a →
  triple (at_rest r l) (open_child factory ids max_windows report child a) (λ _, good) good.
Proof.
  intros Hg Hb <- Hid.
  assert (∀ w, at_rest r l w → good w) as Hrest.
  { intros w [Es El]. destruct Hg as [Hi Hl]. split; [|by apply (logs_same (Runs.mkWorld r 0 l))].
    eapply spawn_inv_ext; [| |exact Hi]; cbn; [by rewrite Es|done]. }
  unfold open_child. eapply triple_bind.
  { eapply triple_weaken; [apply (snapshot_reads r l ids (si_ok _ (proj1 Hg)))|done
      |intros p w H; exact H|exact Hrest]. }
  intros p. apply triple_pure. intros Hp. cbv zeta.
  destruct (choose_source p max_windows _) as [[source from]|] eqn:Hc.
  - eapply triple_bind.
    { apply (stop_blocked_triple _ _ _ _ _ _ (λ _, good)).
      eapply opens; [done|done|done|by eapply chosen_source]. }
    intros [rep|opened]; [by apply triple_mret|].
    match goal with |- triple _ ?m _ _ => change (holds good m) end.
    by walk_holds ltac:(fail).
  - eapply triple_pre; [|exact Hrest].
    match goal with |- triple _ ?m _ _ => change (holds good m) end.
    apply holds_bind; [|intros; apply holds_ret].
    apply good_and; [apply refresh_kept|apply refresh_logs].
Qed.

Lemma open_good report child a :
  triple (λ w, good w ∧ attempt_of child a w) (open_child factory ids max_windows report child a)
    (λ _, good) good.
Proof.
  intros w w' o [[Hi Hl] (b & Hb & Hchild & Hid)] H.
  apply (open_at (w_store w) (w_log w) b report child a) with (w := w); try done.
  split; [|exact Hl]. by eapply spawn_inv_ext; [| |exact Hi].
Qed.

Lemma advance_good chrome ls age report child :
  holds good (advance_child loader factory ids max_windows chrome ls age report child).
Proof.
  unfold advance_child. cbv zeta.
  apply holds_bind; [apply good_and; [apply fetch_holds|apply logs_txn]|intros task].
  destruct (task_completed task); [apply holds_ret|].
  destruct (opt_truthy _); [apply holds_ret|].
  eapply triple_bind; [apply arm_good|]. intros [rep|[rep a]]; [by apply triple_mret|].
  apply (triple_bind _ _ _ (λ _, good)).
  - destruct (spawn_in _ a); [apply open_good|]. apply triple_mret. by intros w [].
  - intros [r'|[r' a']]; [by apply triple_mret|].
    destruct (spawn_in _ a'); [apply send_good|by apply triple_mret].
Qed.

Lemma close_logs report w : holds logs (close_terminal factory report w).
Proof. unfold close_terminal, close_window, clock. quietly. Qed.

(** The part of the batch that opens windows. *)
Lemma children_good chrome ls age close report :
  holds good (advance_children loader factory ids max_windows chrome ls age close report).
Proof.
  unfold advance_children.
  repeat first
    [ apply advance_good
    | apply good_and; [apply refresh_kept|apply refresh_logs]
    | apply good_and; [apply snapshot_kept|apply snapshot_logs]
    | apply good_and; [apply close_kept|apply close_logs]
    | progress walk_holds ltac:(fail) ].
Qed.

Lemma preflight_logs report child : holds logs (preflight_child report child).
Proof. unfold preflight_child, fetch_row, query. quietly. Qed.

End Child.
End Windows.

Section Batches.
Context {tables : UnicodeTables} {check : NetlocCheck} {digests : Digests}.
Context {formatting : Formatting} {env : RunEnv Registry} {uuids : Uuids}.
Context {quiet : Alone env}.
#[local] Existing Instance quiet_calm.

(** The children of a parent. *)
Definition children (r : Registry) (parent : string) : list string :=
  cd_child_task_id <$> child_dispatches_for_parent r parent.

Lemma batch_good loader factory parent windows chrome ls age close r l :
  good (children r parent) windows l (Runs.mkWorld r 0 l) →
  triple (at_rest r l)
    (advance_child_dispatch_batch loader factory parent windows chrome ls age close)
    (λ _, good (children r parent) windows l) (good (children r parent) windows l).
Proof.
  intros Hg. set (P := good _ _ _).
  assert (∀ w, at_rest r l w → P w) as Hrest.
  { intros w [Es El]. destruct Hg as [Hi Hl]. split; [|by apply (logs_same _ _ _ (Runs.mkWorld r 0 l))].
    eapply spawn_inv_ext; [| |exact Hi]; cbn; [by rewrite Es|done]. }
  unfold advance_child_dispatch_batch.
  destruct (_ || _); [by intros w w' o Hw%Hrest [= <- <-]|].
  destruct (fle _ _); [by intros w w' o Hw%Hrest [= <- <-]|].
  eapply triple_bind.
  { eapply triple_weaken; [apply reads_query|done|intros ds w H; exact H|exact Hrest]. }
  intros ds. apply triple_pure. intros ->. cbv zeta. fold (children r parent).
  eapply triple_pre; [|exact Hrest].
  match goal with |- triple _ ?m _ _ => change (holds P m) end.
  apply holds_bind; [apply good_and; [apply query_holds|apply logs_txn]|intros probe].
  destruct probe; [apply holds_ret|].
  apply holds_bind; [|intros [rep|rep]; [apply holds_ret|apply children_good]].
  apply holds_loop. intros rep child. apply good_and; [apply preflight_kept|apply preflight_logs].
Qed.

(** C23: A batch takes no window away from a child that needs it, and stays within its bound.
    After any history of the spawn programs, every window that a batch asks for is one of three:
    a new one, when fewer than [max_windows] windows are in use by the workers and the open
    attempts of its children; the page of the current worker of another child of the batch that
    is completed or has a durable session; or the page that a completed attempt of another,
    completed child left and that no worker and no open attempt uses. *)
Theorem batch_windows_are_released r steps loader factory parent windows chrome ls age close
    before e after :
  rg_child_spawns r = ∅ →
  let w := spawn_run (spawn_start r) steps in
  w_log (spawn_do w (Batch loader factory parent windows chrome ls age close)) =
    w_log w ++ before ++ e :: after →
  match e with
  | WindowRequested s a source _ =>
      may_take s (children (w_store w) parent) windows (sa_child_task_id a) source
  | _ => True
  end.
Proof.
  intros E w H. pose proof (history_inv r steps E) as Hi. fold w in Hi.
  assert (good (children (w_store w) parent) windows (w_log w)
            (Runs.mkWorld (w_store w) 0 (w_log w))) as Hg.
  { split; [by eapply spawn_inv_ext; [| |exact Hi]|]. exists []. cbn. by rewrite app_nil_r. }
  pose proof (batch_good loader factory parent windows chrome ls age close _ _ Hg w) as Hb.
  cbn in H.
  destruct (advance_child_dispatch_batch loader factory parent windows chrome ls age close w)
    as [w' o]. cbn in H.
  assert (logs (children (w_store w) parent) windows (w_log w) w') as (new & El & Hn).
  { specialize (Hb w' o). by destruct o; apply Hb. }
  rewrite H in El. apply app_inv_head in El. subst new.
  apply Forall_app in Hn as [_ Hn]. by apply Forall_cons in Hn as [He _].
Qed.

End Batches.
