(* ===== verification/SpawnDemo.v ===== *)
(** * Spawns on concrete histories

    A child of one parent, a browser that answers, and the histories to which the theorems of
    the spawns are applied.  The last examples show what the code does where its documentation
    says otherwise. *)

From stdpp Require Import pretty.
From S2P Require Import Prelude PyFloat PyStr PyUrl PyJson Models ProjectUrl.
From S2P Require Import WorkerProtocol Registry AttemptTables Persistence PersistenceFacts.
From S2P Require Import PersistenceTheorems ProbeOps Reconcile Actions Leases Programs Spawns.
From S2P Require Import Replacement ChildDispatch ChildDispatchTheorems.
From S2P Require Import Dispatcher Workers Runs ChildSpawn ChildBatch.
From S2P Require Import SpawnSteps SpawnPrograms SpawnHistory.
From S2P Require Import BatchTheorems BatchWindows.

Open Scope string_scope.
Open Scope Z_scope.
Open Scope list_scope.

Section Demo.
Existing Instance AsciiTables.
Existing Instance any_netloc.
Existing Instance text_digests.
Existing Instance plan_formatting.

Definition spawn_request (key : string) : ChildRequest :=
  mkChildRequest "t1" key "p" "write the parser" "/w" "Read, write, test." None None None
    (Some demo_project) [].

Definition spawn_child : string := "task_0123456789ab".

(** A registry with one child that has no worker yet. *)
Definition spawn_db : Registry :=
  (create_child_dispatch (spawn_request "k") "0123456789abcdef" "d" (of_Z 5) fresh_db).1.

Definition spawn_workspace : WorkspaceObservation :=
  mkWorkspaceObservation spawn_child (of_Z 9) "/w" true (Some true) None (Some "abc") (Some "b")
    (Some false) (Some "h") [] None [].

(** The clock stands at 10; nobody else is at work and nothing is killed. *)
#[local] Instance spawn_env : RunEnv Registry := {|
  run_now := λ _, of_Z 10; run_others := λ _ r, r; run_killed := λ _, false;
|}.

#[local] Instance spawn_quiet : Alone spawn_env.
Proof. by intros n r. Qed.

#[local] Instance spawn_uuids : Uuids := {|
  uuid_at := λ n, pretty (1000000000000000 + Z.of_nat n);
|}.

Definition answer (changed : bool) (url : option string) : ChildSpawnExecution :=
  mkChildSpawnExecution changed changed "" (Some 7) (Some 8) url false false.

Definition spawn_conversation : string := demo_project +:+ "/c/0123456789abcdef0".

Definition observed (url : string) : ChildSpawnDeliveryObservation :=
  mkChildSpawnDeliveryObservation url true "" false false "".

(** A browser that does what it is told. *)
Definition good_transport : ChildSpawnTransport := {|
  open_authorized := λ _ a, Ok (answer true (Some (sa_tagged_project_url a)));
  reuse_authorized := λ _ a _ _, Ok (answer true (Some (sa_tagged_project_url a)));
  reuse_completed_spawn_authorized := λ _ a _, Ok (answer true (Some (sa_tagged_project_url a)));
  send_authorized := λ _ _ _, Ok (answer true None);
  wait_for_conversation := λ _ _, Ok (answer true (Some spawn_conversation));
  wait_for_delivery := Some (λ _ _ _, Ok (observed spawn_conversation));
  invoke_existing_draft_authorized := λ _ _ _ _, Ok (answer true None);
  observe_owned_project := λ _ a, Ok (answer true (Some (sa_tagged_project_url a)));
  _observe_bound_url := λ _ _, Ok (answer true (Some spawn_conversation));
  close_worker_binding_authorized := λ _ _ _, Ok (answer true None);
  close_completed_spawn_authorized := λ _ _, Ok (answer true None);
|}.

Definition arm_spawn : spawn_step :=
  Arm spawn_child "chrome" (Some spawn_workspace) None (of_Z 600).

Definition batch_step : spawn_step :=
  Batch (λ _ _, Ok spawn_workspace) (λ _, good_transport) "t1" 2 "chrome" (of_Z 600) (of_Z 600)
    false.

Definition batch_world : SpawnWorld := spawn_run (spawn_start spawn_db) [batch_step].

Definition is_prompt (e : spawn_event) : bool :=
  match e with PromptSent _ _ _ _ => true | _ => false end.

Lemma spawn_effects_are_fenced_witness :
  match split_where is_prompt (w_log batch_world) with
  | Some (_, PromptSent s a prompt _, _) =>
      spawns s !! sa_attempt_id a = Some a ∧
      sa_state a = ChildSpawnAttemptState.PROMPT_SUBMITTED
  | _ => False
  end.
Proof.
  destruct (split_where is_prompt (w_log batch_world)) as [[[before e] after]|] eqn:E;
    [|by vm_compute in E].
  assert (is_prompt e = true) as He.
  { replace e with (default e (snd <$> (fst <$> split_where is_prompt (w_log batch_world))))
      by (by rewrite E). by vm_compute. }
  destruct e; try discriminate He.
  exact (proj1 (spawn_effects_are_fenced spawn_db [batch_step] before _ after eq_refl
    (split_where_eq _ _ _ _ _ E))).
Defined.

(** The attempt of the only child. *)
Definition the_attempt (w : SpawnWorld) : option ChildSpawnAttempt :=
  head (map_to_list (spawns (w_store w))).*2.

Lemma spawn_completion_is_observed_witness :
  match the_attempt batch_world with
  | Some a => ∃ url, sa_conversation_url a = strip_or_none url ∧
      web_conversation_project_id url = Some (sa_project_id a)
  | None => False
  end.
Proof.
  destruct (the_attempt batch_world) as [a|] eqn:E; [|by vm_compute in E].
  destruct (spawn_completion_is_observed spawn_db [batch_step] a) as (url & Hu & Hp & _).
  - reflexivity.
  - vm_compute in E. injection E as <-. by vm_compute.
  - vm_compute in E. by injection E as <-.
  - exact (ex_intro _ url (conj Hu Hp)).
Defined.

Definition is_request (e : spawn_event) : bool :=
  match e with WindowRequested _ _ _ _ => true | _ => false end.

Lemma batch_windows_are_released_witness :
  match split_where is_request (w_log batch_world) with
  | Some (_, WindowRequested s a source _, _) =>
      may_take s (children spawn_db "t1") 2 (sa_child_task_id a) source
  | _ => False
  end.
Proof.
  destruct (split_where is_request (w_log batch_world)) as [[[before e] after]|] eqn:E;
    [|by vm_compute in E].
  assert (is_request e = true) as He.
  { replace e with (default e (snd <$> (fst <$> split_where is_request (w_log batch_world))))
      by (by rewrite E). by vm_compute. }
  destruct e; try discriminate He.
  exact (batch_windows_are_released spawn_db [] (λ _ _, Ok spawn_workspace) (λ _, good_transport)
    "t1" 2 "chrome" (of_Z 600) (of_Z 600) false before _ after eq_refl
    (split_where_eq _ _ _ _ _ E)).
Defined.

(** ** What the documentation does not say *)

Definition attempt_id_of (w : SpawnWorld) : string :=
  match the_attempt w with Some a => sa_attempt_id a | None => "" end.

Definition armed_world : SpawnWorld := spawn_run (spawn_start spawn_db) [arm_spawn].

Definition bound_world : SpawnWorld :=
  spawn_do armed_world (Open (attempt_id_of armed_world) good_transport None None None None).

(** Another process submits the same opening between the read and the write. *)
Definition racing_env : RunEnv Registry := {|
  run_now := λ _, of_Z 10;
  run_others := λ n r,
    if Nat.eqb n (S (w_tick armed_world)) then
      match update_child_spawn_attempt r (attempt_id_of armed_world)
              ChildSpawnAttemptState.WINDOW_OPEN_SUBMITTED no_update (of_Z 10) with
      | Ok (r', _) => r'
      | Err _ => r
      end
    else r;
  run_killed := λ _, false;
|}.

(** Both processes may now open a window: the transition WINDOW_OPEN_SUBMITTED to itself is
    accepted. *)
Example two_openers_pass :
  match spawns (run_others (RunEnv := racing_env) (S (w_tick armed_world))
                  (w_store armed_world)) !! attempt_id_of armed_world,
        submit_child_spawn_open (env := racing_env) (attempt_id_of armed_world) None
          armed_world with
  | Some other, (_, Done mine) =>
      sa_state other = ChildSpawnAttemptState.WINDOW_OPEN_SUBMITTED ∧
      sa_state mine = ChildSpawnAttemptState.WINDOW_OPEN_SUBMITTED
  | _, _ => False
  end.
Proof. vm_compute. split; reflexivity. Qed.

(** The reconciliation of a bound window that already shows a conversation registers the worker
    and binds the window, and then fails on the transition to COMPLETED. *)
Example reconcile_of_a_bound_window_fails_late :
  match reconcile_child_spawn (attempt_id_of bound_world) good_transport (of_Z 600) None
          bound_world with
  | (w, Raised e) =>
      exn_type e = RuntimeError ∧
      is_Some (r ← rg_tasks (w_store w) !! spawn_child; tr_current_worker_id r) ∧
      (sa_state <$> the_attempt w) = Some ChildSpawnAttemptState.WINDOW_BOUND
  | _ => False
  end.
Proof. vm_compute. split_and!; [reflexivity|by eexists|reflexivity]. Qed.

(** A browser in which the first click makes the route and leaves the draft. *)
Definition stuck_transport : ChildSpawnTransport := {|
  open_authorized := open_authorized good_transport;
  reuse_authorized := reuse_authorized good_transport;
  reuse_completed_spawn_authorized := reuse_completed_spawn_authorized good_transport;
  send_authorized := send_authorized good_transport;
  wait_for_conversation := wait_for_conversation good_transport;
  wait_for_delivery := Some (λ _ _ _,
    Ok (mkChildSpawnDeliveryObservation spawn_conversation false "Read, write, test." false true
          "draft"));
  invoke_existing_draft_authorized := invoke_existing_draft_authorized good_transport;
  observe_owned_project := observe_owned_project good_transport;
  _observe_bound_url := _observe_bound_url good_transport;
  close_worker_binding_authorized := close_worker_binding_authorized good_transport;
  close_completed_spawn_authorized := close_completed_spawn_authorized good_transport;
|}.

Definition sent_world : SpawnWorld :=
  spawn_do bound_world (Send (attempt_id_of bound_world) stuck_transport (of_Z 600) (of_Z 120)
                          None).

(** The delivery is denied, and the reconciliation completes on the route alone. *)
Example reconcile_completes_on_the_route :
  let done := spawn_do sent_world
    (Reconcile (attempt_id_of bound_world) stuck_transport (of_Z 600) None) in
  (sa_state <$> the_attempt sent_world) = Some ChildSpawnAttemptState.RECONCILE_REQUIRED ∧
  (sa_state <$> the_attempt done) = Some ChildSpawnAttemptState.COMPLETED ∧
  Forall (λ e, match e with
               | DeliveryObserved _ _ (Ok o) => co_delivered o = false
               | _ => True
               end) (w_log done).
Proof. vm_compute. split_and!; [reflexivity|reflexivity|repeat constructor]. Qed.

(** ** A batch after an unknown outcome *)

Lemma sent_spawns_ok : spawns_ok (w_store sent_world).
Proof.
  exact (si_ok _ (do_inv _ _ (do_inv _ (Open (attempt_id_of armed_world) good_transport None None
    None None) (history_inv spawn_db [arm_spawn] eq_refl)))).
Qed.

Definition late_batch : SpawnWorld * out ChildBatchReport :=
  advance_child_dispatch_batch (λ _ _, Ok spawn_workspace) (λ _, good_transport) "t1" 2 "chrome"
    (of_Z 600) (of_Z 600) true sent_world.

Lemma batch_fails_closed_witness :
  w_store late_batch.1 = w_store sent_world ∧ w_log late_batch.1 = w_log sent_world ∧
  ∀ report, late_batch.2 = Done report → br_stopped report = true.
Proof.
  destruct late_batch as [w o] eqn:E.
  apply (batch_fails_closed (λ _ _, Ok spawn_workspace) (λ _, good_transport) "t1" 2 "chrome"
    (of_Z 600) (of_Z 600) true sent_world w o).
  - exact sent_spawns_ok.
  - right. destruct (child_dispatches_for_parent (w_store sent_world) "t1") as [|d ds] eqn:Ed;
      [by vm_compute in Ed|].
    exists d. split; [by left|]. right. right.
    assert (cd_child_task_id d = spawn_child) as ->.
    { assert (d = default d (head (child_dispatches_for_parent (w_store sent_world) "t1"))) as ->
        by (by rewrite Ed). by vm_compute. }
    destruct (the_attempt sent_world) as [a|] eqn:Ea; [|by vm_compute in Ea].
    exists a. assert (a = default a (the_attempt sent_world)) as -> by (by rewrite Ea).
    split_and!; by vm_compute.
  - exact E.
Defined.

End Demo.
