(* ===== verification/ChatStore.v ===== *)
(** * The queue of chat_dispatch.py

    [ChatDispatchStore] keeps prompts to be sent to web conversations, the browser pages it
    knows and the lease of the one dispatcher process in a database of its own.  The rows of
    [chat_dispatch_jobs] are a list in the order of their rowid, which is the order of their
    insertion, since no row is deleted; the other tables are maps by primary key.  Pages with
    equal times are read in the order of their id. *)

From Stdlib Require Import Ascii.
From stdpp Require Import pretty.
From S2P Require Import Prelude PyFloat PyStr PyUrl PyJson Models ProjectUrl.
From S2P Require Import WorkerProtocol Registry.
From S2P Require Import Reconcile Dispatcher Actions.

Open Scope string_scope.
Open Scope Z_scope.
Open Scope list_scope.

Module ChatDispatchState.

Inductive t :=
  | QUEUED | CLAIMED | OPENING | WINDOW_BOUND | SUBMITTING | SUBMITTED
  | RECONCILE_REQUIRED | RETRY_WAIT | ACKNOWLEDGED | FAILED | CANCELLED.

#[global] Instance t_eq_dec : EqDecision t.
Proof. solve_decision. Defined.

End ChatDispatchState.

Module ChatPageState.

Inductive t := OPEN | IDLE | CLOSED | AMBIGUOUS.

#[global] Instance t_eq_dec : EqDecision t.
Proof. solve_decision. Defined.

End ChatPageState.

(** [TERMINAL_JOB_STATES] *)
Definition terminal_job_state (s : ChatDispatchState.t) : bool :=
  match s with
  | ChatDispatchState.ACKNOWLEDGED | ChatDispatchState.FAILED
  | ChatDispatchState.CANCELLED => true
  | _ => false
  end.

(** [PENDING_JOB_STATES] *)
Definition pending_job_state (s : ChatDispatchState.t) : bool :=
  match s with
  | ChatDispatchState.QUEUED | ChatDispatchState.CLAIMED | ChatDispatchState.OPENING
  | ChatDispatchState.WINDOW_BOUND | ChatDispatchState.SUBMITTING
  | ChatDispatchState.SUBMITTED | ChatDispatchState.RECONCILE_REQUIRED
  | ChatDispatchState.RETRY_WAIT => true
  | _ => false
  end.

Record ChatDispatchJob := mkChatDispatchJob {
  cj_dispatch_id : string;
  cj_dispatch_key : option string;
  cj_conversation_key : string;
  cj_conversation_url : option string;
  cj_project_url : option string;
  cj_prompt_text : string;
  cj_prompt_sha256 : string;
  cj_nonce : string;
  cj_state : ChatDispatchState.t;
  cj_created_at : float;
  cj_updated_at : float;
  cj_next_attempt_at : float;
  cj_attempts : Z;
  cj_idle_close_s : float;
  cj_max_windows : Z;
  cj_window_handle : option Z;
  cj_browser_pid : option Z;
  cj_chrome_executable : option string;
  cj_page_owned : bool;
  cj_submitted_at : option float;
  cj_acknowledged_at : option float;
  cj_last_error : option string;
}.

#[export] Instance eta_ChatDispatchJob : Eta ChatDispatchJob := λ r,
  mkChatDispatchJob (cj_dispatch_id r) (cj_dispatch_key r) (cj_conversation_key r)
    (cj_conversation_url r) (cj_project_url r) (cj_prompt_text r) (cj_prompt_sha256 r)
    (cj_nonce r) (cj_state r) (cj_created_at r) (cj_updated_at r) (cj_next_attempt_at r)
    (cj_attempts r) (cj_idle_close_s r) (cj_max_windows r) (cj_window_handle r)
    (cj_browser_pid r) (cj_chrome_executable r) (cj_page_owned r) (cj_submitted_at r)
    (cj_acknowledged_at r) (cj_last_error r).

Definition wire_prompt (job : ChatDispatchJob) : res string :=
  render_action_prompt (cj_prompt_text job) (cj_nonce job).

Record ChatPage := mkChatPage {
  cp_page_id : string;
  cp_conversation_key : string;
  cp_conversation_url : string;
  cp_window_handle : Z;
  cp_browser_pid : Z;
  cp_chrome_executable : string;
  cp_owned : bool;
  cp_state : ChatPageState.t;
  cp_opened_at : float;
  cp_last_used_at : float;
  cp_idle_since : option float;
  cp_close_after_at : option float;
  cp_last_error : option string;
}.

#[export] Instance eta_ChatPage : Eta ChatPage := λ r,
  mkChatPage (cp_page_id r) (cp_conversation_key r) (cp_conversation_url r)
    (cp_window_handle r) (cp_browser_pid r) (cp_chrome_executable r) (cp_owned r)
    (cp_state r) (cp_opened_at r) (cp_last_used_at r) (cp_idle_since r)
    (cp_close_after_at r) (cp_last_error r).

Record PageIdentity := mkPageIdentity {
  pi_conversation_url : string;
  pi_window_handle : Z;
  pi_browser_pid : Z;
  pi_chrome_executable : string;
  pi_owned : bool;
}.

#[export] Instance eta_PageIdentity : Eta PageIdentity := λ r,
  mkPageIdentity (pi_conversation_url r) (pi_window_handle r) (pi_browser_pid r)
    (pi_chrome_executable r) (pi_owned r).

(** A row of [chat_conversations]. *)
Record ChatConversation := mkChatConversation {
  cc_conversation_url : option string;
  cc_project_url : option string;
  cc_created_at : float;
  cc_updated_at : float;
}.

#[export] Instance eta_ChatConversation : Eta ChatConversation := λ r,
  mkChatConversation (cc_conversation_url r) (cc_project_url r) (cc_created_at r)
    (cc_updated_at r).

(** The row ['default'] of [chat_dispatch_leases]. *)
Record ChatLease := mkChatLease {
  cl_owner_id : string;
  cl_pid : Z;
  cl_heartbeat_at : float;
  cl_expires_at : float;
  cl_max_windows : Z;
  cl_idle_close_s : float;
}.

#[export] Instance eta_ChatLease : Eta ChatLease := λ r,
  mkChatLease (cl_owner_id r) (cl_pid r) (cl_heartbeat_at r) (cl_expires_at r)
    (cl_max_windows r) (cl_idle_close_s r).

Record ChatStore := mkChatStore {
  cs_conversations : gmap string ChatConversation;
  cs_jobs : list ChatDispatchJob;
  cs_pages : gmap string ChatPage;
  cs_lease : option ChatLease;
}.

#[export] Instance eta_ChatStore : Eta ChatStore := λ r,
  mkChatStore (cs_conversations r) (cs_jobs r) (cs_pages r) (cs_lease r).

Definition empty_store : ChatStore := mkChatStore ∅ [] ∅ None.

(** A nullable REAL column holds NULL for a NaN. *)
Definition real_column (f : float) : option float := if is_nan f then None else Some f.

(** ** Reading *)

Definition is_dispatch (id : string) (j : ChatDispatchJob) : bool :=
  String.eqb (cj_dispatch_id j) id.

Definition get_job (s : ChatStore) (id : string) : res ChatDispatchJob :=
  match next_where (is_dispatch id) (cs_jobs s) with
  | Some j => Ok j
  | None => raise KeyError ("unknown chat dispatch: " +:+ id)
  end.

(** [max(1, min(limit, 500))] *)
Definition row_limit (limit : Z) : nat := Z.to_nat (Z.max 1 (Z.min limit 500)).

Definition list_jobs (s : ChatStore) (limit : Z) : list ChatDispatchJob :=
  take (row_limit limit) (rev (cs_jobs s)).

Definition list_pages (s : ChatStore) (include_closed : bool) : list ChatPage :=
  order_desc cp_last_used_at
    (select (λ p, include_closed || negb (bool_decide (cp_state p = ChatPageState.CLOSED)))
       (cs_pages s)).

(** A page that is known to show its conversation. *)
Definition page_in_use (p : ChatPage) : bool :=
  match cp_state p with ChatPageState.OPEN | ChatPageState.IDLE => true | _ => false end.

Definition page_for_conversation (s : ChatStore) (key : string) : option ChatPage :=
  head (order_desc cp_last_used_at
    (select (λ p, String.eqb (cp_conversation_key p) key && page_in_use p) (cs_pages s))).

Definition get_page (s : ChatStore) (page_id : string) : res ChatPage :=
  fetch "chat page" (cs_pages s) page_id.

(** The states [eligible_jobs] asks for. *)
Definition eligible_state (s : ChatDispatchState.t) : bool :=
  match s with
  | ChatDispatchState.QUEUED | ChatDispatchState.OPENING | ChatDispatchState.WINDOW_BOUND
  | ChatDispatchState.SUBMITTING | ChatDispatchState.RETRY_WAIT
  | ChatDispatchState.SUBMITTED | ChatDispatchState.RECONCILE_REQUIRED => true
  | _ => false
  end.

Definition eligible_jobs (s : ChatStore) (limit : Z) (now : float) : list ChatDispatchJob :=
  take (row_limit limit)
    (List.filter (λ j, eligible_state (cj_state j) && fle (cj_next_attempt_at j) now)
       (cs_jobs s)).

(** The rows with a smaller rowid; none when the row does not exist, since a comparison with
    NULL is not true. *)
Fixpoint older_jobs (id : string) (jobs : list ChatDispatchJob) : list ChatDispatchJob :=
  match jobs with
  | [] => []
  | j :: jobs' => if is_dispatch id j then [] else j :: older_jobs id jobs'
  end.

Definition has_older_unfinished (s : ChatStore) (job : ChatDispatchJob) : bool :=
  existsb (is_dispatch (cj_dispatch_id job)) (cs_jobs s) &&
  existsb (λ j, String.eqb (cj_conversation_key j) (cj_conversation_key job) &&
                negb (terminal_job_state (cj_state j)))
    (older_jobs (cj_dispatch_id job) (cs_jobs s)).

Definition has_pending_for_conversation (s : ChatStore) (key : string) : bool :=
  existsb (λ j, String.eqb (cj_conversation_key j) key && pending_job_state (cj_state j))
    (cs_jobs s).

Definition pending_count (s : ChatStore) : nat :=
  length (List.filter (λ j, pending_job_state (cj_state j)) (cs_jobs s)).

Definition owned_open_count (s : ChatStore) : nat :=
  length (select (λ p, cp_owned p && page_in_use p) (cs_pages s)).

(** ** Enqueueing *)

Record EnqueueRequest := mkEnqueueRequest {
  eq_prompt : string;
  eq_conversation_key : option string;
  eq_conversation_url : option string;
  eq_project_url : option string;
  eq_dispatch_key : option string;
  eq_idle_close_s : float;
  eq_max_windows : Z;
}.

(** [str(x).strip() if x else None] *)
Definition strip_truthy (x : option string) : option string :=
  match x with
  | Some text => if str_truthy text then Some (strip text) else None
  | None => None
  end.

(** [x or None] of an optional text column *)
Definition truthy_text (x : option string) : option string :=
  match x with Some text => if str_truthy text then Some text else None | None => None end.

(** [COALESCE(x, y)] *)
Definition coalesce {A} (x y : option A) : option A :=
  match x with Some _ => x | None => y end.

Section Store.
Context {tables : UnicodeTables} {check : NetlocCheck} {digests : Digests}.

(** Writing a row of [chat_conversations]: [idx_chat_conversation_url] is unique. *)
Definition put_conversation (s : ChatStore) (key : string) (c : ChatConversation)
    : res ChatStore :=
  real_not_null (cc_updated_at c);;
  let taken :=
    match cc_conversation_url c with
    | None => []
    | Some url =>
        List.filter (λ kv, negb (String.eqb kv.1 key) &&
                           bool_decide (cc_conversation_url kv.2 = Some url))
          (map_to_list (cs_conversations s))
    end in
  raise_if (negb (Nat.eqb (length taken) 0)) IntegrityError
    "UNIQUE constraint failed: chat_conversations.conversation_url";;
  Ok (s <| cs_conversations := <[key := c]> (cs_conversations s) |>).

(** [dispatch_id] is the primary key, [dispatch_key] is UNIQUE. *)
Definition insert_job (s : ChatStore) (job : ChatDispatchJob) : res ChatStore :=
  real_not_null (cj_created_at job);;
  raise_if (existsb (is_dispatch (cj_dispatch_id job)) (cs_jobs s)) IntegrityError
    "UNIQUE constraint failed: chat_dispatch_jobs.dispatch_id";;
  raise_if (bool_decide (is_Some (cj_dispatch_key job)) &&
            existsb (λ j, bool_decide (cj_dispatch_key j = cj_dispatch_key job)) (cs_jobs s))
    IntegrityError "UNIQUE constraint failed: chat_dispatch_jobs.dispatch_key";;
  Ok (s <| cs_jobs := cs_jobs s ++ [job] |>).

Definition chat_job_keyed (key : string) (j : ChatDispatchJob) : bool :=
  bool_decide (cj_dispatch_key j = Some key).

(** [a and b and not conversation_url_matches(b, a)] *)
Definition moved_conversation (asked stored : option string) : bool :=
  match truthy_text asked, truthy_text stored with
  | Some asked, Some stored => negb (conversation_url_matches stored asked)
  | _, _ => false
  end.

Definition project_changed (asked stored : option string) : res bool :=
  match truthy_text asked, truthy_text stored with
  | Some asked, Some stored =>
      a ← web_project_id asked; b ← web_project_id stored; Ok (negb (String.eqb a b))
  | _, _ => Ok false
  end.

(** A second request under the key of a job. *)
Definition repeated_dispatch (job : ChatDispatchJob) (prompt requested_key : string)
    (conversation_url project_url : option string) : res ChatDispatchJob :=
  changed ← project_changed project_url (cj_project_url job);
  raise_if (negb (String.eqb (cj_prompt_sha256 job) (sha256_text prompt)) ||
            (str_truthy requested_key &&
             negb (String.eqb (cj_conversation_key job) requested_key)) ||
            moved_conversation conversation_url (cj_conversation_url job) || changed)
    ValueError "dispatch_key already exists for a different dispatch";;
  Ok job.

(** The part of [enqueue] after the key was found new: [uuid1] is for a new conversation key,
    [uuid2] for the dispatch id, [uuid3] is the nonce. *)
Definition enqueue_new (s : ChatStore) (prompt requested_key : string)
    (conversation_url project_url dispatch_key : option string) (idle_close_s : float)
    (max_windows : Z) (now : float) (uuid1 uuid2 uuid3 : string)
    : res (ChatStore * ChatDispatchJob) :=
  let key :=
    if str_truthy requested_key then requested_key
    else match truthy_text conversation_url with
         | Some url => "conversation:" +:+ default "None" (conversation_id_from_url url)
         | None => "new:" +:+ str_take 16 uuid1
         end in
  let known := cs_conversations s !! key in
  let known_url := known ≫= λ c, truthy_text (cc_conversation_url c) in
  let known_project := known ≫= λ c, truthy_text (cc_project_url c) in
  raise_if (moved_conversation conversation_url known_url) ValueError "conversation_key is already bound to a different conversation";;
  let conversation_url := coalesce known_url conversation_url in
  let project_url := if opt_truthy project_url then project_url
                     else coalesce known_project project_url in
  raise_if (negb (opt_truthy conversation_url) && negb (opt_truthy project_url)) ValueError
    "new conversation dispatch requires project_url unless conversation_key is already resolved";;
  let row :=
    match known with
    | None => mkChatConversation conversation_url project_url now now
    | Some c =>
        c <| cc_conversation_url := coalesce (cc_conversation_url c) conversation_url |>
          <| cc_project_url := coalesce (cc_project_url c) project_url |>
          <| cc_updated_at := now |>
    end in
  s ← put_conversation s key row;
  let job :=
    mkChatDispatchJob ("chat_" +:+ str_take 16 uuid2) dispatch_key key conversation_url
      project_url prompt (sha256_text prompt) uuid3 ChatDispatchState.QUEUED now now now 0
      idle_close_s max_windows None None None false None None None in
  s ← insert_job s job;
  Ok (s, job).

(** The arguments after the checks that need no database. *)
Record CheckedRequest := mkCheckedRequest {
  ck_prompt : string;
  ck_requested_key : string;
  ck_conversation_url : option string;
  ck_project_url : option string;
  ck_dispatch_key : option string;
  ck_idle_close_s : float;
  ck_max_windows : Z;
}.

Definition check_request (rq : EnqueueRequest) : res CheckedRequest :=
  let prompt := eq_prompt rq in
  raise_if (negb (str_truthy (strip prompt))) ValueError "prompt must be non-empty";;
  raise_if (Z.of_nat (String.length prompt) >? 256 * 1024) ValueError "prompt exceeds 256 KiB";;
  let conversation_url := strip_truthy (eq_conversation_url rq) in
  let project_url := strip_truthy (eq_project_url rq) in
  raise_if match truthy_text conversation_url with
           | Some url => negb (bool_decide (is_Some (conversation_id_from_url url)))
           | None => false
           end ValueError "conversation_url must be a ChatGPT /c/ conversation URL";;
  _ ← match truthy_text project_url with Some url => web_project_id url | None => Ok "" end;
  let requested_key := strip (default "" (eq_conversation_key rq)) in
  raise_if (Nat.ltb 200 (py_len requested_key)) ValueError
    "conversation_key must be <= 200 characters";;
  let dispatch_key := strip_truthy (eq_dispatch_key rq) in
  raise_if match truthy_text dispatch_key with
           | Some key => Nat.ltb 240 (py_len key)
           | None => false
           end ValueError "dispatch_key must be <= 240 characters";;
  Ok (mkCheckedRequest prompt requested_key conversation_url project_url dispatch_key
        (fmax (of_Z 1) (eq_idle_close_s rq)) (Z.max 1 (Z.min (eq_max_windows rq) 16))).

(** The job of the dispatch key, if there is one. *)
Definition keyed_job (s : ChatStore) (dispatch_key : option string) : option ChatDispatchJob :=
  truthy_text dispatch_key ≫= λ key, next_where (chat_job_keyed key) (cs_jobs s).

Definition enqueue (s : ChatStore) (rq : EnqueueRequest) (now : float)
    (uuid1 uuid2 uuid3 : string) : res (ChatStore * ChatDispatchJob) :=
  q ← check_request rq;
  match keyed_job s (ck_dispatch_key q) with
  | Some job =>
      job ← repeated_dispatch job (ck_prompt q) (ck_requested_key q) (ck_conversation_url q)
              (ck_project_url q);
      Ok (s, job)
  | None =>
      enqueue_new s (ck_prompt q) (ck_requested_key q) (ck_conversation_url q)
        (ck_project_url q) (ck_dispatch_key q) (ck_idle_close_s q) (ck_max_windows q) now
        uuid1 uuid2 uuid3
  end.

End Store.

(** ** Pages *)

(** [f"hwnd:{identity.window_handle}:pid:{identity.browser_pid}"] *)
Definition identity_page_id (i : PageIdentity) : string :=
  "hwnd:" +:+ pretty (pi_window_handle i) +:+ ":pid:" +:+ pretty (pi_browser_pid i).

Definition put_page (s : ChatStore) (p : ChatPage) : ChatStore :=
  s <| cs_pages := <[cp_page_id p := p]> (cs_pages s) |>.

(** [UPDATE chat_dispatch_pages SET ... WHERE page_id = ?], then [get_page]. *)
Definition modify_page (s : ChatStore) (page_id : string) (f : ChatPage → ChatPage)
    : res (ChatStore * ChatPage) :=
  page ← get_page s page_id;
  Ok (put_page s (f page), f page).

(** A page that was owned once stays owned. *)
Definition upsert_page (s : ChatStore) (conversation_key : string) (identity : PageIdentity)
    (now : float) : res (ChatStore * ChatPage) :=
  real_not_null now;;
  let page_id := identity_page_id identity in
  let fresh :=
    mkChatPage page_id conversation_key (pi_conversation_url identity)
      (pi_window_handle identity) (pi_browser_pid identity) (pi_chrome_executable identity)
      (pi_owned identity) ChatPageState.OPEN now now None None None in
  let page :=
    match cs_pages s !! page_id with
    | None => fresh
    | Some old =>
        fresh <| cp_owned := cp_owned old || pi_owned identity |>
              <| cp_window_handle := cp_window_handle old |>
              <| cp_browser_pid := cp_browser_pid old |>
              <| cp_opened_at := cp_opened_at old |>
    end in
  Ok (put_page s page, page).

Definition reopen (now : float) (p : ChatPage) : ChatPage :=
  p <| cp_state := ChatPageState.OPEN |> <| cp_last_used_at := now |>
    <| cp_idle_since := None |> <| cp_close_after_at := None |> <| cp_last_error := None |>.

Definition update_page_url (s : ChatStore) (page_id conversation_url : string) (now : float)
    : res (ChatStore * ChatPage) :=
  _ ← get_page s page_id;
  real_not_null now;;
  modify_page s page_id (λ p, reopen now (p <| cp_conversation_url := conversation_url |>)).

Definition mark_page_open (s : ChatStore) (page_id : string) (now : float)
    : res (ChatStore * ChatPage) :=
  _ ← get_page s page_id;
  real_not_null now;;
  modify_page s page_id (reopen now).

(** The idle time of a page counts from the first time it was found idle. *)
Definition idle_page (idle_close_s now : float) (p : ChatPage) : ChatPage :=
  let since :=
    match cp_state p, cp_idle_since p with
    | ChatPageState.IDLE, Some since => since
    | _, _ => now
    end in
  p <| cp_state := ChatPageState.IDLE |>
    <| cp_idle_since := real_column since |>
    <| cp_close_after_at :=
         if cp_owned p then real_column (fadd since (fmax (of_Z 1) idle_close_s)) else None |>
    <| cp_last_used_at := now |>.

Definition mark_page_idle (s : ChatStore) (page_id : string) (idle_close_s now : float)
    : res (ChatStore * ChatPage) :=
  _ ← get_page s page_id;
  real_not_null now;;
  modify_page s page_id (idle_page idle_close_s now).

Definition closed_page (ambiguous : bool) (error : option string) (p : ChatPage) : ChatPage :=
  p <| cp_state := if ambiguous then ChatPageState.AMBIGUOUS else ChatPageState.CLOSED |>
    <| cp_last_error := error |> <| cp_close_after_at := None |>.

Definition mark_page_closed (s : ChatStore) (page_id : string) (ambiguous : bool)
    (error : option string) : res (ChatStore * ChatPage) :=
  modify_page s page_id (closed_page ambiguous error).

(** ** Conversations and jobs *)

(** The jobs of a new conversation learn its address. *)
Definition bind_job (key url : string) (now : float) (j : ChatDispatchJob) : ChatDispatchJob :=
  if String.eqb (cj_conversation_key j) key && negb (bool_decide (is_Some (cj_conversation_url j)))
  then j <| cj_conversation_url := Some url |> <| cj_updated_at := now |>
  else j.

Definition bind_conversation (s : ChatStore) (key url : string) (now : float)
    : res (ChatStore * unit) :=
  let owners :=
    List.filter (λ kv, negb (String.eqb kv.1 key) &&
                       bool_decide (cc_conversation_url kv.2 = Some url))
      (map_to_list (cs_conversations s)) in
  match owners with
  | (owner, _) :: _ =>
      raise RuntimeError ("conversation URL is already owned by key " +:+ owner)
  | [] =>
      real_not_null now;;
      Ok (s <| cs_conversations :=
                 alter (λ c, c <| cc_conversation_url := Some url |> <| cc_updated_at := now |>)
                   key (cs_conversations s) |>
            <| cs_jobs := bind_job key url now <$> cs_jobs s |>, tt)
  end.

(** The keyword arguments of [update_job]; an absent one leaves its column alone. *)
Record JobUpdate := mkJobUpdate {
  ju_state : option ChatDispatchState.t;
  ju_next_attempt_at : option float;
  ju_attempts : option Z;
  ju_window_handle : option Z;
  ju_browser_pid : option Z;
  ju_chrome_executable : option string;
  ju_page_owned : option bool;
  ju_conversation_url : option string;
  ju_submitted_at : option float;
  ju_acknowledged_at : option float;
  ju_last_error : option string;
}.

#[export] Instance eta_JobUpdate : Eta JobUpdate := λ r,
  mkJobUpdate (ju_state r) (ju_next_attempt_at r) (ju_attempts r) (ju_window_handle r)
    (ju_browser_pid r) (ju_chrome_executable r) (ju_page_owned r) (ju_conversation_url r)
    (ju_submitted_at r) (ju_acknowledged_at r) (ju_last_error r).

Definition to_state (st : ChatDispatchState.t) : JobUpdate :=
  mkJobUpdate (Some st) None None None None None None None None None None.

(** The states that clear the last error. *)
Definition clears_error (st : option ChatDispatchState.t) : bool :=
  match st with
  | Some ChatDispatchState.QUEUED | Some ChatDispatchState.SUBMITTED
  | Some ChatDispatchState.ACKNOWLEDGED => true
  | _ => false
  end.

Definition apply_update (u : JobUpdate) (now : float) (j : ChatDispatchJob) : ChatDispatchJob :=
  j <| cj_updated_at := now |>
    <| cj_state := default (cj_state j) (ju_state u) |>
    <| cj_next_attempt_at := default (cj_next_attempt_at j) (ju_next_attempt_at u) |>
    <| cj_attempts := default (cj_attempts j) (ju_attempts u) |>
    <| cj_window_handle := coalesce (ju_window_handle u) (cj_window_handle j) |>
    <| cj_browser_pid := coalesce (ju_browser_pid u) (cj_browser_pid j) |>
    <| cj_chrome_executable := coalesce (ju_chrome_executable u) (cj_chrome_executable j) |>
    <| cj_page_owned := default (cj_page_owned j) (ju_page_owned u) |>
    <| cj_conversation_url := coalesce (ju_conversation_url u) (cj_conversation_url j) |>
    <| cj_submitted_at :=
         match ju_submitted_at u with Some f => real_column f | None => cj_submitted_at j end |>
    <| cj_acknowledged_at :=
         match ju_acknowledged_at u with
         | Some f => real_column f | None => cj_acknowledged_at j end |>
    <| cj_last_error :=
         match ju_last_error u with
         | Some text => Some text
         | None => if clears_error (ju_state u) then None else cj_last_error j
         end |>.

Definition update_job (s : ChatStore) (id : string) (u : JobUpdate) (now : float)
    : res (ChatStore * ChatDispatchJob) :=
  _ ← get_job s id;
  real_not_null now;;
  real_not_null (default now (ju_next_attempt_at u));;
  let s := s <| cs_jobs :=
    (λ j, if is_dispatch id j then apply_update u now j else j) <$> cs_jobs s |> in
  job ← get_job s id;
  Ok (s, job).

(** The states in which the prompt may have been sent. *)
Definition send_possible (st : ChatDispatchState.t) : bool :=
  match st with
  | ChatDispatchState.SUBMITTING | ChatDispatchState.RECONCILE_REQUIRED
  | ChatDispatchState.SUBMITTED => true
  | _ => false
  end.

(** [cancel] reads the job and writes the cancellation in two transactions. *)
Definition cancel (s : ChatStore) (id : string) (now : float)
    : res (ChatStore * ChatDispatchJob) :=
  job ← get_job s id;
  if terminal_job_state (cj_state job) then Ok (s, job)
  else if send_possible (cj_state job)
  then raise RuntimeError "cannot cancel a dispatch whose external send may already have happened"
  else update_job s id (to_state ChatDispatchState.CANCELLED) now.

(** ** The lease of the dispatcher process *)

(** [alive] is [pid_exists]. *)
Definition acquire_lease (s : ChatStore) (alive : Z → bool) (owner_id : string) (pid max_windows : Z)
    (idle_close_s ttl_s now : float) : res (ChatStore * bool) :=
  let held :=
    match cs_lease s with
    | Some row =>
        negb (String.eqb (cl_owner_id row) owner_id) &&
        (flt now (cl_expires_at row) || ((0 <? cl_pid row) && alive (cl_pid row)))
    | None => false
    end in
  if held then Ok (s, false)
  else
    real_not_null now;;
    real_not_null (fadd now (fmax (of_Z 5) ttl_s));;
    Ok (s <| cs_lease := Some (mkChatLease owner_id pid now (fadd now (fmax (of_Z 5) ttl_s))
                (Z.max 1 max_windows) (fmax (of_Z 1) idle_close_s)) |>, true).

Definition holds_lease (s : ChatStore) (owner_id : string) : bool :=
  match cs_lease s with Some row => String.eqb (cl_owner_id row) owner_id | None => false end.

Definition heartbeat_lease (s : ChatStore) (owner_id : string) (ttl_s now : float)
    : res (ChatStore * bool) :=
  match cs_lease s with
  | Some row =>
      if String.eqb (cl_owner_id row) owner_id then
        real_not_null now;;
        real_not_null (fadd now (fmax (of_Z 5) ttl_s));;
        Ok (s <| cs_lease := Some (row <| cl_heartbeat_at := now |>
                  <| cl_expires_at := fadd now (fmax (of_Z 5) ttl_s) |>) |>, true)
      else Ok (s, false)
  | None => Ok (s, false)
  end.

Definition release_lease (s : ChatStore) (owner_id : string) : ChatStore :=
  if holds_lease s owner_id then s <| cs_lease := None |> else s.

(** The first part of [ensure_chat_dispatch_worker]: a lease of a dead process is released;
    the boolean says that a new dispatcher is to be started. *)
Definition fence_dispatcher (s : ChatStore) (alive : Z → bool) : ChatStore * bool :=
  match cs_lease s with
  | Some row =>
      if (0 <? cl_pid row) && alive (cl_pid row) then (s, false)
      else (release_lease s (cl_owner_id row), true)
  | None => (s, true)
  end.
