(* ===== verification/ChatEngine.v ===== *)
(** * The engine of chat_dispatch.py

    [ChatDispatchEngine] runs in the one dispatcher process and drives the browser.  A program
    of the engine is a sequence of store transactions, readings of the clock and browser
    calls.  Between any two of them other processes may enqueue, cancel or ask for the lease,
    and the dispatcher may be killed; what they do is part of the environment.  The browser is
    the interface [ChatDispatchBrowser], whose answers may be anything. *)

From Stdlib Require Import Ascii.
From stdpp Require Import pretty.
From S2P Require Import Prelude PyFloat PyStr PyUrl PyJson Models ProjectUrl.
From S2P Require Import WorkerProtocol Registry Runs.
From S2P Require Import Reconcile Dispatcher Actions ChatStore.

Open Scope string_scope.
Open Scope Z_scope.
Open Scope list_scope.

Record BrowserSendResult := mkBrowserSendResult {
  bs_submitted : bool;
  bs_side_effect_possible : bool;
  bs_detail : string;
  bs_conversation_url : option string;
  bs_rate_limited : bool;
}.

Record BrowserAckResult := mkBrowserAckResult {
  ba_observed : bool;
  ba_nonce_occurrences : Z;
  ba_generating : option bool;
  ba_detail : string;
  ba_conversation_url : option string;
}.

Record BrowserCloseResult := mkBrowserCloseResult {
  bc_closed : bool;
  bc_absent : bool;
  bc_ambiguous : bool;
  bc_detail : string;
}.

(** The browser answers, or raises; the first argument counts the steps of the run, so a
    browser may answer the same question differently each time. *)
Class ChatDispatchBrowser := {
  find_existing : nat → string → res (option PageIdentity);
  open_existing : nat → string → res PageIdentity;
  open_new : nat → string → string → string → res PageIdentity;
  recover_new : nat → string → string → string → res (option PageIdentity);
  send_existing : nat → ChatDispatchJob → ChatPage → res BrowserSendResult;
  send_new : nat → ChatDispatchJob → ChatPage → res BrowserSendResult;
  observe_ack : nat → ChatDispatchJob → ChatPage → res BrowserAckResult;
  current_url : nat → ChatPage → res (option string);
  close_page : nat → ChatPage → res BrowserCloseResult;
}.

(** What other processes do: a model asks for a send, an operator cancels, another dispatcher
    asks for the lease.  [CCancelWrite] is the second transaction of a [cancel] whose check was
    made some time before. *)
Inductive client_call :=
  | CEnqueue (rq : EnqueueRequest) (now : float) (uuid1 uuid2 uuid3 : string)
  | CCancel (id : string) (now : float)
  | CCancelWrite (id : string) (now : float)
  | CAcquire (alive : Z → bool) (owner_id : string) (pid max_windows : Z)
      (idle_close_s ttl_s now : float)
  | CFence (alive : Z → bool).

(** The step of a run: the clock, the calls of the other processes before the step, and
    whether the dispatcher dies there. *)
Class ChatEnv := {
  env_now : nat → float;
  env_clients : nat → list client_call;
  env_killed : nat → bool;
}.

(** The calls of the browser that matter to the world, with the store at the call. *)
Inductive effect :=
  | Sent (s : ChatStore) (job : ChatDispatchJob) (page : ChatPage)
      (answer : res BrowserSendResult)
  | Opened (s : ChatStore) (job : ChatDispatchJob) (answer : res PageIdentity)
  | Closed (s : ChatStore) (page : ChatPage) (now : float) (answer : res BrowserCloseResult)
  | Observed (s : ChatStore) (job : ChatDispatchJob) (page : ChatPage)
      (answer : res BrowserAckResult).

Notation World := (Runs.World ChatStore effect).
Notation run := (eff World).

Section Engine.
Context {tables : UnicodeTables} {check : NetlocCheck} {digests : Digests}.
Context {browser : ChatDispatchBrowser} {env : ChatEnv}.

(** A call that raises leaves the store alone. *)
Definition client_effect (s : ChatStore) (c : client_call) : ChatStore :=
  match c with
  | CEnqueue rq now u1 u2 u3 =>
      match enqueue s rq now u1 u2 u3 with Ok (s', _) => s' | Err _ => s end
  | CCancel id now => match cancel s id now with Ok (s', _) => s' | Err _ => s end
  | CCancelWrite id now =>
      match update_job s id (to_state ChatDispatchState.CANCELLED) now with
      | Ok (s', _) => s' | Err _ => s end
  | CAcquire alive owner pid windows idle ttl now =>
      match acquire_lease s alive owner pid windows idle ttl now with
      | Ok (s', _) => s' | Err _ => s end
  | CFence alive => (fence_dispatcher s alive).1
  end.

#[export] Instance chat_env : RunEnv ChatStore := {|
  run_now := env_now;
  run_others := λ n s, foldl client_effect s (env_clients n);
  run_killed := env_killed;
|}.

Definition update (id : string) (u : JobUpdate) : run ChatDispatchJob :=
  txn (λ now s, update_job s id u now).

(** ** The methods of the engine *)

Record ChatDispatchEngine := mkEngine {
  en_max_windows : Z;
  en_idle_close_s : float;
  en_rate_limit_cooldown_s : float;
}.

Definition new_engine (max_windows : Z) (idle_close_s rate_limit_cooldown_s : float)
    : ChatDispatchEngine :=
  mkEngine (Z.max 1 (Z.min max_windows 16)) (fmax (of_Z 1) idle_close_s)
    (fmax (of_Z 1) rate_limit_cooldown_s).

Context (engine : ChatDispatchEngine).

Definition to_reconcile (id error : string) : run ChatDispatchJob :=
  update id ((to_state ChatDispatchState.RECONCILE_REQUIRED) <| ju_last_error := Some error |>).

(** [conversation_id_from_url(current) == conversation_id_from_url(job.conversation_url)] *)
Definition same_conversation (current url : string) : bool :=
  bool_decide (conversation_id_from_url current = conversation_id_from_url url).

Definition _page (job : ChatDispatchJob) : run (option ChatPage) :=
  found ← query (λ s, page_for_conversation s (cj_conversation_key job));
  match found with
  | None => mret None
  | Some page =>
      current ← ask (λ n, current_url n page) unlogged;
      match current with
      | None =>
          txn (λ _ s, mark_page_closed s (cp_page_id page) false
                        (Some "owned/bound window is no longer observable"));;
          mret None
      | Some current =>
          let wanted := truthy_text (cj_conversation_url job) in
          match wanted with
          | Some url =>
              if same_conversation current url then
                if negb (String.eqb (normalize_url current)
                                    (normalize_url (cp_conversation_url page)))
                then Some <$> txn (λ now s, update_page_url s (cp_page_id page) current now)
                else mret (Some page)
              else
                txn (λ _ s, mark_page_closed s (cp_page_id page) true
                              (Some "page identity changed"));;
                mret None
          | None =>
              if opt_truthy (cj_project_url job) then mret (Some page)
              else
                txn (λ _ s, mark_page_closed s (cp_page_id page) true
                              (Some "page identity changed"));;
                mret None
          end
      end
  end.

(** [f"chat-dispatch:{job.dispatch_id}:{job.nonce}"] *)
Definition owner_token (job : ChatDispatchJob) : string :=
  "chat-dispatch:" +:+ cj_dispatch_id job +:+ ":" +:+ cj_nonce job.

Definition windows_full (s : ChatStore) : bool :=
  en_max_windows engine <=? Z.of_nat (owned_open_count s).

Definition log_open (job : ChatDispatchJob) (s : ChatStore) (a : res PageIdentity)
    : list effect := [Opened s job a].

(** Opening a window under the write-ahead state OPENING; an open whose outcome is unknown is
    left to reconciliation. *)
Definition open_window (job : ChatDispatchJob) (error : string)
    (request : run PageIdentity) : run (option PageIdentity) :=
  full ← query windows_full;
  if (full : bool) then mret None
  else
    update (cj_dispatch_id job) (to_state ChatDispatchState.OPENING);;
    try_except (Some <$> request) (λ e,
      to_reconcile (cj_dispatch_id job) (error +:+ exn_text e);; mret None).

(** The page found or opened for a job that has none; [None] when there is none yet. *)
Definition acquire_identity (job : ChatDispatchJob) : run (option PageIdentity) :=
  let id := cj_dispatch_id job in
  let url := truthy_text (cj_conversation_url job) in
  if bool_decide (cj_state job = ChatDispatchState.OPENING) then
    identity ←
      match url, truthy_text (cj_project_url job) with
      | Some url, _ =>
          found ← ask (λ n, find_existing n url) unlogged;
          mret ((λ i, i <| pi_owned := false |>) <$> found)
      | None, Some project =>
          prompt ← lift (wire_prompt job);
          ask (λ n, recover_new n project (owner_token job) (prompt_digest prompt)) unlogged
      | None, None => mret None
      end;
    match identity with
    | Some _ => mret identity
    | None =>
        to_reconcile id "browser open outcome is unresolved; no automatic replay";;
        mret None
    end
  else
    match url with
    | Some url =>
        found ← ask (λ n, find_existing n url) unlogged;
        match found with
        | Some _ => mret found
        | None =>
            open_window job "existing-conversation window open outcome unresolved: "
              (ask (λ n, open_existing n url) (log_open job))
        end
    | None =>
        match truthy_text (cj_project_url job) with
        | None => lift (raise RuntimeError "unresolved conversation has no project_url")
        | Some project =>
            open_window job "new-conversation window open outcome unresolved: "
              (prompt ← lift (wire_prompt job);
               ask (λ n, open_new n project (owner_token job) (prompt_digest prompt))
                 (log_open job))
        end
    end.

Definition bind_window (st : ChatDispatchState.t) (page : ChatPage) : JobUpdate :=
  (to_state st) <| ju_window_handle := Some (cp_window_handle page) |>
              <| ju_browser_pid := Some (cp_browser_pid page) |>
              <| ju_chrome_executable := Some (cp_chrome_executable page) |>
              <| ju_page_owned := Some (cp_owned page) |>.

Definition _ensure_page (job : ChatDispatchJob) : run (option ChatPage) :=
  found ← _page job;
  match found with
  | Some page => Some <$> txn (λ now s, mark_page_open s (cp_page_id page) now)
  | None =>
      identity ← acquire_identity job;
      match identity with
      | None => mret None
      | Some identity =>
          page ← txn (λ now s, upsert_page s (cj_conversation_key job) identity now);
          update (cj_dispatch_id job) (bind_window ChatDispatchState.WINDOW_BOUND page);;
          mret (Some page)
      end
  end.

(** [x or y] of texts *)
Definition or_text (x y : string) : string := if str_truthy x then x else y.

Definition send (job : ChatDispatchJob) (page : ChatPage) : run BrowserSendResult :=
  ask (λ n, if opt_truthy (cj_conversation_url job) then send_existing n job page
            else send_new n job page)
      (λ s a, [Sent s job page a]).

(** What [_submit] records of an answer; [current] is the clock before the send. *)
Definition record_send (job : ChatDispatchJob) (page : ChatPage) (current : float)
    (result : BrowserSendResult) : run unit :=
  let id := cj_dispatch_id job in
  match truthy_text (bs_conversation_url result) with
  | Some url =>
      txn (λ now s, bind_conversation s (cj_conversation_key job) url now);;
      txn (λ now s, update_page_url s (cp_page_id page) url now);;
      mret tt
  | None => mret tt
  end;;
  if bs_submitted result then
    update id ((to_state ChatDispatchState.SUBMITTED)
      <| ju_conversation_url :=
           coalesce (truthy_text (bs_conversation_url result)) (cj_conversation_url job) |>
      <| ju_submitted_at := Some current |>);;
    mret tt
  else if bs_side_effect_possible result then
    to_reconcile id (or_text (bs_detail result) "send outcome is ambiguous");;
    mret tt
  else if bs_rate_limited result then
    update id ((to_state ChatDispatchState.RETRY_WAIT)
      <| ju_next_attempt_at := Some (fadd current (en_rate_limit_cooldown_s engine)) |>
      <| ju_last_error := Some (or_text (bs_detail result) "rate limited before send") |>);;
    mret tt
  else
    update id ((to_state ChatDispatchState.FAILED)
      <| ju_last_error :=
           Some (or_text (bs_detail result) "send was safely rejected before side effect") |>);;
    mret tt.

Definition _submit (job : ChatDispatchJob) (page : ChatPage) : run unit :=
  current ← clock;
  job ← update (cj_dispatch_id job)
          ((bind_window ChatDispatchState.SUBMITTING page)
             <| ju_attempts := Some (cj_attempts job + 1) |>);
  result ← try_except (Some <$> send job page) (λ e,
    to_reconcile (cj_dispatch_id job) ("send raised " +:+ exn_text e);; mret None);
  match result with
  | None => mret tt
  | Some result => record_send job page current result
  end.

(** The acknowledgement of a job whose conversation is known. *)
Definition acknowledge (job : ChatDispatchJob) (page : ChatPage) : run unit :=
  ack ← ask (λ n, observe_ack n job page) (λ s a, [Observed s job page a]);
  if negb (ba_observed ack) then mret tt
  else if 1 <? ba_nonce_occurrences ack then
    to_reconcile (cj_dispatch_id job)
      ("nonce appeared " +:+ pretty (ba_nonce_occurrences ack) +:+
       " times; duplicate delivery requires human review");;
    txn (λ _ s, mark_page_closed s (cp_page_id page) true (Some "duplicate nonce evidence"));;
    mret tt
  else if (ba_nonce_occurrences ack =? 1) && bool_decide (ba_generating ack = Some false) then
    now ← clock;
    update (cj_dispatch_id job) ((to_state ChatDispatchState.ACKNOWLEDGED)
      <| ju_acknowledged_at := Some now |>);;
    pending ← query (λ s, has_pending_for_conversation s (cj_conversation_key job));
    if (pending : bool) then mret tt
    else txn (λ _ s, mark_page_idle s (cp_page_id page) (cj_idle_close_s job) now);; mret tt
  else mret tt.

Definition _reconcile (job : ChatDispatchJob) : run unit :=
  found ← _page job;
  match found with
  | None => mret tt
  | Some page =>
      if opt_truthy (cj_conversation_url job) then acknowledge job page
      else
        current ← ask (λ n, current_url n page) unlogged;
        match truthy_text current with
        | Some url =>
            if bool_decide (is_Some (conversation_id_from_url url)) then
              txn (λ now s, bind_conversation s (cj_conversation_key job) url now);;
              txn (λ now s, update_page_url s (cp_page_id page) url now);;
              submitted ← match cj_submitted_at job with
                          | Some at_ => if feq at_ (of_Z 0) then clock else mret at_
                          | None => clock
                          end;
              job ← update (cj_dispatch_id job) ((to_state ChatDispatchState.SUBMITTED)
                <| ju_conversation_url := Some url |> <| ju_submitted_at := Some submitted |>);
              page ← txn (λ _ s, page ← get_page s (cp_page_id page); Ok (s, page));
              acknowledge job page
            else mret tt
        | None => mret tt
        end
  end.

(** One page of the loop of [_close_idle_pages]. *)
Definition close_idle_page (now : float) (page : ChatPage) : run unit :=
  if negb (cp_owned page) then mret tt
  else
    pending ← query (λ s, has_pending_for_conversation s (cp_conversation_key page));
    if (pending : bool) then mret tt
    else
      match cp_state page, cp_close_after_at page with
      | ChatPageState.OPEN, _ =>
          txn (λ _ s, mark_page_idle s (cp_page_id page) (en_idle_close_s engine) now);;
          mret tt
      | ChatPageState.IDLE, Some deadline =>
          if flt now deadline then mret tt
          else
            result ← ask (λ n, close_page n page) (λ s a, [Closed s page now a]);
            if bc_closed result || bc_absent result
            then txn (λ _ s, mark_page_closed s (cp_page_id page) false None);; mret tt
            else
              txn (λ _ s, mark_page_closed s (cp_page_id page) true
                (Some (or_text (bc_detail result)
                         "exact owned-page close could not be proven")));;
              mret tt
      | _, _ => mret tt
      end.

Definition _close_idle_pages : run unit :=
  now ← clock;
  pages ← query (λ s, list_pages s false);
  for_each (close_idle_page now) pages.

(** [self.store.get_job(id)] *)
Definition read_job (id : string) : run ChatDispatchJob :=
  txn (λ _ s, job ← get_job s id; Ok (s, job)).

(** The three ends of the body of the loop of [run_once]; the result says whether there was
    progress. *)
Definition resume_submitting (job : ChatDispatchJob) : run bool :=
  to_reconcile (cj_dispatch_id job)
    "worker resumed from SUBMITTING; Send outcome requires reconciliation";;
  job ← read_job (cj_dispatch_id job);
  _reconcile job;;
  mret true.

Definition reconcile_sent (job : ChatDispatchJob) : run bool :=
  _reconcile job;;
  after ← read_job (cj_dispatch_id job);
  mret (negb (bool_decide (cj_state after = cj_state job))).

Definition attempt_send (job : ChatDispatchJob) : run bool :=
  let id := cj_dispatch_id job in
  waiting ←
    (if bool_decide (cj_state job = ChatDispatchState.RETRY_WAIT)
     then now ← clock; mret (flt now (cj_next_attempt_at job)) else mret false);
  if (waiting : bool) then mret false
  else
    page ← try_except (inr <$> _ensure_page job) (λ e,
      update id ((to_state ChatDispatchState.FAILED)
        <| ju_last_error := Some ("page acquisition failed: " +:+ exn_text e) |>);;
      mret (inl tt));
    match page with
    | inl _ => mret true
    | inr None => mret false
    | inr (Some page) =>
        job ← read_job id;
        _submit job page;;
        mret true
    end.

(** One job of the loop of [run_once]. *)
Definition process_job (job : ChatDispatchJob) : run bool :=
  if terminal_job_state (cj_state job) then mret false
  else
    older ← query (λ s, has_older_unfinished s job);
    if (older : bool) then mret false
    else
      match cj_state job with
      | ChatDispatchState.SUBMITTING => resume_submitting job
      | ChatDispatchState.SUBMITTED | ChatDispatchState.RECONCILE_REQUIRED =>
          reconcile_sent job
      | _ => attempt_send job
      end.

Fixpoint process_jobs (jobs : list ChatDispatchJob) : run bool :=
  match jobs with
  | [] => mret false
  | job :: jobs' => p ← process_job job; q ← process_jobs jobs'; mret (p || q)
  end.

Record RunReport := mkRunReport { rr_progressed : bool; rr_pending : nat; rr_owned_open : nat }.

Definition run_once : run RunReport :=
  jobs ← txn (λ now s, Ok (s, eligible_jobs s 200 now));
  progressed ← process_jobs jobs;
  _close_idle_pages;;
  pending ← query pending_count;
  owned ← query owned_open_count;
  mret (mkRunReport progressed pending owned).

Definition DEFAULT_RECONCILE_HOLD_S : float := of_Z 90.
Definition DEFAULT_LEASE_TTL_S : float := of_Z 60.
Definition DEFAULT_RATE_LIMIT_COOLDOWN_S : float := of_Z 120.

(** The jobs that keep a dispatcher with a pending queue alive. *)
Definition holds_dispatcher (now : float) (j : ChatDispatchJob) : bool :=
  if bool_decide (cj_state j = ChatDispatchState.RECONCILE_REQUIRED)
  then flt (fsub now (cj_updated_at j)) DEFAULT_RECONCILE_HOLD_S
  else pending_job_state (cj_state j).

Definition should_exit : run bool :=
  jobs ← query (λ s, list_jobs s 500);
  pending ← query pending_count;
  if Nat.ltb 0 pending then
    now ← clock;
    mret (negb (existsb (holds_dispatcher now) jobs))
  else
    owned ← query owned_open_count;
    mret (Nat.eqb owned 0).

End Engine.

(** [run_chat_dispatch_worker]: the loop runs for at most [fuel] rounds; [None] when the fuel
    is used up. *)
Section Worker.
Context {tables : UnicodeTables} {check : NetlocCheck} {digests : Digests}.
Context {browser : ChatDispatchBrowser} {env : ChatEnv}.

Fixpoint worker_loop (engine : ChatDispatchEngine) (owner : string) (fuel : nat)
    : run (option Z) :=
  match fuel with
  | O => mret None
  | S fuel' =>
      alive ← txn (λ now s, heartbeat_lease s owner DEFAULT_LEASE_TTL_S now);
      if negb alive then mret (Some 3)
      else
        run_once engine;;
        exit ← should_exit;
        if (exit : bool) then mret (Some 0) else worker_loop engine owner fuel'
  end.

Definition run_chat_dispatch_worker (fuel : nat) (owner : string) (pid : Z) (alive : Z → bool)
    (max_windows : Z) (idle_close_s : float) : run (option Z) :=
  acquired ← txn (λ now s,
    acquire_lease s alive owner pid max_windows idle_close_s DEFAULT_LEASE_TTL_S now);
  if negb acquired then mret (Some 0)
  else
    try_finally
      (worker_loop (new_engine max_windows idle_close_s DEFAULT_RATE_LIMIT_COOLDOWN_S) owner fuel)
      (txn (λ _ s, Ok (release_lease s owner, tt))).

End Worker.
