(* ===== verification/ChatFacts.v ===== *)
(** * What a run of the chat dispatcher keeps

    A run only ever adds rows to the queue, keeps what a request asked for, and changes the
    state of the job it is working on; other processes only add jobs and cancel them.  The
    relations of this file say so and are shown for the programs of the engine one by one. *)

From stdpp Require Import pretty.
From S2P Require Import Prelude PyFloat PyStr PyUrl PyJson Models ProjectUrl.
From S2P Require Import WorkerProtocol Registry Runs.
From S2P Require Import Reconcile Dispatcher Actions ChatStore ChatEngine.

Open Scope string_scope.
Open Scope Z_scope.
Open Scope list_scope.

(** ** Jobs *)

(** What a request fixed, and the identity of the row. *)
Definition job_contract (j : ChatDispatchJob) :=
  (cj_dispatch_id j, cj_dispatch_key j, cj_conversation_key j, cj_project_url j,
   (cj_prompt_text j, cj_prompt_sha256 j, cj_nonce j, cj_created_at j,
    cj_idle_close_s j, cj_max_windows j)).

(** The row of another job keeps its contract and may only be cancelled; a job in [mine] may
    change its state. *)
Definition job_le (mine : string → Prop) (j j' : ChatDispatchJob) : Prop :=
  job_contract j' = job_contract j ∧
  (mine (cj_dispatch_id j) ∨ cj_state j' = cj_state j ∨
   cj_state j' = ChatDispatchState.CANCELLED).

Definition job_new (mine : string → Prop) (j : ChatDispatchJob) : Prop :=
  mine (cj_dispatch_id j) ∨ cj_state j = ChatDispatchState.QUEUED ∨
  cj_state j = ChatDispatchState.CANCELLED.

Definition job_ids (s : ChatStore) : list string := cj_dispatch_id <$> cs_jobs s.

(** The keys that requests gave, without the absent ones. *)
Definition job_keys (s : ChatStore) : list string := omap cj_dispatch_key (cs_jobs s).

Definition evolves (mine : string → Prop) (s s' : ChatStore) : Prop :=
  ∃ js new, cs_jobs s' = js ++ new ∧ Forall2 (job_le mine) (cs_jobs s) js ∧
    Forall (job_new mine) new ∧ (NoDup (job_ids s) → NoDup (job_ids s')) ∧
    (NoDup (job_keys s) → NoDup (job_keys s')).

Section Evolves.
Context (mine : string → Prop).

Lemma contract_id j j' : job_contract j' = job_contract j → cj_dispatch_id j' = cj_dispatch_id j.
Proof. unfold job_contract. congruence. Qed.

Lemma contract_key j j' :
  job_contract j' = job_contract j → cj_conversation_key j' = cj_conversation_key j.
Proof. unfold job_contract. congruence. Qed.

Lemma contract_dispatch_key j j' :
  job_contract j' = job_contract j → cj_dispatch_key j' = cj_dispatch_key j.
Proof. unfold job_contract. congruence. Qed.

Lemma omap_fmap_same {A B} (g : A → option B) (f : A → A) (l : list A) :
  (∀ x, g (f x) = g x) → omap g (f <$> l) = omap g l.
Proof. intros H. induction l as [|x l IH]; cbn; [done|]. by rewrite H, IH. Qed.

#[export] Instance job_le_preorder : PreOrder (job_le mine).
Proof.
  split; [by intros j; split; auto|]. intros a b c [Hc1 H1] [Hc2 H2].
  split; [congruence|]. rewrite (contract_id _ _ Hc1) in H2. naive_solver congruence.
Qed.

Lemma job_le_new j j' : job_le mine j j' → job_new mine j → job_new mine j'.
Proof.
  intros [Hc H] Hn. unfold job_new. rewrite (contract_id _ _ Hc).
  destruct H as [?|[->|?]]; auto.
Qed.

#[export] Instance evolves_preorder : PreOrder (evolves mine).
Proof.
  split.
  - intros s. exists (cs_jobs s), []. rewrite app_nil_r. split_and!; [done| |done|done|done].
    by apply Forall_Forall2_diag, Forall_true.
  - intros s1 s2 s3 (js1 & new1 & E1 & F1 & N1 & D1 & K1) (js2 & new2 & E2 & F2 & N2 & D2 & K2).
    rewrite E1 in F2. apply Forall2_app_inv_l in F2 as (js & jn & Fa & Fb & ->).
    exists js, (jn ++ new2). rewrite E2, app_assoc. split_and!; [done| | |auto|auto].
    + etrans; eauto.
    + apply Forall_app. split; [|done]. clear -Fb N1.
      induction Fb; inversion N1; constructor; eauto using job_le_new.
Qed.

Lemma evolves_jobs s s' : cs_jobs s' = cs_jobs s → evolves mine s s'.
Proof.
  intros E. exists (cs_jobs s), []. rewrite E, app_nil_r. unfold job_ids, job_keys. rewrite E.
  split_and!; [done| |done|done|done]. by apply Forall_Forall2_diag, Forall_true.
Qed.

Lemma evolves_fmap s s' f :
  cs_jobs s' = f <$> cs_jobs s → (∀ j, job_le mine j (f j)) → evolves mine s s'.
Proof.
  intros E H. exists (f <$> cs_jobs s), []. rewrite app_nil_r. split_and!; [done| |done| |].
  - rewrite Forall2_fmap_r. by apply Forall_Forall2_diag, Forall_true.
  - unfold job_ids. rewrite E, <- list_fmap_compose.
    erewrite (list_fmap_ext (cj_dispatch_id ∘ f)); [done|].
    intros _ j _. exact (contract_id _ _ (proj1 (H j))).
  - unfold job_keys. rewrite E. rewrite omap_fmap_same; [done|].
    intros j. exact (contract_dispatch_key _ _ (proj1 (H j))).
Qed.

Lemma evolves_mono (other : string → Prop) s s' :
  (∀ i, mine i → other i) → evolves mine s s' → evolves other s s'.
Proof.
  intros Hm (js & new & E & F & N & D & K). exists js, new. split_and!; [done| | |done|done].
  - eapply Forall2_impl; [done|]. intros j j' [? [?|?]]; split; auto.
  - eapply Forall_impl; [done|]. intros j [?|?]; [left|right]; auto.
Qed.

(** A row lives on at its place. *)
Lemma evolves_split s s' pre j post :
  evolves mine s s' → cs_jobs s = pre ++ j :: post →
  ∃ pre' j' post', cs_jobs s' = pre' ++ j' :: post' ∧ Forall2 (job_le mine) pre pre' ∧
    job_le mine j j'.
Proof.
  intros (js & new & E & F & _) Hs. rewrite Hs in F.
  apply Forall2_app_inv_l in F as (pre' & q & Fp & Fq & ->).
  apply Forall2_cons_inv_l in Fq as (j' & post' & Hj & Fq & ->).
  exists pre', j', (post' ++ new). rewrite E. by rewrite <- app_assoc.
Qed.

Lemma evolves_elem s s' j :
  evolves mine s s' → j ∈ cs_jobs s → ∃ j', j' ∈ cs_jobs s' ∧ job_le mine j j'.
Proof.
  intros He (pre & post & Hs)%list_elem_of_split.
  destruct (evolves_split _ _ _ _ _ He Hs) as (pre' & j' & post' & -> & _ & Hj).
  exists j'. split; [apply elem_of_app; right; by left|done].
Qed.

End Evolves.

(** ** The transactions of the store *)

Definition nobody : string → Prop := λ _, False.

Definition pages_keyed (s : ChatStore) : Prop :=
  ∀ k p, cs_pages s !! k = Some p → cp_page_id p = k.

Lemma nobody_evolves mine s s' : evolves nobody s s' → evolves mine s s'.
Proof. by apply evolves_mono. Qed.

Lemma get_job_Ok s id j :
  get_job s id = Ok j → j ∈ cs_jobs s ∧ cj_dispatch_id j = id.
Proof.
  unfold get_job. destruct (next_where _ _) as [x|] eqn:E; [|done]. intros [= <-].
  apply next_where_Some in E as [Hx Hid]. split; [done|by apply String.eqb_eq].
Qed.

Lemma apply_update_le mine id u now j :
  mine id → job_le mine j (if is_dispatch id j then apply_update u now j else j).
Proof.
  intros Hm. destruct (is_dispatch id j) eqn:E; [|done]. apply String.eqb_eq in E as <-.
  split; [done|by left].
Qed.

Lemma update_job_Ok s id u now s' j :
  update_job s id u now = Ok (s', j) →
  cs_jobs s' = (λ j, if is_dispatch id j then apply_update u now j else j) <$> cs_jobs s ∧
  cs_pages s' = cs_pages s ∧ cs_conversations s' = cs_conversations s ∧
  cs_lease s' = cs_lease s ∧ get_job s' id = Ok j ∧ is_Ok (get_job s id).
Proof.
  unfold update_job. rewrite bind_Ok. intros (j0 & E0 & H).
  apply raise_if_then in H as [_ H]. apply raise_if_then in H as [_ H]. cbv zeta in H.
  apply bind_Ok in H as (j1 & E1 & [= <- <-]). cbn. split_and!; try done. by exists j0.
Qed.

Lemma update_job_evolves (mine : string → Prop) s id u now s' j :
  mine id → update_job s id u now = Ok (s', j) → evolves mine s s'.
Proof.
  intros Hm (E & _)%update_job_Ok. eapply evolves_fmap; [done|]. intros x.
  by apply apply_update_le.
Qed.

Lemma modify_page_Ok s id f s' p :
  modify_page s id f = Ok (s', p) →
  ∃ old, cs_pages s !! id = Some old ∧ p = f old ∧ s' = put_page s p.
Proof.
  unfold modify_page, get_page. rewrite bind_Ok. intros (old & E%fetch_Ok & [= <- <-]). eauto.
Qed.

Lemma put_page_keyed s p : pages_keyed s → pages_keyed (put_page s p).
Proof.
  intros H k q. unfold put_page. cbn. intros [[<- <-]|[_ Hq]]%lookup_insert_Some; [done|eauto].
Qed.

(** A transaction on pages: the jobs stay, the pages stay keyed. *)
Definition page_op {A} (m : ChatStore → res (ChatStore * A)) : Prop :=
  ∀ s s' a, m s = Ok (s', a) → cs_jobs s' = cs_jobs s ∧ (pages_keyed s → pages_keyed s').

Lemma page_op_modify id f : page_op (λ s, modify_page s id f).
Proof.
  intros s s' p (old & _ & _ & ->)%modify_page_Ok. split; [done|apply put_page_keyed].
Qed.

Lemma page_op_closed id amb err : page_op (λ s, mark_page_closed s id amb err).
Proof. apply page_op_modify. Qed.

Lemma page_op_url id url now : page_op (λ s, update_page_url s id url now).
Proof.
  intros s s' p. unfold update_page_url. rewrite bind_Ok.
  intros (? & _ & [_ H]%raise_if_then). by eapply page_op_modify.
Qed.

Lemma page_op_open id now : page_op (λ s, mark_page_open s id now).
Proof.
  intros s s' p. unfold mark_page_open. rewrite bind_Ok.
  intros (? & _ & [_ H]%raise_if_then). by eapply page_op_modify.
Qed.

Lemma page_op_idle id idle now : page_op (λ s, mark_page_idle s id idle now).
Proof.
  intros s s' p. unfold mark_page_idle. rewrite bind_Ok.
  intros (? & _ & [_ H]%raise_if_then). by eapply page_op_modify.
Qed.

Lemma page_op_upsert key i now : page_op (λ s, upsert_page s key i now).
Proof.
  intros s s' p. unfold upsert_page. intros [_ [= <- <-]]%raise_if_then. cbv zeta.
  split; [done|apply put_page_keyed].
Qed.

Lemma bind_job_le key url now j : job_le nobody j (bind_job key url now j).
Proof. unfold bind_job. destruct (_ && _); split; auto. Qed.

Lemma bind_conversation_Ok s key url now s' u :
  bind_conversation s key url now = Ok (s', u) →
  cs_jobs s' = bind_job key url now <$> cs_jobs s ∧ cs_pages s' = cs_pages s.
Proof.
  unfold bind_conversation. destruct (List.filter _ _) as [|[]]; [|done].
  by intros [_ [= <- _]]%raise_if_then.
Qed.

Lemma acquire_lease_Ok s alive owner pid windows idle ttl now s' b :
  acquire_lease s alive owner pid windows idle ttl now = Ok (s', b) →
  (s' = s ∧ b = false) ∨ (∃ row, s' = s <| cs_lease := Some row |> ∧ cl_owner_id row = owner ∧
                             cl_pid row = pid ∧ b = true).
Proof.
  unfold acquire_lease. cbv zeta.
  match goal with |- context [if ?b then _ else _] => destruct b end.
  - intros [= <- <-]. by left.
  - intros [_ H]%raise_if_then. apply raise_if_then in H as [_ [= <- <-]]. right. eauto.
Qed.

Section Requests.
Context {tables : UnicodeTables} {check : NetlocCheck} {digests : Digests}.

Lemma put_conversation_Ok s key c s' :
  put_conversation s key c = Ok s' →
  cs_jobs s' = cs_jobs s ∧ cs_pages s' = cs_pages s ∧ cs_lease s' = cs_lease s.
Proof.
  unfold put_conversation. cbv zeta. intros [_ H]%raise_if_then.
  apply raise_if_then in H as [_ [= <-]]. done.
Qed.

Lemma insert_job_Ok s job s' :
  insert_job s job = Ok s' →
  s' = s <| cs_jobs := cs_jobs s ++ [job] |> ∧ cj_dispatch_id job ∉ job_ids s ∧
  (∀ j, j ∈ cs_jobs s → cj_dispatch_key job ≠ None → cj_dispatch_key j ≠ cj_dispatch_key job).
Proof.
  unfold insert_job. intros [_ H]%raise_if_then. apply raise_if_then in H as [Hid H].
  apply raise_if_then in H as [Hkey [= <-]]. split_and!; [done| |].
  - intros (j & Hj & Hin)%list_elem_of_fmap.
    assert (existsb (is_dispatch (cj_dispatch_id job)) (cs_jobs s) = true) as Ht; [|congruence].
    apply existsb_exists. exists j. rewrite <- list_elem_of_In. split; [done|].
    unfold is_dispatch. rewrite Hj. apply String.eqb_refl.
  - intros j Hin Hsome Heq. apply andb_false_iff in Hkey as [Hkey|Hkey].
    + apply bool_decide_eq_false in Hkey. by apply Hkey, not_eq_None_Some.
    + assert (existsb (λ j, bool_decide (cj_dispatch_key j = cj_dispatch_key job)) (cs_jobs s)
        = true) as Ht; [|congruence].
      apply existsb_exists. exists j. rewrite <- list_elem_of_In. split; [done|].
      by apply bool_decide_eq_true.
Qed.

(** What [enqueue] does to the queue: it repeats a job or adds one. *)
Lemma enqueue_new_Ok s prompt key url project dkey idle windows now u1 u2 u3 s' job :
  enqueue_new s prompt key url project dkey idle windows now u1 u2 u3 = Ok (s', job) →
  cs_jobs s' = cs_jobs s ++ [job] ∧ cs_pages s' = cs_pages s ∧ cs_lease s' = cs_lease s ∧
  cj_state job = ChatDispatchState.QUEUED ∧ cj_dispatch_id job ∉ job_ids s ∧
  (∀ k, dkey = Some k → k ∉ job_keys s) ∧ cj_dispatch_key job = dkey ∧ cj_prompt_sha256 job = sha256_text prompt ∧
  cj_prompt_text job = prompt ∧ cj_nonce job = u3 ∧
  (str_truthy key = true → cj_conversation_key job = key) ∧
  (opt_truthy project = true → cj_project_url job = project).
Proof.
  unfold enqueue_new. cbv zeta. intros [_ H]%raise_if_then.
  apply raise_if_then in H as [_ H]. apply bind_Ok in H as (s1 & E1 & H).
  apply bind_Ok in H as (s2 & E2 & [= <- <-]).
  apply put_conversation_Ok in E1 as (Ej & Ep & El).
  apply insert_job_Ok in E2 as (-> & Hid & Hkey). cbn in *. unfold job_ids, job_keys in *.
  rewrite Ej in *. split_and!; try done.
  - intros k -> (j & Hj & Hk)%list_elem_of_omap. by apply (Hkey j Hj).
  - intros Hk. by rewrite Hk.
  - intros Hk. by rewrite Hk.
Qed.

Lemma repeated_job job prompt key url project job' :
  repeated_dispatch job prompt key url project = Ok job' → job' = job.
Proof.
  unfold repeated_dispatch. rewrite bind_Ok. intros (? & _ & H).
  by apply raise_if_then in H as [_ [= <-]].
Qed.

Lemma enqueue_Ok s rq now u1 u2 u3 s' job :
  enqueue s rq now u1 u2 u3 = Ok (s', job) →
  (s' = s ∧ job ∈ cs_jobs s) ∨
  (cs_jobs s' = cs_jobs s ++ [job] ∧ cs_pages s' = cs_pages s ∧ cs_lease s' = cs_lease s ∧
   cj_state job = ChatDispatchState.QUEUED ∧ cj_dispatch_id job ∉ job_ids s ∧
   (∀ k, cj_dispatch_key job = Some k → k ∉ job_keys s)).
Proof.
  unfold enqueue. rewrite bind_Ok. intros (q & _ & H).
  destruct (keyed_job _ _) as [j|] eqn:E.
  - left. apply bind_Ok in H as (j' & Hj & [= <- <-]). split; [done|].
    apply repeated_job in Hj as ->.
    apply bind_Some in E as (k & _ & E). by apply next_where_Some in E as [? _].
  - right. apply enqueue_new_Ok in H as (? & ? & ? & ? & ? & Hk & Hd & _). by rewrite Hd.
Qed.

Lemma cancel_write_calm s id now s' job :
  update_job s id (to_state ChatDispatchState.CANCELLED) now = Ok (s', job) →
  evolves nobody s s' ∧ cs_pages s' = cs_pages s.
Proof.
  intros (Ej & Ep & _)%update_job_Ok. split; [|done].
  eapply evolves_fmap; [exact Ej|]. intros j. cbn beta. destruct (is_dispatch id j).
  - split; [done|]. right. by right.
  - reflexivity.
Qed.

Lemma cancel_Ok s id now s' job :
  cancel s id now = Ok (s', job) →
  s' = s ∨ update_job s id (to_state ChatDispatchState.CANCELLED) now = Ok (s', job).
Proof.
  unfold cancel. rewrite bind_Ok. intros (j & _ & H).
  destruct (terminal_job_state _); [left; by injection H|]. destruct (send_possible _); [done|].
  by right.
Qed.

Lemma client_effect_calm s c :
  evolves nobody s (client_effect s c) ∧ cs_pages (client_effect s c) = cs_pages s.
Proof.
  destruct c; cbn [client_effect].
  - destruct (enqueue _ _ _ _ _ _) as [[s' job]|] eqn:E; [|by split].
    apply enqueue_Ok in E as [[-> _]|(Ej & Ep & _ & Hq & Hid & Hkey)]; [by split|].
    split; [|done]. exists (cs_jobs s), [job]. split_and!; [done| | | |].
    + by apply Forall_Forall2_diag, Forall_true.
    + apply Forall_singleton. right. by left.
    + intros Hnd. unfold job_ids. rewrite Ej, fmap_app. apply NoDup_app. split_and!; [done| |].
      * intros x Hx Hs. apply list_elem_of_singleton in Hs as ->. done.
      * apply NoDup_singleton.
    + intros Hnd. unfold job_keys. rewrite Ej, omap_app. cbn.
      destruct (cj_dispatch_key job) as [k|]; [|by rewrite app_nil_r].
      apply NoDup_app. split_and!; [done| |apply NoDup_singleton].
      intros x Hx Hs. apply list_elem_of_singleton in Hs as ->. by apply (Hkey k).
  - destruct (cancel _ _ _) as [[s' job]|] eqn:E; [|by split].
    apply cancel_Ok in E as [->|E]; [by split|]. by eapply cancel_write_calm.
  - destruct (update_job _ _ _ _) as [[s' job]|] eqn:E; [|by split].
    by eapply cancel_write_calm.
  - destruct (acquire_lease _ _ _ _ _ _ _ _) as [[s' b]|] eqn:E; [|by split].
    apply acquire_lease_Ok in E as [[-> _]|(row & -> & _)]; [by split|].
    split; [by apply evolves_jobs|done].
  - unfold fence_dispatcher. destruct (cs_lease s) as [row|]; [|by split].
    destruct (_ && _); [by split|]. unfold release_lease.
    destruct (holds_lease _ _); [|by split]. split; [by apply evolves_jobs|done].
Qed.

End Requests.
