(* ===== verification/ChatInvariant.v ===== *)
(** * The invariant of the chat dispatcher

    Which browser calls the log of a run may hold: [event_ok] says under which circumstances
    a prompt is sent and a window is opened or closed.  Every program of the engine keeps the
    log within it, whatever the browser answers, whatever other processes do, and wherever
    the dispatcher is killed. *)

From stdpp Require Import pretty.
From S2P Require Import Prelude PyFloat PyStr PyUrl PyJson Models ProjectUrl.
From S2P Require Import WorkerProtocol Registry Runs.
From S2P Require Import Reconcile Dispatcher Actions ChatStore ChatEngine ChatFacts.

Open Scope string_scope.
Open Scope Z_scope.
Open Scope list_scope.

(** ** Relations of worlds *)

(** One step of the others. *)
Definition calm (w w' : World) : Prop :=
  evolves nobody (w_store w) (w_store w') ∧ cs_pages (w_store w') = cs_pages (w_store w) ∧
  w_log w' = w_log w.

(** The jobs of [mine] may change state, and the calls of the browser satisfy [ev]. *)
Definition works (mine : string → Prop) (ev : effect → Prop) (w w' : World) : Prop :=
  evolves mine (w_store w) (w_store w') ∧
  (pages_keyed (w_store w) → pages_keyed (w_store w')) ∧
  ∃ new, w_log w' = w_log w ++ new ∧ Forall ev new.

#[export] Instance works_preorder mine ev : PreOrder (works mine ev).
Proof.
  split.
  - intros w. split_and!; [done|done|]. exists []. by rewrite app_nil_r.
  - intros a b c (E1 & K1 & n1 & L1 & F1) (E2 & K2 & n2 & L2 & F2).
    split_and!; [by etrans|auto|]. exists (n1 ++ n2). rewrite L2, L1, app_assoc.
    split; [done|by apply Forall_app].
Qed.

Lemma calm_works mine ev w w' : calm w w' → works mine ev w w'.
Proof.
  intros (E & P & L). split_and!.
  - by apply nobody_evolves.
  - unfold pages_keyed. by rewrite P.
  - exists []. by rewrite app_nil_r.
Qed.

Lemma works_mono (mine mine' : string → Prop) (ev ev' : effect → Prop) w w' :
  (∀ i, mine i → mine' i) → (∀ e, ev e → ev' e) → works mine ev w w' → works mine' ev' w w'.
Proof.
  intros Hm He (E & K & new & L & F). split_and!; [by eapply evolves_mono|done|].
  exists new. split; [done|by eapply Forall_impl].
Qed.

Definition is_observation (e : effect) : Prop :=
  match e with Observed _ _ _ _ => True | _ => False end.

(** ** First in line *)

Definition has_id (id : string) (j : ChatDispatchJob) : Prop := cj_dispatch_id j = id.

(** The job [id] is in the queue and every earlier job of its conversation is finished. *)
Definition in_front (id : string) (s : ChatStore) : Prop :=
  ∃ pre j post, cs_jobs s = pre ++ j :: post ∧ has_id id j ∧
    Forall (λ x, cj_dispatch_id x ≠ id) pre ∧
    Forall (λ x, cj_conversation_key x = cj_conversation_key j →
                 terminal_job_state (cj_state x) = true) pre.

Lemma in_front_evolves id s s' : evolves (eq id) s s' → in_front id s → in_front id s'.
Proof.
  intros He (pre & j & post & Hs & Hid & Hne & Hterm).
  destruct (evolves_split _ _ _ _ _ _ He Hs) as (pre' & j' & post' & Hs' & Hpre & [Hj _]).
  exists pre', j', post'. split_and!; [done|by etrans; [apply contract_id|]| |].
  - clear -Hpre Hne. induction Hpre as [|x y ? ? [Hc _]]; inversion Hne; constructor; auto.
    by rewrite (contract_id _ _ Hc).
  - clear -Hpre Hne Hterm Hj. rewrite (contract_key _ _ Hj).
    induction Hpre as [|x y ? ? [Hc Hst]]; inversion Hne; inversion Hterm; subst;
      constructor; auto.
    rewrite (contract_key _ _ Hc). destruct Hst as [Hst|[->| ->]]; [congruence|done|done].
Qed.

Lemma older_jobs_split id jobs :
  existsb (is_dispatch id) jobs = true →
  ∃ j post, jobs = older_jobs id jobs ++ j :: post ∧ cj_dispatch_id j = id ∧
    Forall (λ x, cj_dispatch_id x ≠ id) (older_jobs id jobs).
Proof.
  induction jobs as [|j jobs IH]; cbn; [done|]. destruct (is_dispatch id j) eqn:E.
  - intros _. apply String.eqb_eq in E. exists j, jobs. by split_and!.
  - intros (x & post & Hs & Hx & Hne)%IH. exists x, post. apply String.eqb_neq in E.
    split_and!; [by cbn; f_equal|done|by constructor].
Qed.

Lemma same_id_same_job s j1 j2 :
  NoDup (job_ids s) → j1 ∈ cs_jobs s → j2 ∈ cs_jobs s →
  cj_dispatch_id j1 = cj_dispatch_id j2 → j1 = j2.
Proof. apply NoDup_fmap_elem. Qed.

(** The test of [run_once]. *)
Lemma has_older_in_front s job row :
  NoDup (job_ids s) → row ∈ cs_jobs s → job_contract row = job_contract job →
  has_older_unfinished s job = false → in_front (cj_dispatch_id job) s.
Proof.
  intros Hnd Hrow Hc H. unfold has_older_unfinished in H.
  assert (existsb (is_dispatch (cj_dispatch_id job)) (cs_jobs s) = true) as He.
  { apply existsb_exists. exists row. rewrite <- list_elem_of_In. split; [done|].
    apply String.eqb_eq. by apply contract_id. }
  rewrite He in H. cbn in H. apply older_jobs_split in He as (j & post & Hs & Hj & Hne).
  assert (j = row) as ->.
  { eapply same_id_same_job; [done| |done|].
    - rewrite Hs. apply elem_of_app. right. by left.
    - rewrite Hj. symmetry. by apply contract_id. }
  exists (older_jobs (cj_dispatch_id job) (cs_jobs s)), row, post. split_and!; try done.
  apply Forall_forall. intros x Hx Hk.
  destruct (terminal_job_state (cj_state x)) eqn:Et; [done|].
  assert (existsb (λ j, String.eqb (cj_conversation_key j) (cj_conversation_key job) &&
    negb (terminal_job_state (cj_state j))) (older_jobs (cj_dispatch_id job) (cs_jobs s)) = true)
    as Ht; [|congruence].
  apply existsb_exists. exists x. rewrite <- list_elem_of_In. split; [done|].
  rewrite Et, andb_true_r. apply String.eqb_eq. rewrite Hk. by apply contract_key.
Qed.

Lemma in_front_get id s : in_front id s → ∃ row, get_job s id = Ok row.
Proof.
  intros (pre & j & post & Hs & Hid & _). unfold get_job.
  destruct (next_where _ _) as [x|] eqn:E; [eauto|].
  apply next_where_None with (x := j) in E.
  - by apply String.eqb_neq in E.
  - rewrite Hs. apply elem_of_app. right. by left.
Qed.

Lemma get_job_intro s id j :
  NoDup (job_ids s) → j ∈ cs_jobs s → cj_dispatch_id j = id → get_job s id = Ok j.
Proof.
  intros Hnd Hj Hid. unfold get_job. destruct (next_where _ _) as [x|] eqn:E.
  - apply next_where_Some in E as [Hx Hxi]. apply String.eqb_eq in Hxi. f_equal.
    eapply same_id_same_job; eauto. congruence.
  - eapply next_where_None in E; [|done]. by apply String.eqb_neq in E.
Qed.

(** ** The calls of the browser *)

(** An answer after which the prompt may be sent once more: the browser says that nothing was
    sent, and why. *)
Definition resendable (a : res BrowserSendResult) : bool :=
  match a with
  | Ok r => negb (bs_submitted r) && negb (bs_side_effect_possible r) && bs_rate_limited r
  | Err _ => false
  end.

Definition spends (id : string) (e : effect) : Prop :=
  match e with
  | Sent _ job _ a => cj_dispatch_id job = id ∧ resendable a = false
  | _ => False
  end.

Definition spent (id : string) (log : list effect) : Prop := Exists (spends id) log.

(** The states from which the engine sends. *)
Definition sendable (st : ChatDispatchState.t) : bool :=
  match st with
  | ChatDispatchState.QUEUED | ChatDispatchState.CLAIMED | ChatDispatchState.OPENING
  | ChatDispatchState.WINDOW_BOUND | ChatDispatchState.RETRY_WAIT => true
  | _ => false
  end.

Definition closed_job (id : string) (s : ChatStore) : Prop :=
  ∃ j, j ∈ cs_jobs s ∧ has_id id j ∧ sendable (cj_state j) = false.

(** The row of [job] is in state [st], or was cancelled from outside since. *)
Definition row_in (st : ChatDispatchState.t) (job : ChatDispatchJob) (s : ChatStore) : Prop :=
  ∃ row, row ∈ cs_jobs s ∧ job_contract row = job_contract job ∧
    (cj_state row = st ∨ cj_state row = ChatDispatchState.CANCELLED).

Definition page_ready (key : string) (page : ChatPage) (s : ChatStore) : Prop :=
  cs_pages s !! cp_page_id page = Some page ∧ cp_conversation_key page = key ∧
  cp_state page = ChatPageState.OPEN.

(** A conversation without work: nothing of it is pending but what came in just now. *)
Definition only_new_work (key : string) (s : ChatStore) : Prop :=
  ∀ j, j ∈ cs_jobs s → cj_conversation_key j = key →
    terminal_job_state (cj_state j) = true ∨ cj_state j = ChatDispatchState.QUEUED.

Section Invariant.
Context (limit : Z).

Definition event_ok (before : list effect) (e : effect) : Prop :=
  match e with
  | Sent s job page _ =>
      let id := cj_dispatch_id job in
      ¬ spent id before ∧ in_front id s ∧ row_in ChatDispatchState.SUBMITTING job s ∧
      page_ready (cj_conversation_key job) page s
  | Opened s job _ =>
      in_front (cj_dispatch_id job) s ∧ row_in ChatDispatchState.OPENING job s ∧
      Z.of_nat (owned_open_count s) < limit
  | Closed s page now _ =>
      cs_pages s !! cp_page_id page = Some page ∧ cp_owned page = true ∧
      cp_state page = ChatPageState.IDLE ∧
      (∃ deadline, cp_close_after_at page = Some deadline ∧ flt now deadline = false) ∧
      only_new_work (cp_conversation_key page) s
  | Observed _ _ _ _ => True
  end.

Definition log_ok (log : list effect) : Prop :=
  ∀ before e after, log = before ++ e :: after → event_ok before e.

Lemma log_ok_nil : log_ok [].
Proof. intros before e after H. by destruct before. Qed.

Lemma log_ok_snoc log e : log_ok log → event_ok log e → log_ok (log ++ [e]).
Proof.
  intros Hl He before e' after H. destruct after as [|x after _] using rev_ind.
  - by apply app_inj_tail in H as [-> ->].
  - rewrite app_comm_cons, app_assoc in H. apply app_inj_tail in H as [H _].
    by eapply Hl.
Qed.

Lemma log_ok_observations log new :
  log_ok log → Forall is_observation new → log_ok (log ++ new).
Proof.
  intros Hl. revert log Hl. induction new as [|e new IH]; intros log Hl Hn.
  - by rewrite app_nil_r.
  - inversion Hn as [|? ? He]; subst. rewrite cons_middle, app_assoc.
    apply IH; [|done]. apply log_ok_snoc; [done|]. by destruct e.
Qed.

Definition good (w : World) : Prop :=
  log_ok (w_log w) ∧ NoDup (job_ids (w_store w)) ∧ pages_keyed (w_store w).

Lemma good_works mine w w' : works mine is_observation w w' → good w → good w'.
Proof.
  intros ((js & new & E & _ & _ & D & _) & K & obs & L & F) (Hl & Hn & Hk).
  split_and!; [|auto|auto]. rewrite L. by apply log_ok_observations.
Qed.

End Invariant.

Lemma spent_snoc id log e : spent id (log ++ [e]) ↔ spent id log ∨ spends id e.
Proof. unfold spent. rewrite Exists_app, Exists_cons, Exists_nil. naive_solver. Qed.

Lemma spent_observations id log new :
  Forall is_observation new → spent id (log ++ new) → spent id log.
Proof.
  intros Hn. unfold spent. rewrite Exists_app. intros [?|H]; [done|]. exfalso.
  apply Exists_exists in H as (e & He & Hs). rewrite Forall_forall in Hn.
  specialize (Hn _ He). by destruct e.
Qed.

Lemma closed_evolves id s s' : evolves nobody s s' → closed_job id s → closed_job id s'.
Proof.
  intros He (j & Hj & Hid & Hs). destruct (evolves_elem _ _ _ _ He Hj) as (j' & Hj' & Hc & Hst).
  exists j'. split_and!; [done|by etrans; [apply contract_id|]|].
  by destruct Hst as [[]|[->| ->]].
Qed.

Lemma closed_evolves_other id id' s s' :
  id' ≠ id → evolves (eq id) s s' → closed_job id' s → closed_job id' s'.
Proof.
  intros Hne He (j & Hj & Hid & Hs).
  destruct (evolves_elem _ _ _ _ He Hj) as (j' & Hj' & Hc & Hst).
  exists j'. split_and!; [done|by etrans; [apply contract_id|]|].
  unfold has_id in Hid. destruct Hst as [Hst|[->| ->]]; [congruence|done|done].
Qed.

Lemma row_in_evolves st job s s' : evolves nobody s s' → row_in st job s → row_in st job s'.
Proof.
  intros He (row & Hrow & Hc & Hs).
  destruct (evolves_elem _ _ _ _ He Hrow) as (row' & Hr' & Hc' & Hst).
  exists row'. split_and!; [done|congruence|].
  destruct Hst as [[]|[->| ->]]; auto.
Qed.

Lemma only_new_evolves key s s' :
  evolves nobody s s' → only_new_work key s → only_new_work key s'.
Proof.
  intros (js & new & E & F & N & _) H j Hj Hk. rewrite E in Hj.
  apply elem_of_app in Hj as [Hj|Hj].
  - apply list_elem_of_lookup in Hj as [i Hi].
    destruct (Forall2_lookup_r _ _ _ _ _ F Hi) as (j0 & Hi0 & Hc & Hst).
    apply list_elem_of_lookup_2 in Hi0. rewrite (contract_key _ _ Hc) in Hk.
    destruct Hst as [[]|[Hst|Hst]]; rewrite Hst; [by apply H|by left].
  - rewrite Forall_forall in N. destruct (N _ Hj) as [[]|[Hst|Hst]]; rewrite Hst; [by right|by left].
Qed.

(** ** The steps of a run *)

Section Steps.
Context {tables : UnicodeTables} {check : NetlocCheck} {digests : Digests}.
Context {browser : ChatDispatchBrowser} {env : ChatEnv}.

Lemma clients_calm s cs :
  evolves nobody s (foldl client_effect s cs) ∧ cs_pages (foldl client_effect s cs) = cs_pages s.
Proof.
  revert s. induction cs as [|c cs IH]; intros s; cbn; [by split|].
  destruct (client_effect_calm s c) as [E1 P1], (IH (client_effect s c)) as [E2 P2].
  split; [by etrans|congruence].
Qed.

Lemma step_calm w w' o : step w = (w', o) → calm w w'.
Proof.
  unfold step. cbv zeta. destruct (clients_calm (w_store w) (env_clients (w_tick w))) as [E P].
  destruct (run_killed _); intros [= <- _]; by split_and!.
Qed.

#[export] Instance chat_calm : Calm ChatStore effect := {| step_calms := step_calm |}.

(** ** Which relation a step moves along *)

Section Works.
Context (mine : string → Prop) (ev : effect → Prop).

Lemma moves_step : moves (works mine ev) step.
Proof. intros w w' o H. eapply calm_works, step_calm, H. Qed.

Lemma moves_txn {A} (m : float → ChatStore → res (ChatStore * A)) :
  (∀ now s s' a, m now s = Ok (s', a) →
     evolves mine s s' ∧ (pages_keyed s → pages_keyed s')) →
  moves (works mine ev) (txn m).
Proof.
  intros Hm. unfold txn. apply moves_bind; [apply _|apply moves_step|intros now].
  intros w w' o. unfold commit. destruct (m now (w_store w)) as [[s' a]|e] eqn:E;
    intros [= <- _]; [|reflexivity].
  destruct (Hm _ _ _ _ E). split_and!; [done|done|]. exists []. by rewrite app_nil_r.
Qed.

Lemma moves_page {A} (m : float → ChatStore → res (ChatStore * A)) :
  (∀ now, page_op (m now)) → moves (works mine ev) (txn m).
Proof.
  intros Hm. apply moves_txn. intros now s s' a H. destruct (Hm _ _ _ _ H) as [Ej Hk].
  split; [by apply evolves_jobs|done].
Qed.

Lemma moves_query {A} (f : ChatStore → A) : moves (works mine ev) (query f).
Proof. apply moves_txn. by intros now s s' a [= <- _]. Qed.

Lemma moves_read {A} (f : ChatStore → res A) :
  moves (works mine ev) (txn (λ _ s, a ← f s; Ok (s, a))).
Proof. apply moves_txn. intros now s s' a (x & _ & [= <- _])%bind_Ok. by split. Qed.

Lemma moves_update id u : mine id → moves (works mine ev) (update id u).
Proof.
  intros Hm. apply moves_txn. intros now s s' a H. split; [by eapply update_job_evolves|].
  apply update_job_Ok in H as (_ & P & _). unfold pages_keyed. by rewrite P.
Qed.

Lemma moves_bind_conversation key url :
  moves (works mine ev) (txn (λ now s, bind_conversation s key url now)).
Proof.
  apply moves_txn. intros now s s' u [Ej Ep]%bind_conversation_Ok.
  split; [|unfold pages_keyed; by rewrite Ep].
  apply nobody_evolves. eapply evolves_fmap; [exact Ej|]. intros j. apply bind_job_le.
Qed.

Lemma moves_ask {A} (answer : nat → res A) log :
  (∀ s a, Forall ev (log s a)) → moves (works mine ev) (ask answer log).
Proof.
  intros Hl. unfold ask. apply moves_bind; [apply _|apply moves_step|intros now].
  intros w w' o. unfold perform. cbv zeta. intros H.
  assert (w' = w <| w_log := w_log w ++ log (w_store w) (answer (w_tick w)) |>) as ->
    by (by destruct (answer (w_tick w)); simplify_eq).
  split_and!; [done|done|]. by eexists.
Qed.

Lemma moves_unlogged {A} (answer : nat → res A) :
  moves (works mine ev) (ask answer unlogged).
Proof. apply moves_ask. intros. constructor. Qed.

End Works.
End Steps.

Create HintDb moves discriminated.
#[export] Hint Constants Opaque : moves.
#[export] Hint Variables Opaque : moves.
#[export] Hint Resolve moves_step moves_query moves_read moves_update moves_unlogged
  moves_bind_conversation : moves.
#[export] Hint Resolve page_op_modify page_op_closed page_op_url page_op_open page_op_idle
  page_op_upsert : moves.
#[export] Hint Extern 1 (moves _ clock) => apply moves_step : moves.
#[export] Hint Extern 1 (moves (works _ _) (txn _)) => apply moves_page; intros ?; cbn beta : moves.

(** Walk through a program. *)
Ltac walk :=
  repeat first
    [ solve [eauto with moves]
    | match goal with
      | |- moves _ (_ ≫= _) => apply moves_bind; [apply _| |intros ?]
      | |- moves _ (mret _) => apply moves_ret; apply _
      | |- moves _ (lift _) => apply moves_lift; apply _
      | |- moves _ (try_except _ _) => apply moves_try; [apply _| |intros ?]
      | |- moves _ (if ?b then _ else _) => destruct b
      | |- moves _ (match ?x with _ => _ end) => destruct x
      | |- moves _ (_ <$> _) => unfold fmap, eff_fmap
      end ].
