(* ===== verification/ChatRounds.v ===== *)
(** * The rounds of the chat dispatcher keep the invariant

    Walks the programs of the engine one by one: looking for a page, opening one, sending,
    reconciling, closing idle pages, and the round and the loop built from them. *)

From stdpp Require Import pretty.
From S2P Require Import Prelude PyFloat PyStr PyUrl PyJson Models ProjectUrl.
From S2P Require Import WorkerProtocol Registry Runs.
From S2P Require Import Reconcile Dispatcher Actions ChatStore ChatEngine ChatFacts.
From S2P Require Import ChatInvariant.

Open Scope string_scope.
Open Scope Z_scope.
Open Scope list_scope.

Definition about (id : string) (e : effect) : Prop :=
  match e with Sent _ job _ _ => cj_dispatch_id job = id | _ => True end.

(** The row of a job is in the queue. *)
Definition known (job : ChatDispatchJob) (s : ChatStore) : Prop :=
  ∃ row, row ∈ cs_jobs s ∧ job_contract row = job_contract job.

Lemma known_evolves mine job s s' : evolves mine s s' → known job s → known job s'.
Proof.
  intros He (row & Hr & Hc). destruct (evolves_elem _ _ _ _ He Hr) as (row' & Hr' & Hc' & _).
  exists row'. split; [done|congruence].
Qed.

Section Rounds.
Context {tables : UnicodeTables} {check : NetlocCheck} {digests : Digests}.
Context {browser : ChatDispatchBrowser} {env : ChatEnv}.
Context (engine : ChatDispatchEngine) (limit : Z).

(** ** The engine changes one job at a time *)

Lemma page_moves mine ev job : moves (works mine ev) (_page job).
Proof using Type. unfold _page. walk. Qed.

Lemma to_reconcile_moves ev id error : moves (works (eq id) ev) (to_reconcile id error).
Proof using Type. unfold to_reconcile. walk. Qed.
#[local] Hint Resolve page_moves to_reconcile_moves : moves.

Lemma acknowledge_moves ev job page id :
  (∀ s a, Forall ev [Observed s job page a]) → cj_dispatch_id job = id →
  moves (works (eq id) ev) (acknowledge job page).
Proof using Type.
  intros Hev <-. unfold acknowledge. apply moves_bind; [apply _|by apply moves_ask|intros ack].
  walk.
Qed.

Lemma open_window_moves ev job error request :
  moves (works (eq (cj_dispatch_id job)) ev) request →
  moves (works (eq (cj_dispatch_id job)) ev) (open_window engine job error request).
Proof using Type. intros Hr. unfold open_window. walk. Qed.

Lemma acquire_moves job :
  moves (works (eq (cj_dispatch_id job)) (about (cj_dispatch_id job)))
    (acquire_identity engine job).
Proof using Type.
  assert (∀ s a, Forall (about (cj_dispatch_id job)) (log_open job s a)) as Ho.
  { intros. by apply Forall_singleton. }
  unfold acquire_identity. cbv zeta. destruct (bool_decide _); [walk|].
  destruct (truthy_text _).
  - apply moves_bind; [apply _|walk|intros [i|]]; [walk|].
    apply open_window_moves. by apply moves_ask.
  - destruct (truthy_text _); [|walk]. apply open_window_moves.
    apply moves_bind; [apply _|walk|intros p]. by apply moves_ask.
Qed.

Lemma ensure_moves job :
  moves (works (eq (cj_dispatch_id job)) (about (cj_dispatch_id job))) (_ensure_page engine job).
Proof using Type.
  unfold _ensure_page. apply moves_bind; [apply _|walk|intros [p|]]; [walk|].
  apply moves_bind; [apply _|apply acquire_moves|intros [i|]]; walk.
Qed.

Lemma record_moves ev job page current result :
  moves (works (eq (cj_dispatch_id job)) ev) (record_send engine job page current result).
Proof using Type. unfold record_send. cbv zeta. walk. Qed.

(** The job an update returns is the row it wrote. *)
Lemma update_returns id u w w' j :
  update id u w = (w', Done j) → cj_dispatch_id j = id ∧ get_job (w_store w') id = Ok j.
Proof using Type.
  unfold update, txn, mbind, eff_bind. destruct (step w) as [w1 [now|e|]]; [|done|done].
  unfold commit. destruct (update_job _ _ _ _) as [[s' j']|] eqn:E; [|done]. intros [= <- <-].
  apply update_job_Ok in E as (_ & _ & _ & _ & E & _). split; [by apply get_job_Ok in E as [_ ?]|done].
Qed.

Lemma triple_update_id P id u Qd Qx :
  triple P (update id u) Qd Qx →
  triple P (update id u) (λ j w, Qd j w ∧ cj_dispatch_id j = id) Qx.
Proof using Type.
  intros H w w' o Hw E. specialize (H w w' o Hw E). destruct o; [|done..].
  apply update_returns in E as [? _]. done.
Qed.

Lemma moves_bind_update {B} R `{!PreOrder R} id u (f : ChatDispatchJob → run B) :
  moves R (update id u) → (∀ j, cj_dispatch_id j = id → moves R (f j)) →
  moves R (update id u ≫= f).
Proof using Type.
  intros Hu Hf w w' o. unfold mbind, eff_bind. pose proof (Hu w) as Hw.
  destruct (update id u w) as [w1 [j|e|]] eqn:E; specialize (Hw _ _ eq_refl);
    [|by intros [= <- _]..].
  apply update_returns in E as [Hid _]. intros H. etrans; [exact Hw|by eapply Hf].
Qed.

(** ** Before the send *)

(** The engine may send [job]: it is its turn, and nothing it asked for may have been sent. *)
Definition free (job : ChatDispatchJob) (w : World) : Prop :=
  good limit w ∧ known job (w_store w) ∧ in_front (cj_dispatch_id job) (w_store w) ∧
  ¬ spent (cj_dispatch_id job) (w_log w).

Lemma free_works job w w' :
  works (eq (cj_dispatch_id job)) is_observation w w' → free job w → free job w'.
Proof using Type.
  intros Hw (Hg & Hk & Hf & Hs). pose proof Hw as (He & _ & obs & L & F). split_and!.
  - by eapply good_works.
  - by eapply known_evolves.
  - by eapply in_front_evolves.
  - rewrite L. intros H. by apply Hs, (spent_observations _ _ obs).
Qed.

Lemma free_stable job : stable (free job).
Proof using Type. intros w w' H. apply free_works. by apply calm_works. Qed.

Lemma free_holds {A} job (m : run A) :
  moves (works (eq (cj_dispatch_id job)) is_observation) m → holds (free job) m.
Proof using Type. intros H. eapply moves_holds; [exact H|apply free_works]. Qed.

(** The page [page_id] belongs to the conversation [key]. *)
Definition page_of (key page_id : string) (s : ChatStore) : Prop :=
  ∃ p, cs_pages s !! page_id = Some p ∧ cp_conversation_key p = key.

Lemma page_for_conversation_of s key page :
  pages_keyed s → page_for_conversation s key = Some page → page_of key (cp_page_id page) s.
Proof using Type.
  unfold page_for_conversation. intros Hk H. apply head_Some_elem_of in H.
  unfold order_desc in H. apply elem_of_py_sorted, elem_of_select in H as (Hp & k & E).
  bool_to_prop. exists page. split; [|by apply String.eqb_eq]. by rewrite (Hk _ _ E).
Qed.

Lemma put_page_of s key p id :
  cp_conversation_key p = key → page_of key id s → page_of key id (put_page s p).
Proof using Type.
  intros Hp (q & E & Hq). unfold page_of, put_page. cbn.
  destruct (decide (cp_page_id p = id)) as [<-|Hne].
  - exists p. by rewrite lookup_insert_eq.
  - exists q. by rewrite lookup_insert_ne.
Qed.

Lemma free_commit job (w : World) s' :
  evolves (eq (cj_dispatch_id job)) (w_store w) s' →
  (pages_keyed (w_store w) → pages_keyed s') →
  free job w → free job (w <| w_store := s' |>).
Proof using Type.
  intros He Hk. apply free_works. split_and!; [done|done|]. exists []. by rewrite app_nil_r.
Qed.

Lemma free_page_op {A} (m : ChatStore → res (ChatStore * A)) job w s' a :
  page_op m → m (w_store w) = Ok (s', a) → free job w → free job (w <| w_store := s' |>).
Proof using Type.
  intros Hm E. destruct (Hm _ _ _ E) as [Ej Hk]. apply free_commit; [by apply evolves_jobs|done].
Qed.

(** A page found for a job, or made ready, belongs to its conversation. *)
Definition found_page (job : ChatDispatchJob) (r : option ChatPage) (w : World) : Prop :=
  free job w ∧ ∀ page, r = Some page →
    page_of (cj_conversation_key job) (cp_page_id page) (w_store w).

Lemma found_page_None job w : free job w → found_page job None w.
Proof using Type. by split. Qed.

Lemma found_page_stable job r : stable (found_page job r).
Proof using Type.
  intros w w' Hc [Hf Hp]. split; [by eapply free_stable|]. intros page Hr.
  destruct (Hp page Hr) as (p & E & Hk). destruct Hc as (_ & P & _). exists p. by rewrite P.
Qed.

Lemma closing_page job id amb error :
  triple (free job) (txn (λ _ s, mark_page_closed s id amb error);; mret None)
    (found_page job) (free job).
Proof using Type.
  eapply triple_bind; [apply free_holds; eauto with moves|intros p].
  apply triple_mret. intros w. apply found_page_None.
Qed.

Lemma page_triple job : triple (free job) (_page job) (found_page job) (free job).
Proof using Type.
  unfold _page. eapply (triple_bind _ _ _ (found_page job)).
  { apply triple_query; [apply free_stable| |done]. intros w Hf. split; [done|].
    intros page Hp. apply page_for_conversation_of; [apply Hf|done]. }
  intros [page|]; [|apply triple_mret; intros w [Hf _]; by apply found_page_None].
  eapply (triple_bind _ _ _ (λ _, found_page job (Some page))).
  { apply triple_ask; [apply found_page_stable| |by intros w []].
    intros w a Hw. cbv zeta. unfold unlogged. rewrite app_nil_r.
    destruct a; [by destruct w|destruct w; by destruct Hw]. }
  intros current. cbv zeta.
  assert (∀ amb error, triple (found_page job (Some page))
    (txn (λ _ s, mark_page_closed s (cp_page_id page) amb error);; mret None)
    (found_page job) (free job)) as Hclose.
  { intros amb error. eapply triple_weaken; [apply closing_page|by intros w []|done|done]. }
  assert (triple (found_page job (Some page)) (mret (Some page)) (found_page job) (free job))
    as Hkeep by (by apply triple_mret).
  destruct current as [current|]; [|apply Hclose].
  destruct (truthy_text (cj_conversation_url job)) as [url|].
  - destruct (same_conversation current url); [|apply Hclose].
    destruct (negb _); [|apply Hkeep]. unfold fmap, eff_fmap.
    eapply (triple_bind _ _ _ (λ p, found_page job (Some p))); [|intros p; by apply triple_mret].
    apply triple_txn; [apply found_page_stable| |by intros w []].
    intros now w s' p [Hf Hp] E. split.
    { exact (free_page_op (λ s, update_page_url s _ current now) job w s' p
               (page_op_url _ _ _) E Hf). }
    intros q [= <-]. cbn. unfold update_page_url in E. apply bind_Ok in E as (? & _ & E).
    apply raise_if_then in E as [_ E]. apply modify_page_Ok in E as (old & Eo & -> & ->).
    destruct (Hp page eq_refl) as (p0 & E0 & Hk).
    assert (p0 = old) as -> by congruence.
    assert (cp_page_id old = cp_page_id page) as Hid by (by apply Hf in Eo).
    cbn. rewrite Hid. apply put_page_of; [done|]. by exists old.
  - destruct (opt_truthy _); [apply Hkeep|apply Hclose].
Qed.

(** ** Opening a window *)

(** [free] with a fact about the pages, which only the engine changes. *)
Definition free_with (job : ChatDispatchJob) (Q : gmap string ChatPage → Prop) (w : World) : Prop :=
  free job w ∧ Q (cs_pages (w_store w)).

Lemma free_with_stable job Q : stable (free_with job Q).
Proof using Type.
  intros w w' Hc [Hf HQ]. split; [by eapply free_stable|]. by destruct Hc as (_ & -> & _).
Qed.

Lemma update_free job Q u st :
  ju_state u = Some st →
  triple (free_with job Q) (update (cj_dispatch_id job) u)
    (λ j w, free_with job Q w ∧ row_in st job (w_store w) ∧
            job_contract j = job_contract job)
    (free_with job Q).
Proof using Type.
  intros Hu. apply triple_txn; [apply free_with_stable| |done].
  intros now w s' j [Hf HQ] E. pose proof E as He.
  apply (update_job_evolves (eq (cj_dispatch_id job))) in He; [|done].
  apply update_job_Ok in E as (Ej & Ep & _ & _ & Eg & _).
  assert (free job (w <| w_store := s' |>)) as Hf'.
  { apply free_commit; [done|by unfold pages_keyed; rewrite Ep|done]. }
  split_and!; [by split; [|cbn; rewrite Ep]| |].
  - destruct Hf as (_ & (row & Hr & Hc) & _). unfold row_in. cbn. rewrite Ej.
    eexists. split; [apply list_elem_of_fmap; eauto|].
    unfold is_dispatch. rewrite (contract_id _ _ Hc), String.eqb_refl. cbn. rewrite Hu.
    split; [exact Hc|by left].
  - destruct Hf' as ((_ & Hnd & _) & (row & Hr & Hc) & _). cbn in *.
    apply get_job_Ok in Eg as [Hj Hid]. rewrite <- Hc. f_equal.
    eapply same_id_same_job; [done..|]. rewrite Hid. symmetry. by apply contract_id.
Qed.

Lemma update_free' job u : triple (free job) (update (cj_dispatch_id job) u) (λ _, free job) (free job).
Proof using Type. apply free_holds. eauto with moves. Qed.

Hypothesis within_limit : en_max_windows engine ≤ limit.

(** There is room for one more window. *)
Definition room (pages : gmap string ChatPage) : Prop :=
  windows_full engine (mkChatStore ∅ [] pages None) = false.

Definition opening (job : ChatDispatchJob) (w : World) : Prop :=
  free_with job room w ∧
  row_in ChatDispatchState.OPENING job (w_store w).

Lemma opening_stable job : stable (opening job).
Proof using Type.
  intros w w' Hc [Hf Hr]. split; [by eapply free_with_stable|].
  destruct Hc as (He & _). by eapply row_in_evolves.
Qed.

Lemma ask_open job (answer : nat → res PageIdentity) :
  triple (opening job) (ask answer (log_open job)) (λ _, free job) (free job).
Proof using within_limit.
  assert (∀ w, opening job w → free job w) as Hof by (by intros w [[]]).
  apply triple_ask; [apply opening_stable| |exact Hof].
  intros w a [[Hf Hw] Hr]. cbv zeta.
  assert (free job (w <| w_log := w_log w ++ log_open job (w_store w) a |>)); [|by destruct a].
  destruct Hf as ((Hl & Hn & Hk) & Hkn & Hfr & Hs). split_and!; try done.
  - split_and!; [|done|done]. apply log_ok_snoc; [done|]. split_and!; [done|done|].
    unfold room, windows_full in Hw. apply Z.leb_gt in Hw. unfold owned_open_count in *. cbn in *. lia.
  - unfold log_open. cbn. rewrite spent_snoc. by intros [?|[]].
Qed.

Lemma open_window_triple job error request :
  triple (opening job) request (λ _, free job) (free job) →
  triple (free job) (open_window engine job error request) (λ _, free job) (free job).
Proof using Type.
  intros Hr. unfold open_window.
  eapply (triple_bind _ _ _ (λ full w, free job w ∧ windows_full engine (w_store w) = full)).
  { apply triple_query; [apply free_stable|by split|done]. }
  intros [|]; [apply triple_mret; by intros w []|].
  eapply triple_bind.
  { eapply triple_weaken; [eapply (update_free job room _ ChatDispatchState.OPENING); reflexivity| | |].
    - intros w [Hf Hw]. split; [done|]. exact Hw.
    - intros j w H. exact H.
    - by intros w []. }
  intros j. eapply triple_try.
  - unfold fmap, eff_fmap. eapply (triple_bind _ _ _ (λ _, free job)).
    + eapply triple_weaken; [exact Hr| |done|intros w H; exact H]. by intros w (Hf & Hrow & _).
    + intros a. apply holds_ret.
  - done.
  - intros e. apply free_holds. unfold to_reconcile. walk.
Qed.

Lemma acquire_triple job :
  triple (free job) (acquire_identity engine job) (λ _, free job) (free job).
Proof using within_limit.
  unfold acquire_identity. cbv zeta. destruct (bool_decide _); [apply free_holds; walk|].
  destruct (truthy_text _).
  - eapply triple_bind; [apply free_holds; walk|intros [i|]]; [apply free_holds; walk|].
    apply open_window_triple, ask_open.
  - destruct (truthy_text _); [|apply free_holds; walk]. apply open_window_triple.
    eapply (triple_bind _ _ _ (λ _, opening job)); [|intros p; apply ask_open].
    eapply triple_weaken; [apply holds_lift|intros w H; exact H|done|]. by intros w [[]].
Qed.

(** ** The page a prompt is sent through *)

Definition ready (job : ChatDispatchJob) (page : ChatPage) : World → Prop :=
  free_with job (λ m, m !! cp_page_id page = Some page ∧
    cp_conversation_key page = cj_conversation_key job ∧ cp_state page = ChatPageState.OPEN).

Definition ready_page (job : ChatDispatchJob) (r : option ChatPage) (w : World) : Prop :=
  free job w ∧ ∀ page, r = Some page → ready job page w.

Lemma ready_triple job (m : float → ChatStore → res (ChatStore * ChatPage))
    (P : World → Prop) :
  stable P → (∀ w, P w → free job w) → (∀ now, page_op (m now)) →
  (∀ now w s' page, P w → m now (w_store w) = Ok (s', page) →
     cs_pages s' !! cp_page_id page = Some page ∧
     cp_conversation_key page = cj_conversation_key job ∧ cp_state page = ChatPageState.OPEN) →
  triple P (txn m) (ready job) (free job).
Proof using Type.
  intros HP Hfree Hop Hm. apply triple_txn; [done| |done].
  intros now w s' page Hw E. split; [|by eapply Hm].
  eapply free_page_op; [apply Hop|exact E|by apply Hfree].
Qed.

Lemma ensure_triple job :
  triple (free job) (_ensure_page engine job) (ready_page job) (free job).
Proof using within_limit.
  unfold _ensure_page. eapply triple_bind; [apply page_triple|intros [page|]].
  - unfold fmap, eff_fmap. eapply (triple_bind _ _ _ (ready job)).
    + apply (ready_triple job); [apply found_page_stable|by intros w []|
        intros now; apply page_op_open|].
      intros now w s' p [Hf Hp] E. unfold mark_page_open in E.
      apply bind_Ok in E as (? & _ & E). apply raise_if_then in E as [_ E].
      apply modify_page_Ok in E as (old & Eo & -> & ->).
      destruct (Hp page eq_refl) as (p0 & E0 & Hk). assert (p0 = old) as -> by congruence.
      cbn. by rewrite lookup_insert_eq.
    + intros p. apply triple_mret. intros w Hr. split; [apply Hr|]. by intros q [= <-].
  - eapply (triple_bind _ _ _ (λ _, free job)).
    { eapply triple_weaken; [apply acquire_triple|by intros w []|done|done]. }
    intros [identity|]; [|apply triple_mret; by split].
    eapply (triple_bind _ _ _ (ready job)).
    + apply (ready_triple job); [apply free_stable|done|
        intros now; apply page_op_upsert|].
      intros now w s' p Hf E. unfold upsert_page in E. apply raise_if_then in E as [_ E].
      cbv zeta in E. injection E as <- <-. cbn. rewrite lookup_insert_eq.
      by destruct (cs_pages _ !! _).
    + intros p. eapply (triple_bind _ _ _ (λ _, ready job p)).
      * eapply triple_weaken; [eapply (update_free job); reflexivity|intros w H; exact H| |].
        -- by intros j w [H _].
        -- by intros w [].
      * intros _. apply triple_mret. intros w Hr. split; [apply Hr|]. by intros q [= <-].
Qed.

(** ** The send and its record *)

(** The engine will not send the job [id] again. *)
Definition sealed (id : string) (w : World) : Prop := good limit w ∧ closed_job id (w_store w).

(** What a job is left in: if its prompt may have been sent, it is sealed. *)
Definition settled (id : string) (w : World) : Prop :=
  good limit w ∧ (spent id (w_log w) → closed_job id (w_store w)).

Lemma sealed_settled id w : sealed id w → settled id w.
Proof using Type. by intros []. Qed.

Lemma sealed_works id w w' : works nobody is_observation w w' → sealed id w → sealed id w'.
Proof using Type.
  intros Hw [Hg Hc]. split; [by eapply good_works|]. destruct Hw as (He & _).
  by eapply closed_evolves.
Qed.

Lemma sealed_stable id : stable (sealed id).
Proof using Type. intros w w' H. by apply sealed_works, calm_works. Qed.

Lemma sealed_holds {A} id (m : run A) :
  moves (works nobody is_observation) m → holds (sealed id) m.
Proof using Type. intros H. eapply moves_holds; [exact H|apply sealed_works]. Qed.

Lemma closed_update s id u now s' j st :
  update_job s id u now = Ok (s', j) → ju_state u = Some st → sendable st = false →
  closed_job id s'.
Proof using Type.
  intros (Ej & _ & _ & _ & _ & (row & Hr))%update_job_Ok Hu Hst.
  apply get_job_Ok in Hr as [Hr Hid]. exists (apply_update u now row). split_and!.
  - rewrite Ej. apply list_elem_of_fmap. exists row. split; [|done].
    unfold is_dispatch. by rewrite Hid, String.eqb_refl.
  - exact Hid.
  - cbn. by rewrite Hu.
Qed.

Lemma update_seals P id u st :
  stable P → (∀ w, P w → good limit w) → ju_state u = Some st → sendable st = false →
  triple P (update id u) (λ _, sealed id) P.
Proof using Type.
  intros HP Hg Hu Hst. apply triple_txn; [done| |done]. intros now w s' j Hw E.
  split; [|by eapply closed_update].
  eapply good_works; [|by apply Hg]. pose proof E as He.
  apply (update_job_evolves (eq id)) in He; [|done].
  apply update_job_Ok in E as (_ & Ep & _). split_and!; [exact He| |].
  - by unfold pages_keyed; cbn; rewrite Ep.
  - exists []. by rewrite app_nil_r.
Qed.

Lemma sealed_update id u st :
  ju_state u = Some st → sendable st = false → holds (sealed id) (update id u).
Proof using Type.
  intros Hu Hst. eapply triple_weaken; [eapply (update_seals (sealed id))|..]; eauto.
  - apply sealed_stable.
  - by intros w [].
Qed.

Lemma sealed_reconcile id error : holds (sealed id) (to_reconcile id error).
Proof using Type. by eapply sealed_update. Qed.

(** The state between the answer of the browser and its record. *)
Definition answered (id : string) (a : res BrowserSendResult) (w : World) : Prop :=
  sealed id w ∧ (resendable a = true → ¬ spent id (w_log w)).

Lemma answered_works id a w w' :
  works nobody is_observation w w' → answered id a w → answered id a w'.
Proof using Type.
  intros Hw [Hs Ha]. split; [by eapply sealed_works|]. intros Hr.
  destruct Hw as (_ & _ & obs & -> & F). intros H. by eapply Ha, spent_observations.
Qed.

Lemma answered_stable id a : stable (answered id a).
Proof using Type. intros w w' H. by apply answered_works, calm_works. Qed.

(** An update from here; one that lets the job run again needs a harmless answer. *)
Lemma answered_update id a u st :
  ju_state u = Some st → (sendable st = true → resendable a = true) →
  triple (answered id a) (update id u;; mret tt) (λ _, settled id) (settled id).
Proof using Type.
  intros Hu Hst. eapply (triple_bind _ _ _ (λ _, settled id)); [|intros; apply holds_ret].
  destruct (sendable st) eqn:E.
  - specialize (Hst eq_refl).
    eapply (moves_weaken (works (eq id) is_observation)); [eauto with moves|].
    intros w w' Hw [[Hg _] Ha]. split; [by eapply good_works|].
    destruct Hw as (_ & _ & obs & -> & F). intros H%spent_observations; [|done].
    by destruct (Ha Hst).
  - eapply triple_weaken; [eapply (update_seals (answered id a)); eauto|..].
    + apply answered_stable.
    + by intros w [[]].
    + done.
    + intros j w. apply sealed_settled.
    + intros w [H _]. by apply sealed_settled.
Qed.

Lemma record_triple job page current result :
  triple (answered (cj_dispatch_id job) (Ok result))
    (record_send engine job page current result)
    (λ _, settled (cj_dispatch_id job)) (settled (cj_dispatch_id job)).
Proof using Type.
  unfold record_send. cbv zeta.
  eapply (triple_bind _ _ _ (λ _, answered (cj_dispatch_id job) (Ok result))).
  - eapply triple_weaken; [eapply (moves_holds (works nobody is_observation));
      [walk|apply answered_works]|done|done|]. intros w [H _]. by apply sealed_settled.
  - intros _. unfold to_reconcile. destruct (bs_submitted result) eqn:E1.
    { by eapply answered_update. }
    destruct (bs_side_effect_possible result) eqn:E2; [by eapply answered_update|].
    destruct (bs_rate_limited result) eqn:E3; [|by eapply answered_update].
    eapply answered_update; [done|]. intros _. cbn. by rewrite E1, E2, E3.
Qed.

Lemma send_triple job job' page :
  job_contract job' = job_contract job →
  triple (λ w, ready job page w ∧ row_in ChatDispatchState.SUBMITTING job (w_store w))
    (send job' page)
    (λ r, answered (cj_dispatch_id job) (Ok r)) (sealed (cj_dispatch_id job)).
Proof using Type.
  intros Hc. set (P := λ w, ready job page w ∧ row_in _ job (w_store w)).
  assert (∀ w, P w → sealed (cj_dispatch_id job) w) as Hseal.
  { intros w [[[Hg _] _] (row & Hr & Hrc & Hst)]. split; [done|].
    exists row. split_and!; [done|by apply contract_id|by destruct Hst as [->| ->]]. }
  apply triple_ask; [| |exact Hseal].
  - intros w w' Hw [Hr Hrow]. split; [by eapply free_with_stable|].
    destruct Hw as (He & _). by eapply row_in_evolves.
  - intros w a Hw. cbv zeta. pose proof Hw as [[((Hl & Hn & Hk) & _ & Hf & Hs) Hp] Hrow].
    destruct (Hseal w Hw) as [_ Hcl].
    assert (sealed (cj_dispatch_id job)
      (w <| w_log := w_log w ++ [Sent (w_store w) job' page a] |>)) as Hsealed.
    { split; [|exact Hcl]. split_and!; [|done|done]. apply log_ok_snoc; [done|].
      cbn. rewrite (contract_id _ _ Hc), (contract_key _ _ Hc). split_and!; try done.
      destruct Hrow as (row & ? & ? & ?). exists row. split_and!; [done|congruence|done]. }
    destruct a as [r|e]; [|exact Hsealed]. split; [exact Hsealed|].
    intros Hr. cbn [w_log fset]. change (¬ spent (cj_dispatch_id job)
      (w_log w ++ [Sent (w_store w) job' page (Ok r)])).
    rewrite spent_snoc. intros [?|[_ H]]; [done|congruence].
Qed.

Lemma submit_triple job page :
  triple (ready job page) (_submit engine job page)
    (λ _, settled (cj_dispatch_id job)) (settled (cj_dispatch_id job)).
Proof using Type.
  assert (∀ w, ready job page w → settled (cj_dispatch_id job) w) as Hset.
  { intros w [[Hg (_ & _ & Hs)] _]. split; [done|by intros ?]. }
  unfold _submit. eapply triple_bind.
  { eapply (triple_clock (ready job page)); [apply free_with_stable|exact Hset]. }
  intros current. eapply triple_bind.
  { eapply triple_weaken; [eapply (update_free job); reflexivity|
      intros w H; exact H|intros j w H; exact H|exact Hset]. }
  intros job'. eapply triple_weaken; [apply (triple_pure (job_contract job' = job_contract job))|
    intros w (Hr & Hrow & Hc); exact (conj (conj Hr Hrow) Hc)|
    intros u w H; exact H|intros w H; exact H].
  intros Hc. pose proof (contract_id _ _ Hc) as Hid.
  eapply (triple_bind _ _ _
    (λ r w, match r with
            | Some r => answered (cj_dispatch_id job) (Ok r) w
            | None => settled (cj_dispatch_id job) w
            end)).
  - eapply triple_try; [|intros w; apply sealed_settled|].
    + unfold fmap, eff_fmap. eapply triple_bind; [by apply send_triple|].
      intros r. apply triple_mret. intros w H. exact H.
    + intros e. rewrite Hid. eapply triple_bind.
      * eapply triple_weaken; [apply sealed_reconcile|done|intros j w H; exact H|].
        apply sealed_settled.
      * intros j. apply triple_mret. intros w. apply sealed_settled.
  - intros [r|]; [|by apply triple_mret].
    pose proof (record_triple job' page current r) as Ht. by rewrite Hid in Ht.
Qed.

(** ** Reconciliation *)

Lemma acknowledge_sealed id job page :
  cj_dispatch_id job = id → holds (sealed id) (acknowledge job page).
Proof using Type.
  intros <-. unfold acknowledge.
  apply holds_bind; [apply sealed_holds, moves_ask; intros; by constructor|intros ack].
  destruct (negb _); [apply holds_ret|]. destruct (_ <? _).
  - apply holds_bind; [apply sealed_reconcile|intros _]. apply sealed_holds. walk.
  - destruct (_ && _); [|apply holds_ret].
    apply holds_bind; [apply sealed_holds; walk|intros now].
    apply holds_bind; [by eapply sealed_update|intros _]. apply sealed_holds. walk.
Qed.

Lemma reconcile_sealed job : holds (sealed (cj_dispatch_id job)) (_reconcile job).
Proof using Type.
  unfold _reconcile. apply holds_bind; [apply sealed_holds; walk|intros [page|]]; [|apply holds_ret].
  destruct (opt_truthy _); [by apply acknowledge_sealed|].
  apply holds_bind; [apply sealed_holds; walk|intros current].
  destruct (truthy_text current) as [url|]; [|apply holds_ret].
  destruct (bool_decide _); [|apply holds_ret].
  apply holds_bind; [apply sealed_holds; walk|intros _].
  apply holds_bind; [apply sealed_holds; walk|intros _].
  apply holds_bind; [apply sealed_holds; walk|intros submitted].
  eapply triple_bind; [apply triple_update_id; by eapply sealed_update|intros j].
  apply triple_pure. intros Hid.
  apply holds_bind; [apply sealed_holds; eauto with moves|].
  intros p. by apply acknowledge_sealed.
Qed.

Lemma reconcile_moves job :
  moves (works (eq (cj_dispatch_id job)) is_observation) (_reconcile job).
Proof using Type.
  assert (∀ j page, cj_dispatch_id j = cj_dispatch_id job →
    moves (works (eq (cj_dispatch_id job)) is_observation) (acknowledge j page)) as Hack.
  { intros j page Hid. apply acknowledge_moves; [|done]. intros. by constructor. }
  unfold _reconcile. apply moves_bind; [apply _|walk|intros [page|]]; [|walk].
  destruct (opt_truthy _); [by apply Hack|].
  apply moves_bind; [apply _|walk|intros current]. destruct (truthy_text current); [|walk].
  destruct (bool_decide _); [|walk].
  do 3 (apply moves_bind; [apply _|walk|intros ?]).
  apply moves_bind_update; [apply _|by apply moves_update|intros j Hid].
  apply moves_bind; [apply _|eauto with moves|]. intros p. by apply Hack.
Qed.

End Rounds.
