(* ===== verification/ChatHistory.v ===== *)
(** * Histories of the chat dispatcher

    A round works through the eligible jobs and closes idle pages, a dispatcher runs rounds
    under its lease, and a history is a sequence of dispatchers, each of which may be killed,
    and calls of other processes.  All of them keep the invariant of the log. *)

From stdpp Require Import pretty.
From S2P Require Import Prelude PyFloat PyStr PyUrl PyJson Models ProjectUrl.
From S2P Require Import WorkerProtocol Registry Runs.
From S2P Require Import Reconcile Dispatcher Actions ChatStore ChatEngine ChatFacts.
From S2P Require Import ChatInvariant ChatRounds.

Open Scope string_scope.
Open Scope Z_scope.
Open Scope list_scope.

(** A step of a history: another process, or one dispatcher from its start to its end.  The
    next dispatcher starts after the end, which the lease ensures. *)
Inductive chat_step :=
  | Client (c : client_call)
  | Dispatcher (fuel : nat) (owner : string) (pid : Z) (alive : Z → bool) (max_windows : Z)
      (idle_close_s : float).

Section History.
Context {tables : UnicodeTables} {check : NetlocCheck} {digests : Digests}.
Context {browser : ChatDispatchBrowser} {env : ChatEnv}.

Definition chat_do (w : World) (c : chat_step) : World :=
  match c with
  | Client c => w <| w_store := client_effect (w_store w) c |>
  | Dispatcher fuel owner pid alive windows idle =>
      (run_chat_dispatch_worker fuel owner pid alive windows idle w).1
  end.

Definition chat_run (w : World) (cs : list chat_step) : World := foldl chat_do w cs.

Definition first_world : World := Runs.mkWorld empty_store 0 [].

(** ** One job *)

Section Rounds.
Context (engine : ChatDispatchEngine) (limit : Z).
Hypothesis within_limit : en_max_windows engine ≤ limit.

(** What a round knows of a job it has still to work on. *)
Definition turn (job : ChatDispatchJob) (w : World) : Prop :=
  known job (w_store w) ∧
  (if sendable (cj_state job) then ¬ spent (cj_dispatch_id job) (w_log w)
   else closed_job (cj_dispatch_id job) (w_store w)).

Definition inv (w : World) : Prop :=
  good limit w ∧ ∀ id, spent id (w_log w) → closed_job id (w_store w).

Lemma inv_works w w' : works nobody is_observation w w' → inv w → inv w'.
Proof using Type.
  intros Hw [Hg Hi]. split; [by eapply good_works|]. destruct Hw as (He & _ & obs & -> & F).
  intros id H%spent_observations; [|done]. by eapply closed_evolves, Hi.
Qed.

Lemma inv_stable : stable inv.
Proof using Type. intros w w' H. by apply inv_works, calm_works. Qed.

Lemma spent_about id id' log new :
  Forall (about id) new → id' ≠ id → spent id' (log ++ new) → spent id' log.
Proof using Type.
  intros Hn Hne. unfold spent. rewrite Exists_app. intros [?|H]; [done|]. exfalso.
  apply Exists_exists in H as (e & He & Hs). rewrite Forall_forall in Hn.
  specialize (Hn _ He). destruct e; cbn in *; try done. destruct Hs as [Hs _]. congruence.
Qed.

Definition turns (jobs : list ChatDispatchJob) (w : World) : Prop :=
  inv w ∧ Forall (λ j, turn j w) jobs.

Lemma turn_other job other w w' :
  works (eq (cj_dispatch_id job)) (about (cj_dispatch_id job)) w w' →
  cj_dispatch_id other ≠ cj_dispatch_id job → turn other w → turn other w'.
Proof using Type.
  intros (He & _ & new & L & F) Hne [Hk Ht]. split; [by eapply known_evolves|].
  destruct (sendable _).
  - rewrite L. intros H. by apply Ht, (spent_about (cj_dispatch_id job) _ _ new).
  - by eapply closed_evolves_other.
Qed.

Lemma inv_settled id w w' :
  works (eq id) (about id) w w' → inv w → settled limit id w' → inv w'.
Proof using Type.
  intros (He & _ & new & L & F) [_ Hi] [Hg Hs]. split; [done|]. intros id' H.
  destruct (decide (id' = id)) as [->|Hne]; [by apply Hs|].
  eapply closed_evolves_other; [done|exact He|]. rewrite L in H.
  by eapply Hi, spent_about.
Qed.

Lemma submit_moves job page id :
  cj_dispatch_id job = id → moves (works (eq id) (about id)) (_submit engine job page).
Proof using Type.
  intros <-. unfold _submit. apply moves_bind; [apply _|eauto with moves|intros now].
  apply moves_bind_update; [apply _|by apply moves_update|intros j Hid].
  apply moves_bind; [apply _| |].
  - apply moves_try; [apply _| |intros e].
    + unfold fmap, eff_fmap, send.
      apply moves_bind; [apply _|apply moves_ask|intros r; apply moves_ret, _].
      intros. by apply Forall_singleton.
    + rewrite Hid. unfold to_reconcile. walk.
  - intros [r|]; [|apply moves_ret, _]. rewrite <- Hid. apply record_moves.
Qed.

Lemma reconcile_about job id :
  cj_dispatch_id job = id → moves (works (eq id) (about id)) (_reconcile job).
Proof using Type.
  intros <- w w' o H. apply reconcile_moves in H.
  eapply works_mono; [| |exact H]; [done|]. intros e. by destruct e.
Qed.

Lemma read_job_returns id w w' j :
  read_job id w = (w', Done j) →
  cj_dispatch_id j = id ∧ get_job (w_store w') id = Ok j.
Proof using Type.
  unfold read_job, txn, mbind at 1, eff_bind at 1.
  destruct (step w) as [w2 [now|e|]]; [|done|done].
  unfold commit. destruct (_ ≫= _) as [[s' j']|] eqn:E; [|done]. intros [= <- <-].
  apply bind_Ok in E as (x & Hx & [= <- <-]). split; [by apply get_job_Ok in Hx as [_ ?]|done].
Qed.

Lemma moves_bind_read {B} R `{!PreOrder R} id (f : ChatDispatchJob → run B) :
  moves R (read_job id) → (∀ j, cj_dispatch_id j = id → moves R (f j)) →
  moves R (read_job id ≫= f).
Proof using Type.
  intros Hu Hf w w' o. unfold mbind, eff_bind. pose proof (Hu w) as Hw.
  destruct (read_job id w) as [w1 [j|e|]] eqn:E; specialize (Hw _ _ eq_refl);
    [|by intros [= <- _]..].
  apply read_job_returns in E as [Hid _]. intros H. etrans; [exact Hw|by eapply Hf].
Qed.

Lemma read_job_quiet mine ev id : moves (works mine ev) (read_job id).
Proof using Type. apply moves_read. Qed.
#[local] Hint Resolve read_job_quiet : moves.

Lemma attempt_moves job :
  moves (works (eq (cj_dispatch_id job)) (about (cj_dispatch_id job))) (attempt_send engine job).
Proof using Type.
  unfold attempt_send. cbv zeta. apply moves_bind; [apply _|walk|intros [|]]; [apply moves_ret, _|].
  apply moves_bind; [apply _| |intros [[]|[page|]]]; [|walk| |walk].
  - apply moves_try; [apply _| |intros e; walk]. unfold fmap, eff_fmap.
    apply moves_bind; [apply _|apply ensure_moves|intros; apply moves_ret, _].
  - apply moves_bind_read; [apply _|eauto with moves|intros j Hid].
    apply moves_bind; [apply _|by apply submit_moves|intros; apply moves_ret, _].
Qed.

Lemma process_moves job :
  moves (works (eq (cj_dispatch_id job)) (about (cj_dispatch_id job))) (process_job engine job).
Proof using Type.
  unfold process_job. destruct (terminal_job_state _); [apply moves_ret, _|].
  apply moves_bind; [apply _|eauto with moves|intros [|]]; [apply moves_ret, _|].
  assert (moves (works (eq (cj_dispatch_id job)) (about (cj_dispatch_id job)))
    (reconcile_sent job)) as Hrec.
  { unfold reconcile_sent.
    apply moves_bind; [apply _|by apply reconcile_about|intros _]. walk. }
  destruct (cj_state job); try exact Hrec; try apply attempt_moves.
  unfold resume_submitting. apply moves_bind; [apply _|apply to_reconcile_moves|intros _].
  apply moves_bind_read; [apply _|eauto with moves|intros j Hid].
  apply moves_bind; [apply _|by apply reconcile_about|intros; apply moves_ret, _].
Qed.

(** *** What the job is left in *)

Lemma turn_stable job : stable (turn job).
Proof using Type.
  intros w w' (He & _ & L) [Hk Ht]. split; [by eapply known_evolves|].
  destruct (sendable _); [by rewrite L|by eapply closed_evolves].
Qed.

Lemma sealed_read id id' : holds (sealed limit id) (read_job id').
Proof using Type. apply sealed_holds. eauto with moves. Qed.

Lemma sealed_reconcile_read {B} id (f : ChatDispatchJob → run B) :
  (∀ j, cj_dispatch_id j = id → holds (sealed limit id) (f j)) →
  holds (sealed limit id) (read_job id ≫= f).
Proof using Type.
  intros Hf. apply (triple_bind _ _ _ (λ j w, sealed limit id w ∧ cj_dispatch_id j = id)).
  - intros w w' o Hw E. pose proof (sealed_read id id w w' o Hw E) as H. destruct o; [|done..].
    apply read_job_returns in E as [? _]. done.
  - intros j. apply triple_pure, Hf.
Qed.

Lemma reconcile_sealed_id job id :
  cj_dispatch_id job = id → holds (sealed limit id) (_reconcile job).
Proof using Type. intros <-. apply reconcile_sealed. Qed.

Lemma sealed_done {A} id (m : run A) :
  holds (sealed limit id) m →
  triple (sealed limit id) m (λ _, settled limit id) (settled limit id).
Proof using Type.
  intros H. eapply triple_weaken; [exact H|done| |]; intros; by apply sealed_settled.
Qed.

Lemma ready_contract job j page w :
  job_contract j = job_contract job → ready limit job page w → ready limit j page w.
Proof using Type.
  intros Hc [(Hg & (row & Hr & Hrc) & Hf & Hs) Hp].
  unfold ready, free_with, free. rewrite (contract_id _ _ Hc), (contract_key _ _ Hc).
  split_and!; try done; try apply Hp. exists row. split; [done|congruence].
Qed.

Lemma read_ready job page :
  triple (ready limit job page) (read_job (cj_dispatch_id job))
    (λ j w, ready limit j page w ∧ cj_dispatch_id j = cj_dispatch_id job)
    (settled limit (cj_dispatch_id job)).
Proof using Type.
  assert (stable (ready limit job page)) as Hstab by apply free_with_stable.
  apply triple_txn; [exact Hstab| |].
  - intros now w s' j Hw (x & Hx & [= <- <-])%bind_Ok. cbn.
    replace (w <| w_store := w_store w |>) with w by by destruct w.
    pose proof Hx as [Hj Hid]%get_job_Ok. split; [|done].
    eapply ready_contract; [|exact Hw].
    destruct Hw as [((_ & Hnd & _) & (row & Hr & Hc) & _) _]. rewrite <- Hc. f_equal.
    eapply same_id_same_job; [done..|]. rewrite Hid. symmetry. by apply contract_id.
  - intros w [[Hg (_ & _ & Hs)] _]. by split; [|intros ?].
Qed.

Lemma free_settled job w : free limit job w → settled limit (cj_dispatch_id job) w.
Proof using Type. intros (Hg & _ & _ & Hs). by split; [|intros ?]. Qed.

Lemma attempt_triple job :
  triple (free limit job) (attempt_send engine job)
    (λ _, settled limit (cj_dispatch_id job)) (settled limit (cj_dispatch_id job)).
Proof using within_limit.
  unfold attempt_send. cbv zeta. apply (triple_bind _ _ _ (λ _, free limit job)).
  { eapply triple_weaken; [apply (free_holds limit job)|done|done|apply free_settled]. walk. }
  intros [|]; [apply triple_mret; apply free_settled|].
  eapply (triple_bind _ _ _ (λ r w,
    match r with
    | inl _ => settled limit (cj_dispatch_id job) w
    | inr p => ready_page limit job p w
    end)).
  - eapply (triple_try _ _ _ _ (free limit job)); [|apply free_settled|].
    + unfold fmap, eff_fmap. eapply triple_bind; [by apply ensure_triple|].
      intros p. apply triple_mret. intros w H. exact H.
    + intros e. eapply (triple_bind _ _ _ (λ _, sealed limit (cj_dispatch_id job))).
      * eapply triple_weaken;
          [eapply (update_seals limit (free limit job)); [apply free_stable| |done|done]| | |];
          [by intros w []|done|done|apply free_settled].
      * intros j. apply triple_mret. intros w. apply sealed_settled.
  - intros [u|[page|]].
    + by apply triple_mret.
    + eapply triple_weaken; [|intros w H; exact (proj2 H page eq_refl)|
        intros b w H; exact H|intros w H; exact H].
      eapply triple_bind; [apply read_ready|intros j]. apply triple_pure. intros Hid.
      rewrite <- Hid. eapply triple_bind; [apply submit_triple|intros u]. by apply triple_mret.
    + apply triple_mret. intros w [H _]. by apply free_settled.
Qed.

Lemma process_triple job :
  triple (λ w, inv w ∧ turn job w) (process_job engine job)
    (λ _, settled limit (cj_dispatch_id job)) (settled limit (cj_dispatch_id job)).
Proof using within_limit.
  assert (∀ w, inv w ∧ turn job w → settled limit (cj_dispatch_id job) w) as Hset.
  { intros w [[Hg Hi] _]. split; [done|apply Hi]. }
  unfold process_job. destruct (terminal_job_state (cj_state job)) eqn:Et;
    [by apply triple_mret|].
  eapply (triple_bind _ _ _ (λ older w, (inv w ∧ turn job w) ∧
    (older = false → in_front (cj_dispatch_id job) (w_store w)))).
  { apply triple_query; [|..|exact Hset].
    - intros w w' Hc [Hi Ht]. split; [by eapply inv_stable|by eapply turn_stable].
    - intros w H. split; [done|]. destruct H as [[(_ & Hnd & _) _] [(row & Hr & Hc) _]].
      by eapply has_older_in_front. }
  intros [|]; [apply triple_mret; intros w [H _]; by apply Hset|].
  assert (sendable (cj_state job) = false →
    ∀ w, (inv w ∧ turn job w) ∧ (false = false → in_front (cj_dispatch_id job) (w_store w)) →
         sealed limit (cj_dispatch_id job) w) as Hsl.
  { intros Hs w [[[Hg _] [_ Ht]] _]. rewrite Hs in Ht. done. }
  assert (sendable (cj_state job) = true →
    triple (λ w, (inv w ∧ turn job w) ∧
                 (false = false → in_front (cj_dispatch_id job) (w_store w)))
      (attempt_send engine job) (λ _, settled limit (cj_dispatch_id job))
      (settled limit (cj_dispatch_id job))) as Hat.
  { intros Hs. eapply triple_weaken; [apply attempt_triple| |done|done].
    intros w [[[Hg _] [Hk Ht]] Hf]. rewrite Hs in Ht. split_and!; auto. }
  destruct (cj_state job) eqn:Es; try done; try (by apply Hat);
    (eapply triple_weaken; [apply sealed_done|by apply Hsl|done|done]).
  - unfold resume_submitting. apply holds_bind; [by apply sealed_reconcile|intros _].
    apply sealed_reconcile_read. intros j Hid.
    apply holds_bind; [by apply reconcile_sealed_id|intros; apply holds_ret].
  - unfold reconcile_sent. apply holds_bind; [apply reconcile_sealed|intros _].
    apply holds_bind; [apply sealed_read|intros; apply holds_ret].
  - unfold reconcile_sent. apply holds_bind; [apply reconcile_sealed|intros _].
    apply holds_bind; [apply sealed_read|intros; apply holds_ret].
Qed.

(** ** A round *)

Lemma process_jobs_triple jobs :
  NoDup (cj_dispatch_id <$> jobs) →
  triple (turns jobs) (process_jobs engine jobs) (λ _, inv) inv.
Proof using within_limit.
  induction jobs as [|job jobs IH]; cbn; intros Hnd.
  { apply triple_mret. by intros w []. }
  apply NoDup_cons in Hnd as [Hnew Hnd].
  assert (∀ w w', works (eq (cj_dispatch_id job)) (about (cj_dispatch_id job)) w w' →
    turns (job :: jobs) w → settled limit (cj_dispatch_id job) w' → turns jobs w') as Hnext.
  { intros w w' Hw [Hi [Ht Hts]%Forall_cons] Hs. split; [by eapply inv_settled|].
    rewrite Forall_forall in Hts |- *. intros j Hj.
    eapply turn_other; [exact Hw| |by apply Hts].
    intros Heq. apply Hnew. rewrite <- Heq. by apply list_elem_of_fmap_2. }
  apply (triple_bind _ _ _ (λ _, turns jobs)).
  - intros w w' o Hw E. pose proof (process_moves job w w' o E) as Hm.
    pose proof Hw as [Hi [Ht _]%Forall_cons].
    pose proof (process_triple job w w' o (conj Hi Ht) E) as Hs.
    destruct o; [by eapply Hnext|..]; by eapply (Hnext w).
  - intros p. eapply triple_bind; [by apply IH|]. intros q. by apply triple_mret.
Qed.

(** ** Closing idle pages *)

Definition shown (page : ChatPage) (s : ChatStore) : Prop :=
  cs_pages s !! cp_page_id page = Some page.

(** The invariant, and the rows of the pages the loop has still to look at. *)
Definition view (pages : list ChatPage) (w : World) : Prop :=
  inv w ∧ Forall (λ p, shown p (w_store w)) pages.

Lemma view_stable pages : stable (view pages).
Proof using Type.
  intros w w' Hc [Hi Hp]. split; [by eapply inv_stable|]. destruct Hc as (_ & P & _).
  unfold shown. by rewrite P.
Qed.

Lemma inv_holds {A} (m : run A) : moves (works nobody is_observation) m → holds inv m.
Proof using Type. intros H. eapply moves_holds; [exact H|apply inv_works]. Qed.

(** A change of one page leaves the rows of the others. *)
Lemma modify_view page pages (m : float → ChatStore → res (ChatStore * ChatPage)) f P :
  stable P → (∀ w, P w → view (page :: pages) w) →
  (∀ p, cp_page_id (f p) = cp_page_id p) → (∀ now, page_op (m now)) →
  (∀ now s s' p, m now s = Ok (s', p) →
     modify_page s (cp_page_id page) f = Ok (s', p)) →
  cp_page_id page ∉ (cp_page_id <$> pages) →
  triple P (txn m;; mret tt) (λ _, view pages) inv.
Proof using Type.
  intros HP Hview Hf Hop Hm Hnew.
  apply (triple_bind _ _ _ (λ _, view pages)); [|intros p; by apply triple_mret].
  apply triple_txn; [exact HP| |by intros w [? _]%Hview].
  intros now w s' p [Hi [_ Hps]%Forall_cons]%Hview E. split.
  - eapply inv_works; [|exact Hi]. destruct (Hop _ _ _ _ E) as [Ej Hk].
    split_and!; [by apply evolves_jobs|done|]. exists []. by rewrite app_nil_r.
  - apply Hm, modify_page_Ok in E as (old & Eo & -> & ->).
    destruct Hi as [(_ & _ & Hk) _]. rewrite Forall_forall in Hps |- *.
    intros q Hq. specialize (Hps _ Hq). unfold shown, put_page in *. cbn.
    rewrite lookup_insert_ne; [done|]. rewrite Hf, (Hk _ _ Eo). intros Heq. apply Hnew.
    rewrite Heq. by apply list_elem_of_fmap_2.
Qed.

Lemma no_pending_idle s key : has_pending_for_conversation s key = false → only_new_work key s.
Proof using Type.
  intros H j Hj Hk. left. destruct (terminal_job_state (cj_state j)) eqn:E; [done|].
  assert (has_pending_for_conversation s key = true) as Ht; [|congruence].
  apply existsb_exists. exists j. rewrite <- list_elem_of_In, Hk, String.eqb_refl.
  split; [done|]. by destruct (cj_state j).
Qed.

Definition closing (page : ChatPage) (pages : list ChatPage) (w : World) : Prop :=
  view (page :: pages) w ∧ only_new_work (cp_conversation_key page) (w_store w).

Lemma closing_stable page pages : stable (closing page pages).
Proof using Type.
  intros w w' Hc [Hv Hn]. split; [by eapply view_stable|]. destruct Hc as (He & _).
  by eapply only_new_evolves.
Qed.

Lemma close_ask now page pages deadline :
  cp_owned page = true → cp_state page = ChatPageState.IDLE →
  cp_close_after_at page = Some deadline → flt now deadline = false →
  triple (closing page pages)
    (ask (λ n, close_page n page) (λ s a, [Closed s page now a]))
    (λ _, closing page pages) inv.
Proof using Type.
  intros Ho Hs Hd Hn.
  apply triple_ask; [apply closing_stable| |by intros w [[? _] _]].
  intros w a [[[Hg Hi] [Hp Hps]%Forall_cons] Hw]. cbv zeta.
  assert (closing page pages (w <| w_log := w_log w ++ [Closed (w_store w) page now a] |>))
    as H; [|by destruct a; [|apply H]].
  split; [|exact Hw]. split; [|by constructor]. split.
  - destruct Hg as (Hl & Hnd & Hk). split_and!; [|done|done]. apply log_ok_snoc; [done|].
    cbn. split_and!; try done. by exists deadline.
  - intros id. cbn. rewrite spent_snoc. intros [H|[]]. by apply Hi.
Qed.

Lemma close_idle_triple now page pages :
  cp_page_id page ∉ (cp_page_id <$> pages) →
  triple (view (page :: pages)) (close_idle_page engine now page) (λ _, view pages) inv.
Proof using Type.
  intros Hnew. assert (∀ w, view (page :: pages) w → view pages w) as Htail.
  { intros w [Hi [_ Hp]%Forall_cons]. by split. }
  assert (∀ w, view (page :: pages) w → inv w) as Hinv by by intros w [].
  unfold close_idle_page. destruct (cp_owned page) eqn:Eo; cbn [negb]; [|by apply triple_mret].
  eapply (triple_bind _ _ _ (λ pending w, view (page :: pages) w ∧
    (pending = false → only_new_work (cp_conversation_key page) (w_store w)))).
  { apply triple_query; [apply view_stable| |done]. intros w Hv. split; [done|].
    apply no_pending_idle. }
  intros [|]; [apply triple_mret; intros w [H _]; by apply Htail|].
  eapply triple_weaken; [|intros w [Hv Hn]; exact (conj Hv (Hn eq_refl) : closing page pages w)|
    intros u w H; exact H|intros w H; exact H].
  assert (∀ w, closing page pages w → view (page :: pages) w) as Hcv by by intros w [].
  assert (triple (closing page pages) (mret tt) (λ _, view pages) inv) as Hret.
  { apply triple_mret. auto. }
  assert (∀ amb error, triple (closing page pages)
    (txn (λ _ s, mark_page_closed s (cp_page_id page) amb error);; mret tt)
    (λ _, view pages) inv) as Hclosed.
  { intros amb error.
    eapply (modify_view page); [apply closing_stable|exact Hcv| |intros; apply page_op_closed|
      intros now' s s' p E; exact E|exact Hnew]. done. }
  assert (triple (closing page pages)
    (txn (λ _ s, mark_page_idle s (cp_page_id page) (en_idle_close_s engine) now);; mret tt)
    (λ _, view pages) inv) as Hidle.
  { eapply (modify_view page _ _ (idle_page (en_idle_close_s engine) now));
      [apply closing_stable|exact Hcv|done|intros; apply page_op_idle| |exact Hnew].
    intros now' s s' p E. unfold mark_page_idle in E. apply bind_Ok in E as (? & _ & E).
    by apply raise_if_then in E as [_ E]. }
  destruct (cp_state page) eqn:Es, (cp_close_after_at page) as [deadline|] eqn:Ed;
    try exact Hret; try exact Hidle.
  - destruct (flt now deadline) eqn:En; [exact Hret|].
    eapply triple_bind; [by eapply close_ask|intros result].
    destruct (bc_closed result || bc_absent result); apply Hclosed.
Qed.

Lemma close_loop_triple now pages :
  NoDup (cp_page_id <$> pages) →
  triple (view pages) (for_each (close_idle_page engine now) pages) (λ _, inv) inv.
Proof using Type.
  induction pages as [|page pages IH]; cbn; intros Hnd.
  { apply triple_mret. by intros w []. }
  apply NoDup_cons in Hnd as [Hnew Hnd].
  eapply triple_bind; [by apply close_idle_triple|intros u; by apply IH].
Qed.

Lemma NoDup_fmap_take {A} (f : A → string) n (l : list A) :
  NoDup (f <$> l) → NoDup (f <$> take n l).
Proof using Type.
  intros H. rewrite <- (take_drop n l), fmap_app in H. by apply NoDup_app in H as [? _].
Qed.

Lemma NoDup_fmap_filter {A} (f : A → string) p (l : list A) :
  NoDup (f <$> l) → NoDup (f <$> List.filter p l).
Proof using Type.
  induction l as [|x l IH]; cbn; [done|]. intros [Hx Hl]%NoDup_cons.
  destruct (p x); cbn; [|by apply IH]. apply NoDup_cons. split; [|by apply IH].
  intros (y & Hy & Hin)%list_elem_of_fmap. apply Hx. rewrite Hy.
  apply list_elem_of_fmap_2. by apply elem_of_filterb in Hin as [? _].
Qed.

Lemma listed_pages s closed :
  pages_keyed s →
  NoDup (cp_page_id <$> list_pages s closed) ∧
  ∀ p, p ∈ list_pages s closed → shown p s.
Proof using Type.
  intros Hk. unfold list_pages, order_desc. split.
  - rewrite py_sorted_perm. unfold select. apply NoDup_fmap_filter.
    rewrite py_sorted_perm, <- list_fmap_compose.
    rewrite (list_fmap_ext (cp_page_id ∘ snd) fst); [apply NoDup_fst_map_to_list|].
    intros i [k p] E%list_elem_of_lookup_2%elem_of_map_to_list. by apply Hk.
  - intros p (_ & k & E)%elem_of_py_sorted%elem_of_select. unfold shown.
    by rewrite (Hk _ _ E).
Qed.

Lemma eligible_turns s w n now :
  inv w → w_store w = s → turns (eligible_jobs s n now) w ∧
  NoDup (cj_dispatch_id <$> eligible_jobs s n now).
Proof using Type.
  intros Hi <-. pose proof Hi as [(_ & Hnd & _) Hsp]. unfold eligible_jobs. split.
  - split; [done|]. apply Forall_forall. intros j Hj.
    assert (j ∈ cs_jobs (w_store w)) as Hin.
    { apply elem_of_take in Hj as (i & Hj & _).
      by apply list_elem_of_lookup_2, elem_of_filterb in Hj as [? _]. }
    split; [by exists j|]. destruct (sendable (cj_state j)) eqn:E; [|by exists j].
    intros (j' & Hj' & Hid & Hs)%Hsp.
    assert (j' = j) as -> by by eapply same_id_same_job. congruence.
  - by apply NoDup_fmap_take, NoDup_fmap_filter.
Qed.

Lemma run_once_inv : holds inv (run_once engine).
Proof using within_limit.
  unfold run_once.
  apply (triple_bind _ _ _ (λ jobs w, turns jobs w ∧ NoDup (cj_dispatch_id <$> jobs))).
  { apply triple_txn; [apply inv_stable| |done]. intros now w s' jobs Hi [= <- <-].
    apply eligible_turns; [|done]. by destruct w. }
  intros jobs. apply triple_pure. intros Hnd.
  apply (triple_bind _ _ _ (λ _, inv)); [by apply process_jobs_triple|intros progressed].
  apply holds_bind; [|intros _; apply inv_holds; walk].
  unfold _close_idle_pages. apply holds_bind; [apply inv_holds; walk|intros now].
  apply (triple_bind _ _ _ (λ pages w, view pages w ∧ NoDup (cp_page_id <$> pages))).
  { apply triple_query; [apply inv_stable| |done]. intros w Hi.
    destruct (listed_pages (w_store w) false) as [Hn Hs]; [apply Hi|].
    split; [|done]. split; [done|]. by apply Forall_forall. }
  intros pages. apply triple_pure. apply close_loop_triple.
Qed.

Lemma should_exit_inv : holds inv should_exit.
Proof using Type. apply inv_holds. unfold should_exit. walk. Qed.

Lemma heartbeat_page_op owner ttl now : page_op (λ s, heartbeat_lease s owner ttl now).
Proof using Type.
  intros s s' b. unfold heartbeat_lease. destruct (cs_lease s) as [row|]; [|by intros [= <- _]].
  destruct (String.eqb _ _); [|by intros [= <- _]].
  intros [_ H]%raise_if_then. by apply raise_if_then in H as [_ [= <- _]].
Qed.

Lemma worker_loop_inv owner fuel : holds inv (worker_loop engine owner fuel).
Proof using within_limit.
  induction fuel as [|fuel IH]; cbn; [apply holds_ret|].
  apply holds_bind; [apply inv_holds, moves_page; intros; apply heartbeat_page_op|intros alive].
  destruct (negb alive); [apply holds_ret|].
  apply holds_bind; [apply run_once_inv|intros report].
  apply holds_bind; [apply should_exit_inv|intros [|]]; [apply holds_ret|apply IH].
Qed.

End Rounds.

(** ** Histories *)

Lemma worker_inv limit fuel owner pid alive windows idle :
  Z.max 1 (Z.min windows 16) ≤ limit →
  holds (inv limit) (run_chat_dispatch_worker fuel owner pid alive windows idle).
Proof using Type.
  intros Hw. unfold run_chat_dispatch_worker.
  apply holds_bind; [apply inv_holds, moves_page|intros acquired].
  { intros now s s' b [[-> _]|(row & -> & _)]%acquire_lease_Ok; by split. }
  destruct (negb acquired); [apply holds_ret|].
  apply holds_finally; [by apply worker_loop_inv|]. apply inv_holds, moves_page.
  intros now s s' u [= <- _]. unfold release_lease. by destruct (holds_lease _ _).
Qed.

(** Every dispatcher of the history opens at most [limit] windows. *)
Definition windows_within (limit : Z) (cs : list chat_step) : Prop :=
  Forall (λ c, match c with
               | Dispatcher _ _ _ _ windows _ => Z.max 1 (Z.min windows 16) ≤ limit
               | Client _ => True
               end) cs.

Lemma chat_do_inv limit w c :
  windows_within limit [c] → inv limit w → inv limit (chat_do w c).
Proof using Type.
  unfold windows_within. rewrite Forall_singleton. intros Hc Hi. destruct c as [c|fuel owner pid alive windows idle]; cbn.
  - eapply inv_stable; [|exact Hi]. destruct (client_effect_calm (w_store w) c). by split_and!.
  - destruct (run_chat_dispatch_worker _ _ _ _ _ _ w) as [w' o] eqn:E. cbn.
    pose proof (worker_inv limit _ _ _ _ _ _ Hc w w' o Hi E) as H. by destruct o.
Qed.

Lemma first_world_inv limit : inv limit first_world.
Proof using Type.
  split; [split_and!|]; [apply log_ok_nil|apply NoDup_nil_2|by intros k p|].
  intros id H. by apply Exists_nil in H.
Qed.

Lemma chat_run_inv limit w cs :
  windows_within limit cs → inv limit w → inv limit (chat_run w cs).
Proof using Type.
  unfold chat_run. revert w. induction cs as [|c cs IH]; intros w Hc Hi; cbn; [done|].
  apply Forall_cons in Hc as [Hc Hcs]. apply IH; [done|].
  apply chat_do_inv; [|done]. by constructor.
Qed.

(** The log of any history from an empty database. *)
Lemma history_log_ok limit cs :
  windows_within limit cs → log_ok limit (w_log (chat_run first_world cs)).
Proof using Type.
  intros Hc. apply (chat_run_inv limit first_world cs Hc (first_world_inv limit)).
Qed.

Lemma windows_within_16 cs : windows_within 16 cs.
Proof using Type. apply Forall_true. intros []; [done|lia]. Qed.
End History.
