(* ===== verification/ChatTheorems.v ===== *)
(** * The guarantees of the chat dispatcher

    Over any history of dispatchers and other processes: a prompt is sent again only after the
    browser said that it was not sent; prompts of a conversation go out in the order of their
    enqueueing; windows are opened within the bound and closed only when idle; a dispatch is
    acknowledged only on evidence; what a request fixed stays fixed; and a drained dispatcher
    ends. *)

From stdpp Require Import pretty.
From S2P Require Import Prelude PyFloat PyStr PyUrl PyJson Models ProjectUrl.
From S2P Require Import WorkerProtocol Registry Runs.
From S2P Require Import Reconcile Dispatcher Actions ChatStore ChatEngine ChatFacts.
From S2P Require Import ChatInvariant ChatRounds ChatHistory.

Open Scope string_scope.
Open Scope Z_scope.
Open Scope list_scope.

Section Theorems.
Context {tables : UnicodeTables} {check : NetlocCheck} {digests : Digests}.
Context {browser : ChatDispatchBrowser} {env : ChatEnv}.

(** C3: Whatever the browser answers, wherever dispatchers are killed and whatever other
    processes do, a prompt is sent only: once, unless every earlier send of it was refused by
    a rate limit without side effect; as the first unfinished job of its conversation; under
    the write-ahead state SUBMITTING, which a client may have cancelled since it was written
    (ChatDemo.cancelled_dispatch_is_sent); through an open page of its conversation. *)
Theorem prompt_sends_are_fenced cs before s job page answer after :
  w_log (chat_run first_world cs) = before ++ Sent s job page answer :: after →
  (∀ s' job' page' a', Sent s' job' page' a' ∈ before →
     cj_dispatch_id job' = cj_dispatch_id job →
     ∃ r, a' = Ok r ∧ bs_submitted r = false ∧ bs_side_effect_possible r = false ∧
          bs_rate_limited r = true) ∧
  (∃ pre row post, cs_jobs s = pre ++ row :: post ∧
     cj_dispatch_id row = cj_dispatch_id job ∧
     ∀ older, older ∈ pre → cj_conversation_key older = cj_conversation_key row →
       terminal_job_state (cj_state older) = true) ∧
  (∃ row, row ∈ cs_jobs s ∧ job_contract row = job_contract job ∧
     (cj_state row = ChatDispatchState.SUBMITTING ∨
      cj_state row = ChatDispatchState.CANCELLED)) ∧
  cs_pages s !! cp_page_id page = Some page ∧
  cp_conversation_key page = cj_conversation_key job ∧ cp_state page = ChatPageState.OPEN.
Proof using Type.
  intros Hlog. destruct (history_log_ok 16 cs (windows_within_16 cs) _ _ _ Hlog)
    as (Hspent & Hfront & Hrow & Hpage).
  split_and!; try apply Hpage; [|destruct Hfront as (pre & row & post & ? & ? & _ & Hf)|done].
  - intros s' job' page' a' Hin Hid. destruct a' as [r|e].
    + exists r. destruct (resendable (Ok r)) eqn:E.
      * cbn in E. by bool_to_prop.
      * exfalso. apply Hspent, Exists_exists. eexists. split; [exact Hin|]. by split.
    + exfalso. apply Hspent, Exists_exists. eexists. split; [exact Hin|]. by split.
  - exists pre, row, post. split_and!; [done|done|]. intros older Ho. rewrite Forall_forall in Hf.
    by apply Hf.
Qed.

(** C34: When a window is opened, fewer pages owned by the dispatcher are in use than the
    bound of every dispatcher of the history, the job that opens it is the first unfinished
    one of its conversation, and the write-ahead state OPENING is stored. *)
Theorem window_opens_are_bounded limit cs before s job answer after :
  windows_within limit cs →
  w_log (chat_run first_world cs) = before ++ Opened s job answer :: after →
  Z.of_nat (owned_open_count s) < limit ∧ in_front (cj_dispatch_id job) s ∧
  (∃ row, row ∈ cs_jobs s ∧ job_contract row = job_contract job ∧
     (cj_state row = ChatDispatchState.OPENING ∨
      cj_state row = ChatDispatchState.CANCELLED)).
Proof using Type.
  intros Hc Hlog. by destruct (history_log_ok limit cs Hc _ _ _ Hlog) as (? & ? & ?).
Qed.

(** A window is closed only when the dispatcher owns it, it is idle since its grace
    period, and no job of its conversation is unfinished, except those enqueued while it is
    being closed. *)
Theorem page_closes_are_safe cs before s page now answer after :
  w_log (chat_run first_world cs) = before ++ Closed s page now answer :: after →
  cs_pages s !! cp_page_id page = Some page ∧ cp_owned page = true ∧
  cp_state page = ChatPageState.IDLE ∧
  (∃ deadline, cp_close_after_at page = Some deadline ∧ flt now deadline = false) ∧
  (∀ j, j ∈ cs_jobs s → cj_conversation_key j = cp_conversation_key page →
     terminal_job_state (cj_state j) = true ∨ cj_state j = ChatDispatchState.QUEUED).
Proof using Type.
  intros Hlog. exact (history_log_ok 16 cs (windows_within_16 cs) _ _ _ Hlog).
Qed.

(** ** Acknowledgements *)

Definition positive_ack (id : string) (e : effect) : Prop :=
  match e with
  | Observed _ job _ (Ok ack) =>
      cj_dispatch_id job = id ∧ ba_observed ack = true ∧ ba_nonce_occurrences ack = 1 ∧
      ba_generating ack = Some false
  | _ => False
  end.

Definition acks (w : World) : Prop :=
  ∀ j, j ∈ cs_jobs (w_store w) → cj_state j = ChatDispatchState.ACKNOWLEDGED →
    Exists (positive_ack (cj_dispatch_id j)) (w_log w).

Definition anything (e : effect) : Prop := True.

Lemma acks_works w w' : works nobody anything w w' → acks w → acks w'.
Proof using Type.
  intros ((js & new & E & F & N & _) & _ & evs & L & _) Ha j Hj Hs. rewrite L, Exists_app. left.
  rewrite E in Hj. apply elem_of_app in Hj as [Hj|Hj].
  - apply list_elem_of_lookup in Hj as [i Hi].
    destruct (Forall2_lookup_r _ _ _ _ _ F Hi) as (j0 & Hi0 & Hc & Hst).
    rewrite (contract_id _ _ Hc). apply Ha; [by eapply list_elem_of_lookup_2|].
    destruct Hst as [[]|[Hst|Hst]]; congruence.
  - rewrite Forall_forall in N. destruct (N _ Hj) as [[]|[Hst|Hst]]; congruence.
Qed.

Lemma acks_stable : stable acks.
Proof using Type. intros w w' H. by apply acks_works, calm_works. Qed.

Lemma acks_holds {A} (m : run A) : moves (works nobody anything) m → holds acks m.
Proof using Type. intros H. eapply moves_holds; [exact H|apply acks_works]. Qed.

Lemma update_acks P id u :
  stable P → (∀ w, P w → acks w) →
  (ju_state u = Some ChatDispatchState.ACKNOWLEDGED → ∀ w, P w →
     Exists (positive_ack id) (w_log w)) →
  (is_Some (ju_state u)) → triple P (update id u) (λ _, acks) acks.
Proof using Type.
  intros HP Hacks Hev [st Hu]. apply triple_txn; [exact HP| |exact Hacks].
  intros now w s' j0 Hw (Ej & _)%update_job_Ok j. cbn. rewrite Ej.
  intros (x & -> & Hx)%list_elem_of_fmap. destruct (is_dispatch id x) eqn:E.
  - apply String.eqb_eq in E. cbn. rewrite Hu. cbn. intros ->. rewrite E. by eapply Hev.
  - intros Hs. by eapply Hacks.
Qed.

Lemma update_acks_other id u :
  is_Some (ju_state u) → ju_state u ≠ Some ChatDispatchState.ACKNOWLEDGED →
  holds acks (update id u).
Proof using Type. intros Hs Hne. eapply update_acks; [apply acks_stable|done| |done]. done. Qed.

Lemma acknowledge_acks job page : holds acks (acknowledge job page).
Proof using Type.
  unfold acknowledge.
  apply (triple_bind _ _ _ (λ ack w, acks w ∧ Exists (λ e, match e with
    | Observed _ j _ (Ok a) => cj_dispatch_id j = cj_dispatch_id job ∧ a = ack
    | _ => False end) (w_log w))).
  { apply triple_ask; [apply acks_stable| |done]. intros w a Ha. cbv zeta.
    assert (acks (w <| w_log := w_log w ++ [Observed (w_store w) job page a] |>)) as Ha'.
    { intros j Hj Hs. cbn. rewrite Exists_app. left. by apply Ha. }
    destruct a as [r|e]; [|exact Ha']. split; [exact Ha'|]. cbn.
    rewrite Exists_app, Exists_cons. right. left. done. }
  intros ack. set (P := λ w, acks w ∧ _).
  assert (∀ w, P w → acks w) as HP by by intros w [].
  assert (stable P) as Hstab.
  { intros w w' Hc [Ha He]. split; [by eapply acks_stable|]. by destruct Hc as (_ & _ & ->). }
  destruct (ba_observed ack) eqn:Eo; cbn [negb]; [|by apply triple_mret].
  destruct (1 <? ba_nonce_occurrences ack).
  { eapply triple_weaken; [|exact HP|intros u w H; exact H|intros w H; exact H].
    apply holds_bind; [by apply update_acks_other|intros _]. apply acks_holds. walk. }
  destruct (ba_nonce_occurrences ack =? 1) eqn:En; cbn [andb]; [|by apply triple_mret].
  destruct (bool_decide _) eqn:Eg; [|by apply triple_mret]. bool_to_prop.
  eapply triple_bind; [by apply (triple_clock P)|intros now].
  apply (triple_bind _ _ _ (λ _, acks)).
  - apply (update_acks P); [done|done| |done]. intros _ w [_ He].
    eapply Exists_impl; [exact He|]. intros []; try done. destruct answer; [|done].
    cbn. by intros [? ->].
  - intros _. apply acks_holds. walk.
Qed.

Lemma anything_ask {A} mine (answer : nat → res A) log :
  moves (works mine anything) (ask answer log).
Proof using Type. apply moves_ask. intros. by apply Forall_true. Qed.
#[local] Hint Resolve anything_ask : moves.
#[local] Hint Extern 1 (moves (works _ _) (read_job _)) => apply moves_read : moves.

(** Every update of the engine but one leads to another state. *)
Ltac walk_acks :=
  repeat first
    [ solve [apply acks_holds; eauto with moves]
    | match goal with
      | |- holds acks (_ ≫= _) => apply holds_bind; [|intros ?]
      | |- holds acks (mret _) => apply holds_ret
      | |- holds acks (lift _) => apply holds_lift
      | |- holds acks (try_except _ _) => apply holds_try; [|intros ?]
      | |- holds acks (acknowledge _ _) => apply acknowledge_acks
      | |- holds acks (update _ _) => by apply update_acks_other
      | |- holds acks (to_reconcile _ _) => by apply update_acks_other
      | |- holds acks (_ <$> _) => unfold fmap, eff_fmap
      | |- holds acks (if ?b then _ else _) => destruct b
      | |- holds acks (match ?x with _ => _ end) => destruct x
      end ].

Context (engine : ChatDispatchEngine).

Lemma reconcile_acks job : holds acks (_reconcile job).
Proof using Type. unfold _reconcile, _page. walk_acks. Qed.

Lemma open_window_acks job error request :
  holds acks request → holds acks (open_window engine job error request).
Proof using Type. intros Hr. unfold open_window. walk_acks. exact Hr. Qed.

Lemma acquire_acks job : holds acks (acquire_identity engine job).
Proof using Type.
  unfold acquire_identity. cbv zeta. destruct (bool_decide _); [walk_acks|].
  destruct (truthy_text _).
  - apply holds_bind; [walk_acks|intros [i|]]; [walk_acks|].
    apply open_window_acks. walk_acks.
  - destruct (truthy_text _); [|walk_acks]. apply open_window_acks. walk_acks.
Qed.

Lemma ensure_acks job : holds acks (_ensure_page engine job).
Proof using Type.
  unfold _ensure_page, _page. apply holds_bind; [walk_acks|intros [p|]]; [walk_acks|].
  apply holds_bind; [apply acquire_acks|intros i]. walk_acks.
Qed.

Lemma submit_acks job page : holds acks (_submit engine job page).
Proof using Type. unfold _submit, send, record_send. cbv zeta. walk_acks. Qed.

Lemma process_acks job : holds acks (process_job engine job).
Proof using Type.
  unfold process_job, resume_submitting, reconcile_sent, attempt_send. cbv zeta.
  repeat first [apply ensure_acks|apply reconcile_acks|apply submit_acks|progress walk_acks].
Qed.

Lemma run_once_acks : holds acks (run_once engine).
Proof using Type.
  unfold run_once. apply holds_bind; [apply acks_holds|intros jobs].
  { apply moves_txn. by intros now s s' a [= <- _]. }
  apply holds_bind; [|intros p].
  { induction jobs as [|job jobs IH]; cbn; [apply holds_ret|].
    apply holds_bind; [apply process_acks|intros q]. by apply holds_bind; [|intros; apply holds_ret]. }
  apply holds_bind; [|intros u; walk_acks].
  unfold _close_idle_pages. apply holds_bind; [walk_acks|intros now].
  apply holds_bind; [walk_acks|intros pages]. apply holds_for_each. intros page _.
  unfold close_idle_page. walk_acks.
Qed.

End Theorems.

Section Permanence.
Context {tables : UnicodeTables} {check : NetlocCheck} {digests : Digests}.
Context {browser : ChatDispatchBrowser} {env : ChatEnv}.

Lemma release_page_op owner : page_op (λ s, Ok (release_lease s owner, tt)).
Proof using Type.
  intros s s' u [= <- _]. unfold release_lease. by destruct (holds_lease _ _).
Qed.

Lemma acquire_page_op alive owner pid windows idle ttl now :
  page_op (λ s, acquire_lease s alive owner pid windows idle ttl now).
Proof using Type. intros s s' b [[-> _]|(row & -> & _)]%acquire_lease_Ok; by split. Qed.

Lemma worker_loop_acks engine owner fuel : holds acks (worker_loop engine owner fuel).
Proof using Type.
  induction fuel as [|fuel IH]; cbn; [apply holds_ret|].
  apply holds_bind; [apply acks_holds, moves_page; intros; apply heartbeat_page_op|intros alive].
  destruct (negb alive); [apply holds_ret|].
  apply holds_bind; [apply run_once_acks|intros report].
  apply holds_bind; [apply acks_holds; unfold should_exit; walk|intros [|]]; [apply holds_ret|].
  apply IH.
Qed.

Lemma chat_do_acks w c : acks w → acks (chat_do w c).
Proof using Type.
  intros Ha. destruct c as [c|fuel owner pid alive windows idle]; cbn.
  - eapply acks_stable; [|exact Ha]. destruct (client_effect_calm (w_store w) c). by split_and!.
  - assert (holds acks (run_chat_dispatch_worker fuel owner pid alive windows idle)) as H.
    { unfold run_chat_dispatch_worker.
      apply holds_bind; [apply acks_holds, moves_page; intros; apply acquire_page_op|intros acq].
      destruct (negb acq); [apply holds_ret|]. apply holds_finally; [apply worker_loop_acks|].
      apply acks_holds, moves_page. intros; apply release_page_op. }
    specialize (H w). destruct (run_chat_dispatch_worker _ _ _ _ _ _ w) as [w' o].
    specialize (H _ _ Ha eq_refl). by destruct o.
Qed.

Lemma chat_run_acks w cs : acks w → acks (chat_run w cs).
Proof using Type.
  unfold chat_run. revert w. induction cs as [|c cs IH]; intros w Hw; cbn; [done|].
  by apply IH, chat_do_acks.
Qed.

(** C25: A dispatch is ACKNOWLEDGED only when its page was observed to show its nonce exactly
    once while nothing was being generated. *)
Theorem acknowledged_is_observed cs id j :
  get_job (w_store (chat_run first_world cs)) id = Ok j →
  cj_state j = ChatDispatchState.ACKNOWLEDGED →
  ∃ s job page ack, Observed s job page (Ok ack) ∈ w_log (chat_run first_world cs) ∧
    cj_dispatch_id job = id ∧ ba_observed ack = true ∧ ba_nonce_occurrences ack = 1 ∧
    ba_generating ack = Some false.
Proof using Type.
  intros [Hj Hid]%get_job_Ok Hs.
  assert (acks (chat_run first_world cs)) as Ha.
  { apply chat_run_acks. by intros x Hx%not_elem_of_nil. }
  specialize (Ha j Hj Hs). apply Exists_exists in Ha as (e & He & Hp).
  destruct e as [| | |s job page [ack|]]; try done. rewrite Hid in Hp.
  destruct Hp as (? & ? & ? & ?). by exists s, job, page, ack.
Qed.

(** ** What a request fixed *)

#[local] Hint Resolve anything_ask : moves.

Definition anybody (id : string) : Prop := True.

Lemma moves_any {A} mine ev (m : run A) :
  moves (works mine ev) m → moves (works anybody anything) m.
Proof using Type. intros H w w' o E. eapply works_mono; [| |by eapply H]; done. Qed.

Lemma process_any engine job : moves (works anybody anything) (process_job engine job).
Proof using Type. eapply moves_any, process_moves. Qed.

Lemma close_any engine now page : moves (works anybody anything) (close_idle_page engine now page).
Proof using Type.
  unfold close_idle_page. walk.
Qed.

Lemma run_once_any engine : moves (works anybody anything) (run_once engine).
Proof using Type.
  unfold run_once. apply moves_bind; [apply _| |intros jobs].
  { apply moves_txn. by intros now s s' a [= <- _]. }
  apply moves_bind; [apply _| |intros p].
  { induction jobs as [|job jobs IH]; cbn; [apply moves_ret, _|].
    apply moves_bind; [apply _|apply process_any|intros q].
    apply moves_bind; [apply _|exact IH|intros; apply moves_ret, _]. }
  apply moves_bind; [apply _| |intros u; walk].
  unfold _close_idle_pages. apply moves_bind; [apply _|walk|intros now].
  apply moves_bind; [apply _|walk|intros pages].
  induction pages as [|page pages IH]; cbn; [apply moves_ret, _|].
  apply moves_bind; [apply _|apply close_any|intros; exact IH].
Qed.

Lemma worker_any fuel owner pid alive windows idle :
  moves (works anybody anything) (run_chat_dispatch_worker fuel owner pid alive windows idle).
Proof using Type.
  unfold run_chat_dispatch_worker.
  apply moves_bind; [apply _|apply moves_page; intros; apply acquire_page_op|intros acq].
  destruct (negb acq); [apply moves_ret, _|].
  apply moves_finally; [apply _| |apply moves_page; intros; apply release_page_op].
  generalize (new_engine windows idle DEFAULT_RATE_LIMIT_COOLDOWN_S). intros engine.
  induction fuel as [|fuel IH]; cbn; [apply moves_ret, _|].
  apply moves_bind; [apply _|apply moves_page; intros; apply heartbeat_page_op|intros al].
  destruct (negb al); [apply moves_ret, _|].
  apply moves_bind; [apply _|apply run_once_any|intros report].
  apply moves_bind; [apply _|unfold should_exit; walk|intros [|]]; [apply moves_ret, _|exact IH].
Qed.

Lemma chat_run_evolves w cs : evolves anybody (w_store w) (w_store (chat_run w cs)).
Proof using Type.
  unfold chat_run. revert w. induction cs as [|c cs IH]; intros w; cbn; [done|].
  etrans; [|apply IH]. destruct c as [c|fuel owner pid alive windows idle]; cbn.
  - apply nobody_evolves, client_effect_calm.
  - pose proof (worker_any fuel owner pid alive windows idle w) as H.
    destruct (run_chat_dispatch_worker _ _ _ _ _ _ w) as [w' o]. by apply (H _ _ eq_refl).
Qed.

Lemma history_jobs_ok cs :
  NoDup (job_ids (w_store (chat_run first_world cs))) ∧
  NoDup (job_keys (w_store (chat_run first_world cs))).
Proof using Type.
  destruct (chat_run_evolves first_world cs) as (js & new & _ & _ & _ & D & K).
  split; [apply D|apply K]; apply NoDup_nil_2.
Qed.

(** A project that was asked for is the one stored. *)
Lemma project_kept rq q stored :
  check_request rq = Ok q →
  (opt_truthy (ck_project_url q) = true → stored = ck_project_url q) →
  project_changed (ck_project_url q) stored = Ok false.
Proof using Type.
  unfold check_request. cbv zeta. intros [_ H]%raise_if_then Hs.
  apply raise_if_then in H as [_ H]. apply raise_if_then in H as [_ H].
  apply bind_Ok in H as (id & Hid & H). apply raise_if_then in H as [_ H].
  apply raise_if_then in H as [_ [= <-]]. cbn in *. unfold project_changed.
  destruct (strip_truthy (eq_project_url rq)) as [url|]; cbn in *; [|done].
  destruct (str_truthy url) eqn:E; [|done]. rewrite (Hs eq_refl). cbn. rewrite E, Hid. cbn.
  by rewrite String.eqb_refl.
Qed.

(** What an accepted request says about its job. *)
Lemma enqueue_accepted s rq now u1 u2 u3 s' job :
  enqueue s rq now u1 u2 u3 = Ok (s', job) →
  ∃ q, check_request rq = Ok q ∧ job ∈ cs_jobs s' ∧
    (opt_truthy (ck_dispatch_key q) = true → cj_dispatch_key job = ck_dispatch_key q) ∧
    cj_prompt_sha256 job = sha256_text (ck_prompt q) ∧
    (str_truthy (ck_requested_key q) = true →
       cj_conversation_key job = ck_requested_key q) ∧
    project_changed (ck_project_url q) (cj_project_url job) = Ok false.
Proof using Type.
  unfold enqueue. rewrite bind_Ok. intros (q & Hq & H). exists q. split; [done|].
  destruct (keyed_job s (ck_dispatch_key q)) as [j|] eqn:E.
  - apply bind_Ok in H as (j' & Hj & [= <- <-]). pose proof (repeated_job _ _ _ _ _ _ Hj) as ->.
    unfold keyed_job in E. apply bind_Some in E as (k & Ek & Hf).
    apply next_where_Some in Hf as [Hin Hkey]. apply bool_decide_eq_true in Hkey.
    unfold repeated_dispatch in Hj. apply bind_Ok in Hj as (changed & Hch & Hj).
    apply raise_if_then in Hj as [Ht _]. apply orb_false_iff in Ht as [Ht ->].
    apply orb_false_iff in Ht as [Ht _]. apply orb_false_iff in Ht as [Hsha Hk].
    split_and!; [done| | | |done].
    + intros _. unfold truthy_text in Ek. destruct (ck_dispatch_key q); [|done].
      destruct (str_truthy _); [|done]. congruence.
    + by apply negb_false_iff, String.eqb_eq in Hsha.
    + intros Ht. rewrite Ht in Hk. by apply negb_false_iff, String.eqb_eq in Hk.
  - pose proof H as Hnew. apply enqueue_new_Ok in H
      as (Ej & _ & _ & _ & _ & _ & Hd & Hs & _ & _ & Hk & Hp).
    split_and!; [rewrite Ej; apply elem_of_app; right; by left|done|done|done|].
    by eapply project_kept.
Qed.

Lemma NoDup_omap_elem {A B} (f : A → option B) (l : list A) x y k :
  NoDup (omap f l) → x ∈ l → y ∈ l → f x = Some k → f y = Some k → x = y.
Proof using Type.
  induction l as [|z l IH]; cbn; intros Hnd Hx Hy Ex Ey; [by apply not_elem_of_nil in Hx|].
  assert (∀ u, u ∈ l → f u = Some k → f z = Some k → False) as Hz.
  { intros u Hu Eu Ez. rewrite Ez in Hnd. apply NoDup_cons in Hnd as [Hnew _].
    apply Hnew, list_elem_of_omap. by exists u. }
  apply elem_of_cons in Hx as [->|Hx], Hy as [->|Hy]; [done|by exfalso; eapply (Hz y)|
    by exfalso; eapply (Hz x)|].
  apply IH; [|done..]. destruct (f z); [|done]. by apply NoDup_cons in Hnd as [_ ?].
Qed.

Lemma keyed_job_intro s dkey k row :
  NoDup (job_keys s) → row ∈ cs_jobs s → truthy_text dkey = Some k →
  cj_dispatch_key row = Some k → keyed_job s dkey = Some row.
Proof using Type.
  intros Hnd Hin Hk Hrow. unfold keyed_job. rewrite Hk. cbn.
  destruct (next_where _ _) as [j|] eqn:E.
  - apply next_where_Some in E as [Hj Hjk]. apply bool_decide_eq_true in Hjk.
    f_equal. by eapply NoDup_omap_elem.
  - eapply next_where_None in E; [|exact Hin]. by apply bool_decide_eq_false in E.
Qed.

Lemma truthy_text_key x : opt_truthy x = true → ∃ k, truthy_text x = Some k ∧ x = Some k.
Proof using Type.
  destruct x as [k|]; cbn; [|done]. intros H. rewrite H. eauto.
Qed.

(** Two addresses of one conversation in one project.  An address outside a project, as
    [https://chatgpt.com/c/...], is not the same as any address, nor as itself. *)
Definition one_conversation (a b : string) : Prop :=
  ∃ identity, conversation_identity a = Some identity ∧ conversation_identity b = Some identity.

(** The request asks for a conversation that is not the one of the dispatch. *)
Definition asks_another (rq : EnqueueRequest) (row : ChatDispatchJob) : Prop :=
  ∃ a b, truthy_text (strip_truthy (eq_conversation_url rq)) = Some a ∧
    truthy_text (cj_conversation_url row) = Some b ∧ ¬ one_conversation a b.

Lemma moved_asks_another rq row :
  moved_conversation (strip_truthy (eq_conversation_url rq)) (cj_conversation_url row) = true ↔
  asks_another rq row.
Proof using Type.
  unfold moved_conversation, asks_another, conversation_url_matches, one_conversation.
  destruct (truthy_text (strip_truthy _)) as [a|]; [|naive_solver].
  destruct (truthy_text (cj_conversation_url _)) as [b|]; [|naive_solver].
  rewrite negb_true_iff. destruct (conversation_identity b) as [i|] eqn:E; [|naive_solver].
  rewrite bool_decide_eq_false. split.
  - intros H. exists a, b. naive_solver.
  - intros (a' & b' & [= <-] & [= <-] & H) Hi. apply H. exists i. by rewrite <- Hi.
Qed.

(** C30: A dispatch that was accepted is found ever after with everything its request fixed:
    its prompt, its nonce, its conversation key and its project.  The same request under the
    same dispatch key writes nothing.  It returns the dispatch, unless both name an address and
    the two are not one conversation of one project: then it is refused.  So a request without
    an address always gets its dispatch back, and one with an address outside a project is
    refused although nothing moved, as soon as the dispatch has an address. *)
Theorem dispatch_requests_are_idempotent cs1 rq now u1 u2 u3 s job cs2 :
  enqueue (w_store (chat_run first_world cs1)) rq now u1 u2 u3 = Ok (s, job) →
  let w := chat_run first_world (cs1 ++ Client (CEnqueue rq now u1 u2 u3) :: cs2) in
  ∃ row, get_job (w_store w) (cj_dispatch_id job) = Ok row ∧
    job_contract row = job_contract job ∧
    (opt_truthy (strip_truthy (eq_dispatch_key rq)) = true →
     ∀ now' v1 v2 v3,
       (¬ asks_another rq row → enqueue (w_store w) rq now' v1 v2 v3 = Ok (w_store w, row)) ∧
       (asks_another rq row → enqueue (w_store w) rq now' v1 v2 v3 =
          raise ValueError "dispatch_key already exists for a different dispatch")).
Proof using Type.
  intros He w. destruct (history_jobs_ok (cs1 ++ Client (CEnqueue rq now u1 u2 u3) :: cs2))
    as [Hids Hkeys]. fold w in Hids, Hkeys.
  destruct (enqueue_accepted _ _ _ _ _ _ _ _ He) as (q & Hq & Hin & Hdk & Hsha & Hrk & Hpr).
  assert (evolves anybody s (w_store w)) as Hev.
  { subst w. unfold chat_run. rewrite foldl_app. cbn. unfold chat_run in He. rewrite He.
    exact (chat_run_evolves ((foldl chat_do first_world cs1) <| w_store := s |>) cs2). }
  destruct (evolves_elem _ _ _ _ Hev Hin) as (row & Hrow & Hc & _).
  exists row. split_and!; [|done|].
  { apply get_job_intro; [done|done|by apply contract_id]. }
  intros Htk now' v1 v2 v3. unfold enqueue. rewrite Hq. cbn [mbind res_bind].
  assert (ck_dispatch_key q = strip_truthy (eq_dispatch_key rq) ∧
          ck_conversation_url q = strip_truthy (eq_conversation_url rq)) as [Hk Hu].
  { revert Hq. unfold check_request. cbv zeta. intros [_ H]%raise_if_then.
    apply raise_if_then in H as [_ H]. apply raise_if_then in H as [_ H].
    apply bind_Ok in H as (? & _ & H). apply raise_if_then in H as [_ H].
    by apply raise_if_then in H as [_ [= <-]]. }
  rewrite <- Hk in Htk. destruct (truthy_text_key _ Htk) as (k & Hkt & Hks).
  rewrite (keyed_job_intro _ _ k row);
    [|done|done|done|rewrite (contract_dispatch_key _ _ Hc), (Hdk Htk); done].
  unfold repeated_dispatch. unfold job_contract in Hc. injection Hc as _ _ Hck Hcp _ Hcs _ _ _ _.
  rewrite Hcp, Hpr. cbn [mbind res_bind]. rewrite Hcs, Hsha, String.eqb_refl, Hck, Hu.
  assert (str_truthy (ck_requested_key q) &&
    negb (String.eqb (cj_conversation_key job) (ck_requested_key q)) = false) as ->.
  { destruct (str_truthy (ck_requested_key q)) eqn:E; [|done].
    by rewrite (Hrk eq_refl), String.eqb_refl. }
  cbn [negb orb]. rewrite orb_false_r, <- moved_asks_another, <- Hu.
  by destruct (moved_conversation _ _).
Qed.

End Permanence.
