(* ===== verification/ChatLiveness.v ===== *)
(** * The dispatcher process: one at a time, and not for ever

    While the process that holds the lease lives, no other dispatcher touches the browser,
    whether the lease has expired or not.  A dispatcher whose queue is drained ends after the
    grace period of its pages, closing every page it owns. *)

From stdpp Require Import pretty.
From S2P Require Import Prelude PyFloat PyStr PyUrl PyJson Models ProjectUrl.
From S2P Require Import WorkerProtocol Registry Runs.
From S2P Require Import Reconcile Dispatcher Actions ChatStore ChatEngine ChatFacts.
From S2P Require Import ChatInvariant ChatRounds ChatHistory.

Open Scope string_scope.
Open Scope Z_scope.
Open Scope list_scope.

Section Lease.
Context {tables : UnicodeTables} {check : NetlocCheck} {digests : Digests}.
Context {browser : ChatDispatchBrowser} {env : ChatEnv}.

(** The others are others, and see the process of the holder alive. *)
Definition sees_holder (row : ChatLease) (c : client_call) : Prop :=
  match c with
  | CAcquire alive owner _ _ _ _ _ => owner ≠ cl_owner_id row ∧ alive (cl_pid row) = true
  | CFence alive => alive (cl_pid row) = true
  | CEnqueue _ _ _ _ _ | CCancel _ _ | CCancelWrite _ _ => True
  end.

Definition step_sees_holder (row : ChatLease) (c : chat_step) : Prop :=
  match c with
  | Client c => sees_holder row c
  | Dispatcher _ owner _ alive _ _ => owner ≠ cl_owner_id row ∧ alive (cl_pid row) = true
  end.

Lemma acquire_refused s row alive owner pid windows idle ttl now :
  cs_lease s = Some row → 0 < cl_pid row → owner ≠ cl_owner_id row →
  alive (cl_pid row) = true →
  acquire_lease s alive owner pid windows idle ttl now = Ok (s, false).
Proof using Type.
  intros El Hp Ho Ha. unfold acquire_lease. rewrite El, Ha.
  rewrite (proj2 (String.eqb_neq _ _) (not_eq_sym Ho)), (proj2 (Z.ltb_lt _ _) Hp).
  cbn. by rewrite orb_true_r.
Qed.

Lemma client_keeps_lease s row c :
  cs_lease s = Some row → 0 < cl_pid row → sees_holder row c →
  cs_lease (client_effect s c) = Some row.
Proof using Type.
  intros El Hp Hc. destruct c; cbn in *.
  - destruct (enqueue _ _ _ _ _ _) as [[s' job]|] eqn:E; [|done].
    by apply enqueue_Ok in E as [[-> _]|(_ & _ & -> & _)].
  - destruct (cancel _ _ _) as [[s' job]|] eqn:E; [|done].
    apply cancel_Ok in E as [->|E]; [done|]. by apply update_job_Ok in E as (_ & _ & _ & -> & _).
  - destruct (update_job _ _ _ _) as [[s' job]|] eqn:E; [|done].
    by apply update_job_Ok in E as (_ & _ & _ & -> & _).
  - destruct Hc. by rewrite (acquire_refused _ row).
  - unfold fence_dispatcher. by rewrite El, Hc, (proj2 (Z.ltb_lt _ _) Hp).
Qed.

Lemma clients_keep_lease s row cs :
  cs_lease s = Some row → 0 < cl_pid row → Forall (sees_holder row) cs →
  cs_lease (foldl client_effect s cs) = Some row.
Proof using Type.
  intros El Hp Hcs. revert s El. induction Hcs as [|c cs Hc _ IH]; intros s El; cbn; [done|].
  by apply IH, client_keeps_lease.
Qed.

(** A dispatcher that is refused ends at once. *)
Lemma refused_dispatcher w row fuel owner pid alive windows idle :
  (∀ n, Forall (sees_holder row) (env_clients n)) →
  cs_lease (w_store w) = Some row → 0 < cl_pid row → owner ≠ cl_owner_id row →
  alive (cl_pid row) = true →
  ∃ w' o, run_chat_dispatch_worker fuel owner pid alive windows idle w = (w', o) ∧
    (o = Done (Some 0) ∨ o = Killed) ∧ cs_lease (w_store w') = Some row ∧ w_log w' = w_log w.
Proof using Type.
  intros Henv El Hp Ho Ha.
  pose proof (clients_keep_lease _ _ _ El Hp (Henv (w_tick w))) as El'.
  unfold run_chat_dispatch_worker, txn, mbind, eff_bind, step. cbn [run_others run_killed run_now chat_env]. cbv zeta.
  destruct (env_killed (w_tick w)); [by eexists _, _; split_and!; [|right|..]|].
  unfold commit. cbn [w_store]. rewrite (acquire_refused _ row); [|done..]. cbn.
  by eexists _, _; split_and!; [|left|..].
Qed.

(** C26: While the process of the lease holder lives, every other dispatcher ends without one
    call of the browser, and the lease stays with its holder even after it expired. *)
Theorem dispatcher_is_unique w row cs :
  cs_lease (w_store w) = Some row → 0 < cl_pid row →
  (∀ n, Forall (sees_holder row) (env_clients n)) → Forall (step_sees_holder row) cs →
  cs_lease (w_store (chat_run w cs)) = Some row ∧ w_log (chat_run w cs) = w_log w.
Proof using Type.
  intros El Hp Henv Hcs. unfold chat_run. revert w El.
  induction Hcs as [|c cs Hc _ IH]; intros w El; cbn; [done|].
  assert (cs_lease (w_store (chat_do w c)) = Some row ∧ w_log (chat_do w c) = w_log w)
    as [El' <-]; [|by apply IH].
  destruct c as [c|fuel owner pid alive windows idle]; cbn in *.
  - split; [by apply client_keeps_lease|done].
  - destruct Hc as [Ho Ha].
    destruct (refused_dispatcher w row fuel owner pid alive windows idle)
      as (w' & o & -> & _ & ? & ?); done.
Qed.

End Lease.

(** ** A drained dispatcher ends *)

Section Drained.
Context {tables : UnicodeTables} {check : NetlocCheck} {digests : Digests}.
Context {browser : ChatDispatchBrowser} {env : ChatEnv}.
Context (engine : ChatDispatchEngine) (owner : string).

(** Nobody else calls, nothing is killed, and the clock is a number. *)
Hypothesis quiet : ∀ n, env_clients n = [] ∧ env_killed n = false ∧
  is_nan (env_now n) = false ∧ is_nan (fadd (env_now n) (fmax (of_Z 5) DEFAULT_LEASE_TTL_S)) = false.
(** Closing a page answers, anything. *)
Hypothesis close_answers : ∀ n p, is_Ok (close_page n p).

(** The next tick of a world. *)
Definition next (w : World) : World := Runs.mkWorld (w_store w) (S (w_tick w)) (w_log w).

Lemma step_quiet w : step w = (next w, Done (env_now (w_tick w))).
Proof using quiet.
  unfold step. cbn [run_others run_killed run_now chat_env]. cbv zeta. destruct (quiet (w_tick w)) as (-> & -> & _). done.
Qed.

Lemma txn_quiet {A} (m : float → ChatStore → res (ChatStore * A)) w s' a :
  m (env_now (w_tick w)) (w_store w) = Ok (s', a) →
  txn m w = (next w <| w_store := s' |>, Done a).
Proof using quiet.
  intros E. unfold txn, mbind, eff_bind. rewrite step_quiet. unfold commit.
  cbn [w_store next]. by rewrite E.
Qed.

Lemma query_quiet {A} (f : ChatStore → A) w : query f w = (next w, Done (f (w_store w))).
Proof using quiet. unfold query. by erewrite txn_quiet. Qed.

Lemma bind_run {A B} (m : run A) (f : A → run B) w w' a :
  m w = (w', Done a) → (m ≫= f) w = f a w'.
Proof using Type. intros E. unfold mbind, eff_bind. by rewrite E. Qed.

(** What a round leaves of a page. *)
Definition swept (now : float) (p p' : ChatPage) : Prop :=
  if cp_owned p then
    match cp_state p, cp_close_after_at p with
    | ChatPageState.OPEN, _ => p' = idle_page (en_idle_close_s engine) now p
    | ChatPageState.IDLE, Some deadline =>
        if flt now deadline then p' = p else page_in_use p' = false
    | _, _ => p' = p
    end
  else p' = p.

(** The world keeps its jobs and its lease, and time goes on. *)
Definition after (w w' : World) : Prop :=
  cs_jobs (w_store w') = cs_jobs (w_store w) ∧ cs_lease (w_store w') = cs_lease (w_store w) ∧
  (w_tick w ≤ w_tick w')%nat ∧ (pages_keyed (w_store w) → pages_keyed (w_store w')).

#[local] Instance after_preorder : PreOrder after.
Proof using Type.
  split; [by intros w; split_and!|]. intros a b c (J1 & L1 & T1 & K1) (J2 & L2 & T2 & K2).
  split_and!; [congruence|congruence|lia|auto].
Qed.

Lemma after_next w : after w (next w).
Proof using Type. split_and!; [done|done|cbn; lia|done]. Qed.

Definition drained (s : ChatStore) : Prop :=
  ∀ j, j ∈ cs_jobs s → pending_job_state (cj_state j) = false.

Lemma drained_no_pending s key : drained s → has_pending_for_conversation s key = false.
Proof using Type.
  intros Hd. unfold has_pending_for_conversation. apply not_true_is_false.
  intros (j & Hj & H)%existsb_exists. apply list_elem_of_In in Hj. rewrite (Hd _ Hj) in H.
  by rewrite andb_false_r in H.
Qed.

(** One page of the sweep. *)
Lemma close_idle_page_runs now page w :
  is_nan now = false → drained (w_store w) → pages_keyed (w_store w) → shown page (w_store w) →
  ∃ w' p', close_idle_page engine now page w = (w', Done tt) ∧ after w w' ∧
    swept now page p' ∧ cs_pages (w_store w') = <[cp_page_id page := p']> (cs_pages (w_store w)).
Proof using quiet close_answers.
  intros Hnow Hd Hk Hs. unfold close_idle_page, swept.
  assert (cs_pages (w_store w) = <[cp_page_id page := page]> (cs_pages (w_store w))) as Hsame
    by by rewrite insert_id.
  destruct (cp_owned page) eqn:Eo; cbn [negb]; [|by exists w, page].
  assert (∀ (f : ChatPage → ChatPage) (m : float → ChatStore → res (ChatStore * ChatPage)) w0,
    w_store w0 = w_store w → (w_tick w ≤ w_tick w0)%nat →
    (∀ now' s, w_store w = s → m now' s = Ok (put_page s (f page), f page)) →
    cp_page_id (f page) = cp_page_id page →
    ∃ w', (txn m;; mret tt) w0 = (w', Done tt) ∧ after w w' ∧
      cs_pages (w_store w') = <[cp_page_id page := f page]> (cs_pages (w_store w))) as Hput.
  { intros f m w0 Es Et Hm Hf. eexists. split.
    - erewrite bind_run; [|apply txn_quiet; by apply Hm]. done.
    - unfold after. cbn [w_store w_tick fset eta eta_World next]. rewrite Es. cbn.
      split_and!; [done|done|lia|apply put_page_keyed|by rewrite Hf]. }
  assert (∀ f s, w_store w = s → modify_page s (cp_page_id page) f =
    Ok (put_page s (f page), f page)) as Hmod.
  { intros f s <-. unfold modify_page, get_page, fetch. by rewrite Hs. }
  rewrite (bind_run _ _ _ _ _ (query_quiet _ w)), (drained_no_pending _ _ Hd).
  assert (∀ w0 amb error, w_store w0 = w_store w → (w_tick w ≤ w_tick w0)%nat →
    ∃ w' p', (txn (λ _ s, mark_page_closed s (cp_page_id page) amb error);; mret tt) w0 =
        (w', Done tt) ∧ after w w' ∧ page_in_use p' = false ∧
      cs_pages (w_store w') = <[cp_page_id page := p']> (cs_pages (w_store w))) as Hclosed.
  { intros w0 amb error Es Et.
    destruct (Hput (closed_page amb error) (λ _ s, mark_page_closed s (cp_page_id page) amb error)
      w0 Es Et) as (w' & Hrun & Haf & Hp); [intros now' s Hs'; by apply Hmod|done|].
    exists w', (closed_page amb error page). split_and!; [exact Hrun|exact Haf| |exact Hp].
    by destruct amb. }
  assert (∃ w', (txn (λ _ s, mark_page_idle s (cp_page_id page) (en_idle_close_s engine) now);;
      mret tt) (next w) = (w', Done tt) ∧ after w w' ∧
    cs_pages (w_store w') = <[cp_page_id page := idle_page (en_idle_close_s engine) now page]>
      (cs_pages (w_store w))) as (wi & Hidle & Hai & Hpi).
  { apply Hput; [done|unfold next; cbn; lia| |done]. intros now' s Hs'. unfold mark_page_idle.
    unfold get_page at 1, fetch. rewrite <- Hs', Hs. cbn [mbind res_bind].
    unfold real_not_null. rewrite Hnow. cbn [raise_if]. by apply Hmod. }
  assert (∃ w', (mret tt : run unit) (next w) = (w', Done tt) ∧ after w w' ∧
    cs_pages (w_store w') = <[cp_page_id page := page]> (cs_pages (w_store w)))
    as (ws & Hstay & Has & Hps).
  { exists (next w). split_and!; [done|apply after_next|done]. }
  destruct (cp_state page) eqn:Est, (cp_close_after_at page) as [deadline|] eqn:Ed;
    try (by exists wi; eexists; split_and!; [exact Hidle|exact Hai|done|exact Hpi]);
    try (by exists ws, page).
  destruct (flt now deadline); [by exists ws, page|].
  unfold ask. destruct (close_answers (S (w_tick (next w))) page) as [r Hr].
  set (w1 := next (next w) <| w_log := w_log w ++ [Closed (w_store w) page now (Ok r)] |>).
  erewrite (bind_run _ _ (next w) w1 r).
  2: { rewrite (bind_run _ _ _ _ _ (step_quiet _)). unfold perform. cbn [w_tick next]. 
       cbn [w_tick next] in Hr. rewrite Hr. done. }
  assert (w_store w1 = w_store w ∧ (w_tick w ≤ w_tick w1)%nat) as [Es Et]
    by (subst w1; unfold next; cbn; split; [done|lia]).
  destruct (bc_closed r || bc_absent r).
  - destruct (Hclosed w1 false None Es Et) as (w' & p' & ? & ? & ? & ?). by exists w', p'.
  - destruct (Hclosed w1 true (Some (or_text (bc_detail r)
      "exact owned-page close could not be proven")) Es Et) as (w' & p' & ? & ? & ? & ?).
    by exists w', p'.
Qed.

Lemma drained_after w w' : after w w' → drained (w_store w) → drained (w_store w').
Proof using Type. intros (E & _) Hd j. rewrite E. apply Hd. Qed.

Lemma close_loop_runs now pages w :
  is_nan now = false → drained (w_store w) → pages_keyed (w_store w) →
  NoDup (cp_page_id <$> pages) → Forall (λ p, shown p (w_store w)) pages →
  ∃ w', for_each (close_idle_page engine now) pages w = (w', Done tt) ∧ after w w' ∧
    (∀ id, id ∉ (cp_page_id <$> pages) → cs_pages (w_store w') !! id = cs_pages (w_store w) !! id) ∧
    (∀ p, p ∈ pages → ∃ p', cs_pages (w_store w') !! cp_page_id p = Some p' ∧ swept now p p').
Proof using quiet close_answers.
  intros Hnow. revert w. induction pages as [|page pages IH]; intros w Hd Hk Hnd Hs; cbn.
  { exists w. split_and!; try done. by intros p Hp%not_elem_of_nil. }
  apply NoDup_cons in Hnd as [Hnew Hnd]. apply Forall_cons in Hs as [Hs Hss].
  destruct (close_idle_page_runs now page w Hnow Hd Hk Hs) as (w1 & p1 & Hrun & Ha & Hsw & Hp).
  pose proof Ha as (_ & _ & _ & Hk1).
  destruct (IH w1) as (w2 & Hrun2 & Ha2 & Hout & Hin);
    [by eapply drained_after|by apply Hk1|done| |].
  { rewrite Forall_forall in Hss |- *. intros q Hq. unfold shown. rewrite Hp, lookup_insert_ne.
    - by apply Hss.
    - intros Heq. apply Hnew. rewrite Heq. by apply list_elem_of_fmap_2. }
  exists w2. split_and!; [by rewrite (bind_run _ _ _ _ _ Hrun)|by etrans| |].
  - intros id [Hne Hni]%not_elem_of_cons. rewrite Hout, Hp, lookup_insert_ne; [done|done|done].
  - intros p [->|Hp']%elem_of_cons; [|by apply Hin].
    exists p1. split; [|done]. rewrite Hout, Hp; [apply lookup_insert_eq|done].
Qed.

Lemma drained_eligible s n now : drained s → eligible_jobs s n now = [].
Proof using Type.
  intros Hd. unfold eligible_jobs. replace (List.filter _ _) with (@nil ChatDispatchJob);
    [by rewrite take_nil|].
  revert Hd. unfold drained. generalize (cs_jobs s). induction l as [|j l IH]; intros Hd; cbn; [done|].
  assert (eligible_state (cj_state j) = false) as ->.
  { specialize (Hd j (list_elem_of_here _ _)). by destruct (cj_state j). }
  apply IH. intros x Hx. apply Hd. by right.
Qed.

(** A round of a drained dispatcher sweeps every page it owns. *)
Lemma round_runs w :
  drained (w_store w) → pages_keyed (w_store w) →
  ∃ w' report n, run_once engine w = (w', Done report) ∧ after w w' ∧ (w_tick w ≤ n)%nat ∧
    ∀ k p', cs_pages (w_store w') !! k = Some p' → page_in_use p' = true → cp_owned p' = true →
      ∃ p, cs_pages (w_store w) !! k = Some p ∧ swept (env_now n) p p'.
Proof using quiet close_answers.
  intros Hd Hk. unfold run_once.
  erewrite (bind_run _ _ _ (next w) []).
  2: { erewrite txn_quiet; [|by rewrite drained_eligible]. done. }
  cbn [process_jobs]. rewrite (bind_run _ _ (next w) (next w) false); [|done].
  set (n := S (w_tick w)). set (w1 := next (next (next w))).
  destruct (close_loop_runs (env_now n) (list_pages (w_store w) false) w1)
    as (w2 & Hrun & Ha & Hout & Hin); [apply quiet|exact Hd|exact Hk|by apply listed_pages| |].
  { apply Forall_forall. by apply listed_pages. }
  assert (_close_idle_pages engine (next w) = (w2, Done tt)) as Hclose.
  { unfold _close_idle_pages. rewrite (bind_run _ _ _ _ _ (step_quiet (next w))).
    by rewrite (bind_run _ _ _ _ _ (query_quiet _ _)). }
  rewrite (bind_run _ _ _ _ _ Hclose), (bind_run _ _ _ _ _ (query_quiet _ _)),
    (bind_run _ _ _ _ _ (query_quiet _ _)).
  eexists (next (next w2)), _, n. split_and!; [done| |lia|].
  - assert (after w w1) as H1 by (do 3 (etrans; [|apply after_next]); done).
    etrans; [exact H1|]. etrans; [exact Ha|]. do 2 (etrans; [|apply after_next]). done.
  - intros k p' Ep Hu Ho. cbn in Ep.
    destruct (decide (k ∈ (cp_page_id <$> list_pages (w_store w) false))) as [Hl|Hl].
    + apply list_elem_of_fmap in Hl as (p & -> & Hp).
      destruct (Hin p Hp) as (p1 & E1 & Hsw). exists p.
      assert (p1 = p') as -> by congruence. split; [by eapply listed_pages|done].
    + rewrite (Hout _ Hl) in Ep. exfalso. apply Hl. apply list_elem_of_fmap. exists p'.
      split; [by rewrite (Hk _ _ Ep)|]. unfold list_pages, order_desc.
      apply elem_of_py_sorted, elem_of_select. split; [|by exists k].
      unfold page_in_use in Hu. by destruct (cp_state p').
Qed.

Lemma no_owned_count s :
  (∀ k p, cs_pages s !! k = Some p → page_in_use p = true → cp_owned p = true → False) →
  owned_open_count s = 0%nat.
Proof using Type.
  intros H. unfold owned_open_count. destruct (select _ _) as [|p l] eqn:E; [done|]. exfalso.
  assert (p ∈ select (λ p, cp_owned p && page_in_use p) (cs_pages s)) as Hp
    by (rewrite E; by left).
  apply elem_of_select in Hp as [Hp (k & Ek)]. apply andb_true_iff in Hp as [? ?]. by eapply H.
Qed.

Lemma drained_count s : drained s → pending_count s = 0%nat.
Proof using Type.
  intros Hd. unfold pending_count. destruct (List.filter _ _) as [|j l] eqn:E; [done|]. exfalso.
  assert (j ∈ List.filter (λ j, pending_job_state (cj_state j)) (cs_jobs s)) as Hj
    by (rewrite E; by left).
  apply elem_of_filterb in Hj as [Hj Hp]. by rewrite (Hd _ Hj) in Hp.
Qed.

Lemma should_exit_drained w :
  drained (w_store w) →
  ∃ w', should_exit w = (w', Done (Nat.eqb (owned_open_count (w_store w)) 0)) ∧
    w_store w' = w_store w ∧ (w_tick w ≤ w_tick w')%nat.
Proof using quiet.
  intros Hd. unfold should_exit.
  rewrite (bind_run _ _ _ _ _ (query_quiet _ w)), (bind_run _ _ _ _ _ (query_quiet _ _)).
  cbn [w_store next]. rewrite (drained_count _ Hd). cbn [Nat.ltb Nat.leb].
  rewrite (bind_run _ _ _ _ _ (query_quiet _ _)). eexists. split; [done|].
  split; [done|]. cbn. lia.
Qed.

Lemma heartbeat_runs (w : World) :
  holds_lease (w_store w) owner = true →
  ∃ w' : World, txn (λ now s, heartbeat_lease s owner DEFAULT_LEASE_TTL_S now) w = (w', Done true) ∧
    cs_jobs (w_store w') = cs_jobs (w_store w) ∧ cs_pages (w_store w') = cs_pages (w_store w) ∧
    holds_lease (w_store w') owner = true ∧ (w_tick w ≤ w_tick w')%nat.
Proof using quiet.
  unfold holds_lease. intros Hl. destruct (cs_lease (w_store w)) as [row|] eqn:El; [|done].
  destruct (quiet (w_tick w)) as (_ & _ & Hn1 & Hn2).
  eexists. split.
  - apply txn_quiet. unfold heartbeat_lease. rewrite El, Hl. unfold real_not_null.
    rewrite Hn1, Hn2. cbn. done.
  - cbn. split_and!; [done|done|exact Hl|lia].
Qed.

(** Each page the dispatcher owns and uses is idle, and its grace period is over. *)
Definition overdue (w : World) : Prop :=
  ∀ k p, cs_pages (w_store w) !! k = Some p → page_in_use p = true → cp_owned p = true →
    cp_state p = ChatPageState.IDLE ∧
    ∃ deadline, cp_close_after_at p = Some deadline ∧
      ∀ n, (w_tick w ≤ n)%nat → flt (env_now n) deadline = false.

Lemma round_closes w :
  drained (w_store w) → pages_keyed (w_store w) → overdue w →
  ∃ w' report, run_once engine w = (w', Done report) ∧ after w w' ∧
    owned_open_count (w_store w') = 0%nat.
Proof using quiet close_answers.
  intros Hd Hk Ho. destruct (round_runs w Hd Hk) as (w' & report & n & Hrun & Ha & Hn & Hp).
  exists w', report. split_and!; [done|done|]. apply no_owned_count.
  intros k p' Ep Hu Hown. destruct (Hp k p' Ep Hu Hown) as (p & E & Hs). unfold swept in Hs.
  destruct (cp_owned p) eqn:Eo; [|congruence].
  assert (page_in_use p = true → False) as Hcontra.
  { intros Hup. destruct (Ho k p E Hup Eo) as (Est & deadline & Ed & Hdl).
    rewrite Est, Ed, (Hdl n Hn) in Hs. congruence. }
  unfold page_in_use in Hcontra.
  destruct (cp_state p) eqn:Est; [by apply Hcontra|by apply Hcontra|..]; subst p';
    unfold page_in_use in Hu; by rewrite Est in Hu.
Qed.

(** An idle page the dispatcher owns has a deadline. *)
Definition timed (s : ChatStore) : Prop :=
  ∀ k p, cs_pages s !! k = Some p → cp_owned p = true → cp_state p = ChatPageState.IDLE →
    is_Some (cp_close_after_at p).

(** From now on every deadline has passed. *)
Definition grace_over (w : World) : Prop :=
  ∀ k p deadline, cs_pages (w_store w) !! k = Some p → cp_close_after_at p = Some deadline →
    ∀ n, (w_tick w ≤ n)%nat → flt (env_now n) deadline = false.

(** The deadline of a page found idle is a number. *)
Hypothesis deadline_is_number : ∀ n,
  is_nan (fadd (env_now n) (fmax (of_Z 1) (en_idle_close_s engine))) = false.

Lemma swept_idle now p p' :
  is_nan (fadd now (fmax (of_Z 1) (en_idle_close_s engine))) = false →
  (cp_owned p = true → cp_state p = ChatPageState.IDLE → is_Some (cp_close_after_at p)) →
  swept now p p' → cp_owned p' = true → page_in_use p' = true →
  cp_state p' = ChatPageState.IDLE ∧ is_Some (cp_close_after_at p').
Proof using Type.
  intros Hnan Ht Hs Ho Hu. unfold swept in Hs. destruct (cp_owned p) eqn:Eo; [|congruence].
  specialize (Ht eq_refl).
  destruct (cp_state p) eqn:Est.
  - subst p'. split; [done|]. unfold idle_page. cbn -[fadd fmax of_Z real_column].
    rewrite Eo, Est. unfold real_column. rewrite Hnan. by eexists.
  - destruct (Ht eq_refl) as [d Ed]. rewrite Ed in Hs. destruct (flt now d); [|congruence].
    subst p'. by rewrite Est, Ed.
  - subst p'. unfold page_in_use in Hu. by rewrite Est in Hu.
  - subst p'. unfold page_in_use in Hu. by rewrite Est in Hu.
Qed.

(** One turn of the loop of [run_chat_dispatch_worker]. *)
Definition loop_body : run bool :=
  txn (λ now s, heartbeat_lease s owner DEFAULT_LEASE_TTL_S now);;
  run_once engine;; should_exit.

(** C31: A dispatcher without pending jobs ends: its first round starts the grace period of
    every page it owns, and once these periods are over its next round closes all of them and
    the loop returns 0, whatever the browser answers to the closes. *)
Theorem drained_dispatcher_exits w fuel :
  holds_lease (w_store w) owner = true → drained (w_store w) → pages_keyed (w_store w) →
  timed (w_store w) → (∀ w1 b, loop_body w = (w1, Done b) → grace_over w1) →
  ∃ w', worker_loop engine owner (S (S fuel)) w = (w', Done (Some 0)) ∧
    owned_open_count (w_store w') = 0%nat.
Proof using quiet close_answers deadline_is_number.
  intros Hl Hd Hk Ht Hover. destruct (heartbeat_runs w Hl) as (w1 & Hb & Ej & Ep & Hl1 & Tk1).
  assert (drained (w_store w1)) as Hd1 by (intros j; rewrite Ej; apply Hd).
  assert (pages_keyed (w_store w1)) as Hk1 by (unfold pages_keyed; by rewrite Ep).
  destruct (round_runs w1 Hd1 Hk1) as (w2 & report & n & Hrun & Ha & Hn & Hsw).
  pose proof (drained_after _ _ Ha Hd1) as Hd2. pose proof Ha as (_ & El & _ & Hk2).
  destruct (should_exit_drained w2 Hd2) as (w3 & Hexit & Es & Tk3).
  assert (worker_loop engine owner (S (S fuel)) w =
    if Nat.eqb (owned_open_count (w_store w2)) 0 then (w3, Done (Some 0))
    else worker_loop engine owner (S fuel) w3) as Hloop.
  { cbn [worker_loop]. rewrite (bind_run _ _ _ _ _ Hb). cbn [negb].
    rewrite (bind_run _ _ _ _ _ Hrun), (bind_run _ _ _ _ _ Hexit).
    by destruct (Nat.eqb _ _). }
  rewrite Hloop. clear Hloop. destruct (Nat.eqb _ _) eqn:Ec.
  { exists w3. split; [done|]. rewrite Es. by apply Nat.eqb_eq. }
  assert (grace_over w3) as Hg.
  { eapply Hover. unfold loop_body. rewrite (bind_run _ _ _ _ _ Hb), (bind_run _ _ _ _ _ Hrun).
    exact Hexit. }
  assert (holds_lease (w_store w3) owner = true) as Hl3.
  { rewrite Es. unfold holds_lease in *. by rewrite El. }
  destruct (heartbeat_runs w3 Hl3) as (w4 & Hb4 & Ej4 & Ep4 & _ & Tk4).
  destruct (round_closes w4) as (w5 & report5 & Hrun5 & Ha5 & Hc5).
  { intros j. rewrite Ej4, Es. apply Hd2. }
  { unfold pages_keyed. rewrite Ep4, Es. by apply Hk2. }
  { intros k p E Hu Ho. rewrite Ep4, Es in E. destruct (Hsw k p E Hu Ho) as (p0 & E0 & Hs0).
    rewrite Ep in E0. eapply swept_idle in Hs0 as [Hst [d Hdl]];
      [|apply deadline_is_number|by eapply Ht|done|done].
    split; [done|]. exists d. split; [done|]. intros m Hm.
    rewrite <- Es in E. eapply Hg; [exact E|exact Hdl|lia]. }
  destruct (should_exit_drained w5) as (w6 & Hexit6 & Es6 & _).
  { eapply drained_after; [exact Ha5|]. intros j. rewrite Ej4, Es. apply Hd2. }
  exists w6. split; [|by rewrite Es6]. cbn [worker_loop].
  rewrite (bind_run _ _ _ _ _ Hb4). cbn [negb].
  rewrite (bind_run _ _ _ _ _ Hrun5), (bind_run _ _ _ _ _ Hexit6). by rewrite Hc5.
Qed.

End Drained.
