(* ===== verification/ChatDemo.v ===== *)
(** * The chat dispatcher on concrete histories

    A browser that answers, two jobs of a new conversation, and one dispatcher.  The witnesses
    apply the theorems to this history; the last examples show two behaviours of the queue
    that its messages do not announce. *)

From S2P Require Import Prelude PyFloat PyStr PyUrl PyJson Models ProjectUrl.
From S2P Require Import WorkerProtocol Registry Runs.
From S2P Require Import Reconcile Dispatcher Actions ChatStore ChatEngine ChatFacts.
From S2P Require Import ChatInvariant ChatRounds ChatHistory ChatTheorems ChatLiveness.

Open Scope string_scope.
Open Scope Z_scope.
Open Scope list_scope.

Section Demo.
Existing Instance AsciiTables.
Existing Instance any_netloc.
Existing Instance text_digests.

Definition demo_conversation : string := demo_project +:+ "/c/0123456789abcdef0".

#[local] Instance demo_browser : ChatDispatchBrowser := {|
  find_existing := λ _ _, Ok None;
  open_existing := λ _ url, Ok (mkPageIdentity url 7 8 "chrome" true);
  open_new := λ _ url _ _, Ok (mkPageIdentity url 9 8 "chrome" true);
  recover_new := λ _ _ _ _, Ok None;
  send_existing := λ _ _ _, Ok (mkBrowserSendResult true true "sent" None false);
  send_new := λ _ _ _, Ok (mkBrowserSendResult true true "sent" (Some demo_conversation) false);
  observe_ack := λ _ _ _, Ok (mkBrowserAckResult true 1 (Some false) "" None);
  current_url := λ _ page, Ok (Some (cp_conversation_url page));
  close_page := λ _ _, Ok (mkBrowserCloseResult true false false "");
|}.

(** The clock jumps twice. *)
Definition demo_now (n : nat) : float :=
  if Nat.ltb n 30 then of_Z 10 else if Nat.ltb n 60 then of_Z 1000 else of_Z 2000.

#[local] Instance demo_env : ChatEnv := {|
  env_now := demo_now; env_clients := λ _, []; env_killed := λ _, false;
|}.

Definition demo_request (key : string) : EnqueueRequest :=
  mkEnqueueRequest "hello" (Some "talk") None (Some demo_project) (Some key) (of_Z 30) 4.

Definition demo_enqueue (key uuid : string) : client_call :=
  CEnqueue (demo_request key) (of_Z 1) "u" uuid "nonce".

Definition demo_dispatcher : chat_step :=
  Dispatcher 10 "worker" 5 (λ _, true) 4 (of_Z 30).

Definition demo_history : list chat_step :=
  [Client (demo_enqueue "a" "0123456789abcdef"); Client (demo_enqueue "b" "123456789abcdef0");
   demo_dispatcher].

Definition demo_log : list effect := w_log (chat_run first_world demo_history).

Definition sends (id : string) (e : effect) : bool :=
  match e with Sent _ job _ _ => String.eqb (cj_dispatch_id job) id | _ => false end.
Definition opens (e : effect) : bool := match e with Opened _ _ _ => true | _ => false end.
Definition closes (e : effect) : bool := match e with Closed _ _ _ _ => true | _ => false end.

Lemma prompt_sends_are_fenced_witness :
  match split_where (sends "chat_123456789abcdef0") demo_log with
  | Some (_, Sent s job page _, _) =>
      cs_pages s !! cp_page_id page = Some page ∧
      ∃ row, row ∈ cs_jobs s ∧ job_contract row = job_contract job ∧
        (cj_state row = ChatDispatchState.SUBMITTING ∨
         cj_state row = ChatDispatchState.CANCELLED)
  | _ => False
  end.
Proof.
  destruct (split_where (sends "chat_123456789abcdef0") demo_log) as [[[before e] after]|] eqn:E;
    [|by vm_compute in E].
  assert (match e with Sent _ _ _ _ => true | _ => false end = true) as He.
  { replace e with (default e (snd <$> (fst <$>
      split_where (sends "chat_123456789abcdef0") demo_log))) by (by rewrite E). by vm_compute. }
  destruct e as [s job page answer|s job a|s page now a|s job page a]; try discriminate He.
  pose proof (prompt_sends_are_fenced demo_history before s job page answer after
    (split_where_eq _ _ _ _ _ E)) as (_ & _ & Hrow & Hpage & _).
  exact (conj Hpage Hrow).
Defined.

Lemma window_opens_are_bounded_witness :
  match split_where opens demo_log with
  | Some (_, Opened s job _, _) => Z.of_nat (owned_open_count s) < 4
  | _ => False
  end.
Proof.
  destruct (split_where opens demo_log) as [[[before e] after]|] eqn:E; [|by vm_compute in E].
  assert (match e with Opened _ _ _ => true | _ => false end = true) as He.
  { replace e with (default e (snd <$> (fst <$> split_where opens demo_log))) by (by rewrite E).
    by vm_compute. }
  destruct e as [s job page answer|s job a|s page now a|s job page a]; try discriminate He.
  assert (windows_within 4 demo_history) as Hw.
  { repeat constructor. by vm_compute. }
  exact (proj1 (window_opens_are_bounded 4 demo_history before s job a after Hw
    (split_where_eq _ _ _ _ _ E))).
Defined.

Lemma page_closes_are_safe_witness :
  match split_where closes demo_log with
  | Some (_, Closed s page _ _, _) =>
      cp_owned page = true ∧ cp_state page = ChatPageState.IDLE
  | _ => False
  end.
Proof.
  destruct (split_where closes demo_log) as [[[before e] after]|] eqn:E; [|by vm_compute in E].
  assert (match e with Closed _ _ _ _ => true | _ => false end = true) as He.
  { replace e with (default e (snd <$> (fst <$> split_where closes demo_log))) by (by rewrite E).
    by vm_compute. }
  destruct e as [s job page answer|s job a|s page now a|s job page a]; try discriminate He.
  pose proof (page_closes_are_safe demo_history before s page now a after
    (split_where_eq _ _ _ _ _ E)) as (_ & Ho & Hs & _).
  exact (conj Ho Hs).
Defined.

Lemma acknowledged_is_observed_witness :
  match get_job (w_store (chat_run first_world demo_history)) "chat_0123456789abcdef" with
  | Ok j => ∃ s job page ack,
      Observed s job page (Ok ack) ∈ w_log (chat_run first_world demo_history) ∧
      cj_dispatch_id job = "chat_0123456789abcdef"
  | Err _ => False
  end.
Proof.
  destruct (get_job _ _) as [j|e] eqn:E; [|by vm_compute in E].
  assert (cj_state j = ChatDispatchState.ACKNOWLEDGED) as Hs.
  { replace (cj_state j) with (match get_job (w_store (chat_run first_world demo_history))
      "chat_0123456789abcdef" with Ok j => cj_state j | Err _ => cj_state j end)
      by (by rewrite E). by vm_compute. }
  destruct (acknowledged_is_observed demo_history "chat_0123456789abcdef" j E Hs)
    as (s & job & page & ack & Hin & Hid & _).
  exists s, job, page, ack. exact (conj Hin Hid).
Defined.

Lemma dispatch_requests_are_idempotent_witness :
  match enqueue empty_store (demo_request "a") (of_Z 1) "u" "0123456789abcdef" "nonce" with
  | Ok (_, job) =>
      let w := chat_run first_world
        ([] ++ Client (demo_enqueue "a" "0123456789abcdef") :: [demo_dispatcher]) in
      ∃ row, job_contract row = job_contract job ∧
        enqueue (w_store w) (demo_request "a") (of_Z 2) "v" "v" "v" = Ok (w_store w, row)
  | Err _ => False
  end.
Proof.
  destruct (enqueue empty_store _ _ _ _ _) as [[s job]|e] eqn:E; [|by vm_compute in E].
  destruct (dispatch_requests_are_idempotent [] (demo_request "a") (of_Z 1) "u"
    "0123456789abcdef" "nonce" s job [demo_dispatcher] E) as (row & _ & Hc & Hagain).
  exists row. split; [exact Hc|]. apply (Hagain eq_refl).
  intros (a & b & Ha & _). discriminate Ha.
Defined.

Definition demo_row : ChatLease := mkChatLease "holder" 77 (of_Z 0) (of_Z 1) 4 (of_Z 30).

Lemma dispatcher_is_unique_witness :
  let w := Runs.mkWorld (empty_store <| cs_lease := Some demo_row |>) 50 [] in
  cs_lease (w_store (chat_run w demo_history)) = Some demo_row ∧
  w_log (chat_run w demo_history) = [].
Proof.
  apply (dispatcher_is_unique (Runs.mkWorld (empty_store <| cs_lease := Some demo_row |>) 50 [])
    demo_row demo_history); [reflexivity|reflexivity|intros n; constructor|].
  repeat constructor. discriminate.
Defined.

(** A dispatcher that holds the lease, with one page and no jobs. *)
Definition demo_page : ChatPage :=
  mkChatPage "p" "talk" demo_conversation 7 8 "chrome" true ChatPageState.OPEN
    (of_Z 0) (of_Z 0) None None None.

Definition demo_drained : World :=
  Runs.mkWorld (mkChatStore ∅ [] {["p" := demo_page]} (Some demo_row)) 20 [].

Definition demo_engine : ChatDispatchEngine := new_engine 4 (of_Z 30) (of_Z 120).

Lemma demo_now_cases (P : float → Prop) :
  P (of_Z 10) → P (of_Z 1000) → P (of_Z 2000) → ∀ n, P (demo_now n).
Proof.
  intros H1 H2 H3 n. unfold demo_now. destruct (Nat.ltb n 30); [done|].
  by destruct (Nat.ltb n 60).
Qed.

Lemma drained_dispatcher_exits_witness :
  ∃ w', worker_loop demo_engine "holder" 2 demo_drained = (w', Done (Some 0)) ∧
    owned_open_count (w_store w') = 0%nat.
Proof.
  apply (drained_dispatcher_exits demo_engine "holder").
  - intros n. split_and!; [reflexivity|reflexivity|..]; revert n;
      apply (demo_now_cases (λ x, is_nan x = false)) || apply (demo_now_cases (λ x,
        is_nan (fadd x (fmax (of_Z 5) DEFAULT_LEASE_TTL_S)) = false)); reflexivity.
  - intros n p. by eexists.
  - apply (demo_now_cases (λ x, is_nan (fadd x (fmax (of_Z 1) (en_idle_close_s demo_engine)))
      = false)); reflexivity.
  - reflexivity.
  - intros j Hj. by apply not_elem_of_nil in Hj.
  - intros k p E. change (({["p" := demo_page]} : gmap string ChatPage) !! k = Some p) in E.
    apply lookup_singleton_Some in E as [<- <-]. reflexivity.
  - intros k p E. change (({["p" := demo_page]} : gmap string ChatPage) !! k = Some p) in E.
    apply lookup_singleton_Some in E as [<- <-]. discriminate.
  - intros w1 b H k p d E Ed n Hn.
    assert (w1 = (loop_body demo_engine "holder" demo_drained).1) as -> by (by rewrite H).
    clear H. assert (Nat.leb 30 (w_tick (loop_body demo_engine "holder" demo_drained).1) = true)
      as Ht by (by vm_compute).
    apply Nat.leb_le in Ht. cbn [env_now demo_env]. unfold demo_now.
    rewrite (proj2 (Nat.ltb_ge n 30)); [|etrans; [exact Ht|exact Hn]].
    apply elem_of_map_to_list in E.
    assert (forallb (λ kp, match cp_close_after_at kp.2 with
      | Some d => negb (flt (of_Z 1000) d) && negb (flt (of_Z 2000) d) | None => true end)
      (map_to_list (cs_pages (w_store (loop_body demo_engine "holder" demo_drained).1))) = true)
      as Hall by (by vm_compute).
    rewrite forallb_forall in Hall. apply list_elem_of_In in E. specialize (Hall _ E).
    cbn in Hall. rewrite Ed in Hall. apply andb_true_iff in Hall as [H1 H2].
    destruct (Nat.ltb n 60); by apply negb_true_iff.
Defined.

(** ** What the messages of the queue do not announce *)

(** A cancellation that comes while a round is under way is accepted, but the round works on
    its list of jobs and sends the prompt. *)
Definition cancelled_env (stop : bool) : ChatEnv := {|
  env_now := demo_now;
  env_clients := λ n, if Nat.eqb n 3 && negb stop
                      then [CCancel "chat_0123456789abcdef" (of_Z 10)] else [];
  env_killed := λ n, Nat.eqb n 3 && stop;
|}.

Definition cancelled_run (stop : bool) : World :=
  @chat_run AsciiTables any_netloc text_digests demo_browser (cancelled_env stop) first_world
    [Client (demo_enqueue "a" "0123456789abcdef"); demo_dispatcher].

Lemma cancelled_dispatch_is_sent :
  match cancel (w_store (cancelled_run true)) "chat_0123456789abcdef" (of_Z 10) with
  | Ok (_, job) => cj_state job = ChatDispatchState.CANCELLED
  | Err _ => False
  end ∧
  existsb (sends "chat_0123456789abcdef") (w_log (cancelled_run false)) = true.
Proof. split; vm_compute; reflexivity. Qed.

(** A conversation outside a project is accepted by its address once, and then no more. *)
Definition plain_request (key : string) : EnqueueRequest :=
  mkEnqueueRequest "hello" None (Some "https://chatgpt.com/c/0123456789abcdef0") None
    (Some key) (of_Z 30) 4.

Lemma plain_conversation_queues_once :
  match enqueue empty_store (plain_request "a") (of_Z 1) "u" "0123456789abcdef" "n" with
  | Ok (s, _) =>
      enqueue s (plain_request "a") (of_Z 2) "u" "123456789abcdef0" "m" =
        raise ValueError "dispatch_key already exists for a different dispatch" ∧
      enqueue s (plain_request "b") (of_Z 2) "u" "123456789abcdef0" "m" =
        raise ValueError "conversation_key is already bound to a different conversation"
  | Err _ => False
  end.
Proof. vm_compute. split; reflexivity. Qed.

End Demo.
