(* ===== verification/Observers.v ===== *)
(** * browser.py and uia.py: what the pages say

    A sample of a page is a JSON object from one of several producers.  This file reads the
    result of the UI Automation script ([payload_from_uia_result]) and the snapshot of a local
    shell's browser ([dom_payload_from_lsm_snapshot]), and turns a payload into the observation
    of a worker ([observation_from_dom_payload]).  The silence of a page is derived from
    signatures over successive samples; the theorem of this file compares it with a
    definition over the whole sequence.  The scripts and [json.dumps] of the buttons are
    parameters. *)

From Stdlib Require Import Ascii.
From S2P Require Import Prelude PyFloat PyStr PyJson Models Reconcile.

Open Scope string_scope.
Open Scope Z_scope.
Open Scope list_scope.

(** [json.dumps(buttons, ensure_ascii=False, sort_keys=True, default=str)] *)
Class ButtonTexts := buttons_text : json → string.

(** The UI Automation scripts, run at the [n]-th step: the probe of the window of an address,
    and the rows of all windows. *)
Class UiaScripts := {
  raw_probe : nat → string → option Z → res dict;
  raw_discover : nat → res json;
}.

(** ** Texts counted in code points *)

(** The code points before the last occurrence of [sub], [s.rfind(sub)]. *)
Fixpoint str_rfind (sub s : string) : option nat :=
  match s with
  | EmptyString => match sub with EmptyString => Some O | _ => None end
  | String a s' =>
      match str_rfind sub s' with
      | Some n => Some (n + if is_lead a then 1 else 0)%nat
      | None => if startswith sub s then Some O else None
      end
  end.

(** The slice [s[n:]]: what starts at the [n]-th code point. *)
Fixpoint str_drop (n : nat) (s : string) : string :=
  match s with
  | EmptyString => EmptyString
  | String a s' =>
      if is_lead a
      then match n with O => s | S n' => str_drop n' s' end
      else str_drop n s'
  end.

(** The line boundaries of [str.splitlines], and the first line of a non-empty text. *)
Definition line_ends : list string :=
  (byte_str <$> [10; 11; 12; 13; 28; 29; 30]%nat) ++
  [byte_str 194%nat +:+ byte_str 133%nat; byte_str 226 +:+ byte_str 128 +:+ byte_str 168;
   byte_str 226 +:+ byte_str 128 +:+ byte_str 169].

Fixpoint first_line (s : string) : string :=
  match s with
  | EmptyString => EmptyString
  | String a s' =>
      match drop_any line_ends s with Some _ => EmptyString | None => String a (first_line s') end
  end.

(** The first [Some] of [f] over a list. *)
Fixpoint first_some {A B} (f : A → option B) (xs : list A) : option B :=
  match xs with
  | [] => None
  | x :: xs => match f x with Some y => Some y | None => first_some f xs end
  end.

Section Observers.
Context {tables : UnicodeTables} {fmt : Formatting} {nums : Numbers} {digests : Digests}.
Context {button_texts : ButtonTexts}.

(** ** Reading fields *)

Definition _optional_bool (value : json) : option bool :=
  match value with JBool b => Some b | _ => None end.

Definition _optional_int (value : json) : res (option Z) :=
  match value with JNull => Ok None | _ => z ← json_int value; Ok (Some z) end.

Definition _optional_float (value : json) : res (option float) :=
  match value with JNull => Ok None | _ => f ← json_float value; Ok (Some f) end.

Definition _optional_text (value : json) : option string :=
  match value with JNull => None | _ => strip_or_none (json_str value) end.

(** [float(v or time.time())] *)
Definition json_time (v : json) (now : float) : res float :=
  if jtruthy v then json_float v else Ok now.

(** [d.get(k, default)] *)
Definition dget_or (k : string) (d : dict) (other : json) : json := default other (dfind k d).

(** The objects among the items of [v]; the items of a text or an object are texts. *)
Definition object_items (v : json) : res (list dict) :=
  match v with
  | JList rows => Ok (omap (λ row, match row with JObj d => Some d | _ => None end) rows)
  | JStr _ | JObj _ => Ok []
  | _ => raise TypeError "object is not iterable"
  end.

(** [(item for item in v or [] if isinstance(item, dict))] *)
Definition object_items_or_none (v : json) : res (list dict) :=
  if jtruthy v then object_items v else Ok [].

(** [len(v or [])] *)
Definition json_len (v : json) : res Z :=
  if negb (jtruthy v) then Ok 0 else
  match v with
  | JList l => Ok (Z.of_nat (length l))
  | JObj d => Ok (Z.of_nat (length d))
  | JStr s => Ok (Z.of_nat (py_len s))
  | _ => raise TypeError "object has no len()"
  end.

(** The address of a payload is a text or missing. *)
Definition url_field (v : json) : res (option string) :=
  match v with
  | JNull => Ok None
  | JStr s => Ok (Some s)
  | _ => raise TypeError "url is not a text"
  end.

(** [dict(v or {})] *)
Definition dict_field (v : json) : res dict :=
  if negb (jtruthy v) then Ok [] else
  match v with JObj d => Ok d | _ => raise TypeError "object is not a dictionary" end.

(** ** browser.py: an observation of a payload *)

Definition _normalized_label (value : json) : string :=
  collapse_spaces (lower (strip (json_text_or_empty value))).

Definition _digest_signature (text_tail : string) (buttons : json) : string :=
  let normalized := strip (collapse_spaces text_tail) in
  let canonical := buttons_text (if jtruthy buttons then buttons else JList []) in
  sha256_text (normalized +:+ byte_str 10 +:+ canonical).

(** The given signature, or one of the text when it is a reliable heartbeat. *)
Definition payload_signature (payload : dict) : option string :=
  match _optional_text (dget "message_signature" payload) with
  | Some signature => Some signature
  | None =>
      match dget "signature_reliable" payload with
      | JBool false => None
      | _ =>
          text_tail ← _optional_text (dget "text_tail" payload);
          Some (_digest_signature text_tail (dget "buttons" payload))
      end
  end.

(** When the page changed last: as the payload says, or since the signature of the previous
    observation is the same. *)
Definition last_change (previous : option BrowserObservation) (observed_at : float)
    (signature : option string) (explicit : option float) : option float :=
  match explicit, signature with
  | Some change, _ => Some change
  | None, None => None
  | None, Some s =>
      match previous with
      | Some p =>
          if bool_decide (bo_message_signature p = Some s)
          then match bo_last_dom_change_at p with
               | Some change => if negb (feq change (of_Z 0)) then Some change
                                else Some (bo_observed_at p)
               | None => Some (bo_observed_at p)
               end
          else Some observed_at
      | None => Some observed_at
      end
  end.

Definition observation_from_dom_payload (worker_id : string) (payload : dict)
    (previous : option BrowserObservation) (now : float) : res BrowserObservation :=
  observed_at ← json_time (dget "observed_at" payload) now;
  let signature := payload_signature payload in
  explicit_change ← _optional_float (dget "last_dom_change_at" payload);
  url ← url_field (dget "url" payload);
  pending ← _optional_int (dget "pending_tool_calls" payload);
  raw ← dict_field (dget "raw" payload);
  Ok (mkBrowserObservation worker_id observed_at url (_optional_bool (dget "generating" payload))
        (_optional_bool (dget "send_button_ready" payload)) pending
        (_optional_text (dget "visible_error" payload))
        (last_change previous observed_at signature explicit_change) signature raw).

(** ** browser.py: the snapshot of a local shell's browser *)

Definition _ERROR_PATTERNS : list string :=
  ["message delivery timed out"; "error in message stream";
   "there was an error generating a response"; "something went wrong"].

Definition _STOP_LABELS : list string :=
  ["stop generating"; "stop response"; "stop streaming"; "停止生成"].

Definition _SEND_LABELS : list string :=
  ["send"; "send prompt"; "send message"; "发送"; "发送消息"].

Definition _infer_generating (buttons : list dict) : option bool :=
  let labels := (λ row, _normalized_label (dget "text" row)) <$> buttons in
  if existsb (λ label, str_truthy label && existsb (λ m, str_contains m label) _STOP_LABELS) labels
  then Some true else None.

(** A label is a marker, or a marker and more. *)
Definition labelled (markers : list string) (label : string) : bool :=
  existsb (λ m, String.eqb label m || startswith (m +:+ " ") label) markers.

Definition _infer_send_ready (buttons : list dict) : option bool :=
  first_some (λ row,
    let label := _normalized_label (dget "text" row) in
    if str_truthy label && labelled _SEND_LABELS label
    then Some (negb (jtruthy (dget "disabled" row))) else None) buttons.

(** The index is found in the lowered text and applied to the text itself. *)
Definition _find_visible_error (text : string) : res (option string) :=
  let lowered := lower text in
  match first_some (λ p, n ← str_rfind p lowered; Some (p, n)) _ERROR_PATTERNS with
  | None => Ok None
  | Some (pattern, index) =>
      let part := str_take (Nat.max 160 (py_len pattern)) (str_drop index text) in
      if str_truthy part then Ok (Some (strip (first_line part)))
      else raise IndexError "list index out of range"
  end.

Definition button_row (item : dict) : dict :=
  [("text", JStr (json_text_or_empty (dget "text" item)));
   ("disabled", JBool (jtruthy (dget "disabled" item)));
   ("tag", dget "tag" item); ("role", dget "role" item); ("type", dget "type" item)].

Definition is_button (item : dict) : bool :=
  jeq_str (dget "tag" item) "button" || jeq_str (dget "role" item) "button".

Definition snapshot_data (snapshot : dict) : dict :=
  match dget "data" snapshot with
  | JObj data => if dmem "url" snapshot then snapshot else data
  | _ => snapshot
  end.

Definition dom_payload_from_lsm_snapshot (snapshot : dict) : res dict :=
  let data := snapshot_data snapshot in
  let text := json_text_or_empty (dget "text" data) in
  elements ← object_items_or_none (dget "interactive_elements" data);
  let rows := button_row <$> List.filter is_button elements in
  error ← _find_visible_error text;
  let truncated := jtruthy (dget "text_truncated" data) in
  errors ← json_len (dget "errors" data);
  network ← json_len (dget "network" data);
  Ok ([("url", dget "url" data);
       ("generating", j_of_opt_bool (_infer_generating rows));
       ("send_button_ready", j_of_opt_bool (_infer_send_ready rows));
       ("pending_tool_calls", JNull);
       ("visible_error", j_of_opt_str error);
       ("buttons", JList (JObj <$> rows));
       ("signature_reliable", JBool (negb truncated));
       ("raw", JObj [("source", JStr "lsm_browser_snapshot"); ("page_id", dget "page_id" data);
                     ("text_truncated", JBool truncated);
                     ("snapshot_error_count", JInt errors);
                     ("snapshot_network_event_count", JInt network)])] ++
      if truncated then [] else [("text_tail", JStr text)]).

Definition observation_from_lsm_snapshot (worker_id : string) (snapshot : dict)
    (previous : option BrowserObservation) (now : float) : res BrowserObservation :=
  payload ← dom_payload_from_lsm_snapshot snapshot;
  observation_from_dom_payload worker_id payload previous now.

(** ** uia.py: the result of the UI Automation script *)

Definition _STOP_MARKERS : list string :=
  ["stop answering"; "stop generating"; "stop response"; "停止生成"; "停止回答"].

Definition _SEND_MARKERS : list string :=
  ["send"; "send prompt"; "send message"; "发送"; "发送消息"].

Definition _ERROR_MARKERS : list string :=
  ["message delivery timed out"; "error in message stream";
   "there was an error generating a response"; "something went wrong"].

(** [marker[:1].upper() + marker[1:]] of a marker that starts with a small ASCII letter *)
Definition capitalised (marker : string) : string :=
  match marker with
  | String a s => String (ascii_of_nat (nat_of_ascii a - 32)) s
  | EmptyString => EmptyString
  end.

Definition row_label (row : dict) : string := lower (strip (json_text_or_empty (dget "text" row))).

Definition row_enabled (row : dict) : bool := jtruthy (dget_or "enabled" row (JBool true)).
Definition row_offscreen (row : dict) : bool := jtruthy (dget_or "offscreen" row (JBool false)).

Definition stop_visible (buttons : list dict) : bool :=
  existsb (λ row, existsb (λ m, str_contains m (row_label row)) _STOP_MARKERS) buttons.

Definition send_ready (buttons : list dict) : option bool :=
  first_some (λ row, if labelled _SEND_MARKERS (row_label row)
                     then Some (row_enabled row && negb (row_offscreen row)) else None) buttons.

Definition uia_generating (buttons : list dict) (composer_present : bool) : option bool :=
  if stop_visible buttons then Some true
  else if bool_decide (send_ready buttons = Some true) || composer_present then Some false
  else None.

Definition uia_visible_error (tail : string) : option string :=
  first_some (λ m, if str_contains m (lower tail) then Some (capitalised m) else None)
    _ERROR_MARKERS.

(** An address without scheme is an address of the web. *)
Definition full_url (address : string) : string :=
  match drop_http address with Some _ => address | None => "https://" +:+ address end.

Definition uia_button (row : dict) : json :=
  JObj [("text", dget "text" row); ("disabled", JBool (negb (row_enabled row)));
        ("offscreen", JBool (row_offscreen row)); ("automation_id", dget "automation_id" row)].

(** [rows[-n:]] *)
Definition last_rows {A} (n : nat) (rows : list A) : list A := drop (length rows - n) rows.

Definition payload_from_uia_result (result : dict) (now : float) : res dict :=
  raise_if (jtruthy (dget "error" result)) UiaProbeUnavailable (json_str (dget "error" result));;
  buttons ← object_items (dget_or "buttons" result (JList []));
  let composer_present := jtruthy (dget "composer_present" result) in
  observed_at ← json_time (dget "observed_at" result) now;
  Ok [("observed_at", JFloat observed_at);
      ("url", JStr (full_url (strip (json_text_or_empty (dget "address" result)))));
      ("text_tail", JStr (json_text_or_empty (dget "text_tail" result)));
      ("generating", j_of_opt_bool (uia_generating buttons composer_present));
      ("send_button_ready", j_of_opt_bool (send_ready buttons));
      ("pending_tool_calls", JNull);
      ("visible_error", j_of_opt_str
         (uia_visible_error (json_text_or_empty (dget "visible_text_tail" result))));
      ("buttons", JList (uia_button <$> last_rows 200 buttons));
      ("raw", JObj [("source", JStr "windows_uia_chrome");
         ("browser_pid", dget "browser_pid" result); ("window_handle", dget "window_handle" result);
         ("composer_present", dget "composer_present" result);
         ("text_elements", dget "text_elements" result);
         ("visible_text_elements", dget "visible_text_elements" result);
         ("element_count", dget "element_count" result);
         ("process_working_set_bytes", dget "process_working_set_bytes" result)])].

(** [ChromeUiaProbe.observe] *)
Definition observe `{UiaScripts} (n : nat) (now : float) (worker : WorkerRecord)
    (previous : option BrowserObservation) (expected_hwnd : option Z) : res BrowserObservation :=
  result ← raw_probe n (wr_conversation_url worker) expected_hwnd;
  payload ← payload_from_uia_result result now;
  let observed_url := normalize_url (json_text_or_empty (dget "url" payload)) in
  let expected_url := normalize_url (wr_conversation_url worker) in
  raise_if (negb (String.eqb observed_url expected_url)) UiaProbeUnavailable
    ("UIA address mismatch: expected " +:+ json_repr (JStr expected_url) +:+ ", observed " +:+
     json_repr (JStr observed_url));;
  observation_from_dom_payload (wr_worker_id worker) payload previous now.

(** [^https://chatgpt\.com/] *)
Definition at_the_site (url : string) : bool :=
  let tail : option string :=
    rest ← drop_nocase "http" url; rest ← drop_letter_s rest; drop_nocase "://chatgpt.com/" rest in
  match tail with Some _ => true | None => false end.

Definition discovered_row (now : float) (row : dict) : res (option dict) :=
  let url := full_url (strip (json_text_or_empty (dget "address" row))) in
  match conversation_id_from_url url with
  | Some id =>
      if negb (at_the_site url) then Ok None else
      observed_at ← json_time (dget "observed_at" row) now;
      pid ← json_int_or_0 (dget "browser_pid" row);
      handle ← json_int_or_0 (dget "window_handle" row);
      Ok (Some [("observed_at", JFloat observed_at); ("browser_pid", JInt pid);
                ("window_handle", JInt handle); ("url", JStr url); ("conversation_id", JStr id)])
  | None => Ok None
  end.

(** [ChromeUiaProbe.discover_conversations] *)
Definition discover_conversations `{UiaScripts} (n : nat) (now : float) : res (list dict) :=
  data ← raw_discover n;
  rows ← (match data with JObj d => Ok [d] | _ => object_items_or_none data end);
  found ← mapM (discovered_row now) rows;
  Ok (omap id found).

(** ** The silence of a page *)

(** The samples of one worker in their order, each observed with the one before as
    [previous], newest first. *)
Fixpoint observed_in_turn (worker_id : string) (older : list BrowserObservation)
    (samples : list (dict * float)) : res (list BrowserObservation) :=
  match samples with
  | [] => Ok older
  | (payload, now) :: samples =>
      o ← observation_from_dom_payload worker_id payload (head older) now;
      observed_in_turn worker_id (o :: older) samples
  end.

(** What a sample says by itself: its time, its signature, and an explicit time of change. *)
Record Sample := mkSample {
  sm_time : float;
  sm_signature : option string;
  sm_explicit : option float;
}.

Definition read_sample (x : dict * float) : res Sample :=
  t ← json_time (dget "observed_at" x.1) x.2;
  explicit ← _optional_float (dget "last_dom_change_at" x.1);
  Ok (mkSample t (payload_signature x.1) explicit).

(** The samples, newest first, up to the first one with another signature. *)
Fixpoint run_of (s : string) (samples : list Sample) : list Sample :=
  match samples with
  | x :: older => if bool_decide (sm_signature x = Some s) then x :: run_of s older else []
  | [] => []
  end.

(** When the page fell silent, seen from its newest sample: an explicit time of that sample;
    nothing without a signature; or, among the samples since the last other signature, the
    newest explicit time, and without one the time of the oldest. *)
Definition silent_since (samples : list Sample) : option float :=
  match samples with
  | [] => None
  | x :: _ =>
      match sm_explicit x, sm_signature x with
      | Some change, _ => Some change
      | None, None => None
      | None, Some s =>
          let run := run_of s samples in
          match first_some sm_explicit run with
          | Some change => Some change
          | None => sm_time <$> last run
          end
      end
  end.

(** Times are not the zero of the clock, which the code reads as missing. *)
Definition timed (x : Sample) : Prop :=
  feq (sm_time x) (of_Z 0) = false ∧ ∀ c, sm_explicit x = Some c → feq c (of_Z 0) = false.

(** What an observation keeps of its sample and of the samples before it. *)
Definition keeps (o : BrowserObservation) (samples : list Sample) : Prop :=
  ∃ x older, samples = x :: older ∧ bo_observed_at o = sm_time x ∧
    bo_message_signature o = sm_signature x ∧ bo_last_dom_change_at o = silent_since samples.

Lemma observation_sample worker_id payload previous now o :
  observation_from_dom_payload worker_id payload previous now = Ok o →
  ∃ x, read_sample (payload, now) = Ok x ∧ bo_worker_id o = worker_id ∧
    bo_observed_at o = sm_time x ∧ bo_message_signature o = sm_signature x ∧
    bo_last_dom_change_at o = last_change previous (sm_time x) (sm_signature x) (sm_explicit x).
Proof.
  intros (t & Ht & (c & Hc & (u & _ & (p & _ & (r & _ & [= <-])%bind_Ok)%bind_Ok)%bind_Ok)%bind_Ok)%bind_Ok.
  exists (mkSample t (payload_signature payload) c). split; [|done].
  unfold read_sample. cbn. by rewrite Ht, Ok_bind, Hc, Ok_bind.
Qed.

Lemma run_head s x older : sm_signature x = Some s → run_of s (x :: older) = x :: run_of s older.
Proof. intros H. cbn. by rewrite bool_decide_true. Qed.

Lemma silent_since_run x older s :
  sm_signature x = Some s →
  silent_since (x :: older) =
    match first_some sm_explicit (run_of s (x :: older)) with
    | Some c => Some c
    | None => sm_time <$> last (run_of s (x :: older))
    end.
Proof.
  intros H. rewrite (run_head s x older H). cbn [silent_since first_some]. rewrite H.
  destruct (sm_explicit x) eqn:E; [done|]. rewrite (run_head s x older H).
  cbn [first_some]. by rewrite E.
Qed.

(** The time of silence is a time of some sample, so it is not zero. *)
Lemma silent_since_timed samples c :
  Forall timed samples → silent_since samples = Some c → feq c (of_Z 0) = false.
Proof.
  intros Ht H. destruct samples as [|x older]; [done|].
  destruct (sm_signature x) as [s|] eqn:Es.
  - rewrite (silent_since_run _ _ _ Es) in H.
    assert (Forall timed (run_of s (x :: older))) as Hr.
    { clear H Es. induction (x :: older) as [|y l IH]; [done|]. apply Forall_cons in Ht as [Hy Ht].
      cbn. case_bool_decide; [|done]. constructor; auto. }
    induction (run_of s (x :: older)) as [|y l IH]; [done|].
    apply Forall_cons in Hr as [[Hy Hc] Hr]. cbn [first_some] in H.
    destruct (sm_explicit y) as [d|] eqn:E; [injection H as <-; by apply Hc|].
    destruct l as [|z l]; [by injection H as <-|]. apply IH; [done|exact Hr].
  - cbn in H. rewrite Es in H. apply Forall_cons in Ht as [[_ Hc] _].
    destruct (sm_explicit x); [injection H as <-; by apply Hc|done].
Qed.

(** One step of the sequence: [last_change] of what the previous observation keeps. *)
Lemma last_change_silent x older previous :
  Forall timed older →
  match older with [] => previous = None | _ => ∃ o, previous = Some o ∧ keeps o older end →
  last_change previous (sm_time x) (sm_signature x) (sm_explicit x) = silent_since (x :: older).
Proof.
  intros Ht Hp. unfold last_change.
  destruct (sm_explicit x) as [c|] eqn:Ex; [cbn; by rewrite Ex|].
  destruct (sm_signature x) as [s|] eqn:Es; [|cbn; by rewrite Ex, Es].
  rewrite (silent_since_run _ _ _ Es), (run_head _ _ _ Es). cbn [first_some]. rewrite Ex.
  destruct older as [|y older]; [by subst|].
  destruct Hp as (o & -> & z & rest & [= <- <-] & Ho & Hs & Hc).
  rewrite Hs. cbn [run_of]. destruct (decide (sm_signature y = Some s)) as [E|E].
  2: { by rewrite !bool_decide_false. }
  rewrite !bool_decide_true by done.
  rewrite <- (run_head s y older E). destruct (bo_last_dom_change_at o) as [c|] eqn:Eo.
  - pose proof (silent_since_timed _ _ Ht (eq_sym Hc)) as ->. cbn [negb]. rewrite Hc.
    rewrite (silent_since_run _ _ _ E), (run_head _ _ _ E). done.
  - symmetry in Hc. rewrite (silent_since_run _ _ _ E), (run_head _ _ _ E) in Hc.
    destruct (first_some _ _); [done|]. by destruct (last (y :: _)) eqn:El; [|apply last_None in El].
Qed.

Lemma mapM_res_length {A B} (f : A → res B) xs ys : mapM f xs = Ok ys → length ys = length xs.
Proof.
  revert ys. induction xs as [|x xs IH]; intros ys; [by intros [= <-]|].
  intros (y & _ & (ys' & H & [= <-])%bind_Ok)%bind_Ok. cbn. by rewrite (IH ys').
Qed.

(** An observation of the worker that keeps what the samples say. *)
Definition speaks (worker_id : string) (samples : list Sample) (o : BrowserObservation) : Prop :=
  bo_worker_id o = worker_id ∧ keeps o samples.

Lemma turn_speaks worker_id samples older os read observations :
  length os = length older → (∀ n o, os !! n = Some o → speaks worker_id (drop n older) o) →
  Forall timed older → mapM read_sample samples = Ok read → Forall timed read →
  observed_in_turn worker_id os samples = Ok observations →
  length observations = (length older + length read)%nat ∧
  ∀ n o, observations !! n = Some o → speaks worker_id (drop n (rev read ++ older)) o.
Proof.
  revert older os read. induction samples as [|[payload now] samples IH]; intros older os read Hl Ho Ht.
  { intros [= <-] _ [= <-]. cbn. split; [lia|done]. }
  intros (x & Hx & (xs & Hxs & [= <-])%bind_Ok)%bind_Ok [Htx Hts]%Forall_cons
    (o & Hobs & H)%bind_Ok.
  destruct (observation_sample _ _ _ _ _ Hobs) as (x' & Hx' & Hw & Hat & Hs & Hc).
  rewrite Hx in Hx'. injection Hx' as <-.
  destruct (IH (x :: older) (o :: os) xs) as [Hlen Hall]; [cbn; lia| |by constructor|done..|].
  - intros [|n] o' E; [|by apply Ho]. injection E as <-. split; [done|].
    exists x, older. split_and!; try done. rewrite Hc. apply last_change_silent; [done|].
    destruct older as [|y older]; [by destruct os|]. destruct os as [|p os]; [done|].
    exists p. split; [done|]. apply (Ho 0%nat p eq_refl).
  - split; [cbn in *; lia|]. cbn [rev]. rewrite <- app_assoc. exact Hall.
Qed.

(** C12: The silence that the observations carry is the silence of the whole sequence.  When
    the samples of a worker are observed one after the other, each with the observation before
    it, every observation says that the page changed last at the start of the run of equal
    signatures it belongs to, or at the newest explicit time of that run; it says nothing
    without a signature.  So one changed sample restarts the silence, and no sample in
    between can move it. *)
Theorem dom_silence_is_exact worker_id samples read observations :
  mapM read_sample samples = Ok read → Forall timed read →
  observed_in_turn worker_id [] samples = Ok observations →
  length observations = length samples ∧
  ∀ n o, observations !! n = Some o → speaks worker_id (drop n (rev read)) o.
Proof.
  intros Hr Ht H.
  destruct (turn_speaks worker_id samples [] [] read observations) as [Hl Ho]; try done.
  rewrite app_nil_r in Ho. split; [|exact Ho]. rewrite Hl. symmetry.
  rewrite <- (mapM_res_length _ _ _ Hr). done.
Qed.

(** ** The observation of a window *)

Lemma json_text_str u : json_text_or_empty (JStr u) = u.
Proof. unfold json_text_or_empty, json_text_or. by destruct u. Qed.

Lemma visible_error_text tail :
  _optional_text (j_of_opt_str (uia_visible_error tail)) = uia_visible_error tail.
Proof.
  unfold uia_visible_error, _ERROR_MARKERS. cbn [first_some].
  repeat (destruct (str_contains _ _); [vm_compute; reflexivity|]). done.
Qed.

Lemma visible_error_None tail :
  uia_visible_error tail = None ↔ Forall (λ m, str_contains m (lower tail) = false) _ERROR_MARKERS.
Proof.
  unfold uia_visible_error. induction _ERROR_MARKERS as [|m ms IH]; cbn; [by split; [constructor|]|].
  rewrite Forall_cons. destruct (str_contains m (lower tail)); [naive_solver|]. rewrite IH. naive_solver.
Qed.

(** An observation that the probe of a window returns is one of the worker's page.  It is
    refused unless the address of the window is the address of the worker up to scheme and
    trailing slashes; it says that the page generates exactly when a button of the window is
    labelled as a stop, and that it does not only when no such button and a usable send
    button or a composer is shown; it reports the state of the first send button, the error
    banner of the visible text, and a number of pending tool calls never. *)
Theorem uia_observation_is_of_the_page `{UiaScripts} n now w previous hwnd o :
  observe n now w previous hwnd = Ok o →
  ∃ result buttons, raw_probe n (wr_conversation_url w) hwnd = Ok result ∧
    jtruthy (dget "error" result) = false ∧
    object_items (dget_or "buttons" result (JList [])) = Ok buttons ∧
    bo_worker_id o = wr_worker_id w ∧
    (∃ u, bo_url o = Some u ∧ u = full_url (strip (json_text_or_empty (dget "address" result))) ∧
       normalize_url u = normalize_url (wr_conversation_url w)) ∧
    (bo_generating o = Some true ↔ stop_visible buttons = true) ∧
    (bo_generating o = Some false ↔ stop_visible buttons = false ∧
       (send_ready buttons = Some true ∨ jtruthy (dget "composer_present" result) = true)) ∧
    bo_send_button_ready o = send_ready buttons ∧ bo_pending_tool_calls o = None ∧
    (bo_visible_error o = None ↔ Forall (λ m, str_contains m
       (lower (json_text_or_empty (dget "visible_text_tail" result))) = false) _ERROR_MARKERS).
Proof.
  intros (result & Hraw & (payload & Hp & H0)%bind_Ok)%bind_Ok. revert H0. cbv zeta.
  rewrite raise_if_then. intros [Hurl H0].
  unfold payload_from_uia_result in Hp. apply raise_if_then in Hp as [He Hp].
  apply bind_Ok in Hp as (buttons & Hb & (t & Ht & [= <-])%bind_Ok).
  exists result, buttons. split; [done|]. split; [done|]. split; [done|].
  unfold observation_from_dom_payload in H0. cbn [dget String.eqb Ascii.eqb Bool.eqb] in H0, Hurl.
  rewrite json_text_str in Hurl. apply negb_false_iff, String.eqb_eq in Hurl.
  apply bind_Ok in H0 as (t' & _ & H0). cbv zeta in H0.
  apply bind_Ok in H0 as (c & _ & H0). cbn [url_field] in H0. rewrite Ok_bind in H0.
  cbn [_optional_int] in H0. rewrite Ok_bind in H0.
  apply bind_Ok in H0 as (raw & _ & [= <-]). cbn [bo_worker_id bo_url bo_generating
    bo_send_button_ready bo_pending_tool_calls bo_visible_error].
  rewrite visible_error_text, visible_error_None.
  split; [done|]. split; [by eexists|].
  assert (∀ b, _optional_bool (j_of_opt_bool b) = b) as Hbool by by intros [[]|].
  rewrite !Hbool. unfold uia_generating.
  destruct (stop_visible buttons).
  - split; [done|]. split; [split; [done|by intros []]|]. by split_and!.
  - split.
    { destruct (_ || _); by split. }
    split; [|by split_and!].
    destruct (_ || _) eqn:E.
    + apply orb_true_iff in E as [E%bool_decide_eq_true|E]; split; auto.
    + apply orb_false_iff in E as [E%bool_decide_eq_false E2].
      split; [done|]. intros [_ [?|?]]; congruence.
Qed.

End Observers.

(** ** Witnesses *)

#[local] Existing Instance AsciiTables.

#[local] Instance observer_formatting : Formatting := {|
  format_f0 := λ _, ""; format_f1 := λ _, ""; json_text := λ _, ""; json_repr := λ _, "";
|}.

#[local] Instance observer_numbers : Numbers := {|
  int_of_text := λ _, raise ValueError ""; int_of_float := λ _, raise ValueError "";
  float_of_text := λ _, raise ValueError "";
|}.

#[local] Instance observer_digests : Digests := {| sha256_text := λ s, s; sha256_json := λ _, ""; |}.

#[local] Instance observer_buttons : ButtonTexts := λ _, "[]".

(** A text that changes once, then an unreadable page, then the same text three times. *)
Definition page_samples : list (dict * float) :=
  (λ x : Z * json, ([("observed_at", JInt x.1); ("text_tail", x.2)], of_Z 0)) <$>
  [(10, JStr "a  b"); (20, JStr "a c"); (30, JNull); (40, JStr " a b "); (50, JStr "a b"); (60, JStr "a b")].

Definition page_reads : list Sample :=
  match mapM read_sample page_samples with Ok read => read | Err _ => [] end.

Definition page_observations : list BrowserObservation :=
  match observed_in_turn "w" [] page_samples with Ok os => os | Err _ => [] end.

Lemma dom_silence_is_exact_witness :
  length page_observations = 6%nat ∧
  (bo_last_dom_change_at <$> page_observations) =
    [Some (of_Z 40); Some (of_Z 40); Some (of_Z 40); None; Some (of_Z 20); Some (of_Z 10)] ∧
  ∀ n o, page_observations !! n = Some o → speaks "w" (drop n (rev page_reads)) o.
Proof.
  destruct (dom_silence_is_exact "w" page_samples page_reads page_observations) as [H1 H2].
  - vm_compute. reflexivity.
  - apply List.Forall_forall. intros x Hx. split; [|intros c Hc];
      repeat (destruct Hx as [<-|Hx]; [by vm_compute in Hc || by vm_compute|]); by destruct Hx.
  - vm_compute. reflexivity.
  - split; [exact H1|]. split; [vm_compute; reflexivity|exact H2].
Defined.

Definition page_worker (url : string) : WorkerRecord :=
  mkWorkerRecord "w" "t" url None WorkerStatus.ACTIVE (of_Z 0) None None.

(** One window that shows the page, with a composer and a send button that is disabled. *)
#[local] Instance one_window : UiaScripts := {|
  raw_probe _ _ _ := Ok [("observed_at", JInt 100); ("address", JStr "chat/c/1/");
    ("composer_present", JBool true); ("visible_text_tail", JStr "Something went wrong.");
    ("buttons", JList [JObj [("text", JStr " Send prompt"); ("enabled", JBool false)]])];
  raw_discover _ := Ok JNull;
|}.

Definition page_seen (url : string) : res BrowserObservation :=
  observe 0 (of_Z 0) (page_worker url) None None.

Lemma uia_observation_is_of_the_page_witness :
  match page_seen "https://chat/c/1" with
  | Ok o => bo_worker_id o = "w" ∧ bo_generating o = Some false ∧
      bo_visible_error o = Some "Something went wrong" ∧
      ∃ buttons, bo_send_button_ready o = send_ready buttons ∧ send_ready buttons = Some false
  | Err _ => False
  end.
Proof.
  destruct (page_seen "https://chat/c/1") as [o|] eqn:E; [|by vm_compute in E].
  destruct (uia_observation_is_of_the_page _ _ _ _ _ _ E)
    as (result & buttons & Hr & _ & Hb & Hw & _ & _ & _ & Hs & _).
  vm_compute in Hr. injection Hr as <-. vm_compute in Hb. injection Hb as <-.
  split; [exact Hw|]. vm_compute in E. injection E as <-. split; [reflexivity|].
  split; [reflexivity|]. eexists. split; [exact Hs|]. vm_compute. reflexivity.
Defined.

(** The probe accepts a worker that is registered without TLS, and the address it reports is
    another one than the registered address. *)
Example observe_ignores_the_scheme :
  match page_seen "http://chat/c/1" with
  | Ok o => bo_url o = Some "https://chat/c/1/"
  | Err _ => False
  end.
Proof. vm_compute. reflexivity. Qed.

(** The banner is cut from the text itself, at the index in the lowered text. *)
Example banner_of_the_text :
  _find_visible_error "Oops: Something went wrong here" = Ok (Some "Something went wrong here").
Proof. vm_compute. reflexivity. Qed.
