(* ===== verification/Telemetry.v ===== *)
(** * lsm.py and workspace.py: durable evidence of a task

    [FileLsmTelemetry] reads the state files of a local shell: the session of a task, its plan,
    its calls in flight and its background jobs.  It keeps one cache, the last jobs file under
    the time and size it was read at.  [WorkspaceProbe] asks git about the working directory.
    The file system, git and the hash of the status are parameters; each access is one step,
    and the files may change between two steps. *)

From S2P Require Import Prelude PyFloat PyStr PyJson Models Reconcile Runs Observers.

Open Scope string_scope.
Open Scope Z_scope.
Open Scope list_scope.

Definition IN_FLIGHT_LEASE_S : float := of_Z (2 * 60 * 60).
Definition ACTIVE_JOB_STATES : list string := ["starting"; "running"; "stopping"; "retrying"].
Definition FAILED_JOB_STATES : list string := ["failed"; "lost"].
Definition SUPPORTED_SESSION_STATE_VERSION : Z := 1.
Definition SUPPORTED_JOB_STORE_VERSION : Z := 2.

(** What one read of a JSON file may raise: the file is missing, access is denied, another
    [OSError], the text is not JSON, or not UTF-8. *)
Inductive read_error := Missing | Denied | OtherOs | Malformed | Undecodable.

(** [read_text] is [json.loads(path.read_text(encoding="utf-8"))]; [path_stat] is the time and
    size of a file, [None] for an [OSError]. *)
Class LsmFiles := {
  state_dir : string;
  read_text : nat → string → json + read_error;
  path_exists : nat → string → bool;
  path_stat : nat → string → option (Z * Z);
}.

(** The cache of the adapter. *)
Record FileLsmTelemetry := mkFileLsmTelemetry {
  _jobs_cache_key : option (Z * Z);
  _jobs_cache : option dict;
}.

(** [FileLsmTelemetry.__init__] *)
Definition new_telemetry : FileLsmTelemetry := mkFileLsmTelemetry None None.

Section Lsm.
Context {fmt : Formatting} {nums : Numbers} {env : RunEnv FileLsmTelemetry} {files : LsmFiles}.

Notation World := (Runs.World FileLsmTelemetry unit).
Notation reader := (eff World).

Definition error_exn (e : read_error) (path : string) : exn :=
  match e with
  | Missing | Denied | OtherOs => Exn OSError path
  | Malformed | Undecodable => Exn ValueError path
  end.

(** [except (FileNotFoundError, PermissionError, json.JSONDecodeError)] *)
Definition retried (e : read_error) : bool :=
  match e with Missing | Denied | Malformed => true | OtherOs | Undecodable => false end.

Definition look {A} (f : nat → A) : reader A := ask (λ n, Ok (f n)) unlogged.

(** The pause between two tries is a step. *)
Fixpoint read_tries (retries : nat) (last : option read_error) (path : string)
    : reader (json + read_error) :=
  match retries with
  | O => match last with
         | Some e => mret (inr e)
         | None => lift (raise RuntimeError ("unable to read " +:+ path))
         end
  | S retries =>
      a ← look (λ n, read_text n path);
      match a with
      | inl v => mret (inl v)
      | inr e => if retried e then _ ← clock; read_tries retries (Some e) path else mret (inr e)
      end
  end.

Definition _read_json (path : string) (retries : nat) : reader (json + read_error) :=
  read_tries retries None path.

Definition or_raise (path : string) (a : json + read_error) : reader json :=
  lift (match a with inl v => Ok v | inr e => Err (error_exn e path) end).

Definition state_path (name : string) : string := state_dir +:+ "/" +:+ name.

Definition version_is (v : json) (supported : Z) : bool := json_eq v (JInt supported).

(** The messages of the two version errors *)
Definition unsupported (what : string) (v : json) (supported : Z) : exn :=
  Exn UnsupportedLsmState ("unsupported LSM " +:+ what +:+ " version " +:+ json_repr v +:+
    "; expected " +:+ json_repr (JInt supported)).

Definition session_payload (session_id : string) : reader dict :=
  let path := state_path ("sessions/" +:+ session_id +:+ ".json") in
  a ← _read_json path 3;
  payload ← or_raise path a;
  let version := match payload with JObj d => dget "version" d | _ => JNull end in
  match payload with
  | JObj d => if version_is version SUPPORTED_SESSION_STATE_VERSION then mret d
              else lift (Err (unsupported "session-state" version SUPPORTED_SESSION_STATE_VERSION))
  | _ => lift (Err (unsupported "session-state" version SUPPORTED_SESSION_STATE_VERSION))
  end.

Definition no_jobs : dict := [("version", JInt SUPPORTED_JOB_STORE_VERSION); ("jobs", JList [])].

(** The cache as it is: only this object touches it. *)
Definition the_cache : reader FileLsmTelemetry := apply_part (λ c, (c, Ok c)).

Definition cached (key : option (Z * Z)) (c : FileLsmTelemetry) : option dict :=
  if bool_decide (is_Some key) && bool_decide (key = _jobs_cache_key c) then _jobs_cache c else None.

(** The file, or its backup when the file is denied or no JSON. *)
Definition jobs_data (path : string) : reader json :=
  a ← _read_json path 3;
  match a with
  | inl v => mret v
  | inr (Denied | Malformed) =>
      let backup := state_path "jobs.json.bak" in
      there ← look (λ n, path_exists n backup);
      if negb there then or_raise path a
      else b ← _read_json backup 3; or_raise backup b
  | inr _ => or_raise path a
  end.

Definition jobs_payload : reader dict :=
  let path := state_path "jobs.json" in
  there ← look (λ n, path_exists n path);
  if negb there then mret no_jobs else
  cache_key ← look (λ n, path_stat n path);
  c ← the_cache;
  match cached cache_key c with
  | Some data => mret data
  | None =>
      v ← jobs_data path;
      match v with
      | JObj data =>
          let version := dget "version" data in
          if negb (version_is version SUPPORTED_JOB_STORE_VERSION)
          then lift (Err (unsupported "job-store" version SUPPORTED_JOB_STORE_VERSION))
          else
            (if bool_decide (is_Some cache_key)
             then apply_part (λ _, (mkFileLsmTelemetry cache_key (Some data), Ok tt)) else mret tt);;
            mret data
      | _ => lift (raise UnsupportedLsmState "LSM jobs store is not an object")
      end
  end.

(** [str(v or "unknown")] of the status of a job *)
Definition job_status (row : dict) : string := json_text_or (dget "status" row) "unknown".

Definition is_one_of (xs : list string) (s : string) : bool := existsb (String.eqb s) xs.

(** The terminal fact of an attempt, laid over its row. *)
Definition overlaid (job payload : dict) : dict :=
  let exit_code := dget "exit_code" payload in
  let completed_at := if jtruthy (dget "completed_at" payload) then dget "completed_at" payload
                      else dget "updated_at" job in
  dupdate job
    [("status", JStr (if json_eq exit_code (JInt 0) then "succeeded" else "failed"));
     ("exit_code", exit_code); ("completed_at", completed_at); ("updated_at", completed_at);
     ("error", dget "error" payload); ("status_source", JStr "attempt_status")].

Definition _effective_job (row : dict) : reader dict :=
  let status := job_status row in
  if negb (is_one_of ACTIVE_JOB_STATES status) then mret row else
  let raw_path := dget (if String.eqb status "retrying" then "pending_status_path"
                        else "status_path") row in
  if negb (jtruthy raw_path) || startswith "state://" (json_str raw_path) then mret row else
  a ← _read_json (json_str raw_path) 1;
  match a with
  | inl (JObj payload) =>
      mret (if dmem "exit_code" payload then overlaid row payload else row)
  | inl _ => mret row
  | inr Undecodable => or_raise (json_str raw_path) a;; mret row
  | inr _ => mret row
  end.

(** ** What a session says *)

(** [v.get(k)] of a value that should be an object *)
Definition field (k : string) (v : json) : res json :=
  match v with JObj d => Ok (dget k d) | _ => raise AttributeError "object has no attribute 'get'" end.

(** [v or {}] *)
Definition or_object (v : json) : json := if jtruthy v then v else JObj [].

(** [float(lease.get("heartbeat_at") or lease.get("started_at") or 0)] *)
Definition heartbeat_of (lease : json) : res float :=
  d ← (match lease with JObj d => Ok d | _ => raise AttributeError "object has no attribute 'get'" end);
  let v := if jtruthy (dget "heartbeat_at" d) then dget "heartbeat_at" d else dget "started_at" d in
  if jtruthy v then json_float v else Ok (of_Z 0).

Definition is_live (now heartbeat : float) : bool :=
  negb (feq heartbeat (of_Z 0)) && flt (fsub now heartbeat) IN_FLIGHT_LEASE_S.

Definition live_heartbeats (now : float) (calls : json) : res (list float) :=
  match or_object calls with
  | JObj leases =>
      heartbeats ← mapM heartbeat_of leases.*2;
      Ok (List.filter (is_live now) heartbeats)
  | _ => raise AttributeError "object has no attribute 'values'"
  end.

(** [activity[-1] if activity else {}] *)
Definition recent_event (activity : json) : res json :=
  if negb (jtruthy activity) then Ok (JObj []) else
  match activity with
  | JList l => Ok (default JNull (last l))
  | JStr _ => Ok (JStr "")
  | JObj _ => raise KeyError "-1"
  | _ => raise TypeError "object is not subscriptable"
  end.

(** A text field of an observation; other values are outside its type. *)
Definition text_field (v : json) : res (option string) :=
  match v with
  | JNull => Ok None
  | JStr s => Ok (Some s)
  | _ => raise TypeError "field is not a text"
  end.

(** The rows of the jobs file with an id: the last one of an id wins. *)
Definition rows_by_id (rows : list (string * dict)) (job_id : string) : option dict :=
  snd <$> List.find (λ x, String.eqb x.1 job_id) (rev rows).

Fixpoint effective_rows (rows : list dict) : reader (list (string * dict)) :=
  match rows with
  | [] => mret []
  | row :: rows =>
      if jtruthy (dget "job_id" row) then
        job ← _effective_job row;
        jobs ← effective_rows rows;
        mret ((json_str (dget "job_id" row), job) :: jobs)
      else effective_rows rows
  end.

Definition count_status (states : list string) (jobs : list dict) : Z :=
  Z.of_nat (length (List.filter (λ row, is_one_of states (json_str (dget "status" row))) jobs)).

Definition step_items (steps : json) : res (list dict) :=
  if negb (jtruthy steps) then Ok [] else
  match steps with
  | JList l => mapM (λ v, match v with
                          | JObj d => Ok d
                          | _ => raise AttributeError "object has no attribute 'get'"
                          end) l
  | JStr _ | JObj _ => raise AttributeError "'str' object has no attribute 'get'"
  | _ => raise TypeError "object is not iterable"
  end.

(** [float(plan.get("execution_lease_s") or 900)] *)
Definition execution_lease (plan : dict) : res float :=
  let v := dget "execution_lease_s" plan in if jtruthy v then json_float v else Ok (of_Z 900).

Definition continuation_due (now : float) (plan : dict) : res (option bool) :=
  let last_activity := dget "last_agent_activity" plan in
  if bool_decide (plan ≠ []) && jeq_str (dget "status" plan) "active" &&
     negb (match last_activity with JNull => true | _ => false end)
  then
    lease ← execution_lease plan;
    at_ ← json_float last_activity;
    Ok (Some (fle (fadd at_ lease) now))
  else Ok None.

Definition job_summary (row : dict) : json :=
  JObj [("job_id", dget "job_id" row); ("status", dget "status" row);
        ("updated_at", dget "updated_at" row);
        ("status_source", dget_or "status_source" row (JStr "jobs_store"))].

Definition recent_at (recent : dict) : res (option float) := _optional_float (dget "ts" recent).

(** The observation of what was read. *)
Definition lsm_observation (now : float) (task_id : string) (session plan : dict)
    (recent : json) (live : list float) (tracked : list dict) : res LsmObservation :=
  due ← continuation_due now plan;
  session_id ← text_field (dget "session_id" session);
  session_status ← text_field (dget "status" session);
  active_run ← text_field (dget "active_run_id" session);
  plan_status ← text_field (dget "status" plan);
  last_activity ← _optional_float (dget "last_agent_activity" plan);
  event_type ← field "type" recent;
  event_type ← text_field event_type;
  ts ← field "ts" recent;
  event_at ← _optional_float ts;
  steps ← step_items (dget "steps" plan);
  Ok (mkLsmObservation task_id now session_id session_status active_run plan_status last_activity
        due (if bool_decide (plan ≠ []) then Some (jtruthy (dget "continuation_pending" plan)) else None)
        (Z.of_nat (length live))
        (match live with [] => None | h :: hs => Some (fmax_list h hs) end)
        (count_status ACTIVE_JOB_STATES tracked) (count_status FAILED_JOB_STATES tracked)
        (count_status ["succeeded"] tracked) event_type event_at
        (Some (Z.of_nat (length (List.filter
           (λ s, is_one_of ["completed"; "skipped"] (json_str (dget "status" s))) steps))))
        (Some (Z.of_nat (length steps)))
        [("plan_id", dget "plan_id" plan); ("continuation_count", dget "continuation_count" plan);
         ("active_run_count", JInt (if jtruthy (dget "active_run_id" session) then 1 else 0));
         ("tracked_jobs", JList (job_summary <$> tracked))]).

Definition observe (task_id session_id : string) (tracked_job_ids : list string)
    : reader LsmObservation :=
  now ← clock;
  session ← session_payload session_id;
  recent ← lift (recent_event (dget "activity" session));
  live ← lift (live_heartbeats now (dget "in_flight_calls" session));
  payload ← jobs_payload;
  rows ← lift (object_items (dget_or "jobs" payload (JList [])));
  jobs ← effective_rows rows;
  let tracked := omap (rows_by_id jobs) tracked_job_ids in
  plan ← lift (match or_object (dget "plan" session) with
               | JObj d => Ok d
               | _ => raise AttributeError "object has no attribute 'get'"
               end);
  lift (lsm_observation now task_id session plan recent live tracked).

(** ** Where the jobs come from *)

Implicit Types w : World.

(** Nobody else touches the adapter; the files change as they like. *)
Context (private : ∀ n c, run_others n c = c).

Definition jobs_path : string := state_path "jobs.json".

Definition backup_path : string := state_path "jobs.json.bak".

(** Step [n] is one of those after [lo], up to [hi]. *)
Definition within (lo hi n : nat) : Prop := (lo < n)%nat ∧ (n ≤ hi)%nat.

(** A read of the jobs file that sends the reader to the backup *)
Definition unreadable (a : json + read_error) : Prop := a = inr Denied ∨ a = inr Malformed.

(** [v] is what the jobs file said between two steps, or what its backup said after a read of
    the file that was denied or no JSON. *)
Definition text_read (lo hi : nat) (v : json) : Prop :=
  ∃ m, within lo hi m ∧
    (read_text m jobs_path = inl v ∨
     read_text m backup_path = inl v ∧
     ∃ k, (lo < k)%nat ∧ (k < m)%nat ∧ unreadable (read_text k jobs_path)).

Definition jobs_read (lo hi : nat) (data : dict) : Prop :=
  version_is (dget "version" data) SUPPORTED_JOB_STORE_VERSION = true ∧
  text_read lo hi (JObj data).

(** The cache holds a reading that began when the jobs file had the time and size of its key. *)
Definition cache_ok (w : World) : Prop :=
  ∀ key data, _jobs_cache_key (w_store w) = Some key → _jobs_cache (w_store w) = Some data →
    ∃ n, path_stat n jobs_path = Some key ∧ jobs_read n (w_tick w) data.

(** The jobs of a reading between two steps: none, where the file is missing; a reading of now;
    or an earlier one, where the file has now the time and size that it had when that one began. *)
Definition jobs_source (lo hi : nat) (data : dict) : Prop :=
  (∃ j, within lo hi j ∧ path_exists j jobs_path = false ∧ data = no_jobs) ∨
  jobs_read lo hi data ∨
  ∃ j n key, within lo hi j ∧ path_stat j jobs_path = Some key ∧
    path_stat n jobs_path = Some key ∧ jobs_read n j data.

(** Nothing but time passes. *)
Definition idles (w w' : World) : Prop := w_store w' = w_store w ∧ (w_tick w ≤ w_tick w')%nat.

#[local] Instance idles_preorder : PreOrder idles.
Proof. split; [by intros w|]. intros w1 w2 w3 [H1 H2] [H3 H4]. split; [congruence|lia]. Qed.

Lemma idles_step : moves idles step.
Proof using private.
  intros w w' o. unfold step. cbv zeta. rewrite private.
  destruct (run_killed _); intros [= <- _]; (split; [done|cbn; lia]).
Qed.

Lemma idles_look {A} (f : nat → A) : moves idles (look f).
Proof using private.
  apply moves_bind; [apply _|apply idles_step|]. intros _ w w' o. unfold perform. cbv zeta.
  intros [= <- _]. by split.
Qed.

Lemma idles_tries retries prior path : moves idles (read_tries retries prior path).
Proof using private.
  revert prior. induction retries as [|retries IH]; intros prior; cbn [read_tries].
  { destruct prior; [apply moves_ret, _|apply moves_lift, _]. }
  apply moves_bind; [apply _|apply idles_look|]. intros [v|e]; [apply moves_ret, _|].
  destruct (retried e); [|apply moves_ret, _].
  apply moves_bind; [apply _|apply idles_step|]. intros _. apply IH.
Qed.

Lemma idles_or_raise path a : moves idles (or_raise path a).
Proof using Type. apply moves_lift, _. Qed.

Lemma look_Done {A} (f : nat → A) w w' a :
  look f w = (w', Done a) → a = f (w_tick w') ∧ w_tick w' = S (w_tick w) ∧ w_store w' = w_store w.
Proof using private.
  unfold look, ask, mbind, eff_bind, step. cbv zeta. rewrite private.
  destruct (run_killed _); [done|]. unfold perform. cbn. by intros [= <- <-].
Qed.

Lemma or_raise_Done path a w w' v : or_raise path a w = (w', Done v) → w' = w ∧ a = inl v.
Proof using Type. unfold or_raise, lift. destruct a; by intros [= <- <-]. Qed.


Lemma step_Done w w' now : step w = (w', Done now) → now = run_now (w_tick w).
Proof using Type. unfold step. cbv zeta. destruct (run_killed _); by intros [= _ <-]. Qed.

(** What a finished read found, at which step. *)
Lemma tries_found retries prior path w w' a :
  read_tries retries prior path w = (w', Done a) →
  (∃ m, (w_tick w < m)%nat ∧ (m ≤ w_tick w')%nat ∧ read_text m path = a) ∨
  retries = O ∧ a = inr (default Missing prior).
Proof using private.
  revert prior w. induction retries as [|retries IH]; intros prior w H; cbn [read_tries] in H.
  { right. split; [done|]. destruct prior; [by injection H as _ <-|done]. }
  left. apply bind_ran in H as [(w1 & x & Hx & H)|[_ H]]; [|by destruct (H a)].
  apply look_Done in Hx as (Hx & Ht & _).
  assert (∀ e, x = inr e → read_text (w_tick w1) path = inr e) as Hread by naive_solver.
  destruct x as [v|e].
  { injection H as <- <-. exists (w_tick w1). split_and!; [lia|lia|done]. }
  destruct (retried e).
  - apply bind_ran in H as [(w2 & t & Hs & H)|[_ H]]; [|by destruct (H a)].
    pose proof (idles_step _ _ _ Hs) as [_ H2].
    destruct (idles_tries _ _ _ _ _ _ H) as [_ H3].
    apply IH in H as [(m & Hm1 & Hm2 & H)|[_ ->]].
    + exists m. split_and!; [lia|lia|done].
    + exists (w_tick w1). split_and!; [lia|lia|by apply Hread].
  - injection H as <- <-. exists (w_tick w1). split_and!; [lia|lia|by apply Hread].
Qed.

Lemma data_found w w' v :
  jobs_data jobs_path w = (w', Done v) → text_read (w_tick w) (w_tick w') v.
Proof using private.
  intros [(w1 & a & Ha & H)|[_ H]]%bind_ran; [|by destruct (H v)].
  apply tries_found in Ha as [(k & K1 & K2 & Hk)|[[=] _]].
  assert (∀ e, a = inr e → or_raise jobs_path a w1 = (w', Done v) → False) as Hraise.
  { by intros e -> [_ [=]]%or_raise_Done. }
  destruct a as [x|e]; [injection H as <- <-; exists k; split; [done|by left]|].
  assert (unreadable (inr e) →
    (there ← look (λ n, path_exists n backup_path);
     if negb there then or_raise jobs_path (inr e)
     else b ← _read_json backup_path 3; or_raise backup_path b) w1 = (w', Done v) →
    text_read (w_tick w) (w_tick w') v) as Hbackup.
  { intros He [(w2 & there & Hl & H')|[_ H']]%bind_ran; [|by destruct (H' v)].
    apply look_Done in Hl as (_ & T2 & _). destruct there; cbn [negb] in H'; [|by edestruct Hraise].
    apply bind_ran in H' as [(w3 & b & Hb & H')|[_ H']]; [|by destruct (H' v)].
    apply or_raise_Done in H' as [-> ->].
    apply tries_found in Hb as [(m & M1 & M2 & Hm)|[[=] _]].
    exists m. split; [split; lia|]. right. split; [done|]. exists k. rewrite Hk. split_and!; [lia|lia|done]. }
  destruct e; try (by edestruct Hraise); (apply Hbackup; [by (left + right)|exact H]).
Qed.

Lemma idles_data path : moves idles (jobs_data path).
Proof using private.
  apply moves_bind; [apply _|apply idles_tries|]. intros [v|e]; [apply moves_ret, _|].
  assert (moves idles (there ← look (λ n, path_exists n (state_path "jobs.json.bak"));
    if negb there then or_raise path (inr e)
    else b ← _read_json (state_path "jobs.json.bak") 3; or_raise (state_path "jobs.json.bak") b)) as Hb.
  { apply moves_bind; [apply _|apply idles_look|]. intros [].
    - apply moves_bind; [apply _|apply idles_tries|]. intros b. apply idles_or_raise.
    - apply idles_or_raise. }
  destruct e; try apply idles_or_raise; exact Hb.
Qed.

Lemma text_read_later lo hi hi' v : (hi ≤ hi')%nat → text_read lo hi v → text_read lo hi' v.
Proof using Type. intros Hle (m & [H1 H2] & H). exists m. split; [split; lia|done]. Qed.

Lemma text_read_earlier lo lo' hi v : (lo' ≤ lo)%nat → text_read lo hi v → text_read lo' hi v.
Proof using Type.
  intros Hle (m & [H1 H2] & H). exists m. split; [split; lia|].
  destruct H as [H|(H & k & K1 & K2 & Hk)]; [by left|]. right. split; [done|].
  exists k. split_and!; [lia|lia|done].
Qed.

Lemma jobs_read_later lo hi hi' d : (hi ≤ hi')%nat → jobs_read lo hi d → jobs_read lo hi' d.
Proof using Type. intros Hle [Hv H]. split; [done|]. by eapply text_read_later. Qed.

Lemma jobs_read_earlier lo lo' hi d : (lo' ≤ lo)%nat → jobs_read lo hi d → jobs_read lo' hi d.
Proof using Type. intros Hle [Hv H]. split; [done|]. by eapply text_read_earlier. Qed.

Lemma idles_ok w w' : idles w w' → cache_ok w → cache_ok w'.
Proof using Type.
  intros [Hs Ht] H key data. rewrite Hs. intros H1 H2.
  destruct (H _ _ H1 H2) as (n & Hn & Hr). exists n. split; [done|]. by eapply jobs_read_later.
Qed.

(** What a hit gives was read under the time and size that the file has. *)
Lemma hit_has_source w key data :
  cache_ok w → cached key (w_store w) = Some data →
  ∃ k n, key = Some k ∧ path_stat n jobs_path = Some k ∧ jobs_read n (w_tick w) data.
Proof using Type.
  intros Hok. unfold cached.
  destruct key as [k|]; [|by rewrite bool_decide_false by (by intros [])].
  rewrite (bool_decide_true (is_Some _)) by by eexists. cbn [andb]. case_bool_decide as E; [|done].
  intros Hc. destruct (Hok k data (eq_sym E) Hc) as (n & Hn & Hr). by exists k, n.
Qed.

(** What a run keeps: a valid cache, and time. *)
Definition keeps_cache (w w' : World) : Prop :=
  (w_tick w ≤ w_tick w')%nat ∧ (cache_ok w → cache_ok w').

#[local] Instance keeps_cache_preorder : PreOrder keeps_cache.
Proof. split; [by intros w|]. intros w1 w2 w3 [H1 H2] [H3 H4]. split; [lia|auto]. Qed.

Lemma idles_keeps w w' : idles w w' → keeps_cache w w'.
Proof using Type. intros H. split; [apply H|by apply idles_ok]. Qed.

Lemma moves_keeps {A} (m : reader A) : moves idles m → moves keeps_cache m.
Proof using Type. intros H w w' o E. by apply idles_keeps, (H _ _ _ E). Qed.

(** A fresh answer is stored under the key of a moment before it was read. *)
Lemma store_answer w w1 w2 key data o :
  path_stat (w_tick w) jobs_path = key → jobs_read (w_tick w) (w_tick w1) data →
  keeps_cache w w1 →
  (if bool_decide (is_Some key)
   then apply_part (λ _, (mkFileLsmTelemetry key (Some data), Ok tt)) else mret tt) w1 = (w2, o) →
  o = Done tt ∧ w_tick w2 = w_tick w1 ∧ keeps_cache w w2.
Proof using Type.
  intros Hk Hr Hw. case_bool_decide as E.
  - unfold apply_part. intros [= <- <-]. split_and!; [done|done|]. split; [cbn; apply Hw|].
    intros _ k d. cbn. intros -> [= <-]. by exists (w_tick w).
  - by intros [= <- <-].
Qed.

Lemma jobs_sourced w w' o :
  cache_ok w → jobs_payload w = (w', o) →
  keeps_cache w w' ∧ ∀ data, o = Done data → jobs_source (w_tick w) (w_tick w') data.
Proof using private.
  intros Hok H. unfold jobs_payload in H. fold jobs_path in H. cbv zeta in H.
  apply bind_ran in H as [(w1 & there & Hl & H)|[(o' & Hl & _) Ho]];
    [|split; [by apply idles_keeps, (idles_look _ _ _ _ Hl)|intros d ->; by destruct (Ho d)]].
  pose proof (idles_keeps _ _ (idles_look _ _ _ _ Hl)) as K1.
  apply look_Done in Hl as (-> & T1 & S1).
  destruct (path_exists (w_tick w1) jobs_path) eqn:Ex; cbn [negb] in H.
  2: { injection H as <- <-. split; [done|]. intros d [= <-]. left. exists (w_tick w1).
       split_and!; [|done|done]. split; lia. }
  apply bind_ran in H as [(w2 & key & Hl & H)|[(o' & Hl & _) Ho]].
  2: { split; [etrans; [exact K1|by apply idles_keeps, (idles_look _ _ _ _ Hl)]|].
       intros d ->; by destruct (Ho d). }
  pose proof (idles_look _ _ _ _ Hl) as I2. pose proof (idles_keeps _ _ I2) as K2.
  apply look_Done in Hl as (Hkey & T2 & S2). symmetry in Hkey.
  assert (keeps_cache w w2) as K by (by etrans).
  unfold the_cache, apply_part in H. unfold mbind at 1, eff_bind at 1 in H. cbv beta iota in H.
  assert ((w2 <| w_store := w_store w2 |>) = w2) as Eta by by destruct w2. rewrite Eta in H.
  destruct (cached key (w_store w2)) as [data|] eqn:Ec.
  { injection H as <- <-. split; [done|]. intros d [= <-]. right. right.
    destruct (hit_has_source w key data Hok) as (k & n & -> & Hn & Hr); [by rewrite <- S1, <- S2|].
    exists (w_tick w2), n, k. split_and!; [split; lia|done|done|].
    eapply jobs_read_later; [|exact Hr]. lia. }
  apply bind_ran in H as [(w3 & v & Hd & H)|[(o' & Hl & _) Ho]].
  2: { split; [etrans; [exact K|by apply idles_keeps, (idles_data _ _ _ _ Hl)]|].
       intros d ->; by destruct (Ho d). }
  pose proof (idles_keeps _ _ (idles_data _ _ _ _ Hd)) as K3.
  apply data_found in Hd as Hm.
  assert (keeps_cache w w3) as Kw by (by etrans).
  destruct v as [| | | | | |data]; try (injection H as <- <-; by split).
  destruct (version_is _ _) eqn:Ev; cbn [negb] in H; [|injection H as <- <-; by split].
  assert (jobs_read (w_tick w2) (w_tick w3) data) as Hread by done.
  apply bind_ran in H as [(w4 & [] & Hs & H)|[(o' & Hs & Hno) Ho]];
    destruct (store_answer w2 w3 _ key data _ Hkey Hread K3 Hs) as (Eo & T4 & K4);
    [|by destruct (Hno tt)].
  injection H as <- <-. split; [etrans; [exact K|exact K4]|]. intros d [= <-]. right. left.
  rewrite T4. eapply jobs_read_earlier; [|exact Hread]. lia.
Qed.

Lemma jobs_source_wider lo hi lo' hi' data :
  (lo' ≤ lo)%nat → (hi ≤ hi')%nat → jobs_source lo hi data → jobs_source lo' hi' data.
Proof using Type.
  intros Hlo Hhi [(j & [J1 J2] & H)|[H|(j & n & key & [J1 J2] & H1 & H2 & H3)]].
  - left. exists j. split; [split; lia|done].
  - right. left. eapply jobs_read_later; [exact Hhi|]. by eapply jobs_read_earlier.
  - right. right. exists j, n, key. split; [split; lia|done].
Qed.

(** Where files of the same time and size have the same text, a cached answer of the file itself
    is its content of now.  (A backup that was read once stays, whatever the file says.) *)
Lemma cached_jobs_are_current lo hi data :
  (∀ n m k key v, (n < m)%nat → (m ≤ k)%nat → path_stat n jobs_path = Some key →
     path_stat k jobs_path = Some key → read_text m jobs_path = inl v →
     read_text k jobs_path = inl v) →
  jobs_source lo hi data →
  (∃ j, within lo hi j ∧
     (path_exists j jobs_path = false ∧ data = no_jobs ∨ read_text j jobs_path = inl (JObj data))) ∨
  ∃ k m, (k < m)%nat ∧ (m ≤ hi)%nat ∧ unreadable (read_text k jobs_path) ∧
    read_text m backup_path = inl (JObj data).
Proof using Type.
  intros Htells [(j & Hj & H)|[[_ (m & Hm & H)]|(j & n & key & [J1 J2] & Hkj & Hkn & _ & m & [M1 M2] & H)]].
  - left. exists j. auto.
  - destruct H as [H|(H & k & _ & K & Hk)]; [left; exists m; auto|].
    right. exists k, m. split_and!; [done|apply Hm|done|done].
  - destruct H as [H|(H & k & _ & K & Hk)].
    + left. exists j. split; [done|]. right. by apply (Htells n m j key); [|lia|..].
    + right. exists k, m. split_and!; [done|lia|done|done].
Qed.

(** ** What an observation rests on *)

(** The file that may hold the terminal fact of a row: the one that the row names, while it is
    active. *)
Definition status_file (row : dict) : option string :=
  let named := dget (if String.eqb (job_status row) "retrying" then "pending_status_path"
                     else "status_path") row in
  if is_one_of ACTIVE_JOB_STATES (job_status row) && jtruthy named &&
     negb (startswith "state://" (json_str named))
  then Some (json_str named) else None.

(** The status file of a row states the end of the job. *)
Definition ended (lo hi : nat) (row payload : dict) : Prop :=
  ∃ path n, status_file row = Some path ∧ within lo hi n ∧
    read_text n path = inl (JObj payload) ∧ dmem "exit_code" payload = true.

(** What became of a row between two steps: it is overlaid with the end that its status file
    stated, or it is what it was, its status file stating no end. *)
Definition settled (lo hi : nat) (row job : dict) : Prop :=
  (∃ payload, ended lo hi row payload ∧ job = overlaid row payload) ∨
  job = row ∧
  ∀ path, status_file row = Some path →
    ∃ n, within lo hi n ∧
      ∀ payload, read_text n path = inl (JObj payload) → dmem "exit_code" payload = false.

Lemma settled_wider lo hi lo' hi' row job :
  (lo' ≤ lo)%nat → (hi ≤ hi')%nat → settled lo hi row job → settled lo' hi' row job.
Proof using Type.
  intros Hlo Hhi [(payload & (path & n & Hp & [N1 N2] & H) & E)|[E H]].
  - left. exists payload. split; [|done]. exists path, n. split_and!; [done| |apply H..].
    split; lia.
  - right. split; [done|]. intros path (n & [N1 N2] & Hn)%H. exists n. split; [split; lia|done].
Qed.

Lemma effective_job_file row :
  _effective_job row =
  match status_file row with
  | None => mret row
  | Some path =>
      a ← _read_json path 1;
      match a with
      | inl (JObj payload) =>
          mret (if dmem "exit_code" payload then overlaid row payload else row)
      | inl _ => mret row
      | inr Undecodable => or_raise path a;; mret row
      | inr _ => mret row
      end
  end.
Proof using Type.
  unfold _effective_job, status_file. cbv zeta.
  destruct (is_one_of _ _); [|done]. destruct (jtruthy _); [|done]. by destruct (startswith _ _).
Qed.

Lemma effective_job_settled row w w' job :
  _effective_job row w = (w', Done job) → settled (w_tick w) (w_tick w') row job.
Proof using private.
  rewrite effective_job_file. unfold settled, ended.
  destruct (status_file row) as [path|]; [|intros [= _ <-]; by right].
  intros [(w1 & a & Ha & H)|[_ H]]%bind_ran; [|by destruct (H job)].
  apply tries_found in Ha as [(m & M1 & M2 & Hm)|[[=] _]].
  assert (w1 = w' ∧
    ((∃ payload, a = inl (JObj payload) ∧ dmem "exit_code" payload = true ∧ job = overlaid row payload) ∨
     job = row ∧ ∀ payload, a = inl (JObj payload) → dmem "exit_code" payload = false))
    as (-> & [(payload & -> & Hp & ->)|[-> Hno]]).
  { destruct a as [[| | | | | |payload]|e]; try (injection H as <- <-; split; [done|by right]).
    - destruct (dmem "exit_code" payload) eqn:Ed; injection H as <- <-; split; [done| |done|].
      + left. by exists payload.
      + right. split; [done|]. by intros p [= <-].
    - destruct e; try (injection H as <- <-; split; [done|by right]).
      apply bind_ran in H as [(w2 & v & [_ [=]]%or_raise_Done & _)|[_ H]]. by destruct (H job). }
  - left. exists payload. split; [|done]. exists path, m. split_and!; [done|split; lia|done|done].
  - right. split; [done|]. intros q [= <-]. exists m. split; [split; lia|]. rewrite Hm. exact Hno.
Qed.

Definition has_id (row : dict) : bool := jtruthy (dget "job_id" row).

(** The jobs that a reading works with: the rows with an id, each as it was settled. *)
Definition settled_rows (lo hi : nat) (rows : list dict) (jobs : list (string * dict)) : Prop :=
  Forall2 (λ row x, x.1 = json_str (dget "job_id" row) ∧ settled lo hi row x.2)
    (List.filter has_id rows) jobs.

Lemma settled_rows_wider lo hi lo' hi' rows jobs :
  (lo' ≤ lo)%nat → (hi ≤ hi')%nat → settled_rows lo hi rows jobs → settled_rows lo' hi' rows jobs.
Proof using Type.
  intros Hlo Hhi H. eapply Forall2_impl; [exact H|]. intros row x [? ?].
  split; [done|]. by eapply settled_wider.
Qed.

(** A job that counts for a final status has it from its row or from its status file. *)
Lemma final_status lo hi row job s :
  settled lo hi row job → json_str (dget "status" job) = s →
  json_str (dget "status" row) = s ∨
  ∃ payload, ended lo hi row payload ∧
    s = if json_eq (dget "exit_code" payload) (JInt 0) then "succeeded" else "failed".
Proof using Type.
  intros [(payload & He & ->)|[-> _]] Hs; [|by left]. right. exists payload. split; [done|].
  rewrite <- Hs. unfold overlaid. cbv zeta. unfold dupdate. cbn [foldl fst snd].
  do 5 rewrite dget_dset_ne by done. by rewrite dget_dset_eq.
Qed.

Lemma idles_effective row : moves idles (_effective_job row).
Proof using private.
  unfold _effective_job. cbv zeta. destruct (negb _); [apply moves_ret, _|].
  destruct (_ || _); [apply moves_ret, _|].
  apply moves_bind; [apply _|apply idles_tries|]. intros [v|e].
  - destruct v; apply moves_ret, _.
  - destruct e; try apply moves_ret, _.
    apply moves_bind; [apply _|apply idles_or_raise|]. intros _. apply moves_ret, _.
Qed.

Lemma idles_rows rows : moves idles (effective_rows rows).
Proof using private.
  induction rows as [|row rows IH]; cbn [effective_rows]; [apply moves_ret, _|].
  destruct (jtruthy _); [|exact IH].
  apply moves_bind; [apply _|apply idles_effective|]. intros job.
  apply moves_bind; [apply _|exact IH|]. intros jobs. apply moves_ret, _.
Qed.

Lemma effective_rows_settled rows w w' jobs :
  effective_rows rows w = (w', Done jobs) → settled_rows (w_tick w) (w_tick w') rows jobs.
Proof using private.
  revert w w' jobs. unfold settled_rows.
  induction rows as [|row rows IH]; intros w w' jobs; cbn [effective_rows List.filter].
  { by intros [= _ <-]. }
  unfold has_id at 1. destruct (jtruthy _); [|by apply IH].
  intros [(w1 & job & Hj & H)|[_ H]]%bind_ran; [|by destruct (H jobs)].
  pose proof (idles_effective _ _ _ _ Hj) as [_ T1].
  apply bind_ran in H as [(w2 & js & Hjs & H)|[_ H]]; [|by destruct (H jobs)].
  pose proof (idles_rows _ _ _ _ Hjs) as [_ T2].
  injection H as <- <-. constructor.
  - split; [done|]. cbn. eapply settled_wider; [|exact T2|by apply effective_job_settled]. done.
  - eapply settled_rows_wider; [exact T1| |by apply IH]. done.
Qed.

(** A job counts for one status at most. *)
Lemma counts_exclusive jobs :
  count_status ACTIVE_JOB_STATES jobs + count_status FAILED_JOB_STATES jobs +
  count_status ["succeeded"] jobs ≤ Z.of_nat (length jobs).
Proof using Type.
  unfold count_status. induction jobs as [|row jobs IH]; [done|]. cbn [List.filter].
  assert (∀ s, (if is_one_of ACTIVE_JOB_STATES s then 1 else 0) +
    (if is_one_of FAILED_JOB_STATES s then 1 else 0) +
    (if is_one_of ["succeeded"] s then 1 else 0) ≤ 1) as H1.
  { intros s. unfold is_one_of. cbn.
    repeat match goal with |- context [String.eqb s ?x] =>
      destruct (String.eqb_spec s x) as [-> |]; [by vm_compute|] end. done. }
  specialize (H1 (json_str (dget "status" row))).
  repeat match type of H1 with context [is_one_of ?l ?s] => destruct (is_one_of l s) end;
    cbn [length]; lia.
Qed.

(** The calls in flight: the heartbeats of all the leases of the session that are live. *)
Definition in_flight (now : float) (session : dict) (live : list float) : Prop :=
  ∃ leases heartbeats, or_object (dget "in_flight_calls" session) = JObj leases ∧
    Forall2 (λ lease h, heartbeat_of lease.2 = Ok h) leases heartbeats ∧
    live = List.filter (is_live now) heartbeats.

Lemma live_in_flight now session live :
  live_heartbeats now (dget "in_flight_calls" session) = Ok live → in_flight now session live.
Proof using Type.
  unfold live_heartbeats, in_flight. destruct (or_object _) as [| | | | | |leases]; try done.
  intros (hs & Hs & [= <-])%bind_Ok. exists leases, hs. split_and!; [done| |done].
  revert hs Hs. induction leases as [|[k v] leases IH]; intros hs; cbn.
  { intros [= <-]. constructor. }
  intros (h & Hh & (hs' & Hs' & [= <-])%bind_Ok)%bind_Ok. constructor; [done|by apply IH].
Qed.

Lemma in_flight_live now session live :
  in_flight now session live → Forall (λ h, is_live now h = true) live.
Proof using Type.
  intros (leases & hs & _ & _ & ->). apply List.Forall_forall. intros h Hh%List.filter_In. apply Hh.
Qed.

(** The session is what its own file said between two steps, in a version that is understood. *)
Definition session_source (lo hi : nat) (session_id : string) (session : dict) : Prop :=
  version_is (dget "version" session) SUPPORTED_SESSION_STATE_VERSION = true ∧
  ∃ m, within lo hi m ∧
    read_text m (state_path ("sessions/" +:+ session_id +:+ ".json")) = inl (JObj session).

Lemma session_sourced id w w' session :
  session_payload id w = (w', Done session) → session_source (w_tick w) (w_tick w') id session.
Proof using private.
  unfold session_payload. cbv zeta.
  intros [(w1 & a & Ha & H)|[_ H]]%bind_ran; [|by destruct (H session)].
  apply tries_found in Ha as [(m & H1 & H2 & Hm)|[[=] _]].
  apply bind_ran in H as [(w2 & v & [-> ->]%or_raise_Done & H)|[_ H]]; [|by destruct (H session)].
  destruct v; try done. destruct (version_is _ _) eqn:Ev; [|done]. injection H as <- <-.
  split; [done|]. by exists m.
Qed.

Lemma idles_session id : moves idles (session_payload id).
Proof using private.
  apply moves_bind; [apply _|apply idles_tries|]. intros a.
  apply moves_bind; [apply _|apply idles_or_raise|]. intros v. cbv zeta.
  destruct v; try apply moves_lift, _.
  destruct (version_is _ _); [apply moves_ret, _|apply moves_lift, _].
Qed.

(** The part of a reading after the jobs *)
Lemma idles_rest now task_id session recent live payload ids :
  moves idles (rows ← lift (object_items (dget_or "jobs" payload (JList [])));
    jobs ← effective_rows rows;
    plan ← lift (match or_object (dget "plan" session) with
                 | JObj d => Ok d
                 | _ => raise AttributeError "object has no attribute 'get'"
                 end);
    lift (lsm_observation now task_id session plan recent live (omap (rows_by_id jobs) ids))).
Proof using private.
  apply moves_bind; [apply _|apply moves_lift, _|]. intros rows.
  apply moves_bind; [apply _|apply idles_rows|]. intros jobs.
  apply moves_bind; [apply _|apply moves_lift, _|]. intros plan. apply moves_lift, _.
Qed.

(** The cache stays valid whatever a reading does. *)
Lemma observe_keeps_cache task_id session_id ids : holds cache_ok (observe task_id session_id ids).
Proof using private.
  assert (∀ {A} (m : reader A), moves idles m → holds cache_ok m) as Hi.
  { intros A m Hm. eapply moves_holds; [exact Hm|apply idles_ok]. }
  apply holds_bind; [apply Hi, idles_step|intros now].
  apply holds_bind; [apply Hi, idles_session|intros session].
  apply holds_bind; [apply Hi, moves_lift, _|intros recent].
  apply holds_bind; [apply Hi, moves_lift, _|intros live].
  apply holds_bind; [|intros payload; apply Hi, idles_rest].
  intros w w' o Hw H. destruct (jobs_sourced _ _ _ Hw H) as [[_ K] _]. destruct o; by apply K.
Qed.

Lemma lsm_observation_Ok now task_id session plan recent live tracked obs :
  lsm_observation now task_id session plan recent live tracked = Ok obs →
  lo_observed_at obs = now ∧ lo_task_id obs = task_id ∧
  lo_in_flight_calls obs = Z.of_nat (length live) ∧
  lo_freshest_in_flight_heartbeat obs =
    (match live with [] => None | h :: hs => Some (fmax_list h hs) end) ∧
  lo_active_jobs obs = count_status ACTIVE_JOB_STATES tracked ∧
  lo_failed_jobs obs = count_status FAILED_JOB_STATES tracked ∧
  lo_succeeded_jobs obs = count_status ["succeeded"] tracked.
Proof using Type.
  unfold lsm_observation. do 11 (intros (? & _ & H)%bind_Ok; revert H). by intros [= <-].
Qed.

Lemma tracked_length jobs (ids : list string) : (length (omap (rows_by_id jobs) ids) ≤ length ids)%nat.
Proof using Type. induction ids as [|id ids IH]; cbn; [lia|]. destruct (rows_by_id jobs id); cbn; lia. Qed.

(** A tracked job is one of the settled rows, under its own id. *)
Lemma tracked_row lo hi rows jobs (ids : list string) (job : dict) :
  settled_rows lo hi rows jobs → job ∈ omap (rows_by_id jobs) ids →
  ∃ row, row ∈ rows ∧ json_str (dget "job_id" row) ∈ ids ∧ settled lo hi row job.
Proof using Type.
  intros Hs (id & Hid & H)%list_elem_of_omap.
  unfold rows_by_id in H. apply fmap_Some in H as (x & Hx & ->).
  apply List.find_some in Hx as [Hin%List.in_rev E%String.eqb_eq].
  apply list_elem_of_In, list_elem_of_lookup in Hin as [n Hn].
  destruct (Forall2_lookup_r _ _ _ _ _ Hs Hn) as (row & Hrow & Hid' & Hset).
  exists row. split_and!; [|by rewrite <- Hid', E|done].
  apply list_elem_of_lookup_2, list_elem_of_In, List.filter_In in Hrow as [Hrow _].
  by apply list_elem_of_In.
Qed.

(** What an observation says in the words of the parts it was made of. *)
Record rests_on (session data : dict) (jobs : list (string * dict)) (lo hi : nat)
    (task_id session_id : string) (ids : list string) (obs : LsmObservation) : Prop := {
  ro_session : session_source lo hi session_id session;
  ro_jobs : jobs_source lo hi data;
  ro_rows : ∃ rows, object_items (dget_or "jobs" data (JList [])) = Ok rows ∧
    settled_rows lo hi rows jobs;
  ro_observation : ∃ plan recent live,
    or_object (dget "plan" session) = JObj plan ∧
    recent_event (dget "activity" session) = Ok recent ∧
    in_flight (lo_observed_at obs) session live ∧
    lsm_observation (lo_observed_at obs) task_id session plan recent live
      (omap (rows_by_id jobs) ids) = Ok obs;
}.

Lemma observe_rests task_id session_id ids w w' obs :
  cache_ok w → observe task_id session_id ids w = (w', Done obs) →
  lo_observed_at obs = run_now (w_tick w) ∧
  ∃ session data jobs,
    rests_on session data jobs (w_tick w) (w_tick w') task_id session_id ids obs.
Proof using private.
  intros Hok H. unfold observe in H.
  apply bind_ran in H as [(w1 & now & Hc & H)|[_ H]]; [|by destruct (H obs)].
  pose proof (idles_step _ _ _ Hc) as I1. apply step_Done in Hc as ->.
  apply bind_ran in H as [(w2 & session & Hs & H)|[_ H]]; [|by destruct (H obs)].
  pose proof (idles_session _ _ _ _ Hs) as I2. apply session_sourced in Hs as [Hv (m & [M1 M2] & Hm)].
  apply bind_ran in H as [(w3 & recent & [-> Hrecent]%lift_Done & H)|[_ H]]; [|by destruct (H obs)].
  apply bind_ran in H as [(w3 & live & [-> Hlive]%lift_Done & H)|[_ H]]; [|by destruct (H obs)].
  apply bind_ran in H as [(w3 & data & Hj & H)|[_ H]]; [|by destruct (H obs)].
  assert (cache_ok w2) as Hok2 by (eapply idles_ok; [exact I2|by eapply idles_ok]).
  destruct (jobs_sourced _ _ _ Hok2 Hj) as [[K _] Hat]. specialize (Hat data eq_refl).
  destruct (idles_rest _ _ _ _ _ _ _ _ _ _ H) as [_ I3].
  apply bind_ran in H as [(w4 & rows & [-> Hr]%lift_Done & H)|[_ H]]; [|by destruct (H obs)].
  apply bind_ran in H as [(w4 & jobs & Hjobs & H)|[_ H]]; [|by destruct (H obs)].
  apply bind_ran in H as [(w5 & plan & [-> Hplan]%lift_Done & H)|[_ H]]; [|by destruct (H obs)].
  apply lift_Done in H as [-> H]. pose proof H as (Hnow & _)%lsm_observation_Ok.
  destruct I1 as [_ I1], I2 as [_ I2]. split; [done|]. exists session, data, jobs. split.
  - split; [done|]. exists m. split; [split; lia|done].
  - eapply jobs_source_wider; [| |exact Hat]; lia.
  - exists rows. split; [done|]. eapply settled_rows_wider; [| |by apply effective_rows_settled]; lia.
  - exists plan, recent, live. rewrite Hnow. split_and!; [|done|by apply live_in_flight|done].
    destruct (or_object _); try done. by injection Hplan as ->.
Qed.

(** C13: The evidence that a local shell gives is durable and current, whatever happens to the
    files between two accesses.  The clock is read first; the session is what the file of that
    session then said, in the supported version.  The jobs are none only when the jobs file was
    missing; else they are what the file said during the reading, or its backup after a read
    that was denied or broken, or such an earlier reading that began when the file had the time
    and size that it has during this one.  Every row with an id is settled: overlaid with the
    end that its own status file stated during the reading, or left as it is where that file
    stated none; so no job is reported dead because nothing was found, and a job that counts as
    failed is failed in its row or has an exit code.  The observation is the one of that
    session, its plan and last activity, all its calls with a heartbeat within the lease, and
    the settled rows of the tracked ids.  A job counts for one status at most. *)
Theorem lsm_evidence_is_current task_id session_id ids w w' o :
  cache_ok w → observe task_id session_id ids w = (w', o) →
  cache_ok w' ∧
  ∀ obs, o = Done obs →
    lo_observed_at obs = run_now (w_tick w) ∧
    ∃ session data jobs,
      rests_on session data jobs (w_tick w) (w_tick w') task_id session_id ids obs ∧
      let tracked := omap (rows_by_id jobs) ids in
      (∀ job, job ∈ tracked → is_one_of FAILED_JOB_STATES (json_str (dget "status" job)) = true →
         ∃ row, json_str (dget "job_id" row) ∈ ids ∧
           (is_one_of FAILED_JOB_STATES (json_str (dget "status" row)) = true ∨
            ∃ payload, ended (w_tick w) (w_tick w') row payload ∧
              json_eq (dget "exit_code" payload) (JInt 0) = false)) ∧
      lo_active_jobs obs = count_status ACTIVE_JOB_STATES tracked ∧
      lo_failed_jobs obs = count_status FAILED_JOB_STATES tracked ∧
      lo_succeeded_jobs obs = count_status ["succeeded"] tracked ∧
      lo_active_jobs obs + lo_failed_jobs obs + lo_succeeded_jobs obs ≤ Z.of_nat (length ids) ∧
      ∃ live, in_flight (lo_observed_at obs) session live ∧
        lo_in_flight_calls obs = Z.of_nat (length live) ∧
        Forall (λ h, is_live (lo_observed_at obs) h = true) live ∧
        (lo_freshest_in_flight_heartbeat obs = None ↔ lo_in_flight_calls obs = 0).
Proof using private.
  intros Hok H. split.
  { pose proof (observe_keeps_cache task_id session_id ids w w' o Hok H). by destruct o. }
  intros obs ->. destruct (observe_rests _ _ _ _ _ _ Hok H) as (Hnow & session & data & jobs & R).
  split; [done|]. exists session, data, jobs. split; [done|]. cbv zeta.
  destruct (ro_rows _ _ _ _ _ _ _ _ _ R) as (rows & _ & Hset).
  destruct (ro_observation _ _ _ _ _ _ _ _ _ R) as (plan & recent & live & _ & _ & Hl & Hobs).
  apply lsm_observation_Ok in Hobs as (_ & _ & Hf & Hfr & Ha & Hfa & Hsu).
  rewrite Hf, Hfr, Ha, Hfa, Hsu. split_and!; try done.
  - intros job Hin Hst. destruct (tracked_row _ _ _ _ _ _ Hset Hin) as (row & _ & Hid & Hs).
    exists row. split; [done|]. destruct (final_status _ _ _ _ _ Hs eq_refl) as [->|(p & He & E)];
      [by left|]. right. exists p. split; [done|]. rewrite E in Hst.
    by destruct (json_eq _ _).
  - pose proof (counts_exclusive (omap (rows_by_id jobs) ids)).
    pose proof (tracked_length jobs ids). lia.
  - exists live. split_and!; [done|done|by eapply in_flight_live|by destruct live..].
Qed.

End Lsm.

(** ** workspace.py *)

(** How a git command ended: it ran, or the call raised an [OSError] or timed out. *)
Inductive git_answer :=
  | GitRan (returncode : Z) (stdout stderr : string)
  | GitRaised (e : exn).

(** The working directory and git, during one observation: each command is run once.
    [path_str] is [str(Path(_))]. *)
Class GitWorkspace := {
  path_str : string → string;
  cwd_present : string → bool;
  git_bin : option string;
  _run_git : string → list string → git_answer;
}.

(** [s.splitlines()] *)
Fixpoint lines_from (fuel : nat) (line : string) (s : string) : list string :=
  match fuel, s with
  | S n, String a s' =>
      match drop_any ((byte_str 13 +:+ byte_str 10) :: line_ends) s with
      | Some rest => line :: lines_from n "" rest
      | None => lines_from n (line +:+ String a "") s'
      end
  | _, _ => if str_truthy line then [line] else []
  end.

Definition splitlines (s : string) : list string := lines_from (String.length s) "" s.

Section Workspace.
Context {tables : UnicodeTables} {digests : Digests} {git : GitWorkspace}.
Context {fmt : Formatting}.

(** [max(1, int(max_status_entries))] *)
Context (max_status_entries : nat).

Definition text_or (s other : string) : string := if str_truthy s then s else other.

Definition exited (command : string) (returncode : Z) : string :=
  "git " +:+ command +:+ " exited " +:+ json_repr (JInt returncode).

(** An observation without the status of git. *)
Definition without_status (task_id cwd : string) (now : float) (exists_ : bool)
    (is_repo : option bool) (root head : option string) (error : option string)
    : WorkspaceObservation :=
  mkWorkspaceObservation task_id now cwd exists_ is_repo root head None None None [] error [].

(** [stdout.strip()] of a command that succeeded; a failure is not an error of the probe. *)
Definition answer_of (root : string) (args : list string) : option string :=
  match _run_git root args with
  | GitRan 0 stdout _ => Some (strip stdout)
  | _ => None
  end.

Definition status_args : list string := ["status"; "--porcelain=v1"; "--untracked-files=normal"].

(** [line for line in stdout.splitlines() if line] *)
Definition status_entries (stdout : string) : list string :=
  List.filter str_truthy (splitlines stdout).

Definition toplevel (stdout cwd : string) : string :=
  default cwd (head (List.filter str_truthy (strip <$> splitlines stdout))).

Definition observe_repository (task_id path git_root : string) (now : float) : WorkspaceObservation :=
  let root := path_str git_root in
  let git_head := answer_of root ["rev-parse"; "--verify"; "HEAD"] in
  let git_branch := answer_of root ["branch"; "--show-current"] in
  match _run_git root status_args with
  | GitRaised e =>
      without_status task_id path now true (Some true) (Some git_root) git_head
        (Some ("git status failed: " +:+ exn_text e))
  | GitRan 0 stdout _ =>
      let entries := status_entries stdout in
      mkWorkspaceObservation task_id now path true (Some true) (Some git_root) git_head git_branch
        (Some (bool_decide (entries ≠ []))) (Some (sha256_text stdout))
        (take max_status_entries entries) None
        [("git_status_truncated", JBool (Nat.ltb max_status_entries (length entries)))]
  | GitRan code _ stderr =>
      without_status task_id path now true (Some true) (Some git_root) git_head
        (Some (text_or (strip stderr) (exited "status" code)))
  end.

(** [WorkspaceProbe.observe] *)
Definition observe_workspace (task_id cwd : string) (now : float) : WorkspaceObservation :=
  let path := path_str cwd in
  if negb (cwd_present path)
  then without_status task_id path now false None None None (Some "working directory does not exist") else
  if negb (opt_truthy git_bin)
  then without_status task_id path now true None None None (Some "git executable not found") else
  match _run_git path ["rev-parse"; "--show-toplevel"] with
  | GitRaised e =>
      without_status task_id path now true None None None (Some ("git probe failed: " +:+ exn_text e))
  | GitRan 0 stdout _ => observe_repository task_id path (toplevel stdout path) now
  | GitRan code _ stderr =>
      let stderr := strip stderr in
      if str_contains "not a git repository" (lower stderr)
      then without_status task_id path now true (Some false) None None None
      else without_status task_id path now true None None None
             (Some (text_or stderr (exited "rev-parse" code)))
  end.

(** What a status of git says. *)
Record clean_fact (o : WorkspaceObservation) (stdout : string) : Prop := {
  cf_hash : wo_git_status_hash o = Some (sha256_text stdout);
  cf_dirty : wo_git_dirty o = Some true ↔ Exists (λ l, str_truthy l = true) (splitlines stdout);
  cf_entries : wo_git_status_entries o = take max_status_entries (status_entries stdout);
  cf_error : wo_error o = None;
}.

Lemma entries_nonempty stdout :
  status_entries stdout ≠ [] ↔ Exists (λ l, str_truthy l = true) (splitlines stdout).
Proof.
  unfold status_entries. induction (splitlines stdout) as [|l ls IH]; cbn.
  - split; [done|by intros H%Exists_nil].
  - rewrite Exists_cons. destruct (str_truthy l); [naive_solver|]. rewrite IH. naive_solver.
Qed.

(** The workspace is called clean only on the word of git.  An observation carries the
    cleanliness of the working tree, its hash and its entries exactly when the directory is a
    repository and nothing failed, and then they are what one successful status printed;
    whatever else happened, all three are missing, and unless git said that there is no
    repository an error says why. *)
Theorem workspace_facts_are_observed task_id cwd now :
  let o := observe_workspace task_id cwd now in
  wo_task_id o = task_id ∧ wo_cwd o = path_str cwd ∧
  ((∃ root stdout stderr, wo_is_git_repo o = Some true ∧ wo_git_root o = Some root ∧
      _run_git (path_str root) status_args = GitRan 0 stdout stderr ∧ clean_fact o stdout) ∨
   (wo_git_dirty o = None ∧ wo_git_status_hash o = None ∧ wo_git_status_entries o = [] ∧
    (wo_is_git_repo o = Some false ∧ wo_error o = None ∨ ∃ e, wo_error o = Some e ∧ str_truthy e = true))).
Proof.
  intros o. subst o. unfold observe_workspace. cbv zeta.
  assert (∀ s t, str_truthy t = true → str_truthy (text_or s t) = true) as Htext.
  { intros s t Ht. unfold text_or. by destruct (str_truthy s) eqn:E. }
  destruct (cwd_present _); cbn [negb]; [|split_and!; try done; right; split_and!; try done; right; by eexists].
  destruct (opt_truthy _); cbn [negb]; [|split_and!; try done; right; split_and!; try done; right; by eexists].
  destruct (_run_git _ _) as [code stdout stderr|e]; [|split_and!; try done; right; split_and!; try done; right; by eexists].
  assert (∀ what code stderr, str_truthy (text_or (strip stderr) (exited what code)) = true) as Herr.
  { intros. by apply Htext. }
  destruct (decide (code = 0)) as [->|Hc].
  - unfold observe_repository. cbv zeta.
    destruct (_run_git _ status_args) as [c out err|e] eqn:Es;
      [|split_and!; try done; right; split_and!; try done; right; by eexists].
    destruct (decide (c = 0)) as [->|Hn].
    + split_and!; try done. left. exists (toplevel stdout (path_str cwd)), out, err.
      split_and!; try done. split; try done. cbn. rewrite <- entries_nonempty.
      case_bool_decide; naive_solver.
    + destruct c; try done; (split_and!; try done; right; split_and!; try done; right; by eexists).
  - destruct code; try done; (destruct (str_contains _ _); split_and!; try done; right;
      split_and!; try done; [by left|right; by eexists]).
Qed.

End Workspace.

(** ** Witnesses *)

#[local] Instance telemetry_formatting : Formatting := {|
  format_f0 := λ _, ""; format_f1 := λ _, ""; json_text := λ _, ""; json_repr := λ _, "";
|}.

#[local] Instance telemetry_numbers : Numbers := {|
  int_of_text := λ _, raise ValueError ""; int_of_float := λ _, raise ValueError "";
  float_of_text := λ _, raise ValueError "";
|}.

#[local] Instance telemetry_env : RunEnv FileLsmTelemetry := {|
  run_now := λ _, of_Z 10000; run_others := λ _ c, c; run_killed := λ _, false;
|}.

Lemma telemetry_private n c : run_others n c = c.
Proof. done. Qed.

Definition jobs_file (status : string) : json :=
  JObj [("version", JInt 2); ("jobs", JList [
    JObj [("job_id", JStr "a"); ("status", JStr status); ("status_path", JStr "/run/a")];
    JObj [("job_id", JStr "b"); ("status", JStr "succeeded")]])].

Definition session_file : json :=
  JObj [("version", JInt 1); ("session_id", JStr "s"); ("status", JStr "active");
    ("in_flight_calls", JObj [("c1", JObj [("heartbeat_at", JInt 9000)]);
                              ("c2", JObj [("started_at", JInt 1000)])]);
    ("plan", JObj [("status", JStr "active"); ("last_agent_activity", JInt 9200)])].

(** The job [a] is active in the jobs file, and its status file says that it failed. *)
#[local] Instance quiet_files : LsmFiles := {|
  state_dir := "/lsm";
  read_text _ path :=
    if String.eqb path "/lsm/jobs.json" then inl (jobs_file "running")
    else if String.eqb path "/lsm/sessions/s.json" then inl session_file
    else if String.eqb path "/run/a" then inl (JObj [("exit_code", JInt 1)])
    else inr Missing;
  path_exists _ _ := true;
  path_stat _ _ := Some (1, 2);
|}.

Definition first_reading := observe "t" "s" ["a"; "b"; "gone"] (Runs.mkWorld new_telemetry 0 []).

Lemma lsm_evidence_is_current_witness :
  match first_reading.2 with
  | Done obs =>
      lo_active_jobs obs = 0 ∧ lo_failed_jobs obs = 1 ∧ lo_succeeded_jobs obs = 1 ∧
      lo_continuation_due obs = Some false ∧ lo_in_flight_calls obs = 1 ∧
      cache_ok first_reading.1 ∧ _jobs_cache_key (w_store first_reading.1) = Some (1, 2)
  | _ => False
  end.
Proof.
  destruct (lsm_evidence_is_current telemetry_private "t" "s" ["a"; "b"; "gone"] (Runs.mkWorld new_telemetry 0 []) first_reading.1 first_reading.2) as [H _].
  - by intros key data.
  - vm_compute. reflexivity.
  - destruct first_reading.2 as [obs|e|] eqn:E; [|by vm_compute in E|by vm_compute in E].
    vm_compute in E. injection E as <-. split_and!; [reflexivity..|exact H|reflexivity].
Defined.

(** The jobs file is locked for a moment: the older backup is read, and then kept under the
    time and size of the jobs file, although the file can be read again. *)
Definition locked_files : LsmFiles := {|
  state_dir := "/lsm";
  read_text n path :=
    if String.eqb path "/lsm/jobs.json" then if Nat.leb n 9 then inr Denied else inl (jobs_file "succeeded")
    else if String.eqb path "/lsm/jobs.json.bak" then inl (jobs_file "running") else inr Missing;
  path_exists _ _ := true;
  path_stat _ _ := Some (1, 2);
|}.

Definition two_reads : eff (Runs.World FileLsmTelemetry unit) (dict * dict) :=
  first ← jobs_payload (files := locked_files); second ← jobs_payload (files := locked_files);
  mret (first, second).

Example backup_is_cached_as_the_file :
  match (two_reads (Runs.mkWorld new_telemetry 0 [])).2 with
  | Done (first, second) => JObj first = jobs_file "running" ∧ JObj second = jobs_file "running"
  | _ => False
  end ∧ w_tick (two_reads (Runs.mkWorld new_telemetry 0 [])).1 = 12%nat ∧
  read_text (LsmFiles := locked_files) 12 "/lsm/jobs.json" = inl (jobs_file "succeeded").
Proof. vm_compute. by split_and!. Qed.
