(* ===== verification/Host.v ===== *)
(** * watchdog_host.py, doctor.py and runtime_state.py: the host of the resident supervisor

    The host starts the watch process detached, with a fresh owner token, and reports it ready
    when that token holds the lease; it stops the process through the lease and clears only
    the stop it asked for, once the process is gone.  The doctor reads everything once and
    changes nothing.  The choice of the registry path moves an old registry to its durable
    place unless a watchdog may hold it.  Processes, files and the probes of the doctor are
    parameters; each call of the registry and of the outside is one step, and the other
    processes act between. *)

From S2P Require Import Prelude PyFloat PyStr PyJson Models Registry ObsTable Observations.
From S2P Require Import Leases Workers Capabilities ProbeOps Actions OverrunContinuation.
From S2P Require Import Runs Resident.

Open Scope string_scope.
Open Scope Z_scope.
Open Scope list_scope.

(** ** watchdog_host.py *)

Record WatchdogHostStatus := mkWatchdogHostStatus {
  hs_name : string;
  hs_lease_present : bool;
  hs_stop_requested : bool;
  hs_pid : option Z;
  hs_pid_alive : option bool;
  hs_host : option string;
  hs_heartbeat_at : option float;
  hs_expires_at : option float;
  hs_fresh : bool;
  hs_detail : string;
  hs_lease_state : string;
}.

Record WatchdogLaunchResult := mkWatchdogLaunchResult {
  lr_spawn_pid : Z;
  lr_lease_pid : option Z;
  lr_lease_owner : string;
  lr_command : list string;
  lr_log_path : string;
  lr_lease_ready : bool;
  lr_detail : string;
}.

Record WatchdogStopResult := mkWatchdogStopResult {
  sr_requested : bool;
  sr_pid : option Z;
  sr_stopped : bool;
  sr_stop_lease_cleared : bool;
  sr_detail : string;
}.

(** The operating system: whether a process of a positive id exists; [Popen] with the log file
    opened; the exit code of the launcher; paths; the windowless interpreter beside another
    one, when that is a file; and fresh hexadecimal ids. *)
Class HostSystem := {
  os_is_nt : bool;
  os_pid_exists : nat → Z → bool;
  os_spawn : nat → list string → res Z;
  os_poll : nat → option Z;
  resolve : string → string;
  beside : string → string → string;
  python_executable : string;
  windowless_python : option string;
  host_uuid : nat → string;
}.

(** What a host operation does, with the store it finds. *)
Inductive host_event :=
  | Inspected (lease : option WatchdogLease) (now : float)
  | Spawned (command : list string) (answer : res Z)
  | Ready (lease : WatchdogLease) (s : Resident)
  | StopAsked (asked : option (WatchdogLease * option string)) (s s' : Resident)
  | Gone (pid : Z)
  | Cleared (owner : string) (done : bool) (s s' : Resident).

Section Host.
Context {fmt : Formatting} {env : RunEnv Resident} {host : HostSystem}.

Notation World := (Runs.World Resident host_event).
Notation hosted := (eff World).

(** One transaction of the registry, and what it logs. *)
Definition host_commit {A} (m : nat → Registry → res (Registry * A))
    (log : Resident → Resident → A → list host_event) : hosted A := λ w,
  match m (w_tick w) (rs_registry (w_store w)) with
  | Ok (r', a) =>
      let s' := (w_store w) <| rs_registry := r' |> in
      (Runs.mkWorld s' (w_tick w) (w_log w ++ log (w_store w) s' a), Done a)
  | Err e => (w, Raised e)
  end.

Definition host_txn {A} (m : float → nat → Registry → res (Registry * A))
    (log : Resident → Resident → A → list host_event) : hosted A :=
  now ← step; host_commit (m now) log.

Definition nothing_logged {A} (s s' : Resident) (a : A) : list host_event := [].

(** A ghost entry of the log *)
Definition note (e : host_event) : hosted unit := λ w : World,
  (w <| w_log := w_log w ++ [e] |>, Done tt).

Definition pid_exists (pid : Z) : hosted bool :=
  if pid <=? 0 then mret false else ask (λ n, Ok (os_pid_exists n pid)) unlogged.

(** [pid or None] *)
Definition pid_or_none (pid : Z) : option Z := if pid =? 0 then None else Some pid.

(** The state of a lease, what it means, and whether a stop was asked for. *)
Definition lease_status (l : WatchdogLease) (fresh alive : bool) : bool * string * string :=
  if startswith stop_prefix (wd_owner_id l) && fresh
  then (true, "cooperative stop requested; replacement watchdog remains fenced", "stop_fenced")
  else if fresh && alive then (false, "watchdog lease and PID are live", "live")
  else if fresh && negb alive
  then (false, "lease is fresh but PID is absent; wait for lease expiry before replacement", "fresh_dead")
  else if alive
  then (false, "watchdog lease is stale but recorded PID still exists; replacement will fence the old owner", "stale_alive")
  else (false, "watchdog lease is stale and recorded PID is absent", "stale_dead").

Definition read_lease (name : string) (log : option WatchdogLease → list host_event)
    : hosted (option WatchdogLease) :=
  host_txn (λ _ _ r, Ok (r, watchdog_lease r name)) (λ _ _ l, log l).

Definition inspect_watchdog_host (name : string) : hosted WatchdogHostStatus :=
  now ← clock;
  lease ← read_lease name (λ l, [Inspected l now]);
  match lease with
  | None => mret (mkWatchdogHostStatus name false false None None None None None false
                    "no watchdog lease" "missing")
  | Some l =>
      let pid := wd_pid l in
      let fresh := flt now (wd_expires_at l) in
      alive ← (if pid =? 0 then mret false else pid_exists pid);
      let '(stop_requested, detail, lease_state) := lease_status l fresh alive in
      mret (mkWatchdogHostStatus name true stop_requested (pid_or_none pid) (Some alive)
              (Some (wd_host l)) (Some (wd_heartbeat_at l)) (Some (wd_expires_at l)) fresh detail
              lease_state)
  end.

(** What a launch is asked for. *)
Record LaunchArgs := mkLaunchArgs {
  la_repo_root : string;
  la_db_path : string;
  la_interval_s : float;
  la_use_uia : bool;
  la_auto_recover_timeouts : bool;
  la_auto_continue_overruns : bool;
  la_overrun_after_s : float;
  la_lsm_state_dir : option string;
  la_git_bin : option string;
  la_log_path : option string;
  la_ready_timeout_s : float;
}.

(** [str(max(1.0, float(x)))] *)
Definition at_least_one (x : float) : string := json_str (JFloat (fmax (of_Z 1) x)).

Definition option_args (flag : string) (x : option string) : list string :=
  if opt_truthy x then [flag; default "" x] else [].

Definition build_watchdog_command (python db_path : string) (a : LaunchArgs)
    (lease_owner : option string) : list string :=
  [python; "-m"; "lws"; "--db"; db_path] ++
  option_args "--lsm-state-dir" (la_lsm_state_dir a) ++
  option_args "--git-bin" (la_git_bin a) ++
  ["watch"; "--interval"; at_least_one (la_interval_s a)] ++
  option_args "--lease-owner" lease_owner ++
  (if la_use_uia a || la_auto_recover_timeouts a || la_auto_continue_overruns a
   then ["--uia"] else []) ++
  (if la_auto_recover_timeouts a then ["--auto-recover-timeouts"] else []) ++
  (if la_auto_continue_overruns a
   then ["--auto-continue-overruns"; "--overrun-after"; at_least_one (la_overrun_after_s a)] else []).

Definition detached_watchdog_python : string :=
  if os_is_nt then default python_executable windowless_python else python_executable.

(** How the wait for the lease ended; [None] when [fuel] polls were not enough. *)
Fixpoint await_lease (fuel : nat) (deadline : float) (lease_owner : string)
    : hosted (option (bool * option Z * string)) :=
  match fuel with
  | O => mret None
  | S fuel =>
      now ← clock;
      if negb (flt now deadline)
      then mret (Some (false, None,
             "detached watchdog started; owned lease not observed before timeout"))
      else
        _ ← clock;
        current ← host_txn (λ _ _ r, Ok (r, watchdog_lease r "default"))
          (λ s _ l, match l with
                    | Some l => if String.eqb (wd_owner_id l) lease_owner then [Ready l s] else []
                    | None => []
                    end);
        let owned := l ← current; if String.eqb (wd_owner_id l) lease_owner then Some l else None in
        match owned with
        | Some l =>
            mret (Some (true, pid_or_none (wd_pid l),
              "detached watchdog acquired the singleton lease with the launch owner token"))
        | None =>
            code ← ask (λ n, Ok (os_poll n)) unlogged;
            match code with
            | Some c => mret (Some (false, None,
                "watchdog launcher exited during startup with code " +:+ json_repr (JInt c)))
            | None => await_lease fuel deadline lease_owner
            end
        end
  end.

Definition launch_detached_watchdog (fuel : nat) (a : LaunchArgs)
    : hosted (option WatchdogLaunchResult) :=
  status ← inspect_watchdog_host "default";
  if hs_fresh status
  then lift (raise RuntimeError ("watchdog start refused: " +:+ hs_detail status))
  else
    let db_path := resolve (la_db_path a) in
    let log_path := resolve (if opt_truthy (la_log_path a) then default "" (la_log_path a)
                             else beside db_path "watchdog.log") in
    n ← tick;
    let lease_owner := "host:" +:+ host_uuid n in
    let command := build_watchdog_command detached_watchdog_python db_path a (Some lease_owner) in
    pid ← ask (λ n, os_spawn n command) (λ _ answer, [Spawned command answer]);
    now ← clock;
    ended ← await_lease fuel (fadd now (fmax (of_Z 1) (la_ready_timeout_s a))) lease_owner;
    mret ('(ready, lease_pid, detail) ← ended;
          Some (mkWatchdogLaunchResult pid lease_pid lease_owner command log_path ready detail)).

(** The wait for the process to go, with the pause of each poll. *)
Fixpoint await_gone (fuel : nat) (deadline : float) (pid : Z) : hosted (option unit) :=
  match fuel with
  | O => mret None
  | S fuel =>
      alive ← (if pid =? 0 then mret false else pid_exists pid);
      if negb alive then mret (Some tt) else
      now ← clock;
      if negb (flt now deadline) then mret (Some tt) else _ ← clock; await_gone fuel deadline pid
  end.

Definition request_cooperative_stop (name : string) (grace_s : float)
    : hosted (option (WatchdogLease * option string)) :=
  host_txn (λ now n r, request_watchdog_stop r name grace_s (host_uuid n) now)
    (λ s s' asked, [StopAsked asked s s']).

(** A finished stop of the lease [l], after the wait. *)
Definition finish_stop (name : string) (l : WatchdogLease) : hosted WatchdogStopResult :=
  let pid := wd_pid l in
  let stop_owner := wd_owner_id l in
  alive ← (if pid =? 0 then mret false else pid_exists pid);
  let stopped := negb alive in
  (if stopped then note (Gone pid) else mret tt);;
  cleared ← (if stopped && startswith stop_prefix stop_owner
             then host_txn (λ _ _ r, clear_watchdog_stop r name stop_owner)
                    (λ s s' done, [Cleared stop_owner done s s'])
             else mret false);
  mret (mkWatchdogStopResult true (pid_or_none pid) stopped cleared
          (if stopped then "watchdog exited cooperatively"
           else "watchdog has not exited yet; stop lease remains fresh and blocks replacement")).

Definition stop_watchdog_host (fuel : nat) (name : string) (grace_s wait_s : float)
    : hosted (option WatchdogStopResult) :=
  requested ← request_cooperative_stop name grace_s;
  match requested with
  | None => mret (Some (mkWatchdogStopResult false None true false "no watchdog lease"))
  | Some (l, _) =>
      now ← clock;
      waited ← await_gone fuel (fadd now (fmax (of_Z 0) wait_s)) (wd_pid l);
      match waited with
      | None => mret None
      | Some _ => x ← finish_stop name l; mret (Some x)
      end
  end.

(** ** What a launch and a stop do *)

Definition stale (lease : option WatchdogLease) (now : float) : Prop :=
  match lease with Some l => flt now (wd_expires_at l) = false | None => True end.

(** The command of a launch with an owner token. *)
Definition launch_command (a : LaunchArgs) (owner : string) : list string :=
  build_watchdog_command detached_watchdog_python (resolve (la_db_path a)) a (Some owner).

(** What a result says of its launch. *)
Definition reports (a : LaunchArgs) (owner : string) (pid : Z) (ready : bool)
    (lease_pid : option Z) (o : out (option WatchdogLaunchResult)) : Prop :=
  ∀ x, o = Done (Some x) →
    lr_spawn_pid x = pid ∧ lr_lease_owner x = owner ∧ lr_command x = launch_command a owner ∧
    lr_lease_ready x = ready ∧ lr_lease_pid x = lease_pid.

(** The events of a launch, and how it may end after them. *)
Inductive launch_trace (a : LaunchArgs)
    : list host_event → out (option WatchdogLaunchResult) → Prop :=
  | lt_nothing o : (∀ x, o ≠ Done x) → launch_trace a [] o
  | lt_refused lease now o : (∀ x, o ≠ Done x) → launch_trace a [Inspected lease now] o
  | lt_failed lease now token e o :
      stale lease now → (∀ x, o ≠ Done x) →
      launch_trace a [Inspected lease now; Spawned (launch_command a ("host:" +:+ token)) (Err e)] o
  | lt_started lease now token pid o :
      stale lease now → reports a ("host:" +:+ token) pid false None o →
      launch_trace a [Inspected lease now; Spawned (launch_command a ("host:" +:+ token)) (Ok pid)] o
  | lt_ready lease now token pid l s o :
      stale lease now → rg_watchdogs (rs_registry s) !! "default" = Some l →
      wd_owner_id l = "host:" +:+ token →
      reports a ("host:" +:+ token) pid true (pid_or_none (wd_pid l)) o →
      launch_trace a [Inspected lease now; Spawned (launch_command a ("host:" +:+ token)) (Ok pid);
                      Ready l s] o.

Definition silent (w w' : World) : Prop := w_log w' = w_log w.

#[local] Instance silent_preorder : PreOrder silent.
Proof. split; [done|]. intros w1 w2 w3 H1 H2. unfold silent in *. congruence. Qed.

Lemma silent_step : moves silent step.
Proof using Type. intros w w' o. unfold step. cbv zeta. destruct (run_killed _); by intros [= <- _]. Qed.

Lemma silent_ask {A} (f : nat → res A) : moves silent (ask f unlogged).
Proof using Type.
  apply moves_bind; [apply _|apply silent_step|]. intros _ w w' o. unfold perform. cbv zeta.
  destruct (f _); intros [= <- _]; unfold silent; cbn; by rewrite app_nil_r.
Qed.

Lemma silent_pid pid : moves silent (pid_exists pid).
Proof using Type. unfold pid_exists. destruct (pid <=? 0); [apply moves_ret, _|apply silent_ask]. Qed.

Lemma silent_alive pid : moves silent (if pid =? 0 then mret false else pid_exists pid).
Proof using Type. destruct (pid =? 0); [apply moves_ret, _|apply silent_pid]. Qed.

(** A transaction is silent when it does not finish, and logs once when it does. *)
Lemma txn_logs {A} (m : float → nat → Registry → res (Registry * A)) log w w' o :
  host_txn m log w = (w', o) →
  (silent w w' ∧ ∀ a, o ≠ Done a) ∨
  ∃ w1 t a, silent w w1 ∧ o = Done a ∧
    m t (w_tick w1) (rs_registry (w_store w1)) = Ok (rs_registry (w_store w'), a) ∧
    w_log w' = w_log w ++ log (w_store w1) (w_store w') a.
Proof using Type.
  unfold host_txn. intros [(w1 & t & Hs & H)|[(o' & Hs & _) Ho]]%bind_ran.
  - apply silent_step in Hs. unfold host_commit in H.
    destruct (m t (w_tick w1) (rs_registry (w_store w1))) as [[r' a]|e] eqn:E.
    + injection H as <- <-. right. exists w1, t, a. unfold silent in *. cbn. by rewrite Hs.
    + injection H as <- <-. left. by split.
  - left. split; [by eapply silent_step|done].
Qed.

Lemma inspect_logs name w w' o :
  inspect_watchdog_host name w = (w', o) →
  (silent w w' ∧ ∀ a, o ≠ Done a) ∨
  ∃ lease now, w_log w' = w_log w ++ [Inspected lease now] ∧
    ∀ st, o = Done st → hs_fresh st = false → stale lease now.
Proof using Type.
  unfold inspect_watchdog_host.
  intros [(w1 & now & Hc & H)|[(o' & Hc & _) Ho]]%bind_ran;
    [|left; split; [by eapply silent_step|done]].
  apply silent_step in Hc. apply bind_ran in H as [(w2 & lease & Hl & H)|[(o' & Hl & Hno) Ho]];
    apply txn_logs in Hl as [[Hs Hn]|(w0 & t & l' & _ & E & _ & Hlog)].
  - by destruct (Hn lease).
  - injection E as <-. right. exists lease, now. destruct lease as [l|].
    + apply bind_ran in H as [(w3 & alive & Ha & H)|[(o' & Ha & _) Ho]].
      * apply silent_alive in Ha. cbv zeta in H.
        destruct (lease_status l (flt now (wd_expires_at l)) alive) as [[stop detail] state].
        injection H as <- <-. unfold silent in *. rewrite Ha, Hlog, Hc. split; [done|].
        by intros st [= <-].
      * apply silent_alive in Ha. unfold silent in *. rewrite Ha, Hlog, Hc. split; [done|].
        intros st ->. by destruct (Ho st).
    + injection H as <- <-. unfold silent in *. rewrite Hlog, Hc. by split.
  - left. split; [unfold silent in *; congruence|done].
  - by destruct (Hno l').
Qed.

(** What a wait for the lease of [owner] logs. *)
Definition awaited (owner : string) (w w' : World) (o : out (option (bool * option Z * string))) : Prop :=
  (silent w w' ∧ ∀ b p d, o = Done (Some (b, p, d)) → b = false ∧ p = None) ∨
  ∃ l s, w_log w' = w_log w ++ [Ready l s] ∧ wd_owner_id l = owner ∧
    rg_watchdogs (rs_registry s) !! "default" = Some l ∧
    ∀ b p d, o = Done (Some (b, p, d)) → b = true ∧ p = pid_or_none (wd_pid l).

Lemma awaited_silent owner w w1 w' o : silent w w1 → awaited owner w1 w' o → awaited owner w w' o.
Proof using Type.
  intros S [[Hs H]|(l & s & Hl & H)]; [left; split; [by etrans|done]|right].
  exists l, s. unfold silent in S. by rewrite <- S.
Qed.

Lemma awaited_unfinished owner w w' o : silent w w' → (∀ b, o ≠ Done b) → awaited owner w w' o.
Proof using Type. intros S Ho. left. split; [done|]. intros b p d ->. by destruct (Ho (Some (b, p, d))). Qed.

Lemma await_logs fuel deadline owner w w' o :
  await_lease fuel deadline owner w = (w', o) → awaited owner w w' o.
Proof using Type.
  revert w. induction fuel as [|fuel IH]; intros w; cbn [await_lease].
  { intros [= <- <-]. left. by split. }
  intros [(w1 & now & Hc & H)|[(o' & Hc & _) Ho]]%bind_ran; apply silent_step in Hc;
    [|by apply awaited_unfinished].
  apply (awaited_silent _ _ w1); [done|]. clear Hc. destruct (negb _).
  { injection H as <- <-. left. split; [done|]. by intros b p d [= <- <- _]. }
  apply bind_ran in H as [(w2 & t & Hc & H)|[(o' & Hc & _) Ho]]; apply silent_step in Hc;
    [|by apply awaited_unfinished].
  apply (awaited_silent _ _ w2); [done|]. clear Hc.
  apply bind_ran in H as [(w3 & current & Ht & H)|[(o' & Ht & Hno) Ho]];
    apply txn_logs in Ht as [[Hs Hn]|(w0 & t0 & l' & S0 & E & Hm & Hlog)];
    [by destruct (Hn current)| |by apply awaited_unfinished|by destruct (Hno l')].
  injection E as <-. injection Hm as Hr Hl. cbv zeta in H.
  assert (∀ w3, (code ← ask (λ n, Ok (os_poll n)) unlogged;
    match code with
    | Some c => mret (Some (false, None,
        "watchdog launcher exited during startup with code " +:+ json_repr (JInt c)))
    | None => await_lease fuel deadline owner
    end) w3 = (w', o) → awaited owner w3 w' o) as Hpoll.
  { intros w4 [(w5 & code & Ha & Hp)|[(o' & Ha & _) Ho]]%bind_ran; apply silent_ask in Ha;
      [|by apply awaited_unfinished].
    apply (awaited_silent _ _ w5); [done|]. destruct code; [|by apply IH].
    injection Hp as <- <-. left. split; [done|]. by intros b p d [= <- <- _]. }
  destruct current as [l|]; [destruct (String.eqb_spec (wd_owner_id l) owner) as [Ho|Ho]|].
  - cbn in H. rewrite (proj2 (String.eqb_eq _ _) Ho) in H. injection H as <- <-.
    right. exists l, (w_store w0). rewrite Hlog.
    split_and!; [done|done|done|]. by intros b p d [= <- <- _].
  - cbn in H. rewrite (proj2 (String.eqb_neq _ _) Ho) in H. rewrite app_nil_r in Hlog.
    apply (awaited_silent _ _ w3); [done|]. by apply Hpoll.
  - rewrite app_nil_r in Hlog. apply (awaited_silent _ _ w3); [done|]. by apply Hpoll.
Qed.

(** A launch is fenced by the lease, and speaks only of its own process.  Whatever other
    processes do between its steps, a launch spawns at most one process, and only when the
    lease it inspected was absent or over; the command names the owner token that the launch
    made up.  It reports the process ready exactly when it saw the lease of the watchdog held
    by that token, and then with the process id of the lease; a spawn that raised, a launcher
    that exited and a wait that was over are never reported ready. *)
Theorem host_launch_is_fenced fuel a w w' o :
  launch_detached_watchdog fuel a w = (w', o) →
  ∃ events, w_log w' = w_log w ++ events ∧ launch_trace a events o.
Proof using Type.
  unfold launch_detached_watchdog.
  intros [(w1 & st & Hi & H)|[(o' & Hi & Hno) Ho]]%bind_ran;
    apply inspect_logs in Hi as [[S1 Hn]|(lease & now & Hl & Hst)]; [by destruct (Hn st)| | |].
  2: { exists []. rewrite app_nil_r. split; [exact S1|by constructor]. }
  2: { exists [Inspected lease now]. split; [exact Hl|by constructor]. }
  destruct (hs_fresh st) eqn:Hf.
  { injection H as <- <-. exists [Inspected lease now]. split; [exact Hl|by constructor]. }
  specialize (Hst st eq_refl Hf). cbv zeta in H.
  apply bind_ran in H as [(w2 & n & Ht & H)|[(o' & Ht & Hno) Ho]];
    [|injection Ht as <- <-; by destruct (Hno (w_tick w1))].
  injection Ht as <- <-. fold (launch_command a ("host:" +:+ host_uuid (w_tick w1))) in H.
  apply bind_ran in H as [(w2 & pid & Hs & H)|[(o' & Hs & Hno) Ho]].
  - unfold ask in Hs. apply bind_ran in Hs as [(w3 & t & Hc & Hs)|[_ Hs]]; [|by destruct (Hs pid)].
    apply silent_step in Hc. unfold perform in Hs. cbv zeta in Hs.
    destruct (os_spawn _ _) as [p|e] eqn:Es; [|done]. injection Hs as <- <-.
    assert (∀ o, (∀ x, o ≠ Done x) → reports a ("host:" +:+ host_uuid (w_tick w1)) p false None o)
      as Hnot by (intros o' Ho x ->; by destruct (Ho (Some x))).
    apply bind_ran in H as [(w4 & t2 & Hc2 & H)|[(o' & Hc2 & _) Ho]]; apply silent_step in Hc2;
      unfold silent in Hc, Hc2; cbn [w_log] in Hc2.
    2: { eexists. split; [rewrite Hc2; cbn; by rewrite Hc, Hl, <- app_assoc|].
         cbn. apply lt_started; [done|by apply Hnot]. }
    apply bind_ran in H as [(w5 & ended & Ha & H)|[(o' & Ha & _) Ho]];
      apply await_logs in Ha as [[Sa Hb]|(l & s & Hlog & Hown & Hlk & Hb)].
    + injection H as <- <-. eexists. split; [rewrite Sa, Hc2; cbn; by rewrite Hc, Hl, <- app_assoc|].
      cbn. apply lt_started; [done|]. intros x Hx. destruct ended as [[[b q] d]|]; [|done].
      destruct (Hb _ _ _ eq_refl) as [-> ->]. by injection Hx as <-.
    + injection H as <- <-. eexists.
      split; [rewrite Hlog, Hc2; cbn; by rewrite Hc, Hl, <- !app_assoc|].
      cbn. apply lt_ready; [done..|]. intros x Hx. destruct ended as [[[b q] d]|]; [|done].
      destruct (Hb _ _ _ eq_refl) as [-> ->]. by injection Hx as <-.
    + eexists. split; [rewrite Sa, Hc2; cbn; by rewrite Hc, Hl, <- app_assoc|].
      cbn. apply lt_started; [done|by apply Hnot].
    + eexists. split; [rewrite Hlog, Hc2; cbn; by rewrite Hc, Hl, <- !app_assoc|].
      cbn. apply lt_ready; [done..|]. intros x ->. by destruct (Ho (Some x)).
  - unfold ask in Hs. apply bind_ran in Hs as [(w3 & t & Hc & Hs)|[(o1 & Hc & _) _]];
      apply silent_step in Hc; unfold silent in Hc.
    + unfold perform in Hs. cbv zeta in Hs. destruct (os_spawn _ _) as [p|e] eqn:Es;
        injection Hs as <- <-; [by destruct (Hno p)|].
      eexists. split; [cbn; by rewrite Hc, Hl, <- app_assoc|]. cbn. by apply lt_failed.
    + exists [Inspected lease now]. split; [congruence|by constructor].
Qed.

(** A stop holds the lease of [name]: it is the one that was there under a stop token. *)
Definition stop_held (name : string) (l : WatchdogLease) (s s' : Resident) : Prop :=
  startswith stop_prefix (wd_owner_id l) = true ∧
  rg_watchdogs (rs_registry s') !! name = Some l ∧
  ∃ previous, rg_watchdogs (rs_registry s) !! name = Some previous ∧ wd_pid l = wd_pid previous ∧
    (rs_registry s' = rs_registry s ∨
     rs_registry s' = (rs_registry s) <| rg_watchdogs := <[name := l]> (rg_watchdogs (rs_registry s)) |>).

(** The row of the stop token is deleted, or nothing changes. *)
Definition cleared_only (name owner : string) (done : bool) (s s' : Resident) : Prop :=
  if done
  then (∃ l, rg_watchdogs (rs_registry s) !! name = Some l ∧ wd_owner_id l = owner) ∧
       rs_registry s' = (rs_registry s) <| rg_watchdogs := delete name (rg_watchdogs (rs_registry s)) |>
  else rs_registry s' = rs_registry s.

Definition seen_gone (pid : Z) : Prop := pid ≤ 0 ∨ ∃ n, os_pid_exists n pid = false.

(** The events of a stop, and how it may end after them. *)
Inductive stop_trace (name : string)
    : list host_event → out (option WatchdogStopResult) → Prop :=
  | st_nothing o : (∀ x, o ≠ Done x) → stop_trace name [] o
  | st_absent s s' o :
      rg_watchdogs (rs_registry s) !! name = None → rs_registry s' = rs_registry s →
      (∀ x, o = Done (Some x) → sr_requested x = false ∧ sr_stop_lease_cleared x = false) →
      stop_trace name [StopAsked None s s'] o
  | st_asked l p s s' o :
      stop_held name l s s' →
      (∀ x, o = Done (Some x) → sr_stopped x = false ∧ sr_stop_lease_cleared x = false) →
      stop_trace name [StopAsked (Some (l, p)) s s'] o
  | st_gone l p s s' o :
      stop_held name l s s' → seen_gone (wd_pid l) → (∀ x, o ≠ Done x) →
      stop_trace name [StopAsked (Some (l, p)) s s'; Gone (wd_pid l)] o
  | st_cleared l p s s' done s2 s3 o :
      stop_held name l s s' → seen_gone (wd_pid l) →
      cleared_only name (wd_owner_id l) done s2 s3 →
      (∀ x, o = Done (Some x) → sr_stopped x = true ∧ sr_stop_lease_cleared x = done) →
      stop_trace name [StopAsked (Some (l, p)) s s'; Gone (wd_pid l);
                       Cleared (wd_owner_id l) done s2 s3] o.

Lemma stop_asked r name grace uuid now r' asked :
  request_watchdog_stop r name grace uuid now = Ok (r', asked) →
  match asked with
  | None => rg_watchdogs r !! name = None ∧ r' = r
  | Some (l, _) =>
      startswith stop_prefix (wd_owner_id l) = true ∧ rg_watchdogs r' !! name = Some l ∧
      ∃ previous, rg_watchdogs r !! name = Some previous ∧ wd_pid l = wd_pid previous ∧
        (r' = r ∨ r' = r <| rg_watchdogs := <[name := l]> (rg_watchdogs r) |>)
  end.
Proof using Type.
  unfold request_watchdog_stop. destruct (rg_watchdogs r !! name) as [row|] eqn:Hrow.
  - destruct (startswith _ _ && _) eqn:E.
    + intros [= <- <-]. apply andb_true_iff in E as [E _]. split_and!; [done|done|].
      exists row. auto.
    + cbv zeta. intros (r1 & ->%put_lease_Ok & [= <- <-])%bind_Ok_inv.
      split; [apply startswith_app|]. split; [cbn; apply lookup_insert_eq|].
      exists row. by split_and!; [| |right].
  - by intros [= <- <-].
Qed.

Lemma alive_seen pid w w' b :
  (if pid =? 0 then mret false else pid_exists pid) w = (w', Done b) → b = false → seen_gone pid.
Proof using Type.
  intros H ->. destruct (Z.eqb_spec pid 0); [left; lia|]. unfold pid_exists in H.
  destruct (Z.leb_spec pid 0); [by left|]. right.
  unfold ask in H. apply bind_ran in H as [(w1 & t & _ & H)|[_ H]]; [|by destruct (H false)].
  unfold perform in H. injection H as _ H. by eexists.
Qed.

Lemma silent_gone fuel deadline pid : moves silent (await_gone fuel deadline pid).
Proof using Type.
  induction fuel as [|fuel IH]; cbn [await_gone]; [apply moves_ret, _|].
  apply moves_bind; [apply _|apply silent_alive|intros alive]. destruct (negb _); [apply moves_ret, _|].
  apply moves_bind; [apply _|apply silent_step|intros now]. destruct (negb _); [apply moves_ret, _|].
  apply moves_bind; [apply _|apply silent_step|intros _; exact IH].
Qed.

Lemma clear_clears name owner r r' done :
  clear_watchdog_stop r name owner = Ok (r', done) →
  if done then (∃ l, rg_watchdogs r !! name = Some l ∧ wd_owner_id l = owner) ∧
               r' = r <| rg_watchdogs := delete name (rg_watchdogs r) |>
  else r' = r.
Proof using Type.
  unfold clear_watchdog_stop. intros [_ H]%raise_if_then. revert H. unfold release_watchdog_lease.
  destruct (rg_watchdogs r !! name) as [row|]; [|by intros [= <- <-]].
  destruct (String.eqb_spec (wd_owner_id row) owner); [|by intros [= <- <-]].
  intros [= <- <-]. split; [by exists row|done].
Qed.

Lemma finish_logs name l w w' o :
  startswith stop_prefix (wd_owner_id l) = true → finish_stop name l w = (w', o) →
  (silent w w' ∧ ∀ x, o = Done x → sr_stopped x = false ∧ sr_stop_lease_cleared x = false) ∨
  seen_gone (wd_pid l) ∧
  (w_log w' = w_log w ++ [Gone (wd_pid l)] ∧ (∀ x, o ≠ Done x) ∨
   ∃ done s2 s3, w_log w' = w_log w ++ [Gone (wd_pid l); Cleared (wd_owner_id l) done s2 s3] ∧
     cleared_only name (wd_owner_id l) done s2 s3 ∧
     ∀ x, o = Done x → sr_stopped x = true ∧ sr_stop_lease_cleared x = done).
Proof using Type.
  intros Hp. unfold finish_stop. cbv zeta.
  intros [(w1 & alive & Ha & H)|[(o' & Ha & _) Ho]]%bind_ran.
  2: { left. split; [by eapply silent_alive|]. intros x ->. by destruct (Ho x). }
  pose proof (silent_alive _ _ _ _ Ha) as S1. rewrite Hp in H. destruct alive; cbn [negb andb] in H.
  { injection H as <- <-. left. split; [done|]. by intros x [= <-]. }
  right. split; [by eapply alive_seen|].
  unfold mbind at 1, eff_bind at 1, note in H.
  apply bind_ran in H as [(w2 & done & Hc & H)|[(o' & Hc & Hno) Ho]];
    apply txn_logs in Hc as [[S2 Hn]|(w3 & t & a & _ & E & Hm & Hlog)];
    [by destruct (Hn done)| | |by destruct (Hno a)].
  - injection E as <-. injection H as <- <-. right. exists done, (w_store w3), (w_store w2).
    cbn in Hlog. rewrite Hlog, S1, <- app_assoc. split; [done|]. split; [by apply clear_clears in Hm|].
    by intros x [= <-].
  - left. split; [|done]. unfold silent in S2. rewrite S2. cbn. by rewrite S1.
Qed.

(** A stop clears only the fence it put up, and only once the process is gone.  Whatever
    other processes do between its steps, a stop without a lease changes nothing; otherwise
    it first puts the lease under a stop token, keeping the process id, or finds it there;
    it deletes a row only if the process of that id was seen gone and the row is held by that
    very token; and it reports a process stopped exactly then, never on a time-out alone. *)
Theorem host_stop_is_fenced fuel name grace wait w w' o :
  stop_watchdog_host fuel name grace wait w = (w', o) →
  ∃ events, w_log w' = w_log w ++ events ∧ stop_trace name events o.
Proof using Type.
  unfold stop_watchdog_host, request_cooperative_stop.
  intros [(w1 & asked & Hr & H)|[(o' & Hr & Hno) Ho]]%bind_ran;
    apply txn_logs in Hr as [[S1 Hn]|(w0 & t & a & S0 & E & Hm & Hlog)];
    [by destruct (Hn asked)| | |by destruct (Hno a)].
  2: { exists []. rewrite app_nil_r. split; [exact S1|by constructor]. }
  injection E as <-. apply stop_asked in Hm. destruct asked as [[l p]|].
  2: { injection H as <- <-. destruct Hm as [Hnone Hsame]. eexists. split; [exact Hlog|].
       apply st_absent; [done|done|]. by intros x [= <-]. }
  assert (stop_held name l (w_store w0) (w_store w1)) as Hheld by exact Hm.
  assert (∀ w', silent w1 w' → (∀ x, o ≠ Done (Some x)) →
    ∃ events, w_log w' = w_log w ++ events ∧ stop_trace name events o) as Hearly.
  { intros w2 S Hno. eexists. split; [by rewrite S|]. apply (st_asked _ _ p); [exact Hheld|].
    intros x ->. by destruct (Hno x). }
  apply bind_ran in H as [(w2 & t2 & Hc & H)|[(o' & Hc & _) Ho]]; apply silent_step in Hc;
    [|by apply Hearly].
  apply bind_ran in H as [(w3 & waited & Hg & H)|[(o' & Hg & _) Ho]]; apply silent_gone in Hg;
    [|apply Hearly; [by etrans|done]].
  assert (silent w1 w3) as S3 by (by etrans). clear Hc Hg.
  destruct waited; [|injection H as <- <-; by apply Hearly].
  apply bind_ran in H as [(w4 & x & Hx & [= <- <-])|[(o1 & Hx & Hno) Ho]];
    apply finish_logs in Hx as [[S4 Hx]|[Hgone [[Hl4 Hx]|(done & s2 & s3 & Hl4 & Hcl & Hx)]]];
    try (exact (proj1 Hheld)); try (by destruct (Hx x)).
  - eexists. split; [by rewrite S4, S3|]. apply (st_asked _ _ p); [exact Hheld|].
    intros y [= <-]. by apply Hx.
  - eexists. split; [by rewrite Hl4, S3, Hlog, <- app_assoc|]. apply st_cleared; [done..|].
    intros y [= <-]. by apply Hx.
  - apply Hearly; [by etrans|done].
  - eexists. split; [by rewrite Hl4, S3, Hlog, <- app_assoc|]. by apply st_gone.
  - eexists. split; [by rewrite Hl4, S3, Hlog, <- app_assoc|]. apply st_cleared; [done..|].
    intros y ->. by destruct (Ho (Some y)).
Qed.

End Host.

(** ** doctor.py *)

Module DoctorStatus.

Inductive t := PASS | WARN | FAIL.

#[global] Instance t_eq_dec : EqDecision t.
Proof. solve_decision. Defined.

End DoctorStatus.
Import DoctorStatus.

(** What the doctor probes besides the desktop: the jobs of the local shell ([None] without a
    state directory), the used fraction of the memory and the error of the process group of
    Chrome ([None] when the probe is not available), and whether playwright is installed. *)
Class DoctorProbes := {
  dp_jobs : option (nat → res dict);
  dp_memory : nat → option float;
  dp_chrome_error : nat → option (option string);
  dp_playwright : bool;
}.

(** A check is its name and its status; the detail is text for the reader. *)
Definition check := (string * DoctorStatus.t)%type.

Section Doctor.
Context {ties : TieOrder} {fmt : Formatting} {env : RunEnv Resident} {host : HostSystem}.
Context {desk : Desktop} {probes : DoctorProbes}.

Notation World := (Runs.World Resident host_event).
Notation hosted := (eff World).

Definition db {A} (f : Resident → res A) : hosted A := txn (λ _ s, a ← f s; Ok (s, a)).

Definition outside {A} (f : nat → res A) : hosted A := ask f unlogged.

(** [try: m except c: h] *)
Definition catch {A} (c : exn → bool) (m : hosted A) (h : hosted A) : hosted A :=
  try_except m (λ e, if c e then h else lift (Err e)).

(** [except (OSError, UnsupportedLsmState, ValueError)] *)
Definition lsm_error (e : exn) : bool :=
  bool_decide (exn_type e = OSError) || bool_decide (exn_type e = UnsupportedLsmState) ||
  is_value_error (exn_type e).

Definition pass_or_warn (b : bool) : DoctorStatus.t := if b then PASS else WARN.

(** The check of the state directory, and whether the adapter may be used. *)
Definition check_lsm : hosted (bool * list check) :=
  match dp_jobs with
  | None => mret (false, [("lsm.state", WARN)])
  | Some jobs =>
      catch lsm_error (_ ← outside jobs; mret (true, [("lsm.state", PASS)]))
        (mret (false, [("lsm.state", FAIL)]))
  end.

Definition check_memory : hosted (list check) :=
  used ← outside (λ n, Ok (dp_memory n));
  chrome ← outside (λ n, Ok (dp_chrome_error n));
  mret [("memory.system", pass_or_warn match used with Some f => negb (fle (of_dec 85 2) f) | None => false end);
        ("memory.chrome", pass_or_warn match chrome with
                                 | Some error => negb (opt_truthy error)
                                 | None => false
                                 end);
        ("playwright.optional", pass_or_warn dp_playwright)].

Definition check_watchdog : hosted (list check) :=
  st ← inspect_watchdog_host "default";
  mret [("watchdog.lease",
         pass_or_warn (hs_lease_present st && negb (hs_stop_requested st) && hs_fresh st &&
                 default false (hs_pid_alive st)));
        ("recovery.transport", PASS)].

(** The name [now] is not defined in the function: the freshness of a slot or of a capability
    raises. *)
Definition undefined_now {A} : hosted A := lift (raise NameError "name 'now' is not defined").

Definition check_probes : hosted (list check) :=
  slots ← db (λ s, Ok (probe_window_slots (rs_registry s)));
  slot ← (match slots with
          | [] => mret ("probe.slot", PASS)
          | [_] => undefined_now
          | _ => mret ("probe.slot", FAIL)
          end);
  unresolved ← db (λ s, Ok (unresolved_probe_mutation_operation (rs_registry s)));
  capabilities ← db (λ s, Ok (page_capabilities (rs_registry s) None 200));
  capability ← (match capabilities with
                | [] => mret ("page.capability", PASS)
                | _ => undefined_now
                end);
  mret [slot; ("probe.mutation", pass_or_warn (bool_decide (unresolved = None))); capability].

Definition check_workspace (task : TaskRecord) : hosted (list check) :=
  w ← outside (λ n, workspace_probe n (tr_task_id task) (tr_cwd task));
  mret [("task.workspace", if negb (wo_cwd_exists w) then FAIL
                           else pass_or_warn (negb (opt_truthy (wo_error w))))].

(** The adapter reads the session with the jobs that the registry tracks. *)
Definition check_session (task : TaskRecord) (adapter : bool) : hosted (list check) :=
  if opt_truthy (tr_lsm_session_id task) then
    match lsm_telemetry, adapter with
    | Some telemetry, true =>
        catch lsm_error
          (jobs ← db (λ s, Ok (tracked_jobs (rs_observations s) (tr_task_id task)));
           _ ← outside (λ n, telemetry n (tr_task_id task) (default "" (tr_lsm_session_id task)) jobs);
           mret [("task.lsm", PASS)])
          (mret [("task.lsm", FAIL)])
    | _, _ => mret [("task.lsm", WARN)]
    end
  else mret [("task.lsm", WARN)].

Definition is_key_error (e : exn) : bool := bool_decide (exn_type e = KeyError).
Definition is_probe_error (e : exn) : bool := bool_decide (exn_type e = UiaProbeUnavailable).

Definition check_page (worker : WorkerRecord) (probe_uia : bool) : hosted (list check) :=
  if probe_uia then
    catch is_probe_error
      (previous ← db (λ s, Ok (latest_browser_observation (rs_observations s)
                                 (Some (wr_worker_id worker))));
       _ ← outside (λ n, uia_observe n worker previous None);
       mret [("task.uia", PASS)])
      (mret [("task.uia", WARN)])
  else mret [].

Definition check_bound (worker : WorkerRecord) (probe_uia : bool) : hosted (list check) :=
  binding ← db (λ s, Ok (get_worker_window_binding (rs_registry s) (wr_worker_id worker) (of_Z 0) false));
  bound ← (match binding with
           | None => mret PASS
           | Some b => now ← clock; mret (pass_or_warn (flt (of_Z 0) (fsub (wb_expires_at b) now)))
           end);
  page ← check_page worker probe_uia;
  mret ([("task.worker", PASS); ("task.window_binding", bound)] ++ page).

(** Only the lookup of the worker is guarded. *)
Definition check_worker (task : TaskRecord) (probe_uia : bool) : hosted (list check) :=
  if opt_truthy (tr_current_worker_id task) then
    worker ← catch is_key_error
      (w ← db (λ s, get_worker (rs_registry s) (default "" (tr_current_worker_id task))); mret (Some w))
      (mret None);
    match worker with
    | None => mret [("task.worker", FAIL)]
    | Some w => check_bound w probe_uia
    end
  else mret [("task.worker", WARN)].

Definition check_task (task_id : string) (adapter probe_uia : bool) : hosted (list check) :=
  task ← catch is_key_error (t ← db (λ s, get_task (rs_registry s) task_id); mret (Some t)) (mret None);
  match task with
  | None => mret [("task", FAIL)]
  | Some task =>
      workspace ← check_workspace task;
      session ← check_session task adapter;
      unresolved ← db (λ s, unresolved_action_attempt (rs_registry s) (tr_task_id task));
      worker ← check_worker task probe_uia;
      mret ([("task", PASS)] ++ workspace ++ session ++
            [("task.action_fence", pass_or_warn (bool_decide (unresolved = None)))] ++ worker)
  end.

(** The worst status of the checks *)
Definition overall (checks : list check) : DoctorStatus.t :=
  if existsb (λ c, bool_decide (c.2 = FAIL)) checks then FAIL
  else if existsb (λ c, bool_decide (c.2 = WARN)) checks then WARN else PASS.

Definition run_doctor (task_id : option string) (probe_uia : bool)
    : hosted (DoctorStatus.t * list check) :=
  lsm ← check_lsm;
  memory ← check_memory;
  watchdog ← check_watchdog;
  probes ← check_probes;
  task ← (if opt_truthy task_id then check_task (default "" task_id) lsm.1 probe_uia else mret []);
  now ← clock;
  let checks := [("lws.version", PASS); ("registry", PASS)] ++ lsm.2 ++ memory ++ watchdog ++
                probes ++ task in
  mret (overall checks, checks).

(** ** The doctor reads *)

Context (alone : ∀ n s, run_others n s = s).

Definition same_store (w w' : World) : Prop := w_store w' = w_store w.

#[local] Instance same_store_preorder : PreOrder same_store.
Proof. split; [done|]. intros w1 w2 w3 H1 H2. unfold same_store in *. congruence. Qed.

Lemma same_step : moves same_store step.
Proof using alone.
  intros w w' o. unfold step. cbv zeta. rewrite alone. destruct (run_killed _); by intros [= <- _].
Qed.

Lemma same_outside {A} (f : nat → res A) : moves same_store (outside f).
Proof using alone.
  apply moves_bind; [apply _|apply same_step|]. intros _ w w' o. unfold perform. cbv zeta.
  destruct (f _); by intros [= <- _].
Qed.

Lemma same_db {A} (f : Resident → res A) : moves same_store (db f).
Proof using alone.
  apply moves_bind; [apply _|apply same_step|]. intros _ w w' o. unfold commit.
  destruct (f (w_store w)); cbn; by intros [= <- _].
Qed.

Lemma same_lease name log : moves same_store (read_lease name log).
Proof using alone.
  apply moves_bind; [apply _|apply same_step|]. intros _ w w' o. unfold host_commit. cbn.
  intros [= <- _]. unfold same_store. cbn. by destruct (w_store w).
Qed.

Lemma same_inspect name : moves same_store (inspect_watchdog_host name).
Proof using alone.
  apply moves_bind; [apply _|apply same_step|]. intros now.
  apply moves_bind; [apply _|apply same_lease|]. intros [l|]; [|apply moves_ret, _]. cbv zeta.
  apply moves_bind; [apply _| |].
  - destruct (_ =? 0); [apply moves_ret, _|]. unfold pid_exists.
    destruct (_ <=? 0); [apply moves_ret, _|apply same_outside].
  - intros alive. destruct (lease_status _ _ _) as [[stop detail] state]. apply moves_ret, _.
Qed.

Lemma same_catch {A} c (m h : hosted A) :
  moves same_store m → moves same_store h → moves same_store (catch c m h).
Proof using Type.
  intros Hm Hh. apply moves_try; [apply _|exact Hm|]. intros e.
  destruct (c e); [exact Hh|apply moves_lift, _].
Qed.

Ltac reads :=
  repeat first
    [ apply same_step | apply same_outside | apply same_db | apply same_inspect
    | apply same_catch
    | match goal with
      | |- moves _ (_ ≫= _) => apply moves_bind; [apply _| |intros ?]
      | |- moves _ (mret _) => apply moves_ret, _
      | |- moves _ (lift _) => apply moves_lift, _
      | |- moves _ (if ?b then _ else _) => destruct b
      | |- moves _ (match ?x with _ => _ end) => destruct x
      end ].

Lemma same_probes : moves same_store check_probes.
Proof using alone. unfold check_probes, undefined_now. reads. Qed.

Lemma same_before_probes {A} (f : _ → _ → _ → hosted A) :
  (∀ lsm memory watchdog, moves same_store (f lsm memory watchdog)) →
  moves same_store (lsm ← check_lsm; memory ← check_memory; watchdog ← check_watchdog;
                    f lsm memory watchdog).
Proof using alone. intros Hf. unfold check_lsm, check_memory, check_watchdog. reads; apply Hf. Qed.

Lemma same_task task_id adapter uia : moves same_store (check_task task_id adapter uia).
Proof using alone.
  unfold check_task, check_workspace, check_session, check_worker, check_bound, check_page. reads.
Qed.

Lemma same_doctor task_id uia : moves same_store (run_doctor task_id uia).
Proof using alone.
  apply same_before_probes. intros lsm memory watchdog.
  apply moves_bind; [apply _|apply same_probes|intros pr].
  apply moves_bind; [apply _| |intros task; cbv zeta; reads].
  destruct (opt_truthy task_id); [apply same_task|apply moves_ret, _].
Qed.

Lemma has_status st (checks : list check) :
  existsb (λ c, bool_decide (c.2 = st)) checks = true ↔ Exists (λ c, c.2 = st) checks.
Proof using Type.
  induction checks as [|c checks IH]; cbn; [by rewrite Exists_nil|].
  rewrite Exists_cons, orb_true_iff, bool_decide_eq_true, IH. done.
Qed.

Lemma overall_fail (checks : list check) : overall checks = FAIL ↔ Exists (λ c, c.2 = FAIL) checks.
Proof using Type.
  rewrite <- has_status. unfold overall. repeat case_match; naive_solver.
Qed.

Lemma overall_pass (checks : list check) : overall checks = PASS ↔ Forall (λ c, c.2 = PASS) checks.
Proof using Type.
  assert (Forall (λ c : check, c.2 = PASS) checks ↔
    ¬ Exists (λ c, c.2 = FAIL) checks ∧ ¬ Exists (λ c, c.2 = WARN) checks) as ->.
  { induction checks as [|[n st] checks IH]; [rewrite !Exists_nil, Forall_nil; tauto|].
    rewrite !Exists_cons, Forall_cons, IH. destruct st; cbn; naive_solver. }
  rewrite <- !has_status. unfold overall. repeat case_match; naive_solver.
Qed.

(** A slot or a capability ends the checks. *)
Lemma probes_raise w w' x :
  (length (probe_window_slots (rs_registry (w_store w))) = 1%nat ∨
   page_capabilities (rs_registry (w_store w)) None 200 ≠ []) →
  check_probes w ≠ (w', Done x).
Proof using alone.
  assert (∀ {A} (f : Resident → res A) w w' a, db f w = (w', Done a) →
    f (w_store w) = Ok a ∧ w_store w' = w_store w) as Hdb.
  { intros A f v v' a H. pose proof (same_db f v v' _ H) as Hs. split; [|exact Hs].
    unfold db, txn in H. apply bind_ran in H as [(v1 & t & Hc & H)|[_ H]]; [|by destruct (H a)].
    pose proof (same_step _ _ _ Hc) as Hs1. unfold commit in H. rewrite Hs1 in H.
    destruct (f (w_store v)); cbn in H; by simplify_eq. }
  intros Hb H. unfold check_probes in H.
  apply bind_ran in H as [(w1 & slots & [[= <-] S1]%Hdb & H)|[_ H]]; [|by destruct (H x)].
  apply bind_ran in H as [(w2 & slot & Hs & H)|[_ H]]; [|by destruct (H x)].
  assert (w_store w2 = w_store w1) as S2.
  { destruct (probe_window_slots _) as [|? [|]]; by inversion Hs. }
  destruct Hb as [Hb|Hb].
  { destruct (probe_window_slots _) as [|? [|]]; cbn in Hb; try done. }
  apply bind_ran in H as [(w3 & u & [_ S3]%Hdb & H)|[_ H]]; [|by destruct (H x)].
  apply bind_ran in H as [(w4 & cs & [[= <-] S4]%Hdb & H)|[_ H]]; [|by destruct (H x)].
  apply bind_ran in H as [(w5 & c & Hc & _)|[_ H]]; [|by destruct (H x)].
  rewrite S3, S2, S1 in Hc. by destruct (page_capabilities _ _ _).
Qed.

(** The doctor reads and changes nothing, and its verdict is the worst check.  With no
    other process at work the store after a run is the store before it, however the run ends;
    a report is a failure exactly when a check failed, and passes exactly when all passed.
    And it gives a report only of a host without exactly one probe slot and without page
    capabilities: their freshness is computed with a name that is not defined. *)
Theorem doctor_only_reads task_id probe_uia w w' o :
  run_doctor task_id probe_uia w = (w', o) →
  w_store w' = w_store w ∧
  ∀ verdict checks, o = Done (verdict, checks) →
    (verdict = FAIL ↔ Exists (λ c, c.2 = FAIL) checks) ∧
    (verdict = PASS ↔ Forall (λ c, c.2 = PASS) checks) ∧
    length (probe_window_slots (rs_registry (w_store w))) ≠ 1%nat ∧
    page_capabilities (rs_registry (w_store w)) None 200 = [].
Proof using alone.
  intros H. split; [by eapply same_doctor|]. intros verdict checks ->.
  unfold run_doctor in H.
  apply bind_ran in H as [(w1 & lsm & H1 & H)|[_ H]]; [|by destruct (H (verdict, checks))].
  apply bind_ran in H as [(w2 & memory & H2 & H)|[_ H]]; [|by destruct (H (verdict, checks))].
  apply bind_ran in H as [(w3 & watchdog & H3 & H)|[_ H]]; [|by destruct (H (verdict, checks))].
  assert (w_store w3 = w_store w) as S3.
  { assert (moves same_store (lsm ← check_lsm; memory ← check_memory; watchdog ← check_watchdog;
      mret tt)) as Hm by (apply same_before_probes; intros; apply moves_ret, _).
    apply (Hm w w3 (Done tt)). unfold mbind, eff_bind. by rewrite H1, H2, H3. }
  apply bind_ran in H as [(w4 & probes' & H4 & H)|[_ H]]; [|by destruct (H (verdict, checks))].
  apply bind_ran in H as [(w5 & task & H5 & H)|[_ H]]; [|by destruct (H (verdict, checks))].
  apply bind_ran in H as [(w6 & now & H6 & H)|[_ H]]; [|by destruct (H (verdict, checks))].
  cbv zeta in H. injection H as _ <- Hcs. rewrite Hcs. clear H1 H2 H3 H5 H6 Hcs.
  rewrite <- S3. split; [|split].
  - apply overall_fail.
  - apply overall_pass.
  - split.
    + intros Hl. by apply (probes_raise w3 w4 probes'); [left|].
    + destruct (page_capabilities _ None 200) eqn:E; [done|]. exfalso.
      apply (probes_raise w3 w4 probes'); [right; by rewrite E|done].
Qed.

End Doctor.

(** ** runtime_state.py *)

(** What a look at the watchdog leases of an old registry gives: their expiry times, [None]
    without the table, or one of the caught errors. *)
Inductive lease_read := LeaseTimes (times : option (list float)) | Unreadable.

(** The environment variables, the platform, paths, whether a file exists at a step, the leases
    of a registry file, the parent directory made, the copy of a registry into a temporary
    file with its integrity check, and the move of the copy to its place: [false] for one of
    the caught errors. *)
Class StateFiles := {
  environ_get : string → option string;
  platform_nt : bool;
  home_dir : string;
  current_dir : string;
  path_join : string → string → string;
  expanduser : string → string;
  file_there : nat → string → bool;
  legacy_leases : nat → string → lease_read;
  make_parent : nat → string → res unit;
  copy_registry : nat → string → string → bool;
  move_copy : nat → string → bool;
}.

(** The one effect on the registry files: the copy of [source] became [target]. *)
Inductive state_event := Moved (source target : string).

Definition WINDOWS_STATE_DIR_NAME : string := "LocalShellWebSupervisor".
Definition POSIX_STATE_DIR_NAME : string := "localshell-web-supervisor".
Definition REGISTRY_FILENAME : string := "registry.sqlite3".

Section State.
Context {env : RunEnv unit} {files : StateFiles}.

Notation World := (Runs.World unit state_event).
Notation located := (eff World).

(** [str(env.get(name) or "").strip()] *)
Definition variable (name : string) : string := strip (default "" (environ_get name)).

Definition durable_state_dir : string :=
  let override := variable "LWS_STATE_HOME" in
  if str_truthy override then expanduser override
  else if platform_nt then
    let local := variable "LOCALAPPDATA" in
    path_join (if str_truthy local then local else path_join (path_join home_dir "AppData") "Local")
      WINDOWS_STATE_DIR_NAME
  else
    let xdg := variable "XDG_STATE_HOME" in
    path_join (if str_truthy xdg then xdg else path_join (path_join home_dir ".local") "state")
      POSIX_STATE_DIR_NAME.

Definition durable_registry_path : string := path_join durable_state_dir REGISTRY_FILENAME.

Definition legacy_registry_path : string :=
  path_join (path_join current_dir ".lws") REGISTRY_FILENAME.

(** [SELECT MAX(expires_at)], later than [now]; [None] when it cannot be told. *)
Definition fresh_lease (now : float) (x : lease_read) : option bool :=
  match x with
  | Unreadable => None
  | LeaseTimes None | LeaseTimes (Some []) => Some false
  | LeaseTimes (Some (t :: ts)) => Some (flt now (fmax_list t ts))
  end.

Definition see {A} (f : nat → A) : located A := ask (λ n, Ok (f n)) unlogged.

Definition _legacy_fresh_watchdog_lease (path : string) : located (option bool) :=
  now ← clock; x ← see (λ n, legacy_leases n path); mret (fresh_lease now x).

(** The move is logged when it happened. *)
Definition move_into_place (source target : string) : located bool :=
  ask (λ n, Ok (move_copy n target))
    (λ _ answer, match answer with Ok true => [Moved source target] | _ => [] end).

Definition _migrate_sqlite_registry (source target : string) : located bool :=
  there ← see (λ n, file_there n target);
  if (there : bool) then mret true else
  ask (λ n, make_parent n target) unlogged;;
  copied ← see (λ n, copy_registry n source target);
  if negb copied then mret false else
  there ← see (λ n, file_there n target);
  if (there : bool) then mret true else move_into_place source target.

Definition resolve_default_registry_path : located string :=
  let explicit := variable "LWS_DB" in
  if str_truthy explicit then mret (expanduser explicit) else
  let durable := durable_registry_path in
  there ← see (λ n, file_there n durable);
  if (there : bool) then mret durable else
  let legacy := legacy_registry_path in
  old ← see (λ n, file_there n legacy);
  if negb old then mret durable else
  lease_state ← _legacy_fresh_watchdog_lease legacy;
  if negb (bool_decide (lease_state = Some false)) then mret legacy else
  migrated ← _migrate_sqlite_registry legacy durable;
  mret (if (migrated : bool) then durable else legacy).

(** The old registry was free at a step between [t0] and [t]: no lease of a watchdog was
    fresh. *)
Definition free_between (t0 t : nat) : Prop :=
  ∃ n now, (t0 < n ≤ t)%nat ∧ fresh_lease now (legacy_leases n legacy_registry_path) = Some false.

(** The outcomes of a resolution, with what was moved and why. *)
Inductive resolved (t0 t : nat) : list state_event → out string → Prop :=
  | rs_unfinished o : (∀ p, o ≠ Done p) → resolved t0 t [] o
  | rs_explicit :
      str_truthy (variable "LWS_DB") = true →
      resolved t0 t [] (Done (expanduser (variable "LWS_DB")))
  | rs_durable n :
      (t0 < n ≤ t)%nat → file_there n durable_registry_path = true →
      resolved t0 t [] (Done durable_registry_path)
  | rs_first n :
      (t0 < n ≤ t)%nat → file_there n legacy_registry_path = false →
      resolved t0 t [] (Done durable_registry_path)
  | rs_legacy n :
      (t0 < n ≤ t)%nat → file_there n legacy_registry_path = true →
      resolved t0 t [] (Done legacy_registry_path)
  | rs_moved n :
      free_between t0 n → (n < t)%nat → file_there n durable_registry_path = false →
      resolved t0 t [Moved legacy_registry_path durable_registry_path] (Done durable_registry_path).

Lemma step_ran (w w' : World) t :
  step w = (w', Done t) → w_log w' = w_log w ∧ w_tick w' = S (w_tick w).
Proof using Type. unfold step. cbv zeta. destruct (run_killed _); by intros [= <- _]. Qed.

Lemma step_log (w w' : World) o : step w = (w', o) → w_log w' = w_log w.
Proof using Type. unfold step. cbv zeta. destruct (run_killed _); by intros [= <- _]. Qed.

Lemma tick_step (w w' : World) o : step w = (w', o) → (w_tick w ≤ w_tick w')%nat.
Proof using Type. unfold step. cbv zeta. destruct (run_killed _); intros [= <- _]; cbn; lia. Qed.

Lemma tick_ask {A} (f : nat → res A) log (w w' : World) o :
  ask f log w = (w', o) → (w_tick w ≤ w_tick w')%nat.
Proof using Type.
  unfold ask. intros [(w1 & t & Hs & H)|[(o' & Hs & _) Ho]]%bind_ran; apply tick_step in Hs; [|done].
  unfold perform in H. cbv zeta in H. destruct (f _); by injection H as <- _.
Qed.

Lemma log_ask {A} (f : nat → res A) (w w' : World) o :
  ask f unlogged w = (w', o) → w_log w' = w_log w.
Proof using Type.
  unfold ask. intros [(w1 & t & Hs & H)|[(o' & Hs & _) Ho]]%bind_ran; apply step_log in Hs; [|done].
  unfold perform in H. cbv zeta in H. destruct (f _); injection H as <- _; cbn; by rewrite app_nil_r.
Qed.

Lemma tick_see {A} (f : nat → A) (w w' : World) o : see f w = (w', o) → (w_tick w ≤ w_tick w')%nat.
Proof using Type. apply tick_ask. Qed.

(** A call of the outside: what it answers, and the log. *)
Lemma see_ran {A} (f : nat → A) (w w' : World) o :
  see f w = (w', o) →
  w_log w' = w_log w ∧
  ∀ a, o = Done a → a = f (w_tick w') ∧ w_tick w' = S (w_tick w).
Proof using Type.
  unfold see, ask. intros [(w1 & t & Hs & H)|[(o' & Hs & _) Ho]]%bind_ran.
  - apply step_ran in Hs as [Hl Ht]. unfold perform in H. injection H as <- <-. cbn.
    rewrite app_nil_r. split; [done|]. by intros a [= <-].
  - split; [by eapply step_log|]. intros a ->. by destruct (Ho a).
Qed.

Lemma lease_ran path (w w' : World) o :
  _legacy_fresh_watchdog_lease path w = (w', o) →
  w_log w' = w_log w ∧ (w_tick w ≤ w_tick w')%nat ∧
  ∀ x, o = Done x → ∃ now, x = fresh_lease now (legacy_leases (w_tick w') path) ∧
    (w_tick w < w_tick w')%nat.
Proof using Type.
  unfold _legacy_fresh_watchdog_lease. intros [(w1 & now & Hs & H)|[(o' & Hs & Hn) Ho]]%bind_ran.
  - apply step_ran in Hs as [Hl Ht]. apply bind_ran in H as [(w2 & x & Hx & H)|[(o' & Hx & _) Ho]].
    + apply see_ran in Hx as [Hl2 Hx]. destruct (Hx _ eq_refl) as [-> Ht2]. injection H as <- <-.
      split; [congruence|]. split; [lia|]. intros x [= <-]. exists now. split; [done|lia].
    + pose proof (tick_see _ _ _ _ Hx). apply see_ran in Hx as [Hl2 _].
      split; [congruence|]. split; [lia|]. intros x ->. by destruct (Ho x).
  - pose proof (tick_step _ _ _ Hs). apply step_log in Hs. split; [done|]. split; [lia|].
    intros x ->. by destruct (Ho x).
Qed.

(** The steps of a migration: nothing is moved over a registry that is there. *)
Lemma migrate_ran source target (w w' : World) o :
  _migrate_sqlite_registry source target w = (w', o) →
  (w_tick w ≤ w_tick w')%nat ∧
  ((w_log w' = w_log w ∧ ∀ b, o = Done b → b = true →
      ∃ n, (w_tick w < n ≤ w_tick w')%nat ∧ file_there n target = true) ∨
   (w_log w' = w_log w ++ [Moved source target] ∧ o = Done true ∧
    ∃ n, (w_tick w < n < w_tick w')%nat ∧ file_there n target = false)).
Proof using Type.
  unfold _migrate_sqlite_registry. intros H.
  assert (∀ w1, w_log w1 = w_log w → (w_tick w ≤ w_tick w1)%nat → (∀ b, o ≠ Done b) → w' = w1 →
    (w_tick w ≤ w_tick w')%nat ∧ ((w_log w' = w_log w ∧ ∀ b, o = Done b → b = true →
      ∃ n, (w_tick w < n ≤ w_tick w')%nat ∧ file_there n target = true) ∨ False)) as Hearly.
  { intros w1 Hl Ht Ho ->. split; [done|]. left. split; [done|]. intros b ->. by destruct (Ho b). }
  apply bind_ran in H as [(w1 & there & Hx & H)|[(o' & Hx & _) Ho]]; pose proof (tick_see _ _ _ _ Hx) as T1;
    apply see_ran in Hx as [L1 Hx];
    [|destruct (Hearly w' L1 T1 Ho eq_refl) as [? [?|[]]]; auto].
  destruct (Hx _ eq_refl) as [-> Tk1]. destruct (file_there (w_tick w1) target) eqn:E1.
  { injection H as <- <-. split; [done|]. left. split; [done|]. intros b _ _.
    exists (w_tick w1). split; [lia|done]. }
  apply bind_ran in H as [(w2 & [] & Hx2 & H)|[(o' & Hx2 & _) Ho]]; pose proof (tick_ask _ _ _ _ _ Hx2) as T2;
    apply log_ask in Hx2;
    [|destruct (Hearly w' ltac:(congruence) ltac:(lia) Ho eq_refl) as [? [?|[]]]; auto].
  apply bind_ran in H as [(w3 & copied & Hx3 & H)|[(o' & Hx3 & _) Ho]]; pose proof (tick_see _ _ _ _ Hx3) as T3;
    apply see_ran in Hx3 as [L3 _];
    [|destruct (Hearly w' ltac:(congruence) ltac:(lia) Ho eq_refl) as [? [?|[]]]; auto].
  destruct copied; cbn [negb] in H.
  2: { injection H as <- <-. split; [lia|]. left. split; [congruence|]. by intros b [= <-]. }
  apply bind_ran in H as [(w4 & there & Hx4 & H)|[(o' & Hx4 & _) Ho]]; pose proof (tick_see _ _ _ _ Hx4) as T4;
    apply see_ran in Hx4 as [L4 Hx4];
    [|destruct (Hearly w' ltac:(congruence) ltac:(lia) Ho eq_refl) as [? [?|[]]]; auto].
  destruct (Hx4 _ eq_refl) as [-> Tk4]. destruct (file_there (w_tick w4) target) eqn:E4.
  { injection H as <- <-. split; [lia|]. left. split; [congruence|]. intros b _ _.
    exists (w_tick w4). split; [lia|done]. }
  unfold move_into_place, ask in H. apply bind_ran in H as [(w5 & t & Hs & H)|[(o' & Hs & _) Ho]].
  - apply step_ran in Hs as [L5 T5]. unfold perform in H. cbv zeta in H.
    injection H as <- <-. cbn. split; [lia|]. destruct (move_copy _ _) eqn:Em; cbn.
    + right. split; [congruence|]. split; [done|]. exists (w_tick w4). split; [lia|done].
    + left. rewrite app_nil_r. split; [congruence|]. by intros b [= <-].
  - pose proof (tick_step _ _ _ Hs). apply step_log in Hs.
    destruct (Hearly w' ltac:(congruence) ltac:(lia) Ho eq_refl) as [? [?|[]]]; auto.
Qed.

(** The choice of the registry never splits the supervisor over two of them.  An explicit
    path wins; a durable registry that is there wins over the old one; the old one is used
    while a watchdog holds it or nothing can be told, and is moved only after a look that
    found no fresh lease, to a place where a later look found no registry. *)
Theorem registry_is_never_split (w w' : World) o :
  resolve_default_registry_path w = (w', o) →
  ∃ events, w_log w' = w_log w ++ events ∧ resolved (w_tick w) (w_tick w') events o.
Proof using Type.
  unfold resolve_default_registry_path. cbv zeta. intros H.
  assert (∀ w1, w_log w1 = w_log w → (∀ p, o ≠ Done p) → w' = w1 →
    ∃ events, w_log w' = w_log w ++ events ∧ resolved (w_tick w) (w_tick w') events o) as Hearly.
  { intros w1 Hl Ho ->. exists []. rewrite app_nil_r. split; [done|by constructor]. }
  destruct (str_truthy (variable "LWS_DB")) eqn:Ex.
  { injection H as <- <-. exists []. rewrite app_nil_r. split; [done|by constructor]. }
  apply bind_ran in H as [(w1 & there & Hx & H)|[(o' & Hx & _) Ho]]; apply see_ran in Hx as [L1 Hx];
    [|by apply (Hearly w')].
  destruct (Hx _ eq_refl) as [-> T1]. destruct (file_there (w_tick w1) durable_registry_path) eqn:E1.
  { injection H as <- <-. exists []. rewrite app_nil_r. split; [done|].
    apply (rs_durable _ _ (w_tick w1)); [lia|done]. }
  apply bind_ran in H as [(w2 & old & Hx2 & H)|[(o' & Hx2 & _) Ho]]; apply see_ran in Hx2 as [L2 Hx2];
    [|apply (Hearly w'); [congruence|done|done]].
  destruct (Hx2 _ eq_refl) as [-> T2]. destruct (file_there (w_tick w2) legacy_registry_path) eqn:E2;
    cbn [negb] in H.
  2: { injection H as <- <-. exists []. rewrite app_nil_r. split; [congruence|].
       apply (rs_first _ _ (w_tick w2)); [lia|done]. }
  apply bind_ran in H as [(w3 & state & Hx3 & H)|[(o' & Hx3 & _) Ho]];
    apply lease_ran in Hx3 as (L3 & T3 & Hx3); [|apply (Hearly w'); [congruence|done|done]].
  destruct (Hx3 _ eq_refl) as (now & Hstate & T3'). case_bool_decide as Ef; cbn [negb] in H.
  2: { injection H as <- <-. exists []. rewrite app_nil_r. split; [congruence|].
       apply (rs_legacy _ _ (w_tick w2)); [lia|done]. }
  apply bind_ran in H as [(w4 & migrated & Hm & H)|[(o' & Hm & Hn) Ho]];
    apply migrate_ran in Hm as [T4 [[L4 Hm]|(L4 & Em & n & Hn1 & Hn2)]].
  - injection H as <- <-. exists []. rewrite app_nil_r. split; [congruence|]. destruct migrated.
    + destruct (Hm _ eq_refl eq_refl) as (n & Hn1 & Hn2). apply (rs_durable _ _ n); [lia|done].
    + apply (rs_legacy _ _ (w_tick w2)); [lia|done].
  - injection H as <- <-. injection Em as ->. eexists. split; [by rewrite L4, L3, L2, L1|].
    apply (rs_moved _ _ n); [|lia|done]. exists (w_tick w3), now. split; [lia|]. by rewrite <- Hstate.
  - apply (Hearly w'); [congruence|done|done].
  - subst o'. by destruct (Hn true).
Qed.

End State.

(** ** Witnesses: a launch, a stop, a diagnosis *)

Section Demo.
Existing Instance newest_tie.

#[local] Instance host_formatting : Formatting := {|
  format_f0 := λ _, ""; format_f1 := λ _, ""; json_text := λ _, ""; json_repr := λ _, "n";
|}.

(** The process 7 runs until step six. *)
#[local] Instance host_system : HostSystem := {|
  os_is_nt := false;
  os_pid_exists n pid := (pid =? 7) && Nat.leb n 6;
  os_spawn _ _ := Ok 7;
  os_poll _ := None;
  resolve p := p;
  beside _ name := name;
  python_executable := "python3";
  windowless_python := None;
  host_uuid _ := "u";
|}.

Definition own_lease : WatchdogLease :=
  mkWatchdogLease "host:u" 7 "h" (of_Z 100) (of_Z 100) (of_Z 190).

(** The launched process takes the lease at step six. *)
#[local] Instance host_env : RunEnv Resident := {|
  run_now n := of_Z (100 + Z.of_nat n);
  run_others n s := if Nat.eqb n 6
    then s <| rs_registry := (rs_registry s) <| rg_watchdogs := {["default" := own_lease]} |> |>
    else s;
  run_killed _ := false;
|}.

Definition empty_host : Runs.World Resident host_event :=
  Runs.mkWorld (mkResident empty_registry no_observations) 0 [].

Definition host_args : LaunchArgs :=
  mkLaunchArgs "/repo" "/db" (of_Z 30) true false false (of_Z 1500) None None None (of_Z 20).

Definition host_launch := launch_detached_watchdog 9 host_args empty_host.

Lemma host_launch_is_fenced_witness :
  match host_launch with
  | (w', Done (Some x)) =>
      lr_lease_ready x = true ∧ lr_lease_pid x = Some 7 ∧ length (w_log w') = 3%nat ∧
      launch_trace host_args (w_log w') (Done (Some x))
  | _ => False
  end.
Proof.
  destruct host_launch as [w' o] eqn:E.
  destruct (host_launch_is_fenced 9 host_args empty_host w' o E) as (events & Hl & Ht).
  assert (w_log w' = events) as Hlog by (rewrite Hl; done).
  vm_compute in E. injection E as <- <-. split_and!; [vm_compute; reflexivity..|].
  rewrite Hlog. exact Ht.
Defined.

Definition running_host : Runs.World Resident host_event :=
  Runs.mkWorld (mkResident (empty_registry <| rg_watchdogs := {["default" := own_lease]} |>)
    no_observations) 20 [].

Definition host_stop (start : nat) :=
  stop_watchdog_host 20 "default" (of_Z 90) (of_Z 35)
    (Runs.mkWorld (w_store running_host) start []).

Lemma host_stop_is_fenced_witness :
  match host_stop 20 with
  | (w', Done (Some x)) =>
      sr_stopped x = true ∧ sr_stop_lease_cleared x = true ∧
      watchdog_lease (rs_registry (w_store w')) "default" = None ∧
      stop_trace "default" (w_log w') (Done (Some x))
  | _ => False
  end.
Proof.
  destruct (host_stop 20) as [w' o] eqn:E.
  destruct (host_stop_is_fenced _ _ _ _ _ _ _ E) as (events & Hl & Ht).
  assert (w_log w' = events) as Hlog by (rewrite Hl; done).
  vm_compute in E. injection E as <- <-. split_and!; [vm_compute; reflexivity..|].
  rewrite Hlog. exact Ht.
Defined.

(** Nobody else, nothing bound, a desktop that answers. *)
Definition still_env : RunEnv Resident := {|
  run_now n := of_Z (100 + Z.of_nat n); run_others _ s := s; run_killed _ := false;
|}.

Lemma still_alone n s : run_others (RunEnv := still_env) n s = s.
Proof. done. Qed.

#[local] Instance host_desktop : Desktop := {|
  uia_observe _ _ _ _ := raise UiaProbeUnavailable "no window";
  uia_discover _ := Ok [];
  uia_chrome := None;
  uia_timeout_s := of_Z 8;
  lsm_telemetry := None;
  workspace_probe _ _ _ := raise OSError "";
  uia_transport _ _ := raise UiaActionUnavailable "";
  uia_ack _ _ := raise UiaActionUnavailable "";
  fresh_uuid _ := "u";
  current_directory := "/";
|}.

#[local] Instance host_probes : DoctorProbes := {|
  dp_jobs := None; dp_memory _ := Some (of_dec 5 1); dp_chrome_error _ := Some None;
  dp_playwright := true;
|}.

Definition diagnosis (task_id : option string) (r : Registry) :=
  run_doctor (env := still_env) task_id false
    (Runs.mkWorld (mkResident r no_observations) 0 []).

Definition gone_diagnosis := diagnosis (Some "gone") empty_registry.

Definition gone_checks : list check :=
  match gone_diagnosis.2 with Done (_, checks) => checks | _ => [] end.

Example gone_is_diagnosed : gone_diagnosis.2 = Done (overall gone_checks, gone_checks).
Proof. vm_compute. reflexivity. Qed.

Lemma doctor_only_reads_witness :
  overall gone_checks = FAIL ∧ ("task", FAIL) ∈ gone_checks ∧
  w_store gone_diagnosis.1 = mkResident empty_registry no_observations.
Proof.
  destruct (doctor_only_reads (env := still_env) still_alone (Some "gone") false
    (Runs.mkWorld (mkResident empty_registry no_observations) 0 []) gone_diagnosis.1
    gone_diagnosis.2 (surjective_pairing _)) as [Hs Ho].
  assert (("task", FAIL) ∈ gone_checks) as Hin.
  { apply list_elem_of_In. assert (List.last gone_checks ("", PASS) = ("task", FAIL)) as <-
      by (vm_compute; reflexivity).
    assert (gone_checks ≠ []) as Hne by (intros H; vm_compute in H; discriminate H).
    rewrite (app_removelast_last ("", PASS) Hne) at 2. apply List.in_or_app. right. by left. }
  split; [|exact (conj Hin Hs)]. apply (Ho _ _ gone_is_diagnosed), Exists_exists.
  exists ("task", FAIL). split; [exact Hin|reflexivity].
Defined.

(** One probe slot, as the tagged window of a parked worker leaves it, and the doctor fails. *)
Example doctor_fails_with_a_slot :
  (diagnosis None (empty_registry <| rg_probe_slots := {["probe:default" :=
     mkProbeWindowSlotBinding "probe:default" "tok" "w" "https://chatgpt.com/c/1"
       "https://chatgpt.com/c/1#t" 1 2 "chrome" "windows_uia_lws_probe" (of_Z 1) (of_Z 1)
       (of_Z 500)]} |>)).2 = Raised (Exn NameError "name 'now' is not defined").
Proof. vm_compute. reflexivity. Qed.

End Demo.
